(* ===== verification/_CoqProject ===== *)
-Q . S2P
Prelude.v
Wire.v
Text.v
EdgeModules.v
EdgeTraces.v
EdgePower.v
EdgeToolGuard.v
EdgeResources.v
EdgeController.v
EdgeWitnesses.v
Rbac.v
Schedules.v
Access.v
Faults.v
Money.v
AuditLog.v
Database.v
Membership.v
ToolBilling.v
Api.v
Throttle.v
Power.v
PowerTopology.v
Training.v
TrainingGate.v
GuardStore.v
Hooks.v
Trail.v
Bypass.v
Alerts.v
Webhooks.v
WebhookApi.v
Accounts.v
Auth.v
Mfa.v
MfaApi.v
AuthApi.v
UsersApi.v
AccountSurface.v
AccountFrames.v
AccountTables.v
AccountHistory.v
AccountSessions.v
AccountSafety.v
AccountOnce.v
AccountPrivacy.v
GuardApi.v
GuardSafety.v
GuardReach.v
GuardSweep.v
AllowLists.v
Entitlement.v
Cmi5Manifest.v
Cmi5RoundTrip.v
Cmi5Session.v
Cmi5Launch.v
Cmi5Store.v
Cmi5Courses.v
Cmi5Lrs.v
Cmi5Api.v
Cmi5Grants.v
Cmi5Surface.v
ServerWitnesses.v
PlantWitnesses.v
GuardWitnesses.v
TrailWitnesses.v
AccountWitnesses.v
Merge.v
MergeSafety.v
Duplicates.v
MergeWitnesses.v
Broadcast.v
Calendar.v
CalendarWitnesses.v
GroupsIo.v
Devices.v
Inbound.v
RbacAdmin.v
AdminWitnesses.v
Cmi5Witnesses.v
