(* ===== verification/Prelude.v ===== *)
(** * Verification of CS:Spaces

    CS:Spaces runs a shared workshop: members, dues, doors, machines, training.  Two
    programs carry its logic.  The _server_ ([src/server]) keeps the database
    and decides who may do what and what it costs.  An _edge_ controller
    ([src/edge]), beside the machines, caches what the server decided and
    energizes tools and unlocks doors from it, with or without the network.
    [src/css_lib] is the vocabulary they share and [src/cmi5] the e-learning standard
    the server runs courses by.  This development models the decisions of all
    four and the state behind them.

    ** The parts and how they meet

    The server compiles access rules to card-digest lists, signs commands and
    publishes three things to each edge: policies (the allow-lists), module
    wiring and power lockouts.  The edge's devices publish badges, usage,
    button presses and readings to its local broker.  A badge is answered from
    the cache, or asked of the server; a yes opens a session, and a loop keeps
    a lease of the tool's power renewed while the interlock engine says it may
    be energized.  At the server a badge passes power, training, money, schedule
    and binding.  Sessions of metered tools place a hold on the member's
    balance and settle to one charge; the daily dues cycle spends from the same
    balance.  Training is signed for, or granted by what a course's content
    reports.  Everything leaves a row in the audit trail, which alerts and
    webhooks are made of.  People reach all of it through accounts: a password,
    a second factor, a token.

    ** The files

    Shared: this file; [Text], the functions on strings that the standard library of
    Rust gives, with the printing and reading of floats; [Faults], the monad the server is
    written in.  A run threads the tables and a schedule of what its calls meet: nothing, a
    refusal, or a commit whose reply is lost.  [triple], [keeps], [ends], [reads],
    [honest] and [answers] are its logic, [Part] and [within] how a component's
    calls run on the tables of a larger one; its module [Interleaving] lets requests take
    their calls in any order.

    The edge, in the order of its dependencies:
    - [Wire]: [css_lib/src/wire.rs], [ct.rs], [sig.rs].
    - [EdgeModules] (module [ModuleState]): [edge/src/modules.rs], the interlock
      engine and the watchdog; [EdgeTraces] (module [ModuleTraces]): the same
      state as a machine whose steps are the critical sections.
    - [EdgePower], [EdgeToolGuard], [EdgeResources]: [edge/src/power.rs],
      [toolguard.rs] with the hold of [doors.rs], [resources.rs].
    - [EdgeController] (module [Controller]): [edge/src/mqtt.rs] and the tasks of
      [main.rs], one function per handler, and [step], a whole edge.

    The server, each file on the ones before:
    - [Rbac], [Schedules], [Access]: [server/src/rbac.rs], [schedules.rs],
      [access_engine.rs] with the rule compiler of [doors.rs].
    - [Money], [AuditLog], [Database], [Membership], [ToolBilling], [Api],
      [Throttle]: decimal values; the vocabulary of events; the tables behind
      money and the methods on them; [membership.rs] with the payment events of
      [api/stripe.rs]; [tool_billing.rs]; [api/errors.rs]; [throttle.rs].
    - [Power], [PowerTopology]: [api/power.rs] and its tables; [Training],
      [TrainingGate]: [api/training.rs] and [api/waivers.rs], and the gate of a tool.
    - [GuardStore], [GuardApi], [GuardSafety], [GuardReach], [GuardSweep],
      [AllowLists], [Entitlement]: the surface devices use ([api/toolguard.rs],
      [api/resources.rs], [session_sweep.rs]) and the policies it publishes.
    - [Hooks], [Trail], [Bypass], [Alerts], [Webhooks], [WebhookApi]: the audit
      trail, what watches it, and who is told ([bypass.rs], [alerts.rs],
      [webhooks.rs] and their routes).
    - [Accounts], [Auth], [Mfa], [MfaApi], [AuthApi], [UsersApi], [AccountSurface]:
      people's rows, [auth.rs], [mfa.rs], and the routes of [api/auth.rs],
      [api/mfa.rs], [api/users.rs] and the user part of [api/admin.rs];
      [AccountFrames] and [AccountTables] say what each handler and each method
      leaves alone, [AccountHistory] is the server answering requests in turn,
      [AccountSessions], [AccountSafety], [AccountOnce], [AccountPrivacy] its theorems.
    - [Cmi5Manifest], [Cmi5RoundTrip], [Cmi5Session],
      [Cmi5Launch]: [src/cmi5]; [Cmi5Store], [Cmi5Courses], [Cmi5Lrs], [Cmi5Api],
      [Cmi5Grants], [Cmi5Surface]: [server/src/cmi5.rs] and [api/cmi5.rs].
    - [Merge], [MergeSafety], [Duplicates]: [user_merge.rs], over tables of named columns
      whose references are a parameter, and [duplicates.rs].
    - [RbacAdmin] (with the module [RbacSafety]): [api/rbac_admin.rs] and the methods
      behind it, with the graph of roles the server keeps in memory.
    - [Devices] (with [Capabilities] and [DeviceSafety]): [api/devices.rs], invites and
      devices, as requests whose calls interleave; [css_lib/src/capabilities.rs].
    - [Inbound] (with [Channels] and [InboundSafety]): [devices_transport.rs], the
      connections of devices, and [devices_inbound.rs], what they report.
    - [Broadcast]: [toolguard_broadcast.rs], when a changed allow-list goes out.
    - [Calendar]: [calendar.rs] with [calendar/ics.rs] and [calendar/window.rs].
    - [GroupsIo]: [groupsio_sync.rs], [groupsio.rs], [api/groupsio.rs], the mailing list.
    The files ending in [Witnesses] instantiate every interface with
    concrete functions and apply the theorems to them.

    ** What is shown

    _A tool is energized only with a reason._  [lease_has_recent_allow],
    [latched_until_reset] and [stale_sync_cannot_reopen] hold of every interleaving of
    the watchdog with the other tasks; [tick_grants_are_backed] and [run_on_is_bounded]
    are of one pass of the watchdog that nothing comes between; [evaluate_allow_iff]
    characterizes the interlock engine.

    _A yes has a cause._  [every_yes_has_a_cause] follows a whole edge over any
    events, [scan_yes_is_earned] and [device_reaches_its_own] the server's device surface under any
    faults, and [offline_yes_is_entitled] joins the two: what an edge lets in
    without asking, from a policy the server built, the server would have let in,
    one unread balance for each fault apart.
    [may_allow_iff], [decide_allow_iff] and [tool_gate_iff] are the decisions,
    [lists_agree_with_engine] their agreement; [hold_never_drops], [stop_frees] and
    [sweep_leaves_nothing_stale] say that doors stay open and tools come free.

    _Money._  Under every schedule of faults: [dues_never_overdraw], [charged_exactly_once],
    [last_admin_survives]; [settle_frees_the_hold] and
    [renewal_settles] say what a stop and a renewal end with, the latter without faults.

    _Power and training._  [topology_stays_sound]; [lockout_latches];
    [grant_is_deserved]: training is written by content only for its own learner and
    only for a complete history; [session_reaches_its_own]: of all the tables a credential
    changes the rows of its own registration, that learner's progress through one step
    and the record of it; [token_buys_one_session],
    [manifest_roundtrip], [imported_exports_as_it_came], [extraction_bounded].

    _The trail._  [trail_records_changes], [acknowledged_once],
    [each_subscriber_is_told], [whatever_is_registered_can_fire].

    _Accounts._  [session_needs_its_factors], [session_ends_with_its_password],
    [code_opens_once], [reset_link_sets_one_password], [reset_request_says_nothing],
    [guessing_is_bounded].

    _Accounts joined, roles edited._  [merge_leaves_no_mention]: after a merge no foreign
    key, account name of a course or access rule that spells identifiers as they print
    names the absorbed account;
    [merge_keeps_history]: outside the tables it thins by hand every row is still there,
    changed only where it named that account.
    [roles_stay_sound]: no edit makes a cycle of roles or touches those of the system;
    [enforcement_follows]: what is enforced after an edit is what the tables say.

    _Devices._  [one_device_per_invite] holds of requests at once, call by call under any
    faults; [slot_is_newest] of connections that come and go; [events_are_signed] of what
    a device reports of a door: what is written down of a card is never its code.

    _What members see._  [feed_shows_only] and [feed_shows_all]: an answer of the calendar
    has the occurrences of the feeds that touch its window, as far as rules are expanded,
    and no others.
    [reconcile_mirrors]: a pass of the mailing list leaves exactly who is owed to be on it,
    and one cut short has moved towards that only.

    The defects found are theorems or examples too, where the model can state them.

    ** Conventions

    Time is nanoseconds in [Z]; strings are [string], maps [gmap]; readings of
    devices are IEEE floats of their own width; money is rational, compared by
    value.  Machine integers are [Z] with the saturation or wrap-around of the
    source written where it can occur.  An operation that reads the clock takes
    the reading as its argument, one per request unless the source's separate
    readings matter (the machine of [EdgeTraces] takes one per step).  Requests of the
    server are answered one after another, each under any faults, except in [Devices],
    where they interleave; the file system does
    not fail.  What needs two requests at once elsewhere is recorded as a finding where it
    matters.

    Code that is not in this repository is an interface, a class with the laws
    its documentation gives: identifiers ([Uuid]), fresh row ids ([IdSource]), JSON ([Serde],
    [Cmi5Json], [IntervalParser], [JsonbText]), the time zone database ([TimeZone]), civil months
    ([Calendar]), rounding ([Decimal]), XML ([QuickXml]), digests ([TokenHash]), the
    card cipher ([CardCipher]), number formatting ([Fmt]), letters ([CaseFold]), Argon2
    ([PasswordHashUtil]), tokens ([Jwt]), one-time codes ([TotpLib]), passkeys
    ([WebauthnLib]), the generators ([Entropy]), the mailer and reCAPTCHA ([Mailer], [Recaptcha]),
    what sends webhooks ([Webhooks.Libraries]), the texts of a merge ([MergeText]), dates and
    feeds ([Chrono], [Zones], [ICalendar], [RRules] with [RRuleLaws], [PlusHours], [TimeText]) and
    the group at Groups.io ([Service]); RFC 3339 parsing and the MAC are plain functions, and the
    foreign keys of the database the argument [references] of a merge, which the witnesses fill
    with those of the schema.

    Recursion on fuel: the closure of roles runs on [closure_fuel], the cycle
    check on one more than the number of roles, and the search for the end of a
    window on the number of intervals; each is proved enough, so the traversal
    always ends with its result.  The renewal loop keeps the source's own bound
    of 1200 periods, and [renewal_settles] assumes less than ninety years of
    arrears, within which the bound is never met.  A manifest is read on as much fuel as it has
    events.

    ** What is not modelled

    Transports, start-up and configuration files, the web front ends and the command
    line, which move data the models take as arguments or return.  The listings and
    editors of rows that carry no rule of their own: places and the rule editor of doors,
    the listing of duplicates, the rendering of an event's description
    ([calendar/description.rs]), the menu.  Of a merge, the columns that triggers stamp and the
    tables its own comments exempt.  Of the mailing list, the ticker and the task that take
    events and passes one at a time.  Cryptography. *)
From stdpp Require Export base tactics decidable gmap strings list fin_maps pretty.
From Stdlib Require Export ZArith Lia.
From Stdlib Require Import Ascii.

#[global] Open Scope Z_scope.

(** ** Notations *)

Declare Scope css_scope.
Delimit Scope css_scope with css.

(** Rust's [==] on data with decidable equality. *)
Notation "x ≟ y" := (bool_decide (x = y)) (at level 70, no associativity) : css_scope.
#[global] Open Scope css_scope.

(** ** Time

    [chrono::DateTime<Utc>] is a count of nanoseconds since the epoch and
    [chrono::Duration] a difference of two of them. *)
Abbreviation instant := Z (only parsing).
Abbreviation duration := Z (only parsing).

Definition millis (n : Z) : duration := n * 1000000.
Definition seconds (n : Z) : duration := n * 1000000000.

(** [Duration::num_milliseconds]: whole milliseconds, truncated toward zero. *)
Definition num_milliseconds (d : duration) : Z := Z.quot d 1000000.

(** The cast [as i32]: the low 32 bits, read as a signed integer. *)
Definition as_i32 (z : Z) : Z := (z + 2 ^ 31) mod 2 ^ 32 - 2 ^ 31.

Definition i32_range (z : Z) : Prop := - 2 ^ 31 <= z < 2 ^ 31.

(** ** Generic helpers *)

(** [HashMap::entry(k).or_insert(v)], as the map after and the value there. *)
Definition or_insert `{Countable K} {V} (k : K) (v : V) (m : gmap K V) : gmap K V * V :=
  match m !! k with
  | Some w => (m, w)
  | None => (<[k := v]> m, v)
  end.

(** Rust's [sort_by]: stable.  [leb] is "not greater". *)
Fixpoint insert_by {A} (leb : A -> A -> bool) (x : A) (l : list A) : list A :=
  match l with
  | [] => [x]
  | y :: l' => if leb x y then x :: y :: l' else y :: insert_by leb x l'
  end.

Definition sort_by {A} (leb : A -> A -> bool) (l : list A) : list A :=
  foldr (insert_by leb) [] l.

(** [Iterator::find]. *)
Fixpoint find_first {A} (f : A -> bool) (l : list A) : option A :=
  match l with
  | [] => None
  | x :: l' => if f x then Some x else find_first f l'
  end.

Definition is_some_and {A} (o : option A) (f : A -> bool) : bool :=
  match o with Some x => f x | None => false end.

Definition is_none_or {A} (o : option A) (f : A -> bool) : bool :=
  match o with Some x => f x | None => true end.

Definition option_or {A} (a b : option A) : option A :=
  match a with Some _ => a | None => b end.

Definition is_some {A} (o : option A) : bool :=
  match o with Some _ => true | None => false end.

(** ** JSON

    [serde_json::Value], as far as the program looks into one. *)
Inductive json : Type :=
  | JNull
  | JBool (b : bool)
  | JInt (z : Z)
  | JStr (s : string)
  | JArr (l : list json)
  | JObj (fields : list (string * json)).

(** [Value::get] with a string key: [None] on anything that is not an object. *)
Definition json_get (v : json) (k : string) : option json :=
  match v with
  | JObj fs => snd <$> find_first (fun kv => kv.1 ≟ k) fs
  | _ => None
  end.

Definition json_as_bool (v : json) : option bool :=
  match v with JBool b => Some b | _ => None end.
Definition json_as_str (v : json) : option string :=
  match v with JStr s => Some s | _ => None end.
Definition json_as_i64 (v : json) : option Z :=
  match v with
  | JInt z => if (- 2 ^ 63 <=? z) && (z <? 2 ^ 63) then Some z else None
  | _ => None
  end.

(** ** The uuid crate, as an interface

    Identifiers are opaque; the program compares them, prints them and parses
    them back.  Only the round trip is relied on. *)
Class Uuid := {
  uuid : Type;
  uuid_eq_dec :: EqDecision uuid;
  uuid_countable :: Countable uuid;
  uuid_nil : uuid;
  uuid_parse : string -> option uuid;
  uuid_show : uuid -> string;
  uuid_parse_show : forall u, uuid_parse (uuid_show u) = Some u;
}.

(** [Ord] of identifiers, as of their bytes, is the order of their texts. *)
Definition uuid_leb `{Uuid} (x y : uuid) : bool := String.leb (uuid_show x) (uuid_show y).

(** A concrete instance, for evaluating the model: identifiers are their text. *)
Definition string_uuid : Uuid := {|
  uuid := string;
  uuid_nil := "00000000-0000-0000-0000-000000000000";
  uuid_parse := Some;
  uuid_show := fun s => s;
  uuid_parse_show := fun _ => eq_refl;
|}.

(** ** Automation *)

Create HintDb css.
Create Rewrite HintDb css.

Ltac split_andb :=
  repeat match goal with
  | H : andb _ _ = true |- _ => apply andb_true_iff in H; destruct H
  | H : orb _ _ = false |- _ => apply orb_false_iff in H; destruct H
  | H : negb _ = true |- _ => apply negb_true_iff in H
  | H : negb _ = false |- _ => apply negb_false_iff in H
  | H : bool_decide _ = true |- _ => apply bool_decide_eq_true in H
  | H : bool_decide _ = false |- _ => apply bool_decide_eq_false in H
  | H : Z.ltb _ _ = true |- _ => apply Z.ltb_lt in H
  | H : Z.ltb _ _ = false |- _ => apply Z.ltb_ge in H
  | H : Z.leb _ _ = true |- _ => apply Z.leb_le in H
  | H : Z.leb _ _ = false |- _ => apply Z.leb_gt in H
  end.

(** Split every [match] and [if] of the goal and close the absurd branches. *)
Ltac case_all := (repeat (case_match; simplify_eq/=)); split_andb; try done.

(** Like [case_all], for the matches of the hypothesis [H]. *)
Ltac case_in H :=
  repeat match type of H with
  | context [ match ?x with _ => _ end ] =>
      let E := fresh "E" in destruct x eqn:E; simplify_eq/=
  end; split_andb.

(** Open every conjunction, disjunction and existential of the context. *)
Ltac open_all :=
  repeat match goal with
  | H : _ /\ _ |- _ => destruct H
  | H : exists _, _ |- _ => destruct H
  | H : _ \/ _ |- _ => destruct H
  end; simplify_eq/=.

(** An equivalence between two absurd statements. *)
Ltac refute := simpl; split; [done|]; intros; open_all; first [done | congruence].

(** ** Shared lemmas *)

Section find_first.
Context {A : Type}.
Implicit Types (f : A -> bool) (l : list A).

Lemma find_first_Some f l x :
  find_first f l = Some x -> x ∈ l /\ f x = true.
Proof.
  induction l as [|y l IH]; simpl; [done|].
  destruct (f y) eqn:Hy; intros H; simplify_eq.
  - split; [left | done].
  - destruct (IH H). split; [by right | done].
Qed.

Lemma find_first_None f l :
  find_first f l = None <-> forall x, x ∈ l -> f x = false.
Proof.
  induction l as [|y l IH]; simpl.
  - split; [intros _ x Hx; inversion Hx | done].
  - destruct (f y) eqn:Hy; split; intros H.
    + done.
    + by rewrite (H y) in Hy by left.
    + intros x Hx. apply elem_of_cons in Hx as [-> | Hx]; [done|].
      by apply IH.
    + apply IH. intros x Hx. apply H. by right.
Qed.

Lemma find_first_is_Some f l x :
  x ∈ l -> f x = true -> is_Some (find_first f l).
Proof.
  intros Hx Hf. destruct (find_first f l) eqn:E; [eauto|].
  rewrite find_first_None in E. by rewrite E in Hf.
Qed.

Lemma find_first_ext f g l :
  (forall x, x ∈ l -> f x = g x) -> find_first f l = find_first g l.
Proof.
  induction l as [|y l IH]; simpl; intros H; [done|].
  rewrite (H y) by left. rewrite IH; [done|].
  intros x Hx. apply H. by right.
Qed.
End find_first.

Section sort_by.
Context {A : Type} (leb : A -> A -> bool).

Lemma insert_by_perm x l : insert_by leb x l ≡ₚ x :: l.
Proof.
  induction l as [|y l IH]; simpl; [done|].
  destruct (leb x y); [done|]. rewrite IH. apply Permutation_swap.
Qed.

Lemma sort_by_perm l : sort_by leb l ≡ₚ l.
Proof.
  induction l as [|x l IH]; simpl; [done|].
  rewrite insert_by_perm. by f_equiv.
Qed.

Lemma elem_of_sort_by x l : x ∈ sort_by leb l <-> x ∈ l.
Proof. by rewrite sort_by_perm. Qed.
End sort_by.
#[export] Hint Rewrite @elem_of_sort_by : css.

Lemma or_insert_fst_lookup `{Countable K} {V} (k j : K) (v : V) (m : gmap K V) :
  (or_insert k v m).1 !! j = if decide (k = j) then Some (or_insert k v m).2 else m !! j.
Proof.
  unfold or_insert. destruct (m !! k) eqn:E; simpl; case_decide; subst;
    rewrite ?lookup_insert_eq, ?lookup_insert_ne by done; done.
Qed.

Lemma as_i32_id z : i32_range z -> as_i32 z = z.
Proof. unfold as_i32, i32_range. intros. rewrite Z.mod_small; lia. Qed.

Lemma as_i32_range z : i32_range (as_i32 z).
Proof.
  unfold as_i32, i32_range.
  pose proof (Z.mod_pos_bound (z + 2 ^ 31) (2 ^ 32) ltac:(lia)). lia.
Qed.

(** Lists filtered by a boolean predicate, the shape Rust's iterators have. *)
Lemma elem_of_lfilter {A} (f : A -> bool) x (l : list A) :
  x ∈ List.filter f l <-> x ∈ l /\ f x = true.
Proof. rewrite !list_elem_of_In. apply filter_In. Qed.

Lemma existsb_elem {A} (f : A -> bool) (l : list A) :
  existsb f l = true <-> exists x, x ∈ l /\ f x = true.
Proof.
  rewrite existsb_exists. split; intros (x & Hx & Hf); exists x;
    split; try done; by apply list_elem_of_In.
Qed.
Lemma NoDup_fmap_filter {A B} (f : A -> B) p l : NoDup (f <$> l) -> NoDup (f <$> List.filter p l).
Proof.
  induction l as [|x l IH]; csimpl; [done|]. rewrite NoDup_cons. intros [Hx Hl].
  destruct (p x); csimpl; [|by apply IH]. apply NoDup_cons. split; [|by apply IH].
  intros (y & Heq & [Hy _]%elem_of_lfilter)%list_elem_of_fmap. apply Hx. rewrite Heq.
  by apply list_elem_of_fmap_2.
Qed.

#[export] Hint Rewrite @elem_of_lfilter : css.

Lemma omap_cons {A B} (f : A -> option B) x l :
  omap f (x :: l) = match f x with Some y => y :: omap f l | None => omap f l end.
Proof. done. Qed.
