(* ===== verification/Wire.v ===== *)
(** * The shared wire types ([css_lib/src/wire.rs]) and the credential helpers
    beside them ([css_lib/src/ct.rs], [css_lib/src/sig.rs])

    Structs are records with the source's field names under a short prefix.
    Ids travel as strings; [f64] readings are IEEE binary64 values. *)
From S2P Require Import Prelude.
From Stdlib Require Import Ascii SpecFloat.

Module Wire.

(** [f64]: the Standard Library's executable IEEE 754 values. *)
Abbreviation f64 := spec_float (only parsing).
Definition f64_zero : f64 := S754_zero false.
Definition f64_add (x y : f64) : f64 := SFadd 53 1024 x y.
(** Rust's [a > b]: false whenever either is a NaN. *)
Definition f64_gt (x y : f64) : bool := SFltb y x.

(** ** Message kinds *)

Definition kind_NAME : string := "name".
Definition kind_DOORS_STATE : string := "doors/state".
Definition kind_DOORS_UNLOCK : string := "doors/unlock".
Definition kind_TOOLGUARD_STATE : string := "toolguard/state".
Definition kind_POWER_STATE : string := "power/state".
Definition kind_MODULE_STATE : string := "module/state".
Definition kind_RESOURCE_POLICY : string := "resource/policy".

Definition SCAN_REQUEST : string := "resource/request/scan".
Definition STOP_REQUEST : string := "resource/request/stop".
Definition USAGE_REQUEST : string := "resource/request/usage".
Definition POWER_REPORT_REQUEST : string := "resource/request/power".
Definition RESOURCE_ALIVE_REQUEST : string := "resource/request/alive".
Definition SCAN_RESPONSE : string := "resource/response/scan".
Definition STOP_RESPONSE : string := "resource/response/stop".
Definition USAGE_RESPONSE : string := "resource/response/usage".
Definition POWER_REPORT_RESPONSE : string := "resource/response/power".
Definition RESOURCE_LEASE : string := "resource/lease".
Definition KIOSK_REFRESH_REQUEST : string := "kiosk/refresh".

(** ** [resource/policy] *)

Record ResourcePolicy := {
  rp_id : string;
  rp_external_id : option string;
  rp_name : string;
  rp_kind : string;
  rp_session_profile : string;
  rp_status : string;
  rp_requires_online : bool;
  rp_in_use : bool;
  rp_enabled : bool;
  rp_pulse_ms : option Z;
  rp_allow : list string;
  rp_deny : list string;
  rp_hold_until : option string;
}.

Record Principal := {
  pr_digest : string;
  pr_full_name : string;
  pr_is_active : bool;
  pr_authorized : list string;
}.

Record ResourcePolicyPayload := {
  rpp_device_id : string;
  rpp_as_of : string;
  rpp_profile_field : string;
  rpp_resources : list ResourcePolicy;
  rpp_principals : list Principal;
}.

(** ** [module/state] *)

Record DeviceBinding := {
  binding_id : string;
  binding_device_id : string;
  binding_role : string;
  binding_name : string;
  binding_params : json;
  binding_on_disconnect : string;
  start_stage : Z;
  start_delay_ms : Z;
  run_on_ms : Z;
  pulse_ms : Z;
  hold_open_access : bool;
}.

Record ToolInterlockRule := {
  rule_id : string;
  rule_kind : string;
  rule_condition : string;
  rule_source_module_id : option string;
  debounce_ms : Z;
  rule_latch : bool;
  rule_reset : string;
  rule_enforcement : string;
}.

Record ToolModuleTool := {
  tool_id : string;
  external_id : option string;
  tool_kind : string;
  tool_session_profile : string;
  tool_in_use : bool;
  modules : list DeviceBinding;
  interlocks : list ToolInterlockRule;
  power_fails_safe : bool;
}.

Record ToolModuleStatePayload := {
  tms_as_of : string;
  tms_tools : list ToolModuleTool;
}.

(** ** [power/state] *)

Record PowerStateCircuit := {
  circuit_id : string;
  amperage_limit : string;
}.

Record PowerStateTool := {
  pt_id : string;
  pt_external_id : option string;
  pt_circuit_id : option string;
}.

Record PowerStatePayload := {
  ps_as_of : string;
  locked_tool_ids : list string;
  ps_circuits : list PowerStateCircuit;
  ps_tools : list PowerStateTool;
}.

(** ** The local broker's messages *)

Record LocalAliveRequest := { alive_device_id : string }.

Record LocalScan := { scan_resource : string; scan_card : string }.

Record LocalStop := { stop_resource : string; stop_card : option string }.

Record LocalUsage := {
  usage_resource : string;
  usage_card : option string;
  usage_seconds : option f64;
  usage_active_seconds : option f64;
  usage_temperature : option f64;
}.

Record LocalPower := {
  power_resource : string;
  power_device_id : option string;
  relay_on : option bool;
  draw_now : option f64;
  voltage_now : option f64;
  max_voltage : option f64;
  power_amperage_limit : option f64;
  self_tripped : option bool;
}.

Record LocalStrike := { strike_pulse_ms : Z }.

Record LocalScanReply := {
  reply_resource : string;
  reply_authorized : bool;
  reply_reason : string;
  reply_strike : option LocalStrike;
}.

(** [LocalScanReply::new]: a refusal never carries a strike. *)
Definition LocalScanReply_new (resource : string) (authorized : bool)
    (reason : string) (pulse_ms : option Z) : LocalScanReply := {|
  reply_resource := resource;
  reply_authorized := authorized;
  reply_reason := reason;
  reply_strike := if authorized
    then (fun p => {| strike_pulse_ms := p |}) <$> pulse_ms
    else None;
|}.

Record ResourceLeasePayload := {
  lease_resource : string;
  lease_device_id : string;
  lease_grant : bool;
  lease_ttl_ms : Z;
  lease_reason : option string;
}.

(** ** Constant-time comparison *)

(** The loop of [constant_time_eq]: [diff |= x ^ y] over the zipped bytes. *)
Fixpoint ct_diff (a b : list Z) (diff : Z) : Z :=
  match a, b with
  | x :: a', y :: b' => ct_diff a' b' (Z.lor diff (Z.lxor x y))
  | _, _ => diff
  end.

Definition constant_time_eq (a b : list Z) : bool :=
  if negb (Nat.eqb (length a) (length b)) then false
  else ct_diff a b 0 =? 0.

Definition string_bytes (s : string) : list Z :=
  (fun c => Z.of_nat (nat_of_ascii c)) <$> String.list_ascii_of_string s.

Definition constant_time_str_eq (a b : string) : bool :=
  constant_time_eq (string_bytes a) (string_bytes b).

Lemma ct_diff_zero a b d :
  length a = length b -> ct_diff a b d = 0 <-> d = 0 /\ a = b.
Proof.
  revert b d. induction a as [|x a IH]; intros [|y b] d; simpl; intros Hl;
    try done; [naive_solver|].
  rewrite IH by lia. rewrite Z.lor_eq_0_iff, Z.lxor_eq_0_iff. naive_solver.
Qed.

#[local] Instance ascii_byte_inj : Inj (=) (=) (fun c => Z.of_nat (nat_of_ascii c)).
Proof.
  intros c d Hcd. apply Nat2Z.inj in Hcd.
  rewrite <- (ascii_nat_embedding c), Hcd. apply ascii_nat_embedding.
Qed.

Lemma string_bytes_inj s t : string_bytes s = string_bytes t -> s = t.
Proof.
  intros H. unfold string_bytes in H. apply list_fmap_eq_inj in H; [|apply _].
  rewrite <- (String.string_of_list_ascii_of_string s), H.
  apply String.string_of_list_ascii_of_string.
Qed.

(** The constant-time comparison decides equality; every decision that matches
    a presented digest rests on this. *)
Lemma constant_time_str_eq_spec a b : constant_time_str_eq a b = (a ≟ b).
Proof.
  unfold constant_time_str_eq, constant_time_eq.
  destruct (Nat.eqb_spec (length (string_bytes a)) (length (string_bytes b)))
    as [Hl | Hl]; simpl.
  - destruct (Z.eqb_spec (ct_diff (string_bytes a) (string_bytes b) 0) 0) as [E|E];
      symmetry.
    + apply bool_decide_eq_true. apply ct_diff_zero in E as [_ E]; [|done].
      by apply string_bytes_inj.
    + apply bool_decide_eq_false_2. intros ->. apply E. by apply ct_diff_zero.
  - symmetry. apply bool_decide_eq_false_2. by intros ->.
Qed.

(** ** Canonical signed messages

    HMAC itself is the [hmac] crate's; what the two sides sign is here. *)

Definition bool_show (b : bool) : string := if b then "true" else "false".

Definition doors_unlock_message (door_id : string) (duration_ms : Z)
    (reason : string) : string :=
  "doors/unlock|" +:+ door_id +:+ "|" +:+ pretty duration_ms +:+ "|" +:+ reason.

Definition doors_event_message (door_id card_id : string) (granted : bool)
    (source : string) : string :=
  "doors/event|" +:+ door_id +:+ "|" +:+ card_id +:+ "|" +:+ bool_show granted
    +:+ "|" +:+ source.

(** [sig::verify] over an abstract MAC ([sig::sign] is HMAC-SHA256, hex). *)
Definition verify (sign : string -> string -> string) (key message mac_hex : string)
    : bool :=
  constant_time_str_eq (sign key message) mac_hex.

(** ** What a signature binds *)

Definition bar : ascii := ascii_of_nat 124.

(** The characters of a text. *)
Definition chars (s : string) : list ascii := String.list_ascii_of_string s.

Lemma chars_app a b : chars (a +:+ b) = chars a ++ chars b.
Proof. induction a as [|c a IH]; [done|]. unfold chars in *. simpl. by rewrite IH. Qed.

Lemma chars_inj a b : chars a = chars b -> a = b.
Proof.
  intros H. rewrite <- (String.string_of_list_ascii_of_string a),
    <- (String.string_of_list_ascii_of_string b). by f_equal.
Qed.

Lemma split_at_first (x : ascii) a b u v :
  x ∉ a -> x ∉ b -> a ++ x :: u = b ++ x :: v -> a = b /\ u = v.
Proof.
  revert b. induction a as [|y a IH]; intros [|z b] Ha Hb Heq; simpl in Heq.
  - by injection Heq.
  - injection Heq as -> _. exfalso. apply Hb. by left.
  - injection Heq as -> _. exfalso. apply Ha. by left.
  - apply not_elem_of_cons in Ha as [_ Ha], Hb as [_ Hb]. injection Heq as -> Heq.
    by destruct (IH b Ha Hb Heq) as [-> ->].
Qed.

Lemma pretty_N_go_no_bar n s : bar ∉ chars s -> bar ∉ chars (pretty_N_go n s).
Proof.
  revert s. induction (N.lt_wf_0 n) as [n _ IH]; intros s Hs.
  destruct (decide (n = 0%N)) as [->|Hn]; [by rewrite pretty_N_go_0|].
  rewrite pretty_N_go_step by lia. apply IH; [apply N.div_lt; lia|].
  unfold chars in *. simpl. rewrite not_elem_of_cons. split; [|done].
  unfold pretty_N_char. by repeat case_match.
Qed.

Lemma pretty_Z_no_bar (z : Z) : bar ∉ chars (pretty z).
Proof.
  assert (forall n : N, bar ∉ chars (pretty n)) as HN.
  { intros n. unfold pretty, pretty_N. case_decide.
    - intros Hin. apply list_elem_of_singleton in Hin. done.
    - apply pretty_N_go_no_bar. intros Hin. inversion Hin. }
  destruct z as [|p|p].
  - intros H. apply list_elem_of_singleton in H. done.
  - apply (HN (Npos p)).
  - assert (pretty (Zneg p) = "-" +:+ pretty (Npos p)) as -> by done.
    rewrite chars_app, elem_of_app. intros [H | H]; [|by apply (HN (Npos p))].
    apply list_elem_of_singleton in H. done.
Qed.

(** The unlock message determines what it signs, as long as the door's id has no
    bar in it: the duration is digits, and the reason is the rest. *)
Lemma doors_unlock_message_inj d d' t t' r r' :
  bar ∉ chars d -> bar ∉ chars d' ->
  doors_unlock_message d t r = doors_unlock_message d' t' r' ->
  d = d' /\ t = t' /\ r = r'.
Proof.
  intros Hd Hd' H. unfold doors_unlock_message in H.
  apply (f_equal chars) in H. rewrite !chars_app in H. apply app_inv_head in H.
  assert (chars "|" = [bar]) as Hbar by done. rewrite Hbar in H. simpl in H.
  apply split_at_first in H as [Hdd H]; [|done..].
  apply split_at_first in H as [Htt Hrr]; [|apply pretty_Z_no_bar..].
  apply chars_inj in Hdd, Htt, Hrr. apply (inj pretty) in Htt. done.
Qed.

(** The event message does not determine what it signs: a refused scan of a
    card whose code has bars in it signs the same bytes as a granted scan of a
    shorter code from another source. *)
Lemma doors_event_message_ambiguous door card source rest :
  doors_event_message door (card +:+ "|true|" +:+ rest) false source =
  doors_event_message door card true (rest +:+ "|false|" +:+ source).
Proof.
  unfold doors_event_message. apply chars_inj. rewrite !chars_app. simpl.
  by rewrite <- !app_assoc.
Qed.

End Wire.
