(* ===== verification/Text.v ===== *)
(** * Text ([str] and [char], as the program uses them)

    A string is its UTF-8 bytes.  The scalar values of a string, Unicode white
    space, trimming, and bytes in hexadecimal. *)
From Stdlib Require Import Ascii SpecFloat.
From S2P Require Import Prelude Wire.

Module Text.

Definition byte (c : ascii) : Z := Z.of_nat (nat_of_ascii c).

(** How many bytes follow a leading byte. *)
Definition followers (c : ascii) : nat :=
  if byte c <? 192 then 0 else if byte c <? 224 then 1 else if byte c <? 240 then 2 else 3.

(** [str::chars]: the bytes of each scalar value, in order. *)
Fixpoint segment (need : nat) (cur : list ascii) (l : list ascii) : list (list ascii) :=
  match l with
  | [] => match cur with [] => [] | _ => [rev cur] end
  | c :: l =>
      match need with
      | S (S need) => segment (S need) (c :: cur) l
      | S O => rev (c :: cur) :: segment O [] l
      | O => match followers c with
             | O => [c] :: segment O [] l
             | n => segment n [c] l
             end
      end
  end.

Definition bytes (s : string) : list ascii := String.list_ascii_of_string s.
Definition of_bytes (l : list ascii) : string := String.string_of_list_ascii l.
Definition chars (s : string) : list (list ascii) := segment O [] (bytes s).

Definition scalar (c : list ascii) : Z :=
  match byte <$> c with
  | [a] => a
  | [a; b] => (a - 192) * 64 + (b - 128)
  | [a; b; d] => (a - 224) * 4096 + (b - 128) * 64 + (d - 128)
  | [a; b; d; e] => (a - 240) * 262144 + (b - 128) * 4096 + (d - 128) * 64 + (e - 128)
  | _ => 65533
  end.

(** [char::is_whitespace]: the Unicode property White_Space. *)
Definition is_whitespace (c : list ascii) : bool :=
  let n := scalar c in
  ((9 <=? n) && (n <=? 13)) || ((8192 <=? n) && (n <=? 8202)) ||
  bool_decide (n ∈ [32; 133; 160; 5760; 8232; 8233; 8239; 8287; 12288]).

Fixpoint drop_while {A} (f : A -> bool) (l : list A) : list A :=
  match l with
  | [] => []
  | x :: l' => if f x then drop_while f l' else l
  end.

(** [str::trim], as the scalar values left. *)
Definition trim_chars (s : string) : list (list ascii) :=
  rev (drop_while is_whitespace (rev (drop_while is_whitespace (chars s)))).

Definition trim (s : string) : string := of_bytes (mjoin (trim_chars s)).

(** [str::contains] of one byte. *)
Definition contains_byte (c : ascii) (s : string) : bool := bool_decide (c ∈ bytes s).

(** Whether bytes are UTF-8, as [str::from_utf8] decides: no overlong form, no
    surrogate, nothing past U+10FFFF. *)
Definition within_bytes (lo hi : Z) (c : ascii) : bool := (lo <=? byte c) && (byte c <=? hi).
Definition tail_byte (c : ascii) : bool := within_bytes 128 191 c.

Fixpoint valid_utf8 (l : list ascii) : bool :=
  match l with
  | [] => true
  | a :: l1 =>
      if byte a <? 128 then valid_utf8 l1
      else match l1 with
      | [] => false
      | b :: l2 =>
          if within_bytes 194 223 a then tail_byte b && valid_utf8 l2
          else match l2 with
          | [] => false
          | c :: l3 =>
              if within_bytes 224 239 a then
                (if byte a =? 224 then within_bytes 160 191 b
                 else if byte a =? 237 then within_bytes 128 159 b else tail_byte b) &&
                tail_byte c && valid_utf8 l3
              else match l3 with
              | [] => false
              | d :: l4 =>
                  within_bytes 240 244 a &&
                  (if byte a =? 240 then within_bytes 144 191 b
                   else if byte a =? 244 then within_bytes 128 143 b else tail_byte b) &&
                  tail_byte c && tail_byte d && valid_utf8 l4
              end
          end
      end
  end.

(** ** Lemmas *)

Lemma bytes_of_bytes l : bytes (of_bytes l) = l.
Proof. apply String.list_ascii_of_string_of_list_ascii. Qed.

Lemma of_bytes_bytes s : of_bytes (bytes s) = s.
Proof. apply String.string_of_list_ascii_of_string. Qed.

Lemma bytes_inj a b : bytes a = bytes b -> a = b.
Proof. intros H. by rewrite <- (of_bytes_bytes a), H, of_bytes_bytes. Qed.

Lemma bytes_app a b : bytes (a +:+ b) = bytes a ++ bytes b.
Proof. induction a as [|c a IH]; [done|]. unfold bytes in *. simpl. by rewrite IH. Qed.

Lemma string_app_assoc (a b c : string) : (a +:+ b) +:+ c = a +:+ (b +:+ c).
Proof. apply bytes_inj. by rewrite !bytes_app, app_assoc. Qed.

Lemma string_app_nil (a : string) : a +:+ EmptyString = a.
Proof. apply bytes_inj. by rewrite bytes_app, app_nil_r. Qed.

Lemma of_bytes_app a b : of_bytes (a ++ b) = of_bytes a +:+ of_bytes b.
Proof. apply bytes_inj. by rewrite bytes_app, !bytes_of_bytes. Qed.

Lemma segment_join l : forall need cur,
  (need = O -> cur = []) -> mjoin (segment need cur l) = rev cur ++ l.
Proof.
  induction l as [|c l IH]; intros need cur Hn; simpl.
  - destruct cur; [done|]. cbn [mjoin list_join]. by rewrite !app_nil_r.
  - destruct need as [|[|need]].
    + rewrite Hn by done. destruct (followers c); cbn [mjoin list_join]; rewrite IH; done.
    + cbn [mjoin list_join]. rewrite IH by done. simpl. by rewrite <- app_assoc.
    + rewrite IH by done. simpl. by rewrite <- app_assoc.
Qed.

Lemma chars_join s : mjoin (chars s) = bytes s.
Proof. unfold chars. by rewrite segment_join. Qed.

Lemma elem_of_drop_while {A} (f : A -> bool) x l : x ∈ drop_while f l -> x ∈ l.
Proof.
  induction l as [|y l IH]; simpl; [done|]. case_match; [|done]. intros. right. by apply IH.
Qed.

Lemma drop_while_none {A} (f : A -> bool) l :
  (forall x, x ∈ l -> f x = false) -> drop_while f l = l.
Proof. destruct l as [|x l]; [done|]. intros H. simpl. by rewrite (H x) by left. Qed.

Lemma trim_none s : (forall c, c ∈ chars s -> is_whitespace c = false) -> trim s = s.
Proof.
  intros H. unfold trim, trim_chars. rewrite (drop_while_none _ (chars s)) by done.
  rewrite drop_while_none by (intros c Hc; apply H; apply list_elem_of_In; by rewrite in_rev; apply list_elem_of_In).
  rewrite rev_involutive, chars_join. apply of_bytes_bytes.
Qed.

(** A character as [str] has it: its first byte and as many more as that tells of, none
    of them an ASCII byte. *)
Definition whole (c : list ascii) : Prop :=
  match c with
  | [] => False
  | h :: t => length t = followers h /\ (byte h < 192 -> byte h < 128) /\ Forall (fun b => 128 <= byte b) t
  end.

Lemma tail_byte_high c : tail_byte c = true -> 128 <= byte c.
Proof. unfold tail_byte, within_bytes. lia. Qed.

Lemma segment_follow t : forall cur n l, length t = S n ->
  segment (S n) cur (t ++ l) = rev (rev t ++ cur) :: segment O [] l.
Proof.
  induction t as [|b t IH]; intros cur n l Hl; [done|]. simpl in Hl. injection Hl as Hl. simpl.
  destruct n as [|n].
  - destruct t; [|done]. done.
  - rewrite IH by done. by rewrite <- app_assoc.
Qed.

Lemma segment_whole c l : whole c -> segment O [] (c ++ l) = c :: segment O [] l.
Proof.
  destruct c as [|h t]; [done|]. intros (Hl & _). simpl. destruct (followers h) as [|n] eqn:E.
  - by apply nil_length_inv in Hl as ->.
  - rewrite segment_follow by done. by rewrite rev_app_distr, rev_involutive.
Qed.

Lemma segment_wholes cs : Forall whole cs -> segment O [] (mjoin cs) = cs.
Proof.
  induction 1 as [|c cs Hc _ IH]; [done|]. cbn [mjoin list_join]. rewrite segment_whole by done. by f_equal.
Qed.

Lemma wholes_step a t l :
  length t = followers a -> (byte a < 192 -> byte a < 128) -> Forall (fun b => 128 <= byte b) t ->
  Forall whole (segment O [] l) -> Forall whole (segment O [] (a :: t ++ l)).
Proof.
  intros Hl Ha Ht IH. change (a :: t ++ l) with ((a :: t) ++ l). rewrite segment_whole by done. by constructor.
Qed.

Lemma valid_wholes n : forall l, (length l <= n)%nat -> valid_utf8 l = true -> Forall whole (segment O [] l).
Proof.
  induction n as [|n IH]; intros [|a l] Hn Hv; try (by constructor); simpl in Hn; [lia|].
  cbn [valid_utf8] in Hv. destruct (Z.ltb_spec (byte a) 128) as [Ha|Ha].
  { apply (wholes_step a []); [|lia|by constructor|apply IH; [lia|done]].
    unfold followers. by destruct (Z.ltb_spec (byte a) 192); [|lia]. }
  destruct l as [|b l]; [done|]. destruct (within_bytes 194 223 a) eqn:E2.
  { unfold within_bytes in E2. apply andb_prop in Hv as [Hb Hv]. apply tail_byte_high in Hb.
    apply (wholes_step a [b]); [|lia|by repeat constructor|apply IH; [simpl in Hn; lia|done]].
    unfold followers. destruct (Z.ltb_spec (byte a) 192), (Z.ltb_spec (byte a) 224); first [done | lia]. }
  destruct l as [|c l]; [done|]. destruct (within_bytes 224 239 a) eqn:E3.
  { unfold within_bytes in E3. apply andb_prop in Hv as [[Hb Hc]%andb_prop Hv]. apply tail_byte_high in Hc.
    assert (128 <= byte b) as Hb'.
    { revert Hb. unfold tail_byte, within_bytes. repeat case_match; lia. }
    apply (wholes_step a [b; c]); [|lia|by repeat constructor|apply IH; [simpl in Hn; lia|done]].
    unfold followers. destruct (Z.ltb_spec (byte a) 192), (Z.ltb_spec (byte a) 224), (Z.ltb_spec (byte a) 240); first [done | lia]. }
  destruct l as [|d l]; [done|].
  apply andb_prop in Hv as [[[[E4 Hb]%andb_prop Hc]%andb_prop Hd]%andb_prop Hv].
  unfold within_bytes in E4. apply tail_byte_high in Hc, Hd.
  assert (128 <= byte b) as Hb'.
  { revert Hb. unfold tail_byte, within_bytes. repeat case_match; lia. }
  apply (wholes_step a [b; c; d]); [|lia|by repeat constructor|apply IH; [simpl in Hn; lia|done]].
  unfold followers. destruct (Z.ltb_spec (byte a) 192), (Z.ltb_spec (byte a) 224), (Z.ltb_spec (byte a) 240); first [done | lia].
Qed.

(** The characters of a [str]. *)
Lemma chars_whole s : valid_utf8 (bytes s) = true -> Forall whole (chars s).
Proof. intros H. by apply (valid_wholes (length (bytes s))). Qed.

Lemma chars_of_wholes cs : Forall whole cs -> chars (of_bytes (mjoin cs)) = cs.
Proof. intros H. unfold chars. rewrite bytes_of_bytes. by apply segment_wholes. Qed.

(** ** Trimmed *)

Lemma drop_while_head {A} (f : A -> bool) l x : head (drop_while f l) = Some x -> f x = false.
Proof. induction l as [|y l IH]; simpl; [done|]. destruct (f y) eqn:E; [done|]. by intros [= <-]. Qed.

Lemma drop_while_id {A} (f : A -> bool) l : (forall x, head l = Some x -> f x = false) -> drop_while f l = l.
Proof. destruct l as [|x l]; [done|]. intros H. simpl. by rewrite (H x). Qed.

Lemma drop_while_suffix {A} (f : A -> bool) l : exists p, l = p ++ drop_while f l.
Proof.
  induction l as [|x l [p Hp]]; [by exists []|]. simpl. destruct (f x); [|by exists []].
  exists (x :: p). simpl. by f_equal.
Qed.

(** What is left of both sides begins and ends with what is not dropped. *)
Definition bare {A} (f : A -> bool) (l : list A) : Prop :=
  (forall x, head l = Some x -> f x = false) /\ (forall x, last l = Some x -> f x = false).

Lemma rev_reverse {A} (l : list A) : rev l = reverse l.
Proof. apply rev_alt. Qed.

Definition strip {A} (f : A -> bool) (l : list A) : list A := rev (drop_while f (rev (drop_while f l))).

Lemma strip_bare {A} (f : A -> bool) l : bare f (strip f l).
Proof.
  unfold strip. set (d := drop_while f l). destruct (drop_while_suffix f (rev d)) as [p Hp].
  apply (f_equal (@rev A)) in Hp. rewrite rev_involutive, rev_app_distr in Hp. split; intros x Hx.
  - apply (drop_while_head f l). fold d. rewrite Hp. by destruct (rev (drop_while f (rev d))).
  - apply (drop_while_head f (rev d)). rewrite rev_reverse, last_reverse in Hx. done.
Qed.

Lemma strip_id {A} (f : A -> bool) l : bare f l -> strip f l = l.
Proof.
  intros [Hh Hl]. unfold strip. rewrite (drop_while_id f l) by done.
  rewrite drop_while_id; [apply rev_involutive|]. intros x. rewrite rev_reverse, head_reverse. apply Hl.
Qed.

Lemma strip_Forall {A} (f : A -> bool) (P : A -> Prop) l : Forall P l -> Forall P (strip f l).
Proof.
  rewrite !Forall_forall. intros H x Hx. apply H. unfold strip in Hx.
  apply list_elem_of_In, in_rev, list_elem_of_In, elem_of_drop_while in Hx.
  by apply list_elem_of_In, in_rev, list_elem_of_In, elem_of_drop_while in Hx.
Qed.

(** ** Lower case

    [to_ascii_lowercase]: the letters of ASCII and nothing else. *)

Definition ascii_lower (c : ascii) : ascii :=
  if within_bytes 65 90 c then ascii_of_nat (nat_of_ascii c + 32) else c.

Lemma ascii_lower_byte c :
  byte (ascii_lower c) = if within_bytes 65 90 c then byte c + 32 else byte c.
Proof.
  unfold ascii_lower, byte. destruct (within_bytes 65 90 c) eqn:E; [|done].
  unfold within_bytes, byte in E. rewrite nat_ascii_embedding by lia. lia.
Qed.

Lemma ascii_lower_high c : 128 <= byte c -> ascii_lower c = c.
Proof. intros H. unfold ascii_lower, within_bytes. case_match; [lia|done]. Qed.

Lemma ascii_lower_idem c : ascii_lower (ascii_lower c) = ascii_lower c.
Proof.
  unfold ascii_lower at 1. unfold within_bytes. rewrite ascii_lower_byte.
  unfold within_bytes. repeat case_match; try done; lia.
Qed.

Lemma lower_tail t : Forall (fun b => 128 <= byte b) t -> ascii_lower <$> t = t.
Proof. induction 1 as [|b t Hb _ IH]; [done|]. csimpl. by rewrite ascii_lower_high, IH. Qed.

Lemma lower_whole c : whole c -> whole (ascii_lower <$> c).
Proof.
  destruct c as [|h t]; [done|]. intros (Hl & Hh & Ht). csimpl. rewrite lower_tail by done.
  repeat split; [|by (rewrite ascii_lower_byte; unfold within_bytes; case_match; lia)|done].
  rewrite Hl. unfold followers. rewrite ascii_lower_byte. unfold within_bytes. repeat case_match; first [done | lia].
Qed.

Lemma lower_whitespace c : whole c -> is_whitespace (ascii_lower <$> c) = is_whitespace c.
Proof.
  destruct c as [|h t]; [done|]. intros (Hl & Hh & Ht). csimpl. rewrite lower_tail by done.
  destruct (Z.ltb_spec (byte h) 128) as [Hlo|Hhi]; [|by rewrite ascii_lower_high].
  assert (t = []) as ->.
  { apply nil_length_inv. rewrite Hl. unfold followers. case_match; first [done | lia]. }
  unfold is_whitespace, scalar. csimpl. rewrite ascii_lower_byte. destruct (within_bytes 65 90 h) eqn:E; [|done].
  unfold within_bytes in E. rewrite !bool_decide_eq_false_2; [lia| |]; set_unfold; lia.
Qed.

Definition to_ascii_lowercase (s : string) : string := of_bytes (ascii_lower <$> bytes s).

(** ** Cutting at a byte

    [str::split], and the two sides of its first occurrence. *)

Fixpoint split_on (c : ascii) (l : list ascii) : list (list ascii) :=
  match l with
  | [] => [[]]
  | x :: l' =>
      if x ≟ c then [] :: split_on c l'
      else match split_on c l' with p :: ps => (x :: p) :: ps | [] => [[x]] end
  end.

Fixpoint split_once (c : ascii) (l : list ascii) : list ascii * list ascii :=
  match l with
  | [] => ([], [])
  | x :: l' => if x ≟ c then ([], l') else let '(a, b) := split_once c l' in (x :: a, b)
  end.

Lemma split_on_clean c a rest :
  c ∉ a -> split_on c (a ++ c :: rest) = a :: split_on c rest.
Proof.
  induction a as [|x a IH]; intros H; simpl; [by rewrite bool_decide_eq_true_2|].
  apply not_elem_of_cons in H as [Hx Ha]. rewrite bool_decide_eq_false_2 by done.
  by rewrite IH.
Qed.

Lemma split_on_last c a : c ∉ a -> split_on c a = [a].
Proof.
  induction a as [|x a IH]; intros H; simpl; [done|].
  apply not_elem_of_cons in H as [Hx Ha]. rewrite bool_decide_eq_false_2 by done. by rewrite IH.
Qed.

Lemma split_once_clean c a rest : c ∉ a -> split_once c (a ++ c :: rest) = (a, rest).
Proof.
  induction a as [|x a IH]; intros H; simpl; [by rewrite bool_decide_eq_true_2|].
  apply not_elem_of_cons in H as [Hx Ha]. rewrite bool_decide_eq_false_2 by done. by rewrite IH.
Qed.

Lemma split_once_none c a : c ∉ a -> split_once c a = (a, []).
Proof.
  induction a as [|x a IH]; intros H; simpl; [done|].
  apply not_elem_of_cons in H as [Hx Ha]. rewrite bool_decide_eq_false_2 by done. by rewrite IH.
Qed.

(** ** Header values *)

(** [HeaderValue::to_str]: visible ASCII, spaces and tabs. *)
Definition header_to_str (h : list ascii) : option string :=
  if forallb (fun c => within_bytes 32 126 c || (byte c =? 9)) h then Some (of_bytes h) else None.

Fixpoint strip_prefix (p s : string) : option string :=
  match p, s with
  | EmptyString, s => Some s
  | String a p, String b s => if a ≟ b then strip_prefix p s else None
  | _, EmptyString => None
  end.

Lemma strip_prefix_Some p s t : strip_prefix p s = Some t -> s = p +:+ t.
Proof.
  revert s. induction p as [|a p IH]; intros s; simpl; [by intros [= ->]|].
  destruct s as [|b s]; [done|]. case_bool_decide; [|done]. intros H'. subst. by rewrite (IH s).
Qed.

End Text.

(** * [f64] as text ([str::parse] and [Display], as the edge and the courses use them)

    Reading is correctly rounded; printing is the shortest decimal that reads
    back, as Rust's is, in positional notation. *)
Import Wire.

(** ** [str::parse::<f64>] *)

Module F64Parse.

Definition digit_of (c : ascii) : option Z :=
  let n := Z.of_nat (nat_of_ascii c) in
  if (48 <=? n) && (n <=? 57) then Some (n - 48) else None.

Fixpoint digits (cs : list ascii) (acc : Z) (count : nat) : Z * nat * list ascii :=
  match cs with
  | c :: rest => match digit_of c with
                 | Some d => digits rest (10 * acc + d) (S count)
                 | None => (acc, count, cs)
                 end
  | [] => (acc, count, [])
  end.

Definition ascii_is (n : nat) (c : ascii) : bool := Nat.eqb (nat_of_ascii c) n.

(** An optional sign: the rest, and whether it was a minus. *)
Definition sign (cs : list ascii) : bool * list ascii :=
  match cs with
  | c :: rest => if ascii_is 45 c then (true, rest)
                 else if ascii_is 43 c then (false, rest) else (false, cs)
  | [] => (false, [])
  end.

(** [e] or [E], a sign, and at least one digit; the whole rest of the text. *)
Definition exponent (cs : list ascii) : option Z :=
  match cs with
  | [] => Some 0
  | c :: rest =>
      if ascii_is 101 c || ascii_is 69 c then
        let '(neg, rest) := sign rest in
        match digits rest 0 0%nat with
        | (e, S _, []) => Some (if (neg : bool) then - e else e)
        | _ => None
        end
      else None
  end.

(** The binary64 value nearest [m * 10^e], ties to even. *)
Definition round_decimal (neg : bool) (m e : Z) : f64 :=
  if m =? 0 then S754_zero neg
  else if 0 <=? e then
    binary_normalize 53 1024 (if neg then - (m * 10 ^ e) else m * 10 ^ e) 0 neg
  else
    let '(mz, ez, lz) := SFdiv_core_binary 53 1024 m 0 (10 ^ (- e)) 0 in
    binary_round_aux 53 1024 neg mz ez lz.

Definition lower (c : ascii) : ascii :=
  let n := nat_of_ascii c in
  if Nat.leb 65 n && Nat.leb n 90 then ascii_of_nat (n + 32) else c.

Definition parse_f64 (s : string) : option f64 :=
  let '(neg, cs) := sign (String.list_ascii_of_string s) in
  let '(m1, n1, rest) := digits cs 0 0%nat in
  let '(m2, n2, rest) :=
    match rest with
    | c :: rest' => if ascii_is 46 c then digits rest' m1 0%nat else (m1, 0%nat, rest)
    | [] => (m1, 0%nat, [])
    end in
  match (n1 + n2)%nat with
  | O => let word := String.string_of_list_ascii (lower <$> cs) in
         if (word ≟ "inf") || (word ≟ "infinity") then Some (S754_infinity neg)
         else if word ≟ "nan" then Some S754_nan
         else None
  | S _ => e ← exponent rest; Some (round_decimal neg m2 (e - Z.of_nat n2))
  end.

Example parse_tenth : parse_f64 "0.1" = Some (S754_finite false 7205759403792794 (-56)).
Proof. vm_compute. reflexivity. Qed.
Example parse_limit : parse_f64 "20.00" = parse_f64 "2e1".
Proof. vm_compute. reflexivity. Qed.
Example parse_words : parse_f64 "-Inf" = Some (S754_infinity true) /\ parse_f64 "20A" = None
  /\ parse_f64 "." = None /\ parse_f64 "" = None.
Proof. vm_compute. repeat split. Qed.

End F64Parse.

(** ** [Display for f64] *)

Module F64Display.
Import F64Parse.

#[global] Instance f64_eq_dec : EqDecision f64.
Proof. solve_decision. Defined.

Definition zeros (n : nat) : list ascii := repeat (ascii_of_nat 48) n.

(** The decimal [d / 10^s], or [d * 10^(-s)], in positional notation. *)
Definition positional (d s : Z) : string :=
  let ds := String.list_ascii_of_string (pretty d) in
  let n := Z.to_nat s in
  if s <=? 0 then String.string_of_list_ascii (ds ++ zeros (Z.to_nat (- s)))
  else
    let ds := zeros (S n - length ds) ++ ds in
    String.string_of_list_ascii
      (take (length ds - n) ds ++ [ascii_of_nat 46] ++ drop (length ds - n) ds).

(** How many digits the integer part of [p / q] has, below one counted down: the
    least [k] with [p / q < 10^k], looked for from just under its logarithm. *)
Fixpoint magnitude (fuel : nat) (p q k : Z) : Z :=
  match fuel with
  | O => k
  | S fuel =>
      if (if 0 <=? k then p <? q * 10 ^ k else p * 10 ^ (- k) <? q) then k
      else magnitude fuel p q (k + 1)
  end.

Definition scaled (p q s : Z) : Z :=
  if 0 <=? s then p * 10 ^ s / q else p / (q * 10 ^ (- s)).

(** The first of the candidate texts that reads back as the value. *)
Definition first_exact (x : f64) (texts : list string) : option string :=
  find_first (fun t => match parse_f64 t with Some y => y ≟ x | None => false end) texts.

(** For one to seventeen digits, the two decimals of that many digits around the
    value, the nearer one first. *)
Definition candidates (p q : Z) : list string :=
  let k := magnitude 8 p q ((Z.log2 p - Z.log2 q - 1) * 30103 / 100000 - 1) in
  mjoin ((fun n : nat =>
    let s := Z.of_nat n - k in
    let d := scaled p q s in
    let twice := scaled (2 * p) q s in
    if Z.odd twice then [positional (d + 1) s; positional d s]
    else [positional d s; positional (d + 1) s]) <$> seq 1 17).

Definition display_f64 (x : f64) : string :=
  match x with
  | S754_nan => "NaN"
  | S754_infinity neg => if neg then "-inf" else "inf"
  | S754_zero neg => if neg then "-0" else "0"
  | S754_finite neg m e =>
      let '(p, q) := if 0 <=? e then (Zpos m * 2 ^ e, 1) else (Zpos m, 2 ^ (- e)) in
      let texts := candidates p q in
      default EmptyString
        (first_exact x (if neg then String.append "-" <$> texts else texts))
  end.

Example display_some :
  (fun t => display_f64 <$> parse_f64 t) <$> ["0.8"; "1"; "0.1"; "-2.5"; "1e3"; "5e-3"; "0.30000000000000004"]
  = [Some "0.8"; Some "1"; Some "0.1"; Some "-2.5"; Some "1000"; Some "0.005"; Some "0.30000000000000004"].
Proof. vm_compute. reflexivity. Qed.

(** [Display] is lossless on a finite value: what it prints reads back.  The
    search above tests exactly that. *)
Definition lossless (x : f64) : Prop := parse_f64 (display_f64 x) = Some x.

End F64Display.
