(* ===== verification/EdgeModules.v ===== *)
(** * The edge's lease engine ([edge/src/modules.rs])

    [ModuleState]: which devices are wired to which tool, the interlock engine
    that says whether a tool may be energized, the sessions, and the leases and
    latches the watchdog keeps.  Every method of the source is a function on
    [Inner], the record behind the source's [RwLock]; a method that takes the
    lock twice ([renew]) is written as the two critical sections it is. *)
From S2P Require Import Prelude Wire.
From Stdlib Require Import Ascii.
Import Wire.

Module ModuleState.

(** ** Vocabulary *)

Definition ROLE_STRIKE : string := "strike".
Definition KIND_START_GATE : string := "start_gate".
Definition KIND_TRIP : string := "trip".
Definition ROLE_POWER : string := "power".
Definition ROLE_SENSOR : string := "sensor".
Definition ROLE_EDGE : string := "edge".
Definition ON_DISCONNECT_FAIL_OFF : string := "fail_off".

Definition is_hazard (condition : string) : bool :=
  negb ((condition ≟ "flow_ok") || (condition ≟ "authorized")).

Inductive Denial : Type :=
  | Gate (condition : string)
  | Latched (condition : string)
  | Tripped (condition : string)
  | Unobserved (condition : string)
  | ModuleOffline (name : string)
  | NotInUse
  | Unknown.

Inductive Decision : Type :=
  | Allow
  | Deny (d : Denial).

#[global] Instance Denial_eq_dec : EqDecision Denial.
Proof. solve_decision. Defined.
#[global] Instance Decision_eq_dec : EqDecision Decision.
Proof. solve_decision. Defined.

Definition is_allowed (d : Decision) : bool :=
  match d with Allow => true | Deny _ => false end.

(** [derive(Debug)]: a string prints quoted, its quotes, backslashes and control
    characters escaped.  (Bytes above ASCII are kept as they are; the standard
    library also escapes the non-printable code points among them.) *)
Definition dquote : string := String.String (ascii_of_nat 34) String.EmptyString.
Definition backslash : string := String.String (ascii_of_nat 92) String.EmptyString.

Definition hex_digit (n : nat) : string :=
  default String.EmptyString (String.get n "0123456789abcdef" ≫= fun c => Some (String.String c String.EmptyString)).

Definition escape_char (c : ascii) : string :=
  let n := nat_of_ascii c in
  if Nat.eqb n 34 || Nat.eqb n 92 then backslash +:+ String.String c String.EmptyString
  else if Nat.eqb n 0 then backslash +:+ "0"
  else if Nat.eqb n 9 then backslash +:+ "t"
  else if Nat.eqb n 10 then backslash +:+ "n"
  else if Nat.eqb n 13 then backslash +:+ "r"
  else if Nat.ltb n 16 then backslash +:+ "u{" +:+ hex_digit n +:+ "}"
  else if Nat.ltb n 32 || Nat.eqb n 127
  then backslash +:+ "u{" +:+ hex_digit (n / 16) +:+ hex_digit (n mod 16) +:+ "}"
  else String.String c String.EmptyString.

Definition escape_debug (s : string) : string :=
  foldr (fun c rest => escape_char c +:+ rest) String.EmptyString (String.list_ascii_of_string s).

Definition debug_tuple (ctor arg : string) : string :=
  ctor +:+ "(" +:+ dquote +:+ escape_debug arg +:+ dquote +:+ ")".

Definition debug_denial (d : Denial) : string :=
  match d with
  | Gate c => debug_tuple "Gate" c
  | Latched c => debug_tuple "Latched" c
  | Tripped c => debug_tuple "Tripped" c
  | Unobserved c => debug_tuple "Unobserved" c
  | ModuleOffline n => debug_tuple "ModuleOffline" n
  | NotInUse => "NotInUse"
  | Unknown => "Unknown"
  end.

Record LeaseAction := {
  la_tool_id : string;
  la_device_id : string;
  la_grant : bool;
  la_ttl_ms : Z;
  la_reason : option string;
}.

(** [impl From<&LeaseAction> for ResourceLeasePayload]. *)
Definition to_payload (l : LeaseAction) : ResourceLeasePayload := {|
  lease_resource := la_tool_id l;
  lease_device_id := la_device_id l;
  lease_grant := la_grant l;
  lease_ttl_ms := la_ttl_ms l;
  lease_reason := la_reason l;
|}.

(** ** State *)

Record Session := {
  opened : instant;
  ends_at : option instant;
}.

Record ResourceWiring := {
  wiring_id : string;
  wiring_kind : string;
  wiring_session_profile : string;
  strike_pulse : option Z;
}.

Record Reading := {
  asserted : bool;
  since : instant;
}.

Record Inner := MkInner {
  snapshot : option ToolModuleStatePayload;
  readings : gmap (string * string) Reading;
  latched : gmap string string;
  leases : gmap string instant;
  module_seen : gmap string instant;
  local_sessions : gmap string Session;
  synced_in_use : gset string;
  local_session_grace : duration;
  local_stops : gmap string instant;
  allowed_since : gmap string instant;
  relay_state : gmap string (bool * instant);
  granted_since : gmap string instant;
  run_on_until : gmap string instant;
}.

(** Field assignment, one function per field a method writes. *)
Definition with_snapshot v i := MkInner v (readings i) (latched i) (leases i)
  (module_seen i) (local_sessions i) (synced_in_use i) (local_session_grace i)
  (local_stops i) (allowed_since i) (relay_state i) (granted_since i) (run_on_until i).
Definition with_readings v i := MkInner (snapshot i) v (latched i) (leases i)
  (module_seen i) (local_sessions i) (synced_in_use i) (local_session_grace i)
  (local_stops i) (allowed_since i) (relay_state i) (granted_since i) (run_on_until i).
Definition with_latched v i := MkInner (snapshot i) (readings i) v (leases i)
  (module_seen i) (local_sessions i) (synced_in_use i) (local_session_grace i)
  (local_stops i) (allowed_since i) (relay_state i) (granted_since i) (run_on_until i).
Definition with_leases v i := MkInner (snapshot i) (readings i) (latched i) v
  (module_seen i) (local_sessions i) (synced_in_use i) (local_session_grace i)
  (local_stops i) (allowed_since i) (relay_state i) (granted_since i) (run_on_until i).
Definition with_module_seen v i := MkInner (snapshot i) (readings i) (latched i)
  (leases i) v (local_sessions i) (synced_in_use i) (local_session_grace i)
  (local_stops i) (allowed_since i) (relay_state i) (granted_since i) (run_on_until i).
Definition with_local_sessions v i := MkInner (snapshot i) (readings i) (latched i)
  (leases i) (module_seen i) v (synced_in_use i) (local_session_grace i)
  (local_stops i) (allowed_since i) (relay_state i) (granted_since i) (run_on_until i).
Definition with_synced_in_use v i := MkInner (snapshot i) (readings i) (latched i)
  (leases i) (module_seen i) (local_sessions i) v (local_session_grace i)
  (local_stops i) (allowed_since i) (relay_state i) (granted_since i) (run_on_until i).
Definition with_grace v i := MkInner (snapshot i) (readings i) (latched i)
  (leases i) (module_seen i) (local_sessions i) (synced_in_use i) v
  (local_stops i) (allowed_since i) (relay_state i) (granted_since i) (run_on_until i).
Definition with_local_stops v i := MkInner (snapshot i) (readings i) (latched i)
  (leases i) (module_seen i) (local_sessions i) (synced_in_use i)
  (local_session_grace i) v (allowed_since i) (relay_state i) (granted_since i)
  (run_on_until i).
Definition with_allowed_since v i := MkInner (snapshot i) (readings i) (latched i)
  (leases i) (module_seen i) (local_sessions i) (synced_in_use i)
  (local_session_grace i) (local_stops i) v (relay_state i) (granted_since i)
  (run_on_until i).
Definition with_relay_state v i := MkInner (snapshot i) (readings i) (latched i)
  (leases i) (module_seen i) (local_sessions i) (synced_in_use i)
  (local_session_grace i) (local_stops i) (allowed_since i) v (granted_since i)
  (run_on_until i).
Definition with_granted_since v i := MkInner (snapshot i) (readings i) (latched i)
  (leases i) (module_seen i) (local_sessions i) (synced_in_use i)
  (local_session_grace i) (local_stops i) (allowed_since i) (relay_state i) v
  (run_on_until i).
Definition with_run_on_until v i := MkInner (snapshot i) (readings i) (latched i)
  (leases i) (module_seen i) (local_sessions i) (synced_in_use i)
  (local_session_grace i) (local_stops i) (allowed_since i) (relay_state i)
  (granted_since i) v.

(** [ModuleState::new]. *)
Definition new : Inner :=
  MkInner None ∅ ∅ ∅ ∅ ∅ ∅ (seconds 30) ∅ ∅ ∅ ∅ ∅.

Definition set_local_session_grace (grace : duration) (i : Inner) : Inner :=
  with_grace grace i.

(** ** Naming a tool *)

(** By server UUID first, by [external_id] second. *)
Definition resolve (s : ToolModuleStatePayload) (tool : string) : option ToolModuleTool :=
  match find_first (fun t => tool_id t ≟ tool) (tms_tools s) with
  | Some t => Some t
  | None => find_first (fun t => external_id t ≟ Some tool) (tms_tools s)
  end.

Definition resolved (i : Inner) (tool : string) : option ToolModuleTool :=
  s ← snapshot i; resolve s tool.

Definition tool_key (i : Inner) (tool : string) : string :=
  match resolved i tool with
  | Some t => tool_id t
  | None => tool
  end.

(** ** Sessions *)

Definition in_use (i : Inner) (key : string) (now : instant) : bool :=
  bool_decide (key ∈ synced_in_use i)
  || is_some_and (local_sessions i !! key)
       (fun s => is_none_or (ends_at s) (fun e => now <? e)).

Definition open_session (resource : string) (now : instant) (ends : option instant)
    (i : Inner) : Inner :=
  let key := tool_key i resource in
  with_local_sessions (<[key := {| opened := now; ends_at := ends |}]> (local_sessions i))
    (with_local_stops (delete key (local_stops i)) i).

Definition close_session (resource : string) (now : instant) (i : Inner) : Inner :=
  let key := tool_key i resource in
  with_local_stops (<[key := now]> (local_stops i))
    (with_synced_in_use (synced_in_use i ∖ {[ key ]})
      (with_local_sessions (delete key (local_sessions i)) i)).

Definition note_session (tool : string) (open : bool) (now : instant) (i : Inner) : Inner :=
  if open then open_session tool now None i else close_session tool now i.

(** The keys a sync's claim of "in use" stands for: every named tool, less the
    ones this edge stopped after the payload was asked for. *)
Definition synced_keys (i : Inner) (in_use_ids : list string) (as_of : instant)
    : gset string :=
  list_to_set
    (List.filter (fun key => negb (is_some_and (local_stops i !! key) (fun at_ => as_of <? at_)))
      (tool_key i <$> in_use_ids)).

Definition keep_session (tracked synced : gset string) (grace : duration) (now : instant)
    (kv : string * Session) : Prop :=
  is_some_and (ends_at kv.2) (fun e => e <=? now) = false /\
  (kv.1 ∉ tracked \/ kv.1 ∈ synced \/ now - opened kv.2 < grace).

#[global] Instance keep_session_dec tracked synced grace now kv :
  base.Decision (keep_session tracked synced grace now kv).
Proof. unfold keep_session. apply _. Defined.

Definition reconcile_tracked (in_use_ids tracked_ids : list string) (now as_of : instant)
    (i : Inner) : Inner :=
  let grace := local_session_grace i in
  let i := with_local_stops
    (filter (fun kv : string * instant => now - kv.2 < grace) (local_stops i)) i in
  let synced := synced_keys i in_use_ids as_of in
  let tracked : gset string := list_to_set (tool_key i <$> tracked_ids) in
  let i := with_local_sessions
    (filter (keep_session tracked synced grace now) (local_sessions i)) i in
  with_synced_in_use ((synced_in_use i ∖ tracked) ∪ synced) i.

Definition reconcile_sessions := reconcile_tracked.

(** ** Wiring *)

(** The [until_stopped] doors of a snapshot, whose sessions it reports. *)
Definition rooms (p : ToolModuleStatePayload) (only_in_use : bool) : list string :=
  tool_id <$> List.filter (fun t => negb only_in_use || tool_in_use t)
    (List.filter (fun t => (tool_kind t ≟ "door") && (tool_session_profile t ≟ "until_stopped"))
      (tms_tools p)).

Definition apply_state_at (payload : ToolModuleStatePayload) (requested_at : option instant)
    (now : instant) (i : Inner) : Inner :=
  let as_of := default now requested_at in
  let tracked := rooms payload false in
  let in_use := rooms payload true in
  reconcile_tracked in_use tracked now as_of (with_snapshot (Some payload) i).

(** [apply_state]: a pushed snapshot, taken as of its arrival. *)
Definition apply_state (payload : ToolModuleStatePayload) (now : instant) (i : Inner)
    : Inner :=
  apply_state_at payload None now i.

Definition has_state (i : Inner) : bool := is_some (snapshot i).

(** ** What devices report *)

Definition observe (tool condition : string) (asserted_ : bool) (now : instant) (i : Inner)
    : Inner :=
  let key := (tool, condition) in
  match readings i !! key with
  | Some prev =>
      if bool_decide (asserted prev = asserted_) then i
      else with_readings (<[key := {| asserted := asserted_; since := now |}]> (readings i)) i
  | None =>
      with_readings (<[key := {| asserted := asserted_; since := now |}]> (readings i)) i
  end.

Definition note_module_seen (module_id : string) (now : instant) (i : Inner) : Inner :=
  with_module_seen (<[module_id := now]> (module_seen i)) i.

(** The bindings one device holds in the current snapshot. *)
Definition bindings_of (i : Inner) (device_id : string) : list string :=
  match snapshot i with
  | Some s => binding_id <$> List.filter (fun m => binding_device_id m ≟ device_id)
                (tms_tools s ≫= modules)
  | None => []
  end.

Definition note_device_seen (device_id : string) (now : instant) (i : Inner)
    : Inner * nat :=
  let ids := bindings_of i device_id in
  (with_module_seen (foldl (fun m id => <[id := now]> m) (module_seen i) ids) i,
   length ids).

Definition note_relay_state (device_id : string) (on : bool) (now : instant) (i : Inner)
    : Inner :=
  with_relay_state (<[device_id := (on, now)]> (relay_state i)) i.

Definition reset_latch (tool : string) (i : Inner) : Inner :=
  with_latched (delete tool (latched i)) i.

Definition is_latched (i : Inner) (tool : string) : bool := is_some (latched i !! tool).

(** ** The interlock engine *)

(** [None]: the condition was never observed. *)
Definition satisfied (i : Inner) (key : string) (rule : ToolInterlockRule) (now : instant)
    : option bool :=
  reading ← readings i !! (key, rule_condition rule);
  let settled := millis (Z.max (debounce_ms rule) 0) <=? now - since reading in
  let effective := if settled then asserted reading else negb (asserted reading) in
  Some (if is_hazard (rule_condition rule) then negb effective else effective).

Definition is_offline (i : Inner) (now : instant) (timeout : duration) (m : DeviceBinding)
    : bool :=
  if binding_role m ≟ ROLE_EDGE then false
  else if negb (binding_on_disconnect m ≟ ON_DISCONNECT_FAIL_OFF) then false
  else match module_seen i !! binding_id m with
       | None => true
       | Some seen => timeout <? now - seen
       end.

Definition offline_fail_off (i : Inner) (tool : ToolModuleTool) (now : instant)
    (timeout : duration) : option string :=
  binding_name <$> find_first (is_offline i now timeout) (modules tool).

(** The loop over a tool's rules: the first one not satisfied decides. *)
Fixpoint check_rules (i : Inner) (key : string) (now : instant)
    (rules : list ToolInterlockRule) : option Denial :=
  match rules with
  | [] => None
  | rule :: rest =>
      match satisfied i key rule now with
      | None => Some (Unobserved (rule_condition rule))
      | Some true => check_rules i key now rest
      | Some false =>
          if rule_kind rule ≟ KIND_TRIP then Some (Tripped (rule_condition rule))
          else Some (Gate (rule_condition rule))
      end
  end.

Definition evaluate (i : Inner) (tool : string) (now : instant) (module_timeout : duration)
    : Decision :=
  match snapshot i with
  | None => Deny Unknown
  | Some s =>
      match resolve s tool with
      | None => Allow
      | Some wiring =>
          let key := tool_id wiring in
          match latched i !! key with
          | Some condition => Deny (Latched condition)
          | None =>
              match offline_fail_off i wiring now module_timeout with
              | Some name => Deny (ModuleOffline name)
              | None =>
                  match check_rules i key now (interlocks wiring) with
                  | Some d => Deny d
                  | None => if in_use i key now then Allow else Deny NotInUse
                  end
              end
          end
      end
  end.

(** ** Leases *)

Definition latches (t : ToolModuleTool) (condition : string) : bool :=
  existsb (fun r => (rule_kind r ≟ KIND_TRIP) && (rule_condition r ≟ condition)
                    && rule_latch r) (interlocks t).

(** [renew]'s second critical section: what its decision writes. *)
Definition renew_commit (tool : string) (now : instant) (ttl : duration)
    (decision : Decision) (i : Inner) : Inner :=
  let key := tool_key i tool in
  match decision with
  | Allow => with_leases (<[key := now + ttl]> (leases i)) i
  | Deny denial =>
      let i := with_leases (delete key (leases i)) i in
      match denial with
      | Tripped condition =>
          if is_some_and (resolved i tool) (fun t => latches t condition)
          then with_latched (<[key := condition]> (latched i)) i
          else i
      | _ => i
      end
  end.

Definition renew (tool : string) (now : instant) (ttl module_timeout : duration)
    (i : Inner) : Inner * Decision :=
  let decision := evaluate i tool now module_timeout in
  (renew_commit tool now ttl decision i, decision).

Definition lease_valid (i : Inner) (tool : string) (now : instant) : bool :=
  is_some_and (leases i !! tool_key i tool) (fun until => now <? until).

Definition power_modules (i : Inner) (tool : string) : list string :=
  match resolved i tool with
  | Some t => binding_device_id <$> List.filter (fun m => binding_role m ≟ ROLE_POWER) (modules t)
  | None => []
  end.

(** ** The watchdog *)

Definition confirmed_on_at (i : Inner) (b : DeviceBinding) (since_ : instant)
    : option instant :=
  match relay_state i !! binding_device_id b with
  | Some (true, at_) => if since_ <=? at_ then Some at_ else None
  | _ => None
  end.

Definition stage_name_le (a b : DeviceBinding) : bool :=
  match Z.compare (start_stage a) (start_stage b) with
  | Lt => true
  | Gt => false
  | Eq => String.leb (binding_name a) (binding_name b)
  end.

Definition power_bindings (t : ToolModuleTool) : list DeviceBinding :=
  sort_by stage_name_le (List.filter (fun m => binding_role m ≟ ROLE_POWER) (modules t)).

Definition sensor_bindings (t : ToolModuleTool) : list DeviceBinding :=
  sort_by (fun a b => String.leb (binding_name a) (binding_name b))
    (List.filter (fun m => binding_role m ≟ ROLE_SENSOR) (modules t)).

Definition first_stage (power : list DeviceBinding) : Z :=
  match power with
  | [] => 0
  | b :: bs => foldl (fun m b => Z.min m (start_stage b)) (start_stage b) bs
  end.

(** The instant a binding's start delay counts from, or [None] while something
    in an earlier stage has not confirmed it is on. *)
Definition stage_base (i : Inner) (power : list DeviceBinding) (allowed : instant)
    (b : DeviceBinding) : option instant :=
  if start_stage b <=? first_stage power then Some allowed
  else foldl (fun base e =>
         base ← base;
         if start_stage e <? start_stage b
         then at_ ← confirmed_on_at i e allowed; Some (Z.max base at_)
         else Some base) (Some allowed) power.

Definition mk_lease (tool : string) (ttl : duration) (device_id : string) (grant : bool)
    (reason : option string) : LeaseAction := {|
  la_tool_id := tool;
  la_device_id := device_id;
  la_grant := grant;
  la_ttl_ms := Z.max (num_milliseconds ttl) 0;
  la_reason := reason;
|}.

(** The power loop while the tool is allowed. *)
Definition allow_binding (lease : string -> bool -> option string -> LeaseAction)
    (power : list DeviceBinding) (allowed now : instant)
    (acc : Inner * list LeaseAction) (b : DeviceBinding) : Inner * list LeaseAction :=
  let '(i, out) := acc in
  match stage_base i power allowed b with
  | None => (i, out)
  | Some base =>
      let due := base + millis (Z.max (start_delay_ms b) 0) in
      if now <? due then (i, out)
      else (with_granted_since (or_insert (binding_id b) now (granted_since i)).1 i,
            out ++ [lease (binding_device_id b) true None])
  end.

(** The power loop while the tool is denied. *)
Definition deny_binding (lease : string -> bool -> option string -> LeaseAction)
    (denial : Denial) (now : instant)
    (acc : Inner * list LeaseAction) (b : DeviceBinding) : Inner * list LeaseAction :=
  let '(i, out) := acc in
  if is_some_and (run_on_until i !! binding_id b) (fun until => now <? until)
  then (i, out ++ [lease (binding_device_id b) true None])
  else (with_granted_since (delete (binding_id b) (granted_since i))
          (with_run_on_until (delete (binding_id b) (run_on_until i)) i),
        out ++ [lease (binding_device_id b) false (Some (debug_denial denial))]).

(** The transition from allowed to denied: run-on for what was actually on. *)
Definition start_run_on (now : instant) (i : Inner) (b : DeviceBinding) : Inner :=
  if (0 <? run_on_ms b) && is_some (granted_since i !! binding_id b)
  then with_run_on_until (<[binding_id b := now + millis (run_on_ms b)]> (run_on_until i)) i
  else i.

Definition clear_run_on (i : Inner) (b : DeviceBinding) : Inner :=
  with_run_on_until (delete (binding_id b) (run_on_until i)) i.

(** What one pass does for an allowed tool. *)
Definition tick_allow (lease : string -> bool -> option string -> LeaseAction)
    (key : string) (power sensors : list DeviceBinding) (now : instant) (i : Inner)
    : Inner * list LeaseAction :=
  let '(since_, allowed) := or_insert key now (allowed_since i) in
  let i := with_allowed_since since_ i in
  let i := foldl clear_run_on i power in
  let '(i, out) := foldl (allow_binding lease power allowed now) (i, []) power in
  (i, out ++ ((fun b => lease (binding_device_id b) true None) <$> sensors)).

(** What one pass does for a denied tool. *)
Definition tick_deny (lease : string -> bool -> option string -> LeaseAction)
    (key : string) (power sensors : list DeviceBinding) (denial : Denial) (now : instant)
    (i : Inner) : Inner * list LeaseAction :=
  let i := if is_some (allowed_since i !! key)
           then foldl (start_run_on now) (with_allowed_since (delete key (allowed_since i)) i) power
           else i in
  let '(i, out) := foldl (deny_binding lease denial now) (i, []) power in
  (i, out ++ ((fun b => lease (binding_device_id b) false (Some (debug_denial denial)))
               <$> sensors)).

(** The last critical section of one iteration of [tick]'s loop: the commands a
    decision comes to, and the sequencing and run-on book-keeping. *)
Definition tick_settle (now : instant) (ttl : duration) (tool : string)
    (decision : Decision) (acc : Inner * list LeaseAction) : Inner * list LeaseAction :=
  let '(i, out) := acc in
  match resolved i tool with
  | None => (i, out)
  | Some wiring =>
      let power := power_bindings wiring in
      let sensors := sensor_bindings wiring in
      let lease := mk_lease tool ttl in
      let '(i, acts) :=
        match decision with
        | Allow => tick_allow lease (tool_id wiring) power sensors now i
        | Deny denial => tick_deny lease (tool_id wiring) power sensors denial now i
        end in
      (i, out ++ acts)
  end.

(** One iteration of [tick]'s loop. *)
Definition tick_tool (now : instant) (ttl module_timeout : duration)
    (acc : Inner * list LeaseAction) (tool : string) : Inner * list LeaseAction :=
  let '(i, out) := acc in
  let '(i, decision) := renew tool now ttl module_timeout i in
  tick_settle now ttl tool decision (i, out).

Definition tools (i : Inner) : list string :=
  match snapshot i with
  | Some s => tool_id <$> tms_tools s
  | None => []
  end.

Definition tick (now : instant) (ttl module_timeout : duration) (i : Inner)
    : Inner * list LeaseAction :=
  foldl (tick_tool now ttl module_timeout) (i, []) (tools i).

(** ** Reading the wiring *)

Definition resource (i : Inner) (name : string) : option ResourceWiring :=
  wiring ← resolved i name;
  Some {|
    wiring_id := tool_id wiring;
    wiring_kind := tool_kind wiring;
    wiring_session_profile := tool_session_profile wiring;
    strike_pulse := pulse_ms <$>
      find_first (fun m => (binding_role m ≟ ROLE_STRIKE) && (0 <? pulse_ms m)) (modules wiring);
  |}.

(** ** Lemmas: naming *)

Lemma find_tool_id tools x t :
  find_first (fun t => tool_id t ≟ x) tools = Some t -> tool_id t = x.
Proof. intros [_ H]%find_first_Some. by apply bool_decide_eq_true in H. Qed.

(** A canonical id resolves to a tool of that id. *)
Lemma resolve_canonical s x t :
  resolve s x = Some t -> exists t', resolve s (tool_id t) = Some t' /\ tool_id t' = tool_id t.
Proof.
  unfold resolve. intros H.
  assert (t ∈ tms_tools s) as Hin.
  { case_match; simplify_eq; by eapply find_first_Some. }
  destruct (find_first_is_Some (fun u => tool_id u ≟ tool_id t) _ _ Hin) as [t' Ht'].
  { by apply bool_decide_eq_true. }
  rewrite Ht'. exists t'. split; [done|]. by apply find_tool_id in Ht'.
Qed.

Lemma tool_key_idem i x : tool_key i (tool_key i x) = tool_key i x.
Proof.
  unfold tool_key, resolved. destruct (snapshot i) as [s|]; simpl; [|done].
  destruct (resolve s x) as [t|] eqn:E; [|by rewrite E].
  destruct (resolve_canonical _ _ _ E) as (t' & -> & ->). done.
Qed.

Lemma resolved_tool_key i x t : resolved i x = Some t -> tool_key i x = tool_id t.
Proof. unfold tool_key. by intros ->. Qed.

(** ** Lemmas: what a pass of the watchdog leaves alone *)

(** The fields no renewal and no pass writes: the inputs of [evaluate]. *)
Record core_eq (i j : Inner) : Prop := {
  ce_snapshot : snapshot j = snapshot i;
  ce_readings : readings j = readings i;
  ce_module_seen : module_seen j = module_seen i;
  ce_local_sessions : local_sessions j = local_sessions i;
  ce_synced : synced_in_use j = synced_in_use i;
  ce_grace : local_session_grace j = local_session_grace i;
  ce_stops : local_stops j = local_stops i;
  ce_relay : relay_state j = relay_state i;
}.

#[global] Instance core_eq_preorder : PreOrder core_eq.
Proof.
  split.
  - by constructor.
  - intros a b c [] []. constructor; congruence.
Qed.

Lemma core_tool_key i j x : core_eq i j -> tool_key j x = tool_key i x.
Proof. intros []. unfold tool_key, resolved. by rewrite ce_snapshot0. Qed.

Lemma core_resolved i j x : core_eq i j -> resolved j x = resolved i x.
Proof. intros []. unfold resolved. by rewrite ce_snapshot0. Qed.

Lemma core_in_use i j k now : core_eq i j -> in_use j k now = in_use i k now.
Proof. intros []. unfold in_use. by rewrite ce_synced0, ce_local_sessions0. Qed.

Lemma core_check_rules i j k now rules :
  core_eq i j -> check_rules j k now rules = check_rules i k now rules.
Proof.
  intros H. induction rules as [|r rs IH]; simpl; [done|].
  unfold satisfied. rewrite (ce_readings _ _ H), IH. done.
Qed.

Lemma core_offline i j t now timeout :
  core_eq i j -> offline_fail_off j t now timeout = offline_fail_off i t now timeout.
Proof.
  intros H. unfold offline_fail_off. f_equal. apply find_first_ext.
  intros m _. unfold is_offline. by rewrite (ce_module_seen _ _ H).
Qed.

(** An allowance seen in a later state of a pass was already one at its start:
    within a pass latches are only added. *)
Lemma evaluate_allow_mono i j tool now timeout :
  core_eq i j -> latched i ⊆ latched j ->
  evaluate j tool now timeout = Allow -> evaluate i tool now timeout = Allow.
Proof.
  intros H Hl. unfold evaluate. rewrite (ce_snapshot _ _ H).
  destruct (snapshot i) as [s|]; [|done].
  destruct (resolve s tool) as [t|]; [|done].
  destruct (latched j !! tool_id t) as [c|] eqn:Ej; [done|].
  rewrite (lookup_weaken_None _ _ _ Ej Hl).
  by rewrite (core_offline i j), (core_check_rules i j), (core_in_use i j).
Qed.

(** What the lease commands a loop emits do to the state. *)
Record bookkeeping (i j : Inner) : Prop := {
  bk_core : core_eq i j;
  bk_latched : latched j = latched i;
  bk_leases : leases j = leases i;
}.

#[global] Instance bookkeeping_preorder : PreOrder bookkeeping.
Proof.
  split.
  - by constructor.
  - intros a b c [] []. constructor; [by etrans | congruence | congruence].
Qed.

Lemma bookkeeping_foldl {A} (f : Inner -> A -> Inner) l i :
  (forall i x, bookkeeping i (f i x)) -> bookkeeping i (foldl f i l).
Proof.
  intros Hf. revert i. induction l as [|x l IH]; intros i; simpl; [done|].
  etrans; [apply Hf | apply IH].
Qed.

Lemma bookkeeping_foldl_out {A B} (f : Inner * B -> A -> Inner * B) l acc :
  (forall acc x, bookkeeping acc.1 (f acc x).1) -> bookkeeping acc.1 (foldl f acc l).1.
Proof.
  intros Hf. revert acc. induction l as [|x l IH]; intros acc; simpl; [done|].
  etrans; [apply Hf | apply IH].
Qed.

Lemma allow_binding_bookkeeping lease power allowed now acc b :
  bookkeeping acc.1 (allow_binding lease power allowed now acc b).1.
Proof. destruct acc. unfold allow_binding. by repeat case_match. Qed.

Lemma deny_binding_bookkeeping lease denial now acc b :
  bookkeeping acc.1 (deny_binding lease denial now acc b).1.
Proof. destruct acc. unfold deny_binding. by repeat case_match. Qed.

Lemma tick_allow_bookkeeping lease key power sensors now i :
  bookkeeping i (tick_allow lease key power sensors now i).1.
Proof.
  unfold tick_allow. destruct (or_insert _ _ _) as [m a].
  destruct (foldl (allow_binding _ _ _ _) _ _) as [j out] eqn:E. simpl.
  assert (j = (j, out).1) as -> by done. rewrite <- E.
  etrans; [|apply bookkeeping_foldl_out, allow_binding_bookkeeping]. simpl.
  etrans; [|apply bookkeeping_foldl]; by constructor.
Qed.

Lemma tick_deny_bookkeeping lease key power sensors denial now i :
  bookkeeping i (tick_deny lease key power sensors denial now i).1.
Proof.
  unfold tick_deny.
  destruct (foldl (deny_binding _ _ _) _ _) as [j out] eqn:E. simpl.
  assert (j = (j, out).1) as -> by done. rewrite <- E.
  etrans; [|apply bookkeeping_foldl_out, deny_binding_bookkeeping]. simpl.
  case_match; [|done].
  etrans; [|apply bookkeeping_foldl].
  - by constructor.
  - intros k b. unfold start_run_on. by case_match.
Qed.

Lemma renew_commit_core tool now ttl d i : core_eq i (renew_commit tool now ttl d i).
Proof. unfold renew_commit. by repeat case_match. Qed.

Lemma renew_commit_latched tool now ttl timeout i :
  latched i ⊆ latched (renew tool now ttl timeout i).1.
Proof.
  unfold renew, renew_commit, evaluate. simpl. unfold tool_key, resolved.
  destruct (snapshot i) as [s|]; simpl; [|done].
  destruct (resolve s tool) as [t|]; [|done].
  destruct (latched i !! tool_id t) eqn:El; [done|].
  repeat (case_match; simplify_eq/=); try done; by apply insert_subseteq.
Qed.

(** One iteration, as the state it leaves and the commands it adds. *)
Lemma tick_tool_core now ttl timeout i out tool :
  core_eq i (tick_tool now ttl timeout (i, out) tool).1 /\
  latched i ⊆ latched (tick_tool now ttl timeout (i, out) tool).1.
Proof.
  unfold tick_tool, tick_settle.
  pose proof (renew_commit_core tool now ttl (evaluate i tool now timeout) i) as Hc.
  pose proof (renew_commit_latched tool now ttl timeout i) as Hl.
  unfold renew in *. simpl in *.
  set (i' := renew_commit _ _ _ _ i) in *.
  destruct (resolved i' tool) as [w|]; [|by split].
  destruct (evaluate i tool now timeout) as [|d].
  - destruct (tick_allow _ _ _ _ _ _) as [j acts] eqn:E. simpl.
    pose proof (tick_allow_bookkeeping (mk_lease tool ttl) (tool_id w)
      (power_bindings w) (sensor_bindings w) now i') as [Hb1 Hb2 _].
    rewrite E in *. simpl in *. split; [by etrans | by rewrite Hb2].
  - destruct (tick_deny _ _ _ _ _ _ _) as [j acts] eqn:E. simpl.
    pose proof (tick_deny_bookkeeping (mk_lease tool ttl) (tool_id w)
      (power_bindings w) (sensor_bindings w) d now i') as [Hb1 Hb2 _].
    rewrite E in *. simpl in *. split; [by etrans | by rewrite Hb2].
Qed.

(** ** Lemmas: start sequencing *)

Lemma first_stage_le power b : b ∈ power -> first_stage power <= start_stage b.
Proof.
  assert (forall l m, foldl (fun m b => Z.min m (start_stage b)) m l <= m /\
    forall b, b ∈ l -> foldl (fun m b => Z.min m (start_stage b)) m l <= start_stage b)
    as Hfold.
  { induction l as [|x l IH]; intros m; simpl.
    - split; [lia|]. intros ? H. inversion H.
    - destruct (IH (Z.min m (start_stage x))) as [H1 H2]. split; [lia|].
      intros c [-> | Hc]%elem_of_cons; [lia|]. by apply H2. }
  destruct power as [|x l]; [intros H; inversion H|]. simpl.
  destruct (Hfold l (start_stage x)) as [H1 H2].
  intros [-> | Hb]%elem_of_cons; [done|]. by apply H2.
Qed.

(** Everything that must have confirmed on before [b], has: since the tool was
    allowed, and no later than the base its start delay counts from. *)
Definition sequenced (i : Inner) (power : list DeviceBinding) (allowed base : instant)
    (b : DeviceBinding) : Prop :=
  allowed <= base /\
  forall e, e ∈ power -> start_stage e < start_stage b ->
    exists at_, relay_state i !! binding_device_id e = Some (true, at_) /\
      allowed <= at_ <= base.

Lemma confirmed_on_at_Some i b since_ at_ :
  confirmed_on_at i b since_ = Some at_ ->
  relay_state i !! binding_device_id b = Some (true, at_) /\ since_ <= at_.
Proof.
  unfold confirmed_on_at. intros H. case_in H; split; [done | lia].
Qed.

Lemma stage_base_sequenced i power allowed b base :
  stage_base i power allowed b = Some base -> sequenced i power allowed base b.
Proof.
  unfold stage_base. destruct (start_stage b <=? first_stage power) eqn:E.
  { intros [= <-]. apply Z.leb_le in E. split; [lia|].
    intros e He Hlt. pose proof (first_stage_le _ _ He). lia. }
  set (step := fun (base : option instant) e => _).
  assert (forall l, foldl step None l = None) as Hnone
    by (induction l as [|x l IH]; [done | apply IH]).
  assert (forall l b0, foldl step (Some b0) l = Some base -> b0 <= base /\
    forall e, e ∈ l -> start_stage e < start_stage b ->
      exists at_, relay_state i !! binding_device_id e = Some (true, at_) /\
        allowed <= at_ <= base) as Hfold.
  { induction l as [|x l IH]; intros b0; simpl.
    - intros [= ->]. split; [lia|]. intros ? H. inversion H.
    - destruct (start_stage x <? start_stage b) eqn:Ex; simpl.
      + destruct (confirmed_on_at i x allowed) as [at_|] eqn:Ec; simpl;
          [|by rewrite Hnone].
        intros [H1 H2]%IH. apply confirmed_on_at_Some in Ec as [Ec1 Ec2].
        split; [lia|]. intros e [-> | He]%elem_of_cons Hlt; [|by apply H2].
        exists at_. split; [done | lia].
      + intros [H1 H2]%IH. split; [done|]. apply Z.ltb_ge in Ex.
        intros e [-> | He]%elem_of_cons Hlt; [lia | by apply H2]. }
  apply Hfold.
Qed.

(** ** Lemmas: the commands of one iteration *)

Definition tool_acts (now : instant) (ttl timeout : duration) (i : Inner) (tool : string)
    : list LeaseAction := (tick_tool now ttl timeout (i, []) tool).2.

Lemma tick_tool_out now ttl timeout i out tool :
  tick_tool now ttl timeout (i, out) tool =
  ((tick_tool now ttl timeout (i, []) tool).1, out ++ tool_acts now ttl timeout i tool).
Proof.
  unfold tool_acts, tick_tool, tick_settle. destruct (renew _ _ _ _ _) as [j d].
  destruct (resolved j tool) as [w|]; [|by rewrite app_nil_r].
  destruct d; [destruct (tick_allow _ _ _ _ _ _) | destruct (tick_deny _ _ _ _ _ _ _)];
    done.
Qed.

(** An allowed binding, as the loop over the power bindings leaves it. *)
Lemma allow_loop_grants lease power allowed now l acc a :
  a ∈ (foldl (allow_binding lease power allowed now) acc l).2 ->
  a ∈ acc.2 \/ exists b base, b ∈ l /\ a = lease (binding_device_id b) true None /\
    stage_base acc.1 power allowed b = Some base /\
    base + millis (Z.max (start_delay_ms b) 0) <= now.
Proof.
  revert acc. induction l as [|x l IH]; intros [i out]; simpl; [by left|].
  intros [H | (b & base & Hb & Ha & Hbase & Hdue)]%IH.
  - unfold allow_binding in H. destruct (stage_base i power allowed x) as [base|] eqn:E;
      [|by left]. case_match; [by left|]. simpl in H.
    apply elem_of_app in H as [H | ->%list_elem_of_singleton]; [by left|].
    right. exists x, base. split_andb. repeat split; try done. by left.
  - right. exists b, base. split; [by right|]. split; [done|]. split; [|done].
    rewrite <- Hbase. unfold allow_binding, stage_base, confirmed_on_at.
    by repeat case_match.
Qed.

Lemma tick_allow_grants lease key power sensors now i a :
  a ∈ (tick_allow lease key power sensors now i).2 ->
  (exists b base, b ∈ power /\ a = lease (binding_device_id b) true None /\
    sequenced i power (default now (allowed_since i !! key)) base b /\
    base + millis (Z.max (start_delay_ms b) 0) <= now) \/
  (exists b, b ∈ sensors /\ a = lease (binding_device_id b) true None).
Proof.
  unfold tick_allow.
  assert ((or_insert key now (allowed_since i)).2 = default now (allowed_since i !! key))
    as Hv by (unfold or_insert; by case_match).
  destruct (or_insert _ _ _) as [m allowed] eqn:Eo. simpl in Hv. subst allowed.
  set (i1 := foldl clear_run_on _ power).
  assert (core_eq i i1) as Hc.
  { etrans; [|apply (bk_core _ _ (bookkeeping_foldl clear_run_on power _ ltac:(done)))].
    by constructor. }
  destruct (foldl (allow_binding _ _ _ _) _ _) as [j out] eqn:E. simpl.
  intros [H | H]%elem_of_app.
  - assert (a ∈ (j, out).2) as H' by done. rewrite <- E in H'.
    apply allow_loop_grants in H' as [H' | (b & base & Hb & -> & Hbase & Hdue)].
    { simpl in H'. inversion H'. }
    left. exists b, base. repeat split; try done.
    + by apply stage_base_sequenced in Hbase as [].
    + apply stage_base_sequenced in Hbase as [_ Hs]. simpl in Hs.
      by rewrite (ce_relay _ _ Hc) in Hs.
  - right. apply list_elem_of_fmap in H as (b & -> & Hb). by exists b.
Qed.

(** A grant while denied is run-on: an entry already there, or one this very
    pass made for a binding that was leased. *)
Definition runs_on (i : Inner) (key : string) (power : list DeviceBinding) (now : instant)
    (b : DeviceBinding) (until : instant) : Prop :=
  run_on_until i !! binding_id b = Some until \/
  (is_Some (allowed_since i !! key) /\
   exists b', b' ∈ power /\ binding_id b' = binding_id b /\ 0 < run_on_ms b' /\
     is_Some (granted_since i !! binding_id b) /\ until = now + millis (run_on_ms b')).

Lemma deny_loop_grants lease denial now l acc a :
  (forall d r, la_grant (lease d false r) = false) ->
  a ∈ (foldl (deny_binding lease denial now) acc l).2 -> la_grant a = true ->
  a ∈ acc.2 \/ exists b until, b ∈ l /\ a = lease (binding_device_id b) true None /\
    run_on_until acc.1 !! binding_id b = Some until /\ now < until.
Proof.
  intros Hl. revert acc. induction l as [|x l IH]; intros [i out]; simpl; [by left|].
  intros H Hg. destruct (IH _ H Hg) as [H1 | (b & until & Hb & Ha & Hr & Hu)].
  all: clear H; try rename H1 into H.
  - unfold deny_binding in H.
    destruct (run_on_until i !! binding_id x) as [u|] eqn:E; simpl in H.
    + destruct (now <? u) eqn:Eu; simpl in H;
        apply elem_of_app in H as [H | ->%list_elem_of_singleton]; try by left.
      * right. exists x, u. split_andb. repeat split; try done. by left.
      * by rewrite Hl in Hg.
    + apply elem_of_app in H as [H | ->%list_elem_of_singleton]; [by left|].
      by rewrite Hl in Hg.
  - right. exists b, until. split; [by right|]. split; [done|]. split; [|done].
    unfold deny_binding in Hr. case_match; [done|]. simpl in Hr.
    by apply lookup_delete_Some in Hr as [_ Hr].
Qed.

Lemma start_run_on_lookup now l i id until :
  run_on_until (foldl (start_run_on now) i l) !! id = Some until ->
  run_on_until i !! id = Some until \/
  exists b, b ∈ l /\ binding_id b = id /\ 0 < run_on_ms b /\
    is_Some (granted_since i !! id) /\ until = now + millis (run_on_ms b).
Proof.
  revert i. induction l as [|x l IH]; intros i; simpl; [by left|].
  assert (granted_since (start_run_on now i x) = granted_since i) as Hg
    by (unfold start_run_on; by case_match).
  intros [H | (b & Hb & Hid & Hms & Hs & Hu)]%IH.
  - unfold start_run_on in H. case_match; [|by left]. simpl in H.
    apply lookup_insert_Some in H as [[Hid Hu] | [_ H]]; [|by left].
    right. exists x. split_andb. subst id.
    destruct (granted_since i !! binding_id x) eqn:E; [|done].
    repeat split; [by left | done | by eexists | done].
  - right. exists b. rewrite Hg in Hs. repeat split; try done. by right.
Qed.

Lemma start_run_on_granted now l i :
  granted_since (foldl (start_run_on now) i l) = granted_since i.
Proof.
  revert i. induction l as [|x l IH]; intros i; simpl; [done|].
  rewrite IH. unfold start_run_on. by case_match.
Qed.

Lemma start_run_on_allowed now l i :
  allowed_since (foldl (start_run_on now) i l) = allowed_since i.
Proof.
  revert i. induction l as [|x l IH]; intros i; simpl; [done|].
  rewrite IH. unfold start_run_on. by case_match.
Qed.

Lemma tick_deny_grants lease key power sensors denial now i a :
  (forall d r, la_grant (lease d false r) = false) ->
  a ∈ (tick_deny lease key power sensors denial now i).2 -> la_grant a = true ->
  exists b until, b ∈ power /\ a = lease (binding_device_id b) true None /\
    runs_on i key power now b until /\ now < until.
Proof.
  intros Hl. unfold tick_deny.
  set (i1 := if is_some (allowed_since i !! key) then _ else i).
  destruct (foldl (deny_binding _ _ _) _ _) as [j out] eqn:E. simpl.
  intros [H | H]%elem_of_app Hg.
  - assert (a ∈ (j, out).2) as H' by done. rewrite <- E in H'.
    apply deny_loop_grants in H' as [H' | (b & until & Hb & Ha & Hr & Hu)]; try done.
    { simpl in H'. inversion H'. }
    exists b, until. repeat split; try done. unfold runs_on. subst i1. simpl in Hr.
    destruct (allowed_since i !! key) as [al|] eqn:Eal; simpl in Hr; [|by left].
    apply start_run_on_lookup in Hr as [Hr | (b' & ? & ? & ? & ? & ?)]; [by left|].
    right. split; [done|]. by exists b'.
  - apply list_elem_of_fmap in H as (b & -> & _). by rewrite Hl in Hg.
Qed.

(** ** Lemmas: one tool's pass leaves the other tools' book-keeping alone *)

Definition untouched (i j : Inner) (w : ToolModuleTool) : Prop :=
  allowed_since j !! tool_id w = allowed_since i !! tool_id w /\
  forall b, b ∈ modules w ->
    granted_since j !! binding_id b = granted_since i !! binding_id b /\
    run_on_until j !! binding_id b = run_on_until i !! binding_id b.

Lemma untouched_refl i w : untouched i i w.
Proof. by split. Qed.

Lemma untouched_trans i j k w : untouched i j w -> untouched j k w -> untouched i k w.
Proof.
  intros [H1 H2] [H3 H4]. split; [congruence|].
  intros b Hb. destruct (H2 b Hb), (H4 b Hb). split; congruence.
Qed.

(** Two tools share neither their id nor a binding id. *)
Definition apart (v w : ToolModuleTool) : Prop :=
  tool_id v <> tool_id w /\
  forall b c, b ∈ modules v -> c ∈ modules w -> binding_id b <> binding_id c.

Lemma untouched_foldl {A} (f : Inner -> A -> Inner) l i w :
  (forall i x, x ∈ l -> untouched i (f i x) w) -> untouched i (foldl f i l) w.
Proof.
  intros Hf. revert i. induction l as [|x l IH]; intros i; simpl.
  - apply untouched_refl.
  - eapply untouched_trans; [apply Hf; by left|]. apply IH.
    intros j y Hy. apply Hf. by right.
Qed.

Lemma untouched_foldl_out {A B} (f : Inner * B -> A -> Inner * B) l acc w :
  (forall acc x, x ∈ l -> untouched acc.1 (f acc x).1 w) ->
  untouched acc.1 (foldl f acc l).1 w.
Proof.
  intros Hf. revert acc. induction l as [|x l IH]; intros acc; simpl.
  - apply untouched_refl.
  - eapply untouched_trans; [apply Hf; by left|]. apply IH.
    intros j y Hy. apply Hf. by right.
Qed.

Lemma power_bindings_modules w b :
  b ∈ power_bindings w -> b ∈ modules w /\ binding_role b = ROLE_POWER.
Proof.
  unfold power_bindings. rewrite elem_of_sort_by, elem_of_lfilter.
  intros [H1 H2]. split; [done|]. by apply bool_decide_eq_true in H2.
Qed.

Lemma sensor_bindings_modules w b :
  b ∈ sensor_bindings w -> b ∈ modules w /\ binding_role b = ROLE_SENSOR.
Proof.
  unfold sensor_bindings. rewrite elem_of_sort_by, elem_of_lfilter.
  intros [H1 H2]. split; [done|]. by apply bool_decide_eq_true in H2.
Qed.

(** Solves the goal that a write at another tool's keys leaves [w] alone. *)
Ltac solve_untouched :=
  split; simpl; [by rewrite ?lookup_insert_ne, ?lookup_delete_ne by done|];
  let c := fresh "c" in let Hc := fresh "Hc" in
  intros c Hc; split;
  rewrite ?or_insert_fst_lookup, ?lookup_insert_ne, ?lookup_delete_ne;
  try case_decide; naive_solver.

Lemma tick_allow_untouched lease v sensors now i w :
  apart v w ->
  untouched i (tick_allow lease (tool_id v) (power_bindings v) sensors now i).1 w.
Proof.
  intros [Hid Hb]. unfold tick_allow.
  destruct (or_insert _ _ _) as [m al] eqn:Em.
  assert (forall k, k <> tool_id v -> m !! k = allowed_since i !! k) as Hm.
  { intros k Hk. pose proof (or_insert_fst_lookup (tool_id v) k now (allowed_since i)) as H.
    rewrite Em in H. simpl in H. case_decide; [by subst | done]. }
  destruct (foldl (allow_binding _ _ _ _) _ _) as [j out] eqn:E. simpl.
  assert (j = (j, out).1) as -> by done. rewrite <- E.
  eapply untouched_trans; [|apply untouched_foldl_out]; simpl.
  - eapply untouched_trans with (j := with_allowed_since m i).
    { split; simpl; [|done]. apply Hm. congruence. }
    apply untouched_foldl. intros k x [Hx _]%power_bindings_modules.
    unfold clear_run_on. specialize (Hb x). solve_untouched.
  - intros [k o] x [Hx _]%power_bindings_modules. simpl.
    destruct (stage_base _ _ _ _); [|apply untouched_refl].
    case_match; [apply untouched_refl|]. specialize (Hb x). solve_untouched.
Qed.

Lemma tick_deny_untouched lease v sensors denial now i w :
  apart v w ->
  untouched i (tick_deny lease (tool_id v) (power_bindings v) sensors denial now i).1 w.
Proof.
  intros [Hid Hb]. unfold tick_deny.
  destruct (foldl (deny_binding _ _ _) _ _) as [j out] eqn:E. simpl.
  assert (j = (j, out).1) as -> by done. rewrite <- E.
  eapply untouched_trans; [|apply untouched_foldl_out]; simpl.
  - case_match; [|apply untouched_refl].
    eapply untouched_trans with (j := with_allowed_since (delete (tool_id v) (allowed_since i)) i).
    { split; simpl; [|done]. by rewrite lookup_delete_ne. }
    apply untouched_foldl. intros k x [Hx _]%power_bindings_modules.
    unfold start_run_on. case_match; [|apply untouched_refl].
    specialize (Hb x). solve_untouched.
  - intros [k o] x [Hx _]%power_bindings_modules. unfold deny_binding.
    destruct (is_some_and _ _); [apply untouched_refl|].
    specialize (Hb x). solve_untouched.
Qed.

(** ** Well-formed wiring

    Tool ids and binding ids are database primary keys: a snapshot names each
    once. *)
Definition wiring_wf (s : ToolModuleStatePayload) : Prop :=
  NoDup (tool_id <$> tms_tools s) /\
  NoDup (binding_id <$> (tms_tools s ≫= modules)).

#[global] Instance wiring_wf_dec s : base.Decision (wiring_wf s).
Proof. unfold wiring_wf. apply _. Defined.

Lemma bindings_apart (l : list ToolModuleTool) v w b c :
  NoDup (binding_id <$> (l ≫= modules)) -> v ∈ l -> w ∈ l -> v <> w ->
  b ∈ modules v -> c ∈ modules w -> binding_id b <> binding_id c.
Proof.
  induction l as [|x l IH]; simpl; [intros _ H; inversion H|].
  rewrite fmap_app, NoDup_app. intros (_ & Hd & Hl) Hv Hw Hne Hb Hc Heq.
  assert (forall u d, u ∈ l -> d ∈ modules u -> binding_id d ∈ binding_id <$> (l ≫= modules))
    as Hin.
  { intros u d Hu Hdu. apply list_elem_of_fmap_2, list_elem_of_bind. by exists u. }
  apply elem_of_cons in Hv as [-> | Hv], Hw as [-> | Hw]; [done | | |].
  - apply (Hd (binding_id b)); [by apply list_elem_of_fmap_2|]. rewrite Heq. by eapply Hin.
  - apply (Hd (binding_id c)); [by apply list_elem_of_fmap_2|]. rewrite <- Heq. by eapply Hin.
  - by apply IH.
Qed.

Lemma resolve_wf s w :
  NoDup (tool_id <$> tms_tools s) -> w ∈ tms_tools s -> resolve s (tool_id w) = Some w.
Proof.
  intros Hnd Hw. unfold resolve.
  destruct (find_first_is_Some (fun t => tool_id t ≟ tool_id w) _ _ Hw) as [t Ht].
  { by apply bool_decide_eq_true. }
  rewrite Ht. f_equal. apply find_first_Some in Ht as [Hin Hid].
  apply bool_decide_eq_true in Hid.
  apply list_elem_of_lookup in Hin as [n Hn], Hw as [m Hm].
  assert (n = m) as ->; [|congruence].
  eapply NoDup_lookup; [done| |]; rewrite list_lookup_fmap, ?Hn, ?Hm; simpl; by f_equal.
Qed.

Lemma wf_apart s v w :
  wiring_wf s -> v ∈ tms_tools s -> w ∈ tms_tools s -> v <> w -> apart v w.
Proof.
  intros [H1 H2] Hv Hw Hne. split.
  - intros Heq. apply Hne. apply (inj Some).
    by rewrite <- (resolve_wf s v), <- (resolve_wf s w), Heq.
  - intros b c. by eapply bindings_apart.
Qed.

Lemma tick_tool_untouched now ttl timeout i out v w :
  resolved i (tool_id v) = Some v -> apart v w ->
  untouched i (tick_tool now ttl timeout (i, out) (tool_id v)).1 w.
Proof.
  intros Hv Ha. unfold tick_tool, tick_settle, renew. simpl.
  set (i' := renew_commit _ _ _ _ i).
  assert (untouched i i' w) as Hu.
  { subst i'. unfold renew_commit. by repeat case_match. }
  assert (resolved i' (tool_id v) = Some v) as ->.
  { rewrite (core_resolved i); [done|]. apply renew_commit_core. }
  destruct (evaluate _ _ _ _) as [|d].
  - pose proof (tick_allow_untouched (mk_lease (tool_id v) ttl) v (sensor_bindings v)
      now i' w Ha) as H.
    destruct (tick_allow _ _ _ _ _ _). by eapply untouched_trans.
  - pose proof (tick_deny_untouched (mk_lease (tool_id v) ttl) v (sensor_bindings v) d
      now i' w Ha) as H.
    destruct (tick_deny _ _ _ _ _ _ _). by eapply untouched_trans.
Qed.

(** Reasoning about a whole pass one tool at a time: at each tool's turn the
    inputs of its decision and its own book-keeping are as the pass found them. *)
Lemma tick_elim (P : LeaseAction -> Prop) now ttl timeout i s :
  snapshot i = Some s -> wiring_wf s ->
  (forall j w a, w ∈ tms_tools s -> core_eq i j -> latched i ⊆ latched j ->
     untouched i j w -> a ∈ tool_acts now ttl timeout j (tool_id w) -> P a) ->
  forall a, a ∈ (tick now ttl timeout i).2 -> P a.
Proof.
  intros Hs Hwf Hstep. unfold tick, tools. rewrite Hs.
  assert (forall ws j out, NoDup ws -> (forall w, w ∈ ws -> w ∈ tms_tools s) ->
    core_eq i j -> latched i ⊆ latched j -> (forall w, w ∈ ws -> untouched i j w) ->
    (forall a, a ∈ out -> P a) ->
    forall a, a ∈ (foldl (tick_tool now ttl timeout) (j, out) (tool_id <$> ws)).2 -> P a)
    as Hfold.
  { induction ws as [|v ws IH]; intros j out Hnd Hin Hc Hl Hu Hout; [done|].
    rewrite fmap_cons. cbn [foldl].
    apply NoDup_cons in Hnd as [Hv Hnd].
    assert (v ∈ tms_tools s) as Hvs by (apply Hin; by left).
    rewrite tick_tool_out.
    destruct (tick_tool_core now ttl timeout j [] (tool_id v)) as [Hc' Hl'].
    apply IH; [done | intros; apply Hin; by right | by etrans | by etrans | |].
    - intros w Hw. eapply untouched_trans; [apply Hu; by right|].
      apply tick_tool_untouched.
      + unfold resolved. rewrite (ce_snapshot _ _ Hc), Hs. simpl.
        by apply resolve_wf; [apply Hwf|].
      + eapply wf_apart; try done; [apply Hin; by right|]. by intros ->.
    - intros a [Ha | Ha]%elem_of_app; [by apply Hout|].
      eapply Hstep; try done. apply Hu. by left. }
  apply Hfold.
  - destruct Hwf as [Hwf _]. by apply NoDup_fmap_1 in Hwf.
  - done.
  - reflexivity.
  - done.
  - intros. apply untouched_refl.
  - intros a Ha. inversion Ha.
Qed.

(** The book-keeping of one tool across a whole pass is its own iteration's. *)
Definition same_turn (i j : Inner) (w : ToolModuleTool) : Prop :=
  core_eq i j /\ latched j !! tool_id w = latched i !! tool_id w /\ untouched i j w.

Lemma same_turn_trans i j k w : same_turn i j w -> same_turn j k w -> same_turn i k w.
Proof.
  intros (H1 & H2 & H3) (H4 & H5 & H6). split; [by etrans|]. split; [congruence|].
  by eapply untouched_trans.
Qed.

Lemma renew_commit_latched_other tool now ttl d i key :
  tool_key i tool <> key -> latched (renew_commit tool now ttl d i) !! key = latched i !! key.
Proof.
  intros H. unfold renew_commit. repeat case_match; try done. simpl. by rewrite lookup_insert_ne.
Qed.

Lemma tick_settle_bookkeeping now ttl tool d i o :
  bookkeeping i (tick_settle now ttl tool d (i, o)).1.
Proof.
  unfold tick_settle. destruct (resolved i tool) as [w|]; [|done].
  destruct d as [|d].
  - pose proof (tick_allow_bookkeeping (mk_lease tool ttl) (tool_id w)
      (power_bindings w) (sensor_bindings w) now i).
    by destruct (tick_allow _ _ _ _ _ _).
  - pose proof (tick_deny_bookkeeping (mk_lease tool ttl) (tool_id w)
      (power_bindings w) (sensor_bindings w) d now i).
    by destruct (tick_deny _ _ _ _ _ _ _).
Qed.

Lemma others_same_turn now ttl timeout i s w vs out :
  snapshot i = Some s -> wiring_wf s -> w ∈ tms_tools s ->
  (forall v, v ∈ vs -> v ∈ tms_tools s /\ v <> w) ->
  same_turn i (foldl (tick_tool now ttl timeout) (i, out) (tool_id <$> vs)).1 w.
Proof.
  intros Hs Hwf Hw. revert i out Hs. induction vs as [|v vs IH]; intros i out Hs Hvs.
  { split; [done|]. by split. }
  rewrite fmap_cons. cbn [foldl].
  destruct (Hvs v ltac:(by left)) as [Hv Hne].
  assert (resolved i (tool_id v) = Some v) as Hr.
  { unfold resolved. rewrite Hs. by apply resolve_wf; [apply Hwf|]. }
  pose proof (wf_apart _ _ _ Hwf Hv Hw Hne) as Hap.
  destruct (tick_tool_core now ttl timeout i out (tool_id v)) as [Hc _].
  eapply same_turn_trans; [split; [done|]; split|].
  - unfold tick_tool, renew.
    rewrite (bk_latched _ _ (tick_settle_bookkeeping _ _ _ _ _ _)).
    apply renew_commit_latched_other. rewrite (resolved_tool_key _ _ _ Hr). apply Hap.
  - by apply tick_tool_untouched.
  - destruct (tick_tool _ _ _ _ _) as [j o]. apply IH.
    + simpl in Hc. by rewrite (ce_snapshot _ _ Hc).
    + intros x Hx. apply Hvs. by right.
Qed.

Lemma tick_turn now ttl timeout i s w :
  snapshot i = Some s -> wiring_wf s -> w ∈ tms_tools s ->
  exists j out, same_turn i j w /\
    same_turn (tick_tool now ttl timeout (j, out) (tool_id w)).1 (tick now ttl timeout i).1 w.
Proof.
  intros Hs Hwf Hw. unfold tick, tools. rewrite Hs.
  destruct (list_elem_of_split _ _ Hw) as (l1 & l2 & Hl).
  assert (NoDup (l1 ++ w :: l2)) as Hnd.
  { rewrite <- Hl. destruct Hwf as [Hwf _]. by apply NoDup_fmap_1 in Hwf. }
  apply NoDup_app in Hnd as (_ & Hd1 & [Hd2 _]%NoDup_cons).
  pose proof (others_same_turn now ttl timeout i s w l1 [] Hs Hwf Hw) as H1.
  rewrite Hl, fmap_app, fmap_cons, foldl_app. cbn [foldl].
  destruct (foldl _ _ (tool_id <$> l1)) as [j out]. simpl in H1.
  exists j, out. assert (same_turn i j w) as Hj.
  { apply H1. intros v Hv. split; [rewrite Hl, elem_of_app; by left|].
    intros ->. apply (Hd1 w Hv). by left. }
  split; [done|].
  destruct (tick_tool_core now ttl timeout j out (tool_id w)) as [Hc _].
  destruct (tick_tool now ttl timeout (j, out) (tool_id w)) as [k o]. simpl in *.
  eapply others_same_turn; [|done|done|].
  - rewrite (ce_snapshot _ _ Hc). destruct Hj as [Hj _]. by rewrite (ce_snapshot _ _ Hj).
  - intros v Hv. split; [rewrite Hl, elem_of_app, elem_of_cons; by right; right|].
    by intros ->.
Qed.

Lemma evaluate_same_turn i j s w now timeout :
  snapshot i = Some s -> wiring_wf s -> w ∈ tms_tools s -> same_turn i j w ->
  evaluate j (tool_id w) now timeout = evaluate i (tool_id w) now timeout.
Proof.
  intros Hs Hwf Hw (Hc & Hl & _). unfold evaluate. rewrite (ce_snapshot _ _ Hc), Hs.
  rewrite (resolve_wf s w) by (done || apply Hwf). rewrite Hl.
  by rewrite (core_offline i j), (core_check_rules i j), (core_in_use i j).
Qed.

(** ** Lemmas: what one iteration leaves in the run-on table *)

Lemma deny_loop_state lease denial now l acc :
  let r := (foldl (deny_binding lease denial now) acc l).1 in
  allowed_since r = allowed_since acc.1 /\
  forall id u, run_on_until r !! id = Some u -> run_on_until acc.1 !! id = Some u.
Proof.
  revert acc. induction l as [|x l IH]; intros [i out]; simpl; [done|].
  specialize (IH (deny_binding lease denial now (i, out) x)) as [IH1 IH2].
  revert IH1 IH2. unfold deny_binding. case_match; simpl; [done|].
  intros H1 H2. split; [done|]. by intros id u [_ Hu]%H2%lookup_delete_Some.
Qed.

Lemma tick_deny_state lease key power sensors denial now i :
  let r := (tick_deny lease key power sensors denial now i).1 in
  allowed_since r !! key = None /\
  forall id u, run_on_until r !! id = Some u ->
    run_on_until i !! id = Some u \/
    is_Some (allowed_since i !! key) /\
    exists b, b ∈ power /\ binding_id b = id /\ 0 < run_on_ms b /\
      u = now + millis (run_on_ms b).
Proof.
  unfold tick_deny. set (i1 := if is_some _ then _ else i).
  pose proof (deny_loop_state lease denial now power (i1, [])) as H.
  destruct (foldl (deny_binding _ _ _) _ _) as [j out]. simpl in *.
  destruct H as [H1 H2]. subst i1.
  assert (forall l k, allowed_since (foldl (start_run_on now) k l) = allowed_since k) as Hal
    by apply start_run_on_allowed.
  destruct (allowed_since i !! key) as [al|] eqn:E; simpl in *; rewrite H1.
  - rewrite Hal. simpl. rewrite lookup_delete_eq. split; [done|].
    intros id u Hu%H2. apply start_run_on_lookup in Hu as [Hu | (b & ? & ? & ? & _ & ?)];
      [by left|]. right. split; [done|]. by exists b.
  - rewrite E. split; [done|]. intros id u Hu%H2. by left.
Qed.

Lemma allow_loop_run_on lease power allowed now l acc :
  run_on_until (foldl (allow_binding lease power allowed now) acc l).1 = run_on_until acc.1.
Proof.
  revert acc. induction l as [|x l IH]; intros [i out]; simpl; [done|].
  rewrite IH. unfold allow_binding. by repeat case_match.
Qed.

Lemma clear_run_on_stays l i id :
  run_on_until i !! id = None -> run_on_until (foldl clear_run_on i l) !! id = None.
Proof.
  revert i. induction l as [|x l IH]; intros i; simpl; [done|]. intros H. apply IH.
  unfold clear_run_on. simpl. by apply lookup_delete_None; right.
Qed.

Lemma clear_run_on_lookup l i b :
  b ∈ l -> run_on_until (foldl clear_run_on i l) !! binding_id b = None.
Proof.
  revert i. induction l as [|x l IH]; intros i; simpl; [intros H; inversion H|].
  intros [-> | Hb]%elem_of_cons; [|by apply IH].
  apply clear_run_on_stays. unfold clear_run_on. simpl. apply lookup_delete_eq.
Qed.

Lemma tick_allow_run_on lease key power sensors now i b :
  b ∈ power ->
  run_on_until (tick_allow lease key power sensors now i).1 !! binding_id b = None.
Proof.
  intros Hb. unfold tick_allow. destruct (or_insert _ _ _) as [m a].
  pose proof (allow_loop_run_on lease power a now power
    (foldl clear_run_on (with_allowed_since m i) power, [])) as H.
  destruct (foldl (allow_binding _ _ _ _) _ _) as [j out]. simpl in *.
  rewrite H. by apply clear_run_on_lookup.
Qed.

(** One iteration, with its decision and its wiring resolved. *)
Lemma tick_tool_settled now ttl timeout i out w :
  resolved i (tool_id w) = Some w ->
  exists i', core_eq i i' /\ allowed_since i' = allowed_since i /\
    granted_since i' = granted_since i /\ run_on_until i' = run_on_until i /\
    (tick_tool now ttl timeout (i, out) (tool_id w)).1 =
      match evaluate i (tool_id w) now timeout with
      | Allow => (tick_allow (mk_lease (tool_id w) ttl) (tool_id w) (power_bindings w)
                    (sensor_bindings w) now i').1
      | Deny d => (tick_deny (mk_lease (tool_id w) ttl) (tool_id w) (power_bindings w)
                    (sensor_bindings w) d now i').1
      end.
Proof.
  intros Hr. unfold tick_tool, renew, tick_settle.
  set (i' := renew_commit _ _ _ _ i).
  assert (core_eq i i') as Hc by apply renew_commit_core.
  exists i'. split; [done|].
  assert (allowed_since i' = allowed_since i /\ granted_since i' = granted_since i /\
    run_on_until i' = run_on_until i) as (-> & -> & ->).
  { subst i'. unfold renew_commit. by repeat case_match. }
  repeat (split; [done|]). rewrite (core_resolved _ _ _ Hc), Hr.
  destruct (evaluate _ _ _ _) as [|d].
  - by destruct (tick_allow _ _ _ _ _ _).
  - by destruct (tick_deny _ _ _ _ _ _ _).
Qed.

(** ** The safety argument of the watchdog *)

(** Why a device may be told to stay energized at [now]. *)
Definition backed (i : Inner) (s : ToolModuleStatePayload) (now : instant)
    (timeout : duration) (a : LeaseAction) : Prop :=
  exists w b, w ∈ tms_tools s /\ b ∈ modules w /\
    la_tool_id a = tool_id w /\ la_device_id a = binding_device_id b /\
    ((binding_role b = ROLE_SENSOR /\ evaluate i (tool_id w) now timeout = Allow) \/
     (binding_role b = ROLE_POWER /\ evaluate i (tool_id w) now timeout = Allow /\
      exists base,
        sequenced i (power_bindings w) (default now (allowed_since i !! tool_id w)) base b /\
        base + millis (Z.max (start_delay_ms b) 0) <= now) \/
     (binding_role b = ROLE_POWER /\
      exists until, runs_on i (tool_id w) (power_bindings w) now b until /\ now < until)).

Lemma tool_acts_backed now ttl timeout i s j w a :
  snapshot i = Some s -> wiring_wf s -> w ∈ tms_tools s ->
  core_eq i j -> latched i ⊆ latched j -> untouched i j w ->
  a ∈ tool_acts now ttl timeout j (tool_id w) -> la_grant a = true ->
  backed i s now timeout a.
Proof.
  intros Hs [Hnd _] Hw Hc Hl [Hal Hu] Ha Hg. unfold tool_acts, tick_tool, tick_settle, renew in Ha.
  set (j' := renew_commit _ _ _ _ j) in Ha.
  assert (core_eq j j') as Hcj by apply renew_commit_core.
  assert (resolved j' (tool_id w) = Some w) as Hr.
  { rewrite (core_resolved _ _ _ Hcj), (core_resolved _ _ _ Hc).
    unfold resolved. rewrite Hs. by apply resolve_wf. }
  assert (allowed_since j' = allowed_since j /\ granted_since j' = granted_since j /\
    run_on_until j' = run_on_until j) as (Ej1 & Ej2 & Ej3).
  { subst j'. unfold renew_commit. by repeat case_match. }
  rewrite Hr in Ha. destruct (evaluate j _ _ _) as [|d] eqn:Eev.
  - apply (evaluate_allow_mono i j) in Eev; [|done..].
    pose proof (tick_allow_grants (mk_lease (tool_id w) ttl) (tool_id w) (power_bindings w)
      (sensor_bindings w) now j' a) as Hal_.
    destruct (tick_allow _ _ _ _ _ _) as [k acts]. rewrite app_nil_l in Ha.
    destruct (Hal_ Ha) as [(b & base & Hb & -> & Hseq & Hdue) | (b & Hb & ->)].
    + apply power_bindings_modules in Hb as [Hb Hrole].
      exists w, b. repeat split; try done. right; left. repeat split; try done.
      exists base. split; [|done]. rewrite Ej1, Hal in Hseq.
      unfold sequenced in *. by rewrite (ce_relay _ _ Hcj), (ce_relay _ _ Hc) in Hseq.
    + apply sensor_bindings_modules in Hb as [Hb Hrole].
      exists w, b. repeat split; try done. by left.
  - pose proof (tick_deny_grants (mk_lease (tool_id w) ttl) (tool_id w) (power_bindings w)
      (sensor_bindings w) d now j' a (fun _ _ => eq_refl)) as Hdn_.
    destruct (tick_deny _ _ _ _ _ _ _) as [k acts]. rewrite app_nil_l in Ha.
    destruct (Hdn_ Ha Hg) as (b & until & Hb & -> & Hrun & Hlt).
    pose proof Hb as [Hbm Hrole]%power_bindings_modules. destruct (Hu b Hbm) as [Hgs Hro].
    exists w, b. repeat split; try done. right; right. split; [done|].
    exists until. split; [|done]. unfold runs_on in *. by rewrite Ej1, Ej2, Ej3, Hal, Hgs, Hro in Hrun.
Qed.

Lemma tick_backed now ttl timeout i s a :
  snapshot i = Some s -> wiring_wf s ->
  a ∈ (tick now ttl timeout i).2 -> la_grant a = true ->
  backed i s now timeout a.
Proof.
  intros Hs Hwf Ha Hg. revert Hg.
  apply (tick_elim (fun a => la_grant a = true -> backed i s now timeout a)
    now ttl timeout i s); try done.
  intros j w a' ? ? ? ? ? Hg. by eapply tool_acts_backed.
Qed.

(** C2. Whatever a pass of the watchdog grants, it grants to a power or sensor
    binding of a wired tool that the interlock engine allows at that instant --
    a power binding moreover only once every binding of an earlier start stage
    has confirmed its relay closed since the allow, and its own start delay has
    passed -- or to a power binding still inside its run-on. *)
Theorem tick_grants_are_backed now ttl timeout i s a :
  snapshot i = Some s -> wiring_wf s ->
  a ∈ (tick now ttl timeout i).2 -> la_grant a = true ->
  backed i s now timeout a.
Proof. apply tick_backed. Qed.

(** ** The interlock engine, as a condition *)

Definition live (i : Inner) (now : instant) (timeout : duration) (m : DeviceBinding)
    : Prop :=
  binding_role m = ROLE_EDGE \/ binding_on_disconnect m <> ON_DISCONNECT_FAIL_OFF \/
  exists seen, module_seen i !! binding_id m = Some seen /\ now - seen <= timeout.

Lemma is_offline_live i now timeout m :
  is_offline i now timeout m = false <-> live i now timeout m.
Proof.
  unfold is_offline, live. case_bool_decide; [naive_solver|].
  case_bool_decide; simpl; [|naive_solver].
  destruct (module_seen i !! binding_id m) as [seen|].
  - rewrite Z.ltb_ge. naive_solver.
  - naive_solver.
Qed.

Lemma check_rules_None i key now rules :
  check_rules i key now rules = None <->
  forall r, r ∈ rules -> satisfied i key r now = Some true.
Proof.
  induction rules as [|r rs IH]; simpl.
  - split; [intros _ r Hr; inversion Hr | done].
  - destruct (satisfied i key r now) as [[]|] eqn:E.
    + rewrite IH. setoid_rewrite elem_of_cons. naive_solver.
    + case_bool_decide; (split; [done|]); intros Hall;
        specialize (Hall r ltac:(by left)); congruence.
    + split; [done|]. intros Hall. specialize (Hall r ltac:(by left)). congruence.
Qed.

(** A wired tool may be energized exactly when nothing is latched on it, no
    fail-off module of it has gone quiet, every one of its interlocks is
    observed and satisfied, and somebody is using it. *)
Theorem evaluate_allow_iff i s tool w now timeout :
  snapshot i = Some s -> resolve s tool = Some w ->
  evaluate i tool now timeout = Allow <->
  latched i !! tool_id w = None /\
  (forall m, m ∈ modules w -> live i now timeout m) /\
  (forall r, r ∈ interlocks w -> satisfied i (tool_id w) r now = Some true) /\
  in_use i (tool_id w) now = true.
Proof.
  intros Hs Hr. unfold evaluate. rewrite Hs, Hr.
  setoid_rewrite <- is_offline_live. rewrite <- check_rules_None, <- find_first_None.
  unfold offline_fail_off.
  destruct (latched i !! tool_id w); [naive_solver|].
  destruct (find_first _ (modules w)); simpl; [naive_solver|].
  destruct (check_rules _ _ _ _); [naive_solver|].
  destruct (in_use _ _ _); naive_solver.
Qed.

(** ** Debounce *)

Definition reading_of (i : Inner) (tool condition : string) : option bool :=
  asserted <$> readings i !! (tool, condition).

(** A reading that changes the recorded value restarts its clock. *)
Lemma observe_change i tool cond a now :
  reading_of i tool cond <> Some a ->
  readings (observe tool cond a now i) !! (tool, cond) = Some {| asserted := a; since := now |}.
Proof.
  unfold reading_of, observe. intros H.
  destruct (readings i !! (tool, cond)) as [prev|] eqn:E; simpl in *.
  - rewrite bool_decide_eq_false_2 by (intros E'; apply H; by rewrite E').
    apply lookup_insert_eq.
  - apply lookup_insert_eq.
Qed.

Lemma observe_same i tool cond a now :
  reading_of i tool cond = Some a -> observe tool cond a now i = i.
Proof.
  unfold reading_of, observe. intros H.
  destruct (readings i !! (tool, cond)) as [prev|] eqn:E; simpl in *; [|done].
  by rewrite bool_decide_eq_true_2 by (by simplify_eq).
Qed.

(** What a changed reading means to a rule until, and once, it has settled. *)
Lemma satisfied_changed i tool rule a now t :
  reading_of i tool (rule_condition rule) <> Some a ->
  satisfied (observe tool (rule_condition rule) a now i) tool rule t =
  Some (xorb (is_hazard (rule_condition rule))
          (xorb a (t - now <? millis (Z.max (debounce_ms rule) 0)))).
Proof.
  intros H. unfold satisfied. rewrite observe_change by done. simpl.
  rewrite Z.ltb_antisym.
  by destruct (_ <=? _), a, (is_hazard (rule_condition rule)).
Qed.

(** A reading that changes takes effect for its rule exactly when it has
    been held for the rule's debounce: until then the rule sees the opposite
    value, from then on the value itself; repeating the reading never restarts
    the clock. *)
Lemma observe_settles i tool rule a now later t :
  reading_of i tool (rule_condition rule) <> Some a -> now <= later ->
  let cond := rule_condition rule in
  let j := observe tool cond a later (observe tool cond a now i) in
  (t < now + millis (Z.max (debounce_ms rule) 0) ->
   satisfied j tool rule t = Some (if is_hazard cond then a else negb a)) /\
  (now + millis (Z.max (debounce_ms rule) 0) <= t ->
   satisfied j tool rule t = Some (if is_hazard cond then negb a else a)).
Proof.
  intros Hne _ cond j. subst j cond.
  rewrite (observe_same _ _ _ a later).
  2: { unfold reading_of. by rewrite observe_change. }
  rewrite satisfied_changed by done.
  split; intros Ht.
  - rewrite (proj2 (Z.ltb_lt _ _)) by lia. by destruct a, (is_hazard _).
  - rewrite (proj2 (Z.ltb_ge _ _)) by lia. by destruct a, (is_hazard _).
Qed.

(** The debounce does not reject a glitch, it inverts it: when a condition
    that has read [a] reads otherwise and then [a] again, the rule sees the
    opposite of [a] for a whole debounce after the reading came back.  For a
    hazard that was asserted all along but for one glitch ([a = true]) the rule
    is satisfied, and for one that was clear all along ([a = false]) it fires. *)
Theorem glitch_inverts_debounce i tool rule a t1 t2 t :
  is_hazard (rule_condition rule) = true ->
  reading_of i tool (rule_condition rule) = Some a ->
  t2 <= t < t2 + millis (debounce_ms rule) ->
  let cond := rule_condition rule in
  satisfied (observe tool cond a t2 (observe tool cond (negb a) t1 i)) tool rule t = Some a.
Proof.
  intros Hh Hr Ht cond. subst cond. unfold millis in *. rewrite satisfied_changed.
  - rewrite Hh, (proj2 (Z.ltb_lt _ _)) by (unfold millis; lia). by destruct a.
  - unfold reading_of. rewrite observe_change; simpl; [by destruct a|].
    rewrite Hr. by destruct a.
Qed.

(** ** Which trips are recorded *)

Lemma check_rules_Some i key now rules d :
  check_rules i key now rules = Some d <->
  exists pre r post, rules = pre ++ r :: post /\
    (forall q, q ∈ pre -> satisfied i key q now = Some true) /\
    (satisfied i key r now = None /\ d = Unobserved (rule_condition r) \/
     satisfied i key r now = Some false /\
       d = if rule_kind r ≟ KIND_TRIP then Tripped (rule_condition r)
           else Gate (rule_condition r)).
Proof.
  induction rules as [|r rs IH]; simpl.
  - split; [done|]. intros ([|? ?] & ? & ? & ? & _); simplify_eq/=.
  - split.
    + destruct (satisfied i key r now) as [[]|] eqn:E.
      * intros (pre & q & post & -> & Hpre & Hd)%IH. exists (r :: pre), q, post.
        split; [done|]. split; [|done]. intros x [-> | Hx]%elem_of_cons; [done|]. by apply Hpre.
      * intros H. exists [], r, rs. split; [done|]. split; [intros x Hx; inversion Hx|].
        right. split; [done|]. case_bool_decide; congruence.
      * intros [= <-]. exists [], r, rs. split; [done|].
        split; [intros x Hx; inversion Hx | by left].
    + intros ([|x pre] & q & post & Heq & Hpre & Hd); simplify_eq/=.
      * destruct Hd as [[-> ->] | [-> ->]]; [done|]. by case_bool_decide.
      * rewrite (Hpre x) by (by left). apply IH. exists pre, q, post.
        split; [done|]. split; [|done]. intros y Hy. apply Hpre. by right.
Qed.

(** A renewal records a trip on a tool exactly when the trip is the reason
    it denies: nothing was latched, no fail-off module is quiet, every rule
    before it is satisfied, the trip is firing, and a trip rule on its condition
    latches.  A firing, latching trip behind any other denial leaves no record. *)
Theorem renew_latches_iff i s tool w now ttl timeout c :
  snapshot i = Some s -> resolve s tool = Some w ->
  latched (renew tool now ttl timeout i).1 !! tool_id w = Some c <->
  latched i !! tool_id w = Some c \/
  latched i !! tool_id w = None /\
  (forall m, m ∈ modules w -> live i now timeout m) /\
  (exists pre r post, interlocks w = pre ++ r :: post /\
    (forall q, q ∈ pre -> satisfied i (tool_id w) q now = Some true) /\
    satisfied i (tool_id w) r now = Some false /\
    rule_kind r = KIND_TRIP /\ rule_condition r = c) /\
  latches w c = true.
Proof.
  intros Hs Hr. setoid_rewrite <- is_offline_live. rewrite <- find_first_None.
  unfold renew, renew_commit, evaluate, tool_key, resolved. simpl. rewrite Hs. simpl.
  rewrite Hr. destruct (latched i !! tool_id w) as [c0|] eqn:El; simpl.
  { rewrite El. naive_solver. }
  unfold offline_fail_off. destruct (find_first _ (modules w)) eqn:Eo; simpl.
  { rewrite El. naive_solver. }
  destruct (check_rules i (tool_id w) now (interlocks w)) as [d|] eqn:Ec.
  - apply check_rules_Some in Ec as Ec'. destruct Ec' as (pre & r & post & Hw & Hpre & Hd).
    assert ((exists pre r post, interlocks w = pre ++ r :: post /\
      (forall q, q ∈ pre -> satisfied i (tool_id w) q now = Some true) /\
      satisfied i (tool_id w) r now = Some false /\
      rule_kind r = KIND_TRIP /\ rule_condition r = c) <-> d = Tripped c) as ->.
    { split.
      - intros (p & q & o & H1 & H2 & H3 & H4 & H5).
        assert (check_rules i (tool_id w) now (interlocks w) = Some (Tripped c)) as E.
        { apply check_rules_Some. exists p, q, o. split; [done|]. split; [done|].
          right. split; [done|]. rewrite bool_decide_eq_true_2 by done. by rewrite H5. }
        congruence.
      - intros ->. exists pre, r, post. destruct Hd as [[_ ?] | [? Hd]]; [done|].
        case_bool_decide; naive_solver. }
    destruct d; simpl; rewrite ?Hs; simpl; rewrite ?Hr; simpl; try (rewrite El; naive_solver).
    destruct (latches w condition) eqn:Elt; simpl.
    + rewrite lookup_insert_eq. naive_solver.
    + rewrite El. split; [done|]. intros [? | (_ & _ & [= ->] & ?)]; congruence.
  - assert (~ exists pre r post, interlocks w = pre ++ r :: post /\
      (forall q, q ∈ pre -> satisfied i (tool_id w) q now = Some true) /\
      satisfied i (tool_id w) r now = Some false /\
      rule_kind r = KIND_TRIP /\ rule_condition r = c).
    { intros (p & q & o & H1 & H2 & H3 & _). rewrite check_rules_None in Ec.
      specialize (Ec q). rewrite H1, elem_of_app, elem_of_cons in Ec.
      rewrite Ec in H3; [done|]. by right; left. }
    destruct (in_use _ _ _); simpl; rewrite El; naive_solver.
Qed.

(** An observation reported under the tool's second name never counts: with
    an interlock on the tool, readings recorded only under its [external_id]
    leave every evaluation, under either name, denied. *)
Lemma observation_by_alias_is_lost i s w alias rule now timeout tool :
  snapshot i = Some s -> resolve s alias = Some w -> alias <> tool_id w ->
  resolve s tool = Some w -> rule ∈ interlocks w ->
  (forall c, readings i !! (tool_id w, c) = None) ->
  forall cond a at_, evaluate (observe alias cond a at_ i) tool now timeout <> Allow.
Proof.
  intros Hs Ha Hne Hr Hin Hnone cond a at_.
  set (j := observe alias cond a at_ i).
  assert (snapshot j = Some s) as Hsj.
  { subst j. unfold observe. by repeat case_match. }
  assert (readings j !! (tool_id w, rule_condition rule) = None) as Hj.
  { subst j. unfold observe.
    repeat case_match; simpl; rewrite ?lookup_insert_ne by congruence; apply Hnone. }
  unfold evaluate. rewrite Hsj, Hr. repeat case_match; try done.
  match goal with H : check_rules _ _ _ _ = None |- _ => rename H into Hc end.
  rewrite check_rules_None in Hc. specialize (Hc _ Hin).
  unfold satisfied in Hc. by rewrite Hj in Hc.
Qed.

(** ** Reconciling with a sync *)

(** A sync claims a key for real when it names it and no stop on this edge,
    young enough to be remembered, is newer than the sync. *)
Definition sync_claims (i : Inner) (ids : list string) (now as_of : instant) (key : string)
    : Prop :=
  (exists x, x ∈ ids /\ tool_key i x = key) /\
  forall at_, local_stops i !! key = Some at_ ->
    now - at_ < local_session_grace i -> at_ <= as_of.

Lemma elem_of_synced_keys i ids now as_of key :
  key ∈ synced_keys (with_local_stops (filter (fun kv : string * instant =>
      now - kv.2 < local_session_grace i) (local_stops i)) i) ids as_of <->
  sync_claims i ids now as_of key.
Proof.
  unfold synced_keys, sync_claims. simpl.
  rewrite elem_of_list_to_set, elem_of_lfilter, list_elem_of_fmap, negb_true_iff.
  split.
  - intros [(x & -> & Hx) Hst]. split; [by exists x|].
    intros at_ Hat Hyoung. rewrite (proj2 (map_lookup_filter_Some _ _ _ at_)) in Hst by done.
    simpl in Hst. by apply Z.ltb_ge in Hst.
  - intros [(x & Hx & <-) Hst]. split; [by exists x|].
    destruct (filter _ _ !! _) as [at_|] eqn:E; simpl; [|done].
    apply map_lookup_filter_Some in E as [E1 E2]. apply Z.ltb_ge. by apply Hst.
Qed.

(** What a sync leaves in use, as of its arrival: exactly the keys it
    claims, the ones the server said were in use that it says nothing about, and
    the sessions this edge opened that have not ended and are either not the
    sync's to report or younger than the grace. *)
Theorem reconcile_in_use_iff ids tracked now as_of i key :
  in_use (reconcile_sessions ids tracked now as_of i) key now = true <->
  sync_claims i ids now as_of key \/
  (~ (exists x, x ∈ tracked /\ tool_key i x = key) /\ key ∈ synced_in_use i) \/
  (exists s, local_sessions i !! key = Some s /\
     (forall e, ends_at s = Some e -> now < e) /\
     (~ (exists x, x ∈ tracked /\ tool_key i x = key) \/
      now - opened s < local_session_grace i)).
Proof.
  unfold in_use, reconcile_sessions, reconcile_tracked. simpl.
  rewrite orb_true_iff, bool_decide_eq_true, elem_of_union, elem_of_difference.
  rewrite elem_of_synced_keys.
  assert (key ∈ (list_to_set (tool_key (with_local_stops (filter (fun kv : string * instant =>
      now - kv.2 < local_session_grace i) (local_stops i)) i) <$> tracked) : gset string) <->
    exists x, x ∈ tracked /\ tool_key i x = key) as Ht.
  { rewrite elem_of_list_to_set, list_elem_of_fmap. naive_solver. }
  rewrite Ht.
  destruct (filter _ (local_sessions i) !! key) as [s|] eqn:E; simpl.
  - apply map_lookup_filter_Some in E as [E1 [E2 E3]]. simpl in *. unfold is_none_or.
    split.
    + intros [[[H1 H2] | H] | H]; [by right; left | by left |].
      assert (forall e, ends_at s = Some e -> now < e) as He.
      { intros e He. rewrite He in H. by apply Z.ltb_lt. }
      destruct E3 as [E3 | [E3 | E3]].
      * right; right. exists s. split; [done|]. split; [done|]. left. by rewrite <- Ht.
      * left. by apply elem_of_synced_keys.
      * right; right. exists s. split; [done|]. split; [done|]. by right.
    + intros [H | [[H1 H2] | (s' & Hs & He & _)]]; [by left; right | by left; left |].
      right. simplify_eq. destruct (ends_at s) as [e|] eqn:Ee; [|done].
      apply Z.ltb_lt. by apply He.
  - split.
    + intros [[[H1 H2] | H] | H]; [by right; left | by left | done].
    + intros [H | [[H1 H2] | (s' & Hs & He & Hk)]]; [by left; right | by left; left |].
      exfalso. rewrite map_lookup_filter_None in E. destruct E as [E | E]; [congruence|].
      apply (E s' Hs). split; simpl.
      * destruct (ends_at s') as [e|] eqn:Ee; simpl; [|done].
        apply Z.leb_gt. by apply He.
      * destruct Hk as [Hk | Hk]; [left | right; right]; [by rewrite Ht | done].
Qed.

End ModuleState.
