(* ===== verification/EdgeTraces.v ===== *)
(** * The lease engine under concurrent calls ([edge/src/modules.rs])

    [EdgeModules] has each method of [ModuleState] as a function.  Here they run
    together: the edge has one watchdog task calling [tick], whose every tool is
    three critical sections (read the decision, commit it, settle the commands),
    and any number of other tasks calling the other methods between any two of
    them.  [step] is that machine; [tick_refines] relates an undisturbed pass to
    [tick]; the rest is what holds under every interleaving. *)
From S2P Require Import Prelude Wire EdgeModules.
Import Wire ModuleState.

Module ModuleTraces.

(** ** Calls *)

(** The methods other tasks call, with the instants they pass. *)
Inductive call : Type :=
  | CallApply (payload : ToolModuleStatePayload) (requested : option instant) (now : instant)
  | CallOpen (resource : string) (now : instant) (ends : option instant)
  | CallClose (resource : string) (now : instant)
  | CallReconcile (in_use_ids tracked_ids : list string) (now as_of : instant)
  | CallRelay (device : string) (on : bool) (now : instant)
  | CallObserve (tool condition : string) (asserted_ : bool) (now : instant)
  | CallModuleSeen (module_id : string) (now : instant)
  | CallDeviceSeen (device : string) (now : instant)
  | CallReset (tool : string)
  | CallGrace (grace : duration).

Definition call_effect (c : call) (i : Inner) : Inner :=
  match c with
  | CallApply p requested now => apply_state_at p requested now i
  | CallOpen r now ends => open_session r now ends i
  | CallClose r now => close_session r now i
  | CallReconcile ids tracked now as_of => reconcile_sessions ids tracked now as_of i
  | CallRelay d on now => note_relay_state d on now i
  | CallObserve t c a now => observe t c a now i
  | CallModuleSeen m now => note_module_seen m now i
  | CallDeviceSeen d now => (note_device_seen d now i).1
  | CallReset t => reset_latch t i
  | CallGrace g => set_local_session_grace g i
  end.

(** ** The watchdog's place in its pass *)

Record Pass := MkPass {
  pass_now : instant;
  pass_ttl : duration;
  pass_timeout : duration;
}.

Inductive watch : Type :=
  | Idle
  | Turn (p : Pass) (rest : list string)
  | Decided (p : Pass) (tool : string) (d : Decision) (rest : list string)
  | Committed (p : Pass) (tool : string) (d : Decision) (rest : list string).

Record Config := MkConfig {
  inner : Inner;
  place : watch;
  sent : list LeaseAction;
}.

Inductive watchdog_step : Config -> Config -> Prop :=
  | step_start p i o :
      watchdog_step (MkConfig i Idle o) (MkConfig i (Turn p (tools i)) [])
  | step_eval p tool rest i o :
      watchdog_step (MkConfig i (Turn p (tool :: rest)) o)
        (MkConfig i (Decided p tool (evaluate i tool (pass_now p) (pass_timeout p)) rest) o)
  | step_commit p tool d rest i o :
      watchdog_step (MkConfig i (Decided p tool d rest) o)
        (MkConfig (renew_commit tool (pass_now p) (pass_ttl p) d i) (Committed p tool d rest) o)
  | step_settle p tool d rest i o :
      let r := tick_settle (pass_now p) (pass_ttl p) tool d (i, o) in
      watchdog_step (MkConfig i (Committed p tool d rest) o) (MkConfig r.1 (Turn p rest) r.2)
  | step_end p i o :
      watchdog_step (MkConfig i (Turn p []) o) (MkConfig i Idle o).

Inductive step : Config -> Config -> Prop :=
  | step_watchdog c c' : watchdog_step c c' -> step c c'
  | step_call k i w o : step (MkConfig i w o) (MkConfig (call_effect k i) w o).

(** The edge's whole run so far, newest configuration first. *)
Inductive execution : list Config -> Prop :=
  | exec_init : execution [MkConfig new Idle []]
  | exec_step c c' h : execution (c :: h) -> step c c' -> execution (c' :: c :: h).

(** ** An undisturbed pass is [tick] *)

Lemma pass_rtc p rest i o :
  rtc watchdog_step (MkConfig i (Turn p rest) o)
    (let r := foldl (tick_tool (pass_now p) (pass_ttl p) (pass_timeout p)) (i, o) rest in
     MkConfig r.1 Idle r.2).
Proof.
  revert i o. induction rest as [|x rest IH]; intros i o; cbn [foldl].
  - apply rtc_once. constructor.
  - eapply rtc_l; [constructor|]. eapply rtc_l; [constructor|].
    eapply rtc_l; [constructor|].
    set (r := tick_settle _ _ _ _ _).
    assert (tick_tool (pass_now p) (pass_ttl p) (pass_timeout p) (i, o) x = r) as -> by done.
    specialize (IH r.1 r.2). by rewrite <- surjective_pairing in IH.
Qed.

(** The machine of critical sections refines [tick]: undisturbed, a pass
    that starts in a state ends in exactly the state [tick] computes and has
    sent exactly the commands [tick] returns. *)
Theorem tick_refines p i o :
  let r := tick (pass_now p) (pass_ttl p) (pass_timeout p) i in
  rtc watchdog_step (MkConfig i Idle o) (MkConfig r.1 Idle r.2).
Proof. eapply rtc_l; [apply step_start|]. apply pass_rtc. Qed.

(** ** Every lease is backed by a recent decision *)

(** [Some u] is the expiry some decision to allow stands for: read while it was
    the tool's turn, from the state of that moment. *)
Definition decided_in (h : list Config) (p : Pass) (tool : string) (d : Decision) : Prop :=
  exists e rest, e ∈ h /\ place e = Turn p (tool :: rest) /\
    evaluate (inner e) tool (pass_now p) (pass_timeout p) = d.

Definition lease_backed (h : list Config) (key : string) (u : instant) : Prop :=
  exists p tool e, decided_in h p tool Allow /\ e ∈ h /\
    tool_key (inner e) tool = key /\ u = pass_now p + pass_ttl p.

Lemma decided_in_mono h c p tool d : decided_in h p tool d -> decided_in (c :: h) p tool d.
Proof. intros (e & rest & He & ?). exists e, rest. split; [by right | done]. Qed.

Lemma lease_backed_mono h c key u : lease_backed h key u -> lease_backed (c :: h) key u.
Proof.
  intros (p & tool & e & H1 & H2 & ?). exists p, tool, e.
  split; [by apply decided_in_mono|]. split; [by right | done].
Qed.

Lemma call_effect_leases k i : leases (call_effect k i) = leases i.
Proof. destruct k; simpl; unfold observe; by repeat case_match. Qed.

Lemma renew_commit_leases tool now ttl d i key u :
  leases (renew_commit tool now ttl d i) !! key = Some u ->
  (key = tool_key i tool /\ d = Allow /\ u = now + ttl) \/ leases i !! key = Some u.
Proof.
  unfold renew_commit. destruct d as [|d].
  - simpl. intros [[<- <-] | [_ H]]%lookup_insert_Some; [by left | by right].
  - intros H. right.
    assert (delete (tool_key i tool) (leases i) !! key = Some u) as [_ Hu]%lookup_delete_Some
      by (by repeat case_match).
    done.
Qed.

(** What the pending decision and the leases of a configuration stand for. *)
Definition lease_inv (h : list Config) (c : Config) : Prop :=
  (forall p tool d rest, place c = Decided p tool d rest -> decided_in h p tool d) /\
  (forall key u, leases (inner c) !! key = Some u -> lease_backed h key u).

Lemma execution_lease_inv h c : execution (c :: h) -> lease_inv (c :: h) c.
Proof.
  intros H. remember (c :: h) as hc eqn:E. revert c h E.
  induction H as [|c0 c' h0 H IH Hstep]; intros c h [= <- <-]; [by split|].
  destruct (IH _ _ eq_refl) as [Hd Hl].
  destruct Hstep as [c0 c' Hstep | k i w o].
  - destruct Hstep; simpl in *.
    1,5: by split; [done|]; intros; apply lease_backed_mono, Hl.
    + split; [|intros; by apply lease_backed_mono, Hl].
      intros ???? [= <- <- <- <-]. eexists _, _. split; [right; by left | done].
    + split; [done|]. intros key u [(-> & -> & ->) | Hu]%renew_commit_leases.
      * eexists p, tool, _. split; [by eapply decided_in_mono, Hd|].
        by split; [right; left|].
      * by apply lease_backed_mono, Hl.
    + split; [done|]. intros key u Hu. apply lease_backed_mono, Hl.
      by rewrite <- (bk_leases _ _ (tick_settle_bookkeeping (pass_now p) (pass_ttl p) tool d i o)).
  - split; simpl in *.
    + intros. by eapply decided_in_mono, Hd.
    + intros key u. rewrite call_effect_leases. intros Hu. by apply lease_backed_mono, Hl.
Qed.

(** C7. However the calls interleave, a tool whose lease is valid at [t] was
    decided for less than a lease's length before: some pass read, from the
    state of that very moment, that the tool may be energized, and [t] is before
    that pass's instant plus its lease time. *)
Theorem lease_has_recent_allow h c tool t :
  execution (c :: h) -> lease_valid (inner c) tool t = true ->
  exists e e' p name rest,
    e ∈ c :: h /\ place e = Turn p (name :: rest) /\
    evaluate (inner e) name (pass_now p) (pass_timeout p) = Allow /\
    e' ∈ c :: h /\ tool_key (inner e') name = tool_key (inner c) tool /\
    t < pass_now p + pass_ttl p.
Proof.
  intros [_ Hl]%execution_lease_inv. unfold lease_valid.
  destruct (leases (inner c) !! tool_key (inner c) tool) as [u|] eqn:E; [|done].
  intros Hlt. simpl in Hlt. apply Z.ltb_lt in Hlt.
  destruct (Hl _ _ E) as (p & name & e' & (e & rest & He & Hp & Hev) & He' & Hk & ->).
  by exists e, e', p, name, rest.
Qed.

(** ** Invariants along a path *)

(** A step whose call, if it is one, satisfies [P] in the state it finds. *)
Inductive step_where (P : Inner -> call -> Prop) : Config -> Config -> Prop :=
  | where_watchdog c c' : watchdog_step c c' -> step_where P c c'
  | where_call k i w o :
      P i k -> step_where P (MkConfig i w o) (MkConfig (call_effect k i) w o).

(** To show that a property of the lease engine survives a path, it is enough
    that the allowed calls, a commit and a settling keep it. *)
Lemma path_invariant (P : Inner -> call -> Prop) (I : Inner -> Prop) c c' :
  (forall i k, I i -> P i k -> I (call_effect k i)) ->
  (forall i tool now ttl d, I i -> I (renew_commit tool now ttl d i)) ->
  (forall i j, I i -> bookkeeping i j -> I j) ->
  rtc (step_where P) c c' -> I (inner c) -> I (inner c').
Proof.
  intros Hcall Hcommit Hbk. induction 1 as [|c1 c2 c3 Hs _ IH]; [done|]. intros Hi.
  apply IH. destruct Hs as [c1 c2 Hw | k i w o HP]; [|by apply Hcall].
  destruct Hw; simpl in *; try done; [by apply Hcommit|].
  eapply Hbk; [done|]. apply tick_settle_bookkeeping.
Qed.

Lemma call_effect_latched k key i :
  k <> CallReset key -> is_Some (latched i !! key) ->
  is_Some (latched (call_effect k i) !! key).
Proof.
  intros Hne. destruct k; simpl; unfold observe; try (by repeat case_match).
  rewrite lookup_delete_ne by congruence. done.
Qed.

Lemma renew_commit_keeps_latch tool now ttl d i key :
  is_Some (latched i !! key) -> is_Some (latched (renew_commit tool now ttl d i) !! key).
Proof.
  intros H. unfold renew_commit. repeat case_match; try done. simpl.
  destruct (decide (tool_key i tool = key)) as [->|];
    [rewrite lookup_insert_eq; eauto | by rewrite lookup_insert_ne].
Qed.

(** C8. A latched trip keeps denying its tool until that tool's latch is reset:
    no snapshot, sync, reading, session or pass of the watchdog, in any
    interleaving, clears it. *)
Theorem latched_until_reset key c c' :
  is_latched (inner c) key = true ->
  rtc (step_where (fun _ k => k <> CallReset key)) c c' ->
  is_latched (inner c') key = true /\
  forall tool w now timeout, resolved (inner c') tool = Some w -> tool_id w = key ->
    exists cond, evaluate (inner c') tool now timeout = Deny (Latched cond).
Proof.
  intros Hl Hp. unfold is_latched in *.
  assert (is_Some (latched (inner c') !! key)) as [cond Hc].
  { eapply (path_invariant _ (fun i => is_Some (latched i !! key))); [..|done|].
    - intros i k Hi Hk. by apply call_effect_latched.
    - intros. by apply renew_commit_keeps_latch.
    - intros i j Hi Hb. by rewrite (bk_latched _ _ Hb).
    - by destruct (latched (inner c) !! key). }
  rewrite Hc. split; [done|]. unfold resolved, evaluate. intros tool w now timeout Hr <-.
  destruct (snapshot (inner c')) as [s|]; simpl in Hr; [|done].
  rewrite Hr, Hc. by exists cond.
Qed.

(** ** A stop outlives the syncs in flight *)

(** What may happen in the window after a stop at [s]: anything but the key
    being opened again, a sync as of [s] or later, or the stop growing older
    than the grace. *)
Definition in_flight (key : string) (s : instant) (i : Inner) (k : call) : Prop :=
  match k with
  | CallApply _ requested now =>
      default now requested < s /\ now - s < local_session_grace i
  | CallReconcile _ _ now as_of => as_of < s /\ now - s < local_session_grace i
  | CallOpen r _ _ => tool_key i r <> key
  | CallClose r now => tool_key i r = key -> s <= now
  | _ => True
  end.

Definition stopped (key : string) (s : instant) (i : Inner) : Prop :=
  (exists s', local_stops i !! key = Some s' /\ s <= s') /\
  key ∉ synced_in_use i /\ local_sessions i !! key = None.

Lemma core_stopped key s i j : core_eq i j -> stopped key s i -> stopped key s j.
Proof.
  intros Hc. unfold stopped.
  by rewrite (ce_stops _ _ Hc), (ce_synced _ _ Hc), (ce_local_sessions _ _ Hc).
Qed.

Lemma reconcile_stopped key s ids tracked now as_of i :
  as_of < s -> now - s < local_session_grace i -> stopped key s i ->
  stopped key s (reconcile_tracked ids tracked now as_of i).
Proof.
  intros Ha Hg [(s' & Hs & Hle) [Hsync Hloc]]. unfold reconcile_tracked, stopped. simpl.
  assert (filter (fun kv : string * instant => now - kv.2 < local_session_grace i)
    (local_stops i) !! key = Some s') as Hf.
  { apply map_lookup_filter_Some. split; [done|]. simpl. lia. }
  split; [by exists s'|]. split.
  - rewrite elem_of_union. intros [[H _]%elem_of_difference | H]; [done|].
    unfold synced_keys in H. simpl in H. rewrite elem_of_list_to_set, elem_of_lfilter, Hf in H.
    destruct H as [_ H]. simpl in H. destruct (Z.ltb_spec as_of s'); [done | lia].
  - apply map_lookup_filter_None. by left.
Qed.

Lemma call_effect_stopped key s k i :
  in_flight key s i k -> stopped key s i -> stopped key s (call_effect k i).
Proof.
  intros HP Hs. destruct k; simpl in *; unfold observe; try done.
  - unfold apply_state_at. by apply reconcile_stopped; destruct HP.
  - unfold open_session, stopped in *. simpl. by rewrite !lookup_insert_ne, lookup_delete_ne.
  - destruct Hs as [(s' & Hst & Hle) [Hsync Hloc]]. rename resource0 into r.
    unfold close_session, stopped. simpl.
    split; [|split; [set_solver|]].
    + destruct (decide (tool_key i r = key)) as [<-|].
      * exists now. rewrite lookup_insert_eq. split; [done | by apply HP].
      * exists s'. by rewrite lookup_insert_ne.
    + destruct (decide (tool_key i r = key)) as [<-|];
        [by rewrite lookup_delete_eq | by rewrite lookup_delete_ne].
  - destruct HP. by apply reconcile_stopped.
  - repeat case_match; done.
Qed.

(** C9. A sync cannot reopen a session this edge ended: while every sync that
    arrives was asked for before the stop and the stop is younger than the
    grace, the resource stays out of use -- whatever the syncs claim, whatever
    else the edge does short of opening it again -- and it is not energized. *)
Theorem stale_sync_cannot_reopen r s i w o c' now timeout :
  let key := tool_key i r in
  rtc (step_where (in_flight key s)) (MkConfig (close_session r s i) w o) c' ->
  in_use (inner c') key now = false /\
  forall tool t, resolved (inner c') tool = Some t -> tool_id t = key ->
    evaluate (inner c') tool now timeout <> Allow.
Proof.
  intros key Hp.
  assert (stopped key s (inner c')) as [_ [Hsync Hloc]].
  { eapply (path_invariant _ (stopped key s)); [..|done|].
    - intros j k Hs HP. by apply call_effect_stopped.
    - intros j tool n ttl d. apply core_stopped, renew_commit_core.
    - intros j j' Hs [Hc _ _]. by eapply core_stopped.
    - unfold stopped, close_session. simpl. fold key.
      rewrite lookup_insert_eq, lookup_delete_eq. split; [|by split; [set_solver|]].
      exists s. split; [done | lia]. }
  assert (in_use (inner c') key now = false) as Hu.
  { unfold in_use. rewrite Hloc. simpl. by rewrite bool_decide_eq_false_2. }
  split; [done|]. intros tool t Hr Hid. unfold resolved, evaluate in *.
  destruct (snapshot (inner c')) as [p|]; simpl in Hr; [|done].
  rewrite Hr, Hid, Hu. by repeat case_match.
Qed.

(** ** Run-on *)

Section RunOn.
Context (ttl timeout : duration) (s : ToolModuleStatePayload) (w : ToolModuleTool).
Hypothesis Hwf : wiring_wf s.
Hypothesis Hw : w ∈ tms_tools s.

(** Calls that keep the wiring, between passes that keep denying [w]. *)
Definition rewires (k : call) : bool :=
  match k with CallApply _ _ _ => true | _ => false end.

Inductive denied_step : Inner -> Inner -> Prop :=
  | denied_call k i : rewires k = false -> denied_step i (call_effect k i)
  | denied_tick now i :
      evaluate i (tool_id w) now timeout <> Allow ->
      denied_step i (tick now ttl timeout i).1.

Inductive call_step : Inner -> Inner -> Prop :=
  | call_only k i : rewires k = false -> call_step i (call_effect k i).

Lemma call_keeps k i :
  rewires k = false ->
  snapshot (call_effect k i) = snapshot i /\
  allowed_since (call_effect k i) = allowed_since i /\
  run_on_until (call_effect k i) = run_on_until i.
Proof. destruct k; simpl; try done; intros _; unfold observe; by repeat case_match. Qed.

Lemma tick_core now i : snapshot i = Some s -> core_eq i (tick now ttl timeout i).1.
Proof using Hwf Hw.
  intros Hs. destruct (tick_turn now ttl timeout i s w Hs Hwf Hw) as (j & out & Hj & Hk).
  destruct (tick_tool_core now ttl timeout j out (tool_id w)) as [Hc _].
  etrans; [apply Hj|]. etrans; [apply Hc | apply Hk].
Qed.

(** Nothing of the tool's runs on but what a pass at [d] started. *)
Definition run_on_from (d : instant) (i : Inner) : Prop :=
  snapshot i = Some s /\ allowed_since i !! tool_id w = None /\
  forall b u, b ∈ power_bindings w -> run_on_until i !! binding_id b = Some u ->
    0 < run_on_ms b /\ u = d + millis (run_on_ms b).

(** Nothing of the tool's runs on. *)
Definition no_run_on (i : Inner) : Prop :=
  snapshot i = Some s /\
  forall b, b ∈ power_bindings w -> run_on_until i !! binding_id b = None.

Lemma power_binding_inj b b' :
  b ∈ power_bindings w -> b' ∈ power_bindings w -> binding_id b = binding_id b' -> b = b'.
Proof using Hwf Hw.
  intros [Hb _]%power_bindings_modules [Hb' _]%power_bindings_modules Heq.
  destruct Hwf as [_ Hnd].
  assert (b ∈ tms_tools s ≫= modules /\ b' ∈ tms_tools s ≫= modules) as [H1 H2].
  { split; apply list_elem_of_bind; by exists w. }
  apply list_elem_of_lookup in H1 as [n Hn], H2 as [m Hm].
  assert (n = m) as ->; [|congruence].
  eapply NoDup_lookup; [done| |]; rewrite list_lookup_fmap, ?Hn, ?Hm; simpl; by f_equal.
Qed.

Lemma tick_denied now i d :
  snapshot i = Some s -> evaluate i (tool_id w) now timeout <> Allow ->
  (run_on_from d i \/ no_run_on i /\ d = now) ->
  run_on_from d (tick now ttl timeout i).1.
Proof using Hwf Hw.
  intros Hs Hev Hcase. split; [by rewrite (ce_snapshot _ _ (tick_core now i Hs))|].
  destruct (tick_turn now ttl timeout i s w Hs Hwf Hw) as (j & out & Hj & Hk).
  rewrite <- (evaluate_same_turn i j s w) in Hev by done.
  assert (resolved j (tool_id w) = Some w) as Hr.
  { destruct Hj as [Hj _]. unfold resolved. rewrite (ce_snapshot _ _ Hj), Hs.
    by apply resolve_wf; [apply Hwf|]. }
  destruct (tick_tool_settled now ttl timeout j out w Hr) as (j' & _ & Hal & _ & Hro & Hj').
  destruct (evaluate j _ _ _) as [|de]; [done|].
  pose proof (tick_deny_state (mk_lease (tool_id w) ttl) (tool_id w) (power_bindings w)
    (sensor_bindings w) de now j') as [Hd1 Hd2].
  rewrite <- Hj' in Hd1, Hd2. rewrite Hal, Hro in Hd2.
  destruct Hk as (_ & _ & Hk1 & Hk2). rewrite Hk1. split; [done|].
  intros b u Hb. destruct (Hk2 b) as [_ ->]; [by apply power_bindings_modules|].
  destruct Hj as (_ & _ & Hj1 & Hj2).
  intros [Hu | (Hsome & b' & Hb' & Hid & Hms & Hu)]%Hd2.
  - destruct (Hj2 b) as [_ Hjb]; [by apply power_bindings_modules|]. rewrite Hjb in Hu.
    destruct Hcase as [(_ & _ & H) | [[_ H] _]]; [by apply H|].
    by rewrite H in Hu.
  - rewrite (power_binding_inj b' b) in * by done.
    destruct Hcase as [(_ & H & _) | [_ ->]]; [|done].
    rewrite Hj1, H in Hsome. by destruct Hsome.
Qed.

Lemma denied_steps_keep d i j :
  rtc denied_step i j -> run_on_from d i -> run_on_from d j.
Proof using Hwf Hw.
  induction 1 as [|i j k Hst _ IH]; [done|]. intros Hi. apply IH.
  destruct Hst as [c i Hc | now i Hev].
  - destruct (call_keeps c i Hc) as (E1 & E2 & E3). unfold run_on_from.
    by rewrite E1, E2, E3.
  - apply tick_denied; [apply Hi | done | by left].
Qed.

Lemma tick_allowed now i :
  snapshot i = Some s -> evaluate i (tool_id w) now timeout = Allow ->
  no_run_on (tick now ttl timeout i).1.
Proof using Hwf Hw.
  intros Hs Hev. split; [by rewrite (ce_snapshot _ _ (tick_core now i Hs))|].
  destruct (tick_turn now ttl timeout i s w Hs Hwf Hw) as (j & out & Hj & Hk).
  rewrite <- (evaluate_same_turn i j s w) in Hev by done.
  assert (resolved j (tool_id w) = Some w) as Hr.
  { destruct Hj as [Hj _]. unfold resolved. rewrite (ce_snapshot _ _ Hj), Hs.
    by apply resolve_wf; [apply Hwf|]. }
  destruct (tick_tool_settled now ttl timeout j out w Hr) as (j' & _ & _ & _ & _ & Hj').
  rewrite Hev in Hj'. intros b Hb. destruct Hk as (_ & _ & _ & Hk2).
  destruct (Hk2 b) as [_ ->]; [by apply power_bindings_modules|].
  rewrite Hj'. by apply tick_allow_run_on.
Qed.

Lemma call_steps_keep i j : rtc call_step i j -> no_run_on i -> no_run_on j.
Proof using.
  induction 1 as [|i j k [c i' Hc] _ IH]; [done|]. intros Hi. apply IH.
  destruct (call_keeps c i' Hc) as (E1 & _ & E3). unfold no_run_on. by rewrite E1, E3.
Qed.

(** C12. Run-on is bounded by the configured time from the first pass that
    denies: once a tool has been allowed at one pass and denied at the next,
    at [d], then for as long as it stays denied -- whatever is reported,
    synced or signed on and off in between -- a command that still grants it
    power at [t] is for one of its power bindings with a run-on time, and [t]
    is before that binding's own [d + run_on_ms]. *)
Theorem run_on_is_bounded a d t i0 i1 i2 act :
  snapshot i0 = Some s ->
  evaluate i0 (tool_id w) a timeout = Allow ->
  rtc call_step (tick a ttl timeout i0).1 i1 ->
  evaluate i1 (tool_id w) d timeout <> Allow ->
  rtc denied_step (tick d ttl timeout i1).1 i2 ->
  evaluate i2 (tool_id w) t timeout <> Allow ->
  act ∈ (tick t ttl timeout i2).2 -> la_grant act = true -> la_tool_id act = tool_id w ->
  exists b, b ∈ power_bindings w /\ la_device_id act = binding_device_id b /\
    0 < run_on_ms b /\ t < d + millis (run_on_ms b).
Proof using Hwf Hw.
  intros Hs Ha Hcalls Hd Hden Ht Hact Hg Htool.
  assert (no_run_on i1) as Hi1 by (eapply call_steps_keep, tick_allowed; done).
  assert (run_on_from d i2) as (Hs2 & Hal2 & Hru).
  { eapply denied_steps_keep; [done|].
    apply tick_denied; [apply Hi1 | done | by right]. }
  destruct (tick_backed _ _ _ _ _ _ Hs2 Hwf Hact Hg)
    as (w' & b & Hw' & Hb & Hid & Hdev & Hcase).
  assert (w' = w) as ->.
  { apply (inj Some). destruct Hwf as [Hnd _].
    rewrite <- (resolve_wf s w' Hnd Hw'), <- (resolve_wf s w Hnd Hw). congruence. }
  destruct Hcase as [[_ ?] | [[_ [? _]] | [Hrole (until & Hrun & Hlt)]]]; [done..|].
  assert (b ∈ power_bindings w) as Hbp.
  { unfold power_bindings. rewrite elem_of_sort_by, elem_of_lfilter.
    by rewrite bool_decide_eq_true. }
  exists b. split; [done|]. split; [done|].
  destruct Hrun as [Hrun | [Hsome _]]; [|by rewrite Hal2 in Hsome; destruct Hsome].
  destruct (Hru _ _ Hbp Hrun) as [H1 ->]. done.
Qed.
End RunOn.

End ModuleTraces.
