(* ===== verification/EdgePower.v ===== *)
(** * Power lockout and the local fast-trip ([edge/src/power.rs])

    [PowerState]: the server's lockout snapshot, the draw each tool last
    reported, and the circuits this edge tripped itself.  [f64] arithmetic is
    IEEE binary64, and the decimal limits on the wire are read with Rust's
    [parse::<f64>], correctly rounded. *)
From S2P Require Import Prelude Text Wire.
From Stdlib Require Import SpecFloat.
Import Wire.

Module PowerState.
Import F64Parse.

(** ** State *)

Record Inner := MkInner {
  snapshot : option PowerStatePayload;
  latest_draw : gmap string (f64 * instant);
  local_tripped : gset string;
}.

Definition new : Inner := MkInner None ∅ ∅.

(** ** Operations *)

Definition on_circuit (c : string) (t : PowerStateTool) : bool := pt_circuit_id t ≟ Some c.

(** The loop of [circuit_locked]: at least one tool, and every one listed. *)
Fixpoint circuit_loop (locked : gset string) (ts : list PowerStateTool) (any : bool) : bool :=
  match ts with
  | [] => any
  | t :: ts => if bool_decide (pt_id t ∈ locked) then circuit_loop locked ts true else false
  end.

Definition circuit_locked (s : PowerStatePayload) (circuit : string) : bool :=
  circuit_loop (list_to_set (locked_tool_ids s)) (List.filter (on_circuit circuit) (ps_tools s))
    false.

Definition apply_state (payload : PowerStatePayload) (i : Inner) : Inner :=
  MkInner (Some payload) (latest_draw i)
    (filter (fun c => circuit_locked payload c = true) (local_tripped i)).

Definition resolve (s : PowerStatePayload) (tool : string) : option PowerStateTool :=
  find_first (fun t => (pt_external_id t ≟ Some tool) || (pt_id t ≟ tool)) (ps_tools s).

Definition is_locked (i : Inner) (tool : string) : bool :=
  match snapshot i with
  | None => false
  | Some snap =>
      match resolve snap tool with
      | Some t =>
          if bool_decide (pt_id t ∈ locked_tool_ids snap) then true
          else is_some_and (pt_circuit_id t) (fun c => bool_decide (c ∈ local_tripped i))
      | None => existsb (fun id => id ≟ tool) (locked_tool_ids snap)
      end
  end.

Definition draw_key (i : Inner) (tool : string) : string :=
  default tool (s ← snapshot i; pt_id <$> resolve s tool).

Definition record_draw (tool : string) (amps : f64) (now : instant) (i : Inner) : Inner :=
  MkInner (snapshot i) (<[draw_key i tool := (amps, now)]> (latest_draw i)) (local_tripped i).

Definition mark_tripped (circuit : string) (i : Inner) : Inner :=
  MkInner (snapshot i) (latest_draw i) ({[ circuit ]} ∪ local_tripped i).

(** [tools.filter_map(..).collect()]: a later tool of the same id wins. *)
Definition tool_circuit (s : PowerStatePayload) : gmap string string :=
  foldl (fun m t => match pt_circuit_id t with
                    | Some c => <[pt_id t := c]> m
                    | None => m
                    end) ∅ (ps_tools s).

Definition add_draw (circuits : gmap string string) (totals : gmap string f64)
    (entry : string * (f64 * instant)) : gmap string f64 :=
  match circuits !! entry.1 with
  | Some c => <[c := f64_add (default f64_zero (totals !! c)) entry.2.1]> totals
  | None => totals
  end.

(** [entries] is the draw table in the order [HashMap] iterates it. *)
Definition evaluate_overages_in (entries : list (string * (f64 * instant))) (i : Inner)
    : list string :=
  match snapshot i with
  | None => []
  | Some snap =>
      let circuits := tool_circuit snap in
      let totals := foldl (add_draw circuits) ∅ entries in
      sort_by String.leb
        (circuit_id <$> List.filter (fun c =>
           match parse_f64 (amperage_limit c) with
           | None => false
           | Some limit =>
               f64_gt (default f64_zero (totals !! circuit_id c)) limit
               && negb (bool_decide (circuit_id c ∈ local_tripped i))
           end) (ps_circuits snap))
  end.

Definition evaluate_overages (i : Inner) : list string :=
  evaluate_overages_in (map_to_list (latest_draw i)) i.

(** ** Lemmas *)

Lemma circuit_loop_true locked ts any :
  circuit_loop locked ts any = true <->
  (forall t, t ∈ ts -> pt_id t ∈ locked) /\ (any = true \/ ts <> []).
Proof.
  revert any. induction ts as [|t ts IH]; intros any; simpl.
  - split; [intros ->; split; [intros ? H; inversion H | by left]|].
    by intros [_ [-> | H]].
  - case_bool_decide as Ht.
    + rewrite IH. setoid_rewrite elem_of_cons. naive_solver.
    + split; [done|]. intros [H _]. exfalso. apply Ht, H. by left.
Qed.

(** What [circuit_locked] promises: every tool on the circuit is listed. *)
Lemma circuit_locked_spec s c :
  circuit_locked s c = true <->
  (exists t, t ∈ ps_tools s /\ pt_circuit_id t = Some c) /\
  (forall t, t ∈ ps_tools s -> pt_circuit_id t = Some c -> pt_id t ∈ locked_tool_ids s).
Proof.
  unfold circuit_locked. rewrite circuit_loop_true.
  assert (forall t, t ∈ List.filter (on_circuit c) (ps_tools s) <->
    t ∈ ps_tools s /\ pt_circuit_id t = Some c) as Hf.
  { intros t. rewrite elem_of_lfilter. unfold on_circuit. by rewrite bool_decide_eq_true. }
  setoid_rewrite Hf. setoid_rewrite elem_of_list_to_set.
  split.
  - intros [H1 [? | H2]]; [done|]. split; [|naive_solver].
    destruct (List.filter _ _) as [|t l] eqn:E; [done|].
    exists t. apply Hf. by left.
  - intros [[t Ht] H]. split; [naive_solver|]. right. intros E.
    apply Hf in Ht. rewrite E in Ht. inversion Ht.
Qed.

Lemma resolve_Some s tool t : resolve s tool = Some t -> t ∈ ps_tools s.
Proof. by intros [H _]%find_first_Some. Qed.

(** The reference for the running totals: one circuit's draws, added up in the
    order they are met. *)
Definition circuit_sum (s : PowerStatePayload) (entries : list (string * (f64 * instant)))
    (c : string) : f64 :=
  foldl f64_add f64_zero
    ((fun e => e.2.1) <$> List.filter (fun e => tool_circuit s !! e.1 ≟ Some c) entries).

Lemma totals_fold circuits entries totals c :
  default f64_zero (foldl (add_draw circuits) totals entries !! c) =
  foldl f64_add (default f64_zero (totals !! c))
    ((fun e => e.2.1) <$> List.filter (fun e => circuits !! e.1 ≟ Some c) entries).
Proof.
  revert totals. induction entries as [|e es IH]; intros totals; cbn [foldl]; [done|].
  rewrite IH. unfold add_draw at 1. cbn [List.filter].
  destruct (circuits !! e.1) as [c'|].
  - destruct (decide (c' = c)) as [->|Hne].
    + rewrite lookup_insert_eq, bool_decide_eq_true_2 by done. done.
    + rewrite lookup_insert_ne by done. rewrite bool_decide_eq_false_2 by congruence. done.
  - rewrite bool_decide_eq_false_2 by done. done.
Qed.

(** The fast-trip fires for exactly the circuits of the snapshot whose
    limit parses, that are not tripped already, and whose tools' latest draws,
    added up one circuit at a time, exceed the limit; each in order. *)
Theorem evaluate_overages_iff entries i snap c :
  snapshot i = Some snap ->
  c ∈ evaluate_overages_in entries i <->
  exists circuit limit, circuit ∈ ps_circuits snap /\ circuit_id circuit = c /\
    parse_f64 (amperage_limit circuit) = Some limit /\
    f64_gt (circuit_sum snap entries c) limit = true /\
    c ∉ local_tripped i.
Proof.
  intros Hs. unfold evaluate_overages_in. rewrite Hs, elem_of_sort_by, list_elem_of_fmap.
  setoid_rewrite elem_of_lfilter.
  assert (forall x, default f64_zero (foldl (add_draw (tool_circuit snap)) ∅ entries !! x) =
    circuit_sum snap entries x) as Hsum.
  { intros x. rewrite totals_fold. by rewrite lookup_empty. }
  split.
  - intros (x & -> & Hx & H). exists x.
    destruct (parse_f64 (amperage_limit x)) as [limit|]; [|done].
    exists limit. rewrite Hsum in H. split_andb. done.
  - intros (x & limit & Hx & <- & Hp & Hgt & Hn). exists x. split; [done|]. split; [done|].
    rewrite Hp, Hsum, Hgt. simpl. by rewrite bool_decide_eq_false_2.
Qed.

(** ** The lockout over time *)

(** The calls other tasks make between two snapshots. *)
Inductive quiet_step : Inner -> Inner -> Prop :=
  | quiet_draw tool amps now i : quiet_step i (record_draw tool amps now i)
  | quiet_trip c i : quiet_step i (mark_tripped c i).

Lemma quiet_keeps i j :
  rtc quiet_step i j -> snapshot j = snapshot i /\ local_tripped i ⊆ local_tripped j.
Proof.
  induction 1 as [i|i j k Hs _ [IH1 IH2]]; [done|].
  destruct Hs; simpl in *; split; try done; set_solver.
Qed.

(** Lockout is sticky: without a fresh snapshot nothing the edge records
    unlocks a tool, and once a circuit was tripped every tool the snapshot puts
    on it is locked, under either of its names. *)
Lemma quiet_sticky i j :
  rtc quiet_step i j ->
  (forall tool, is_locked i tool = true -> is_locked j tool = true) /\
  (forall c snap tool t, c ∈ local_tripped i -> snapshot i = Some snap ->
     resolve snap tool = Some t -> pt_circuit_id t = Some c -> is_locked j tool = true).
Proof.
  intros [Hs Ht]%quiet_keeps. unfold is_locked. rewrite Hs. split.
  - intros tool. destruct (snapshot i) as [snap|]; [|done].
    destruct (resolve snap tool) as [t|]; [|done].
    case_bool_decide; [done|]. destruct (pt_circuit_id t) as [c|]; simpl; [|done].
    rewrite !bool_decide_eq_true. set_solver.
  - intros c snap tool t Hc -> -> Htc. case_bool_decide; [done|]. rewrite Htc. simpl.
    apply bool_decide_eq_true. set_solver.
Qed.

(** A fresh snapshot is the last word: after it a tool is locked exactly
    when the snapshot lists it -- by the id it resolves to, or by the raw name
    if it is unknown -- so a local trip outlives it only on circuits it reports
    locked in full. *)
Lemma snapshot_decides_lockout p i tool :
  (is_locked (apply_state p i) tool = true <->
   default tool (pt_id <$> resolve p tool) ∈ locked_tool_ids p) /\
  (forall c, c ∈ local_tripped (apply_state p i) <->
     c ∈ local_tripped i /\ circuit_locked p c = true).
Proof.
  split.
  - unfold is_locked. simpl. destruct (resolve p tool) as [t|] eqn:Hr; simpl.
    + case_bool_decide as Ht; [done|].
      split; [|done]. destruct (pt_circuit_id t) as [c|] eqn:Ec; simpl; [|done].
      rewrite bool_decide_eq_true, elem_of_filter, circuit_locked_spec.
      intros [[_ H] _]. apply H; [by eapply resolve_Some | done].
    + rewrite existsb_elem. setoid_rewrite bool_decide_eq_true. naive_solver.
  - intros c. simpl. rewrite elem_of_filter. naive_solver.
Qed.

(** Tripping what was found over its limit quiesces: nothing is over twice. *)
Lemma trip_quiesces entries i :
  evaluate_overages_in entries (foldl (fun j c => mark_tripped c j) i
    (evaluate_overages_in entries i)) = [].
Proof.
  set (over := evaluate_overages_in entries i).
  assert (forall l j, snapshot (foldl (fun j c => mark_tripped c j) j l) = snapshot j /\
    forall c, c ∈ local_tripped (foldl (fun j c => mark_tripped c j) j l) <->
      c ∈ l \/ c ∈ local_tripped j) as Hf.
  { induction l as [|x l IH]; intros j; simpl.
    - split; [done|]. intros c. split; [by right|]. intros [H | H]; [inversion H | done].
    - destruct (IH (mark_tripped x j)) as [-> H]. split; [done|]. intros c. rewrite H.
      rewrite elem_of_cons. simpl. set_solver. }
  destruct (Hf over i) as [H1 H2]. set (j := foldl _ i over) in *.
  destruct (evaluate_overages_in entries j) as [|c l] eqn:E; [done|]. exfalso.
  assert (c ∈ evaluate_overages_in entries j) as Hc by (rewrite E; by left).
  destruct (snapshot i) as [snap|] eqn:Es.
  2: { unfold evaluate_overages_in in E. by rewrite H1 in E. }
  unfold evaluate_overages_in in Hc. rewrite H1, elem_of_sort_by, list_elem_of_fmap in Hc.
  destruct Hc as (x & -> & [Hx Hb]%elem_of_lfilter).
  destruct (parse_f64 _) as [limit|] eqn:Ep; [|done]. split_andb.
  match goal with H : _ ∉ local_tripped j |- _ => apply H end. apply H2. left.
  subst over. unfold evaluate_overages_in. rewrite Es, elem_of_sort_by.
  apply list_elem_of_fmap. exists x. split; [done|]. apply elem_of_lfilter. split; [done|].
  rewrite Ep. apply andb_true_iff. split; [done|]. apply negb_true_iff, bool_decide_eq_false.
  intros Hin. match goal with H : _ ∉ local_tripped j |- _ => apply H end. apply H2. by right.
Qed.

End PowerState.
