(* ===== verification/EdgeToolGuard.v ===== *)
(** * The edge's allow-list cache ([edge/src/toolguard.rs]) and the Open Access
    hold arithmetic ([edge/src/doors.rs])

    The card digest is argon2id under the device pepper, computed by third-party
    crates: a digester is any partial function from a card to the hex text of
    its digest, and "no pepper" is the absence of one. *)
From S2P Require Import Prelude Wire.
Import Wire.

Module ToolGuard.

Inductive ToolStatus : Type :=
  | Idle | InUse | Maintenance | Broken | Repair | Retired.

#[global] Instance ToolStatus_eq_dec : EqDecision ToolStatus.
Proof. solve_decision. Defined.

(** [{:?}] of a status, in lower case. *)
Definition debug_lower (s : ToolStatus) : string :=
  match s with
  | Idle => "idle" | InUse => "inuse" | Maintenance => "maintenance"
  | Broken => "broken" | Repair => "repair" | Retired => "retired"
  end.

Inductive AccessResult : Type :=
  | Authorized
  | UnknownCard
  | UserInactive
  | ToolNotAuthorized
  | ToolUnavailable (status : string).

Section ToolGuard.
Context {U : Uuid}.

Record SyncTool := {
  st_id : uuid;
  st_external_id : option string;
  st_name : string;
  st_status : ToolStatus;
  st_requires_online : bool;
}.

Record SyncUser := {
  su_digest : string;
  su_full_name : string;
  su_is_active : bool;
  su_authorized : list uuid;
}.

Record SyncPayload := {
  sp_device_id : uuid;
  sp_profile_field : string;
  sp_tools : list SyncTool;
  sp_users : list SyncUser;
}.

Record SyncArrival := {
  sa_payload : SyncPayload;
  sa_requested_at : option instant;
}.

(** [CardDigester::wire_digest], then [hex::encode]. *)
Definition digester : Type := string -> option string.

(** The cache, and the bounded channel to the lease engine: [None] when it was
    built without one.  (The WebSocket broadcast only carries copies out.) *)
Record ToolGuardState := MkToolGuard {
  tg_inner : option SyncPayload;
  tg_notify : option (list SyncArrival);
  tg_digester : option digester;
}.

Definition with_digester (d : option digester) : ToolGuardState := MkToolGuard None None d.

Definition NOTIFY_CAPACITY : nat := 4.

Definition new_with_notify (d : option digester) : ToolGuardState := MkToolGuard None (Some []) d.

(** [try_send]: a full channel drops the arrival. *)
Definition try_send (a : SyncArrival) (q : list SyncArrival) : list SyncArrival :=
  if Nat.ltb (length q) NOTIFY_CAPACITY then q ++ [a] else q.

Definition apply_sync_at (p : SyncPayload) (requested : option instant) (s : ToolGuardState)
    : ToolGuardState :=
  MkToolGuard (Some p)
    (try_send {| sa_payload := p; sa_requested_at := requested |} <$> tg_notify s)
    (tg_digester s).

Definition apply_sync (p : SyncPayload) (s : ToolGuardState) : ToolGuardState :=
  apply_sync_at p None s.

(** The consumer's side of the channel: the lease engine's task takes one. *)
Definition take_arrival (s : ToolGuardState) : option (SyncArrival * ToolGuardState) :=
  q ← tg_notify s;
  match q with
  | [] => None
  | a :: rest => Some (a, MkToolGuard (tg_inner s) (Some rest) (tg_digester s))
  end.

Definition has_state (s : ToolGuardState) : bool := is_some (tg_inner s).

Definition get_state (s : ToolGuardState) : option SyncPayload := tg_inner s.

Definition wire_digest_hex (s : ToolGuardState) (card : string) : option string :=
  d ← tg_digester s; d card.

Definition tool_named (name : string) (t : SyncTool) : bool :=
  (st_external_id t ≟ Some name) || (uuid_show (st_id t) ≟ name).

Definition check_access (s : ToolGuardState) (card tool : string) : AccessResult :=
  match tg_inner s with
  | None => UnknownCard
  | Some state =>
      match tg_digester s with
      | None => UnknownCard
      | Some d =>
          match d card with
          | None => UnknownCard
          | Some presented =>
              match find_first (fun u => constant_time_str_eq (su_digest u) presented)
                      (sp_users state) with
              | None => UnknownCard
              | Some user =>
                  if negb (su_is_active user) then UserInactive
                  else match find_first (tool_named tool) (sp_tools state) with
                       | None => ToolNotAuthorized
                       | Some t =>
                           if negb (bool_decide (st_id t ∈ su_authorized user))
                           then ToolNotAuthorized
                           else if negb (st_status t ≟ Idle)
                           then ToolUnavailable (debug_lower (st_status t))
                           else Authorized
                       end
              end
          end
      end
  end.

Definition tool_uuid (s : ToolGuardState) (tool : string) : option uuid :=
  state ← tg_inner s; st_id <$> find_first (tool_named tool) (sp_tools state).

Definition tool_requires_online (s : ToolGuardState) (tool : string) : bool :=
  default false (state ← tg_inner s;
    st_requires_online <$> find_first (tool_named tool) (sp_tools state)).

(** The allow-list authorizes a swipe exactly when there is a payload, a
    pepper that hashes the card, a first principal of that digest who is active,
    and a first tool of that name that is idle and among the principal's. *)
Lemma check_access_authorized_iff s card tool :
  check_access s card tool = Authorized <->
  exists p presented u t,
    tg_inner s = Some p /\ wire_digest_hex s card = Some presented /\
    find_first (fun u => su_digest u ≟ presented) (sp_users p) = Some u /\
    su_is_active u = true /\
    find_first (tool_named tool) (sp_tools p) = Some t /\
    st_id t ∈ su_authorized u /\ st_status t = Idle.
Proof.
  unfold check_access, wire_digest_hex.
  destruct (tg_inner s) as [p|]; [|refute].
  destruct (tg_digester s) as [d|]; simpl; [|refute].
  destruct (d card) as [presented|]; [|refute].
  rewrite (find_first_ext _ (fun u => su_digest u ≟ presented))
    by (intros; apply constant_time_str_eq_spec).
  destruct (find_first (fun u => su_digest u ≟ presented) (sp_users p)) as [u|] eqn:Eu;
    [|refute].
  destruct (su_is_active u) eqn:Ea; simpl; [|refute].
  destruct (find_first (tool_named tool) (sp_tools p)) as [t|] eqn:Et; [|refute].
  destruct (decide (st_id t ∈ su_authorized u)) as [Hin|Hin];
    [rewrite bool_decide_eq_true_2 by done | rewrite bool_decide_eq_false_2 by done; refute].
  destruct (decide (st_status t = Idle)) as [Hi|Hi];
    [rewrite bool_decide_eq_true_2 by done | rewrite bool_decide_eq_false_2 by done; refute].
  simpl. split; [|done]. intros _. by exists p, presented, u, t.
Qed.

End ToolGuard.
End ToolGuard.

Module Doors.

(** ** Wire types *)

Section Doors.
Context {U : Uuid}.

Record CompiledDoor := {
  cd_id : uuid;
  cd_name : string;
  cd_enabled : bool;
  unlock_duration_ms : Z;
  allow_cards : list string;
  deny_cards : list string;
  hold_unlock_until : option instant;
}.

Record DoorStateSnapshot := {
  snapshot_at : instant;
  snap_doors : list CompiledDoor;
}.

Record UnlockCommand := {
  uc_door_id : uuid;
  uc_duration_ms : Z;
  uc_reason : string;
  uc_sig : option string;
}.

Record DoorsEvent := {
  de_door_id : uuid;
  de_card_id : option string;
  de_granted : bool;
  de_reason : option string;
  de_source : string;
  de_occurred_at : instant;
  de_sig : option string;
}.

End Doors.

(** ** The hold *)

Definition HOLD_REFRESH_SECS : Z := 30.
Definition HOLD_PULSE_MARGIN_SECS : Z := 15.

Definition hold_pulse_ms (hold_until : option instant) (now : instant) (refresh : duration)
    : option Z :=
  until ← hold_until;
  let remaining := until - now in
  if remaining <=? 0 then None
  else
    let pulse := Z.min (refresh + seconds HOLD_PULSE_MARGIN_SECS) remaining in
    Some (as_i32 (Z.max (num_milliseconds pulse) 1)).

Lemma num_milliseconds_bounds d : 0 <= d -> d - 1000000 < millis (num_milliseconds d) <= d.
Proof.
  intros H. unfold millis, num_milliseconds. rewrite Z.quot_div_nonneg by lia.
  pose proof (Z.div_mod d 1000000 ltac:(lia)).
  pose proof (Z.mod_pos_bound d 1000000 ltac:(lia)). lia.
Qed.

(** What a refresh must satisfy for its pulse to fit the wire's [i32]. *)
Definition refresh_fits (refresh : duration) : Prop :=
  0 <= refresh /\ refresh + seconds HOLD_PULSE_MARGIN_SECS < millis (2 ^ 31).

Lemma hold_pulse_eq until now refresh :
  refresh_fits refresh -> now < until ->
  hold_pulse_ms (Some until) now refresh =
  Some (Z.max (num_milliseconds (Z.min (refresh + seconds HOLD_PULSE_MARGIN_SECS) (until - now))) 1).
Proof.
  unfold refresh_fits, seconds, HOLD_PULSE_MARGIN_SECS. intros [H1 H2] Hlt.
  unfold hold_pulse_ms. simpl.
  rewrite (proj2 (Z.leb_gt _ _)) by lia. unfold seconds, HOLD_PULSE_MARGIN_SECS.
  set (d := Z.min _ _). pose proof (num_milliseconds_bounds d ltac:(lia)) as Hb.
  unfold millis in *. f_equal. apply as_i32_id. unfold i32_range. lia.
Qed.

(** The hold pulse is a live, bounded command: there is one exactly while
    the window is open, it is at least one millisecond and never wraps its 32
    bits, it ends within the window (a last sub-millisecond tail excepted), and
    it reaches to the end of the refresh plus its margin or to within a
    millisecond of the end of the window. *)
Theorem hold_pulse_bounds hold_until now refresh :
  refresh_fits refresh ->
  match hold_pulse_ms hold_until now refresh with
  | None => forall until, hold_until = Some until -> until <= now
  | Some p => exists until, hold_until = Some until /\ now < until /\
      1 <= p < 2 ^ 31 /\
      (now + millis p <= until \/ p = 1 /\ until - now < millis 1) /\
      Z.min (now + refresh + seconds HOLD_PULSE_MARGIN_SECS) until - millis 1 < now + millis p
  end.
Proof.
  intros Hf. destruct hold_until as [until|]; [|done].
  destruct (Z.lt_ge_cases now until) as [Hlt | Hge].
  - rewrite hold_pulse_eq by done. exists until. split; [done|]. split; [done|].
    destruct Hf as [H1 H2]. unfold seconds, HOLD_PULSE_MARGIN_SECS in *.
    set (d := Z.min _ (until - now)). pose proof (num_milliseconds_bounds d ltac:(lia)) as Hb.
    unfold millis in *. lia.
  - unfold hold_pulse_ms. simpl. rewrite (proj2 (Z.leb_le _ _)) by lia.
    by intros ? [= ->].
Qed.

End Doors.
