(* ===== verification/EdgeResources.v ===== *)
(** * One cache for every resource ([edge/src/resources.rs])

    [ResourceCache]: the policy (who may use what, whichever payload carried
    it), on top of the wiring ([EdgeModules]), the allow-list ([EdgeToolGuard])
    and the lockout ([EdgePower]); the one decision for a badge, the one way a
    session opens, and the one loop.

    RFC 3339 parsing is the chrono crate's and stays a parameter. *)
From Stdlib Require Import Sorted.
From stdpp Require Import sorting.
From S2P Require Import Prelude Wire EdgeModules EdgePower EdgeToolGuard.
Import Wire ToolGuard Doors.

Module Resources.

Inductive Kind : Type := Tool | Door.

#[global] Instance Kind_eq_dec : EqDecision Kind.
Proof. solve_decision. Defined.

Definition Kind_as_str (k : Kind) : string :=
  match k with Tool => "tool" | Door => "door" end.

Definition Kind_parse (named : string) : Kind := if named ≟ "door" then Door else Tool.

Inductive SessionProfile : Type := Momentary | UntilStopped.

Definition SessionProfile_parse (named : string) (kind : Kind) : SessionProfile :=
  if named ≟ "momentary" then Momentary
  else if named ≟ "until_stopped" then UntilStopped
  else match kind with Door => Momentary | Tool => UntilStopped end.

Inductive ScanDecision : Type :=
  | Allow (strike_ms : option Z)
  | Deny (reason : string)
  | AskServer.

Definition LOCKED_OUT : string := "Tool is locked out (power)".
Definition DISABLED : string := "Door is disabled".
Definition DENIED_BY_RULE : string := "Denied by access rule".
Definition UNKNOWN_CARD : string := "Unknown card".
Definition USER_INACTIVE : string := "User is not active".
Definition NOT_AUTHORIZED : string := "Card not authorized".
Definition UNAVAILABLE_PREFIX : string := "Tool unavailable: ".

(** A tool status as the wire spells it, and back: an unknown word is
    [Retired]. *)
Definition status_word (s : ToolStatus) : string :=
  match s with
  | Idle => "idle" | InUse => "in_use" | Maintenance => "maintenance"
  | Broken => "broken" | Repair => "repair" | Retired => "retired"
  end.

Definition parse_status (word : string) : ToolStatus :=
  if word ≟ "idle" then Idle else if word ≟ "in_use" then InUse
  else if word ≟ "maintenance" then Maintenance else if word ≟ "broken" then Broken
  else if word ≟ "repair" then Repair else Retired.

Lemma parse_status_word s : parse_status (status_word s) = s.
Proof. by destruct s. Qed.

Section Cache.
Context {U : Uuid}.
(** [DateTime::parse_from_rfc3339], to UTC. *)
Definition timestamp_parser : Type := string -> option instant.

Record Resolved := {
  res_id : string;
  res_kind : Kind;
  res_profile : SessionProfile;
  res_pulse_ms : option Z;
}.

Inductive TickAction : Type :=
  | Lease (a : ModuleState.LeaseAction)
  | Hold (resource : uuid) (pulse_ms : Z).

(** ** The policy store *)

Record Entry := {
  e_id : uuid;
  e_external_id : option string;
  e_kind : Kind;
  e_session_profile : string;
  e_status : string;
  e_requires_online : bool;
  e_enabled : bool;
  e_pulse_ms : option Z;
  e_allow : list string;
  e_deny : list string;
  e_hold_until : option instant;
}.

Definition named (name : string) (e : Entry) : bool :=
  (e_external_id e ≟ Some name) || (uuid_show (e_id e) ≟ name).

Definition from_policy (parse_rfc3339 : timestamp_parser) (p : ResourcePolicy) : option Entry :=
  id ← uuid_parse (rp_id p);
  Some {|
    e_id := id;
    e_external_id := rp_external_id p;
    e_kind := Kind_parse (rp_kind p);
    e_session_profile := rp_session_profile p;
    e_status := rp_status p;
    e_requires_online := rp_requires_online p;
    e_enabled := rp_enabled p;
    e_pulse_ms := rp_pulse_ms p;
    e_allow := rp_allow p;
    e_deny := rp_deny p;
    e_hold_until := rp_hold_until p ≫= parse_rfc3339;
  |}.

Definition from_sync_tool (t : SyncTool) : Entry := {|
  e_id := st_id t;
  e_external_id := st_external_id t;
  e_kind := Tool;
  e_session_profile := String.EmptyString;
  e_status := status_word (st_status t);
  e_requires_online := st_requires_online t;
  e_enabled := true;
  e_pulse_ms := None;
  e_allow := [];
  e_deny := [];
  e_hold_until := None;
|}.

Definition from_compiled_door (d : CompiledDoor) : Entry := {|
  e_id := cd_id d;
  e_external_id := None;
  e_kind := Door;
  e_session_profile := String.EmptyString;
  e_status := String.EmptyString;
  e_requires_online := false;
  e_enabled := cd_enabled d;
  e_pulse_ms := Some (unlock_duration_ms d);
  e_allow := allow_cards d;
  e_deny := deny_cards d;
  e_hold_until := hold_unlock_until d;
|}.

Definition to_sync_tool (name : string) (e : Entry) : SyncTool := {|
  st_id := e_id e;
  st_external_id := e_external_id e;
  st_name := name;
  st_status := parse_status (e_status e);
  st_requires_online := e_requires_online e;
|}.

Record Member := {
  m_digest : string;
  m_full_name : string;
  m_is_active : bool;
  m_authorized : list uuid;
}.

Definition from_principal (p : Principal) : Member := {|
  m_digest := pr_digest p;
  m_full_name := pr_full_name p;
  m_is_active := pr_is_active p;
  m_authorized := omap uuid_parse (pr_authorized p);
|}.

Definition from_sync_user (u : SyncUser) : Member := {|
  m_digest := su_digest u;
  m_full_name := su_full_name u;
  m_is_active := su_is_active u;
  m_authorized := su_authorized u;
|}.

Definition to_sync_user (m : Member) : SyncUser := {|
  su_digest := m_digest m;
  su_full_name := m_full_name m;
  su_is_active := m_is_active m;
  su_authorized := m_authorized m;
|}.

Record Policy := MkPolicy {
  entries : list Entry;
  names : gmap uuid string;
  members : list Member;
  applied_at : option instant;
}.

Definition empty_policy : Policy := MkPolicy [] ∅ [] None.

Definition is_stale (p : Policy) (stamp : instant) : bool :=
  is_some_and (applied_at p) (fun applied => stamp <? applied).

Definition replace_kind (k : Kind) (with_ : list Entry) (p : Policy) : Policy :=
  MkPolicy (List.filter (fun e => negb (e_kind e ≟ k)) (entries p) ++ with_)
    (names p) (members p) (applied_at p).

Definition find (p : Policy) (name : string) : option Entry :=
  find_first (named name) (entries p).

Definition to_sync (p : Policy) (device_id : uuid) (profile_field : string) : SyncPayload := {|
  sp_device_id := device_id;
  sp_profile_field := profile_field;
  sp_tools := (fun e => to_sync_tool (default String.EmptyString (names p !! e_id e)) e) <$>
    List.filter (fun e => e_kind e ≟ Tool) (entries p);
  sp_users := to_sync_user <$> members p;
|}.

(** ** The cache *)

Record ResourceCache := MkCache {
  wiring : ModuleState.Inner;
  allow_list : ToolGuardState;
  power : PowerState.Inner;
  policy : Policy;
  hold_sent : gmap uuid instant;
}.

Definition with_wiring w c := MkCache w (allow_list c) (power c) (policy c) (hold_sent c).
Definition with_allow_list a c := MkCache (wiring c) a (power c) (policy c) (hold_sent c).
Definition with_power p c := MkCache (wiring c) (allow_list c) p (policy c) (hold_sent c).
Definition with_policy p c := MkCache (wiring c) (allow_list c) (power c) p (hold_sent c).
Definition with_hold_sent h c := MkCache (wiring c) (allow_list c) (power c) (policy c) h.

Definition new (w : ModuleState.Inner) (a : ToolGuardState) (p : PowerState.Inner)
    : ResourceCache := MkCache w a p empty_policy ∅.

(** The policy a [resource/policy] payload stands for; [None] when it is older
    than the one applied. *)
Definition policy_of (parse_rfc3339 : timestamp_parser) (payload : ResourcePolicyPayload) (p : Policy) : option Policy :=
  let stamp := parse_rfc3339 (rpp_as_of payload) in
  if is_some_and stamp (is_stale p) then None
  else
    let named_entries := omap (fun r => (fun e => (e, rp_name r)) <$> from_policy parse_rfc3339 r)
                           (rpp_resources payload) in
    Some {|
      entries := named_entries.*1;
      names := foldl (fun m en => <[e_id en.1 := en.2]> m) ∅ named_entries;
      members := from_principal <$> rpp_principals payload;
      applied_at := match stamp with Some s => Some s | None => applied_at p end;
    |}.

Definition apply_policy (parse_rfc3339 : timestamp_parser) (payload : ResourcePolicyPayload)
    (requested : option instant) (c : ResourceCache) : ResourceCache :=
  let device_id := default uuid_nil (uuid_parse (rpp_device_id payload)) in
  match policy_of parse_rfc3339 payload (policy c) with
  | None => c
  | Some w =>
      with_allow_list
        (apply_sync_at (to_sync w device_id (rpp_profile_field payload)) requested (allow_list c))
        (with_policy w c)
  end.

Definition apply_sync_alias (payload : SyncPayload) (requested : option instant)
    (c : ResourceCache) : ResourceCache :=
  let w := policy c in
  let w := MkPolicy (entries w)
    (foldl (fun m t => <[st_id t := st_name t]> m) (names w) (sp_tools payload))
    (members w) (applied_at w) in
  let w := replace_kind Tool (from_sync_tool <$> sp_tools payload) w in
  let w := MkPolicy (entries w) (names w) (from_sync_user <$> sp_users payload) (applied_at w) in
  with_allow_list (apply_sync_at payload requested (allow_list c)) (with_policy w c).

Definition apply_doors_alias (snap : DoorStateSnapshot) (c : ResourceCache) : ResourceCache :=
  let w := policy c in
  if is_stale w (snapshot_at snap) then c
  else
    let w := MkPolicy (entries w)
      (foldl (fun m d => <[cd_id d := cd_name d]> m) (names w) (snap_doors snap))
      (members w) (Some (snapshot_at snap)) in
    with_policy (replace_kind Door (from_compiled_door <$> snap_doors snap) w) c.

Definition policy_len (c : ResourceCache) : nat := length (entries (policy c)).

(** ** Reading *)

Definition resolved_from (p : Policy) (w : option ModuleState.ResourceWiring) (name : string)
    : option Resolved :=
  match w with
  | Some w =>
      let kind := Kind_parse (ModuleState.wiring_kind w) in
      Some {|
        res_id := ModuleState.wiring_id w;
        res_kind := kind;
        res_profile := SessionProfile_parse (ModuleState.wiring_session_profile w) kind;
        res_pulse_ms := option_or (find p name ≫= e_pulse_ms) (ModuleState.strike_pulse w);
      |}
  | None =>
      e ← find p name;
      Some {|
        res_id := uuid_show (e_id e);
        res_kind := e_kind e;
        res_profile := SessionProfile_parse (e_session_profile e) (e_kind e);
        res_pulse_ms := e_pulse_ms e;
      |}
  end.

Definition resolve (c : ResourceCache) (name : string) : option Resolved :=
  resolved_from (policy c) (ModuleState.resource (wiring c) name) name.

Definition requires_online (c : ResourceCache) (name : string) : bool :=
  is_some_and (find (policy c) name) e_requires_online.

(** The half of [decide] over the principals. *)
Definition judge (ms : list Member) (entry : option Entry) (token : string)
    (strike : option Z) : ScanDecision :=
  match find_first (fun m => constant_time_str_eq (m_digest m) token) ms with
  | None => Deny UNKNOWN_CARD
  | Some member =>
      if negb (m_is_active member) then Deny USER_INACTIVE
      else match entry with
           | Some e =>
               if bool_decide (e_id e ∈ m_authorized member) then
                 if negb (e_status e ≟ String.EmptyString) && negb (e_status e ≟ "idle")
                 then Deny (UNAVAILABLE_PREFIX +:+ e_status e)
                 else Allow strike
               else Deny NOT_AUTHORIZED
           | None => Deny NOT_AUTHORIZED
           end
  end.

Definition decide (c : ResourceCache) (name card : string) (now : instant) : ScanDecision :=
  if PowerState.is_locked (power c) name then Deny LOCKED_OUT
  else
    let w := ModuleState.resource (wiring c) name in
    let token := default String.EmptyString (wire_digest_hex (allow_list c) card) in
    let entry := find (policy c) name in
    let strike := resolved_from (policy c) w name ≫= res_pulse_ms in
    match entry with
    | Some e =>
        if negb (e_enabled e) then Deny DISABLED
        else if existsb (fun d => d ≟ token) (e_deny e) then Deny DENIED_BY_RULE
        else if is_some_and (e_hold_until e) (fun until => now <? until) then Allow strike
        else if existsb (fun a => a ≟ token) (e_allow e) then Allow strike
        else if e_requires_online e then AskServer
        else judge (members (policy c)) entry token strike
    | None => judge (members (policy c)) entry token strike
    end.

(** ** Sessions *)

Definition session_end (r : option Resolved) (now : instant) : option instant :=
  match res_profile <$> r with
  | Some Momentary => Some (now + millis (Z.max (default 0 (r ≫= res_pulse_ms)) 0))
  | _ => None
  end.

Definition open_session (name : string) (now : instant) (c : ResourceCache) : ResourceCache :=
  with_wiring (ModuleState.open_session name now (session_end (resolve c name) now) (wiring c)) c.

Definition close_session (name : string) (now : instant) (c : ResourceCache) : ResourceCache :=
  with_wiring (ModuleState.close_session name now (wiring c)) c.

Definition reconcile (p : SyncPayload) (now : instant) (requested : option instant)
    (c : ResourceCache) : ResourceCache :=
  let in_use := (fun t => uuid_show (st_id t)) <$>
    List.filter (fun t => st_status t ≟ InUse) (sp_tools p) in
  let tracked := (fun t => uuid_show (st_id t)) <$> sp_tools p in
  let as_of := default now requested in
  with_wiring (ModuleState.reconcile_sessions in_use tracked now as_of (wiring c)) c.

(** ** The loop *)

Definition hold_pulses_at (c : ResourceCache) (now : instant) (refresh : duration)
    : list (uuid * Z) :=
  omap (fun e => (fun ms => (e_id e, ms)) <$> hold_pulse_ms (e_hold_until e) now refresh)
    (List.filter e_enabled (entries (policy c))).

(** One held door of [tick]'s loop. *)
Definition send_hold (now : instant) (refresh : duration)
    (acc : gmap uuid instant * list TickAction) (held : uuid * Z)
    : gmap uuid instant * list TickAction :=
  let '(sent, out) := acc in
  let '(door, pulse) := held in
  if is_none_or (sent !! door) (fun last => refresh <=? now - last)
  then (<[door := now]> sent, out ++ [Hold door pulse])
  else (sent, out).

Definition tick (now : instant) (ttl module_timeout hold_refresh : duration)
    (c : ResourceCache) : ResourceCache * list TickAction :=
  let '(w, leases) := ModuleState.tick now ttl module_timeout (wiring c) in
  let held := hold_pulses_at c now hold_refresh in
  let sent := filter (fun kv : uuid * instant => kv.1 ∈ held.*1) (hold_sent c) in
  let '(sent, out) := foldl (send_hold now hold_refresh) (sent, Lease <$> leases) held in
  (with_hold_sent sent (with_wiring w c), out).

(** ** The decision, as a condition *)

(** What the resource's own entry says before the principals are asked. *)
Definition entry_open (e : Entry) (token : string) (now : instant) : Prop :=
  e_enabled e = true /\ token ∉ e_deny e.

Definition entry_admits (e : Entry) (token : string) (now : instant) : Prop :=
  (exists until, e_hold_until e = Some until /\ now < until) \/ token ∈ e_allow e.

(** The first principal of the presented digest is active, and authorized for
    this very resource, which is available. *)
Definition principal_admits (ms : list Member) (e : Entry) (token : string) : Prop :=
  exists m, find_first (fun m => m_digest m ≟ token) ms = Some m /\
    m_is_active m = true /\ e_id e ∈ m_authorized m /\
    (e_status e = String.EmptyString \/ e_status e = "idle"%string).

Definition token_of (c : ResourceCache) (card : string) : string :=
  default String.EmptyString (wire_digest_hex (allow_list c) card).

Definition strike_of (c : ResourceCache) (name : string) : option Z :=
  resolve c name ≫= res_pulse_ms.

Lemma existsb_eq (l : list string) (x : string) : existsb (fun d => d ≟ x) l = true <-> x ∈ l.
Proof. rewrite existsb_elem. setoid_rewrite bool_decide_eq_true. naive_solver. Qed.

Lemma find_member ms token :
  find_first (fun m => constant_time_str_eq (m_digest m) token) ms =
  find_first (fun m => m_digest m ≟ token) ms.
Proof. apply find_first_ext. intros. apply constant_time_str_eq_spec. Qed.

Lemma judge_allow ms entry token strike k :
  judge ms entry token strike = Allow k <->
  k = strike /\ exists e, entry = Some e /\ principal_admits ms e token.
Proof.
  unfold judge, principal_admits. rewrite find_member.
  destruct (find_first _ ms) as [m|] eqn:Em; [|refute].
  destruct (m_is_active m) eqn:Ea; simpl; [|refute].
  destruct entry as [e|]; [|refute].
  destruct (decide_rel (∈) (e_id e) (m_authorized m)) as [Hin|Hin];
    [rewrite (bool_decide_eq_true_2 (_ ∈ _)) by done
    | rewrite (bool_decide_eq_false_2 (_ ∈ _)) by done; refute].
  destruct (e_status e ≟ String.EmptyString) eqn:E1;
    [|destruct (e_status e ≟ "idle") eqn:E2]; simpl; split_andb; [| |refute].
  - split; [intros [= ->] | intros; open_all; congruence]. split; [done|].
    exists e. split; [done|]. exists m. repeat split; try done. by left.
  - split; [intros [= ->] | intros; open_all; congruence]. split; [done|].
    exists e. split; [done|]. exists m. repeat split; try done. by right.
Qed.

Lemma decide_allow c name card now k :
  decide c name card now = Allow k <->
  PowerState.is_locked (power c) name = false /\ k = strike_of c name /\
  exists e, find (policy c) name = Some e /\
    e_enabled e = true /\ token_of c card ∉ e_deny e /\
    (entry_admits e (token_of c card) now \/
     e_requires_online e = false /\ principal_admits (members (policy c)) e (token_of c card)).
Proof.
  unfold decide, strike_of, resolve, entry_admits. fold (token_of c card).
  destruct (PowerState.is_locked _ _); [refute|].
  set (strike := resolved_from _ _ _ ≫= _). set (token := token_of c card).
  destruct (find (policy c) name) as [e|].
  2: { rewrite judge_allow. naive_solver. }
  destruct (e_enabled e) eqn:Een; simpl; [|refute].
  destruct (existsb _ (e_deny e)) eqn:Ed.
  { rewrite existsb_eq in Ed. naive_solver. }
  assert (token ∉ e_deny e) as Hd by (rewrite <- existsb_eq; by rewrite Ed).
  destruct (is_some_and (e_hold_until e) _) eqn:Eh.
  { destruct (e_hold_until e) as [until|] eqn:Eu; [|done]. simpl in Eh. split_andb.
    split; [|by intros (_ & -> & _)]. intros [= <-]. split; [done|]. split; [done|].
    exists e. split; [done|]. split; [done|]. split; [done|]. left; left. by exists until. }
  assert (~ exists until, e_hold_until e = Some until /\ now < until) as Hh.
  { intros (until & E & Hlt). rewrite E in Eh. simpl in Eh. split_andb. lia. }
  destruct (existsb _ (e_allow e)) eqn:Ea.
  { rewrite existsb_eq in Ea. naive_solver. }
  assert (token ∉ e_allow e) as Hna by (rewrite <- existsb_eq; by rewrite Ea).
  destruct (e_requires_online e) eqn:Er.
  { split; [done|]. intros (_ & _ & e0 & [= <-] & _ & _ & [[H | H] | [H _]]); [done..|congruence]. }
  rewrite judge_allow. naive_solver.
Qed.

(** A badge is let in exactly when the resource is not locked out for
    power, is enabled, does not deny the card, and either its Open Access window
    is open by this device's clock, or it lists the card, or -- when the server
    does not insist on deciding -- the card's principal is active and authorized
    for it and it is available; the strike pulse answered is the resource's. *)
Theorem decide_allow_iff c name card now k :
  decide c name card now = Allow k <->
  PowerState.is_locked (power c) name = false /\ k = strike_of c name /\
  exists e, find (policy c) name = Some e /\
    e_enabled e = true /\ token_of c card ∉ e_deny e /\
    (entry_admits e (token_of c card) now \/
     e_requires_online e = false /\ principal_admits (members (policy c)) e (token_of c card)).
Proof. apply decide_allow. Qed.

(** An edge without a pepper, or whose digest fails, admits nobody outside
    an Open Access window, as long as no digest in the policy is the empty text
    -- which is the token such a swipe is given. *)
Lemma no_pepper_admits_nobody c name card now k :
  wire_digest_hex (allow_list c) card = None ->
  (forall m, m ∈ members (policy c) -> m_digest m <> String.EmptyString) ->
  (forall e, e ∈ entries (policy c) -> String.EmptyString ∉ e_allow e) ->
  decide c name card now = Allow k ->
  exists e until, find (policy c) name = Some e /\ e_hold_until e = Some until /\ now < until.
Proof.
  intros Hd Hm He. rewrite decide_allow. unfold token_of. rewrite Hd. simpl.
  intros (_ & _ & e & Hf & _ & _ & [[(until & H) | H] | [_ (m & H & _)]]).
  - by exists e, until.
  - exfalso. apply find_first_Some in Hf as [Hf _]. by apply (He e).
  - exfalso. apply find_first_Some in H as [H Hmd]. apply bool_decide_eq_true in Hmd.
    by apply (Hm m).
Qed.

(** ** The decision it replaced *)

(** The words [decide] uses for what [ToolGuardState::check_access] answers. *)
Definition spoken (r : AccessResult) (strike : option Z) (t : option SyncTool) : ScanDecision :=
  match r with
  | Authorized => Allow strike
  | UnknownCard => Deny UNKNOWN_CARD
  | UserInactive => Deny USER_INACTIVE
  | ToolNotAuthorized => Deny NOT_AUTHORIZED
  | ToolUnavailable _ =>
      Deny (UNAVAILABLE_PREFIX +:+ default String.EmptyString (status_word ∘ st_status <$> t))
  end.

Lemma find_first_fmap {A B} (f : A -> B) (g : B -> bool) l :
  find_first g (f <$> l) = f <$> find_first (fun x => g (f x)) l.
Proof.
  induction l as [|x l IH]; [done|]. rewrite fmap_cons. cbn [find_first]. rewrite IH.
  by destruct (g (f x)).
Qed.

Lemma find_first_app {A} (f : A -> bool) l1 l2 :
  find_first f l1 = None -> find_first f (l1 ++ l2) = find_first f l2.
Proof.
  induction l1 as [|x l1 IH]; [done|]. cbn. destruct (f x); [done | apply IH].
Qed.

(** For a tool known from the allow-list payload, the one decision answers
    exactly what the allow-list's own decision procedure does, in the shared
    words: given a digest for the card, no power lockout, no door of that name,
    and a server that does not insist on deciding. *)
Theorem decide_refines_check_access payload requested c0 name card now token :
  let c := apply_sync_alias payload requested c0 in
  let t := find_first (tool_named name) (sp_tools payload) in
  PowerState.is_locked (power c) name = false ->
  wire_digest_hex (allow_list c) card = Some token ->
  (forall e, e ∈ entries (policy c0) -> e_kind e = Door -> named name e = false) ->
  is_some_and t st_requires_online = false ->
  decide c name card now = spoken (check_access (allow_list c) card name) (strike_of c name) t.
Proof.
  intros c t Hlock Hdig Hdoor Honline.
  assert (find (policy c) name = from_sync_tool <$> t) as Hfind.
  { unfold find. simpl. rewrite find_first_app.
    - by rewrite find_first_fmap.
    - apply find_first_None. intros e [He Hk]%elem_of_lfilter.
      apply Hdoor; [done|]. destruct (e_kind e); [done | done]. }
  unfold decide, check_access, strike_of, resolve. rewrite Hlock, Hdig, Hfind.
  unfold wire_digest_hex in Hdig. simpl in Hdig |- *.
  destruct (tg_digester (allow_list c0)) as [d|]; [|done]. simpl in Hdig. rewrite Hdig.
  fold t. set (strike := resolved_from _ _ _ ≫= _).
  assert (forall entry, judge (from_sync_user <$> sp_users payload) entry token strike =
    match find_first (fun u => constant_time_str_eq (su_digest u) token) (sp_users payload) with
    | None => Deny UNKNOWN_CARD
    | Some u => judge [from_sync_user u] entry (su_digest u) strike
    end) as Hj.
  { intros entry. unfold judge. rewrite find_first_fmap. simpl.
    destruct (find_first _ (sp_users payload)) as [u|]; [|done]. simpl.
    rewrite (constant_time_str_eq_spec (su_digest u)). by rewrite bool_decide_eq_true_2. }
  destruct t as [tl|]; simpl in *; rewrite ?Honline, Hj;
    (destruct (find_first _ (sp_users payload)) as [u|]; [|done]); unfold judge; simpl;
    rewrite constant_time_str_eq_spec, bool_decide_eq_true_2 by done; simpl;
    destruct (su_is_active u); simpl; try done.
  destruct (bool_decide (st_id tl ∈ su_authorized u)); simpl; [|done].
  unfold spoken.
  change (default String.EmptyString (status_word ∘ st_status <$> Some tl))
    with (status_word (st_status tl)).
  by destruct (st_status tl).
Qed.

(** ** Stale payloads *)

Inductive ingest : Type :=
  | InPolicy (payload : ResourcePolicyPayload) (requested : option instant)
  | InSync (payload : SyncPayload) (requested : option instant)
  | InDoors (snap : DoorStateSnapshot).

Definition take_in (parse_rfc3339 : timestamp_parser) (c : ResourceCache) (x : ingest) : ResourceCache :=
  match x with
  | InPolicy p r => apply_policy parse_rfc3339 p r c
  | InSync p r => apply_sync_alias p r c
  | InDoors d => apply_doors_alias d c
  end.

Definition applied_since (s : instant) (c : ResourceCache) : Prop :=
  exists a, applied_at (policy c) = Some a /\ s <= a.

Lemma take_in_applied parse s c x :
  applied_since s c -> applied_since s (take_in parse c x).
Proof.
  intros (a & Ha & Hle). destruct x as [p r | p r | d]; simpl.
  - unfold apply_policy, policy_of.
    destruct (parse (rpp_as_of p)) as [t|]; simpl; [|by exists a].
    unfold is_stale. rewrite Ha. simpl. destruct (Z.ltb_spec t a); [by exists a|].
    exists t. split; [done | lia].
  - by exists a.
  - unfold apply_doors_alias, is_stale. rewrite Ha. simpl.
    destruct (Z.ltb_spec (snapshot_at d) a); [by exists a|].
    exists (snapshot_at d). split; [done | lia].
Qed.

(** A replayed configuration changes nothing: once a door snapshot or a
    policy stamped [s] has been applied, then whatever arrives in between, a
    snapshot or policy stamped before [s] leaves the cache as it is. *)
Theorem replay_is_ignored parse s xs c d p requested t :
  applied_since s c ->
  let c' := foldl (take_in parse) c xs in
  (snapshot_at d < s -> apply_doors_alias d c' = c') /\
  (parse (rpp_as_of p) = Some t -> t < s -> apply_policy parse p requested c' = c').
Proof.
  intros H c'. assert (applied_since s c') as (a & Ha & Hle).
  { subst c'. revert c H. induction xs as [|x xs IH]; intros c H; simpl; [done|].
    by apply IH, take_in_applied. }
  split.
  - intros Hlt. unfold apply_doors_alias, is_stale. rewrite Ha. simpl.
    by rewrite (proj2 (Z.ltb_lt _ _)) by lia.
  - intros Hp Hlt. unfold apply_policy, policy_of. rewrite Hp. simpl.
    unfold is_stale. rewrite Ha. simpl. by rewrite (proj2 (Z.ltb_lt _ _)) by lia.
Qed.

(** ** Sessions *)

(** A session opened on a [momentary] resource the server does not report
    in use is over exactly when its strike pulse is; one opened on anything else
    is in use until something ends it. *)
Lemma session_lasts_its_profile c name now t :
  let i := wiring (open_session name now c) in
  let key := ModuleState.tool_key (wiring c) name in
  match resolve c name with
  | Some r =>
      match res_profile r with
      | Momentary => key ∉ ModuleState.synced_in_use (wiring c) ->
          ModuleState.in_use i key t =
          (t <? now + millis (Z.max (default 0 (res_pulse_ms r)) 0))
      | UntilStopped => ModuleState.in_use i key t = true
      end
  | None => ModuleState.in_use i key t = true
  end.
Proof.
  simpl. unfold open_session, ModuleState.open_session, ModuleState.in_use, session_end. simpl.
  rewrite !lookup_insert_eq. simpl.
  destruct (resolve c name) as [r|]; simpl; [|by rewrite orb_true_r].
  destruct (res_profile r); simpl; [|by rewrite orb_true_r].
  intros Hs. by rewrite bool_decide_eq_false_2.
Qed.

(** ** The hold over time *)

Lemma send_hold_other now refresh l acc id :
  id ∉ l.*1 -> (foldl (send_hold now refresh) acc l).1 !! id = acc.1 !! id.
Proof.
  revert acc. induction l as [|[d p] l IH]; intros [sent out]; [done|].
  rewrite fmap_cons, not_elem_of_cons. intros [Hne Hl]. cbn [foldl]. rewrite IH by done.
  unfold send_hold. destruct (is_none_or _ _); simpl in *; [by rewrite lookup_insert_ne | done].
Qed.

Lemma send_hold_out now refresh l acc a :
  a ∈ acc.2 -> a ∈ (foldl (send_hold now refresh) acc l).2.
Proof.
  revert acc. induction l as [|[d p] l IH]; intros [sent out] Ha; cbn [foldl]; [done|].
  apply IH. unfold send_hold. destruct (is_none_or _ _); simpl; [|done].
  apply elem_of_app. by left.
Qed.

Lemma send_hold_fold now refresh l acc id p :
  NoDup l.*1 -> (id, p) ∈ l ->
  let r := foldl (send_hold now refresh) acc l in
  if is_none_or (acc.1 !! id) (fun last => refresh <=? now - last)
  then r.1 !! id = Some now /\ Hold id p ∈ r.2
  else r.1 !! id = acc.1 !! id.
Proof.
  revert acc. induction l as [|[d q] l IH]; intros [sent out]; [intros _ H; inversion H|].
  rewrite fmap_cons, NoDup_cons, elem_of_cons. cbn [foldl].
  intros [Hd Hnd] [[= -> ->] | Hin].
  - pose proof (send_hold_other now refresh l (send_hold now refresh (sent, out) (d, q)) d Hd)
      as Ho. simpl in Ho |- *. rewrite Ho.
    destruct (is_none_or (sent !! d) _) eqn:E; simpl; [|done].
    split; [apply lookup_insert_eq|]. apply send_hold_out. simpl.
    apply elem_of_app. right. by apply list_elem_of_singleton.
  - specialize (IH (send_hold now refresh (sent, out) (d, q)) Hnd Hin).
    assert (d <> id) as Hne.
    { intros ->. apply Hd. apply list_elem_of_fmap. by exists (id, p). }
    assert ((send_hold now refresh (sent, out) (d, q)).1 !! id = sent !! id) as E.
    { simpl. destruct (is_none_or (sent !! d) _); simpl; [by rewrite lookup_insert_ne | done]. }
    simpl in E, IH |- *. by rewrite E in IH.
Qed.

Lemma held_ids c now refresh :
  (hold_pulses_at c now refresh).*1 `sublist_of` (e_id <$> entries (policy c)).
Proof.
  unfold hold_pulses_at. induction (entries (policy c)) as [|e l IH]; [done|].
  cbn [List.filter]. rewrite (fmap_cons e_id).
  destruct (e_enabled e); [|by apply sublist_cons].
  cbn [omap list_omap]. destruct (hold_pulse_ms _ _ _); simpl.
  - by apply sublist_skip.
  - by apply sublist_cons.
Qed.

Lemma held_entry c now refresh e p :
  e ∈ entries (policy c) -> e_enabled e = true ->
  hold_pulse_ms (e_hold_until e) now refresh = Some p ->
  (e_id e, p) ∈ hold_pulses_at c now refresh.
Proof.
  intros He Hen Hp. unfold hold_pulses_at. apply list_elem_of_omap. exists e.
  rewrite elem_of_lfilter. by rewrite Hp.
Qed.

Lemma tick_hold now ttl timeout refresh c e p :
  NoDup (e_id <$> entries (policy c)) -> e ∈ entries (policy c) -> e_enabled e = true ->
  hold_pulse_ms (e_hold_until e) now refresh = Some p ->
  let r := tick now ttl timeout refresh c in
  policy r.1 = policy c /\
  if is_none_or (hold_sent c !! e_id e) (fun last => refresh <=? now - last)
  then hold_sent r.1 !! e_id e = Some now /\ Hold (e_id e) p ∈ r.2
  else hold_sent r.1 !! e_id e = hold_sent c !! e_id e.
Proof.
  intros Hnd He Hen Hp. unfold tick. destruct (ModuleState.tick _ _ _ _) as [w leases].
  set (sent := filter _ (hold_sent c)).
  pose proof (held_entry c now refresh e p He Hen Hp) as Hheld.
  assert (sent !! e_id e = hold_sent c !! e_id e) as Es.
  { subst sent. destruct (hold_sent c !! e_id e) as [s|] eqn:E.
    - apply map_lookup_filter_Some. split; [done|]. simpl.
      apply list_elem_of_fmap. by exists (e_id e, p).
    - apply map_lookup_filter_None. by left. }
  assert (NoDup (hold_pulses_at c now refresh).*1) as Hndh
    by (eapply sublist_NoDup; [done | apply held_ids]).
  pose proof (send_hold_fold now refresh _ (sent, Lease <$> leases) _ _ Hndh Hheld) as H.
  simpl in H. rewrite Es in H. destruct (foldl _ _ _) as [sent' out]. by split.
Qed.

(** The loop over a sequence of instants, and everything it asked to deliver. *)
Definition run_ticks (ttl timeout refresh : duration) (ts : list instant) (c : ResourceCache)
    : ResourceCache * list (instant * TickAction) :=
  foldl (fun acc t =>
    let r := tick t ttl timeout refresh acc.1 in (r.1, acc.2 ++ (pair t <$> r.2))) (c, []) ts.

(** A pulse sent within the last refresh, and recorded. *)
Definition pulsing (id : uuid) (until : instant) (refresh : duration) (t : instant)
    (acc : ResourceCache * list (instant * TickAction)) : Prop :=
  exists s p, hold_sent acc.1 !! id = Some s /\ s <= t /\ t - s < refresh /\
    hold_pulse_ms (Some until) s refresh = Some p /\ (s, Hold id p) ∈ acc.2.

Lemma run_ticks_pulsing ttl timeout refresh ts t c e until :
  refresh_fits refresh -> 0 < refresh -> NoDup (e_id <$> entries (policy c)) ->
  e ∈ entries (policy c) -> e_enabled e = true -> e_hold_until e = Some until ->
  hold_sent c !! e_id e = None -> Sorted Z.le (ts ++ [t]) -> t < until ->
  policy (run_ticks ttl timeout refresh (ts ++ [t]) c).1 = policy c /\
  pulsing (e_id e) until refresh t (run_ticks ttl timeout refresh (ts ++ [t]) c).
Proof.
  intros Hfit Hpos Hnd He Hen Hun Hnone. revert t.
  induction ts as [|t0 ts IH] using rev_ind; intros t Hs Ht; unfold run_ticks.
  - simpl. set (r := tick t ttl timeout refresh c).
    destruct (hold_pulse_ms (Some until) t refresh) as [p|] eqn:Ep.
    2: { by rewrite hold_pulse_eq in Ep. }
    destruct (tick_hold t ttl timeout refresh c e p) as [H1 H2]; try done; [by rewrite Hun|].
    fold r in H1, H2. rewrite Hnone in H2. simpl in H2. destruct H2 as [H2 H3].
    split; [done|]. exists t, p. split; [done|]. split; [lia|]. split; [lia|].
    split; [done|]. apply list_elem_of_fmap. by exists (Hold (e_id e) p).
  - rewrite foldl_app. fold (run_ticks ttl timeout refresh (ts ++ [t0]) c).
    apply Sorted_StronglySorted in Hs; [|intros ???; lia].
    apply StronglySorted_app in Hs as (Hle & Hs0 & _).
    assert (t0 <= t) as Hle0.
    { apply Hle; [apply elem_of_app; right|]; by apply list_elem_of_singleton. }
    destruct (IH t0) as [Hpol (s & p & Hsent & Hst & Hfresh & Hp & Hin)];
      [by apply StronglySorted_Sorted | lia |].
    destruct (run_ticks ttl timeout refresh (ts ++ [t0]) c) as [c1 log]. simpl in *.
    rewrite <- Hpol in Hnd, He.
    destruct (hold_pulse_ms (Some until) t refresh) as [q|] eqn:Eq.
    2: { by rewrite hold_pulse_eq in Eq. }
    destruct (tick_hold t ttl timeout refresh c1 e q) as [H1 H2]; try done; [by rewrite Hun|].
    set (r := tick t ttl timeout refresh c1) in *. rewrite Hsent in H2. simpl in H2.
    split; [by rewrite H1|]. unfold pulsing. simpl.
    destruct (Z.leb_spec refresh (t - s)).
    + destruct H2 as [H2 H3]. exists t, q. split; [done|]. split; [lia|]. split; [lia|].
      split; [done|]. apply elem_of_app. right. apply list_elem_of_fmap.
      by exists (Hold (e_id e) q).
    + exists s, p. split; [done|]. split; [lia|]. split; [lia|]. split; [done|].
      apply elem_of_app. by left.
Qed.

(** C13. An Open Access hold never drops: with a loop that runs at least once
    within the pulse's margin, at every instant from one pass to the latest the
    next may come -- up to the last millisecond of the window -- the door is
    under a pulse some pass has sent. *)
Theorem hold_never_drops ttl timeout refresh ts t c e until x :
  refresh_fits refresh -> 0 < refresh -> NoDup (e_id <$> entries (policy c)) ->
  e ∈ entries (policy c) -> e_enabled e = true -> e_hold_until e = Some until ->
  hold_sent c !! e_id e = None -> Sorted Z.le (ts ++ [t]) -> t < until ->
  t <= x <= t + seconds HOLD_PULSE_MARGIN_SECS - millis 1 -> x < until - millis 1 ->
  exists s p, (s, Hold (e_id e) p) ∈ (run_ticks ttl timeout refresh (ts ++ [t]) c).2 /\
    s <= x < s + millis p.
Proof.
  intros Hfit Hpos Hnd He Hen Hun Hnone Hs Ht Hx Hxu.
  destruct (run_ticks_pulsing ttl timeout refresh ts t c e until)
    as [_ (s & p & _ & Hst & Hfresh & Hp & Hin)]; try done.
  exists s, p. split; [done|].
  pose proof (hold_pulse_eq until s refresh Hfit ltac:(lia)) as E. rewrite Hp in E.
  injection E as ->. destruct Hfit as [H1 H2]. unfold seconds, HOLD_PULSE_MARGIN_SECS in *.
  set (d := Z.min _ (until - s)). pose proof (num_milliseconds_bounds d ltac:(lia)) as Hb.
  unfold millis in *. lia.
Qed.

End Cache.
End Resources.
