(* ===== verification/EdgeController.v ===== *)
(** * The edge as a whole ([edge/src/mqtt.rs], [edge/src/edge_inbound.rs], the
    tasks of [edge/src/main.rs])

    The handlers of the local broker's messages, the dispatcher of the server's,
    the polls and the one loop, as functions from the edge's state to its state
    and what it sends.  Deserialization is serde's, HMAC the hmac crate's, the
    network's answers arguments of the events that carry them. *)
From S2P Require Import Prelude Wire EdgeModules EdgePower EdgeToolGuard EdgeResources.
Import Wire ToolGuard Doors Resources.

Module Controller.

(** [serde_json::from_slice], one function per type read off the wire. *)
Class Serde {U : Uuid} := {
  de_name : string -> option string;
  de_policy : string -> option ResourcePolicyPayload;
  de_sync : string -> option SyncPayload;
  de_power_state : string -> option PowerStatePayload;
  de_module_state : string -> option ToolModuleStatePayload;
  de_doors : string -> option DoorStateSnapshot;
  de_unlock : string -> option UnlockCommand;
  de_scan : string -> option LocalScan;
  de_stop : string -> option LocalStop;
  de_usage : string -> option LocalUsage;
  de_power : string -> option LocalPower;
  de_alive : string -> option LocalAliveRequest;
}.

Section Controller.
Context {U : Uuid} {S : Serde}.
(** chrono's parser, the MAC, and the order [HashMap] iterates the draw table. *)
Context (parse_rfc3339 : string -> option instant).
Context (sign : string -> string -> string).
Context (iter : gmap string (f64 * instant) -> list (string * (f64 * instant))).

(** ** What the edge sends *)

Inductive effect : Type :=
  | PublishReply (r : LocalScanReply)
  | PublishOk (topic : string)
  | PublishLease (l : ResourceLeasePayload)
  | PublishState (p : SyncPayload)
  | NotifyRefresh
  | ReportDoor (e : DoorsEvent)
  | PostScan (resource card : string)
  | AskScan (resource card : string)
  | PostStop (resource : string) (card : option string)
  | PostUsage (resource : string) (seconds : f64) (card : option string)
      (active_seconds temperature : option f64)
  | PostTrip (circuit : string)
  | PostPower (report : LocalPower)
  | PostAlive (device : string).

Definition publish_scan_reply (resource : string) (authorized : bool) (reason : string)
    (pulse_ms : option Z) : effect :=
  PublishReply (LocalScanReply_new resource authorized reason pulse_ms).

(** ** State *)

(** [cache]: the shared caches.  [asking]: the scans awaiting the server's
    answer, each with the kind and the instant read before asking.
    [unlocks]: the channel from the dispatcher to the local broker. *)
Record Edge := MkEdge {
  cache : ResourceCache;
  asking : list (LocalScan * Kind * instant);
  unlocks : list UnlockCommand;
  command_key : option string;
  device_name : string;
}.

Definition with_cache c e := MkEdge c (asking e) (unlocks e) (command_key e) (device_name e).
Definition with_asking a e := MkEdge (cache e) a (unlocks e) (command_key e) (device_name e).
Definition with_unlocks u e := MkEdge (cache e) (asking e) u (command_key e) (device_name e).
Definition with_name n e := MkEdge (cache e) (asking e) (unlocks e) (command_key e) n.

Definition on_wiring (f : ModuleState.Inner -> ModuleState.Inner) (c : ResourceCache)
    : ResourceCache := with_wiring (f (wiring c)) c.
Definition on_power (f : PowerState.Inner -> PowerState.Inner) (c : ResourceCache)
    : ResourceCache := with_power (f (power c)) c.

(** ** A badge *)

(** The server's answer to a scan it decides. *)
Inductive answer : Type :=
  | Unreachable
  | Unreadable (err : string)
  | Answered (status : Z) (body : json).

Definition remote_outcome (a : answer) : bool * string * option Z :=
  match a with
  | Unreachable => (false, "server unreachable"%string, None)
  | Unreadable err => (false, "server response unreadable: " +:+ err, None)
  | Answered _ body =>
      let authorized := default false
        (option_or (json_get body "authorized") (json_get body "tool_on") ≫= json_as_bool) in
      let reason := default (if authorized then "authorized" else "denied")%string
        (json_get body "message" ≫= json_as_str) in
      let strike := as_i32 <$> (s ← json_get body "strike"; p ← json_get s "pulse_ms";
                                json_as_i64 p) in
      (authorized, reason, strike)
  end.

Definition report_door_event (key : option string) (door_id : uuid) (card : string)
    (granted : bool) (reason : option string) (now : instant) : effect :=
  ReportDoor {|
    de_door_id := door_id;
    de_card_id := Some card;
    de_granted := granted;
    de_reason := reason;
    de_source := "rfid";
    de_occurred_at := now;
    de_sig := (fun k => sign k (doors_event_message (uuid_show door_id) card granted "rfid"))
                <$> key;
  |}.

(** The rest of [handle_scan] once the outcome is known. *)
Definition finish_scan (req : LocalScan) (kind : Kind) (now : instant)
    (outcome : bool * string * option Z) (e : Edge) : Edge * list effect :=
  let '(authorized, reason, strike) := outcome in
  let reply := publish_scan_reply (scan_resource req) authorized reason strike in
  let c := if authorized then open_session (scan_resource req) now (cache e) else cache e in
  let report :=
    match kind with
    | Door =>
        match uuid_parse (scan_resource req) with
        | Some id => [report_door_event (command_key e) id (scan_card req) authorized
                        (if authorized then None else Some reason) now]
        | None => []
        end
    | Tool =>
        if authorized && negb (requires_online c (scan_resource req))
        then [PostScan (scan_resource req) (scan_card req)] else []
    end in
  (with_cache c e, reply :: report).

Definition scan_kind (c : ResourceCache) (name : string) : Kind :=
  match resolve c name with Some r => res_kind r | None => Tool end.

(** Up to the decision, and through to the end unless the server is asked. *)
Definition handle_scan (req : LocalScan) (now : instant) (e : Edge) : Edge * list effect :=
  let kind := scan_kind (cache e) (scan_resource req) in
  match decide (cache e) (scan_resource req) (scan_card req) now with
  | Allow strike => finish_scan req kind now (true, "authorized"%string, strike) e
  | Deny why => finish_scan req kind now (false, why, None) e
  | AskServer =>
      (with_asking (asking e ++ [(req, kind, now)]) e,
       [AskScan (scan_resource req) (scan_card req)])
  end.

(** An answer arrives for the [n]th scan in flight. *)
Definition handle_answer (n : nat) (a : answer) (e : Edge) : Edge * list effect :=
  match asking e !! n with
  | None => (e, [])
  | Some (req, kind, now) =>
      finish_scan req kind now (remote_outcome a) (with_asking (delete n (asking e)) e)
  end.

(** ** The other local messages *)

Definition handle_stop (req : LocalStop) (now : instant) (e : Edge) : Edge * list effect :=
  (with_cache (close_session (stop_resource req) now (cache e)) e,
   [PublishOk STOP_RESPONSE; PostStop (stop_resource req) (stop_card req)]).

Definition handle_usage (req : LocalUsage) (e : Edge) : Edge * list effect :=
  (e, [PublishOk USAGE_RESPONSE;
       PostUsage (usage_resource req) (default f64_zero (usage_seconds req)) (usage_card req)
         (usage_active_seconds req) (usage_temperature req)]).

Definition handle_alive (req : LocalAliveRequest) (now : instant) (e : Edge)
    : Edge * list effect :=
  (with_cache (on_wiring (fun i => (ModuleState.note_device_seen (alive_device_id req) now i).1)
     (cache e)) e,
   [PostAlive (alive_device_id req)]).

(** What a power report writes, in order: liveness, relay state, draw. *)
Definition note_power (req : LocalPower) (now : instant) (c : ResourceCache) : ResourceCache :=
  let c := match power_device_id req with
           | Some d => on_wiring (fun i => (ModuleState.note_device_seen d now i).1) c
           | None => c
           end in
  let c := match power_device_id req, relay_on req with
           | Some d, Some on => on_wiring (ModuleState.note_relay_state d on now) c
           | _, _ => c
           end in
  match draw_now req with
  | Some draw => on_power (PowerState.record_draw (power_resource req) draw now) c
  | None => c
  end.

Definition fast_trip (c : ResourceCache) : ResourceCache * list string :=
  let over := PowerState.evaluate_overages_in (iter (PowerState.latest_draw (power c))) (power c) in
  (foldl (fun c circuit => on_power (PowerState.mark_tripped circuit) c) c over, over).

Definition handle_power (req : LocalPower) (now : instant) (e : Edge) : Edge * list effect :=
  let '(c, over) := fast_trip (note_power req now (cache e)) in
  (with_cache c e, (PostTrip <$> over) ++ [PostPower req; PublishOk POWER_REPORT_RESPONSE]).

Definition handle_refresh_request (e : Edge) : Edge * list effect :=
  (e, match get_state (allow_list (cache e)) with
      | Some p => [PublishState p; NotifyRefresh]
      | None => [NotifyRefresh]
      end).

(** [LocalMqttClient::handle_message]. *)
Definition handle_message (topic payload : string) (now : instant) (e : Edge)
    : Edge * list effect :=
  if topic ≟ KIOSK_REFRESH_REQUEST then handle_refresh_request e
  else if topic ≟ SCAN_REQUEST then
    match de_scan payload with Some r => handle_scan r now e | None => (e, []) end
  else if topic ≟ STOP_REQUEST then
    match de_stop payload with Some r => handle_stop r now e | None => (e, []) end
  else if topic ≟ USAGE_REQUEST then
    match de_usage payload with Some r => handle_usage r e | None => (e, []) end
  else if topic ≟ POWER_REPORT_REQUEST then
    match de_power payload with Some r => handle_power r now e | None => (e, []) end
  else if topic ≟ RESOURCE_ALIVE_REQUEST then
    match de_alive payload with Some r => handle_alive r now e | None => (e, []) end
  else (e, []).

(** ** The server's messages *)

(** A command is authentic for a device holding a key when its signature is the
    MAC of what it says. *)
Definition unlock_ok (key : option string) (cmd : UnlockCommand) : bool :=
  match key with
  | None => true
  | Some k =>
      is_some_and (uc_sig cmd) (verify sign k
        (doors_unlock_message (uuid_show (uc_door_id cmd)) (uc_duration_ms cmd) (uc_reason cmd)))
  end.

(** [EdgeInbound::dispatch]. *)
Definition dispatch (kind payload : string) (now : instant) (e : Edge) : Edge :=
  let on f := with_cache (f (cache e)) e in
  if kind ≟ kind_NAME then
    match de_name payload with Some n => with_name n e | None => e end
  else if kind ≟ kind_RESOURCE_POLICY then
    match de_policy payload with
    | Some p => on (apply_policy parse_rfc3339 p None) | None => e end
  else if kind ≟ kind_TOOLGUARD_STATE then
    match de_sync payload with Some p => on (apply_sync_alias p None) | None => e end
  else if kind ≟ kind_POWER_STATE then
    match de_power_state payload with
    | Some p => on (on_power (PowerState.apply_state p)) | None => e end
  else if kind ≟ kind_MODULE_STATE then
    match de_module_state payload with
    | Some p => on (on_wiring (ModuleState.apply_state p now)) | None => e end
  else if kind ≟ kind_DOORS_STATE then
    match de_doors payload with Some d => on (apply_doors_alias d) | None => e end
  else if kind ≟ kind_DOORS_UNLOCK then
    match de_unlock payload with
    | Some cmd => if unlock_ok (command_key e) cmd then with_unlocks (unlocks e ++ [cmd]) e else e
    | None => e
    end
  else e.

(** The bridge of [main]: one command from the channel to the local broker. *)
Definition bridge_unlock (e : Edge) : Edge * list effect :=
  match unlocks e with
  | [] => (e, [])
  | cmd :: rest =>
      (with_unlocks rest e,
       [publish_scan_reply (uuid_show (uc_door_id cmd)) true (uc_reason cmd)
          (Some (uc_duration_ms cmd))])
  end.

(** The lease engine's task: one arrival off the allow-list's channel. *)
Definition reconcile_arrival (now : instant) (e : Edge) : Edge :=
  match take_arrival (allow_list (cache e)) with
  | None => e
  | Some (a, tg) =>
      with_cache (reconcile (sa_payload a) now (sa_requested_at a)
        (with_allow_list tg (cache e))) e
  end.

Definition deliver (a : TickAction) : effect :=
  match a with
  | Lease l => PublishLease (ModuleState.to_payload l)
  | Hold door pulse => publish_scan_reply (uuid_show door) true "open_access" (Some pulse)
  end.

Definition one_loop (now : instant) (ttl timeout : duration) (e : Edge) : Edge * list effect :=
  let '(c, actions) := tick now ttl timeout (seconds HOLD_REFRESH_SECS) (cache e) in
  (with_cache c e, deliver <$> actions).

(** ** Everything that happens to an edge *)

Inductive event : Type :=
  | EvLocal (topic payload : string) (now : instant)
  | EvAnswer (n : nat) (a : answer)
  | EvServer (kind payload : string) (now : instant)
  | EvBridge
  | EvPolicyPoll (body : string) (requested : instant)
  | EvPowerPoll (p : PowerStatePayload)
  | EvModulePoll (p : ToolModuleStatePayload) (requested now : instant)
  | EvArrival (now : instant)
  | EvLoop (now : instant) (ttl timeout : duration).

Definition handle (ev : event) (e : Edge) : Edge * list effect :=
  match ev with
  | EvLocal topic payload now => handle_message topic payload now e
  | EvAnswer n a => handle_answer n a e
  | EvServer kind payload now => (dispatch kind payload now e, [])
  | EvBridge => bridge_unlock e
  | EvPolicyPoll body requested =>
      (match de_policy body with
       | Some p => with_cache (apply_policy parse_rfc3339 p (Some requested) (cache e)) e
       | None => e
       end, [])
  | EvPowerPoll p => (with_cache (on_power (PowerState.apply_state p) (cache e)) e, [])
  | EvModulePoll p requested now =>
      (with_cache (on_wiring (ModuleState.apply_state_at p (Some requested) now) (cache e)) e, [])
  | EvArrival now => (reconcile_arrival now e, [])
  | EvLoop now ttl timeout => one_loop now ttl timeout e
  end.

Definition run (evs : list event) (e : Edge) : Edge := foldl (fun e ev => (handle ev e).1) e evs.

(** A booted edge: its caches empty but for the session grace. *)
Definition booted (grace : duration) (d : option digester) (key : option string) (name : string)
    : Edge :=
  MkEdge (new (ModuleState.set_local_session_grace grace ModuleState.new) (new_with_notify d)
    PowerState.new) [] [] key name.

(** [main]'s session grace: twice the sync interval, ten seconds at least.
    ([saturating_mul] saturates at 64 bits.) *)
Definition session_grace (sync_interval_secs : Z) : duration :=
  seconds (Z.max (Z.min (sync_interval_secs * 2) (2 ^ 63 - 1)) 10).

(** ** Invariants of a run *)

Lemma run_invariant (I : Edge -> Prop) evs e :
  (forall ev e, I e -> I (handle ev e).1) -> I e -> I (run evs e).
Proof.
  intros Hstep. revert e. induction evs as [|ev evs IH]; intros e He; simpl; [done|].
  by apply IH, Hstep.
Qed.

(** What a step does to the parts of the state that are not the caches. *)
Lemma finish_scan_frame req kind now o e :
  let r := (finish_scan req kind now o e).1 in
  asking r = asking e /\ unlocks r = unlocks e /\ command_key r = command_key e.
Proof. by destruct o as [[a ?] ?]. Qed.

(** What a step may add to the scans in flight and to the unlock channel. *)
(** A step that leaves the scans in flight and the unlock channel alone. *)
Ltac frame := simpl; split; [done|]; split; by left.

Lemma handle_frame ev e :
  let e' := (handle ev e).1 in
  command_key e' = command_key e /\
  (forall x, x ∈ asking e' -> x ∈ asking e \/
     decide (cache e) (scan_resource x.1.1) (scan_card x.1.1) x.2 = AskServer) /\
  (forall cmd, cmd ∈ unlocks e' -> cmd ∈ unlocks e \/ unlock_ok (command_key e) cmd = true).
Proof.
  destruct ev; simpl.
  - unfold handle_message. repeat case_match; try (by frame).
    unfold handle_scan. destruct (decide _ _ _ _) eqn:E.
    1,2: unfold finish_scan; by frame.
    simpl. split; [done|]. split; [|by left].
    intros x [Hx | ->%list_elem_of_singleton]%elem_of_app; [by left | by right].
  - unfold handle_answer. destruct (asking e !! n) as [[[req kind] now]|] eqn:E;
      [|by frame].
    destruct (finish_scan_frame req kind now (remote_outcome a)
      (with_asking (delete n (asking e)) e)) as (-> & -> & ->). simpl.
    split; [done|]. split; [|by left]. intros x Hx. left.
    apply list_elem_of_lookup in Hx as [m Hm].
    destruct (decide_rel (<)%nat m n).
    + rewrite list_lookup_delete_lt in Hm by done. by eapply list_elem_of_lookup_2.
    + rewrite list_lookup_delete_ge in Hm by lia. by eapply list_elem_of_lookup_2.
  - unfold dispatch. repeat case_match; try apply (Hcache (cache e)); try by frame.
    simpl. split; [done|]. split; [by left|].
    intros cmd [Hc | ->%list_elem_of_singleton]%elem_of_app; [by left | by right].
  - unfold bridge_unlock. destruct (unlocks e) as [|cmd rest] eqn:E; simpl; rewrite ?E.
    + split; [done|]. split; by left.
    + split; [done|]. split; [by left|]. intros c Hc. left. by right.
  - case_match; by frame.
  - by frame.
  - by frame.
  - unfold reconcile_arrival. case_match; [|by frame].
    case_match. by frame.
  - unfold one_loop. destruct (tick _ _ _ _ _). by frame.
Qed.

(** ** Every yes has a cause *)

(** Why a reply on the scan topic may say yes, at the event that sends it. *)
Inductive cause (evs : list event) (start : Edge) : event -> LocalScanReply -> Prop :=
  | cause_decided payload now req strike :
      de_scan payload = Some req ->
      decide (cache (run evs start)) (scan_resource req) (scan_card req) now = Allow strike ->
      cause evs start (EvLocal SCAN_REQUEST payload now)
        (LocalScanReply_new (scan_resource req) true "authorized" strike)
  | cause_answered n status body req now before reason strike :
      before `prefix_of` evs ->
      decide (cache (run before start)) (scan_resource req) (scan_card req) now = AskServer ->
      remote_outcome (Answered status body) = (true, reason, strike) ->
      cause evs start (EvAnswer n (Answered status body))
        (LocalScanReply_new (scan_resource req) true reason strike)
  | cause_commanded cmd :
      unlock_ok (command_key start) cmd = true ->
      cause evs start EvBridge
        (LocalScanReply_new (uuid_show (uc_door_id cmd)) true (uc_reason cmd)
          (Some (uc_duration_ms cmd)))
  | cause_held now ttl timeout entry until pulse :
      entry ∈ entries (policy (cache (run evs start))) -> e_enabled entry = true ->
      e_hold_until entry = Some until -> now < until ->
      cause evs start (EvLoop now ttl timeout)
        (LocalScanReply_new (uuid_show (e_id entry)) true "open_access" (Some pulse)).

(** The scans in flight were all handed to the server; the commands in the
    channel are all authentic. *)
Definition accounted (evs : list event) (start : Edge) (e : Edge) : Prop :=
  command_key e = command_key start /\
  (forall x, x ∈ asking e -> exists before, before `prefix_of` evs /\
     decide (cache (run before start)) (scan_resource x.1.1) (scan_card x.1.1) x.2 = AskServer) /\
  (forall cmd, cmd ∈ unlocks e -> unlock_ok (command_key start) cmd = true).

Lemma run_snoc evs ev e : run (evs ++ [ev]) e = (handle ev (run evs e)).1.
Proof. unfold run. by rewrite foldl_app. Qed.

Lemma run_accounted evs start :
  asking start = [] -> unlocks start = [] -> accounted evs start (run evs start).
Proof.
  intros Ha Hu. induction evs as [|ev evs IH] using rev_ind.
  - split; [done|]. simpl. rewrite Ha, Hu. split; intros x Hx; inversion Hx.
  - destruct IH as (Hk & Hasked & Hok). rewrite run_snoc.
    destruct (handle_frame ev (run evs start)) as (Hk' & Hasked' & Hok').
    split; [by rewrite Hk'|]. split.
    + intros x [Hx | Hx]%Hasked'.
      * destruct (Hasked x Hx) as (before & Hp & Hd). exists before. split; [|done].
        by apply prefix_app_r.
      * exists evs. split; [by apply prefix_app_r | done].
    + intros cmd [Hc | Hc]%Hok'; [by apply Hok | by rewrite <- Hk].
Qed.

Lemma finish_scan_reply req kind now a reason strike e r :
  PublishReply r ∈ (finish_scan req kind now (a, reason, strike) e).2 ->
  r = LocalScanReply_new (scan_resource req) a reason strike.
Proof.
  unfold finish_scan. simpl. intros [[= ->] | H]%elem_of_cons; [done|]. exfalso.
  destruct kind; repeat case_match; try by inversion H.
  all: apply list_elem_of_singleton in H; by inversion H.
Qed.

Definition is_reply (f : effect) : bool :=
  match f with PublishReply _ => true | _ => false end.

Lemma no_reply l r : existsb is_reply l = false -> PublishReply r ∉ l.
Proof.
  intros H Hin. assert (existsb is_reply l = true) as E; [|congruence].
  apply existsb_elem. by exists (PublishReply r).
Qed.

(** Of the local messages only a scan is replied to on the scan topic. *)
Lemma handle_message_reply topic payload now e r :
  PublishReply r ∈ (handle_message topic payload now e).2 ->
  exists req, topic = SCAN_REQUEST /\ de_scan payload = Some req /\
    PublishReply r ∈ (handle_scan req now e).2.
Proof.
  unfold handle_message. intros H.
  assert (forall l, existsb is_reply l = false -> PublishReply r ∈ l -> False) as Hno
    by (intros l Hl Hin; by eapply no_reply).
  destruct (topic ≟ KIOSK_REFRESH_REQUEST).
  { exfalso. eapply Hno, H. simpl. by case_match. }
  destruct (topic ≟ SCAN_REQUEST) eqn:Et.
  { split_andb. destruct (de_scan payload) as [req|]; [by exists req|].
    exfalso. by eapply Hno, H. }
  exfalso. eapply Hno, H. clear H Hno.
  repeat (case_match; simpl; try done).
  rewrite existsb_app. simpl. rewrite orb_false_r.
  by induction (PowerState.evaluate_overages_in _ _).
Qed.

Lemma hold_actions now ttl timeout refresh c d p :
  Hold d p ∈ (tick now ttl timeout refresh c).2 ->
  exists e until, e ∈ entries (policy c) /\ e_enabled e = true /\ e_id e = d /\
    e_hold_until e = Some until /\ now < until.
Proof.
  unfold tick. destruct (ModuleState.tick _ _ _ _) as [w leases].
  assert (forall l acc, Hold d p ∈ (foldl (send_hold now refresh) acc l).2 ->
    Hold d p ∈ acc.2 \/ d ∈ l.*1) as Hf.
  { induction l as [|[d' p'] l IH]; intros [sent out]; cbn [foldl]; [by left|].
    intros [H | H]%IH; [|right; by right]. simpl in H.
    destruct (is_none_or _ _); simpl in H; [|by left].
    apply elem_of_app in H as [H | [= -> ->]%list_elem_of_singleton]; [by left|].
    right. by left. }
  destruct (foldl _ _ _) as [sent out] eqn:E. simpl. intros H.
  assert (Hold d p ∈ (sent, out).2) as H' by done. rewrite <- E in H'.
  apply Hf in H' as [H' | H'].
  { simpl in H'. apply list_elem_of_fmap in H' as (? & ? & _). done. }
  apply list_elem_of_fmap in H' as ([d' q] & -> & Hin).
  unfold hold_pulses_at in Hin. apply list_elem_of_omap in Hin as (e & He & Hq).
  apply elem_of_lfilter in He as [He Hen]. destruct (hold_pulse_ms _ _ _) eqn:Ep; [|done].
  simplify_eq/=. unfold hold_pulse_ms in Ep.
  destruct (e_hold_until e) as [until|] eqn:Eu; [|done]. simpl in Ep.
  destruct (Z.leb_spec (until - now) 0); [done|].
  exists e, until. repeat split; try done. lia.
Qed.

(** C1. Every yes has a cause.  Whatever reaches an edge since it booted, in
    whatever order, each positive reply it publishes -- the only message that
    releases a latch -- is the answer to a badge its own decision lets in, the
    server's yes to a badge it was asked about, a command whose signature was
    checked if the edge holds a key, or the pulse of a door that is enabled and
    inside its Open Access window; and it carries that cause's pulse. *)
Theorem every_yes_has_a_cause evs start ev r :
  asking start = [] -> unlocks start = [] ->
  PublishReply r ∈ (handle ev (run evs start)).2 -> reply_authorized r = true ->
  cause evs start ev r.
Proof.
  intros Ha Hu. destruct (run_accounted evs start Ha Hu) as (Hk & Hasked & Hok).
  set (e := run evs start) in *. destruct ev; simpl; intros Hr Hyes;
    try by inversion Hr.
  - destruct (handle_message_reply _ _ _ _ _ Hr) as (req & -> & Hp & Hs).
    unfold handle_scan in Hs. destruct (decide _ _ _ _) eqn:Ed.
    + apply finish_scan_reply in Hs as ->. by eapply cause_decided.
    + apply finish_scan_reply in Hs as ->. done.
    + simpl in Hs. apply list_elem_of_singleton in Hs. done.
  - unfold handle_answer in Hr. destruct (asking e !! n) as [[[req kind] now]|] eqn:E;
      [|by inversion Hr].
    destruct (remote_outcome a) as [[auth reason] strike] eqn:Eo.
    apply finish_scan_reply in Hr as ->. simpl in Hyes. subst auth.
    destruct (Hasked _ (list_elem_of_lookup_2 _ _ _ E)) as (before & Hp & Hd).
    destruct a as [| |status body]; [done | done|].
    by eapply cause_answered.
  - unfold bridge_unlock in Hr. destruct (unlocks e) as [|cmd rest] eqn:E; simpl in Hr;
      [by inversion Hr|].
    apply list_elem_of_singleton in Hr as [= ->].
    apply cause_commanded. apply Hok. left.
  - unfold one_loop in Hr. destruct (tick _ _ _ _ _) as [c actions] eqn:Et. simpl in Hr.
    apply list_elem_of_fmap in Hr as ([l | d p] & Hd & Hin); [done|].
    injection Hd as ->. assert (Hold d p ∈ (c, actions).2) as Hin' by done.
    rewrite <- Et in Hin'. apply hold_actions in Hin' as (x & until & ? & ? & <- & ? & ?).
    by eapply cause_held.
Qed.

(** ** What the server's answer is taken for *)

(** A scan the server decides is let in exactly when its answer's body says
    [authorized: true], or says nothing of [authorized] and [tool_on: true]; a
    missing, unreadable or differently typed answer refuses.  The status of the
    response plays no part. *)
Lemma remote_yes_iff a :
  (remote_outcome a).1.1 = true <->
  exists status body, a = Answered status body /\
    (json_get body "authorized" = Some (JBool true) \/
     json_get body "authorized" = None /\ json_get body "tool_on" = Some (JBool true)).
Proof.
  destruct a as [| |status body]; simpl.
  - split; [done|]. by intros (? & ? & ? & _).
  - split; [done|]. by intros (? & ? & ? & _).
  - assert (forall v : option json, default false (v ≫= json_as_bool) = true <->
      v = Some (JBool true)) as Hv.
    { intros [[]|]; simpl; try done. split; [by intros -> | by intros [= ->]]. }
    rewrite Hv. unfold option_or.
    destruct (json_get body "authorized") as [v|] eqn:E; split.
    + intros [= ->]. by exists status, body; split; [|left].
    + by intros (? & ? & [= <- <-] & [H | [H _]]); rewrite E in H.
    + intros H. by exists status, body; split; [|right].
    + by intros (? & ? & [= <- <-] & [H | [_ H]]); [rewrite E in H|].
Qed.

(** ** The interlock inputs of a running edge *)

Lemma finish_scan_readings req kind now o e :
  ModuleState.readings (wiring (cache (finish_scan req kind now o e).1)) =
  ModuleState.readings (wiring (cache e)).
Proof. destruct o as [[[] ?] ?]; done. Qed.

Lemma fast_trip_wiring c : wiring (fast_trip c).1 = wiring c.
Proof.
  unfold fast_trip. simpl. generalize (PowerState.evaluate_overages_in
    (iter (PowerState.latest_draw (power c))) (power c)) as over.
  intros over. revert c. induction over as [|x over IH]; intros c; simpl; [done|].
  by rewrite IH.
Qed.

Lemma note_power_readings req now c :
  ModuleState.readings (wiring (note_power req now c)) = ModuleState.readings (wiring c).
Proof. unfold note_power. by repeat case_match. Qed.

Lemma tick_readings now ttl timeout i :
  ModuleState.readings (ModuleState.tick now ttl timeout i).1 = ModuleState.readings i.
Proof.
  unfold ModuleState.tick. generalize (ModuleState.tools i) as ts. generalize (@nil ModuleState.LeaseAction).
  intros out ts. revert i out. induction ts as [|t ts IH]; intros i out; cbn [foldl]; [done|].
  destruct (ModuleState.tick_tool_core now ttl timeout i out t) as [[Hs Hr _ _ _ _ _ _] _].
  destruct (ModuleState.tick_tool _ _ _ _ _) as [j o]. rewrite IH. apply Hr.
Qed.

Lemma handle_readings ev e :
  ModuleState.readings (wiring (cache (handle ev e).1)) = ModuleState.readings (wiring (cache e)).
Proof.
  destruct ev; simpl.
  - unfold handle_message. repeat case_match; try done.
    + unfold handle_scan. destruct (decide _ _ _ _); [apply finish_scan_readings.. | done].
    + unfold handle_power. destruct (fast_trip _) as [c over] eqn:E. simpl.
      assert (c = (c, over).1) as -> by done. rewrite <- E, fast_trip_wiring.
      apply note_power_readings.
  - unfold handle_answer. destruct (asking e !! n) as [[[req kind] now]|]; [|done].
    by rewrite finish_scan_readings.
  - unfold dispatch, apply_policy, apply_doors_alias. by repeat case_match.
  - unfold bridge_unlock. by case_match.
  - case_match; [|done]. simpl. unfold apply_policy. by case_match.
  - done.
  - done.
  - unfold reconcile_arrival. by repeat case_match.
  - unfold one_loop, tick. pose proof (tick_readings now ttl timeout (wiring (cache e))) as H.
    destruct (ModuleState.tick _ _ _ _) as [w leases]. simpl in H.
    by destruct (foldl _ _ _).
Qed.

(** A tool with an interlock is never energized by a running edge: nothing
    that reaches it records a reading, so in every state it can get to since
    boot, every evaluation of a wired tool that has any interlock rule denies. *)
Theorem interlocked_tool_never_allowed evs grace d key name tool w rule now timeout :
  let i := wiring (cache (run evs (booted grace d key name))) in
  ModuleState.resolved i tool = Some w -> rule ∈ interlocks w ->
  ModuleState.evaluate i tool now timeout <> ModuleState.Allow.
Proof.
  intros i Hr Hin.
  assert (ModuleState.readings i = ∅) as Hempty.
  { apply (run_invariant (fun e => ModuleState.readings (wiring (cache e)) = ∅)); [|done].
    intros ev e He. by rewrite handle_readings. }
  unfold ModuleState.evaluate, ModuleState.resolved in *.
  destruct (ModuleState.snapshot i) as [s|]; [|done]. simpl in Hr. rewrite Hr.
  destruct (ModuleState.latched i !! _); [done|].
  destruct (ModuleState.offline_fail_off _ _ _ _); [done|].
  destruct (ModuleState.check_rules _ _ _ _) eqn:Ec; [done|].
  rewrite ModuleState.check_rules_None in Ec. specialize (Ec _ Hin).
  unfold ModuleState.satisfied in Ec. rewrite Hempty in Ec. done.
Qed.

(** ** The fast-trip *)

Definition is_power_snapshot (ev : event) : bool :=
  match ev with
  | EvPowerPoll _ => true
  | EvServer kind _ _ => kind ≟ kind_POWER_STATE
  | _ => false
  end.

Lemma fast_trip_power c :
  rtc PowerState.quiet_step (power c) (power (fast_trip c).1) /\
  forall x, x ∈ (fast_trip c).2 -> x ∈ PowerState.local_tripped (power (fast_trip c).1).
Proof.
  unfold fast_trip. simpl. generalize (PowerState.evaluate_overages_in
    (iter (PowerState.latest_draw (power c))) (power c)) as over.
  assert (forall over c, PowerState.local_tripped (power c) ⊆ PowerState.local_tripped
    (power (foldl (fun c x => on_power (PowerState.mark_tripped x) c) c over))) as Hmono.
  { induction over as [|x over IH]; intros c0; simpl; [done|].
    etrans; [|apply IH]. simpl. set_solver. }
  intros over. revert c. induction over as [|x over IH]; intros c; simpl.
  - split; [done|]. intros ? H. inversion H.
  - destruct (IH (on_power (PowerState.mark_tripped x) c)) as [H1 H2]. split.
    + eapply rtc_l; [|exact H1]. constructor.
    + intros y [-> | Hy]%elem_of_cons; [|by apply H2]. apply Hmono. simpl. set_solver.
Qed.

Lemma note_power_quiet req now c :
  rtc PowerState.quiet_step (power c) (power (note_power req now c)).
Proof.
  unfold note_power. destruct (draw_now req); [apply rtc_once|];
    repeat case_match; simpl; try done; constructor.
Qed.

Lemma handle_quiet ev e :
  is_power_snapshot ev = false ->
  rtc PowerState.quiet_step (power (cache e)) (power (cache (handle ev e).1)).
Proof.
  destruct ev; simpl; intros Hp; try done.
  - unfold handle_message. repeat case_match; try done.
    + unfold handle_scan. destruct (decide _ _ _ _); [| |done];
        unfold finish_scan; simpl; done.
    + unfold handle_power. destruct (fast_trip _) as [c over] eqn:E. simpl.
      assert (c = (c, over).1) as -> by done. rewrite <- E.
      etrans; [apply note_power_quiet | apply fast_trip_power].
  - unfold handle_answer. destruct (asking e !! n) as [[[req kind] now]|]; [|done].
    destruct (remote_outcome a) as [[[] ?] ?]; done.
  - unfold dispatch, apply_policy, apply_doors_alias. rewrite Hp. by repeat case_match.
  - unfold bridge_unlock. by case_match.
  - case_match; [|done]. simpl. unfold apply_policy. by case_match.
  - unfold reconcile_arrival. by repeat case_match.
  - unfold one_loop, tick. destruct (ModuleState.tick _ _ _ _) as [w leases].
    by destruct (foldl _ _ _).
Qed.

(** A fast-trip refuses every badge on the circuit from the report that
    caused it on: whatever happens until the next power snapshot, a scan of any
    tool the snapshot puts on the circuit, under either name, is denied as
    locked out. *)
Theorem fast_trip_denies_badges req now evs e circuit snap name t card later :
  let tripped := handle_power req now e in
  PostTrip circuit ∈ tripped.2 ->
  PowerState.snapshot (power (cache e)) = Some snap ->
  PowerState.resolve snap name = Some t -> pt_circuit_id t = Some circuit ->
  Forall (fun ev => is_power_snapshot ev = false) evs ->
  decide (cache (run evs tripped.1)) name card later = Deny LOCKED_OUT.
Proof.
  intros tripped Hpost Hs Hr Ht Hevs.
  assert (rtc PowerState.quiet_step (power (cache tripped.1))
    (power (cache (run evs tripped.1)))) as Hq.
  { generalize tripped.1. clear - Hevs. induction Hevs as [|ev evs Hev _ IH]; intros e0; simpl;
      [done|]. etrans; [by apply handle_quiet | apply IH]. }
  subst tripped. unfold handle_power in *.
  pose proof (note_power_quiet req now (cache e)) as Hn.
  destruct (fast_trip_power (note_power req now (cache e))) as [H1 H2].
  destruct (fast_trip _) as [c over]. simpl in *.
  assert (circuit ∈ over) as Hover.
  { apply elem_of_app in Hpost as [Hp | Hp].
    - apply list_elem_of_fmap in Hp as (x & Hx & Hin). by injection Hx as ->.
    - rewrite !elem_of_cons in Hp. destruct Hp as [? | [? | Hp]]; [done..|]. inversion Hp. }
  assert (PowerState.snapshot (power c) = Some snap) as Hsc.
  { rewrite <- Hs. apply PowerState.quiet_keeps. by etrans. }
  unfold decide. destruct (PowerState.quiet_sticky _ _ Hq) as [_ Hl].
  by rewrite (Hl circuit snap name t (H2 _ Hover) Hsc Hr Ht).
Qed.

(** The loop that renews leases never asks about a power lockout: whatever
    is locked out or tripped, a pass sends the same leases and leaves the lease
    engine in the same state.  A trip refuses badges; it does not end a session
    that is running. *)
Lemma loop_ignores_lockout now ttl timeout refresh c p :
  (tick now ttl timeout refresh (with_power p c)).2 = (tick now ttl timeout refresh c).2 /\
  wiring (tick now ttl timeout refresh (with_power p c)).1 =
  wiring (tick now ttl timeout refresh c).1.
Proof.
  unfold tick. simpl. destruct (ModuleState.tick _ _ _ _) as [w leases].
  change (hold_pulses_at (with_power p c) now refresh) with (hold_pulses_at c now refresh).
  by destruct (foldl _ _ _).
Qed.

(** An unlock signature is good for one command only: under a MAC without
    collisions, and with ids that print without bars, two commands a device's
    key accepts with the same signature are for the same door, the same time and
    the same reason. *)
Theorem unlock_signature_binds k cmd cmd' s :
  (forall u : uuid, bar ∉ chars (uuid_show u)) ->
  (forall m m', sign k m = sign k m' -> m = m') ->
  uc_sig cmd = Some s -> uc_sig cmd' = Some s ->
  unlock_ok (Some k) cmd = true -> unlock_ok (Some k) cmd' = true ->
  uc_door_id cmd = uc_door_id cmd' /\ uc_duration_ms cmd = uc_duration_ms cmd' /\
  uc_reason cmd = uc_reason cmd'.
Proof.
  intros Hbar Hmac Hs Hs'. unfold unlock_ok, verify. rewrite Hs, Hs'. simpl.
  rewrite !constant_time_str_eq_spec, !bool_decide_eq_true. intros <- Heq.
  apply Hmac, doors_unlock_message_inj in Heq as (Hd & Ht & Hr); [|apply Hbar..].
  split; [|done]. apply (f_equal uuid_parse) in Hd. rewrite !uuid_parse_show in Hd.
  by simplify_eq.
Qed.

End Controller.
End Controller.
