(* ===== verification/EdgeWitnesses.v ===== *)
(** * A small shop: the edge's theorems at concrete inputs

    One tool on a 20 A circuit, one door inside an Open Access window, one
    member whose card digests to ["digest-card-7"], and an edge that holds a
    command key. *)
From Stdlib Require Import Sorted.
From S2P Require Import Prelude Text Wire EdgeModules EdgeTraces EdgePower EdgeToolGuard EdgeResources EdgeController.

(** * A wired laser cutter: the lease engine's theorems at concrete inputs

    One tool with two power bindings (the laser's plug in stage 0 and its
    extractor in stage 1, which runs on for a minute), a usage sensor, a gate on
    the lid and a latching, debounced trip on flame. *)
Import Wire ModuleState ModuleTraces.

Module LaserExample.

Definition binding (id device role name : string) (stage run_on : Z) : DeviceBinding := {|
  binding_id := id; binding_device_id := device; binding_role := role;
  binding_name := name; binding_params := JNull; binding_on_disconnect := "hold_last";
  start_stage := stage; start_delay_ms := 0; run_on_ms := run_on; pulse_ms := 0;
  hold_open_access := false |}.

Definition lid : ToolInterlockRule := {|
  rule_id := "r1"; rule_kind := "start_gate"; rule_condition := "lid_open";
  rule_source_module_id := None; debounce_ms := 0; rule_latch := false;
  rule_reset := "re_auth"; rule_enforcement := "edge" |}.

Definition flame : ToolInterlockRule := {|
  rule_id := "r2"; rule_kind := "trip"; rule_condition := "flame";
  rule_source_module_id := None; debounce_ms := 500; rule_latch := true;
  rule_reset := "operator_ack"; rule_enforcement := "edge" |}.

Definition laser : ToolModuleTool := {|
  tool_id := "tool-1"; external_id := Some "laser"; tool_kind := "tool";
  tool_session_profile := "until_stopped"; tool_in_use := false;
  modules := [binding "b1" "plug-1" "power" "plug" 0 0;
              binding "b2" "fan-1" "power" "extractor" 1 60000;
              binding "b3" "meter-1" "sensor" "meter" 0 0];
  interlocks := [lid; flame]; power_fails_safe := false |}.

Definition wired : ToolModuleStatePayload := {|
  tms_as_of := "2026-01-01T00:00:00Z"; tms_tools := [laser] |}.

Definition at_ (n : Z) : instant := seconds n.
Definition ttl : duration := seconds 15.
Definition timeout : duration := seconds 60.

(** Wired, nothing observed, nobody signed on. *)
Definition idle : Inner := apply_state wired (at_ 0) new.
(** Both conditions read clear since second one. *)
Definition clear : Inner :=
  observe "tool-1" "flame" false (at_ 1) (observe "tool-1" "lid_open" false (at_ 1) idle).
(** A member signed on at second two, under the tool's short name. *)
Definition signed_on : Inner := open_session "laser" (at_ 2) None clear.
(** Second three: the first pass; the plug then confirms, and the fan starts. *)
Definition running : Inner :=
  (tick (at_ 5) ttl timeout (note_relay_state "plug-1" true (at_ 4)
    (tick (at_ 3) ttl timeout signed_on).1)).1.
(** The member signs off at second ten. *)
Definition signed_off : Inner := close_session "laser" (at_ 10) running.
Definition spinning_down : Inner := (tick (at_ 11) ttl timeout signed_off).1.

Lemma wired_wf : wiring_wf wired.
Proof. apply (bool_decide_unpack _). by vm_compute. Qed.

(** What the passes send, in order. *)
Definition shown (l : list LeaseAction) : list (string * bool * option string) :=
  (fun a => (la_device_id a, la_grant a, la_reason a)) <$> l.

Example first_pass : shown (tick (at_ 3) ttl timeout signed_on).2 =
  [("plug-1", true, None); ("meter-1", true, None)].
Proof. vm_compute. reflexivity. Qed.

Example running_pass : shown (tick (at_ 6) ttl timeout running).2 =
  [("plug-1", true, None); ("fan-1", true, None); ("meter-1", true, None)].
Proof. vm_compute. reflexivity. Qed.

Example off_pass : shown (tick (at_ 11) ttl timeout signed_off).2 =
  [("plug-1", false, Some "NotInUse"); ("fan-1", true, None);
   ("meter-1", false, Some "NotInUse")].
Proof. vm_compute. reflexivity. Qed.

(** ** Witnesses *)

Lemma tick_grants_are_backed_witness :
  backed signed_on wired (at_ 3) timeout (mk_lease "tool-1" ttl "plug-1" true None).
Proof.
  apply (tick_grants_are_backed (at_ 3) ttl timeout signed_on wired).
  - reflexivity.
  - exact wired_wf.
  - apply list_elem_of_lookup_2 with (i := 0%nat). vm_compute. reflexivity.
  - reflexivity.
Defined.

Lemma evaluate_allow_iff_witness :
  evaluate signed_on "laser" (at_ 3) timeout = Allow <->
  latched signed_on !! tool_id laser = None /\
  (forall m, m ∈ modules laser -> live signed_on (at_ 3) timeout m) /\
  (forall r, r ∈ interlocks laser ->
     satisfied signed_on (tool_id laser) r (at_ 3) = Some true) /\
  in_use signed_on (tool_id laser) (at_ 3) = true.
Proof. apply (evaluate_allow_iff signed_on wired "laser" laser); reflexivity. Defined.

Lemma observe_settles_witness :
  satisfied (observe "tool-1" "flame" true (at_ 8) (observe "tool-1" "flame" true (at_ 7) clear))
    "tool-1" flame (at_ 8) = Some false.
Proof.
  apply (observe_settles clear "tool-1" flame true (at_ 7) (at_ 8) (at_ 8)).
  - vm_compute. discriminate.
  - vm_compute. discriminate.
  - vm_compute. discriminate.
Defined.

Lemma glitch_inverts_debounce_witness :
  satisfied (observe "tool-1" "flame" true (at_ 9)
    (observe "tool-1" "flame" false (at_ 8) (observe "tool-1" "flame" true (at_ 5) clear)))
    "tool-1" flame (at_ 9 + millis 400) = Some true.
Proof.
  apply (glitch_inverts_debounce (observe "tool-1" "flame" true (at_ 5) clear)
    "tool-1" flame true (at_ 8) (at_ 9)).
  - reflexivity.
  - vm_compute. reflexivity.
  - split; vm_compute; [discriminate | reflexivity].
Defined.

Lemma renew_latches_iff_witness :
  let burning := observe "tool-1" "flame" true (at_ 5) signed_on in
  latched (renew "laser" (at_ 6) ttl timeout burning).1 !! tool_id laser = Some "flame" <->
  latched burning !! tool_id laser = Some "flame" \/
  latched burning !! tool_id laser = None /\
  (forall m, m ∈ modules laser -> live burning (at_ 6) timeout m) /\
  (exists pre r post, interlocks laser = pre ++ r :: post /\
    (forall q, q ∈ pre -> satisfied burning (tool_id laser) q (at_ 6) = Some true) /\
    satisfied burning (tool_id laser) r (at_ 6) = Some false /\
    rule_kind r = KIND_TRIP /\ rule_condition r = "flame"%string) /\
  latches laser "flame" = true.
Proof.
  apply (renew_latches_iff (observe "tool-1" "flame" true (at_ 5) signed_on) wired
    "laser" laser); vm_compute; reflexivity.
Defined.

Lemma observation_by_alias_is_lost_witness :
  evaluate (observe "laser" "flame" false (at_ 2) idle) "laser" (at_ 5) timeout <> Allow.
Proof.
  apply (observation_by_alias_is_lost idle wired laser "laser" lid (at_ 5) timeout "laser").
  - reflexivity.
  - reflexivity.
  - discriminate.
  - reflexivity.
  - apply list_elem_of_here.
  - intros c. reflexivity.
Defined.

Lemma latched_until_reset_witness :
  let burnt := (renew "laser" (at_ 6) ttl timeout
    (observe "tool-1" "flame" true (at_ 5) signed_on)).1 in
  let later := observe "tool-1" "flame" false (at_ 7) burnt in
  is_latched later "tool-1" = true /\
  forall tool w now tmo, resolved later tool = Some w -> tool_id w = "tool-1"%string ->
    exists cond, evaluate later tool now tmo = Deny (Latched cond).
Proof.
  intros burnt later.
  apply (latched_until_reset "tool-1" (MkConfig burnt Idle []) (MkConfig later Idle [])).
  - vm_compute. reflexivity.
  - apply rtc_once. apply (where_call _ (CallObserve "tool-1" "flame" false (at_ 7))).
    discriminate.
Defined.

Lemma stale_sync_cannot_reopen_witness :
  let after := reconcile_sessions ["laser"] ["laser"] (at_ 11) (at_ 9) signed_off in
  in_use after "tool-1" (at_ 12) = false /\
  forall tool t, resolved after tool = Some t -> tool_id t = "tool-1"%string ->
    evaluate after tool (at_ 12) timeout <> Allow.
Proof.
  intros after.
  apply (stale_sync_cannot_reopen "laser" (at_ 10) running Idle [] (MkConfig after Idle [])).
  apply rtc_once. apply (where_call _ (CallReconcile ["laser"] ["laser"] (at_ 11) (at_ 9))).
  split; vm_compute; reflexivity.
Defined.

Lemma run_on_is_bounded_witness :
  exists b, b ∈ power_bindings laser /\ "fan-1"%string = binding_device_id b /\
    0 < run_on_ms b /\ at_ 40 < at_ 11 + millis (run_on_ms b).
Proof.
  apply (run_on_is_bounded ttl timeout wired laser wired_wf (list_elem_of_here _ _)
    (at_ 5) (at_ 11) (at_ 40)
    (note_relay_state "plug-1" true (at_ 4) (tick (at_ 3) ttl timeout signed_on).1)
    signed_off spinning_down (mk_lease "tool-1" ttl "fan-1" true None)).
  - vm_compute. reflexivity.
  - vm_compute. reflexivity.
  - apply rtc_once. apply (call_only (CallClose "laser" (at_ 10))). reflexivity.
  - vm_compute. discriminate.
  - apply rtc_refl.
  - vm_compute. discriminate.
  - apply list_elem_of_lookup_2 with (i := 1%nat). vm_compute. reflexivity.
  - reflexivity.
  - reflexivity.
Defined.

(** The run of an edge in which one pass allows the laser; its history. *)
Definition the_pass : Pass := MkPass (at_ 3) ttl timeout.
Definition turn : Config := MkConfig signed_on (Turn the_pass ["tool-1"]) [].
Definition decided : Config := MkConfig signed_on (Decided the_pass "tool-1" Allow []) [].
Definition committed : Config :=
  MkConfig (renew_commit "tool-1" (at_ 3) ttl Allow signed_on)
    (Committed the_pass "tool-1" Allow []) [].
Definition history : list Config :=
  [committed; decided; turn; MkConfig signed_on Idle []; MkConfig clear Idle [];
   MkConfig (observe "tool-1" "lid_open" false (at_ 1) idle) Idle [];
   MkConfig idle Idle []; MkConfig new Idle []].

Lemma the_run : execution history.
Proof.
  apply exec_step. 2: { apply step_watchdog. apply (step_commit the_pass). }
  apply exec_step. 2: { apply step_watchdog. exact (step_eval the_pass "tool-1" [] signed_on []). }
  apply exec_step. 2: { apply step_watchdog. exact (step_start the_pass signed_on []). }
  apply exec_step. 2: { apply (step_call (CallOpen "laser" (at_ 2) None)). }
  apply exec_step. 2: { apply (step_call (CallObserve "tool-1" "flame" false (at_ 1))). }
  apply exec_step. 2: { apply (step_call (CallObserve "tool-1" "lid_open" false (at_ 1))). }
  apply exec_step. 2: { apply (step_call (CallApply wired None (at_ 0))). }
  apply exec_init.
Qed.

Lemma lease_has_recent_allow_witness :
  exists e e' p name rest,
    e ∈ history /\ place e = Turn p (name :: rest) /\
    evaluate (inner e) name (pass_now p) (pass_timeout p) = Allow /\
    e' ∈ history /\
    tool_key (inner e') name = tool_key (inner committed) "laser" /\
    at_ 17 < pass_now p + pass_ttl p.
Proof.
  apply (lease_has_recent_allow (tail history) committed "laser" (at_ 17)).
  - exact the_run.
  - vm_compute. reflexivity.
Defined.

End LaserExample.

Import Wire ToolGuard Doors Resources Controller F64Parse.

Module ShopExample.

#[local] Existing Instance string_uuid.

Definition at_ (n : Z) : instant := seconds n.
(** Whole seconds since the epoch, in decimal, as the timestamp format. *)
Definition stamp (s : string) : option instant :=
  if s ≟ "t50" then Some (at_ 50) else if s ≟ "t100" then Some (at_ 100) else None.

Definition pepper : digester := fun card => Some ("digest-" +:+ card).

Definition saw : SyncTool := {|
  st_id := "saw-uuid"; st_external_id := Some "saw"; st_name := "Saw"; st_status := Idle;
  st_requires_online := false |}.
Definition alice : SyncUser := {|
  su_digest := "digest-card-7"; su_full_name := "Alice"; su_is_active := true;
  su_authorized := ["saw-uuid"] |}.
Definition sync : SyncPayload := {|
  sp_device_id := "edge-1"; sp_profile_field := "card"; sp_tools := [saw];
  sp_users := [alice] |}.

Definition front : CompiledDoor := {|
  cd_id := "front-uuid"; cd_name := "Front"; cd_enabled := true;
  unlock_duration_ms := 5000; allow_cards := []; deny_cards := [];
  hold_unlock_until := Some (at_ 500) |}.
Definition doors : DoorStateSnapshot := {| snapshot_at := at_ 100; snap_doors := [front] |}.

Definition circuit : PowerStateCircuit := {| circuit_id := "c1"; amperage_limit := "20.0" |}.
Definition power_tool : PowerStateTool := {|
  pt_id := "saw-uuid"; pt_external_id := Some "saw"; pt_circuit_id := Some "c1" |}.
Definition power_state : PowerStatePayload := {|
  ps_as_of := "t50"; locked_tool_ids := []; ps_circuits := [circuit]; ps_tools := [power_tool] |}.

Definition amps (s : string) : f64 := default f64_zero (parse_f64 s).

Definition unlock : UnlockCommand := {|
  uc_door_id := "front-uuid"; uc_duration_ms := 5000; uc_reason := "staff";
  uc_sig := Some "key/doors/unlock|front-uuid|5000|staff" |}.
(** A MAC without collisions, for the example: the key and the message. *)
Definition toy_mac (key message : string) : string := key +:+ "/" +:+ message.

Definition scan : LocalScan := {| scan_resource := "saw"; scan_card := "card-7" |}.

#[local] Instance serde : Serde := {|
  de_name := Some;
  de_policy := fun _ => None;
  de_sync := fun s => if s ≟ "sync" then Some sync else None;
  de_power_state := fun s => if s ≟ "power" then Some power_state else None;
  de_module_state := fun s => if s ≟ "wired" then Some LaserExample.wired else None;
  de_doors := fun s => if s ≟ "doors" then Some doors else None;
  de_unlock := fun s => if s ≟ "unlock" then Some unlock else None;
  de_scan := fun s => if s ≟ "scan" then Some scan else None;
  de_stop := fun _ => None;
  de_usage := fun _ => None;
  de_power := fun _ => None;
  de_alive := fun _ => None;
|}.

Definition boot : Edge := booted (session_grace 30) (Some pepper) (Some "key"%string) "edge".
Definition server_sends (kind body : string) : event := EvServer kind body (at_ 100).
Definition set_up : list event :=
  [server_sends kind_TOOLGUARD_STATE "sync"; server_sends kind_POWER_STATE "power";
   server_sends kind_DOORS_STATE "doors"; server_sends kind_MODULE_STATE "wired"].
Definition shop : Edge := run stamp toy_mac map_to_list set_up boot.

Definition over : LocalPower := {|
  power_resource := "saw"; power_device_id := None; relay_on := Some true;
  draw_now := Some (amps "21.5"); voltage_now := None; max_voltage := None;
  power_amperage_limit := None; self_tripped := None |}.

(** ** What the shop does *)

Example a_member_is_let_in : (handle_scan toy_mac scan (at_ 101) shop).2 =
  [publish_scan_reply "saw" true "authorized" None; PostScan "saw" "card-7"].
Proof. vm_compute. reflexivity. Qed.

Example an_overdraw_trips : (handle_power map_to_list over (at_ 101) shop).2 =
  [PostTrip "c1"; PostPower over; PublishOk POWER_REPORT_RESPONSE].
Proof. vm_compute. reflexivity. Qed.

Definition loop_effects : list effect := (one_loop (at_ 101) (seconds 15) (seconds 60) shop).2.

Example the_door_is_held :
  PublishReply (LocalScanReply_new "front-uuid" true "open_access" (Some 45000)) ∈ loop_effects.
Proof. apply list_elem_of_lookup_2 with (i := 3%nat). vm_compute. reflexivity. Qed.

(** ** Witnesses *)

Definition tripping : PowerState.Inner :=
  PowerState.record_draw "saw" (amps "21.5") (at_ 101)
    (PowerState.apply_state power_state PowerState.new).

Lemma evaluate_overages_iff_witness :
  let entries := map_to_list (PowerState.latest_draw tripping) in
  "c1"%string ∈ PowerState.evaluate_overages_in entries tripping <->
  exists circuit limit, circuit ∈ ps_circuits power_state /\ circuit_id circuit = "c1"%string /\
    parse_f64 (amperage_limit circuit) = Some limit /\
    f64_gt (PowerState.circuit_sum power_state entries "c1") limit = true /\
    "c1"%string ∉ PowerState.local_tripped tripping.
Proof. apply (PowerState.evaluate_overages_iff _ tripping power_state). reflexivity. Defined.

Lemma hold_pulse_bounds_witness :
  match hold_pulse_ms (Some (at_ 120)) (at_ 101) (seconds 30) with
  | None => forall until, Some (at_ 120) = Some until -> until <= at_ 101
  | Some p => exists until, Some (at_ 120) = Some until /\ at_ 101 < until /\
      1 <= p < 2 ^ 31 /\
      (at_ 101 + millis p <= until \/ p = 1 /\ until - at_ 101 < millis 1) /\
      Z.min (at_ 101 + seconds 30 + seconds HOLD_PULSE_MARGIN_SECS) until - millis 1
        < at_ 101 + millis p
  end.
Proof. apply hold_pulse_bounds. split; vm_compute; [discriminate | reflexivity]. Defined.

Definition no_pepper : ResourceCache :=
  apply_sync_alias sync None (apply_doors_alias doors
    (new ModuleState.new (with_digester None) PowerState.new)).

Lemma no_pepper_admits_nobody_witness :
  exists e until, find (policy no_pepper) "front-uuid" = Some e /\
    e_hold_until e = Some until /\ at_ 101 < until.
Proof.
  apply (no_pepper_admits_nobody no_pepper "front-uuid" "any card" (at_ 101) (Some 5000)).
  - reflexivity.
  - intros m Hm. apply list_elem_of_singleton in Hm as ->. discriminate.
  - intros e He. apply elem_of_cons in He as [-> | He].
    + intros H. inversion H.
    + apply list_elem_of_singleton in He as ->. intros H. inversion H.
  - vm_compute. reflexivity.
Defined.

Lemma decide_refines_check_access_witness :
  let c0 := new ModuleState.new (with_digester (Some pepper)) PowerState.new in
  let c := apply_sync_alias sync None c0 in
  decide c "saw" "card-7" (at_ 1) =
  spoken (check_access (allow_list c) "card-7" "saw") (strike_of c "saw")
    (find_first (tool_named "saw") (sp_tools sync)).
Proof.
  intros c0 c.
  apply (decide_refines_check_access sync None c0 "saw" "card-7" (at_ 1) "digest-card-7").
  - reflexivity.
  - reflexivity.
  - intros e He. inversion He.
  - reflexivity.
Defined.

Definition older : DoorStateSnapshot := {| snapshot_at := at_ 50; snap_doors := [] |}.
Definition old_policy : ResourcePolicyPayload := {|
  rpp_device_id := "edge-1"; rpp_as_of := "t50"; rpp_profile_field := "card";
  rpp_resources := []; rpp_principals := [] |}.

Lemma replay_is_ignored_witness :
  let c := apply_doors_alias doors (new ModuleState.new (with_digester None) PowerState.new) in
  let c' := foldl (take_in stamp) c [InSync sync None] in
  (snapshot_at older < at_ 100 -> apply_doors_alias older c' = c') /\
  (stamp (rpp_as_of old_policy) = Some (at_ 50) -> at_ 50 < at_ 100 ->
   apply_policy stamp old_policy None c' = c').
Proof.
  intros c. apply (replay_is_ignored stamp (at_ 100) [InSync sync None] c older old_policy None).
  exists (at_ 100). split; [reflexivity | lia].
Defined.

Lemma hold_never_drops_witness :
  let c := apply_doors_alias doors (new ModuleState.new (with_digester None) PowerState.new) in
  exists s p, (s, Hold "front-uuid" p) ∈
      (run_ticks (seconds 15) (seconds 60) (seconds 30) ([at_ 101; at_ 111; at_ 121] ++ [at_ 131]) c).2 /\
    s <= at_ 145 < s + millis p.
Proof.
  intros c.
  apply (hold_never_drops (seconds 15) (seconds 60) (seconds 30) [at_ 101; at_ 111; at_ 121]
    (at_ 131) c (from_compiled_door front) (at_ 500) (at_ 145)).
  - split; vm_compute; [discriminate | reflexivity].
  - reflexivity.
  - apply NoDup_singleton.
  - apply list_elem_of_here.
  - reflexivity.
  - reflexivity.
  - reflexivity.
  - repeat constructor; vm_compute; discriminate.
  - reflexivity.
  - split; vm_compute; discriminate.
  - reflexivity.
Defined.

Lemma every_yes_has_a_cause_witness :
  cause stamp toy_mac map_to_list set_up boot (EvLocal SCAN_REQUEST "scan" (at_ 101))
    (LocalScanReply_new "saw" true "authorized" None).
Proof.
  apply (every_yes_has_a_cause stamp toy_mac map_to_list set_up boot).
  - reflexivity.
  - reflexivity.
  - apply list_elem_of_lookup_2 with (i := 0%nat). vm_compute. reflexivity.
  - reflexivity.
Defined.

Lemma interlocked_tool_never_allowed_witness :
  ModuleState.evaluate (wiring (cache shop)) "laser" (at_ 101) (seconds 60) <> ModuleState.Allow.
Proof.
  apply (interlocked_tool_never_allowed stamp toy_mac map_to_list set_up (session_grace 30)
    (Some pepper) (Some "key"%string) "edge" "laser" LaserExample.laser LaserExample.lid).
  - vm_compute. reflexivity.
  - apply list_elem_of_here.
Defined.

Lemma fast_trip_denies_badges_witness :
  decide (cache (run stamp toy_mac map_to_list [EvLocal SCAN_REQUEST "scan" (at_ 102)]
    (handle_power map_to_list over (at_ 101) shop).1)) "saw" "card-7" (at_ 103) = Deny LOCKED_OUT.
Proof.
  apply (fast_trip_denies_badges stamp toy_mac map_to_list over (at_ 101)
    [EvLocal SCAN_REQUEST "scan" (at_ 102)] shop "c1" power_state "saw" power_tool).
  - apply list_elem_of_lookup_2 with (i := 0%nat). vm_compute. reflexivity.
  - vm_compute. reflexivity.
  - vm_compute. reflexivity.
  - reflexivity.
  - repeat constructor.
Defined.

Lemma session_lasts_its_profile_witness :
  let c := apply_doors_alias doors (new ModuleState.new (with_digester None) PowerState.new) in
  ModuleState.in_use (wiring (open_session "front-uuid" (at_ 101) c)) "front-uuid" (at_ 105) =
  (at_ 105 <? at_ 101 + millis (Z.max 5000 0)).
Proof.
  intros c. apply (session_lasts_its_profile c "front-uuid" (at_ 101) (at_ 105)).
  apply not_elem_of_empty.
Defined.

(** Two identifiers, which print without bars. *)
Definition two_doors : Uuid.
Proof.
  refine {| uuid := bool; uuid_nil := false;
    uuid_parse s := if s ≟ "front" then Some true else if s ≟ "back" then Some false else None;
    uuid_show b := if (b : bool) then "front"%string else "back"%string |}.
  by intros [].
Defined.

Definition open_front : @UnlockCommand two_doors := {|
  uc_door_id := (true : @uuid two_doors); uc_duration_ms := 5000; uc_reason := "staff";
  uc_sig := Some "key/doors/unlock|front|5000|staff" |}.

Lemma unlock_signature_binds_witness :
  @uc_door_id two_doors open_front = @uc_door_id two_doors open_front /\
  uc_duration_ms open_front = uc_duration_ms open_front /\
  uc_reason open_front = uc_reason open_front.
Proof.
  apply (@unlock_signature_binds two_doors toy_mac "key" open_front open_front
    "key/doors/unlock|front|5000|staff").
  - intros [].
    + apply (bool_decide_unpack _). vm_compute. exact I.
    + apply (bool_decide_unpack _). vm_compute. exact I.
  - intros m m' H. apply (f_equal chars) in H. unfold toy_mac in H.
    rewrite !chars_app in H. apply app_inv_head, app_inv_head in H. by apply chars_inj.
  - reflexivity.
  - reflexivity.
  - vm_compute. reflexivity.
  - vm_compute. reflexivity.
Defined.

End ShopExample.
