(* ===== verification/Rbac.v ===== *)
(** * The role graph ([server/src/rbac.rs])

    [RoleGraph]: each role's own permissions, its inheritance edges, its tier
    level.  What a set of roles may do is the union over every role reachable by
    inheritance; the traversals run on fuel, and enough fuel is proved to be
    there. *)
From stdpp Require Import relations.
From S2P Require Import Prelude.

Module Rbac.

Section Rbac.
Context {U : Uuid}.

Record RoleGraph := MkGraph {
  own_perms : gmap uuid (gset string);
  inherits : gmap uuid (list uuid);
  level : gmap uuid Z;
  by_name : gmap string uuid;
}.

Definition empty_graph : RoleGraph := MkGraph ∅ ∅ ∅ ∅.

(** [entry(k).or_default()], then a change of the value there. *)
Definition or_default {V} (d : V) (k : uuid) (f : V -> V) (m : gmap uuid V) : gmap uuid V :=
  <[k := f (default d (m !! k))]> m.

Definition add_role (g : RoleGraph) (row : uuid * string * Z) : RoleGraph :=
  let '(id, name, lvl) := row in
  MkGraph (or_default ∅ id (fun s => s) (own_perms g))
    (or_default [] id (fun l => l) (inherits g))
    (<[id := lvl]> (level g)) (<[name := id]> (by_name g)).

Definition add_perm (g : RoleGraph) (row : uuid * string) : RoleGraph :=
  MkGraph (or_default ∅ row.1 (fun s => {[ row.2 ]} ∪ s) (own_perms g))
    (inherits g) (level g) (by_name g).

Definition add_edge (g : RoleGraph) (row : uuid * uuid) : RoleGraph :=
  MkGraph (own_perms g) (or_default [] row.1 (fun l => l ++ [row.2]) (inherits g))
    (level g) (by_name g).

Definition from_rows (roles : list (uuid * string * Z)) (perms : list (uuid * string))
    (edges : list (uuid * uuid)) : RoleGraph :=
  foldl add_edge (foldl add_perm (foldl add_role empty_graph roles) perms) edges.

Definition role_id (g : RoleGraph) (name : string) : option uuid := by_name g !! name.

Definition level_of_name (g : RoleGraph) (name : string) : option Z :=
  id ← by_name g !! name; level g !! id.

(** The traversal: [stack] with its top first, so a role's parents go on in
    reverse and the last of them is taken next. *)
Fixpoint closure_loop (g : RoleGraph) (fuel : nat) (stack : list uuid) (seen : gset uuid)
    : option (gset uuid) :=
  match stack with
  | [] => Some seen
  | r :: rest =>
      match fuel with
      | O => None
      | S fuel =>
          if bool_decide (r ∈ seen) then closure_loop g fuel rest seen
          else closure_loop g fuel (rev (default [] (inherits g !! r)) ++ rest) ({[ r ]} ∪ seen)
      end
  end.

(** The edges of the roles not seen yet. *)
Definition edges_left (g : RoleGraph) (seen : gset uuid) : nat :=
  map_fold (fun _ ps n => (n + length ps)%nat) 0%nat
    (filter (fun kv : uuid * list uuid => kv.1 ∉ seen) (inherits g)).

Definition closure_fuel (g : RoleGraph) (roles : list uuid) : nat :=
  (length roles + edges_left g ∅)%nat.

Definition closure (g : RoleGraph) (roles : list uuid) : gset uuid :=
  default ∅ (closure_loop g (closure_fuel g roles) (rev roles) ∅).

Definition effective_permissions (g : RoleGraph) (roles : list uuid) : gset string :=
  ⋃ ((fun r => default ∅ (own_perms g !! r)) <$> elements (closure g roles)).

Definition has_permission (g : RoleGraph) (roles : list uuid) (key : string) : bool :=
  bool_decide (key ∈ effective_permissions g roles).

Definition effective_permissions_by_names (g : RoleGraph) (names : list string) : gset string :=
  effective_permissions g (omap (fun n => by_name g !! n) names).

Definition has_permission_for_role_name (g : RoleGraph) (name key : string) : bool :=
  match by_name g !! name with
  | Some id => has_permission g [id] key
  | None => false
  end.

(** [Iterator::max] over levels, with the fallback of zero. *)
Definition max_level (ls : list Z) : Z :=
  match ls with [] => 0 | l :: ls => foldl Z.max l ls end.

Definition effective_level (g : RoleGraph) (roles : list uuid) : Z :=
  max_level (omap (fun r => level g !! r) (elements (closure g roles))).

(** ** The cycle check *)

Inductive colour : Type := White | Grey | Black.

#[local] Instance colour_eq_dec : EqDecision colour.
Proof. solve_decision. Defined.

#[local] Abbreviation marks := (gmap uuid colour).

Definition colour_of (m : marks) (n : uuid) : colour := default White (m !! n).

(** The loop over one role's parents; [rec] is [dfs] on one of them. *)
Fixpoint visit (rec : uuid -> marks -> option (bool * marks)) (ps : list uuid) (m : marks)
    : option (bool * marks) :=
  match ps with
  | [] => Some (false, m)
  | p :: ps =>
      match colour_of m p with
      | Grey => Some (true, m)
      | White =>
          match rec p m with
          | Some (false, m) => visit rec ps m
          | r => r
          end
      | Black => visit rec ps m
      end
  end.

Fixpoint dfs (g : RoleGraph) (fuel : nat) (n : uuid) (m : marks) : option (bool * marks) :=
  match fuel with
  | O => None
  | S fuel =>
      match visit (dfs g fuel) (default [] (inherits g !! n)) (<[n := Grey]> m) with
      | Some (false, m) => Some (false, <[n := Black]> m)
      | r => r
      end
  end.

(** The outer loop, over the keys in whatever order they come. *)
Fixpoint cycle_loop (g : RoleGraph) (fuel : nat) (nodes : list uuid) (m : marks) : option bool :=
  match nodes with
  | [] => Some false
  | n :: nodes =>
      match colour_of m n with
      | White =>
          match dfs g fuel n m with
          | Some (false, m) => cycle_loop g fuel nodes m
          | Some (true, _) => Some true
          | None => None
          end
      | _ => cycle_loop g fuel nodes m
      end
  end.

(** Every role an edge mentions. *)
Definition universe (g : RoleGraph) : gset uuid :=
  dom (inherits g) ∪ list_to_set (mjoin ((map_to_list (inherits g)).*2)).

Definition has_cycle_in (g : RoleGraph) (nodes : list uuid) : bool :=
  default true (cycle_loop g (S (size (universe g))) nodes ((fun _ => White) <$> inherits g)).

Definition has_cycle (g : RoleGraph) : bool := has_cycle_in g (elements (dom (inherits g))).

(** ** Inheritance, as a relation *)

Definition edge (g : RoleGraph) (r p : uuid) : Prop :=
  exists ps, inherits g !! r = Some ps /\ p ∈ ps.

Lemma edge_parents g r p : edge g r p <-> p ∈ default [] (inherits g !! r).
Proof.
  unfold edge. destruct (inherits g !! r) as [ps|]; simpl; [naive_solver|].
  split; [by intros (? & ? & _) | intros H; inversion H].
Qed.

(** ** The closure is reachability *)

Lemma edges_left_step g seen r :
  r ∉ seen ->
  (edges_left g ({[ r ]} ∪ seen) + length (default [] (inherits g !! r)) = edges_left g seen)%nat.
Proof.
  intros Hr. unfold edges_left.
  set (P := fun kv : uuid * list uuid => kv.1 ∉ seen).
  assert (filter (fun kv : uuid * list uuid => kv.1 ∉ {[ r ]} ∪ seen) (inherits g) =
    delete r (filter P (inherits g))) as ->.
  { apply map_eq. intros k. destruct (decide (k = r)) as [->|Hne].
    - rewrite lookup_delete_eq. apply map_lookup_filter_None. right. intros ps _. simpl.
      set_solver.
    - rewrite lookup_delete_ne by done. apply option_eq. intros ps.
      rewrite !map_lookup_filter_Some. subst P. simpl. set_solver. }
  destruct (inherits g !! r) as [ps|] eqn:E; simpl.
  - assert (filter P (inherits g) !! r = Some ps) as Hl.
    { apply map_lookup_filter_Some. by split. }
    rewrite (map_fold_delete_L _ _ r ps (filter P (inherits g))); [done| |done].
    intros. lia.
  - rewrite delete_id; [lia|]. apply map_lookup_filter_None. by left.
Qed.

(** What the traversal keeps true: everything seen or waiting is reachable, and
    what follows from the seen is seen or waiting. *)
Lemma closure_loop_spec g (roles : list uuid) fuel stack seen :
  (length stack + edges_left g seen <= fuel)%nat ->
  (forall r, r ∈ stack \/ r ∈ seen -> exists s, s ∈ roles /\ rtc (edge g) s r) ->
  (forall r, r ∈ roles -> r ∈ stack \/ r ∈ seen) ->
  (forall r p, r ∈ seen -> edge g r p -> p ∈ stack \/ p ∈ seen) ->
  exists res, closure_loop g fuel stack seen = Some res /\
    forall r, r ∈ res <-> exists s, s ∈ roles /\ rtc (edge g) s r.
Proof.
  revert stack seen. induction fuel as [|fuel IH]; intros [|r rest] seen Hf Hin Hroles Hclosed;
    simpl in Hf; try lia.
  1,2: exists seen; split; [done|]; intros r; split; [intros Hr; apply Hin; by right|];
    intros (s & Hs & Hrtc);
    (assert (s ∈ seen) as Hseen by (destruct (Hroles s Hs) as [H|]; [inversion H | done]));
    clear Hs; induction Hrtc as [|x y z Hxy _ IHr]; [done|];
    apply IHr; destruct (Hclosed x y Hseen Hxy) as [H|]; [inversion H | done].
  simpl. case_bool_decide as Hr.
  - apply IH; [lia | | |].
    + intros x [Hx | Hx]; apply Hin; [left; by right | by right].
    + intros x Hx. destruct (Hroles x Hx) as [[-> | H]%elem_of_cons | H]; [by right | by left | by right].
    + intros x p Hx Hp. destruct (Hclosed x p Hx Hp) as [[-> | H]%elem_of_cons | H];
        [by right | by left | by right].
  - pose proof (edges_left_step g seen r Hr) as Hstep.
    apply IH.
    + rewrite length_app, length_rev. lia.
    + intros x. rewrite elem_of_app, elem_of_union, elem_of_singleton, list_elem_of_In, <- in_rev.
      rewrite <- list_elem_of_In, <- edge_parents.
      intros [[Hx | Hx] | [-> | Hx]].
      * destruct (Hin r ltac:(left; by left)) as (s & Hs & Hsr). exists s. split; [done|].
        by eapply rtc_r.
      * apply Hin. left. by right.
      * apply Hin. left. by left.
      * apply Hin. by right.
    + intros x Hx. rewrite elem_of_app, elem_of_union, elem_of_singleton.
      destruct (Hroles x Hx) as [[-> | H]%elem_of_cons | H]; [by right; left | by left; right |].
      by right; right.
    + intros x p Hx Hp. rewrite elem_of_app, elem_of_union, elem_of_singleton.
      apply elem_of_union in Hx as [->%elem_of_singleton | Hx].
      * left; left. rewrite list_elem_of_In, <- in_rev, <- list_elem_of_In. by apply edge_parents.
      * destruct (Hclosed x p Hx Hp) as [[-> | H]%elem_of_cons | H];
          [by right; left | by left; right | by right; right].
Qed.

Lemma closure_iff g roles r :
  r ∈ closure g roles <-> exists s, s ∈ roles /\ rtc (edge g) s r.
Proof.
  unfold closure.
  destruct (closure_loop_spec g roles (closure_fuel g roles) (rev roles) ∅)
    as (res & -> & H); [..|apply H].
  - unfold closure_fuel. by rewrite length_rev.
  - intros x [Hx | Hx]; [|by apply elem_of_empty in Hx]. exists x.
    rewrite list_elem_of_In, <- in_rev, <- list_elem_of_In in Hx. by split.
  - intros x Hx. left. by rewrite list_elem_of_In, <- in_rev, <- list_elem_of_In.
  - intros x p Hx. by apply elem_of_empty in Hx.
Qed.

Lemma has_permission_spec g roles key :
  has_permission g roles key = true <->
  exists s r perms, s ∈ roles /\ rtc (edge g) s r /\ own_perms g !! r = Some perms /\ key ∈ perms.
Proof.
  unfold has_permission, effective_permissions.
  rewrite bool_decide_eq_true, elem_of_union_list. setoid_rewrite list_elem_of_fmap.
  setoid_rewrite elem_of_elements. setoid_rewrite closure_iff. split.
  - intros (X & (r & -> & s & Hs & Hr) & Hkey).
    destruct (own_perms g !! r) as [perms|] eqn:E; simpl in Hkey; [|by apply elem_of_empty in Hkey].
    by exists s, r, perms.
  - intros (s & r & perms & Hs & Hr & Hp & Hkey).
    exists perms. split; [|done]. exists r. rewrite Hp. split; [done|]. by exists s.
Qed.

(** A set of roles holds a permission exactly when some role reachable from
    it by inheritance -- through cycles too -- holds it as its own; the
    traversal always terminates with the whole reachable set. *)
Theorem has_permission_iff g roles key :
  has_permission g roles key = true <->
  exists s r perms, s ∈ roles /\ rtc (edge g) s r /\ own_perms g !! r = Some perms /\ key ∈ perms.
Proof. apply has_permission_spec. Qed.

(** More roles never mean fewer permissions. *)
Lemma effective_permissions_mono g (roles roles' : list uuid) :
  (forall r, r ∈ roles -> r ∈ roles') ->
  effective_permissions g roles ⊆ effective_permissions g roles'.
Proof.
  intros H key. unfold effective_permissions. rewrite !elem_of_union_list.
  setoid_rewrite list_elem_of_fmap. setoid_rewrite elem_of_elements.
  setoid_rewrite closure_iff. naive_solver.
Qed.

(** The level of every reachable role counts. *)
Lemma effective_level_ge g roles r l :
  r ∈ closure g roles -> level g !! r = Some l -> l <= effective_level g roles.
Proof.
  intros Hr Hl. unfold effective_level.
  assert (l ∈ omap (fun r => level g !! r) (elements (closure g roles))) as Hin.
  { apply list_elem_of_omap. exists r. split; [by apply elem_of_elements | done]. }
  assert (forall ls acc, acc <= foldl Z.max acc ls /\ forall x, x ∈ ls -> x <= foldl Z.max acc ls) as Hmax.
  { induction ls as [|y ls IH]; intros acc; simpl; [split; [lia | intros x Hx; inversion Hx]|].
    destruct (IH (Z.max acc y)) as [H1 H2]. split; [lia|].
    intros x [-> | Hx]%elem_of_cons; [lia | by apply H2]. }
  unfold max_level. destruct (omap _ _) as [|y ls]; [inversion Hin|].
  apply elem_of_cons in Hin as [-> | Hin]; [exact (proj1 (Hmax ls y)) | by apply Hmax].
Qed.

(** ** The cycle check is right *)

(** The state of the search between two steps: the grey roles all lead to the
    one being looked at, the black ones are closed and on no cycle. *)
Definition black_ok (g : RoleGraph) (m : marks) : Prop :=
  forall x, colour_of m x = Black ->
    (forall p, edge g x p -> colour_of m p = Black) /\ ~ tc (edge g) x x.

Definition grey_leads (g : RoleGraph) (m : marks) (n : uuid) : Prop :=
  forall x, colour_of m x = Grey -> rtc (edge g) x n.

(** How much white is left. *)
Definition whites (g : RoleGraph) (m : marks) : gset uuid :=
  filter (fun x => colour_of m x = White) (universe g).

Lemma colour_insert m n c x :
  colour_of (<[n := c]> m) x = if decide (n = x) then c else colour_of m x.
Proof.
  unfold colour_of. case_decide; subst; [by rewrite lookup_insert_eq | by rewrite lookup_insert_ne].
Qed.

Lemma edge_universe g r p : edge g r p -> p ∈ universe g.
Proof.
  intros (ps & Hr & Hp). unfold universe. apply elem_of_union. right.
  apply elem_of_list_to_set, list_elem_of_join. exists ps. split; [done|].
  apply list_elem_of_fmap. exists (r, ps). split; [done|]. by apply elem_of_map_to_list.
Qed.

(** The verdict of a search from [m]: a cycle exists, or the search is back to
    the greys it started from with only more black. *)
Definition verdict (g : RoleGraph) (m : marks) (r : option (bool * marks)) : Prop :=
  match r with
  | None => False
  | Some (true, _) => exists x, tc (edge g) x x
  | Some (false, m') =>
      black_ok g m' /\
      (forall x, colour_of m' x = Grey <-> colour_of m x = Grey) /\
      (forall x, colour_of m x = Black -> colour_of m' x = Black)
  end.

Lemma visit_verdict g rec n ps m :
  colour_of m n = Grey -> black_ok g m -> grey_leads g m n ->
  (forall p, p ∈ ps -> edge g n p) ->
  (forall p m', edge g n p -> colour_of m' p = White -> black_ok g m' ->
     (forall x, colour_of m' x = Grey <-> colour_of m x = Grey) ->
     (forall x, colour_of m x = Black -> colour_of m' x = Black) ->
     verdict g m' (rec p m') /\ forall m'', rec p m' = Some (false, m'') -> colour_of m'' p = Black) ->
  verdict g m (visit rec ps m) /\
  forall m', visit rec ps m = Some (false, m') -> forall p, p ∈ ps -> colour_of m' p = Black.
Proof.
  intros Hn Hb Hg Hps Hrec.
  assert (forall qs m1, black_ok g m1 ->
    (forall x, colour_of m1 x = Grey <-> colour_of m x = Grey) ->
    (forall x, colour_of m x = Black -> colour_of m1 x = Black) ->
    (forall p, p ∈ qs -> edge g n p) ->
    verdict g m (visit rec qs m1) /\
    forall m', visit rec qs m1 = Some (false, m') ->
      (forall p, p ∈ qs -> colour_of m' p = Black) /\
      (forall x, colour_of m1 x = Black -> colour_of m' x = Black)) as Hloop.
  { induction qs as [|p qs IH]; intros m1 Hb1 Hg1 Hm1 Hqs; simpl.
    { split; [done|]. intros m' [= <-]. split; [|done]. intros q Hq. inversion Hq. }
    assert (edge g n p) as Hp by (apply Hqs; by left).
    assert (forall q, q ∈ qs -> edge g n q) as Hqs' by (intros; apply Hqs; by right).
    destruct (colour_of m1 p) eqn:Ec.
    - destruct (Hrec p m1 Hp Ec Hb1 Hg1 Hm1) as [Hv Hblack].
      destruct (rec p m1) as [[[] m2]|] eqn:Er; [split; [exact Hv | done]| |done].
      destruct Hv as (Hb2 & Hg2 & Hm2).
      destruct (IH m2 Hb2) as [Hv' Hall']; [| |done|].
      + intros x. by rewrite Hg2.
      + intros x Hx. by apply Hm2, Hm1.
      + split; [done|]. intros m' Hm'. destruct (Hall' m' Hm') as [H1 H2]. split.
        * intros q [-> | Hq]%elem_of_cons; [by apply H2, Hblack | by apply H1].
        * intros x Hx. by apply H2, Hm2.
    - split; [|done]. exists n. eapply tc_rtc_r; [by apply tc_once|].
      apply Hg. by apply Hg1.
    - destruct (IH m1 Hb1 Hg1 Hm1 Hqs') as [Hv Hall]. split; [done|].
      intros m' Hm'. destruct (Hall m' Hm') as [H1 H2]. split; [|done].
      intros q [-> | Hq]%elem_of_cons; [by apply H2 | by apply H1]. }
  destruct (Hloop ps m) as [Hv Hall]; try done. split; [done|].
  intros m' Hm'. by apply Hall.
Qed.

Lemma verdict_whites g m m' :
  verdict g m (Some (false, m')) -> whites g m' ⊆ whites g m.
Proof.
  intros (_ & Hg & Hb) x. unfold whites. rewrite !elem_of_filter. intros [Hx Hu].
  split; [|done]. destruct (colour_of m x) eqn:E; [done| |].
  - apply Hg in E. congruence.
  - apply Hb in E. congruence.
Qed.

Lemma black_reach g m x y :
  black_ok g m -> colour_of m x = Black -> rtc (edge g) x y -> colour_of m y = Black.
Proof.
  intros Hb Hx Hr. induction Hr as [|x y z Hxy _ IH]; [done|].
  apply IH. by apply (proj1 (Hb x Hx)).
Qed.

(** Blackening a role whose parents are all black. *)
Lemma blacken g m n :
  black_ok g m -> colour_of m n = Grey -> (forall p, edge g n p -> colour_of m p = Black) ->
  black_ok g (<[n := Black]> m).
Proof.
  intros Hb Hn Hp x. rewrite colour_insert. case_decide as Hx; intros Hc.
  - subst x. split.
    + intros p Hnp. rewrite colour_insert. case_decide; [done | by apply Hp].
    + intros Hcyc. assert (exists p, edge g n p /\ rtc (edge g) p n) as (p & Hnp & Hpn).
      { inversion Hcyc as [? ? Hn1 | ? p ? Hn1 Hrest]; subst; eauto using tc_rtc. }
      pose proof (black_reach g m p n Hb (Hp p Hnp) Hpn). congruence.
  - destruct (Hb x Hc) as [Hb1 Hb2]. split; [|done].
    intros p Hxp. rewrite colour_insert. case_decide; [done | by apply Hb1].
Qed.

Lemma dfs_verdict g fuel n m :
  colour_of m n = White -> n ∈ universe g -> black_ok g m -> grey_leads g m n ->
  (size (whites g m) <= fuel)%nat ->
  verdict g m (dfs g fuel n m) /\
  forall m', dfs g fuel n m = Some (false, m') -> colour_of m' n = Black.
Proof.
  revert n m. induction fuel as [|fuel IH]; intros n m Hn Hu Hb Hg Hf.
  { exfalso. assert (n ∈ whites g m) as Hin by (by apply elem_of_filter).
    assert (size (whites g m) = 0%nat) as Hz by lia.
    apply size_empty_inv in Hz. set_solver. }
  simpl. set (m1 := <[n := Grey]> m).
  assert (colour_of m1 n = Grey) as Hn1 by (subst m1; rewrite colour_insert; by case_decide).
  assert (black_ok g m1) as Hb1.
  { intros x. subst m1. rewrite colour_insert. case_decide; [done|]. intros Hx.
    destruct (Hb x Hx) as [H1 H2]. split; [|done]. intros p Hp. rewrite colour_insert.
    case_decide; [|by apply H1]. subst p. apply H1 in Hp. congruence. }
  assert (forall x, colour_of m1 x = Grey -> rtc (edge g) x n) as Hg1.
  { intros x. subst m1. rewrite colour_insert. case_decide; [by subst | apply Hg]. }
  assert (whites g m1 ⊂ whites g m) as Hw1.
  { split.
    - intros x. unfold whites. rewrite !elem_of_filter. subst m1. rewrite colour_insert.
      case_decide; naive_solver.
    - intros H. assert (n ∈ whites g m1) as Hin.
      { apply H. unfold whites. by apply elem_of_filter. }
      unfold whites in Hin. apply elem_of_filter in Hin as [Hin _]. congruence. }
  apply subset_size in Hw1.
  destruct (visit_verdict g (dfs g fuel) n (default [] (inherits g !! n)) m1 Hn1 Hb1 Hg1)
    as [Hv Hall].
  { intros p Hp. by apply edge_parents. }
  { intros p m' Hp Hpw Hb' Hg' Hm'. apply IH; [done | by eapply edge_universe | done | |].
    - intros x Hx. eapply rtc_r; [|exact Hp]. apply Hg1. by apply Hg'.
    - assert (whites g m' ⊆ whites g m1) as Hsub%subseteq_size by by apply verdict_whites.
      lia. }
  destruct (visit _ _ m1) as [[[] m2]|] eqn:Ev; [split; [exact Hv | done] | | done].
  destruct Hv as (Hb2 & Hg2 & Hm2). split.
  - split; [|split].
    + apply blacken; [done | by apply Hg2|]. intros p Hp%edge_parents. by eapply Hall.
    + intros x. rewrite colour_insert. case_decide as Hx; [subst x; by rewrite Hn|].
      rewrite Hg2. subst m1. rewrite colour_insert. by case_decide.
    + intros x Hx. rewrite colour_insert. case_decide; [done|]. apply Hm2.
      subst m1. rewrite colour_insert. by case_decide.
  - intros m' [= <-]. rewrite colour_insert. by case_decide.
Qed.

Lemma cycle_loop_spec g fuel nodes m :
  (forall n, n ∈ nodes -> n ∈ universe g) -> black_ok g m ->
  (forall x, colour_of m x <> Grey) -> (size (universe g) <= fuel)%nat ->
  exists r, cycle_loop g fuel nodes m = Some r /\
    if r then exists x, tc (edge g) x x
    else exists m', black_ok g m' /\ (forall x, colour_of m x = Black -> colour_of m' x = Black) /\
      forall n, n ∈ nodes -> colour_of m' n = Black.
Proof.
  revert m. induction nodes as [|n nodes IH]; intros m Hu Hb Hng Hf; simpl.
  { exists false. split; [done|]. exists m. split; [done|]. split; [done|].
    intros n Hn. inversion Hn. }
  assert (forall k, k ∈ nodes -> k ∈ universe g) as Hu' by (intros; apply Hu; by right).
  destruct (colour_of m n) eqn:Ec.
  - destruct (dfs_verdict g fuel n m Ec) as [Hv Hblack]; [apply Hu; by left | done | | |].
    { intros x Hx. by apply Hng in Hx. }
    { etrans; [|exact Hf]. apply subseteq_size. intros x. unfold whites.
      rewrite elem_of_filter. by intros [_ ?]. }
    destruct (dfs g fuel n m) as [[[] m1]|] eqn:Ed; [by exists true| |done].
    destruct Hv as (Hb1 & Hg1 & Hm1).
    destruct (IH m1 Hu' Hb1) as (r & Hr & Hres); [|done|].
    { intros x Hx. apply Hg1 in Hx. by apply Hng in Hx. }
    exists r. split; [done|]. destruct r; [done|]. destruct Hres as (m' & H1 & H2 & H3).
    exists m'. split; [done|]. split; [naive_solver|].
    intros k [-> | Hk]%elem_of_cons; [|by apply H3]. by apply H2, Hblack.
  - by apply Hng in Ec.
  - destruct (IH m Hu' Hb Hng Hf) as (r & Hr & Hres). exists r. split; [done|].
    destruct r; [done|]. destruct Hres as (m' & H1 & H2 & H3). exists m'. split; [done|].
    split; [done|]. intros k [-> | Hk]%elem_of_cons; [by apply H2 | by apply H3].
Qed.

(** The cycle check that guards an inheritance edge is exact and always
    finishes: in whatever order it walks the roles, it answers yes exactly when
    some role inherits from itself. *)
Theorem has_cycle_iff g nodes :
  (forall n, n ∈ nodes <-> n ∈ dom (inherits g)) ->
  has_cycle_in g nodes = true <-> exists x, tc (edge g) x x.
Proof.
  intros Hnodes. unfold has_cycle_in. set (m0 := (fun _ => White) <$> inherits g).
  assert (forall x, colour_of m0 x = White) as Hw.
  { intros x. unfold colour_of, m0. rewrite lookup_fmap. by destruct (inherits g !! x). }
  destruct (cycle_loop_spec g (S (size (universe g))) nodes m0) as (r & -> & Hr).
  - intros n Hn%Hnodes. unfold universe. set_solver.
  - intros x Hx. by rewrite Hw in Hx.
  - intros x Hx. by rewrite Hw in Hx.
  - lia.
  - simpl. destruct r; [done|]. destruct Hr as (m' & Hb & _ & Hall).
    split; [done|]. intros (x & Hx). exfalso.
    assert (n_edge : exists p, edge g x p) by (inversion Hx; eauto).
    destruct n_edge as (p & ps & Hps & _).
    apply (proj2 (Hb x (Hall x (proj2 (Hnodes x) (elem_of_dom_2 _ _ _ Hps))))). done.
Qed.

End Rbac.
End Rbac.
