(* ===== verification/Schedules.v ===== *)
(** * Weekly schedules ([server/src/schedules.rs])

    Intervals on a weekday, and the instant an open window ends.  The time zone
    database (chrono-tz) is an interface: the local date and time of an instant,
    and the instants of a local date and time.  Times of day are nanoseconds. *)
From Stdlib Require Import Sorted.
From stdpp Require Import sorting.
From S2P Require Import Prelude.

Module Schedules.

Inductive DayOfWeek : Type := Mon | Tue | Wed | Thu | Fri | Sat | Sun.

#[global] Instance DayOfWeek_eq_dec : EqDecision DayOfWeek.
Proof. solve_decision. Defined.

Record ScheduleInterval := {
  iv_day : DayOfWeek;
  iv_start : Z;
  iv_end : Z;
}.

(** [chrono::LocalResult]. *)
Inductive LocalResult : Type :=
  | LNone
  | Single (ts : instant)
  | Ambiguous (earliest latest : instant).

Class TimeZone := {
  local_date : instant -> Z;
  local_time : instant -> Z;
  weekday : Z -> DayOfWeek;
  (** The instants of a local moment: a date, and nanoseconds into it that may
      be negative for the day before. *)
  from_local : Z -> Z -> LocalResult;
}.

Section Schedules.
Context {tz : TimeZone}.

(** [validate]: the index of the first interval that does not end after it starts. *)
Fixpoint validate_from (i : nat) (ivs : list ScheduleInterval) : option nat :=
  match ivs with
  | [] => None
  | iv :: ivs => if iv_end iv <=? iv_start iv then Some i else validate_from (S i) ivs
  end.

Definition validate (ivs : list ScheduleInterval) : option nat := validate_from 0%nat ivs.

Definition contains (t : Z) (iv : ScheduleInterval) : bool :=
  (iv_start iv <=? t) && (t <? iv_end iv).

Definition matches_at (ivs : list ScheduleInterval) (ts : instant) : bool :=
  existsb (fun iv => (iv_day iv ≟ weekday (local_date ts)) && contains (local_time ts) iv) ivs.

(** [day.iter().find(|iv| iv.start <= end && iv.end > end)], repeated. *)
Fixpoint extend (fuel : nat) (day : list ScheduleInterval) (e : Z) : option Z :=
  match find_first (fun iv => (iv_start iv <=? e) && (e <? iv_end iv)) day with
  | None => Some e
  | Some iv =>
      match fuel with
      | O => None
      | S fuel => extend fuel day (iv_end iv)
      end
  end.

Definition day_intervals (ivs : list ScheduleInterval) (d : DayOfWeek) : list ScheduleInterval :=
  sort_by (fun a b => iv_start a <=? iv_start b) (List.filter (fun iv => iv_day iv ≟ d) ivs).

(** The local end of the window open at the local time [t]. *)
Definition window_end (day : list ScheduleInterval) (t : Z) : option Z :=
  iv ← find_first (contains t) day;
  extend (length day) day (iv_end iv).

Definition minutes (n : Z) : Z := seconds (60 * n).

Definition active_until (ivs : list ScheduleInterval) (ts : instant) : option instant :=
  let date := local_date ts in
  e ← window_end (day_intervals ivs (weekday date)) (local_time ts);
  match from_local date e with
  | Single dt | Ambiguous dt _ => Some dt
  | LNone =>
      match from_local date (e - minutes 1) with
      | Single dt => Some dt
      | _ => None
      end
  end.

(** ** Lemmas *)

Lemma elem_of_day_intervals ivs d iv :
  iv ∈ day_intervals ivs d <-> iv ∈ ivs /\ iv_day iv = d.
Proof.
  unfold day_intervals. by rewrite elem_of_sort_by, elem_of_lfilter, bool_decide_eq_true.
Qed.

(** Open at the local time [t] of a day. *)
Definition covered (day : list ScheduleInterval) (t : Z) : Prop :=
  exists iv, iv ∈ day /\ iv_start iv <= t < iv_end iv.

Lemma contains_spec t iv : contains t iv = true <-> iv_start iv <= t < iv_end iv.
Proof. unfold contains. rewrite andb_true_iff, Z.leb_le, Z.ltb_lt. done. Qed.

(** The intervals that could still extend a window ending at [e]. *)
Definition later (day : list ScheduleInterval) (e : Z) : list ScheduleInterval :=
  List.filter (fun iv => e <? iv_end iv) day.

Lemma later_le day e e' : e <= e' -> (length (later day e') <= length (later day e))%nat.
Proof.
  intros H. unfold later. induction day as [|iv day IH]; simpl; [done|].
  destruct (Z.ltb_spec e' (iv_end iv)), (Z.ltb_spec e (iv_end iv)); simpl; lia.
Qed.

Lemma later_lt day iv e :
  iv ∈ day -> e < iv_end iv -> (length (later day (iv_end iv)) < length (later day e))%nat.
Proof.
  intros Hin Hlt. unfold later. induction day as [|x day IH]; [inversion Hin|]. simpl.
  pose proof (later_le day e (iv_end iv) ltac:(lia)) as Hle. unfold later in Hle.
  apply elem_of_cons in Hin as [<- | Hin].
  - rewrite (proj2 (Z.ltb_ge _ _)) by lia. rewrite (proj2 (Z.ltb_lt _ _)) by done. simpl. lia.
  - specialize (IH Hin).
    destruct (Z.ltb_spec (iv_end iv) (iv_end x)), (Z.ltb_spec e (iv_end x)); simpl; lia.
Qed.

(** The extension always finishes, at the first moment from [e] not covered. *)
Lemma extend_spec fuel day e :
  (length (later day e) <= fuel)%nat ->
  exists e', extend fuel day e = Some e' /\ e <= e' /\ ~ covered day e' /\
    forall t, e <= t < e' -> covered day t.
Proof.
  revert e. induction fuel as [|fuel IH]; intros e Hf; simpl.
  all: destruct (find_first _ day) as [iv|] eqn:E.
  1,3: apply find_first_Some in E as [Hin Hc]; apply andb_true_iff in Hc as [Hs He];
    apply Z.leb_le in Hs; apply Z.ltb_lt in He; pose proof (later_lt day iv e Hin He).
  - lia.
  - destruct (IH (iv_end iv) ltac:(lia)) as (e' & -> & Hle & Hn & Hall).
    exists e'. split; [done|]. split; [lia|]. split; [done|]. intros t Ht.
    destruct (Z.lt_ge_cases t (iv_end iv)); [exists iv; split; [done | lia] | apply Hall; lia].
  - exists e. split; [done|]. split; [lia|]. split; [|lia].
    intros (iv & Hin & Hc). rewrite find_first_None in E. specialize (E iv Hin).
    apply andb_false_iff in E as [E | E]; [apply Z.leb_gt in E | apply Z.ltb_ge in E]; lia.
  - exists e. split; [done|]. split; [lia|]. split; [|lia].
    intros (iv & Hin & Hc). rewrite find_first_None in E. specialize (E iv Hin).
    apply andb_false_iff in E as [E | E]; [apply Z.leb_gt in E | apply Z.ltb_ge in E]; lia.
Qed.

(** A schedule's window ends exactly where the schedule stops matching: the
    search for its end always finishes; there is one precisely when the schedule
    matches now; and the local end is the first moment from now that no interval
    of the day covers, however the intervals overlap or touch. *)
Theorem window_end_is_first_gap ivs ts :
  let day := day_intervals ivs (weekday (local_date ts)) in
  match window_end day (local_time ts) with
  | None => matches_at ivs ts = false
  | Some e => matches_at ivs ts = true /\ local_time ts < e /\ ~ covered day e /\
      forall t, local_time ts <= t < e -> covered day t
  end.
Proof.
  intros day. unfold window_end.
  destruct (find_first (contains (local_time ts)) day) as [iv|] eqn:E; simpl.
  - apply find_first_Some in E as [Hin Hc]. apply contains_spec in Hc as Hc'.
    assert (length (later day (iv_end iv)) <= length day)%nat as Hf.
    { unfold later. clear. induction day as [|x l IH]; simpl; [done|]. case_match; simpl; lia. }
    destruct (extend_spec (length day) day (iv_end iv) Hf) as (e & -> & Hle & Hn & Hall).
    split; [|split; [lia|split; [done|]]].
    + subst day. apply elem_of_day_intervals in Hin as [Hin Hd].
      unfold matches_at. apply existsb_elem. exists iv. split; [done|].
      by rewrite Hc, bool_decide_eq_true_2.
    + intros t Ht. destruct (Z.lt_ge_cases t (iv_end iv)); [|apply Hall; lia].
      exists iv. split; [done | lia].
  - rewrite find_first_None in E. unfold matches_at.
    destruct (existsb _ ivs) eqn:Ex; [|done]. apply existsb_elem in Ex as (iv & Hin & Hiv).
    apply andb_true_iff in Hiv as [Hd Hc]. apply bool_decide_eq_true in Hd.
    by rewrite E in Hc by (apply elem_of_day_intervals; done).
Qed.

(** An ambiguous local end is taken at its first occurrence, so during its
    second one the window has already ended. *)
Lemma ambiguous_end ivs ts e a b :
  window_end (day_intervals ivs (weekday (local_date ts))) (local_time ts) = Some e ->
  from_local (local_date ts) e = Ambiguous a b -> active_until ivs ts = Some a.
Proof. intros He Ha. unfold active_until. rewrite He. simpl. by rewrite Ha. Qed.

(** Where a clock change skips the local end and the minute before it, there is
    no end at all, and nothing is held open although the schedule matches. *)
Lemma skipped_end ivs ts e :
  window_end (day_intervals ivs (weekday (local_date ts))) (local_time ts) = Some e ->
  from_local (local_date ts) e = LNone -> from_local (local_date ts) (e - minutes 1) = LNone ->
  active_until ivs ts = None.
Proof. intros He Ha Hb. unfold active_until. rewrite He. simpl. by rewrite Ha, Hb. Qed.

End Schedules.
End Schedules.
