(* ===== verification/Access.v ===== *)
(** * Who may open what ([server/src/access_engine.rs], the rules of
    [server/src/doors.rs], and [DatabaseManager::user_is_authorized_for_tool])

    Rules are compiled two ways: flat card lists an edge decides from without
    the server ([expand_rules_at]), and the one engine the server decides with
    ([may]).  Both are here, with what the service layer hands them; the rows
    come from the database as arguments. *)
From S2P Require Import Prelude EdgeToolGuard Rbac Schedules.
Import Rbac Schedules.

Module Access.

Inductive DoorRuleKind : Type := KRole | KUser | KCard | KOpenAccess.
Inductive DoorRuleEffect : Type := EAllow | EDeny.

#[global] Instance DoorRuleKind_eq_dec : EqDecision DoorRuleKind.
Proof. solve_decision. Defined.
#[global] Instance DoorRuleEffect_eq_dec : EqDecision DoorRuleEffect.
Proof. solve_decision. Defined.

Definition kind_parse (s : string) : option DoorRuleKind :=
  if s ≟ "role" then Some KRole else if s ≟ "user" then Some KUser
  else if s ≟ "card" then Some KCard else if s ≟ "open_access" then Some KOpenAccess
  else None.

Definition kind_as_str (k : DoorRuleKind) : string :=
  match k with
  | KRole => "role" | KUser => "user" | KCard => "card" | KOpenAccess => "open_access"
  end.

Definition effect_parse (s : string) : option DoorRuleEffect :=
  if s ≟ "allow" then Some EAllow else if s ≟ "deny" then Some EDeny else None.

Definition effect_as_str (e : DoorRuleEffect) : string :=
  match e with EAllow => "allow" | EDeny => "deny" end.

Lemma kind_parse_as_str k : kind_parse (kind_as_str k) = Some k.
Proof. by destruct k. Qed.

Lemma effect_parse_as_str e : effect_parse (effect_as_str e) = Some e.
Proof. by destruct e. Qed.

(** Whether a schedule's window is open, shut, or cannot be resolved. *)
Inductive ScheduleState : Type := Active | Inactive | Unresolvable.

Definition rule_fires (e : DoorRuleEffect) (s : ScheduleState) : bool :=
  match s with
  | Active => true
  | Inactive => false
  | Unresolvable => match e with EDeny => true | EAllow => false end
  end.

Inductive Action : Type := Use | Unlock | UnlockRemote.

Definition needs_identity (a : Action) : bool :=
  match a with Use | Unlock | UnlockRemote => true end.

Inductive DenyReason : Type :=
  | LockedOut
  | Unavailable (reason : string)
  | InactivePrincipal
  | ByRule
  | NoMatch
  | Training
  | Billing.

Inductive Decision : Type :=
  | Allow
  | Deny (r : DenyReason).

Definition is_allow (d : Decision) : bool := match d with Allow => true | _ => false end.

Inductive DefaultEffect : Type := Open | Restricted.

(** [serde_json::from_value] of a schedule's stored intervals. *)
Class IntervalParser := parse_intervals : json -> option (list ScheduleInterval).

Section Access.
Context {U : Uuid} {tz : TimeZone} {IP : IntervalParser}.

Record AccessRule := {
  ar_id : uuid;
  ar_resource_id : uuid;
  ar_kind : string;
  ar_value : string;
  ar_effect : string;
  ar_schedule_id : option uuid;
}.

Record Schedule := {
  sched_id : uuid;
  sched_intervals : json;
}.

Record Principal := {
  p_user_id : option uuid;
  p_level : Z;
  p_card_digests : gset string;
  p_is_active : bool;
}.

Record ResourcePolicy := {
  locked_out : bool;
  unavailable : option string;
  default_effect : DefaultEffect;
  policy_schedule_id : option uuid;
  training_ok : option bool;
  metered_ok : option bool;
}.

(** ** The rule primitives *)

Definition schedule_state_at (sid : option uuid) (schedules : list Schedule) (now : instant)
    : ScheduleState :=
  match sid with
  | None => Active
  | Some sid =>
      match find_first (fun s => sched_id s ≟ sid) schedules with
      | None => Unresolvable
      | Some s =>
          match parse_intervals (sched_intervals s) with
          | None => Unresolvable
          | Some ivs => if matches_at ivs now then Active else Inactive
          end
      end
  end.

(** ** The engine *)

(** What one rule adds to [may]'s two flags: nothing, or a match of its effect. *)
Definition rule_match (p : Principal) (schedules : list Schedule) (now : instant)
    (g : RoleGraph) (rule : AccessRule) : option DoorRuleEffect :=
  match effect_parse (ar_effect rule) with
  | None => None
  | Some effect =>
      if negb (rule_fires effect (schedule_state_at (ar_schedule_id rule) schedules now)) then None
      else match kind_parse (ar_kind rule) with
           | None => None
           | Some kind =>
               let matched :=
                 match kind with
                 | KCard => bool_decide (ar_value rule ∈ p_card_digests p)
                 | KUser => (uuid_show <$> p_user_id p) ≟ Some (ar_value rule)
                 | KRole => match level_of_name g (ar_value rule) with
                            | Some required => required <=? p_level p
                            | None => false
                            end
                 | KOpenAccess => false
                 end in
               if matched then Some effect else None
           end
  end.

Definition may_rule (p : Principal) (schedules : list Schedule) (now : instant) (g : RoleGraph)
    (flags : bool * bool) (rule : AccessRule) : bool * bool :=
  match rule_match p schedules now g rule with
  | Some EAllow => (true, flags.2)
  | Some EDeny => (flags.1, true)
  | None => flags
  end.

Definition may (p : Principal) (policy : ResourcePolicy) (rules : list AccessRule)
    (schedules : list Schedule) (now : instant) (g : RoleGraph) (action : Action) : Decision :=
  if locked_out policy then Deny LockedOut
  else match unavailable policy with
  | Some reason => Deny (Unavailable reason)
  | None =>
      if needs_identity action && negb (p_is_active p) then Deny InactivePrincipal
      else
        let '(matched_allow, matched_deny) :=
          foldl (may_rule p schedules now g) (false, false) rules in
        if matched_deny then Deny ByRule
        else
          let default_open :=
            match default_effect policy with
            | Open => rule_fires EAllow (schedule_state_at (policy_schedule_id policy) schedules now)
            | Restricted => false
            end in
          if negb matched_allow && negb default_open then Deny NoMatch
          else if training_ok policy ≟ Some false then Deny Training
          else if metered_ok policy ≟ Some false then Deny Billing
          else Allow
  end.

(** ** Compiling for the edge *)

(** [cards] is [cards_by_user] in the order the map iterates. *)
Definition user_cards (cards : gmap uuid (list string)) (levels : gmap uuid Z) (required : Z)
    : list string :=
  mjoin ((fun kv => if required <=? default 0 (levels !! kv.1) then kv.2 else [])
           <$> map_to_list cards).

(** The tokens one rule adds, and to which list. *)
Definition rule_tokens (cards : gmap uuid (list string)) (schedules : list Schedule)
    (now : instant) (g : RoleGraph) (levels : gmap uuid Z) (rule : AccessRule)
    : option (DoorRuleEffect * list string) :=
  match effect_parse (ar_effect rule) with
  | None => None
  | Some effect =>
      if negb (rule_fires effect (schedule_state_at (ar_schedule_id rule) schedules now)) then None
      else match kind_parse (ar_kind rule) with
           | None => None
           | Some KOpenAccess => None
           | Some KCard => Some (effect, [ar_value rule])
           | Some KUser =>
               uid ← uuid_parse (ar_value rule); tokens ← cards !! uid; Some (effect, tokens)
           | Some KRole =>
               required ← level_of_name g (ar_value rule);
               Some (effect, user_cards cards levels required)
           end
  end.

Definition expand_rule (cards : gmap uuid (list string)) (schedules : list Schedule)
    (now : instant) (g : RoleGraph) (levels : gmap uuid Z)
    (acc : gset string * gset string) (rule : AccessRule) : gset string * gset string :=
  match rule_tokens cards schedules now g levels rule with
  | Some (EAllow, ts) => (list_to_set ts ∪ acc.1, acc.2)
  | Some (EDeny, ts) => (acc.1, list_to_set ts ∪ acc.2)
  | None => acc
  end.

Definition expand_rules_at (rules : list AccessRule) (cards : gmap uuid (list string))
    (schedules : list Schedule) (now : instant) (g : RoleGraph) (levels : gmap uuid Z)
    : gset string * gset string :=
  foldl (expand_rule cards schedules now g levels) (∅, ∅) rules.

(** The end of the window one rule holds a door open for. *)
Definition rule_hold (schedules : list Schedule) (now : instant) (rule : AccessRule)
    : option instant :=
  if negb (kind_parse (ar_kind rule) ≟ Some KOpenAccess) then None
  else if negb (effect_parse (ar_effect rule) ≟ Some EAllow) then None
  else
    sid ← ar_schedule_id rule;
    s ← find_first (fun s => sched_id s ≟ sid) schedules;
    ivs ← parse_intervals (sched_intervals s);
    active_until ivs now.

Definition open_access_hold_until_at (rules : list AccessRule) (schedules : list Schedule)
    (now : instant) : option instant :=
  foldl (fun latest rule =>
    match rule_hold schedules now rule with
    | Some e => Some (match latest with None => e | Some cur => Z.max cur e end)
    | None => latest
    end) None rules.

(** ** The door service *)

Record StrikeProfile := {
  sp_pulse_ms : Z;
  sp_hold_open_access : bool;
}.

(** [door_strike] over the strike bindings, earliest first. *)
Definition door_strike (rows : list (Z * bool)) : option StrikeProfile :=
  match rows with
  | [] => None
  | (pulse, _) :: _ =>
      Some {| sp_pulse_ms := pulse; sp_hold_open_access := forallb snd rows |}
  end.

Record DoorRow := {
  door_id : uuid;
  door_name : string;
  door_enabled : bool;
}.

(** One door of [compile_state_for]: its rules and its strike as loaded. *)
Definition compile_door (door : DoorRow) (rules : list AccessRule) (strike : StrikeProfile)
    (cards : gmap uuid (list string)) (schedules : list Schedule)
    (now : instant) (g : RoleGraph) (levels : gmap uuid Z) : Doors.CompiledDoor :=
  let '(allow, deny) := expand_rules_at rules cards schedules now g levels in
  {|
    Doors.cd_id := door_id door;
    Doors.cd_name := door_name door;
    Doors.cd_enabled := door_enabled door;
    Doors.unlock_duration_ms := sp_pulse_ms strike;
    Doors.allow_cards := elements allow;
    Doors.deny_cards := elements deny;
    Doors.hold_unlock_until :=
      if sp_hold_open_access strike then open_access_hold_until_at rules schedules now else None;
  |}.

Inductive AccessDecision : Type :=
  | AllowAccess
  | DenyAccess (reason : string).

Definition door_policy (enabled : bool) : ResourcePolicy := {|
  locked_out := false;
  unavailable := if enabled then None else Some "Door is disabled"%string;
  default_effect := Restricted;
  policy_schedule_id := None;
  training_ok := None;
  metered_ok := None;
|}.

Definition door_message (d : Decision) : AccessDecision :=
  match d with
  | Allow => AllowAccess
  | Deny (Unavailable m) => DenyAccess m
  | Deny InactivePrincipal => DenyAccess "Account inactive"
  | Deny ByRule => DenyAccess "Denied by access rule"
  | Deny NoMatch => DenyAccess "No matching access rule"
  | Deny LockedOut => DenyAccess "Locked out"
  | Deny (Training | Billing) => DenyAccess "Denied"
  end.

(** [DoorService::evaluate]: a user at a door, in person or remotely. *)
Definition evaluate (door : DoorRow) (uid : uuid) (active : bool) (lvl : Z)
    (digests : list string) (rules : list AccessRule) (schedules : list Schedule)
    (now : instant) (g : RoleGraph) (action : Action) : AccessDecision :=
  door_message (may {| p_user_id := Some uid; p_level := lvl;
                       p_card_digests := list_to_set digests; p_is_active := active |}
    (door_policy (door_enabled door)) rules schedules now g action).

(** ** Tools *)

(** The training dimension as [user_is_authorized_for_tool] materializes it. *)
Definition tool_training_ok (has_steps requires_training waiver completed : bool) : bool :=
  if negb has_steps && negb requires_training then true
  else if waiver then true
  else if has_steps then completed
  else false.

Definition user_is_authorized_for_tool (uid : uuid)
    (lockout has_steps requires_training waiver completed : bool) (now : instant) : bool :=
  is_allow (may
    {| p_user_id := Some uid; p_level := 0; p_card_digests := ∅; p_is_active := true |}
    {| locked_out := lockout; unavailable := None; default_effect := Open;
       policy_schedule_id := None;
       training_ok := Some (tool_training_ok has_steps requires_training waiver completed);
       metered_ok := None |}
    [] [] now (from_rows [] [] []) Use).

(** ** The engine, as a condition *)

Lemma may_flags p schedules now g rules flags :
  foldl (may_rule p schedules now g) flags rules =
  (flags.1 || existsb (fun r => rule_match p schedules now g r ≟ Some EAllow) rules,
   flags.2 || existsb (fun r => rule_match p schedules now g r ≟ Some EDeny) rules).
Proof.
  revert flags. induction rules as [|r rules IH]; intros [a d]; cbn [foldl existsb].
  - by rewrite !orb_false_r.
  - rewrite IH. unfold may_rule. simpl.
    destruct (rule_match p schedules now g r) as [[]|]; simpl;
      rewrite ?orb_true_r, ?orb_false_r; try done.
Qed.

Definition matches (p : Principal) (schedules : list Schedule) (now : instant) (g : RoleGraph)
    (rules : list AccessRule) (e : DoorRuleEffect) : Prop :=
  exists r, r ∈ rules /\ rule_match p schedules now g r = Some e.

Lemma existsb_matches p schedules now g rules e :
  existsb (fun r => rule_match p schedules now g r ≟ Some e) rules = true <->
  matches p schedules now g rules e.
Proof. rewrite existsb_elem. unfold matches. setoid_rewrite bool_decide_eq_true. done. Qed.

(** The engine allows exactly when nothing stands in the way: no lockout,
    the resource available, the principal active, no deny rule matching, some
    allow rule matching or the resource open by default within its schedule, and
    neither training nor billing refused. *)
Theorem may_allow_iff p policy rules schedules now g action :
  may p policy rules schedules now g action = Allow <->
  locked_out policy = false /\ unavailable policy = None /\ p_is_active p = true /\
  ~ matches p schedules now g rules EDeny /\
  (matches p schedules now g rules EAllow \/
   default_effect policy = Open /\
   schedule_state_at (policy_schedule_id policy) schedules now = Active) /\
  training_ok policy <> Some false /\ metered_ok policy <> Some false.
Proof.
  unfold may. rewrite may_flags. simpl. rewrite <- !existsb_matches.
  destruct (locked_out policy); [refute|]. destruct (unavailable policy); [refute|].
  assert (needs_identity action = true) as -> by (by destruct action). simpl.
  destruct (p_is_active p); simpl; [|refute].
  generalize (existsb (fun r => rule_match p schedules now g r ≟ Some EAllow) rules).
  generalize (existsb (fun r => rule_match p schedules now g r ≟ Some EDeny) rules).
  intros [] a; [split; [done | intros; open_all; done]|].
  assert (forall (o : option bool), (o ≟ Some false) = true <-> o = Some false) as Hb
    by (intros; apply bool_decide_eq_true).
  set (opened := match default_effect policy with Open => _ | Restricted => _ end).
  assert (opened = true <-> default_effect policy = Open /\
    schedule_state_at (policy_schedule_id policy) schedules now = Active) as Ho.
  { subst opened. destruct (default_effect policy); [|split; [done | by intros [? _]]].
    destruct (schedule_state_at _ _ _); simpl; split; try done; intros [_ ?]; done. }
  rewrite <- Ho. destruct (negb a && negb opened) eqn:Eao.
  { apply andb_true_iff in Eao as [->%negb_true_iff ->%negb_true_iff].
    split; [done | intros; open_all; done]. }
  assert (a = true \/ opened = true) as Hao.
  { apply andb_false_iff in Eao as [->%negb_false_iff | ->%negb_false_iff]; [by left | by right]. }
  destruct (training_ok policy ≟ Some false) eqn:Et.
  { apply Hb in Et. split; [done | intros; open_all; congruence]. }
  destruct (metered_ok policy ≟ Some false) eqn:Em.
  { apply Hb in Em. split; [done | intros; open_all; congruence]. }
  apply bool_decide_eq_false in Et, Em. done.
Qed.

(** ** The two compilations agree *)

Lemma expand_fold cards schedules now g levels rules acc t :
  let r := foldl (expand_rule cards schedules now g levels) acc rules in
  let adds e := exists rule ts, rule ∈ rules /\
    rule_tokens cards schedules now g levels rule = Some (e, ts) /\ t ∈ ts in
  (t ∈ r.1 <-> t ∈ acc.1 \/ adds EAllow) /\ (t ∈ r.2 <-> t ∈ acc.2 \/ adds EDeny).
Proof.
  simpl. revert acc. induction rules as [|rule rules IH]; intros acc; cbn [foldl].
  - split; (split; [by left|]); intros [H | (? & ? & H & _)]; try done; inversion H.
  - assert (forall e, (exists r ts, r ∈ rule :: rules /\
        rule_tokens cards schedules now g levels r = Some (e, ts) /\ t ∈ ts) <->
      (exists ts, rule_tokens cards schedules now g levels rule = Some (e, ts) /\ t ∈ ts) \/
      (exists r ts, r ∈ rules /\
        rule_tokens cards schedules now g levels r = Some (e, ts) /\ t ∈ ts)) as Hcons.
    { intros e. setoid_rewrite elem_of_cons. naive_solver. }
    rewrite !Hcons. destruct (IH (expand_rule cards schedules now g levels acc rule)) as [H1 H2].
    rewrite H1, H2. unfold expand_rule.
    destruct (rule_tokens cards schedules now g levels rule) as [[e ts]|].
    + assert (forall e', (exists ts', Some (e, ts) = Some (e', ts') /\ t ∈ ts') <-> e = e' /\ t ∈ ts)
        as Hone.
      { intros e'. split; [by intros (? & [= <- <-] & ?) | intros [<- ?]; by exists ts]. }
      rewrite !Hone. destruct e; simpl; rewrite elem_of_union, elem_of_list_to_set;
        clear; intuition done.
    + assert (forall e : DoorRuleEffect, ~ exists ts : list string, None = Some (e, ts) /\ t ∈ ts) as Hnone
        by (by intros e (? & ? & _)).
      specialize (Hnone EAllow) as Ha. specialize (Hnone EDeny) as Hd. clear -Ha Hd. tauto.
Qed.

(** A principal with one card, as the compilation sees it: the card is theirs
    alone, and the level is the one the roster carries. *)
Definition sole_card (cards : gmap uuid (list string)) (levels : gmap uuid Z) (uid : uuid)
    (lvl : Z) (c : string) : Prop :=
  cards !! uid = Some [c] /\ default 0 (levels !! uid) = lvl /\
  forall v cs, cards !! v = Some cs -> c ∈ cs -> v = uid.

Definition card_holder (uid : uuid) (lvl : Z) (c : string) : Principal := {|
  p_user_id := Some uid; p_level := lvl; p_card_digests := {[ c ]}; p_is_active := true |}.

(** User rules name their user the way identifiers print. *)
Definition canonical_rule (rule : AccessRule) : Prop :=
  kind_parse (ar_kind rule) = Some KUser ->
  forall u, uuid_parse (ar_value rule) = Some u -> ar_value rule = uuid_show u.

Lemma elem_of_user_cards cards levels required uid lvl c :
  sole_card cards levels uid lvl c ->
  c ∈ user_cards cards levels required <-> required <= lvl.
Proof.
  intros (Hc & Hl & Honly). unfold user_cards. rewrite list_elem_of_join. split.
  - intros (cs & Hin & ([v cs'] & -> & Hv)%list_elem_of_fmap). simpl in Hin.
    apply elem_of_map_to_list in Hv.
    destruct (Z.leb_spec required (default 0 (levels !! v))); [|inversion Hin].
    assert (v = uid) as -> by (by eapply Honly). lia.
  - intros Hle. exists [c]. split; [by apply list_elem_of_singleton|].
    apply list_elem_of_fmap. exists (uid, [c]). split; [|by apply elem_of_map_to_list].
    simpl. rewrite Hl. by rewrite (proj2 (Z.leb_le _ _)).
Qed.

Lemma rule_agrees cards schedules now g levels uid lvl c rule e :
  sole_card cards levels uid lvl c -> canonical_rule rule ->
  (exists ts, rule_tokens cards schedules now g levels rule = Some (e, ts) /\ c ∈ ts) <->
  rule_match (card_holder uid lvl c) schedules now g rule = Some e.
Proof.
  intros Hs Hcan. pose proof Hs as (Hc & Hl & Honly).
  unfold rule_tokens, rule_match.
  destruct (effect_parse (ar_effect rule)) as [effect|]; [|naive_solver].
  destruct (negb (rule_fires _ _)); [naive_solver|].
  unfold canonical_rule in Hcan.
  destruct (kind_parse (ar_kind rule)) as [[]|]; simpl; [| | |naive_solver..].
  - destruct (level_of_name g (ar_value rule)) as [required|]; simpl; [|naive_solver].
    pose proof (elem_of_user_cards cards levels required uid lvl c Hs) as Hu.
    destruct (Z.leb_spec required lvl); split.
    + by intros (ts & [= <- <-] & _).
    + intros [= ->]. eexists. split; [done|]. by apply Hu.
    + intros (ts & [= <- <-] & Hin%Hu). lia.
    + done.
  - destruct (uuid_parse (ar_value rule)) as [v|] eqn:Ev; simpl.
    + specialize (Hcan eq_refl v eq_refl). rewrite Hcan.
      destruct (decide (v = uid)) as [->|Hne].
      * rewrite Hc, bool_decide_eq_true_2 by done. simpl. split.
        { by intros (ts & [= <- <-] & _). }
        { intros [= ->]. eexists. split; [done|]. by apply list_elem_of_singleton. }
      * rewrite bool_decide_eq_false_2.
        2: { intros [= E]. apply (f_equal uuid_parse) in E. rewrite !uuid_parse_show in E. congruence. }
        split; [|done]. intros (ts & Hts & Hin). destruct (cards !! v) as [cs|] eqn:Ecs; [|done].
        simpl in Hts. simplify_eq. exfalso. by eapply Hne, Honly.
    + split; [by intros (? & ? & _)|]. case_bool_decide as E; [|done]. intros _.
      injection E as E. rewrite <- E, uuid_parse_show in Ev. done.
  - split.
    + intros (ts & [= <- <-] & Hin%list_elem_of_singleton). subst c.
      rewrite bool_decide_eq_true_2; [done | set_solver].
    + case_bool_decide as E; [|done]. intros [= ->]. exists [ar_value rule]. split; [done|].
      apply list_elem_of_singleton. set_solver.
Qed.

(** A rule as it would be with its user's identifier the way identifiers print. *)
Definition respelled (rule : AccessRule) : AccessRule :=
  match kind_parse (ar_kind rule), uuid_parse (ar_value rule) with
  | Some KUser, Some u => {|
      ar_id := ar_id rule; ar_resource_id := ar_resource_id rule; ar_kind := ar_kind rule;
      ar_value := uuid_show u; ar_effect := ar_effect rule; ar_schedule_id := ar_schedule_id rule |}
  | _, _ => rule
  end.

Lemma respelled_canonical rule : canonical_rule (respelled rule).
Proof.
  unfold canonical_rule, respelled. destruct (kind_parse (ar_kind rule)) as [[]|] eqn:Ek; try (intros; congruence).
  destruct (uuid_parse (ar_value rule)) as [u|] eqn:Eu; simpl; [|intros _ u; congruence].
  intros _ v Hv. rewrite uuid_parse_show in Hv. by injection Hv as ->.
Qed.

Lemma respelled_id rule : canonical_rule rule -> respelled rule = rule.
Proof.
  unfold canonical_rule, respelled. intros Hc. destruct (kind_parse (ar_kind rule)) as [[]|]; try done.
  destruct (uuid_parse (ar_value rule)) as [u|]; [|done]. rewrite <- (Hc eq_refl u eq_refl). by destruct rule.
Qed.

Lemma respelled_tokens cards schedules now g levels rule :
  rule_tokens cards schedules now g levels (respelled rule) = rule_tokens cards schedules now g levels rule.
Proof.
  unfold respelled. destruct (kind_parse (ar_kind rule)) as [[]|] eqn:Ek; try done.
  destruct (uuid_parse (ar_value rule)) as [u|] eqn:Eu; [|done].
  unfold rule_tokens. cbn [ar_effect ar_schedule_id ar_kind ar_value]. by rewrite Ek, Eu, uuid_parse_show.
Qed.

Lemma expand_respelled rules cards schedules now g levels :
  expand_rules_at (respelled <$> rules) cards schedules now g levels =
  expand_rules_at rules cards schedules now g levels.
Proof.
  unfold expand_rules_at. generalize (∅ : gset string, ∅ : gset string).
  induction rules as [|rule rules IH]; intros acc; [done|]. csimpl. rewrite IH. f_equal.
  unfold expand_rule. by rewrite respelled_tokens.
Qed.

Lemma lists_agree_canonical rules cards schedules now g levels uid lvl c action :
  sole_card cards levels uid lvl c -> Forall canonical_rule rules ->
  let lists := expand_rules_at rules cards schedules now g levels in
  c ∈ lists.1 /\ c ∉ lists.2 <->
  may (card_holder uid lvl c) (door_policy true) rules schedules now g action = Allow.
Proof.
  intros Hs Hcan lists. unfold may.
  assert (needs_identity action = true) as -> by (by destruct action).
  rewrite may_flags. simpl.
  destruct (expand_fold cards schedules now g levels rules (∅, ∅) c) as [H1 H2].
  assert (forall e, (exists rule ts, rule ∈ rules /\
      rule_tokens cards schedules now g levels rule = Some (e, ts) /\ c ∈ ts) <->
    matches (card_holder uid lvl c) schedules now g rules e) as Hm.
  { intros e. unfold matches. split.
    - intros (rule & ts & Hin & Hts & Hc). exists rule. split; [done|].
      rewrite Forall_forall in Hcan.
      eapply rule_agrees; [done | by apply Hcan | by exists ts].
    - intros (rule & Hin & Hr). rewrite Forall_forall in Hcan.
      apply (rule_agrees cards schedules now g levels) in Hr as (ts & Hts & Hc);
        [|done | by apply Hcan]. by exists rule, ts. }
  change (foldl (expand_rule cards schedules now g levels) (∅, ∅) rules) with lists in H1, H2.
  clearbody lists. simpl in H1, H2. rewrite Hm, <- existsb_matches in H1, H2.
  rewrite H1, H2. clear H1 H2.
  destruct (existsb _ rules) eqn:E1 at 1; destruct (existsb (fun r => _ ≟ Some EDeny) rules);
    simpl; rewrite ?E1; simpl; split; try done; intros; open_all; set_solver.
Qed.

(** C15. A door answers a member the same at the reader and on the phone: for an
    active member with one card, which is nobody else's, at the level of the roster, the
    lists compiled for the edge let the card in exactly when the engine lets the member
    in by the rules with the users they name respelled as identifiers print -- which are
    the rules themselves where each is spelled so. *)
Theorem lists_agree_with_engine rules cards schedules now g levels uid lvl c action :
  sole_card cards levels uid lvl c ->
  let lists := expand_rules_at rules cards schedules now g levels in
  let engine rules := may (card_holder uid lvl c) (door_policy true) rules schedules now g action in
  (c ∈ lists.1 /\ c ∉ lists.2 <-> engine (respelled <$> rules) = Allow) /\
  (Forall canonical_rule rules -> c ∈ lists.1 /\ c ∉ lists.2 <-> engine rules = Allow).
Proof.
  intros Hs lists engine. split; [|by apply lists_agree_canonical].
  unfold lists. rewrite <- expand_respelled. apply lists_agree_canonical; [done|].
  apply Forall_fmap, Forall_true. intros rule. apply respelled_canonical.
Qed.

(** A user rule written in another spelling of the user's identifier
    divides the two: the compiled lists parse it and apply it to the user's
    cards, the engine compares text and passes it over -- a deny rule included. *)
Lemma user_rule_spelling_divides cards schedules now g levels uid lvl c rule effect cs :
  effect_parse (ar_effect rule) = Some effect -> ar_schedule_id rule = None ->
  kind_parse (ar_kind rule) = Some KUser ->
  uuid_parse (ar_value rule) = Some uid -> ar_value rule <> uuid_show uid ->
  cards !! uid = Some cs ->
  rule_tokens cards schedules now g levels rule = Some (effect, cs) /\
  rule_match (card_holder uid lvl c) schedules now g rule = None.
Proof.
  intros He Hsch Hk Hp Hne Hc. unfold rule_tokens, rule_match. rewrite He, Hsch, Hk. simpl.
  rewrite Hp. simpl. rewrite Hc, bool_decide_eq_false_2; [done|]. congruence.
Qed.

End Access.
End Access.
