(* ===== verification/Faults.v ===== *)
(** * Operations on tables, with faults

    The error monad the server's services are written in here: a run threads the
    tables and a schedule of what its calls will meet.  A call is one statement or
    one transaction, which happens or does not; what is proved with [triple] and
    [keeps] holds under every schedule. *)
From stdpp Require Import relations.
From S2P Require Import Prelude.

Module Faults.

(** What one call meets: nothing, a refusal, or a commit whose reply is lost. *)
Inductive fault : Type := Fine | Refused | LostReply.

(** The error a caller sees of a fault. *)
Class FaultError (E : Type) := refused : E.

Section Faults.
Context {D E : Type} {F : FaultError E}.

(** ** The monad *)

Definition State : Type := D * list fault.
Definition M (A : Type) : Type := State -> State * (A + E).

#[global] Instance M_ret : MRet M := fun A x st => (st, inl x).
#[global] Instance M_bind : MBind M := fun A B k m st =>
  match m st with
  | (st, inl x) => k x st
  | (st, inr e) => (st, inr e)
  end.
#[global] Instance M_fmap : FMap M := fun A B f m => x ← m; mret (f x).

(** [match] on a result without [?]: the error becomes a value. *)
Definition attempt {A} (m : M A) : M (A + E) := fun st =>
  let '(st, r) := m st in (st, inl r).

Definition throw {A} (e : E) : M A := fun st => (st, inr e).

(** One call: a connection, then a statement or a transaction. *)
Definition call {A} (f : D -> D * (A + E)) : M A := fun '(db, fs) =>
  match fs with
  | [] => let '(db, r) := f db in ((db, []), r)
  | Fine :: fs => let '(db, r) := f db in ((db, fs), r)
  | Refused :: fs => ((db, fs), inr refused)
  | LostReply :: fs => (((f db).1, fs), inr refused)
  end.

Definition select {A} (f : D -> A) : M A := call (fun db => (db, inl (f db))).

(** A change that is not a database call. *)
Definition effect (f : D -> D) : M unit := fun '(db, fs) => ((f db, fs), inl tt).

(** A look at the state that is not a call. *)
Definition peek {A} (f : D -> A) : M A := fun st => (st, inl (f st.1)).

(** The run without faults. *)
Definition run {A} (m : M A) (db : D) : D * (A + E) :=
  let '((db, _), r) := m (db, []) in (db, r).

(** ** Reasoning about a run

    [triple I P m Q]: from a state where [I] and [P] hold, whatever faults the run
    meets, [I] holds after it, and if it returns, [Q] of what it returns. *)

Definition triple {A} (I P : D -> Prop) (m : M A) (Q : A -> D -> Prop) : Prop :=
  forall db fs, I db -> P db ->
    let '((db', _), r) := m (db, fs) in
    I db' /\ match r with inl x => Q x db' | inr _ => True end.

(** The run keeps [I], and [P] may be forgotten. *)
Definition keeps {A} (I : D -> Prop) (m : M A) : Prop :=
  triple I (fun _ => True) m (fun _ _ => True).

Implicit Types (I P : D -> Prop).

Lemma triple_ret {A} I P (x : A) (Q : A -> D -> Prop) :
  (forall db, I db -> P db -> Q x db) -> triple I P (mret x) Q.
Proof. intros H db fs Hi Hp. split; [done | by apply H]. Qed.

Lemma triple_throw {A} I P e (Q : A -> D -> Prop) : triple I P (throw e) Q.
Proof. intros db fs Hi Hp. by split. Qed.

Lemma triple_bind {A B} I P (m : M A) (k : A -> M B) R Q :
  triple I P m R -> (forall x, triple I (R x) (k x) Q) -> triple I P (m ≫= k) Q.
Proof.
  intros Hm Hk db fs Hi Hp. specialize (Hm db fs Hi Hp). unfold mbind, M_bind.
  destruct (m (db, fs)) as [[db' fs'] [x|e]]; [|naive_solver].
  destruct Hm as [Hi' Hr]. exact (Hk x db' fs' Hi' Hr).
Qed.

Lemma triple_attempt {A} I P (m : M A) Q :
  triple I P m Q ->
  triple I P (attempt m) (fun r db => match r with inl x => Q x db | inr _ => True end).
Proof.
  intros Hm db fs Hi Hp. specialize (Hm db fs Hi Hp). unfold attempt.
  by destruct (m (db, fs)) as [[db' fs'] [x|e]].
Qed.

Lemma triple_weaken {A} I P P' (m : M A) (Q Q' : A -> D -> Prop) :
  triple I P' m Q' -> (forall db, I db -> P db -> P' db) ->
  (forall x db, I db -> Q' x db -> Q x db) -> triple I P m Q.
Proof.
  intros Hm Hp Hq db fs Hi H. specialize (Hm db fs Hi (Hp db Hi H)).
  destruct (m (db, fs)) as [[db' fs'] [x|e]]; naive_solver.
Qed.

Lemma triple_call {A} I P (f : D -> D * (A + E)) Q :
  (forall db, I db -> P db ->
    I (f db).1 /\ match (f db).2 with inl x => Q x (f db).1 | inr _ => True end) ->
  triple I P (call f) Q.
Proof.
  intros H db fs Hi Hp. specialize (H db Hi Hp). unfold call.
  destruct H as [H1 H2].
  destruct fs as [|[] fs]; destruct (f db) as [db' r]; simpl in *; done.
Qed.

Lemma triple_select {A} I P (f : D -> A) (Q : A -> D -> Prop) :
  (forall db, I db -> P db -> Q (f db) db) -> triple I P (select f) Q.
Proof. intros H. apply triple_call. intros db Hi Hp. split; [done | by apply H]. Qed.

Lemma triple_effect I P (f : D -> D) (Q : unit -> D -> Prop) :
  (forall db, I db -> P db -> I (f db) /\ Q tt (f db)) -> triple I P (effect f) Q.
Proof. intros H db fs Hi Hp. by apply H. Qed.

Lemma triple_keeps {A} I P (m : M A) : keeps I m -> triple I P m (fun _ _ => True).
Proof. intros H. by eapply triple_weaken. Qed.

(** A kept condition, as what holds before and after. *)
Lemma triple_kept {A} I P (m : M A) : keeps P m -> keeps I m -> triple I P m (fun _ db => P db).
Proof.
  intros H1 H2 db fs Hi Hp. specialize (H1 db fs Hp Logic.I). specialize (H2 db fs Hi Logic.I).
  destruct (m (db, fs)) as [[db' fs'] [x|e]]; tauto.
Qed.

Lemma keeps_ret {A} I (x : A) : keeps I (mret x).
Proof. by apply triple_ret. Qed.

Lemma keeps_throw {A} I e : keeps (A := A) I (throw e).
Proof. apply triple_throw. Qed.

Lemma keeps_bind {A B} I (m : M A) (k : A -> M B) :
  keeps I m -> (forall x, keeps I (k x)) -> keeps I (m ≫= k).
Proof. intros Hm Hk. by eapply triple_bind. Qed.

Lemma keeps_attempt {A} I (m : M A) : keeps I m -> keeps I (attempt m).
Proof.
  intros H. eapply triple_weaken; [by apply triple_attempt, H | done | done].
Qed.

Lemma keeps_select {A} I (f : D -> A) : keeps I (select f).
Proof. by apply triple_select. Qed.

Lemma keeps_peek {A} I (f : D -> A) : keeps I (peek f).
Proof. by intros db fs Hi _. Qed.

Lemma keeps_call {A} I (f : D -> D * (A + E)) :
  (forall db, I db -> I (f db).1) -> keeps I (call f).
Proof. intros H. apply triple_call. intros db Hi _. split; [by apply H | by destruct (f db).2]. Qed.

Lemma triple_select_keep {A} I P (f : D -> A) :
  triple I P (select f) (fun x db => P db /\ x = f db).
Proof. by apply triple_select. Qed.

(** A look at a known state. *)
Lemma triple_select_at {A} I db0 (f : D -> A) :
  triple I (fun db => db = db0) (select f) (fun x db => db = db0 /\ x = f db0).
Proof. apply triple_select. by intros db _ ->. Qed.

(** One state at a time. *)
Lemma triple_at {A} I P (m : M A) Q :
  (forall db0, I db0 -> P db0 -> triple I (fun db => db = db0) m Q) -> triple I P m Q.
Proof. intros H db fs Hi Hp. by apply (H db Hi Hp). Qed.

(** What is known without looking at the state. *)
Lemma triple_pure {A} I P (phi : Prop) (m : M A) Q :
  (phi -> triple I P m Q) -> triple I (fun db => P db /\ phi) m Q.
Proof. intros H db fs Hi [Hp Hphi]. by apply H. Qed.

(** Two descriptions of one run. *)
Lemma triple_and {A} I P P' (m : M A) (Q Q' : A -> D -> Prop) :
  triple I P m Q -> triple I P' m Q' ->
  triple I (fun db => P db /\ P' db) m (fun x db => Q x db /\ Q' x db).
Proof.
  intros H1 H2 db fs Hi [Hp Hp']. specialize (H1 db fs Hi Hp). specialize (H2 db fs Hi Hp').
  destruct (m (db, fs)) as [[db' fs'] [x|e]]; naive_solver.
Qed.

(** ** Runs that only look

    [reads m R]: whatever it meets, the run changes nothing, and what it returns is
    related to the state by [R]. *)
Definition reads {A} (m : M A) (R : D -> A -> Prop) : Prop :=
  forall db fs, let '((db', _), r) := m (db, fs) in
    db' = db /\ match r with inl x => R db x | inr _ => True end.

Lemma reads_ret {A} (x : A) R : (forall db, R db x) -> reads (mret x) R.
Proof. by intros H db fs. Qed.

Lemma reads_throw {A} e R : reads (A := A) (throw e) R.
Proof. by intros db fs. Qed.

Lemma reads_bind {A B} (m : M A) (k : A -> M B) (R : D -> A -> Prop) S :
  reads m R -> (forall x, reads (k x) (fun db y => R db x -> S db y)) -> reads (m ≫= k) S.
Proof.
  intros Hm Hk db fs. specialize (Hm db fs). unfold mbind, M_bind.
  destruct (m (db, fs)) as [[db' fs'] [x|e]]; [|naive_solver].
  destruct Hm as [-> Hr]. specialize (Hk x db fs').
  destruct (k x (db, fs')) as [[db2 fs2] [y|e]]; naive_solver.
Qed.

Lemma reads_call {A} (f : D -> D * (A + E)) (R : D -> A -> Prop) :
  (forall db, (f db).1 = db /\ match (f db).2 with inl x => R db x | inr _ => True end) ->
  reads (call f) R.
Proof.
  intros H db fs. destruct (H db) as [H1 H2]. unfold call.
  destruct fs as [|[] fs]; destruct (f db) as [db' r]; simpl in *; done.
Qed.

Lemma reads_select {A} (f : D -> A) : reads (select f) (fun db x => x = f db).
Proof. by apply reads_call. Qed.

Lemma reads_weaken {A} (m : M A) (R S : D -> A -> Prop) :
  reads m R -> (forall db x, R db x -> S db x) -> reads m S.
Proof. intros H Hw db fs. specialize (H db fs). destruct (m (db, fs)) as [[] []]; naive_solver. Qed.

Lemma reads_attempt {A} (m : M A) R :
  reads m R -> reads (attempt m) (fun db r => match r with inl x => R db x | inr _ => True end).
Proof. intros H db fs. specialize (H db fs). unfold attempt. by destruct (m (db, fs)) as [[] []]. Qed.

(** What held before holds after, beside what was read. *)
Lemma triple_reads {A} I P (m : M A) R :
  reads m R -> triple I P m (fun x db => P db /\ R db x).
Proof.
  intros H db fs Hi Hp. specialize (H db fs). destruct (m (db, fs)) as [[db' fs'] [x|e]];
    destruct H as [-> H]; by split.
Qed.

Lemma keeps_reads {A} I (m : M A) R : reads m R -> keeps I m.
Proof. intros H. eapply triple_weaken; [by apply (triple_reads I (fun _ => True)) | done | done]. Qed.

(** A run that only looks, where no call fails. *)
Lemma reads_run {A} (m : M A) R db : reads m R ->
  (run m db).1 = db /\ match (run m db).2 with inl x => R db x | inr _ => True end.
Proof. intros H. specialize (H db []). unfold run. by destruct (m (db, [])) as [[db' fs] r]. Qed.

(** ** Both ends of a run

    [ends P m Q]: from a state where [P] holds, whatever faults the run meets, [Q] of
    what it ends in, an error included. *)
Definition ends {A} (P : D -> Prop) (m : M A) (Q : A + E -> D -> Prop) : Prop :=
  forall db fs, P db -> let '((db', _), r) := m (db, fs) in Q r db'.

Lemma ends_ret {A} P (x : A) (Q : A + E -> D -> Prop) :
  (forall db, P db -> Q (inl x) db) -> ends P (mret x) Q.
Proof. intros H db fs Hp. by apply H. Qed.

Lemma ends_throw {A} P e (Q : A + E -> D -> Prop) :
  (forall db, P db -> Q (inr e) db) -> ends P (throw e) Q.
Proof. intros H db fs Hp. by apply H. Qed.

Lemma ends_bind {A B} P (m : M A) (k : A -> M B) R (Q : B + E -> D -> Prop) :
  ends P m (fun r db => match r with inl x => R x db | inr e => Q (inr e) db end) ->
  (forall x, ends (R x) (k x) Q) -> ends P (m ≫= k) Q.
Proof.
  intros Hm Hk db fs Hp. specialize (Hm db fs Hp). unfold mbind, M_bind.
  destruct (m (db, fs)) as [[db' fs'] [x|e]]; [|done]. exact (Hk x db' fs' Hm).
Qed.

Lemma ends_fmap {A B} P (f : A -> B) (m : M A) (Q : B + E -> D -> Prop) :
  ends P m (fun r => Q match r with inl x => inl (f x) | inr e => inr e end) -> ends P (f <$> m) Q.
Proof.
  intros Hm. apply (ends_bind P m _ (fun x => Q (inl (f x)))); [|intros x; by apply ends_ret].
  intros db fs Hp. specialize (Hm db fs Hp). by destruct (m (db, fs)) as [[db' fs'] [x|e]].
Qed.

Lemma ends_attempt {A} P (m : M A) (Q : A + E -> D -> Prop) (R : (A + E) + E -> D -> Prop) :
  ends P m Q -> (forall r db, Q r db -> R (inl r) db) -> ends P (attempt m) R.
Proof.
  intros Hm HR db fs Hp. specialize (Hm db fs Hp). unfold attempt.
  destruct (m (db, fs)) as [[db' fs'] r]. by apply HR.
Qed.

Lemma ends_effect P (f : D -> D) (Q : unit + E -> D -> Prop) :
  (forall db, P db -> Q (inl tt) (f db)) -> ends P (effect f) Q.
Proof. intros H db fs Hp. by apply H. Qed.

Lemma ends_peek {A} P (f : D -> A) (Q : A + E -> D -> Prop) :
  (forall db, P db -> Q (inl (f db)) db) -> ends P (peek f) Q.
Proof. intros H db fs Hp. by apply H. Qed.

Lemma ends_weaken {A} (P P' : D -> Prop) (m : M A) (Q Q' : A + E -> D -> Prop) :
  ends P' m Q' -> (forall db, P db -> P' db) -> (forall r db, Q' r db -> Q r db) -> ends P m Q.
Proof.
  intros Hm Hp Hq db fs H. specialize (Hm db fs (Hp db H)).
  destruct (m (db, fs)) as [[db' fs'] r]. by apply Hq.
Qed.

Lemma ends_any {A} P (m : M A) (Q : A + E -> D -> Prop) : (forall r db, Q r db) -> ends P m Q.
Proof. intros Hq db fs _. destruct (m (db, fs)) as [[db' fs'] r]. apply Hq. Qed.

Lemma ends_pre {A} (P P' : D -> Prop) (m : M A) (Q : A + E -> D -> Prop) :
  ends P' m Q -> (forall db, P db -> P' db) -> ends P m Q.
Proof. intros Hm Hp. by eapply ends_weaken. Qed.

Lemma ends_post {A} P (m : M A) (Q Q' : A + E -> D -> Prop) :
  ends P m Q' -> (forall r db, Q' r db -> Q r db) -> ends P m Q.
Proof. intros Hm Hq. by eapply ends_weaken. Qed.

Lemma ends_keeps {A} P (m : M A) : keeps P m -> ends P m (fun _ db => P db).
Proof.
  intros Hm db fs Hp. specialize (Hm db fs Hp Logic.I).
  destruct (m (db, fs)) as [[db' fs'] r]. tauto.
Qed.

(** A step that keeps what is known, on the way. *)
Lemma ends_then {A B} P (m : M A) (k : A -> M B) (Q : B + E -> D -> Prop) :
  keeps P m -> (forall e db, P db -> Q (inr e) db) -> (forall x, ends P (k x) Q) ->
  ends P (m ≫= k) Q.
Proof.
  intros Hm He Hk. apply (ends_bind P m k (fun _ => P)); [|done].
  eapply ends_weaken; [by apply ends_keeps | done|]. intros [x|e] db Hp; [done | by apply He].
Qed.

(** What the run kept, beside what it answered. *)
Lemma ends_triple {A} I P (m : M A) (Q : A -> D -> Prop) :
  triple I P m Q ->
  ends (fun db => I db /\ P db) m
    (fun r db => I db /\ match r with inl x => Q x db | inr _ => True end).
Proof. intros Hm db fs [Hi Hp]. exact (Hm db fs Hi Hp). Qed.

(** A run that only looks ends where it began. *)
Lemma ends_reads {A} P (m : M A) R : reads m R ->
  ends P m (fun r db => P db /\ match r with inl x => R db x | inr _ => True end).
Proof.
  intros Hm db fs Hp. specialize (Hm db fs). destruct (m (db, fs)) as [[db' fs'] r].
  by destruct Hm as [-> Hm].
Qed.

Lemma ends_pure {A} P (phi : Prop) (m : M A) Q :
  (phi -> ends P m Q) -> ends (fun db => P db /\ phi) m Q.
Proof. intros Hm db fs [Hp Hphi]. by apply Hm. Qed.

Lemma ends_and {A} P (m : M A) (Q Q' : A + E -> D -> Prop) :
  ends P m Q -> ends P m Q' -> ends P m (fun r db => Q r db /\ Q' r db).
Proof.
  intros H1 H2 db fs Hp. specialize (H1 db fs Hp). specialize (H2 db fs Hp).
  destruct (m (db, fs)) as [[db' fs'] r]. by split.
Qed.

(** ** Runs that end in an answer

    [honest m]: where the program has no [attempt], an answer means that no call met
    a fault, so what the run without faults does is what it did. *)
Definition honest {A} (m : M A) : Prop :=
  forall db fs, match m (db, fs) with
  | ((db', _), inl x) => m (db, []) = ((db', []), inl x)
  | _ => True
  end.

Lemma honest_ret {A} (x : A) : honest (mret x).
Proof. done. Qed.

Lemma honest_throw {A} e : honest (A := A) (throw e).
Proof. done. Qed.

Lemma honest_call {A} (f : D -> D * (A + E)) : honest (call f).
Proof.
  intros db fs. unfold call.
  destruct fs as [|[] fs]; try done; destruct (f db) as [db' [x|e]]; done.
Qed.

Lemma honest_peek {A} (f : D -> A) : honest (peek f).
Proof. by intros db fs. Qed.

Lemma honest_effect (f : D -> D) : honest (effect f).
Proof. by intros db fs. Qed.

Lemma honest_bind {A B} (m : M A) (k : A -> M B) :
  honest m -> (forall x, honest (k x)) -> honest (m ≫= k).
Proof.
  intros Hm Hk db fs. specialize (Hm db fs). unfold mbind, M_bind.
  destruct (m (db, fs)) as [[db1 fs1] [x|e]]; [|done]. rewrite Hm. specialize (Hk x db1 fs1).
  by destruct (k x (db1, fs1)) as [[db2 fs2] [y|e]].
Qed.

(** The run without faults, as what any answered run did. *)
Lemma triple_honest {A} I P (m : M A) (Q : A -> D -> Prop) :
  honest m -> keeps I m ->
  (forall db db' x, P db -> run m db = (db', inl x) -> Q x db') -> triple I P m Q.
Proof.
  intros Hm Hk Hq db fs Hi Hp. specialize (Hm db fs). specialize (Hk db fs Hi Logic.I).
  destruct (m (db, fs)) as [[db' fs'] [x|e]]; [|tauto].
  split; [tauto|]. apply (Hq db); [done|]. unfold run. by rewrite Hm.
Qed.

(** A run that keeps whatever state it is given only looks. *)
Lemma reads_honest {A} (m : M A) (R : D -> A -> Prop) :
  honest m -> (forall db0, keeps (fun db => db = db0) m) ->
  (forall db x, run m db = (db, inl x) -> R db x) -> reads m R.
Proof.
  intros Hm Hk H db fs. specialize (Hm db fs). specialize (Hk db db fs eq_refl Logic.I).
  destruct (m (db, fs)) as [[db' fs'] [x|e]]; [|tauto].
  destruct Hk as [-> _]. split; [done|]. apply H. unfold run. by rewrite Hm.
Qed.

(** ** How many faults a run met

    [thrifty m]: a run meets what the schedule holds and no more.  [spends m R]: it only
    looks, and [R] of the state, of a number of the faults it met, and of what it
    returns. *)
Definition faulty (fs : list fault) : nat :=
  length (List.filter (fun f => match f with Fine => false | _ => true end) fs).

Definition thrifty {A} (m : M A) : Prop := forall st, (faulty (m st).1.2 <= faulty st.2)%nat.

Lemma thrifty_ret {A} (x : A) : thrifty (mret x).
Proof. intros st. done. Qed.

Lemma thrifty_throw {A} e : thrifty (A := A) (throw e).
Proof. intros st. done. Qed.

Lemma thrifty_call {A} (f : D -> D * (A + E)) : thrifty (call f).
Proof. intros [db [|[] fs]]; unfold call; destruct (f db); simpl; unfold faulty; simpl; lia. Qed.

Lemma thrifty_peek {A} (f : D -> A) : thrifty (peek f).
Proof. intros st. done. Qed.

Lemma thrifty_bind {A B} (m : M A) (k : A -> M B) :
  thrifty m -> (forall x, thrifty (k x)) -> thrifty (m ≫= k).
Proof.
  intros Hm Hk st. specialize (Hm st). unfold mbind, M_bind.
  destruct (m st) as [st1 [x|e]]; [|done]. specialize (Hk x st1). simpl in *. lia.
Qed.

Lemma thrifty_attempt {A} (m : M A) : thrifty m -> thrifty (attempt m).
Proof. intros Hm st. specialize (Hm st). unfold attempt. by destruct (m st). Qed.

Definition spends {A} (m : M A) (R : D -> nat -> A -> Prop) : Prop :=
  forall db fs, let '((db', fs'), r) := m (db, fs) in
    db' = db /\ match r with inl x => exists n, (n + faulty fs' <= faulty fs)%nat /\ R db n x | inr _ => True end.

Lemma spends_ret {A} (x : A) R : (forall db, R db 0%nat x) -> spends (mret x) R.
Proof. intros H db fs. split; [done|]. by exists 0%nat. Qed.

(** A run that only looks, whatever its faults did to it. *)
Lemma spends_reads {A} (m : M A) R : thrifty m -> reads m R -> spends m (fun db n x => n = 0%nat /\ R db x).
Proof.
  intros Ht Hr db fs. specialize (Ht (db, fs)). specialize (Hr db fs).
  destruct (m (db, fs)) as [[db' fs'] r]. destruct Hr as [-> Hr]. split; [done|].
  destruct r; [|done]. by exists 0%nat.
Qed.

Lemma spends_bind {A B} (m : M A) (k : A -> M B) (R : D -> nat -> A -> Prop) S :
  spends m R -> (forall x, spends (k x) (fun db n y => forall i, R db i x -> S db (i + n)%nat y)) ->
  spends (m ≫= k) S.
Proof.
  intros Hm Hk db fs. specialize (Hm db fs). unfold mbind, M_bind.
  destruct (m (db, fs)) as [[db1 fs1] [x|e]]; [|done]. destruct Hm as (-> & i & Hi & Hx).
  specialize (Hk x db fs1). destruct (k x (db, fs1)) as [[db2 fs2] [y|e]]; [|done].
  destruct Hk as (-> & n & Hn & Hy). split; [done|]. exists (i + n)%nat. split; [lia | by apply Hy].
Qed.

(** A look on the way that meets no fault of its own. *)
Lemma spends_look {A B} (m : M A) (k : A -> M B) (R : D -> A -> Prop) S :
  thrifty m -> reads m R -> (forall x, spends (k x) (fun db n y => R db x -> S db n y)) ->
  spends (m ≫= k) S.
Proof.
  intros Ht Hr Hk. eapply spends_bind; [by apply spends_reads|]. intros x db fs. specialize (Hk x db fs).
  destruct (k x (db, fs)) as [[db' fs'] [y|e]]; [|tauto]. destruct Hk as (-> & n & Hn & Hy).
  split; [done|]. exists n. split; [done|]. intros i [-> Hx]. by apply Hy.
Qed.

(** A run that fails only where it met a fault. *)
Definition blames {A} (m : M A) : Prop :=
  forall st, match (m st).2 with inl _ => True | inr _ => (faulty (m st).1.2 < faulty st.2)%nat end.

Lemma blames_ret {A} (x : A) : blames (mret x).
Proof. intros st. done. Qed.

Lemma blames_select {A} (f : D -> A) : blames (select f).
Proof. intros [db [|[] fs]]; simpl; try done; unfold faulty; simpl; lia. Qed.

Lemma blames_bind {A B} (m : M A) (k : A -> M B) :
  thrifty m -> blames m -> (forall x, blames (k x)) -> blames (m ≫= k).
Proof.
  intros Ht Hm Hk st. specialize (Ht st). specialize (Hm st). unfold mbind, M_bind.
  destruct (m st) as [st1 [x|e]]; [|done]. specialize (Hk x st1). simpl in *. case_match; [done|]. lia.
Qed.

(** What is attempted met a fault or returns. *)
Lemma spends_attempt {A} (m : M A) (R : D -> A -> Prop) :
  thrifty m -> reads m R -> blames m ->
  spends (attempt m) (fun db n r =>
    match r with inl x => n = 0%nat /\ R db x | inr _ => n = 1%nat end).
Proof.
  intros Ht Hr Hb db fs. specialize (Ht (db, fs)). specialize (Hr db fs). specialize (Hb (db, fs)).
  unfold attempt. destruct (m (db, fs)) as [[db' fs'] [x|e]]; destruct Hr as [-> Hr]; (split; [done|]).
  - by exists 0%nat.
  - exists 1%nat. simpl in *. split; [lia | done].
Qed.

(** ** Runs that succeed

    Where nothing fails, no schedule is left over ([clean]); [answers P m Q]: from a
    state where [P] holds the run without faults returns, and [Q] of what it returns. *)
Definition clean {A} (m : M A) : Prop :=
  forall db, exists db' r, m (db, []) = ((db', []), r).

Definition answers {A} (P : D -> Prop) (m : M A) (Q : A -> D -> Prop) : Prop :=
  forall db, P db -> exists db' x, m (db, []) = ((db', []), inl x) /\ Q x db'.

Lemma clean_ret {A} (x : A) : clean (mret x).
Proof. intros db. by eexists _, _. Qed.

Lemma clean_throw {A} e : clean (A := A) (throw e).
Proof. intros db. by eexists _, _. Qed.

Lemma clean_call {A} (f : D -> D * (A + E)) : clean (call f).
Proof. intros db. exists (f db).1, (f db).2. unfold call. by destruct (f db). Qed.

Lemma clean_effect (f : D -> D) : clean (effect f).
Proof. intros db. by eexists _, _. Qed.

Lemma clean_bind {A B} (m : M A) (k : A -> M B) :
  clean m -> (forall x, clean (k x)) -> clean (m ≫= k).
Proof.
  intros Hm Hk db. destruct (Hm db) as (db1 & [x|e] & Hr); unfold mbind, M_bind; rewrite Hr.
  - apply Hk.
  - by eexists _, _.
Qed.

Lemma clean_attempt {A} (m : M A) : clean m -> clean (attempt m).
Proof. intros Hm db. destruct (Hm db) as (db1 & r & Hr). unfold attempt. rewrite Hr. by eexists _, _. Qed.

Lemma answers_ret {A} P (x : A) (Q : A -> D -> Prop) :
  (forall db, P db -> Q x db) -> answers P (mret x) Q.
Proof. intros Hq db Hp. exists db, x. split; [done | by apply Hq]. Qed.

Lemma answers_bind {A B} P (m : M A) (k : A -> M B) R Q :
  answers P m R -> (forall x, answers (R x) (k x) Q) -> answers P (m ≫= k) Q.
Proof.
  intros Hm Hk db Hp. destruct (Hm db Hp) as (db1 & x & Hr & Hx).
  unfold mbind, M_bind. rewrite Hr. by apply Hk.
Qed.

Lemma answers_call {A} P (f : D -> D * (A + E)) (Q : A -> D -> Prop) :
  (forall db, P db -> exists db' x, f db = (db', inl x) /\ Q x db') -> answers P (call f) Q.
Proof.
  intros Hf db Hp. destruct (Hf db Hp) as (db' & x & Hx & Hq). exists db', x.
  unfold call. by rewrite Hx.
Qed.

Lemma answers_select {A} P (f : D -> A) : answers P (select f) (fun x db => P db /\ x = f db).
Proof. apply answers_call. intros db Hp. by eexists _, _. Qed.

Lemma answers_effect P (f : D -> D) (Q : unit -> D -> Prop) :
  (forall db, P db -> Q tt (f db)) -> answers P (effect f) Q.
Proof. intros Hf db Hp. exists (f db), tt. split; [done | by apply Hf]. Qed.

(** What is attempted goes on whatever comes of it. *)
Lemma answers_attempt {A} P (m : M A) :
  clean m -> keeps P m -> answers P (attempt m) (fun _ db => P db).
Proof.
  intros Hm Hk db Hp. specialize (Hk db [] Hp Logic.I). destruct (Hm db) as (db' & r & Hr).
  exists db', r. unfold attempt. rewrite Hr in Hk |- *. by destruct Hk.
Qed.

Lemma answers_weaken {A} (P P' : D -> Prop) (m : M A) (Q Q' : A -> D -> Prop) :
  answers P' m Q' -> (forall db, P db -> P' db) -> (forall x db, Q' x db -> Q x db) ->
  answers P m Q.
Proof. intros Hm Hp Hq db H. destruct (Hm db (Hp db H)) as (db' & x & Hr & Hx). eauto. Qed.

Lemma answers_pure {A} P (phi : Prop) (m : M A) Q :
  (phi -> answers P m Q) -> answers (fun db => P db /\ phi) m Q.
Proof. intros Hm db [Hp Hphi]. by apply Hm. Qed.

End Faults.

#[global] Arguments State : clear implicits.
#[global] Arguments M : clear implicits.

(** ** One component's calls on a larger state

    The state of a service that calls another holds the other's tables, and a run
    of the callee is a run of the caller that leaves the rest alone. *)
Class Part (D P : Type) := {
  part : D -> P;
  put : P -> D -> D;
  part_put : forall p d, part (put p d) = p;
  put_part : forall d, put (part d) d = d;
  put_put : forall p q d, put p (put q d) = put p d;
}.

Definition within {D P E A} `{Part D P} (m : M P E A) : M D E A := fun '(db, fs) =>
  let '((p, fs), r) := m (part db, fs) in ((put p db, fs), r).

(** [map_err]: the callee's error in the caller's type. *)
Definition map_err {D E E' A} (f : E -> E') (m : M D E A) : M D E' A := fun st =>
  match m st with
  | (st, inl x) => (st, inl x)
  | (st, inr e) => (st, inr (f e))
  end.

Section Within.
Context {D P E : Type} {Pt : Part D P}.

(** A run on the part leaves the rest as it was. *)
Lemma triple_within_from {A} (I : D -> Prop) (J : P -> Prop) (K : P -> Prop) (m : M P E A)
    (Q : A -> P -> Prop) (R : D -> Prop) :
  triple J K m Q ->
  (forall db, I db -> R db -> J (part db) /\ K (part db)) ->
  (forall db p, I db -> R db -> J p -> I (put p db)) ->
  triple I R (within m) (fun x db => exists db0 p, R db0 /\ db = put p db0 /\ J p /\ Q x p).
Proof.
  intros Hm Hpre Hpost db fs Hi Hr. destruct (Hpre db Hi Hr) as [Hj Hk].
  specialize (Hm (part db) fs Hj Hk). unfold within.
  destruct (m (part db, fs)) as [[p fs'] r]. destruct Hm as [Hj' Hq].
  split; [by apply Hpost|]. destruct r; [|done]. by exists db, p.
Qed.

Lemma triple_within {A} (I : D -> Prop) (J : P -> Prop) (K : P -> Prop) (m : M P E A)
    (Q : A -> P -> Prop) (R : D -> Prop) :
  triple J K m Q ->
  (forall db, I db -> R db -> J (part db) /\ K (part db)) ->
  (forall db p, I db -> R db -> J p -> I (put p db)) ->
  triple I R (within m) (fun x db => Q x (part db)).
Proof.
  intros Hm H1 H2. eapply triple_weaken; [by eapply triple_within_from | done|].
  intros x db _ (db0 & p & _ & -> & _ & Hq). by rewrite part_put.
Qed.

Lemma keeps_within {A} (I : D -> Prop) (J : P -> Prop) (m : M P E A) :
  keeps J m -> (forall db, I db -> J (part db)) ->
  (forall db p, I db -> J p -> I (put p db)) -> keeps I (within m).
Proof.
  intros Hm H1 H2. eapply triple_weaken; [eapply (triple_within I J (fun _ => True) m)|..].
  - exact Hm.
  - intros db Hi _. split; [by apply H1 | done].
  - intros db p Hi _ Hj. by apply H2.
  - done.
  - done.
Qed.

Lemma reads_within {A} (m : M P E A) (R : P -> A -> Prop) :
  reads m R -> reads (within m) (fun db x => R (part db) x).
Proof.
  intros H db fs. specialize (H (part db) fs). unfold within.
  destruct (m (part db, fs)) as [[p fs'] r]. destruct H as [-> H]. by rewrite put_part.
Qed.

(** What does not look at the part survives any run on it. *)
Lemma keeps_within_frame {A} (I : D -> Prop) (m : M P E A) :
  (forall db p, I db -> I (put p db)) -> keeps I (within m).
Proof.
  intros H db fs Hi _. unfold within. destruct (m (part db, fs)) as [[p fs'] r].
  split; [by apply H | by destruct r].
Qed.
End Within.

Lemma triple_map_err {D E E' A} (f : E -> E') I P (m : M D E A) (Q : A -> D -> Prop) :
  triple I P m Q -> triple I P (map_err f m) Q.
Proof.
  intros H db fs Hi Hp. specialize (H db fs Hi Hp). unfold map_err.
  by destruct (m (db, fs)) as [[db' fs'] [x|e]].
Qed.

(** A callee's run that leaves its part as it was leaves the whole as it was. *)
Lemma within_at {D P E A} `{Part D P} (m : Faults.M P E A) (db : D) fs fs' r :
  m (part db, fs) = ((part db, fs'), r) -> within m (db, fs) = ((db, fs'), r).
Proof. intros Hm. unfold within. rewrite Hm. by rewrite put_part. Qed.

Lemma keeps_map_err {D E E' A} (f : E -> E') I (m : M D E A) : keeps I m -> keeps I (map_err f m).
Proof. apply triple_map_err. Qed.

Lemma reads_map_err {D E E' A} (f : E -> E') (m : M D E A) R : reads m R -> reads (map_err f m) R.
Proof.
  intros H db fs. specialize (H db fs). unfold map_err.
  by destruct (m (db, fs)) as [[db' fs'] [x|e]].
Qed.

Lemma thrifty_within {D P E A} `{Part D P} (m : M P E A) : thrifty m -> thrifty (within (D := D) m).
Proof.
  intros Hm [db fs]. specialize (Hm (part db, fs)). unfold within. by destruct (m (part db, fs)) as [[p fs'] r].
Qed.

Lemma thrifty_map_err {D E E' A} (f : E -> E') (m : M D E A) : thrifty m -> thrifty (map_err f m).
Proof. intros Hm st. specialize (Hm st). unfold map_err. by destruct (m st) as [st' []]. Qed.

Lemma spends_within {D P E A} `{Part D P} (m : M P E A) (R : P -> nat -> A -> Prop) :
  spends m R -> spends (within (D := D) m) (fun db n x => R (part db) n x).
Proof.
  intros Hm db fs. specialize (Hm (part db) fs). unfold within.
  destruct (m (part db, fs)) as [[p fs'] r]. destruct Hm as [-> Hr]. by rewrite put_part.
Qed.

Lemma spends_map_err {D E E' A} (f : E -> E') (m : M D E A) R : spends m R -> spends (map_err f m) R.
Proof.
  intros Hm db fs. specialize (Hm db fs). unfold map_err. by destruct (m (db, fs)) as [[db' fs'] []].
Qed.

Lemma blames_within {D P E A} `{Part D P} (m : M P E A) : blames m -> blames (within (D := D) m).
Proof.
  intros Hm [db fs]. specialize (Hm (part db, fs)). unfold within. by destruct (m (part db, fs)) as [[p fs'] r].
Qed.

Lemma honest_within {D P E A} `{Part D P} (m : M P E A) : honest m -> honest (within (D := D) m).
Proof.
  intros Hm db fs. specialize (Hm (part db) fs). unfold within.
  destruct (m (part db, fs)) as [[p fs'] [x|e]]; [|done]. by rewrite Hm.
Qed.

Lemma honest_map_err {D E E' A} (f : E -> E') (m : M D E A) : honest m -> honest (map_err f m).
Proof.
  intros Hm db fs. specialize (Hm db fs). unfold map_err.
  destruct (m (db, fs)) as [[db' fs'] [x|e]]; [|done]. by rewrite Hm.
Qed.

Lemma clean_within {D P E A} `{Part D P} (m : M P E A) : clean m -> clean (within (D := D) m).
Proof.
  intros Hm db. destruct (Hm (part db)) as (p & r & Hr). unfold within. rewrite Hr. by eexists _, _.
Qed.

Lemma clean_map_err {D E E' A} (f : E -> E') (m : M D E A) : clean m -> clean (map_err f m).
Proof.
  intros Hm db. destruct (Hm db) as (db' & [x|e] & Hr); unfold map_err; rewrite Hr; by eexists _, _.
Qed.

Lemma answers_map_err {D E E' A} (f : E -> E') P (m : M D E A) Q :
  answers P m Q -> answers P (map_err f m) Q.
Proof.
  intros Hm db Hp. destruct (Hm db Hp) as (db' & x & Hr & Hx). exists db', x.
  unfold map_err. by rewrite Hr.
Qed.

#[export] Hint Resolve thrifty_ret thrifty_throw thrifty_peek : css.
#[export] Hint Extern 5 (thrifty _) => apply thrifty_call : css.

#[export] Hint Resolve clean_ret clean_throw clean_effect clean_within clean_map_err
  clean_attempt : css.
#[export] Hint Extern 5 (clean _) => apply clean_call : css.

#[export] Hint Resolve honest_ret honest_throw honest_call honest_peek honest_effect
  honest_within honest_map_err : css.
#[export] Hint Extern 5 (honest _) => apply honest_call : css.

#[export] Hint Resolve keeps_ret keeps_throw keeps_select keeps_peek keeps_attempt
  keeps_map_err : css.
#[export] Hint Extern 5 (keeps _ _) => apply keeps_select : css.
End Faults.

(** Split a run into its calls and settle those that keep the invariant. *)
Ltac run_keeps :=
  repeat first
    [ progress cbv beta zeta
    | solve [auto with css]
    | apply Faults.keeps_bind; [|intros ?]
    | case_match ].

(** The same for [honest]. *)
Ltac run_honest :=
  repeat first
    [ progress cbv beta zeta
    | solve [auto with css]
    | apply Faults.honest_bind; [|intros ?]
    | apply Faults.honest_within
    | apply Faults.honest_map_err
    | case_match ].

(** And for [thrifty]. *)
Ltac run_thrifty :=
  repeat first
    [ progress cbv beta zeta
    | solve [auto with css]
    | apply Faults.thrifty_bind; [|intros ?]
    | apply Faults.thrifty_within
    | apply Faults.thrifty_map_err
    | apply Faults.thrifty_attempt
    | case_match ].

(** And for [clean]. *)
Ltac run_clean :=
  repeat first
    [ progress cbv beta zeta
    | solve [auto with css]
    | apply Faults.clean_bind; [|intros ?]
    | apply Faults.clean_within
    | apply Faults.clean_map_err
    | apply Faults.clean_attempt
    | case_match ].

(** * Requests that run side by side

    [Faults] runs one request at a time.  Here a request is a program of calls, a server
    is tables and the programs it is in the middle of, and at every step any one of them
    makes its next call, which meets whatever faults it meets.  [safe] is the logic: an
    invariant of the tables and of one ghost value per request. *)
Import Faults.

Module Interleaving.

Section Prog.
Context {D E : Type} {F : FaultError E}.

(** ** Programs *)

Inductive Prog (R : Type) : Type :=
  | Done (r : R + E)
  | Step (A : Type) (f : D -> D * (A + E)) (k : A + E -> Prog R).
#[global] Arguments Done {R} r.
#[global] Arguments Step {R} A f k.

#[global] Instance Prog_ret : MRet Prog := fun R x => Done (inl x).

#[global] Instance Prog_bind : MBind Prog := fun A B k =>
  fix bind (m : Prog A) : Prog B :=
    match m with
    | Done (inl x) => k x
    | Done (inr e) => Done (inr e)
    | Step X f c => Step X f (fun r => bind (c r))
    end.

Definition raise {R} (e : E) : Prog R := Done (inr e).

(** A call with [?] after it. *)
Definition do {A} (f : D -> D * (A + E)) : Prog A := Step A f Done.
Definition get {A} (f : D -> A) : Prog A := do (fun db => (db, inl (f db))).

(** A result that is looked at, or dropped with [let _ =]. *)
Definition try {A} (f : D -> D * (A + E)) : Prog (A + E) := Step A f (fun r => Done (inl r)).

(** What a call does, by what it meets. *)
Definition outcome {A} (x : fault) (f : D -> D * (A + E)) (db : D) : D * (A + E) :=
  match x with
  | Fine => f db
  | Refused => (db, inr refused)
  | LostReply => ((f db).1, inr refused)
  end.

Definition advance {R} (x : fault) (p : Prog R) (db : D) : D * Prog R :=
  match p with
  | Done r => (db, Done r)
  | Step A f k => let '(db, r) := outcome x f db in (db, k r)
  end.

(** One request alone: a fault for each call, and none after the last. *)
Fixpoint alone {R} (p : Prog R) (fs : list fault) (db : D) : D * (R + E) :=
  match p with
  | Done r => (db, r)
  | Step A f k =>
      let '(db, r) := outcome (default Fine (head fs)) f db in
      alone (k r) (tail fs) db
  end.

(** ** The server *)

Section Server.
Context {L R : Type} (serve : L -> Prog R).

Definition server : Type := D * list (L * Prog R).

Inductive happens : server -> server -> Prop :=
  | arrives db ps l : happens (db, ps) (db, ps ++ [(l, serve l)])
  | moves db ps i l p x :
      ps !! i = Some (l, p) ->
      happens (db, ps) ((advance x p db).1, <[i := (l, (advance x p db).2)]> ps).

Definition idle (db : D) : server := (db, []).
Definition leads_to (s s' : server) : Prop := rtc happens s s'.

(** A schedule, played. *)
Inductive Event : Type :=
  | Comes (l : L)
  | Goes (i : nat) (x : fault).

Definition occur (s : server) (e : Event) : server :=
  match e with
  | Comes l => (s.1, s.2 ++ [(l, serve l)])
  | Goes i x =>
      match s.2 !! i with
      | Some (l, p) => ((advance x p s.1).1, <[i := (l, (advance x p s.1).2)]> s.2)
      | None => s
      end
  end.

Definition play (s : server) (es : list Event) : server := foldl occur s es.

Lemma play_leads s es : leads_to s (play s es).
Proof.
  revert s. induction es as [|e es IH]; intros s; [apply rtc_refl|].
  unfold leads_to in *. etrans; [|apply IH]. destruct s as [db ps], e as [l | i x]; simpl.
  - apply rtc_once, arrives.
  - destruct (ps !! i) as [[l p]|] eqn:Hi; [by eapply rtc_once, moves | apply rtc_refl].
Qed.

(** ** Ghosts *)

Context {G : Type} (I : D -> list G -> Prop) (Q : L -> G -> R + E -> Prop).

Fixpoint safe {A} (Q : G -> A + E -> Prop) (g : G) (p : Prog A) : Prop :=
  match p with
  | Done r => Q g r
  | Step B f k => forall db gs i x, gs !! i = Some g -> I db gs ->
      exists g', I (outcome x f db).1 (<[i := g']> gs) /\ safe Q g' (k (outcome x f db).2)
  end.

Lemma safe_bind {A B} (m : Prog A) (k : A -> Prog B) (Q1 : G -> A + E -> Prop) (Q2 : G -> B + E -> Prop) g :
  safe Q1 g m -> (forall g x, Q1 g (inl x) -> safe Q2 g (k x)) ->
  (forall g e, Q1 g (inr e) -> Q2 g (inr e)) -> safe Q2 g (m ≫= k).
Proof.
  intros Hm Hk He. revert g Hm. induction m as [[x|e] | X f c IH]; intros g Hm.
  - by apply Hk.
  - by apply He.
  - simpl. intros db gs i x Hi HI. destruct (Hm db gs i x Hi HI) as (g' & HI' & Hc).
    exists g'. split; [done|]. by apply IH.
Qed.

(** A look at the tables that is only remembered as long as it stays true. *)
Lemma safe_get {A} (f : D -> A) (Q1 : G -> A + E -> Prop) g :
  (forall db gs i, gs !! i = Some g -> I db gs ->
    exists g', I db (<[i := g']> gs) /\ Q1 g' (inl (f db))) ->
  Q1 g (inr refused) -> safe Q1 g (get f).
Proof.
  intros Hf He db gs i x Hi HI. destruct x; simpl; [by apply Hf | |];
    (exists g; split; [by rewrite list_insert_id | done]).
Qed.

Lemma safe_advance {A} (Q1 : G -> A + E -> Prop) p x db gs i g :
  safe Q1 g p -> gs !! i = Some g -> I db gs ->
  exists g', I (advance x p db).1 (<[i := g']> gs) /\ safe Q1 g' (advance x p db).2.
Proof.
  destruct p as [r | X f k]; simpl; intros Hs Hi HI.
  - exists g. split; [by rewrite list_insert_id | done].
  - destruct (Hs db gs i x Hi HI) as (g' & HI' & Hs'). exists g'.
    destruct (outcome x f db) as [db' r]. by split.
Qed.

(** Whatever the order and the faults, the invariant holds of some ghosts, and every
    request is safe at its own. *)
Lemma interleaved s s' :
  (forall db gs l, I db gs -> exists g, I db (gs ++ [g]) /\ safe (Q l) g (serve l)) ->
  leads_to s s' ->
  (exists gs, I s.1 gs /\ Forall2 (fun g lp => safe (Q lp.1) g lp.2) gs s.2) ->
  exists gs, I s'.1 gs /\ Forall2 (fun g lp => safe (Q lp.1) g lp.2) gs s'.2.
Proof.
  intros Hnew Hsteps. induction Hsteps as [|s1 s2 s3 Hstep _ IH]; [done|].
  intros (gs & HI & Hgs). apply IH. clear IH. destruct Hstep as [db ps l | db ps i l p x Hp]; simpl in *.
  - destruct (Hnew db gs l HI) as (g & HI' & Hs). exists (gs ++ [g]). split; [done|].
    apply Forall2_app; [done|]. by constructor.
  - destruct (Forall2_lookup_r _ _ _ _ _ Hgs Hp) as (g & Hg & Hs). simpl in Hs.
    destruct (safe_advance (Q l) p x db gs i g Hs Hg HI) as (g' & HI' & Hs').
    exists (<[i := g']> gs). split; [done|]. by apply Forall2_insert.
Qed.
End Server.
End Prog.
#[global] Arguments Prog D E R : clear implicits.
End Interleaving.
