(* ===== verification/Money.v ===== *)
(** * Money ([bigdecimal], and the conversions of [server/src/membership.rs])

    A [BigDecimal] is an exact decimal; values are compared by value, whatever
    their scale, so they are rationals up to [==].  Sums and products are exact.
    Rounding and division belong to the crate and are an interface: only their
    documented behaviour is relied on. *)
From Stdlib Require Import QArith Qround Lqa.
From S2P Require Import Prelude.

Module Money.

#[local] Open Scope Q_scope.

(** Ten to the [n]. *)
Fixpoint ten (n : nat) : positive :=
  match n with O => 1%positive | S n => (10 * ten n)%positive end.

(** At most a hundred significant digits, the precision a quotient is cut to. *)
Definition fits (q : Q) : Prop :=
  exists (m : Z) (s : nat), (Z.abs m < 10 ^ 100)%Z /\ q == m # ten s.

Class Decimal := {
  (** [BigDecimal::round]: to so many places. *)
  dec_round : nat -> Q -> Q;
  (** The operator [/]. *)
  dec_div : Q -> Q -> Q;
  round_mono : forall n a b, a <= b -> dec_round n a <= dec_round n b;
  round_grid : forall n a, exists m : Z, dec_round n a == m # ten n;
  round_exact : forall n (m : Z), dec_round n (m # ten n) == m # ten n;
  (** The quotient is cut to a hundred digits or more, so it never passes a
      value with fewer. *)
  div_le : forall a d c, fits c -> 0 < d -> a <= c * d -> dec_div a d <= c;
  div_ge : forall a d c, fits c -> 0 < d -> c * d <= a -> c <= dec_div a d;
}.

Definition i64_range (z : Z) : Prop := (- 2 ^ 63 <= z < 2 ^ 63)%Z.

(** The literal [{sign}{abs / 100}.{abs % 100:02}], read back. *)
Definition minor_units_to_decimal (minor : Z) : Q :=
  let abs := Z.abs minor in
  let magnitude := inject_Z (abs / 100)%Z + ((abs mod 100)%Z # 100) in
  if (minor <? 0)%Z then - magnitude else magnitude.

(** The rounded value, through its text, or zero when no [i64] holds it. *)
Definition decimal_to_minor_units {D : Decimal} (amount : Q) : Z :=
  let scaled := Qfloor (dec_round 0 (amount * inject_Z 100)) in
  if ((- 2 ^ 63 <=? scaled) && (scaled <? 2 ^ 63))%Z then scaled else 0%Z.

(** [Iterator::fold] from zero with [+]. *)
Definition total (l : list Q) : Q := foldl Qplus 0 l.

(** ** Lemmas *)

#[export] Instance round_proper {D : Decimal} n : Proper (Qeq ==> Qeq) (dec_round n).
Proof.
  intros a b H. apply Qle_antisym; apply round_mono; rewrite H; apply Qle_refl.
Qed.

Lemma Qle_bool_false a b : Qle_bool a b = false <-> b < a.
Proof.
  rewrite <- not_true_iff_false, Qle_bool_iff. split; [apply Qnot_le_lt | apply Qlt_not_le].
Qed.

Lemma total_acc l acc : foldl Qplus acc l == acc + total l.
Proof.
  unfold total. revert acc. induction l as [|x l IH]; intros acc; cbn [foldl]; [lra|].
  rewrite IH, (IH (0 + x)). lra.
Qed.

Lemma total_cons x l : total (x :: l) == x + total l.
Proof. unfold total at 1. cbn [foldl]. rewrite total_acc. lra. Qed.

Lemma total_app l1 l2 : total (l1 ++ l2) == total l1 + total l2.
Proof.
  induction l1 as [|x l1 IH]; cbn [app].
  - change (total []) with 0. lra.
  - rewrite !total_cons, IH. lra.
Qed.

Lemma total_snoc l x : total (l ++ [x]) == total l + x.
Proof. rewrite total_app, total_cons. change (total []) with 0. lra. Qed.

Lemma total_nonneg l : Forall (fun x => 0 <= x) l -> 0 <= total l.
Proof.
  induction 1 as [|x l Hx _ IH]; [unfold total; simpl; lra|]. rewrite total_cons. lra.
Qed.

Lemma total_scale (A : Type) (f : A -> Q) (c : Q) l :
  (forall x, x ∈ l -> f x == c) -> total (f <$> l) == inject_Z (Z.of_nat (length l)) * c.
Proof.
  induction l as [|x l IH]; intros H; [symmetry; apply Qmult_0_l|].
  rewrite fmap_cons, total_cons, IH by (intros; apply H; by right).
  rewrite (H x) by left. cbn [length]. rewrite Nat2Z.inj_succ, <- Z.add_1_l, inject_Z_plus.
  ring.
Qed.

(** Whole counts of minor units convert exactly. *)
Lemma minor_units_value minor : minor_units_to_decimal minor == minor # 100.
Proof.
  unfold minor_units_to_decimal. pose proof (Z.div_mod (Z.abs minor) 100 ltac:(lia)) as H.
  unfold Qeq, Qplus, Qopp, inject_Z. destruct (Z.ltb_spec minor 0); simpl; lia.
Qed.

(** Stripe's minor units survive the round trip through decimals: every
    [i64] count of cents converts to exactly that many hundredths and back. *)
Lemma minor_units_roundtrip {D : Decimal} minor :
  i64_range minor -> decimal_to_minor_units (minor_units_to_decimal minor) = minor.
Proof.
  intros Hr. unfold decimal_to_minor_units.
  assert (dec_round 0 (minor_units_to_decimal minor * inject_Z 100) == inject_Z minor) as H.
  { rewrite minor_units_value. change (inject_Z minor) with (minor # ten 0).
    rewrite <- (round_exact 0 minor). f_equiv. unfold Qeq. simpl. lia. }
  assert (Qfloor (dec_round 0 (minor_units_to_decimal minor * inject_Z 100)) = minor) as ->
    by (rewrite H; apply Qfloor_Z).
  destruct Hr. rewrite (proj2 (Z.leb_le _ _)), (proj2 (Z.ltb_lt _ _)); done.
Qed.

End Money.
