(* ===== verification/AuditLog.v ===== *)
(** * The audit vocabulary ([server/src/models.rs], [server/src/models/alerts.rs])

    Every kind of event the server records, its name on the wire, and what part of
    the system and how much attention it is classified to. *)
From S2P Require Import Prelude.

Module Audit.

Inductive AuditEventType : Type :=
  | UserRegistration | UserLogin | UserLogout | UserRoleChange | UserProfileUpdate |
  UserPasswordChange | UserActivation | UserDeactivation | UserDeletion | AdminConfigReload |
  ProfileConfigUpdated | ProfileConfigRolledBack | FailedLoginAttempt | TrainingSessionStarted |
  TrainingSessionCompleted | TrainingStepCreated | TrainingStepUpdated | TrainingStepDeleted |
  TrainerAssigned | TrainerRemoved | InstructorCertified | InstructorRevoked |
  TrainingWaiverGranted | TrainingWaiverRevoked | TrainingDocumentationAcknowledged |
  ToolAccessGranted | ToolAccessDenied | ToolActivated | ToolDeactivated | ToolUsageLogged |
  RevokedCardPresented | CardIssued | CardDisabled | CardReleased | DeviceInviteCreated |
  DeviceInviteUsed | DeviceInviteExpired | DeviceRegistered | DeviceNameChanged | DeviceDeleted |
  DeviceVersionChanged | WebhookCreated | WebhookUpdated | WebhookDeleted |
  WebhookAuthHeaderCreated | WebhookAuthHeaderUpdated | WebhookAuthHeaderDeleted | MfaTotpEnrolled
  | MfaTotpDisabled | MfaWebauthnRegistered | MfaWebauthnRemoved | MfaRecoveryCodesRegenerated |
  MfaRecoveryCodeUsed | MfaLoginPassed | MfaLoginFailed | DoorCreated | DoorUpdated | DoorDeleted
  | DoorRuleAdded | DoorRuleRemoved | DoorUnlockedCard | DoorUnlockedQr | DoorUnlockedAdmin |
  DoorUnlockDenied | DoorCheckinRecorded | PlaceCreated | PlaceUpdated | PlaceMoved | PlaceDeleted
  | ToolModuleCreated | ToolModuleDeleted | ResourceUpdated | ResourceSessionEnded |
  ResourceSessionReleasedBySweep | ToolInterlockCreated | ToolInterlockDeleted | ToolModuleSilent
  | ToolModuleReturned | UnauthorizedPowerDetected | MqttBrokerLost | MqttBrokerRestored |
  EdgeIsolationReported | PowerCircuitCreated | PowerCircuitUpdated | PowerCircuitDeleted |
  PowerOutletCreated | PowerOutletUpdated | PowerOutletDeleted | PowerReceptacleCreated |
  PowerReceptacleUpdated | PowerReceptacleDeleted | CircuitOverageShutoff |
  EmergencyLockoutEngaged | EmergencyLockoutCleared | FirmwareSelftripReported | ScheduleCreated |
  ScheduleUpdated | ScheduleDeleted | HomeLinkCreated | HomeLinkUpdated | HomeLinkDeleted |
  PasswordResetRequested | PasswordResetCompleted | PasswordResetFailed | EmailVerificationSent |
  EmailVerified | EmailSendFailed | Cmi5CoursePublished | Cmi5CourseDeleted | Cmi5AuAssignedToTool
  | Cmi5Launched | Cmi5AuSatisfied | Cmi5CourseExported | MailingListSubscribe |
  MailingListUnsubscribe | MailingListSyncAdd | MailingListSyncRemove | UserEmailChange |
  UserEmailAdded | UserEmailRemoved | UserMerged | AlertAcknowledged | AlertHeartbeat |
  MembershipGranted | MembershipRevoked | MembershipPaymentRecorded | MembershipLastAdminProtected
  | SubscriptionStarted | SubscriptionCanceled | SubscriptionPaymentFailed | ToolUsageCharged |
  ToolSessionAbandoned | ToolReleasedBySweep | ToolRateTierCreated | ToolRateTierUpdated |
  ToolRateTierDeleted | ToolTierAssigned | ToolTierUnassigned | RoleCreated | RoleUpdated |
  RoleDeleted | RolePermissionsChanged | RoleInheritanceChanged | UserRoleAssigned |
  UserRoleUnassigned.

End Audit.

Module AuditClass.
Import Audit.

Definition as_str (e : AuditEventType) : string :=
  match e with
  | UserRegistration => "user_registration"
  | UserLogin => "user_login"
  | UserLogout => "user_logout"
  | UserRoleChange => "user_role_change"
  | UserProfileUpdate => "user_profile_update"
  | UserPasswordChange => "user_password_change"
  | UserActivation => "user_activation"
  | UserDeactivation => "user_deactivation"
  | UserDeletion => "user_deletion"
  | AdminConfigReload => "admin_config_reload"
  | ProfileConfigUpdated => "profile_config_updated"
  | ProfileConfigRolledBack => "profile_config_rolled_back"
  | FailedLoginAttempt => "failed_login_attempt"
  | TrainingSessionStarted => "training_session_started"
  | TrainingSessionCompleted => "training_session_completed"
  | TrainingStepCreated => "training_step_created"
  | TrainingStepUpdated => "training_step_updated"
  | TrainingStepDeleted => "training_step_deleted"
  | TrainerAssigned => "trainer_assigned"
  | TrainerRemoved => "trainer_removed"
  | InstructorCertified => "instructor_certified"
  | InstructorRevoked => "instructor_revoked"
  | TrainingWaiverGranted => "training_waiver_granted"
  | TrainingWaiverRevoked => "training_waiver_revoked"
  | TrainingDocumentationAcknowledged => "training_documentation_acknowledged"
  | ToolAccessGranted => "tool_access_granted"
  | ToolAccessDenied => "tool_access_denied"
  | ToolActivated => "tool_activated"
  | ToolDeactivated => "tool_deactivated"
  | ToolUsageLogged => "tool_usage_logged"
  | RevokedCardPresented => "revoked_card_presented"
  | CardIssued => "card_issued"
  | CardDisabled => "card_disabled"
  | CardReleased => "card_released"
  | DeviceInviteCreated => "device_invite_created"
  | DeviceInviteUsed => "device_invite_used"
  | DeviceInviteExpired => "device_invite_expired"
  | DeviceRegistered => "device_registered"
  | DeviceNameChanged => "device_name_changed"
  | DeviceDeleted => "device_deleted"
  | DeviceVersionChanged => "device_version_changed"
  | WebhookCreated => "webhook_created"
  | WebhookUpdated => "webhook_updated"
  | WebhookDeleted => "webhook_deleted"
  | WebhookAuthHeaderCreated => "webhook_auth_header_created"
  | WebhookAuthHeaderUpdated => "webhook_auth_header_updated"
  | WebhookAuthHeaderDeleted => "webhook_auth_header_deleted"
  | MfaTotpEnrolled => "mfa_totp_enrolled"
  | MfaTotpDisabled => "mfa_totp_disabled"
  | MfaWebauthnRegistered => "mfa_webauthn_registered"
  | MfaWebauthnRemoved => "mfa_webauthn_removed"
  | MfaRecoveryCodesRegenerated => "mfa_recovery_codes_regenerated"
  | MfaRecoveryCodeUsed => "mfa_recovery_code_used"
  | MfaLoginPassed => "mfa_login_passed"
  | MfaLoginFailed => "mfa_login_failed"
  | DoorCreated => "door_created"
  | DoorUpdated => "door_updated"
  | DoorDeleted => "door_deleted"
  | DoorRuleAdded => "door_rule_added"
  | DoorRuleRemoved => "door_rule_removed"
  | DoorUnlockedCard => "door_unlocked_card"
  | DoorUnlockedQr => "door_unlocked_qr"
  | DoorUnlockedAdmin => "door_unlocked_admin"
  | DoorUnlockDenied => "door_unlock_denied"
  | DoorCheckinRecorded => "door_checkin_recorded"
  | PlaceCreated => "place_created"
  | PlaceUpdated => "place_updated"
  | PlaceMoved => "place_moved"
  | PlaceDeleted => "place_deleted"
  | ToolModuleCreated => "tool_module_created"
  | ToolModuleDeleted => "tool_module_deleted"
  | ResourceUpdated => "resource_updated"
  | ResourceSessionEnded => "resource_session_ended"
  | ResourceSessionReleasedBySweep => "resource_session_released_by_sweep"
  | ToolInterlockCreated => "tool_interlock_created"
  | ToolInterlockDeleted => "tool_interlock_deleted"
  | ToolModuleSilent => "tool_module_silent"
  | ToolModuleReturned => "tool_module_returned"
  | UnauthorizedPowerDetected => "unauthorized_power_detected"
  | MqttBrokerLost => "mqtt_broker_lost"
  | MqttBrokerRestored => "mqtt_broker_restored"
  | EdgeIsolationReported => "edge_isolation_reported"
  | PowerCircuitCreated => "power_circuit_created"
  | PowerCircuitUpdated => "power_circuit_updated"
  | PowerCircuitDeleted => "power_circuit_deleted"
  | PowerOutletCreated => "power_outlet_created"
  | PowerOutletUpdated => "power_outlet_updated"
  | PowerOutletDeleted => "power_outlet_deleted"
  | PowerReceptacleCreated => "power_receptacle_created"
  | PowerReceptacleUpdated => "power_receptacle_updated"
  | PowerReceptacleDeleted => "power_receptacle_deleted"
  | CircuitOverageShutoff => "circuit_overage_shutoff"
  | EmergencyLockoutEngaged => "emergency_lockout_engaged"
  | EmergencyLockoutCleared => "emergency_lockout_cleared"
  | FirmwareSelftripReported => "firmware_selftrip_reported"
  | ScheduleCreated => "schedule_created"
  | ScheduleUpdated => "schedule_updated"
  | ScheduleDeleted => "schedule_deleted"
  | HomeLinkCreated => "home_link_created"
  | HomeLinkUpdated => "home_link_updated"
  | HomeLinkDeleted => "home_link_deleted"
  | PasswordResetRequested => "password_reset_requested"
  | PasswordResetCompleted => "password_reset_completed"
  | PasswordResetFailed => "password_reset_failed"
  | EmailVerificationSent => "email_verification_sent"
  | EmailVerified => "email_verified"
  | EmailSendFailed => "email_send_failed"
  | Cmi5CoursePublished => "cmi5_course_published"
  | Cmi5CourseDeleted => "cmi5_course_deleted"
  | Cmi5AuAssignedToTool => "cmi5_au_assigned_to_tool"
  | Cmi5Launched => "cmi5_launched"
  | Cmi5AuSatisfied => "cmi5_au_satisfied"
  | Cmi5CourseExported => "cmi5_course_exported"
  | MailingListSubscribe => "mailing_list_subscribe"
  | MailingListUnsubscribe => "mailing_list_unsubscribe"
  | MailingListSyncAdd => "mailing_list_sync_add"
  | MailingListSyncRemove => "mailing_list_sync_remove"
  | UserEmailChange => "user_email_change"
  | UserEmailAdded => "user_email_added"
  | UserEmailRemoved => "user_email_removed"
  | UserMerged => "user_merged"
  | AlertAcknowledged => "alert_acknowledged"
  | AlertHeartbeat => "alert_heartbeat"
  | MembershipGranted => "membership_granted"
  | MembershipRevoked => "membership_revoked"
  | MembershipPaymentRecorded => "membership_payment_recorded"
  | MembershipLastAdminProtected => "membership_last_admin_protected"
  | SubscriptionStarted => "subscription_started"
  | SubscriptionCanceled => "subscription_canceled"
  | SubscriptionPaymentFailed => "subscription_payment_failed"
  | ToolUsageCharged => "tool_usage_charged"
  | ToolSessionAbandoned => "tool_session_abandoned"
  | ToolReleasedBySweep => "tool_released_by_sweep"
  | ToolRateTierCreated => "tool_rate_tier_created"
  | ToolRateTierUpdated => "tool_rate_tier_updated"
  | ToolRateTierDeleted => "tool_rate_tier_deleted"
  | ToolTierAssigned => "tool_tier_assigned"
  | ToolTierUnassigned => "tool_tier_unassigned"
  | RoleCreated => "role_created"
  | RoleUpdated => "role_updated"
  | RoleDeleted => "role_deleted"
  | RolePermissionsChanged => "role_permissions_changed"
  | RoleInheritanceChanged => "role_inheritance_changed"
  | UserRoleAssigned => "user_role_assigned"
  | UserRoleUnassigned => "user_role_unassigned"
  end.

(** In display order. *)
Definition all : list AuditEventType := [
  UserRegistration; UserLogin; UserLogout; UserRoleChange; UserProfileUpdate; UserPasswordChange;
  UserActivation; UserDeactivation; UserDeletion; AdminConfigReload; ProfileConfigUpdated;
  ProfileConfigRolledBack; FailedLoginAttempt; TrainingSessionStarted; TrainingSessionCompleted;
  TrainingStepCreated; TrainingStepUpdated; TrainingStepDeleted; TrainerAssigned; TrainerRemoved;
  InstructorCertified; InstructorRevoked; TrainingWaiverGranted; TrainingWaiverRevoked;
  TrainingDocumentationAcknowledged; ToolAccessGranted; ToolAccessDenied; ToolActivated;
  ToolDeactivated; ToolUsageLogged; RevokedCardPresented; CardIssued; CardDisabled; CardReleased;
  DeviceInviteCreated; DeviceInviteUsed; DeviceInviteExpired; DeviceRegistered; DeviceNameChanged;
  DeviceDeleted; DeviceVersionChanged; WebhookCreated; WebhookUpdated; WebhookDeleted;
  WebhookAuthHeaderCreated; WebhookAuthHeaderUpdated; WebhookAuthHeaderDeleted; MfaTotpEnrolled;
  MfaTotpDisabled; MfaWebauthnRegistered; MfaWebauthnRemoved; MfaRecoveryCodesRegenerated;
  MfaRecoveryCodeUsed; MfaLoginPassed; MfaLoginFailed; DoorCreated; DoorUpdated; DoorDeleted;
  DoorRuleAdded; DoorRuleRemoved; DoorUnlockedCard; DoorUnlockedQr; DoorUnlockedAdmin;
  DoorUnlockDenied; DoorCheckinRecorded; PlaceCreated; PlaceUpdated; PlaceMoved; PlaceDeleted;
  ToolModuleCreated; ToolModuleDeleted; ResourceUpdated; ResourceSessionEnded;
  ResourceSessionReleasedBySweep; ToolInterlockCreated; ToolInterlockDeleted; ToolModuleSilent;
  ToolModuleReturned; UnauthorizedPowerDetected; MqttBrokerLost; MqttBrokerRestored;
  EdgeIsolationReported; PowerCircuitCreated; PowerCircuitUpdated; PowerCircuitDeleted;
  PowerOutletCreated; PowerOutletUpdated; PowerOutletDeleted; PowerReceptacleCreated;
  PowerReceptacleUpdated; PowerReceptacleDeleted; CircuitOverageShutoff; EmergencyLockoutEngaged;
  EmergencyLockoutCleared; FirmwareSelftripReported; ScheduleCreated; ScheduleUpdated;
  ScheduleDeleted; HomeLinkCreated; HomeLinkUpdated; HomeLinkDeleted; PasswordResetRequested;
  PasswordResetCompleted; PasswordResetFailed; EmailVerificationSent; EmailVerified;
  EmailSendFailed; Cmi5CoursePublished; Cmi5CourseDeleted; Cmi5AuAssignedToTool; Cmi5Launched;
  Cmi5AuSatisfied; Cmi5CourseExported; MailingListSubscribe; MailingListUnsubscribe;
  MailingListSyncAdd; MailingListSyncRemove; UserEmailChange; UserEmailAdded; UserEmailRemoved;
  UserMerged; AlertAcknowledged; AlertHeartbeat; MembershipGranted; MembershipRevoked;
  MembershipPaymentRecorded; MembershipLastAdminProtected; SubscriptionStarted;
  SubscriptionCanceled; SubscriptionPaymentFailed; ToolUsageCharged; ToolSessionAbandoned;
  ToolReleasedBySweep; ToolRateTierCreated; ToolRateTierUpdated; ToolRateTierDeleted;
  ToolTierAssigned; ToolTierUnassigned; RoleCreated; RoleUpdated; RoleDeleted;
  RolePermissionsChanged; RoleInheritanceChanged; UserRoleAssigned; UserRoleUnassigned].

(** ** Classification *)

Module Category.

Inductive t : Type :=
  | User | Training | Tool | Card | Device | Webhook | Mfa | Door | Place | Module | Bypass |
  Power | Schedule | Mail | Membership | Cmi5 | Groupsio | Rbac | Alerts.

Definition ALL : list t := [User; Training; Tool; Card; Device; Webhook; Mfa; Door; Place; Module; Bypass; Power; Schedule; Mail; Membership; Cmi5; Groupsio; Rbac; Alerts].

Definition as_str (c : t) : string :=
  match c with
  | User => "user"
  | Training => "training"
  | Tool => "tool"
  | Card => "card"
  | Device => "device"
  | Webhook => "webhook"
  | Mfa => "mfa"
  | Door => "door"
  | Place => "place"
  | Module => "module"
  | Bypass => "bypass"
  | Power => "power"
  | Schedule => "schedule"
  | Mail => "mail"
  | Membership => "membership"
  | Cmi5 => "cmi5"
  | Groupsio => "groupsio"
  | Rbac => "rbac"
  | Alerts => "alerts"
  end.

Definition parse (s : string) : option t := find_first (fun c => as_str c ≟ s) ALL.

End Category.

Module Severity.

Inductive t : Type := Info | Notice | Warning | Critical.

Definition ALL : list t := [Info; Notice; Warning; Critical].

Definition as_str (s : t) : string :=
  match s with
  | Info => "info" | Notice => "notice" | Warning => "warning" | Critical => "critical"
  end.

Definition rank (s : t) : Z := match s with Info => 0 | Notice => 1 | Warning => 2 | Critical => 3 end.

Definition parse (s : string) : option t := find_first (fun v => as_str v ≟ s) ALL.

End Severity.

Definition category (e : AuditEventType) : Category.t :=
  match e with
  | UserRegistration | UserLogin | UserLogout | UserRoleChange | UserProfileUpdate |
  UserPasswordChange | UserActivation | UserDeactivation | UserDeletion | AdminConfigReload |
  ProfileConfigUpdated | ProfileConfigRolledBack | FailedLoginAttempt | UserEmailChange |
  UserEmailAdded | UserEmailRemoved | UserMerged => Category.User
  | TrainingSessionStarted | TrainingSessionCompleted | TrainingStepCreated | TrainingStepUpdated
  | TrainingStepDeleted | TrainerAssigned | TrainerRemoved | InstructorCertified |
  InstructorRevoked | TrainingWaiverGranted | TrainingWaiverRevoked |
  TrainingDocumentationAcknowledged => Category.Training
  | ToolAccessGranted | ToolAccessDenied | ToolActivated | ToolDeactivated | ToolUsageLogged |
  ToolUsageCharged | ToolSessionAbandoned | ToolReleasedBySweep | ToolRateTierCreated |
  ToolRateTierUpdated | ToolRateTierDeleted | ToolTierAssigned | ToolTierUnassigned => Category.Tool
  | RevokedCardPresented | CardIssued | CardDisabled | CardReleased => Category.Card
  | DeviceInviteCreated | DeviceInviteUsed | DeviceInviteExpired | DeviceRegistered |
  DeviceNameChanged | DeviceDeleted | DeviceVersionChanged => Category.Device
  | WebhookCreated | WebhookUpdated | WebhookDeleted | WebhookAuthHeaderCreated |
  WebhookAuthHeaderUpdated | WebhookAuthHeaderDeleted => Category.Webhook
  | MfaTotpEnrolled | MfaTotpDisabled | MfaWebauthnRegistered | MfaWebauthnRemoved |
  MfaRecoveryCodesRegenerated | MfaRecoveryCodeUsed | MfaLoginPassed | MfaLoginFailed => Category.Mfa
  | DoorCreated | DoorUpdated | DoorDeleted | DoorRuleAdded | DoorRuleRemoved | DoorUnlockedCard |
  DoorUnlockedQr | DoorUnlockedAdmin | DoorUnlockDenied | DoorCheckinRecorded => Category.Door
  | PlaceCreated | PlaceUpdated | PlaceMoved | PlaceDeleted => Category.Place
  | ToolModuleCreated | ToolModuleDeleted | ResourceUpdated | ResourceSessionEnded |
  ResourceSessionReleasedBySweep | ToolInterlockCreated | ToolInterlockDeleted => Category.Module
  | ToolModuleSilent | ToolModuleReturned | UnauthorizedPowerDetected | MqttBrokerLost |
  MqttBrokerRestored | EdgeIsolationReported => Category.Bypass
  | PowerCircuitCreated | PowerCircuitUpdated | PowerCircuitDeleted | PowerOutletCreated |
  PowerOutletUpdated | PowerOutletDeleted | PowerReceptacleCreated | PowerReceptacleUpdated |
  PowerReceptacleDeleted | CircuitOverageShutoff | EmergencyLockoutEngaged |
  EmergencyLockoutCleared | FirmwareSelftripReported => Category.Power
  | ScheduleCreated | ScheduleUpdated | ScheduleDeleted | HomeLinkCreated | HomeLinkUpdated |
  HomeLinkDeleted => Category.Schedule
  | PasswordResetRequested | PasswordResetCompleted | PasswordResetFailed | EmailVerificationSent
  | EmailVerified | EmailSendFailed => Category.Mail
  | Cmi5CoursePublished | Cmi5CourseDeleted | Cmi5AuAssignedToTool | Cmi5Launched |
  Cmi5AuSatisfied | Cmi5CourseExported => Category.Cmi5
  | MailingListSubscribe | MailingListUnsubscribe | MailingListSyncAdd | MailingListSyncRemove => Category.Groupsio
  | MembershipGranted | MembershipRevoked | MembershipPaymentRecorded |
  MembershipLastAdminProtected | SubscriptionStarted | SubscriptionCanceled |
  SubscriptionPaymentFailed => Category.Membership
  | RoleCreated | RoleUpdated | RoleDeleted | RolePermissionsChanged | RoleInheritanceChanged |
  UserRoleAssigned | UserRoleUnassigned => Category.Rbac
  | AlertAcknowledged | AlertHeartbeat => Category.Alerts
  end.

Definition severity (e : AuditEventType) : Severity.t :=
  match e with
  | UnauthorizedPowerDetected | CircuitOverageShutoff | EmergencyLockoutEngaged |
  FirmwareSelftripReported | EdgeIsolationReported => Severity.Critical
  | ToolModuleSilent | MqttBrokerLost | RevokedCardPresented | EmailSendFailed |
  SubscriptionPaymentFailed | MembershipLastAdminProtected | ToolReleasedBySweep |
  ResourceSessionReleasedBySweep => Severity.Warning
  | FailedLoginAttempt | MfaLoginFailed | ToolAccessDenied | DoorUnlockDenied |
  PasswordResetFailed | ToolSessionAbandoned | ToolModuleReturned | MqttBrokerRestored |
  EmergencyLockoutCleared | DoorUnlockedAdmin | ResourceSessionEnded | UserRoleChange |
  UserRoleAssigned | UserRoleUnassigned | RolePermissionsChanged | RoleInheritanceChanged |
  UserDeactivation | UserDeletion | UserMerged | AdminConfigReload | CardDisabled |
  MembershipRevoked | DeviceDeleted | MfaTotpDisabled | MfaWebauthnRemoved | TrainingWaiverRevoked
  | InstructorRevoked | DoorRuleRemoved | AlertHeartbeat => Severity.Notice
  | UserRegistration | UserLogin | UserLogout | UserProfileUpdate | UserPasswordChange |
  UserActivation | ProfileConfigUpdated | ProfileConfigRolledBack | UserEmailChange |
  UserEmailAdded | UserEmailRemoved | TrainingSessionStarted | TrainingSessionCompleted |
  TrainingStepCreated | TrainingStepUpdated | TrainingStepDeleted | TrainerAssigned |
  TrainerRemoved | InstructorCertified | TrainingWaiverGranted | TrainingDocumentationAcknowledged
  | ToolAccessGranted | ToolActivated | ToolDeactivated | ToolUsageLogged | ToolUsageCharged |
  ToolRateTierCreated | ToolRateTierUpdated | ToolRateTierDeleted | ToolTierAssigned |
  ToolTierUnassigned | CardIssued | CardReleased | DeviceInviteCreated | DeviceInviteUsed |
  DeviceInviteExpired | DeviceRegistered | DeviceNameChanged | DeviceVersionChanged |
  WebhookCreated | WebhookUpdated | WebhookDeleted | WebhookAuthHeaderCreated |
  WebhookAuthHeaderUpdated | WebhookAuthHeaderDeleted | MfaTotpEnrolled | MfaWebauthnRegistered |
  MfaRecoveryCodesRegenerated | MfaRecoveryCodeUsed | MfaLoginPassed | DoorCreated | DoorUpdated |
  DoorDeleted | DoorRuleAdded | DoorUnlockedCard | DoorUnlockedQr | DoorCheckinRecorded |
  PlaceCreated | PlaceUpdated | PlaceMoved | PlaceDeleted | ToolModuleCreated | ToolModuleDeleted
  | ResourceUpdated | ToolInterlockCreated | ToolInterlockDeleted | PowerCircuitCreated |
  PowerCircuitUpdated | PowerCircuitDeleted | PowerOutletCreated | PowerOutletUpdated |
  PowerOutletDeleted | PowerReceptacleCreated | PowerReceptacleUpdated | PowerReceptacleDeleted |
  ScheduleCreated | ScheduleUpdated | ScheduleDeleted | HomeLinkCreated | HomeLinkUpdated |
  HomeLinkDeleted | PasswordResetRequested | PasswordResetCompleted | EmailVerificationSent |
  EmailVerified | Cmi5CoursePublished | Cmi5CourseDeleted | Cmi5AuAssignedToTool | Cmi5Launched |
  Cmi5AuSatisfied | Cmi5CourseExported | MailingListSubscribe | MailingListUnsubscribe |
  MailingListSyncAdd | MailingListSyncRemove | MembershipGranted | MembershipPaymentRecorded |
  SubscriptionStarted | SubscriptionCanceled | RoleCreated | RoleUpdated | RoleDeleted |
  AlertAcknowledged => Severity.Info
  end.

Definition severe (min : Severity.t) (e : AuditEventType) : bool :=
  Severity.rank min <=? Severity.rank (severity e).

(** The wire names at or above a severity: what the feed and the webhooks filter on. *)
Definition at_least (min : Severity.t) : list string := as_str <$> List.filter (severe min) all.

Definition parse (s : string) : option AuditEventType := find_first (fun e => as_str e ≟ s) all.

(** ** Lemmas *)

(** Every kind is listed under its own name: nothing stored is unreadable. *)
Lemma parse_as_str e : parse (as_str e) = Some e.
Proof. destruct e; vm_compute; reflexivity. Qed.

Lemma as_str_inj e f : as_str e = as_str f -> e = f.
Proof. intros H. apply (f_equal parse) in H. rewrite !parse_as_str in H. by injection H. Qed.

#[export] Instance AuditEventType_eq_dec : EqDecision AuditEventType.
Proof.
  refine (fun e f => cast_if (decide (as_str e = as_str f))); [by apply as_str_inj | by intros ->].
Defined.

Lemma parse_iff s e : parse s = Some e <-> s = as_str e.
Proof.
  split; [|intros ->; apply parse_as_str]. intros H. apply find_first_Some in H as [_ H].
  by apply bool_decide_eq_true in H.
Qed.

Lemma elem_of_all e : e ∈ all.
Proof. pose proof (parse_as_str e) as H. by apply find_first_Some in H as [H _]. Qed.

Lemma elem_of_at_least min s :
  s ∈ at_least min <-> exists e, s = as_str e /\ severe min e = true.
Proof.
  unfold at_least. rewrite list_elem_of_fmap. setoid_rewrite elem_of_lfilter. split.
  - intros (e & -> & _ & H). by exists e.
  - intros (e & -> & H). exists e. split_and!; [done | apply elem_of_all | done].
Qed.

Lemma category_parse_as_str c : Category.parse (Category.as_str c) = Some c.
Proof. by destruct c. Qed.

Lemma severity_parse_as_str s : Severity.parse (Severity.as_str s) = Some s.
Proof. by destruct s. Qed.

End AuditClass.
