(* ===== verification/Database.v ===== *)
(** * The tables behind money ([server/src/database.rs])

    The rows the membership and tool-billing services read and write, and the
    [DatabaseManager] methods they call, in an error monad over the tables.  A
    method is one statement or one transaction, so it happens or it does not;
    a run carries a schedule of faults -- a refused connection, or a reply lost
    after the commit -- and what is proved holds under every schedule. *)
From Stdlib Require Import QArith Lqa.
From S2P Require Import Prelude Rbac Faults Money AuditLog.
Import Faults Rbac Money.

Module Database.

#[global] Open Scope Z_scope.

Inductive DatabaseError : Type :=
  | Connection
  | NotFound
  | UniqueViolation
  | ForeignKeyViolation
  | CheckViolation
  | UnknownFault
  | OtherError (message : string).

#[global] Instance DatabaseError_eq_dec : EqDecision DatabaseError.
Proof. solve_decision. Defined.

Inductive LedgerEntryType : Type :=
  | StripePayment | CashPayment | DuesCharge | StripeRefund | Adjustment | ToolUsage.

Inductive ToolStatus : Type := Idle | InUse | Maintenance | Broken | Repair | Retired.

#[global] Instance ToolStatus_eq_dec : EqDecision ToolStatus.
Proof. solve_decision. Defined.

Export Audit.

(** [hash_token] ([server/src/tokens.rs]): SHA-256 of a token, in hexadecimal. *)
Class TokenHash := hash_token : string -> string.

(** [gen_random_uuid()]: never the same identifier twice. *)
Class IdSource {U : Uuid} := {
  gen_random_uuid : nat -> uuid;
  gen_random_uuid_inj : forall i j, gen_random_uuid i = gen_random_uuid j -> i = j;
}.

Definition GUEST : string := "guest".
Definition TIERS : list string := [GUEST; "historical"; "active"; "staff"; "admin"]%string.

Section Database.
Context {U : Uuid} {IS : IdSource}.

(** ** Rows *)

Record User := {
  user_id : uuid;
  full_name : string;
  is_active : bool;
  membership_next_due_at : option instant;
  profile : json;
}.

Record Role := {
  role_id : uuid;
  role_name : string;
  role_level : Z;
}.

Record NewLedgerEntry := {
  nle_user_id : uuid;
  nle_entry_type : LedgerEntryType;
  nle_amount : Q;
  nle_currency : string;
  nle_occurred_at : instant;
  nle_description : option string;
  nle_external_reference : option string;
  nle_created_by : option uuid;
}.

Record LedgerEntry := {
  le_id : uuid;
  le_entry : NewLedgerEntry;
}.

Record Tool := {
  tool_id : uuid;
  tool_name : string;
  tool_status : ToolStatus;
  requires_training : bool;
  external_id : option string;
  receptacle_id : option uuid;
  usage_flat_fee : option Q;
  usage_rate_per_min : option Q;
  usage_max_session_minutes : option Z;
  usage_basis : string;
  schedule_id : option uuid;
  updated_at : instant;
}.

Record ToolRateTier := {
  tier_id : uuid;
  flat_fee : option Q;
  rate_per_min : option Q;
  max_session_minutes : option Z;
}.

Record NewToolUsageSession := {
  ns_tool_id : uuid;
  ns_user_id : uuid;
  started_at : instant;
  hold_amount : Q;
  rate_flat_fee : option Q;
  rate_per_min_locked : option Q;
  session_tier_id : option uuid;
}.

Record ToolUsageSession := {
  session_id : uuid;
  opened : NewToolUsageSession;
  ended_at : option instant;
  reported_seconds : option Q;
  charged_amount : option Q;
  status : string;
  ledger_entry_id : option uuid;
  reported_active_seconds : option Q;
  reported_sensed_seconds : option Q;
  reported_unsensed_seconds : option Q;
}.

Record NewMembershipSyncRun := {
  run_started_at : instant;
  run_finished_at : instant;
  run_users_checked : Z;
  run_dues_charged : Z;
  run_lapsed : Z;
  run_errors : Z;
  run_ok : bool;
  run_error : option string;
}.

(** The tables, the cached role graph, and what the services put on record:
    the audit log and the times the door lists were republished. *)
Record Db := {
  users : gmap uuid User;
  roles : list Role;
  user_roles : list (uuid * uuid);
  rbac : RoleGraph;
  ledger : list LedgerEntry;
  tools : gmap uuid Tool;
  tiers : gmap uuid ToolRateTier;
  tier_assignments : gmap (uuid * uuid) uuid;
  sessions : list ToolUsageSession;
  stripe_customers : list (string * uuid);
  sync_runs : list NewMembershipSyncRun;
  next_id : nat;
  audits : list (AuditEventType * option uuid);
  republished : nat;
}.

Definition with_users (f : gmap uuid User -> gmap uuid User) (db : Db) : Db := {|
  users := f (users db); roles := roles db; user_roles := user_roles db; rbac := rbac db;
  ledger := ledger db; tools := tools db; tiers := tiers db;
  tier_assignments := tier_assignments db; sessions := sessions db;
  stripe_customers := stripe_customers db; sync_runs := sync_runs db; next_id := next_id db;
  audits := audits db; republished := republished db |}.

Definition with_user_roles (f : list (uuid * uuid) -> list (uuid * uuid)) (db : Db) : Db := {|
  users := users db; roles := roles db; user_roles := f (user_roles db); rbac := rbac db;
  ledger := ledger db; tools := tools db; tiers := tiers db;
  tier_assignments := tier_assignments db; sessions := sessions db;
  stripe_customers := stripe_customers db; sync_runs := sync_runs db; next_id := next_id db;
  audits := audits db; republished := republished db |}.

Definition with_tools (f : gmap uuid Tool -> gmap uuid Tool) (db : Db) : Db := {|
  users := users db; roles := roles db; user_roles := user_roles db; rbac := rbac db;
  ledger := ledger db; tools := f (tools db); tiers := tiers db;
  tier_assignments := tier_assignments db; sessions := sessions db;
  stripe_customers := stripe_customers db; sync_runs := sync_runs db; next_id := next_id db;
  audits := audits db; republished := republished db |}.

(** A row of the ledger, taking the next identifier. *)
Definition add_ledger (row : LedgerEntry) (db : Db) : Db := {|
  users := users db; roles := roles db; user_roles := user_roles db; rbac := rbac db;
  ledger := ledger db ++ [row]; tools := tools db; tiers := tiers db;
  tier_assignments := tier_assignments db; sessions := sessions db;
  stripe_customers := stripe_customers db; sync_runs := sync_runs db; next_id := S (next_id db);
  audits := audits db; republished := republished db |}.

Definition with_sessions (n : nat) (f : list ToolUsageSession -> list ToolUsageSession)
    (db : Db) : Db := {|
  users := users db; roles := roles db; user_roles := user_roles db; rbac := rbac db;
  ledger := ledger db; tools := tools db; tiers := tiers db;
  tier_assignments := tier_assignments db; sessions := f (sessions db);
  stripe_customers := stripe_customers db; sync_runs := sync_runs db;
  next_id := (n + next_id db)%nat; audits := audits db; republished := republished db |}.

Definition with_record
    (f : list (AuditEventType * option uuid) -> list (AuditEventType * option uuid))
    (n : nat) (db : Db) : Db := {|
  users := users db; roles := roles db; user_roles := user_roles db; rbac := rbac db;
  ledger := ledger db; tools := tools db; tiers := tiers db;
  tier_assignments := tier_assignments db; sessions := sessions db;
  stripe_customers := stripe_customers db; sync_runs := sync_runs db; next_id := next_id db;
  audits := f (audits db); republished := (n + republished db)%nat |}.

Definition add_sync_run (row : NewMembershipSyncRun) (db : Db) : Db := {|
  users := users db; roles := roles db; user_roles := user_roles db; rbac := rbac db;
  ledger := ledger db; tools := tools db; tiers := tiers db;
  tier_assignments := tier_assignments db; sessions := sessions db;
  stripe_customers := stripe_customers db; sync_runs := sync_runs db ++ [row];
  next_id := next_id db; audits := audits db; republished := republished db |}.

(** ** The monad *)

#[global] Instance DatabaseError_fault : FaultError DatabaseError := Connection.
Abbreviation M := (Faults.M Db DatabaseError).

(** [DatabaseManager::rbac]: the cached graph, in memory. *)
Definition rbac_graph : M RoleGraph := peek rbac.

(** ** Users and roles *)

Definition find_user_by_id (uid : uuid) : M (option User) := select (fun db => users db !! uid).

Definition roles_for_user (db : Db) (uid : uuid) : list uuid :=
  (List.filter (fun ur => ur.1 ≟ uid) (user_roles db)).*2.

Definition user_has_permission (uid : uuid) (key : string) : M bool :=
  select (fun db => has_permission (rbac db) (roles_for_user db uid) key).

(** [ORDER BY level DESC LIMIT 1]. *)
Definition user_primary_role (uid : uuid) : M string :=
  select (fun db =>
    let held := List.filter (fun r => bool_decide (role_id r ∈ roles_for_user db uid)) (roles db) in
    match sort_by (fun a b => role_level b <=? role_level a) held with
    | r :: _ => role_name r
    | [] => GUEST
    end).

Definition user_effective_level (uid : uuid) : M Z :=
  select (fun db => effective_level (rbac db) (roles_for_user db uid)).

Definition set_user_primary_role (uid : uuid) (name : string) : M unit :=
  call (fun db =>
    let tier_ids := role_id <$> List.filter (fun r => bool_decide (role_name r ∈ TIERS)) (roles db) in
    let kept := List.filter
      (fun ur => negb ((ur.1 ≟ uid) && bool_decide (ur.2 ∈ tier_ids))) (user_roles db) in
    let rows :=
      match find_first (fun r => role_name r ≟ name) (roles db) with
      | Some r => if bool_decide ((uid, role_id r) ∈ kept) then kept else kept ++ [(uid, role_id r)]
      | None => kept
      end in
    (with_user_roles (fun _ => rows) db, inl tt)).

(** The role assignments of the active users, grouped. *)
Definition active_assignments (db : Db) : gmap uuid (list uuid) :=
  foldl (fun by_user ur =>
    if is_some_and (users db !! ur.1) is_active
    then or_default [] ur.1 (fun l => l ++ [ur.2]) by_user else by_user) ∅ (user_roles db).

Definition active_admins (db : Db) : list (uuid * list uuid) :=
  List.filter (fun ul => has_permission (rbac db) ul.2 "admin.access") (map_to_list (active_assignments db)).

Definition count_active_admins : M Z := select (fun db => Z.of_nat (length (active_admins db))).

Definition enrolled_users : M (list User) :=
  select (fun db =>
    List.filter (fun u => is_some (membership_next_due_at u)) (map_to_list (users db)).*2).

Definition set_membership_next_due (uid : uuid) (next_due : option instant) : M unit :=
  call (fun db =>
    match users db !! uid with
    | None => (db, inr NotFound)
    | Some u =>
        (with_users <[uid := {| user_id := user_id u; full_name := full_name u;
                                is_active := is_active u; membership_next_due_at := next_due;
                                profile := profile u |}]> db, inl tt)
    end).

(** ** The ledger *)

Definition references (db : Db) : list string :=
  omap (fun e => nle_external_reference (le_entry e)) (ledger db).

(** The foreign key on the user, and the partial unique index on the reference. *)
Definition insert_ledger_entry (entry : NewLedgerEntry) : M LedgerEntry :=
  call (fun db =>
    match users db !! nle_user_id entry with
    | None => (db, inr ForeignKeyViolation)
    | Some _ =>
        if is_some_and (nle_external_reference entry) (fun r => bool_decide (r ∈ references db))
        then (db, inr UniqueViolation)
        else let row := {| le_id := gen_random_uuid (next_id db); le_entry := entry |} in
             (add_ledger row db, inl row)
    end).

Definition ledger_entry_exists_for_reference (reference : string) : M bool :=
  select (fun db => 0 <? Z.of_nat (length
    (List.filter (fun e => nle_external_reference (le_entry e) ≟ Some reference) (ledger db)))).

Definition amounts (db : Db) (uid : uuid) : list Q :=
  (fun e => nle_amount (le_entry e)) <$>
    List.filter (fun e => nle_user_id (le_entry e) ≟ uid) (ledger db).

Definition balance (db : Db) (uid : uuid) : Q := total (amounts db uid).

Definition user_balance (uid : uuid) : M Q := select (fun db => balance db uid).

(** Every (user, customer) pair, oldest first; the user is joined in. *)
Definition users_with_stripe_customer : M (list (User * string)) :=
  select (fun db => omap (fun cu => u ← users db !! cu.2; Some (u, cu.1)) (stripe_customers db)).

Definition find_user_by_stripe_customer_id (customer : string) : M (option User) :=
  select (fun db =>
    cu ← find_first (fun cu => cu.1 ≟ customer) (stripe_customers db); users db !! cu.2).

Definition record_membership_sync_run (row : NewMembershipSyncRun) : M unit :=
  call (fun db => (add_sync_run row db, inl tt)).

(** ** Tool sessions *)

Definition is_open (s : ToolUsageSession) : bool := status s ≟ "open"%string.

Definition holds (db : Db) (uid : uuid) : list Q :=
  (fun s => hold_amount (opened s)) <$>
    List.filter (fun s => (ns_user_id (opened s) ≟ uid) && is_open s) (sessions db).

Definition open_holds (db : Db) (uid : uuid) : Q := total (holds db uid).

Definition sum_open_tool_holds (uid : uuid) : M Q := select (fun db => open_holds db uid).

Definition available_balance (uid : uuid) : M Q :=
  b ← user_balance uid;
  h ← sum_open_tool_holds uid;
  mret (b - h)%Q.

Definition tool_open (tid : uuid) (s : ToolUsageSession) : bool :=
  (ns_tool_id (opened s) ≟ tid) && is_open s.

Definition open_tool_session_for_tool (tid : uuid) : M (option ToolUsageSession) :=
  select (fun db => find_first (tool_open tid) (sessions db)).

(** The partial unique index: one open session per tool. *)
Definition insert_tool_session (new : NewToolUsageSession) : M ToolUsageSession :=
  call (fun db =>
    if is_some (find_first (tool_open (ns_tool_id new)) (sessions db)) then (db, inr UniqueViolation)
    else match users db !! ns_user_id new, tools db !! ns_tool_id new with
    | Some _, Some _ =>
        let row := {| session_id := gen_random_uuid (next_id db); opened := new;
          ended_at := None; reported_seconds := None; charged_amount := None;
          status := "open"; ledger_entry_id := None; reported_active_seconds := None;
          reported_sensed_seconds := None; reported_unsensed_seconds := None |} in
        (with_sessions 1 (fun l => l ++ [row]) db, inl row)
    | _, _ => (db, inr ForeignKeyViolation)
    end).

(** [UPDATE tool_usage_sessions ... WHERE id = sid AND status = 'open']. *)
Definition update_open (sid : uuid) (f : ToolUsageSession -> ToolUsageSession)
    (l : list ToolUsageSession) : list ToolUsageSession :=
  (fun s => if (session_id s ≟ sid) && is_open s then f s else s) <$> l.

Definition plus (old : option Q) (seconds : Q) : option Q := Some (default 0%Q old + seconds)%Q.

(** The columns a usage report sets, all read from the row as it was. *)
Definition report (seconds : Q) (sensed : bool) (s : ToolUsageSession) : ToolUsageSession :=
  let sensed' := if sensed then plus (reported_sensed_seconds s) seconds
                 else reported_sensed_seconds s in
  let unsensed' := if sensed then reported_unsensed_seconds s
                   else plus (reported_unsensed_seconds s) seconds in
  {| session_id := session_id s; opened := opened s; ended_at := ended_at s;
     reported_seconds :=
       if sensed then plus (reported_sensed_seconds s) seconds
       else match reported_sensed_seconds s with
            | None => plus (reported_unsensed_seconds s) seconds
            | Some _ => reported_seconds s
            end;
     charged_amount := charged_amount s; status := status s;
     ledger_entry_id := ledger_entry_id s;
     reported_active_seconds := reported_active_seconds s;
     reported_sensed_seconds := sensed'; reported_unsensed_seconds := unsensed' |}.

Definition add_reported_seconds (sid : uuid) (seconds : Q) (sensed : bool) : M unit :=
  call (fun db => (with_sessions 0 (update_open sid (report seconds sensed)) db, inl tt)).

Definition report_active (seconds : Q) (s : ToolUsageSession) : ToolUsageSession :=
  {| session_id := session_id s; opened := opened s; ended_at := ended_at s;
     reported_seconds := reported_seconds s; charged_amount := charged_amount s;
     status := status s; ledger_entry_id := ledger_entry_id s;
     reported_active_seconds := plus (reported_active_seconds s) seconds;
     reported_sensed_seconds := reported_sensed_seconds s;
     reported_unsensed_seconds := reported_unsensed_seconds s |}.

Definition add_reported_active_seconds (sid : uuid) (seconds : Q) : M unit :=
  call (fun db => (with_sessions 0 (update_open sid (report_active seconds)) db, inl tt)).

Definition close (now : instant) (reported : option Q) (charged : Q) (entry : option uuid)
    (new_status : string) (s : ToolUsageSession) : ToolUsageSession :=
  {| session_id := session_id s; opened := opened s; ended_at := Some now;
     reported_seconds := reported; charged_amount := Some charged; status := new_status;
     ledger_entry_id := entry; reported_active_seconds := reported_active_seconds s;
     reported_sensed_seconds := reported_sensed_seconds s;
     reported_unsensed_seconds := reported_unsensed_seconds s |}.

Definition settle_tool_session (now : instant) (sid : uuid) (reported : option Q) (charged : Q)
    (entry : option uuid) (new_status : string) : M bool :=
  call (fun db =>
    let affected := existsb (fun s => (session_id s ≟ sid) && is_open s) (sessions db) in
    (with_sessions 0 (update_open sid (close now reported charged entry new_status)) db,
     inl affected)).

Definition open_tool_sessions_older_than (cutoff : instant) : M (list ToolUsageSession) :=
  select (fun db => List.filter
    (fun s => is_open s && (started_at (opened s) <? cutoff)) (sessions db)).

(** The columns of a tool this development follows, with one of them set. *)
Definition set_receptacle (rid : option uuid) (updated : instant) (t : Tool) : Tool := {|
  tool_id := tool_id t; tool_name := tool_name t; tool_status := tool_status t;
  requires_training := requires_training t; external_id := external_id t;
  receptacle_id := rid; usage_flat_fee := usage_flat_fee t;
  usage_rate_per_min := usage_rate_per_min t;
  usage_max_session_minutes := usage_max_session_minutes t; usage_basis := usage_basis t;
  schedule_id := schedule_id t; updated_at := updated |}.

Definition set_status (st : ToolStatus) (updated : instant) (t : Tool) : Tool := {|
  tool_id := tool_id t; tool_name := tool_name t; tool_status := st;
  requires_training := requires_training t; external_id := external_id t;
  receptacle_id := receptacle_id t; usage_flat_fee := usage_flat_fee t;
  usage_rate_per_min := usage_rate_per_min t;
  usage_max_session_minutes := usage_max_session_minutes t; usage_basis := usage_basis t;
  schedule_id := schedule_id t; updated_at := updated |}.

Definition get_tool_by_id (tid : uuid) : M (option Tool) := select (fun db => tools db !! tid).

Record EffectiveRate := {
  eff_flat_fee : option Q;
  eff_rate_per_min : option Q;
  eff_max_session_minutes : option Z;
  eff_tier_id : option uuid;
}.

Definition effective_billing (db : Db) (uid : uuid) (tool : Tool) : EffectiveRate :=
  match tid ← tier_assignments db !! (uid, tool_id tool); tiers db !! tid with
  | Some t => {| eff_flat_fee := flat_fee t; eff_rate_per_min := rate_per_min t;
      eff_max_session_minutes :=
        option_or (max_session_minutes t) (usage_max_session_minutes tool);
      eff_tier_id := Some (tier_id t) |}
  | None => {| eff_flat_fee := usage_flat_fee tool; eff_rate_per_min := usage_rate_per_min tool;
      eff_max_session_minutes := usage_max_session_minutes tool; eff_tier_id := None |}
  end.

Definition resolve_effective_billing (uid : uuid) (tool : Tool) : M EffectiveRate :=
  select (fun db => effective_billing db uid tool).

(** ** Records *)

Definition create_audit_log (event : AuditEventType) (who : option uuid) : M unit :=
  call (fun db => (with_record (fun l => l ++ [(event, who)]) 0 db, inl tt)).

(** The services' best-effort [audit]: a failure never fails the operation. *)
Definition audit (event : AuditEventType) (uid : uuid) : M unit :=
  _ ← attempt (create_audit_log event (Some uid));
  mret tt.

(** [DoorService::republish_all]: that it was asked for. *)
Definition republish_all : M unit := effect (with_record (fun l => l) 1).

(** An invariant that looks at the ledger and the sessions only. *)
Definition of_money (I : Db -> Prop) : Prop :=
  forall db db', ledger db' = ledger db -> sessions db' = sessions db ->
    next_id db' = next_id db -> I db -> I db'.

(** One that looks at the tools and the users only. *)
Definition of_tools (I : Db -> Prop) : Prop :=
  forall db db', tools db' = tools db -> users db' = users db -> I db -> I db'.

Lemma keeps_rbac I : keeps I rbac_graph.
Proof. apply keeps_peek. Qed.

Lemma keeps_audit I event uid : of_money I -> keeps I (audit event uid).
Proof.
  intros H. apply keeps_bind; [|intros; apply keeps_ret].
  apply keeps_attempt, keeps_call. intros db. by apply H.
Qed.

Lemma keeps_republish I : of_money I -> keeps I republish_all.
Proof. intros H. apply triple_effect. intros db Hi _. split; [by apply (H db) | done]. Qed.

Lemma keeps_set_user_primary_role I uid name :
  of_money I -> keeps I (set_user_primary_role uid name).
Proof. intros H. apply keeps_call. intros db. by apply (H db). Qed.

Lemma keeps_set_next_due I uid due : of_money I -> keeps I (set_membership_next_due uid due).
Proof. intros H. apply keeps_call. intros db. case_match; [by apply (H db) | done]. Qed.

Lemma keeps_record_sync_run I row : of_money I -> keeps I (record_membership_sync_run row).
Proof. intros H. apply keeps_call. intros db. by apply (H db). Qed.

(** ** What a row adds *)

Lemma amounts_add db db' uid row :
  ledger db' = ledger db ++ [row] ->
  amounts db' uid = amounts db uid ++
    (if nle_user_id (le_entry row) ≟ uid then [nle_amount (le_entry row)] else []).
Proof.
  intros H. unfold amounts. rewrite H, List.filter_app, fmap_app. simpl.
  by case_bool_decide.
Qed.

Lemma balance_add db db' uid row :
  ledger db' = ledger db ++ [row] ->
  (balance db' uid == balance db uid +
    (if nle_user_id (le_entry row) ≟ uid then nle_amount (le_entry row) else 0))%Q.
Proof.
  intros H. unfold balance. rewrite (amounts_add _ _ _ _ H). case_bool_decide.
  - apply total_snoc.
  - rewrite app_nil_r. lra.
Qed.

Lemma balance_money uid q : of_money (fun db => (q <= balance db uid)%Q).
Proof. intros db db' H _ _. unfold balance, amounts. by rewrite H. Qed.

Lemma references_add db db' row :
  ledger db' = ledger db ++ [row] ->
  references db' = references db ++ option_list (nle_external_reference (le_entry row)).
Proof.
  intros H. unfold references. rewrite H, omap_app. simpl.
  by destruct (nle_external_reference _).
Qed.

(** An insert no constraint refuses. *)
Lemma insert_run entry db fs :
  is_Some (users db !! nle_user_id entry) ->
  is_none_or (nle_external_reference entry) (fun r => bool_decide (r ∉ references db)) = true ->
  let row := {| le_id := gen_random_uuid (next_id db); le_entry := entry |} in
  insert_ledger_entry entry (db, fs) =
  match fs with
  | [] => ((add_ledger row db, []), inl row)
  | Fine :: fs => ((add_ledger row db, fs), inl row)
  | Refused :: fs => ((db, fs), inr Connection)
  | LostReply :: fs => ((add_ledger row db, fs), inr Connection)
  end.
Proof.
  intros [u Hu] Hr row. unfold insert_ledger_entry, call. rewrite Hu.
  assert (is_some_and (nle_external_reference entry)
    (fun r => bool_decide (r ∈ references db)) = false) as ->.
  { destruct (nle_external_reference entry); [|done]. simpl in *.
    apply bool_decide_eq_true in Hr. by apply bool_decide_eq_false_2. }
  by destruct fs as [|[] fs].
Qed.

Lemma triple_insert I P entry Q :
  (forall db row, I db -> P db -> le_entry row = entry ->
    is_none_or (nle_external_reference entry) (fun r => bool_decide (r ∉ references db)) = true ->
    I (add_ledger row db) /\ Q row (add_ledger row db)) ->
  triple I P (insert_ledger_entry entry) Q.
Proof.
  intros H. apply triple_call. intros db Hi Hp.
  destruct (users db !! _); [|done].
  destruct (nle_external_reference entry) as [r|] eqn:E; simpl.
  - case_bool_decide; [done|]. simpl. apply H; try done. simpl. by apply bool_decide_eq_true.
  - apply H; done.
Qed.

(** ** Administrators *)

(** What decides who is an administrator. *)
Definition same_people (db0 db : Db) : Prop :=
  users db = users db0 /\ user_roles db = user_roles db0 /\ rbac db = rbac db0 /\
  roles db = roles db0.

Definition is_admin (db : Db) (uid : uuid) : bool :=
  has_permission (rbac db) (roles_for_user db uid) "admin.access".

Definition active (db : Db) (uid : uuid) : bool := is_some_and (users db !! uid) is_active.

(** Somebody active holds administrator access. *)
Definition has_admin (db : Db) : Prop := exists uid, active db uid = true /\ is_admin db uid = true.

Lemma active_assignments_fold (f : uuid -> bool) l (acc : gmap uuid (list uuid)) uid :
  let rs := (List.filter (fun ur => ur.1 ≟ uid) l).*2 in
  foldl (fun by_user ur =>
    if f ur.1 then or_default [] ur.1 (fun l => l ++ [ur.2]) by_user else by_user) acc l !! uid =
  if f uid then match rs with [] => acc !! uid | _ => Some (default [] (acc !! uid) ++ rs) end
  else acc !! uid.
Proof.
  simpl. revert acc. induction l as [|[v r] l IH]; intros acc; cbn [foldl List.filter fst snd].
  { by destruct (f uid). }
  rewrite IH. destruct (decide (v = uid)) as [->|Hv].
  - rewrite (bool_decide_eq_true_2 (uid = uid)) by done.
    destruct (f uid) eqn:E; [|done]. unfold or_default. rewrite lookup_insert_eq.
    rewrite fmap_cons. cbn [default from_option snd].
    unfold id. rewrite <- app_assoc. by destruct (List.filter _ l).*2.
  - rewrite (bool_decide_eq_false_2 (v = uid)) by done.
    destruct (f v); [|done]. unfold or_default. by rewrite lookup_insert_ne.
Qed.

Lemma active_assignments_lookup db uid l :
  active_assignments db !! uid = Some l <->
  active db uid = true /\ l = roles_for_user db uid /\ l <> [].
Proof.
  unfold active_assignments.
  rewrite (active_assignments_fold (fun v => is_some_and (users db !! v) is_active)).
  fold (roles_for_user db uid). rewrite lookup_empty. unfold active. simpl.
  destruct (is_some_and _ _); [|naive_solver].
  destruct (roles_for_user db uid); naive_solver.
Qed.

Lemma elem_of_active_admins db uid l :
  (uid, l) ∈ active_admins db <->
  active db uid = true /\ is_admin db uid = true /\ l = roles_for_user db uid.
Proof.
  unfold active_admins, is_admin. rewrite elem_of_lfilter, elem_of_map_to_list.
  rewrite active_assignments_lookup. simpl. split; [intros ((? & -> & ?) & ?); done|].
  intros (Ha & Hp & ->). split; [|done]. split; [done|]. split; [done|]. intros Hnil.
  rewrite Hnil in Hp. apply has_permission_spec in Hp as (s & r & perms & Hs & _). inversion Hs.
Qed.

(** Two administrators counted are two people: one of them is somebody else. *)
Lemma another_admin db uid :
  1 < Z.of_nat (length (active_admins db)) ->
  exists v, v <> uid /\ active db v = true /\ is_admin db v = true.
Proof.
  intros Hn. assert (NoDup (active_admins db).*1) as Hnd.
  { unfold active_admins. pose proof (NoDup_fst_map_to_list (active_assignments db)) as H.
    revert H. generalize (map_to_list (active_assignments db)). intros l.
    induction l as [|x l IH]; intros H; cbn [List.filter]; [done|].
    apply NoDup_cons in H as [H1 H2]. specialize (IH H2). case_match; [|done].
    cbn [fmap list_fmap]. apply NoDup_cons. split; [|done]. intros Hin. apply H1.
    apply list_elem_of_fmap in Hin as (y & -> & Hy). apply elem_of_lfilter in Hy as [Hy _].
    by apply list_elem_of_fmap_2. }
  assert (forall v l, (v, l) ∈ active_admins db -> active db v = true /\ is_admin db v = true) as Hin.
  { intros v l H. apply elem_of_active_admins in H as (? & ? & _). done. }
  destruct (active_admins db) as [|[v lv] [|[w lw] rest]]; simpl in Hn; try lia.
  simpl in Hnd. apply NoDup_cons in Hnd as [Hvw _].
  destruct (decide (v = uid)) as [->|Hv].
  - exists w. split; [|by eapply Hin; right; left]. intros ->. apply Hvw. left.
  - exists v. split; [done|]. eapply Hin. by left.
Qed.

Lemma roles_for_other db uid name v :
  v <> uid ->
  let kept := (set_user_primary_role uid name (db, [])).1.1 in
  active kept v = active db v /\ is_admin kept v = is_admin db v.
Proof.
  intros Hv. cbn. split; [done|]. unfold is_admin, roles_for_user. simpl. do 2 f_equal.
  set (ids := role_id <$> _). generalize ids. intros tier_ids.
  assert (forall (l : list (uuid * uuid)),
    List.filter (fun ur => ur.1 ≟ v) (List.filter (fun ur =>
      negb ((ur.1 ≟ uid) && bool_decide (ur.2 ∈ tier_ids))) l) =
    List.filter (fun ur => ur.1 ≟ v) l) as Hl.
  { induction l as [|[w r] l IH]; simpl; [done|].
    destruct (decide (w = uid)) as [->|Hw].
    - rewrite (bool_decide_eq_true_2 (uid = uid)), (bool_decide_eq_false_2 (uid = v)) by done.
      simpl. destruct (bool_decide _); simpl; [done|].
      by rewrite (bool_decide_eq_false_2 (uid = v)).
    - rewrite (bool_decide_eq_false_2 (w = uid)) by done. simpl. by rewrite IH. }
  destruct (find_first _ (roles db)); [|by rewrite Hl].
  case_bool_decide; [by rewrite Hl|]. rewrite List.filter_app, Hl. simpl.
  rewrite bool_decide_eq_false_2 by done. by rewrite app_nil_r.
Qed.

End Database.

(** The services' runs, over these tables. *)
Abbreviation M := (Faults.M Db DatabaseError).

#[export] Hint Resolve keeps_rbac keeps_audit keeps_republish keeps_set_user_primary_role
  keeps_set_next_due keeps_record_sync_run : css.
End Database.
