(* ===== verification/Membership.v ===== *)
(** * Membership dues ([server/src/membership.rs], Stripe's payment events of
    [server/src/api/stripe.rs])

    Credits, the start of a membership, the renewal cycle and the role state
    machine, in the fault-injecting monad of the tables.  chrono's calendar is
    an interface.  Each operation reads the clock once; Stripe's answers are an
    argument. *)
From Stdlib Require Import QArith Lqa.
From S2P Require Import Prelude Rbac Faults Money Database.
Import Rbac Money Faults Database.

Module Membership.

#[local] Open Scope Z_scope.

Inductive MembershipPeriod : Type := Monthly | Quarterly | Yearly.

Definition days (n : Z) : duration := seconds (86400 * n).

(** chrono's months: the month and the day of the month of an instant, and
    [checked_add_months], which cuts a day the target month lacks back to its
    last. *)
Class Calendar := {
  month : instant -> Z;
  day : instant -> Z;
  days_in : Z -> Z;
  checked_add_months : instant -> Z -> option instant;
  day_range : forall t, 1 <= day t <= days_in (month t);
  days_in_min : forall m, 28 <= days_in m;
  add_months_civil : forall t n t', 0 < n -> checked_add_months t n = Some t' ->
    month t' = month t + n /\ day t' = Z.min (day t) (days_in (month t + n)) /\
    t + days (28 * n) <= t' /\ t' mod days 1 = t mod days 1;
  next_day : forall t,
    if day t <? days_in (month t)
    then month (t + days 1) = month t /\ day (t + days 1) = day t + 1
    else month (t + days 1) = month t + 1 /\ day (t + days 1) = 1;
}.

Record MembershipConfig := {
  enabled : bool;
  (** [due_amount] as [BigDecimal::from_str] reads it. *)
  due_amount_parsed : option Q;
  due_period : MembershipPeriod;
  grace_days : Z;
  member_role : string;
  lapsed_role : string;
  currency : string;
}.

Record MembershipCycleOutcome := {
  users_checked : Z;
  dues_charged : Z;
  lapsed : Z;
  credited : Z;
  errors : Z;
  ok : bool;
  error : option string;
}.

Definition outcome_default : MembershipCycleOutcome := {|
  users_checked := 0; dues_charged := 0; lapsed := 0; credited := 0; errors := 0;
  ok := false; error := None |}.

(** ** The pure decisions *)

Definition plan_role_transition (current_level : Z) (entitled is_last_admin : bool)
    (member_role : string) (member_level : Z) (lapsed_role : string) (lapsed_level : Z)
    : option string :=
  if entitled then
    if current_level <? member_level then Some member_role else None
  else if is_last_admin then None
  else if lapsed_level <? current_level then Some lapsed_role
  else None.

Definition months (p : MembershipPeriod) : Z :=
  match p with Monthly => 1 | Quarterly => 3 | Yearly => 12 end.

Definition advance_period {C : Calendar} (date : instant) (p : MembershipPeriod) : instant :=
  let orig_day := day date in
  let advanced := default date (checked_add_months date (months p)) in
  if day advanced =? orig_day then advanced else advanced + days 1.

Definition dues_due (next_due now : instant) (grace : Z) : bool :=
  next_due + days grace <=? now.

(** ** The service *)

Section Membership.
Context {U : Uuid} {IS : IdSource} {C : Calendar}.

Definition due_amount (cfg : MembershipConfig) : Q := default 0%Q (due_amount_parsed cfg).

(** Post a dues debit of [-amount]. *)
Definition post_dues (cfg : MembershipConfig) (now : instant) (uid : uuid) (amount : Q) : M unit :=
  _ ← insert_ledger_entry {| nle_user_id := uid; nle_entry_type := DuesCharge;
    nle_amount := (- amount)%Q; nle_currency := currency cfg; nle_occurred_at := now;
    nle_description := Some "Membership dues"%string; nle_external_reference := None;
    nle_created_by := None |};
  mret tt.

Definition apply_role (cfg : MembershipConfig) (uid : uuid) (entitled : bool) : M unit :=
  graph ← rbac_graph;
  let member_level := default 0 (level_of_name graph (member_role cfg)) in
  let lapsed_level := default 0 (level_of_name graph (lapsed_role cfg)) in
  _ ← user_primary_role uid;
  current_level ← user_effective_level uid;
  user_is_admin ← user_has_permission uid "admin.access";
  is_last_admin ← (if (user_is_admin : bool)
                   then n ← count_active_admins; mret (n <=? 1) else mret false);
  _ ← (if negb entitled && user_is_admin && is_last_admin
       then audit MembershipLastAdminProtected uid else mret tt);
  match plan_role_transition current_level entitled is_last_admin
          (member_role cfg) member_level (lapsed_role cfg) lapsed_level with
  | None => mret tt
  | Some new_role =>
      _ ← set_user_primary_role uid new_role;
      _ ← republish_all;
      audit (if entitled then MembershipGranted else MembershipRevoked) uid
  end.

Definition settle_after_credit (cfg : MembershipConfig) (now : instant) (uid : uuid) : M unit :=
  user ← find_user_by_id uid;
  match user with
  | None => mret tt
  | Some user =>
      match membership_next_due_at user with
      | Some _ => mret tt
      | None =>
          let due := due_amount cfg in
          balance ← user_balance uid;
          if Qle_bool due balance then
            _ ← post_dues cfg now uid due;
            _ ← set_membership_next_due uid (Some (advance_period now (due_period cfg)));
            apply_role cfg uid true
          else mret tt
      end
  end.

Definition record_credit (cfg : MembershipConfig) (now : instant) (uid : uuid)
    (entry_type : LedgerEntryType) (amount : Q) (reference description : option string)
    (actor : option uuid) : M bool :=
  seen ← match reference with
         | Some r => ledger_entry_exists_for_reference r
         | None => mret false
         end;
  if seen : bool then mret false
  else
    inserted ← attempt (insert_ledger_entry {| nle_user_id := uid; nle_entry_type := entry_type;
      nle_amount := amount; nle_currency := currency cfg; nle_occurred_at := now;
      nle_description := description; nle_external_reference := reference;
      nle_created_by := actor |});
    match inserted with
    | inr UniqueViolation => mret false
    | inr e => throw e
    | inl _ =>
        _ ← settle_after_credit cfg now uid;
        mret true
    end.

(** ** The renewal cycle

    [outcome] is a local the passes update, kept when one of them fails. *)

Definition Pass (A : Type) : Type :=
  MembershipCycleOutcome -> M (MembershipCycleOutcome * (A + DatabaseError)).

Definition oret {A} (x : A) : Pass A := fun o => mret (o, inl x).
Definition obind {A B} (m : Pass A) (k : A -> Pass B) : Pass B := fun o =>
  r ← m o;
  match r.2 with
  | inl x => k x r.1
  | inr e => mret (r.1, inr e)
  end.
Definition lift {A} (m : M A) : Pass A := fun o => r ← attempt m; mret (o, r).
Definition count (f : MembershipCycleOutcome -> MembershipCycleOutcome) : Pass unit :=
  fun o => mret (f o, inl tt).
(** [match] on a result without [?]. *)
Definition otry {A} (m : Pass A) : Pass (A + DatabaseError) := fun o =>
  r ← m o; mret (r.1, inl r.2).

Definition add_checked (o : MembershipCycleOutcome) : MembershipCycleOutcome := {|
  users_checked := users_checked o + 1; dues_charged := dues_charged o; lapsed := lapsed o;
  credited := credited o; errors := errors o; ok := ok o; error := error o |}.
Definition add_charged (o : MembershipCycleOutcome) : MembershipCycleOutcome := {|
  users_checked := users_checked o; dues_charged := dues_charged o + 1; lapsed := lapsed o;
  credited := credited o; errors := errors o; ok := ok o; error := error o |}.
Definition add_lapsed (o : MembershipCycleOutcome) : MembershipCycleOutcome := {|
  users_checked := users_checked o; dues_charged := dues_charged o; lapsed := lapsed o + 1;
  credited := credited o; errors := errors o; ok := ok o; error := error o |}.
Definition add_credited (o : MembershipCycleOutcome) : MembershipCycleOutcome := {|
  users_checked := users_checked o; dues_charged := dues_charged o; lapsed := lapsed o;
  credited := credited o + 1; errors := errors o; ok := ok o; error := error o |}.
Definition add_error (o : MembershipCycleOutcome) : MembershipCycleOutcome := {|
  users_checked := users_checked o; dues_charged := dues_charged o; lapsed := lapsed o;
  credited := credited o; errors := errors o + 1; ok := ok o; error := error o |}.
Definition with_error (e : option string) (o : MembershipCycleOutcome) : MembershipCycleOutcome := {|
  users_checked := users_checked o; dues_charged := dues_charged o; lapsed := lapsed o;
  credited := credited o; errors := errors o; ok := ok o; error := e |}.
Definition finish (o : MembershipCycleOutcome) : MembershipCycleOutcome := {|
  users_checked := users_checked o; dues_charged := dues_charged o; lapsed := lapsed o;
  credited := credited o; errors := errors o; ok := negb (is_some (error o)); error := error o |}.

(** The cap of the loop: [guard > 1200] breaks before the 1201st turn. *)
Definition RENEWAL_CAP : nat := 1200.

Fixpoint renewal_loop (cfg : MembershipConfig) (now : instant) (uid : uuid) (fuel : nat)
    (due : option instant) : Pass unit :=
  match due, fuel with
  | None, _ | Some _, 0%nat => oret tt
  | Some next_due, S fuel =>
      if negb (dues_due next_due now (grace_days cfg)) then oret tt
      else obind (lift (user_balance uid)) (fun balance =>
        if Qle_bool (due_amount cfg) balance then
          obind (lift (post_dues cfg now uid (due_amount cfg))) (fun _ =>
          let next := advance_period next_due (due_period cfg) in
          obind (lift (set_membership_next_due uid (Some next))) (fun _ =>
          obind (count add_charged) (fun _ =>
          obind (lift (apply_role cfg uid true)) (fun _ =>
          renewal_loop cfg now uid fuel (Some next)))))
        else
          obind (lift (set_membership_next_due uid None)) (fun _ =>
          obind (lift (apply_role cfg uid false)) (fun _ =>
          obind (count add_lapsed) (fun _ =>
          renewal_loop cfg now uid fuel None))))
  end.

Definition settle_renewal (cfg : MembershipConfig) (now : instant) (uid : uuid) : Pass unit :=
  obind (lift (find_user_by_id uid)) (fun user =>
    match user with
    | None => oret tt
    | Some user => renewal_loop cfg now uid RENEWAL_CAP (membership_next_due_at user)
    end).

Record PaidInvoice := {
  invoice_id : string;
  amount_paid : Z;
}.

(** [list_paid_invoices]: what Stripe answers for a customer, if it does. *)
Definition StripeClient : Type := string -> option (list PaidInvoice).

Definition credit_invoice (cfg : MembershipConfig) (now : instant) (uid : uuid) (inv : PaidInvoice)
    : Pass unit :=
  obind (otry (lift (record_credit cfg now uid StripePayment
      (minor_units_to_decimal (amount_paid inv)) (Some (invoice_id inv))
      (Some "Stripe invoice (reconciled)"%string) None))) (fun r =>
    match r with
    | inl true => count add_credited
    | inl false => oret tt
    | inr _ => count add_error
    end).

Fixpoint for_each {A} (f : A -> Pass unit) (l : list A) : Pass unit :=
  match l with
  | [] => oret tt
  | x :: l => obind (f x) (fun _ => for_each f l)
  end.

Definition poll_customer (cfg : MembershipConfig) (now : instant) (stripe : StripeClient)
    (pair : User * string) : Pass unit :=
  match stripe pair.2 with
  | None => count add_error
  | Some invoices => for_each (credit_invoice cfg now (user_id pair.1)) invoices
  end.

Definition renew_user (cfg : MembershipConfig) (now : instant) (user : User) : Pass unit :=
  obind (count add_checked) (fun _ =>
  obind (otry (settle_renewal cfg now (user_id user))) (fun r =>
    match r with inl _ => oret tt | inr _ => count add_error end)).

Definition record_run (started_at now : instant) (o : MembershipCycleOutcome) : M unit :=
  _ ← attempt (record_membership_sync_run {| run_started_at := started_at;
    run_finished_at := now; run_users_checked := as_i32 (users_checked o);
    run_dues_charged := as_i32 (dues_charged o); run_lapsed := as_i32 (lapsed o);
    run_errors := as_i32 (errors o); run_ok := ok o; run_error := error o |});
  mret tt.

(** The poll backbone: the error that ends the pass, if loading the users fails. *)
Definition poll (cfg : MembershipConfig) (now : instant) (stripe : option StripeClient) : Pass bool :=
  match stripe with
  | None => oret true
  | Some stripe =>
      obind (otry (lift users_with_stripe_customer)) (fun pairs =>
        match pairs with
        | inr _ => obind (count (with_error (Some "load stripe-linked users"%string)))
                     (fun _ => oret false)
        | inl pairs => obind (for_each (poll_customer cfg now stripe) pairs) (fun _ => oret true)
        end)
  end.

Definition dues_pass (cfg : MembershipConfig) (now : instant) : Pass unit :=
  obind (otry (lift enrolled_users)) (fun enrolled =>
    match enrolled with
    | inr _ => count (with_error (Some "load enrolled users"%string))
    | inl users => obind (for_each (renew_user cfg now) users) (fun _ => count finish)
    end).

Definition cycle (cfg : MembershipConfig) (now : instant) (stripe : option StripeClient) : Pass unit :=
  if negb (enabled cfg) then
    count (with_error (Some "membership module is disabled"%string))
  else obind (poll cfg now stripe) (fun going =>
    if going : bool then dues_pass cfg now else oret tt).

Definition run_cycle (cfg : MembershipConfig) (now : instant) (stripe : option StripeClient)
    : M MembershipCycleOutcome :=
  r ← cycle cfg now stripe outcome_default;
  _ ← record_run now now r.1;
  mret r.1.

(** ** Stripe's payment events *)

Definition str_field (obj : json) (key : string) : option string :=
  json_get obj key ≫= json_as_str.

Definition handle_invoice_paid (cfg : MembershipConfig) (now : instant) (obj : json) : M bool :=
  match str_field obj "customer" with
  | None => mret false
  | Some customer =>
      user ← find_user_by_stripe_customer_id customer;
      match user with
      | None => mret false
      | Some user =>
          let amount := default 0 (json_get obj "amount_paid" ≫= json_as_i64) in
          _ ← record_credit cfg now (user_id user) StripePayment (minor_units_to_decimal amount)
                (str_field obj "id") (Some "Stripe invoice"%string) None;
          mret true
      end
  end.

Definition handle_charge_refunded (cfg : MembershipConfig) (now : instant) (obj : json) : M bool :=
  match str_field obj "customer" with
  | None => mret false
  | Some customer =>
      user ← find_user_by_stripe_customer_id customer;
      match user with
      | None => mret false
      | Some user =>
          let refunded := default 0 (json_get obj "amount_refunded" ≫= json_as_i64) in
          if refunded <=? 0 then mret false
          else
            let reference := (fun id => id +:+ ":refund") <$> str_field obj "id" in
            _ ← record_credit cfg now (user_id user) StripeRefund
                  (- minor_units_to_decimal refunded)%Q reference
                  (Some "Stripe refund"%string) None;
            mret true
      end
  end.

(** ** Reasoning about the passes *)

Implicit Types (I P : Db -> Prop).

Definition otriple {A} I P (m : Pass A) (Q : A -> Db -> Prop) : Prop :=
  forall o, triple I P (m o) (fun r db => match r.2 with inl x => Q x db | inr _ => True end).

Definition okeeps {A} I (m : Pass A) : Prop := otriple I (fun _ => True) m (fun _ _ => True).

Lemma otriple_ret {A} I P (x : A) (Q : A -> Db -> Prop) :
  (forall db, I db -> P db -> Q x db) -> otriple I P (oret x) Q.
Proof. intros H o. by apply triple_ret. Qed.

Lemma otriple_bind {A B} I P (m : Pass A) (k : A -> Pass B) R Q :
  otriple I P m R -> (forall x, otriple I (R x) (k x) Q) -> otriple I P (obind m k) Q.
Proof.
  intros Hm Hk o. eapply triple_bind; [apply Hm|]. intros [o' [x|e]]; simpl; [apply Hk|].
  by apply triple_ret.
Qed.

Lemma otriple_lift {A} I P (m : M A) Q : triple I P m Q -> otriple I P (lift m) Q.
Proof.
  intros Hm o. eapply triple_bind; [by apply triple_attempt|]. intros r.
  by apply triple_ret.
Qed.

Lemma otriple_keeps {A} I P (m : Pass A) : okeeps I m -> otriple I P m (fun _ _ => True).
Proof. intros H o. eapply triple_weaken; [apply H | done | done]. Qed.

Lemma okeeps_ret {A} I (x : A) : okeeps I (oret x).
Proof. by apply otriple_ret. Qed.

Lemma okeeps_bind {A B} I (m : Pass A) (k : A -> Pass B) :
  okeeps I m -> (forall x, okeeps I (k x)) -> okeeps I (obind m k).
Proof. intros Hm Hk. by eapply otriple_bind. Qed.

Lemma okeeps_lift {A} I (m : M A) : keeps I m -> okeeps I (lift m).
Proof. apply otriple_lift. Qed.

Lemma okeeps_count I f : okeeps I (count f).
Proof. intros o. by apply triple_ret. Qed.

Lemma okeeps_otry {A} I (m : Pass A) : okeeps I m -> okeeps I (otry m).
Proof. intros Hm o. eapply triple_bind; [apply Hm|]. intros r. by apply triple_ret. Qed.

Lemma okeeps_for_each {A} I (f : A -> Pass unit) l :
  (forall x, x ∈ l -> okeeps I (f x)) -> okeeps I (for_each f l).
Proof.
  induction l as [|x l IH]; intros H; [apply okeeps_ret|].
  apply okeeps_bind; [apply H; by left | intros _; apply IH; intros; apply H; by right].
Qed.

(** What is left of a pass once every call that posts keeps [I]. *)
Lemma keeps_apply_role I cfg uid entitled : of_money I -> keeps I (apply_role cfg uid entitled).
Proof. intros HI. unfold apply_role. run_keeps. Qed.

(** ** What the service posts

    [I] survives the membership service when it survives the two rows the
    service posts: dues the balance covers, and the credit it was handed. *)

Definition dues_ok (cfg : MembershipConfig) (I : Db -> Prop) : Prop :=
  forall db row, I db -> nle_amount (le_entry row) = (- due_amount cfg)%Q ->
    nle_external_reference (le_entry row) = None ->
    (due_amount cfg <= balance db (nle_user_id (le_entry row)))%Q -> I (add_ledger row db).

(** The other calls of the service. *)
Record service_inv (cfg : MembershipConfig) (I : Db -> Prop) : Prop := {
  inv_dues : dues_ok cfg I;
  inv_role : forall uid entitled, keeps I (apply_role cfg uid entitled);
  inv_due : forall uid due, keeps I (set_membership_next_due uid due);
  inv_run : forall row, keeps I (record_membership_sync_run row);
}.

Lemma money_inv cfg I : of_money I -> dues_ok cfg I -> service_inv cfg I.
Proof.
  intros HI Hd. constructor; [done | intros; by apply keeps_apply_role | | ]; auto with css.
Qed.

Definition credit_ok (amount : Q) (reference : option string) (I : Db -> Prop) : Prop :=
  forall db row, I db -> nle_amount (le_entry row) = amount ->
    nle_external_reference (le_entry row) = reference ->
    is_none_or reference (fun r => bool_decide (r ∉ references db)) = true ->
    I (add_ledger row db).

Lemma triple_user_balance I P uid :
  triple I P (user_balance uid) (fun b db => b = balance db uid).
Proof. by apply triple_select. Qed.

Lemma triple_post_dues cfg I now uid :
  dues_ok cfg I ->
  triple I (fun db => (due_amount cfg <= balance db uid)%Q)
    (post_dues cfg now uid (due_amount cfg)) (fun _ _ => True).
Proof.
  intros Hd. eapply triple_bind; [|intros ?; by apply triple_ret].
  apply triple_insert with (Q := fun _ _ => True). intros db row Hi Hb Hrow _.
  split; [|done]. apply Hd; by rewrite ?Hrow.
Qed.

(** Reading the balance and posting the dues it covers. *)
Lemma triple_covered cfg I P uid {A} (m1 m2 : M A) Q :
  triple I (fun db => (due_amount cfg <= balance db uid)%Q) m1 Q ->
  triple I (fun _ => True) m2 Q ->
  triple I P (b ← user_balance uid; if Qle_bool (due_amount cfg) b then m1 else m2) Q.
Proof.
  intros H1 H2. eapply triple_bind; [apply triple_user_balance|]. intros b.
  destruct (Qle_bool _ b) eqn:E.
  - eapply triple_weaken; [exact H1 | | done]. simpl. intros db _ ->. by apply Qle_bool_iff.
  - by eapply triple_weaken; [exact H2 | |].
Qed.

Lemma keeps_settle_after_credit cfg I now uid :
  service_inv cfg I -> keeps I (settle_after_credit cfg now uid).
Proof.
  intros Hd. unfold settle_after_credit. apply keeps_bind; [auto with css|].
  intros [user|]; [|apply keeps_ret]. case_match; [apply keeps_ret|].
  apply triple_covered; [|apply keeps_ret].
  eapply triple_bind; [by apply triple_post_dues, inv_dues|]. intros ?.
  apply keeps_bind; [by eapply inv_due|]. intros ?. by eapply inv_role.
Qed.

Lemma keeps_record_credit cfg I now uid type amount reference description actor :
  service_inv cfg I -> credit_ok amount reference I ->
  keeps I (record_credit cfg now uid type amount reference description actor).
Proof.
  intros Hd Hc. unfold record_credit. apply keeps_bind; [run_keeps|]. intros seen.
  destruct seen; [apply keeps_ret|]. apply keeps_bind.
  - apply keeps_attempt, triple_insert. intros db row Hi _ Hrow Hr. split; [|done].
    apply Hc; rewrite ?Hrow; done.
  - intros [row|[]]; try apply keeps_throw; [|apply keeps_ret].
    apply keeps_bind; [by apply keeps_settle_after_credit | intros ?; apply keeps_ret].
Qed.

Lemma okeeps_renewal_loop cfg I now uid fuel due :
  service_inv cfg I -> okeeps I (renewal_loop cfg now uid fuel due).
Proof.
  intros Hd. revert due. induction fuel as [|fuel IH]; intros [next_due|]; simpl;
    try apply okeeps_ret.
  destruct (negb _); [apply okeeps_ret|].
  eapply otriple_bind; [apply otriple_lift, triple_user_balance|]. intros b.
  destruct (Qle_bool _ b) eqn:E.
  - eapply otriple_bind.
    + apply otriple_lift. eapply triple_weaken; [by apply triple_post_dues, inv_dues | | done].
      simpl. intros db _ ->. by apply Qle_bool_iff.
    + intros ?. apply okeeps_bind; [by eapply okeeps_lift, inv_due|]. intros ?.
      apply okeeps_bind; [apply okeeps_count|]. intros ?.
      apply okeeps_bind; [by eapply okeeps_lift, inv_role|]. intros ?. apply IH.
  - apply otriple_bind with (R := fun _ _ => True).
    + by eapply otriple_lift, triple_keeps, inv_due.
    + intros ?. apply okeeps_bind; [by eapply okeeps_lift, inv_role|]. intros ?.
      apply okeeps_bind; [apply okeeps_count|]. intros ?. apply IH.
Qed.

Lemma okeeps_renew_user cfg I now user :
  service_inv cfg I -> okeeps I (renew_user cfg now user).
Proof.
  intros Hd. apply okeeps_bind; [apply okeeps_count|]. intros ?.
  apply okeeps_bind.
  - apply okeeps_otry, okeeps_bind; [apply okeeps_lift; auto with css|].
    intros [u|]; [by apply okeeps_renewal_loop | apply okeeps_ret].
  - intros []; [apply okeeps_ret | apply okeeps_count].
Qed.

Lemma okeeps_dues_pass cfg I now :
  service_inv cfg I -> okeeps I (dues_pass cfg now).
Proof.
  intros Hd. apply okeeps_bind; [apply okeeps_otry, okeeps_lift; auto with css|].
  intros [users|]; [|apply okeeps_count].
  apply okeeps_bind; [|intros ?; apply okeeps_count].
  apply okeeps_for_each. intros user _. by apply okeeps_renew_user.
Qed.

(** The invoices a Stripe client reports, and what they add. *)
Definition invoices_ok (stripe : option StripeClient) (I : Db -> Prop) : Prop :=
  forall client customer invs inv, stripe = Some client -> client customer = Some invs ->
    inv ∈ invs ->
    credit_ok (minor_units_to_decimal (amount_paid inv)) (Some (invoice_id inv)) I.

Lemma keeps_run_cycle cfg I now stripe :
  service_inv cfg I -> invoices_ok stripe I -> keeps I (run_cycle cfg now stripe).
Proof.
  intros Hd Hs. unfold run_cycle. apply keeps_bind.
  2: { intros r. unfold record_run. pose proof (inv_run _ _ Hd). run_keeps. }
  assert (okeeps I (cycle cfg now stripe)) as H; [|eapply triple_weaken; [apply H | done | done]].
  unfold cycle. destruct (negb _); [apply okeeps_count|]. apply okeeps_bind.
  - unfold poll. destruct stripe as [client|]; [|apply okeeps_ret].
    apply okeeps_bind; [apply okeeps_otry, okeeps_lift; auto with css|].
    intros [pairs|]; (apply okeeps_bind; [|intros ?; apply okeeps_ret]); [|apply okeeps_count].
    apply okeeps_for_each. intros [user customer] ?. unfold poll_customer. simpl.
    destruct (client customer) as [invs|] eqn:Ei; [|apply okeeps_count].
    apply okeeps_for_each. intros inv Hin. apply okeeps_bind.
    + apply okeeps_otry, okeeps_lift, keeps_record_credit; [done | by eapply Hs].
    + intros [[]|]; [apply okeeps_count | apply okeeps_ret | apply okeeps_count].
  - intros []; [by apply okeeps_dues_pass | apply okeeps_ret].
Qed.

(** ** Balances *)

Definition covered (db : Db) : Prop := forall uid, (0 <= balance db uid)%Q.

Lemma covered_money : of_money covered.
Proof. intros db db' Hl Hs Hn H uid. by apply (balance_money uid 0%Q db). Qed.

Lemma covered_dues cfg : dues_ok cfg covered.
Proof.
  intros db row Hi Ha _ Hb uid. rewrite (balance_add db _ uid row) by done.
  specialize (Hi uid). case_bool_decide; subst; rewrite ?Ha; lra.
Qed.

Lemma covered_credit amount reference : (0 <= amount)%Q -> credit_ok amount reference covered.
Proof.
  intros Hpos db row Hi Ha _ _ uid. rewrite (balance_add db _ uid row) by done.
  specialize (Hi uid). case_bool_decide; rewrite ?Ha; lra.
Qed.

Lemma minor_units_nonneg n : 0 <= n -> (0 <= minor_units_to_decimal n)%Q.
Proof. intros H. rewrite minor_units_value. unfold Qle. simpl. lia. Qed.

Lemma covered_inv cfg : service_inv cfg covered.
Proof. apply money_inv; [apply covered_money | apply covered_dues]. Qed.

(** C14. The ledger never goes into debt by the membership service's own doing:
    from balances none of which is negative, crediting an amount that is not
    negative, and a whole renewal cycle over invoices that were paid, leave no
    balance negative -- whatever database calls fail on the way. *)
Theorem dues_never_overdraw cfg now uid type amount reference description actor stripe db fs :
  covered db -> (0 <= amount)%Q ->
  (forall client customer invs inv, stripe = Some client -> client customer = Some invs ->
     inv ∈ invs -> 0 <= amount_paid inv) ->
  covered (record_credit cfg now uid type amount reference description actor (db, fs)).1.1 /\
  covered (run_cycle cfg now stripe (db, fs)).1.1.
Proof.
  intros Hdb Ha Hs. split.
  - pose proof (keeps_record_credit cfg covered now uid type amount reference description actor
      (covered_inv cfg) (covered_credit amount reference Ha) db fs Hdb Logic.I) as H.
    destruct (record_credit _ _ _ _ _ _ _ _ _) as [[db' fs'] r]. apply H.
  - assert (invoices_ok stripe covered) as Hi.
    { intros client customer invs inv H1 H2 H3. apply covered_credit, minor_units_nonneg.
      by eapply Hs. }
    pose proof (keeps_run_cycle cfg covered now stripe
      (covered_inv cfg) Hi db fs Hdb Logic.I) as H.
    destruct (run_cycle _ _ _ _) as [[db' fs'] r]. apply H.
Qed.

(** ** Redelivery *)

Lemma exists_reference db fs r :
  ledger_entry_exists_for_reference r (db, fs) =
  match fs with
  | [] => ((db, []), inl (bool_decide (r ∈ references db)))
  | Fine :: fs => ((db, fs), inl (bool_decide (r ∈ references db)))
  | _ :: fs => ((db, fs), inr Connection)
  end.
Proof.
  unfold ledger_entry_exists_for_reference, select, call.
  assert ((0 <? Z.of_nat (length (List.filter
    (fun e => nle_external_reference (le_entry e) ≟ Some r) (ledger db)))) =
    bool_decide (r ∈ references db)) as ->; [|by destruct fs as [|[]]].
  unfold references. induction (ledger db) as [|e l IH]; simpl; [done|].
  destruct (decide (nle_external_reference (le_entry e) = Some r)) as [E|E].
  - rewrite E, (bool_decide_eq_true_2 (Some r = Some r)) by done. symmetry.
    apply bool_decide_eq_true_2. left.
  - rewrite (bool_decide_eq_false_2 _ E), IH. destruct (nle_external_reference (le_entry e)) as [r'|]; [|done].
    apply bool_decide_ext. rewrite elem_of_cons. naive_solver.
Qed.

Lemma redelivery_lemma cfg now uid type amount r description actor db fs :
  r ∈ references db ->
  let res := record_credit cfg now uid type amount (Some r) description actor (db, fs) in
  res.1.1 = db /\ res.2 <> inl true.
Proof.
  intros Hr. unfold record_credit, mbind, M_bind. rewrite exists_reference.
  rewrite bool_decide_eq_true_2 by done. by destruct fs as [|[] fs].
Qed.

(** A payment is credited once: when its reference is on the ledger, a
    redelivery changes nothing at all and reports that nothing was posted, under
    every schedule of faults. *)
Theorem redelivery_changes_nothing cfg now uid type amount r description actor db fs :
  r ∈ references db ->
  let res := record_credit cfg now uid type amount (Some r) description actor (db, fs) in
  res.1.1 = db /\ res.2 <> inl true.
Proof. apply redelivery_lemma. Qed.

(** A membership whose start fails after its payment was posted is never
    started by a redelivery: the member is left not enrolled with a balance that
    covers the dues, and every later delivery of the payment changes nothing. *)
Theorem failed_start_is_final cfg now uid u type amount r description actor db fs :
  users db !! uid = Some u -> membership_next_due_at u = None -> r ∉ references db ->
  (0 <= balance db uid)%Q -> (due_amount cfg <= amount)%Q ->
  let '((db', _), res) := record_credit cfg now uid type amount (Some r) description actor
    (db, Fine :: Fine :: Refused :: fs) in
  res = inr Connection /\ users db' !! uid = Some u /\ (due_amount cfg <= balance db' uid)%Q /\
  forall now' fs',
    (record_credit cfg now' uid type amount (Some r) description actor (db', fs')).1.1 = db'.
Proof.
  intros Hu Hn Hr Hb Ha. unfold record_credit at 1, mbind, M_bind. rewrite exists_reference.
  rewrite bool_decide_eq_false_2 by done. unfold attempt. rewrite insert_run.
  2: { simpl. by rewrite Hu. }
  2: { simpl. by apply bool_decide_eq_true_2. }
  simpl. split; [done|]. split; [done|]. split.
  - erewrite (balance_add db) by (simpl; reflexivity). rewrite bool_decide_eq_true_2 by done. simpl. lra.
  - intros now' fs'. apply redelivery_lemma. erewrite (references_add db) by (simpl; reflexivity).
    simpl. set_solver.
Qed.

(** ** The calendar *)

(** An anniversary keeps its day of the month wherever the target month has
    one, and otherwise moves to the first of the month after; its time of day
    never changes. *)
Theorem advance_period_civil date p :
  is_Some (checked_add_months date (months p)) ->
  let m := month date + months p in
  let next := advance_period date p in
  (if day date <=? days_in m
   then month next = m /\ day next = day date
   else month next = m + 1 /\ day next = 1) /\
  next mod days 1 = date mod days 1.
Proof.
  intros [t Ht] m next. subst next. unfold advance_period. rewrite Ht. simpl.
  assert (0 < months p) as Hp by (by destruct p).
  destruct (add_months_civil _ _ _ Hp Ht) as (Hm & Hd & _ & Htod). fold m in Hm, Hd.
  pose proof (next_day t) as Hn. pose proof (days_in_min m).
  destruct (Z.leb_spec (day date) (days_in m)) as [Hle|Hgt].
  - rewrite Z.min_l in Hd by lia. rewrite Hd, Z.eqb_refl. done.
  - rewrite Z.min_r in Hd by lia. rewrite (proj2 (Z.eqb_neq _ _)) by lia.
    rewrite Hm, Hd, Z.ltb_irrefl in Hn. split; [done|].
    rewrite <- Htod, <- Zplus_mod_idemp_r, Z_mod_same_full by done. by rewrite Z.add_0_r.
Qed.

Lemma advance_later date p :
  is_Some (checked_add_months date (months p)) -> date + days 28 <= advance_period date p.
Proof.
  intros [t Ht]. unfold advance_period. rewrite Ht. simpl.
  assert (1 <= months p) as Hp by (by destruct p).
  destruct (add_months_civil date (months p) t ltac:(lia) Ht) as (_ & _ & Hlater & _).
  unfold days, seconds in *. case_match; lia.
Qed.

(** ** A renewal without faults *)

(** What a run leaves alone: the ledger, the sessions, the members' rows. *)
Definition same_money (db db' : Db) : Prop :=
  ledger db' = ledger db /\ sessions db' = sessions db /\ users db' = users db.

Lemma apply_role_run cfg uid entitled db :
  exists db', apply_role cfg uid entitled (db, []) = ((db', []), inl tt) /\ same_money db db'.
Proof.
  unfold apply_role, mbind, M_bind, user_primary_role, user_effective_level,
    user_has_permission, count_active_admins, select, call, rbac_graph. simpl.
  set (admin := has_permission _ _ _). clearbody admin.
  destruct admin; simpl; [destruct (_ <=? 1)|]; destruct entitled; simpl;
    repeat (case_match; simpl); eexists; (split; [reflexivity | done]).
Qed.

Lemma lift_run {A} (m : M A) o st st' r : m st = (st', r) -> lift m o st = (st', inl (o, r)).
Proof. intros H. unfold lift, mbind, M_bind, attempt. by rewrite H. Qed.

Lemma obind_run {A B} (m : Pass A) (k : A -> Pass B) o st st' o' x :
  m o st = (st', inl (o', inl x)) -> obind m k o st = k x o' st'.
Proof. intros H. unfold obind, mbind, M_bind. by rewrite H. Qed.

Lemma user_balance_run uid db : user_balance uid (db, []) = ((db, []), inl (balance db uid)).
Proof. done. Qed.

Definition dues_row cfg now uid db : LedgerEntry := {| le_id := gen_random_uuid (next_id db);
  le_entry := {| nle_user_id := uid; nle_entry_type := DuesCharge;
    nle_amount := (- due_amount cfg)%Q; nle_currency := currency cfg; nle_occurred_at := now;
    nle_description := Some "Membership dues"%string; nle_external_reference := None;
    nle_created_by := None |} |}.

Lemma post_dues_run cfg now uid db :
  is_Some (users db !! uid) ->
  post_dues cfg now uid (due_amount cfg) (db, []) =
  ((add_ledger (dues_row cfg now uid db) db, []), inl tt).
Proof. intros Hu. unfold post_dues, mbind, M_bind. by rewrite insert_run. Qed.

Definition with_due (due : option instant) (u : User) : User := {|
  user_id := user_id u; full_name := full_name u; is_active := is_active u;
  membership_next_due_at := due; profile := profile u |}.

Lemma set_next_due_run uid due db u :
  users db !! uid = Some u ->
  set_membership_next_due uid due (db, []) =
  ((with_users <[uid := with_due due u]> db, []), inl tt).
Proof. intros Hu. unfold set_membership_next_due, call. by rewrite Hu. Qed.

(** The anniversaries after [d]. *)
Definition anniversary (p : MembershipPeriod) (d : instant) (k : nat) : instant :=
  Nat.iter k (fun d => advance_period d p) d.

Lemma anniversary_succ p d k : anniversary p d (S k) = anniversary p (advance_period d p) k.
Proof. unfold anniversary. rewrite Nat.iter_succ_r. done. Qed.

(** [k] periods charged to [uid] from the anniversary [d], each due and each covered by
    what the ones before it left, and where that leaves the member: at their next anniversary, or lapsed because the balance no
    longer covers the one that is due. *)
Record settled (cfg : MembershipConfig) (now : instant) (uid : uuid) (u : User) (d : instant)
    (db : Db) (o : MembershipCycleOutcome) (k : nat) (due : option instant)
    (db' : Db) (o' : MembershipCycleOutcome) : Prop := {
  settled_due : forall j, (j < k)%nat ->
    dues_due (anniversary (due_period cfg) d j) now (grace_days cfg) = true;
  settled_afforded : forall j, (j < k)%nat ->
    (due_amount cfg + inject_Z (Z.of_nat j) * due_amount cfg <= balance db uid)%Q;
  settled_balance :
    (balance db' uid == balance db uid - inject_Z (Z.of_nat k) * due_amount cfg)%Q;
  settled_user : users db' !! uid = Some (with_due due u);
  settled_others : forall v, v <> uid ->
    users db' !! v = users db !! v /\ (balance db' v == balance db v)%Q;
  settled_sessions : sessions db' = sessions db;
  settled_charged : dues_charged o' = dues_charged o + Z.of_nat k;
  settled_end :
    match due with
    | Some n => n = anniversary (due_period cfg) d k /\ lapsed o' = lapsed o
    | None => dues_due (anniversary (due_period cfg) d k) now (grace_days cfg) = true /\
        (balance db' uid < due_amount cfg)%Q /\ lapsed o' = lapsed o + 1
    end;
}.

Lemma balance_same db db' v : same_money db db' -> balance db' v = balance db v.
Proof. intros (Hl & _). unfold balance, amounts. by rewrite Hl. Qed.

(** One turn that charges, run. *)
Lemma charge_turn cfg now uid fuel u d db o :
  users db !! uid = Some u -> dues_due d now (grace_days cfg) = true ->
  (due_amount cfg <= balance db uid)%Q ->
  exists db', renewal_loop cfg now uid (S fuel) (Some d) o (db, []) =
      renewal_loop cfg now uid fuel (Some (advance_period d (due_period cfg))) (add_charged o) (db', []) /\
    users db' = <[uid := with_due (Some (advance_period d (due_period cfg))) u]> (users db) /\
    ledger db' = ledger db ++ [dues_row cfg now uid db] /\ sessions db' = sessions db.
Proof.
  intros Hu Hdue Hb. cbn [renewal_loop]. rewrite Hdue. cbn [negb].
  erewrite obind_run by (apply lift_run, user_balance_run).
  apply Qle_bool_iff in Hb. rewrite Hb.
  erewrite obind_run by (by apply lift_run, post_dues_run).
  erewrite obind_run by (by apply lift_run, set_next_due_run).
  erewrite obind_run by reflexivity.
  edestruct (apply_role_run cfg uid true) as (db' & Hrole & Hl & Hse & Hus).
  erewrite obind_run by (by apply lift_run).
  exists db'. split; [done|]. rewrite Hl, Hus, Hse. done.
Qed.

(** One turn that lapses, run. *)
Lemma lapse_turn cfg now uid fuel u d db o :
  users db !! uid = Some u -> dues_due d now (grace_days cfg) = true ->
  (balance db uid < due_amount cfg)%Q ->
  exists db', renewal_loop cfg now uid (S fuel) (Some d) o (db, []) =
      ((db', []), inl (add_lapsed o, inl tt)) /\
    users db' = <[uid := with_due None u]> (users db) /\ ledger db' = ledger db /\
    sessions db' = sessions db.
Proof.
  intros Hu Hdue Hb. cbn [renewal_loop]. rewrite Hdue. cbn [negb].
  erewrite obind_run by (apply lift_run, user_balance_run).
  destruct (Qle_bool (due_amount cfg) (balance db uid)) eqn:E.
  { apply Qle_bool_iff in E. lra. }
  erewrite obind_run by (by apply lift_run, set_next_due_run).
  edestruct (apply_role_run cfg uid false) as (db' & Hrole & Hl & Hse & Hus).
  erewrite obind_run by (by apply lift_run).
  erewrite obind_run by reflexivity.
  exists db'. split; [by destruct fuel|]. rewrite Hl, Hus, Hse. done.
Qed.

Lemma settled_start cfg now uid u d db o :
  users db !! uid = Some u -> membership_next_due_at u = Some d ->
  settled cfg now uid u d db o 0 (Some d) db o.
Proof.
  intros Hu Hd. constructor; try done; try lia.
  - change (inject_Z (Z.of_nat 0)) with 0%Q. lra.
  - rewrite Hu. destruct u. simpl in *. by subst.
Qed.

Lemma renewal_loop_settles cfg now uid fuel u d db o :
  users db !! uid = Some u -> membership_next_due_at u = Some d ->
  exists k due db' o',
    renewal_loop cfg now uid fuel (Some d) o (db, []) = ((db', []), inl (o', inl tt)) /\
    settled cfg now uid u d db o k due db' o' /\ (k <= fuel)%nat /\
    forall n, due = Some n -> dues_due n now (grace_days cfg) = false \/ k = fuel.
Proof.
  revert u d db o. induction fuel as [|fuel IH]; intros u d db o Hu Hd.
  - exists 0%nat, (Some d), db, o. split; [done|]. split; [by apply settled_start|].
    split; [lia | auto].
  - destruct (dues_due d now (grace_days cfg)) eqn:Hdue.
    2: { exists 0%nat, (Some d), db, o. split; [cbn [renewal_loop]; by rewrite Hdue|].
         split; [by apply settled_start|]. split; [lia | intros n [= ->]; auto]. }
    destruct (Qlt_le_dec (balance db uid) (due_amount cfg)) as [Hb|Hb].
    + destruct (lapse_turn cfg now uid fuel u d db o Hu Hdue Hb) as (db' & -> & Hus & Hl & Hse).
      assert (forall v, balance db' v = balance db v) as Hbal.
      { intros v. unfold balance, amounts. by rewrite Hl. }
      exists 0%nat, None, db', (add_lapsed o). split; [done|]. split; [|split; [lia | done]].
      constructor; simpl; try lia.
      * rewrite Hbal. change (inject_Z (Z.of_nat 0)) with 0%Q. lra.
      * by rewrite Hus, lookup_insert_eq.
      * intros v Hv. by rewrite Hus, lookup_insert_ne, Hbal by (by intros ->).
      * done.
      * by rewrite Hbal.
    + destruct (charge_turn cfg now uid fuel u d db o Hu Hdue Hb) as (db1 & -> & Hus & Hl & Hse).
      set (d1 := advance_period d (due_period cfg)) in *.
      destruct (IH (with_due (Some d1) u) d1 db1 (add_charged o)) as (k & due & db' & o' & Hrun & Hs & Hk & Hend).
      { by rewrite Hus, lookup_insert_eq. }
      { done. }
      assert (forall v, balance db1 v == balance db v +
        (if uid ≟ v then - due_amount cfg else 0))%Q as Hbal.
      { intros v. by rewrite (balance_add db db1 v _ Hl). }
      exists (S k), due, db', o'. split; [done|]. split; [|split; [lia|]].
      2: { intros n Hn. destruct (Hend n Hn); auto. }
      destruct Hs as [S1 Saf S2 S3 S4 Sse S5 S6]. constructor.
      * intros [|j] Hj; [done|]. rewrite anniversary_succ. apply S1. lia.
      * intros [|j] Hj; [change (inject_Z (Z.of_nat 0)) with 0%Q; lra|].
        specialize (Saf j ltac:(lia)). rewrite Hbal, bool_decide_eq_true_2 in Saf by done.
        rewrite Nat2Z.inj_succ, <- Z.add_1_l, inject_Z_plus. change (inject_Z 1) with 1%Q. lra.
      * rewrite S2, Hbal, bool_decide_eq_true_2 by done.
        rewrite Nat2Z.inj_succ, <- Z.add_1_l, inject_Z_plus. ring.
      * done.
      * intros v Hv. destruct (S4 v Hv) as [H1 H2]. rewrite H1, H2, Hbal, Hus.
        rewrite lookup_insert_ne, bool_decide_eq_false_2 by (by intros ->). split; [done | lra].
      * by rewrite Sse, Hse.
      * rewrite S5. simpl. lia.
      * destruct due; rewrite anniversary_succ; done.
Qed.

Lemma anniversary_later cfg now d k :
  0 <= grace_days cfg ->
  (forall t, t <= now -> is_Some (checked_add_months t (months (due_period cfg)))) ->
  (forall j, (j < k)%nat ->
     dues_due (anniversary (due_period cfg) d j) now (grace_days cfg) = true) ->
  d + Z.of_nat k * days 28 <= anniversary (due_period cfg) d k.
Proof.
  intros Hg Hm Hall. induction k as [|k IH]; [simpl; lia|].
  specialize (IH ltac:(intros; apply Hall; lia)).
  specialize (Hall k ltac:(lia)). unfold dues_due in Hall. apply Z.leb_le in Hall.
  assert (0 <= days (grace_days cfg)) by (unfold days, seconds; lia).
  pose proof (advance_later (anniversary (due_period cfg) d k) (due_period cfg)
    (Hm (anniversary (due_period cfg) d k) ltac:(lia))).
  unfold anniversary in *. rewrite Nat.iter_succ. unfold days, seconds in *. lia.
Qed.

Lemma renewal_settles_lemma cfg now uid u d db o :
  users db !! uid = Some u -> membership_next_due_at u = Some d -> 0 <= grace_days cfg ->
  (forall t, t <= now -> is_Some (checked_add_months t (months (due_period cfg)))) ->
  now < d + days (28 * 1199) ->
  exists k due db' o',
    settle_renewal cfg now uid o (db, []) = ((db', []), inl (o', inl tt)) /\
    settled cfg now uid u d db o k due db' o' /\
    forall n, due = Some n -> dues_due n now (grace_days cfg) = false.
Proof.
  intros Hu Hd Hg Hm Hnow.
  destruct (renewal_loop_settles cfg now uid RENEWAL_CAP u d db o Hu Hd)
    as (k & due & db' & o' & Hrun & Hs & Hk & Hend).
  exists k, due, db', o'. split; [|split; [done|]].
  - assert (lift (find_user_by_id uid) o (db, []) = ((db, []), inl (o, inl (Some u)))) as Hfind.
    { apply lift_run. unfold find_user_by_id, select, call. by rewrite Hu. }
    unfold settle_renewal. rewrite (obind_run _ _ _ _ _ _ _ Hfind). cbn beta iota.
    rewrite Hd. exact Hrun.
  - intros n ->. destruct (Hend n eq_refl) as [|Hcap]; [done|]. exfalso.
    pose proof (settled_due _ _ _ _ _ _ _ _ _ _ _ Hs) as Hall.
    assert (Z.of_nat k = 1200) as Hk' by (by subst k).
    assert (exists j, k = S j) as (j & ->) by (destruct k; [simpl in Hk'; lia | eauto]).
    pose proof (anniversary_later cfg now d j Hg Hm ltac:(intros; apply Hall; lia)) as Hlater.
    pose proof (Hall j ltac:(lia)) as Hj. unfold dues_due in Hj. apply Z.leb_le in Hj.
    assert (0 <= days (grace_days cfg)) by (unfold days, seconds; lia).
    unfold days, seconds in *. lia.
Qed.

(** C11. A renewal that meets no fault settles a member completely: some number of periods
    is charged, each of them due, each covered by the balance the ones before it left,
    each for exactly one period's dues, nobody else touched; and
    the member ends either at an anniversary that is not due yet or lapsed with a
    balance that does not cover the one that is.  It is for an anniversary less than ninety
    years old, for which the cap of 1200 turns is out of reach, under a grace that is not
    negative, and where adding months to a date of the calendar gives a date. *)
Theorem renewal_settles cfg now uid u d db o :
  users db !! uid = Some u -> membership_next_due_at u = Some d -> 0 <= grace_days cfg ->
  (forall t, t <= now -> is_Some (checked_add_months t (months (due_period cfg)))) ->
  now < d + days (28 * 1199) ->
  exists k due db' o',
    settle_renewal cfg now uid o (db, []) = ((db', []), inl (o', inl tt)) /\
    settled cfg now uid u d db o k due db' o' /\
    forall n, due = Some n -> dues_due n now (grace_days cfg) = false.
Proof. apply renewal_settles_lemma. Qed.

(** ** The last administrator *)

(** Whoever holds administrator access ranks with the members or above. *)
Definition admins_rank (cfg : MembershipConfig) (g : RoleGraph) : Prop :=
  forall roles, has_permission g roles "admin.access" = true ->
    default 0 (level_of_name g (member_role cfg)) <= effective_level g roles.

Definition administered (cfg : MembershipConfig) (db : Db) : Prop :=
  has_admin db /\ admins_rank cfg (rbac db).

(** The decision to change a role leaves another administrator. *)
Lemma planned_change_spares_an_admin cfg db uid entitled new_role :
  administered cfg db ->
  let last := is_admin db uid && (Z.of_nat (length (active_admins db)) <=? 1) in
  plan_role_transition (effective_level (rbac db) (roles_for_user db uid)) entitled last
    (member_role cfg) (default 0 (level_of_name (rbac db) (member_role cfg)))
    (lapsed_role cfg) (default 0 (level_of_name (rbac db) (lapsed_role cfg))) = Some new_role ->
  exists v, v <> uid /\ active db v = true /\ is_admin db v = true.
Proof.
  intros [(v & Hv & Hadm) Hrank] last Hplan.
  destruct (is_admin db uid) eqn:Euid.
  2: { exists v. split; [|done]. intros ->. congruence. }
  subst last. unfold plan_role_transition in Hplan. destruct entitled.
  - specialize (Hrank _ Euid). rewrite (proj2 (Z.ltb_ge _ _) Hrank) in Hplan. done.
  - apply another_admin. destruct (Z.leb_spec (Z.of_nat (length (active_admins db))) 1); [done|lia].
Qed.

Lemma administered_set_role cfg db uid name :
  administered cfg db ->
  (exists v, v <> uid /\ active db v = true /\ is_admin db v = true) ->
  administered cfg (set_user_primary_role uid name (db, [])).1.1.
Proof.
  intros [_ Hrank] (v & Hv & Ha & Hadm). split; [|done]. exists v.
  destruct (roles_for_other db uid name v Hv) as [-> ->]. done.
Qed.

Lemma administered_apply_role cfg uid entitled :
  keeps (administered cfg) (apply_role cfg uid entitled).
Proof.
  unfold apply_role. eapply triple_bind with (R := fun g db => g = rbac db).
  { intros db fs Hi _. by split. }
  intros g. eapply triple_bind; [apply triple_select_keep|]. intros role.
  eapply triple_bind; [apply triple_select_keep|]. intros current_level.
  eapply triple_bind; [apply triple_select_keep|]. intros user_is_admin.
  eapply triple_bind with (R := fun last db => user_is_admin = is_admin db uid /\
    current_level = effective_level (rbac db) (roles_for_user db uid) /\ g = rbac db /\
    last = is_admin db uid && (Z.of_nat (length (active_admins db)) <=? 1)).
  { destruct user_is_admin.
    - eapply triple_bind; [apply triple_select_keep|]. intros n. apply triple_ret.
      intros db Hi ((((? & ?) & ?) & Hadm) & ->). subst.
      unfold is_admin. rewrite <- Hadm. done.
    - apply triple_ret. intros db Hi (((? & ?) & ?) & Hadm). subst.
      unfold is_admin. rewrite <- Hadm. done. }
  intros last. eapply triple_bind with (R := fun _ db => g = rbac db /\
    current_level = effective_level (rbac db) (roles_for_user db uid) /\
    last = is_admin db uid && (Z.of_nat (length (active_admins db)) <=? 1)).
  { case_match.
    - intros db fs Hi (? & ? & ? & ?). unfold audit, mbind, M_bind, attempt.
      destruct fs as [|[] fs]; simpl; split; done.
    - apply triple_ret. intros db Hi (? & ? & ? & ?). done. }
  intros ?. destruct (plan_role_transition _ _ _ _ _ _ _) as [new_role|] eqn:Hplan;
    [|by apply triple_ret].
  eapply triple_bind with (R := fun _ _ => True).
  { apply triple_call. intros db Hi (-> & -> & ->). split; [|done].
    apply (administered_set_role cfg db uid new_role Hi).
    by eapply planned_change_spares_an_admin. }
  intros ?. eapply triple_bind; [by apply triple_effect with (Q := fun _ _ => True)|].
  intros ?. intros db fs Hi _. unfold audit, mbind, M_bind, attempt.
  by destruct fs as [|[] fs].
Qed.

Lemma administered_inv cfg : service_inv cfg (administered cfg).
Proof.
  constructor.
  - intros db row Hi _ _ _. exact Hi.
  - intros. apply administered_apply_role.
  - intros uid due. apply keeps_call. intros db [(v & Hv & Hadm) Hrank].
    destruct (users db !! uid) as [u|] eqn:Eu; [|split; [by exists v | done]].
    split; [|done]. exists v. split; [|done]. revert Hv. unfold active. simpl.
    destruct (decide (v = uid)) as [->|Hne].
    + by rewrite lookup_insert_eq, Eu.
    + by rewrite lookup_insert_ne by done.
  - intros row. apply keeps_call. intros db Hi. exact Hi.
Qed.

(** C16. Billing never leaves the space without an administrator: where everyone
    with administrator access ranks at least as high as the member role, a whole
    renewal cycle -- polls, renewals, lapses, whatever fails on the way -- keeps
    some active user with administrator access. *)
Theorem last_admin_survives cfg now stripe db fs :
  has_admin db -> admins_rank cfg (rbac db) ->
  has_admin (run_cycle cfg now stripe (db, fs)).1.1.
Proof.
  intros Ha Hr.
  pose proof (keeps_run_cycle cfg (administered cfg) now stripe (administered_inv cfg)
    ltac:(by intros ? ? ? ? _ _ _ ? ? ? _ _ _) db fs (conj Ha Hr) Logic.I) as H.
  destruct (run_cycle _ _ _ _) as [[db' fs'] r]. apply H.
Qed.

(** ** Refunds *)

(** A refund event as Stripe sends it: the charge, its customer, and what has
    been refunded of it so far. *)
Definition refund_event (obj : json) (customer charge : string) (refunded : Z) : Prop :=
  str_field obj "customer" = Some customer /\ str_field obj "id" = Some charge /\
  json_get obj "amount_refunded" ≫= json_as_i64 = Some refunded.

(** The customer is an enrolled member's. *)
Definition customer_of (db : Db) (customer : string) (u : User) : Prop :=
  find_first (fun cu => cu.1 ≟ customer) (stripe_customers db) = Some (customer, user_id u) /\
  users db !! user_id u = Some u /\ is_Some (membership_next_due_at u).

Definition refund_row cfg now u charge refunded db : LedgerEntry := {|
  le_id := gen_random_uuid (next_id db); le_entry := {| nle_user_id := user_id u;
    nle_entry_type := StripeRefund; nle_amount := (- minor_units_to_decimal refunded)%Q;
    nle_currency := currency cfg; nle_occurred_at := now;
    nle_description := Some "Stripe refund"%string;
    nle_external_reference := Some (charge +:+ ":refund"); nle_created_by := None |} |}.

Lemma refund_run cfg now obj customer charge refunded u db :
  refund_event obj customer charge refunded -> customer_of db customer u -> 0 < refunded ->
  (handle_charge_refunded cfg now obj (db, [])).1.1 =
  if bool_decide ((charge +:+ ":refund") ∈ references db) then db
  else add_ledger (refund_row cfg now u charge refunded db) db.
Proof.
  intros (Hc & Hid & Hamt) (Hcust & Hu & Hdue) Hpos.
  unfold handle_charge_refunded. rewrite Hc.
  unfold mbind at 1, M_bind at 1, find_user_by_stripe_customer_id, select, call at 1.
  rewrite Hcust. simpl. rewrite Hu, Hamt, Hid. simpl.
  rewrite (proj2 (Z.leb_gt _ _) Hpos). unfold record_credit, mbind, M_bind.
  rewrite exists_reference. case_bool_decide as Hr.
  - done.
  - unfold attempt. rewrite insert_run; [| by exists u | simpl; by apply bool_decide_eq_true_2].
    cbn [mret M_ret]. unfold settle_after_credit, mbind, M_bind, find_user_by_id, select, call.
    cbn [users add_ledger]. rewrite Hu. by destruct Hdue as [d ->].
Qed.

(** Stripe reports what has been refunded of a charge in total, each time
    more of it is; the ledger takes only the first report.  After two partial
    refunds the member's balance is down by the first alone. *)
Theorem second_partial_refund_is_dropped cfg now now' obj obj' customer charge first both u db :
  refund_event obj customer charge first -> refund_event obj' customer charge both ->
  customer_of db customer u -> 0 < first < both -> (charge +:+ ":refund") ∉ references db ->
  let db1 := (handle_charge_refunded cfg now obj (db, [])).1.1 in
  let db2 := (handle_charge_refunded cfg now' obj' (db1, [])).1.1 in
  (balance db2 (user_id u) == balance db (user_id u) - minor_units_to_decimal first)%Q.
Proof.
  intros H1 H2 Hc Hamt Hr db1 db2.
  assert (db1 = add_ledger (refund_row cfg now u charge first db) db) as Hdb1.
  { subst db1. erewrite refund_run by (done || lia). by rewrite bool_decide_eq_false_2. }
  assert (db2 = db1) as ->.
  { subst db2. erewrite (refund_run cfg now' obj' customer charge both u db1); [|done| |lia].
    - rewrite bool_decide_eq_true_2; [done|]. rewrite Hdb1.
      erewrite (references_add db) by (simpl; reflexivity). simpl. set_solver.
    - by rewrite Hdb1. }
  rewrite Hdb1, (balance_add db _ _ (refund_row cfg now u charge first db)) by done.
  rewrite bool_decide_eq_true_2 by done. simpl. lra.
Qed.

End Membership.
End Membership.
