(* ===== verification/ToolBilling.v ===== *)
(** * Metered tools ([server/src/tool_billing.rs])

    The money gate, the hold a session places, the usage it accumulates and the
    one charge it settles to.  Device reports are IEEE binary32 values, and the
    three-place text they are stored as is correctly rounded. *)
From Stdlib Require Import QArith Lqa SpecFloat.
From S2P Require Import Prelude Rbac Faults Money Database Membership.
Import Rbac Money Faults Database Membership.

Module ToolBilling.

#[local] Open Scope Z_scope.

Abbreviation f32 := spec_float (only parsing).

Definition is_finite (x : f32) : bool :=
  match x with S754_zero _ | S754_finite _ _ _ => true | _ => false end.

(** [x >= 0.0]. *)
Definition at_least_zero (x : f32) : bool :=
  match x with
  | S754_zero _ | S754_finite false _ _ | S754_infinity false => true
  | _ => false
  end.

(** The exact value of a finite float. *)
Definition f32_value (x : f32) : Q :=
  match x with
  | S754_finite s m e =>
      let z := if s then Z.neg m else Z.pos m in
      if 0 <=? e then inject_Z (z * 2 ^ e) else z # Z.to_pos (2 ^ (- e))
  | _ => 0
  end.

Definition round_half_even (q : Q) : Z :=
  let d := Z.pos (Qden q) in
  let fl := Qnum q / d in
  match 2 * (Qnum q mod d) ?= d with
  | Lt => fl
  | Gt => fl + 1
  | Eq => if Z.even fl then fl else fl + 1
  end.

(** [BigDecimal::from_str(&format!("{x:.3}"))]. *)
Definition three_places (x : f32) : Q := round_half_even (f32_value x * inject_Z 1000) # 1000.

Inductive BillingMode : Type := Prepaid | Postpaid.
Inductive ActuationMode : Type := OnlineSynchronous | EdgeLocal.

Record ToolBillingConfig := {
  tb_enabled : bool;
  billing_mode : BillingMode;
  actuation_mode : ActuationMode;
  require_membership : bool;
  (** [min_balance] as [BigDecimal::from_str] reads it. *)
  min_balance_parsed : option Q;
  default_max_session_minutes : Z;
  tb_currency : string;
  (** [tools.session_grace_minutes]. *)
  session_grace_minutes : Z;
}.

(** ** The arithmetic *)

Section ToolBilling.
Context {U : Uuid} {IS : IdSource} {D : Decimal}.

Definition is_positive (v : option Q) : bool := is_some_and v (fun x => negb (Qle_bool x 0)).

Definition session_cap_minutes (own : option Z) (dflt : Z) : Z := default dflt own.

Definition of_minutes (n : Z) : duration := seconds (60 * n).

Definition abandoned_cutoff (max_minutes grace_minutes : Z) (now : instant) : instant :=
  now - of_minutes (Z.max max_minutes 1 + Z.max grace_minutes 0).

Definition is_metered (flat rate : option Q) : bool := is_positive flat || is_positive rate.

Definition max_session_cost (flat rate : option Q) (max_minutes : Z) : Q :=
  dec_round 2 (default 0%Q flat + default 0%Q rate * inject_Z max_minutes)%Q.

Definition ACTIVE : string := "active".

Definition effective_reported (basis : string) (reported active : option Q) : Q :=
  if basis ≟ ACTIVE then default 0%Q (option_or active reported) else default 0%Q reported.

Definition session_charge (flat rate : option Q) (effective_seconds : Q) (max_minutes : Z) : Q :=
  let max_secs := (inject_Z max_minutes * inject_Z 60)%Q in
  let billable := if negb (Qle_bool effective_seconds max_secs) then max_secs
                  else if negb (Qle_bool 0 effective_seconds) then 0%Q
                  else effective_seconds in
  dec_round 2 (default 0%Q flat + dec_div (default 0%Q rate * billable) (inject_Z 60))%Q.

Definition metered_access_ok (is_member require : bool) (available required : Q) : bool :=
  (negb require || is_member) && Qle_bool required available.

(** ** The gate the allow-list is filtered with *)

Record MeteredGate := {
  g_require_membership : bool;
  g_prepaid : bool;
  g_min_balance : Q;
  g_default_max_minutes : Z;
  g_online_sync : bool;
}.

Definition requires_online (g : MeteredGate) (tool : Tool) : bool :=
  g_online_sync g && is_metered (usage_flat_fee tool) (usage_rate_per_min tool).

Definition required_for_rate (g : MeteredGate) (flat rate : option Q) (max_minutes : option Z) : Q :=
  if g_prepaid g
  then max_session_cost flat rate (default (g_default_max_minutes g) max_minutes)
  else g_min_balance g.

Definition authorizes_rate (g : MeteredGate) (flat rate : option Q) (max_minutes : option Z)
    (available : Q) (is_member : bool) : bool :=
  if negb (is_metered flat rate) then true
  else metered_access_ok is_member (g_require_membership g) available
         (required_for_rate g flat rate max_minutes).

Definition authorizes (g : MeteredGate) (tool : Tool) (available : Q) (is_member : bool) : bool :=
  authorizes_rate g (usage_flat_fee tool) (usage_rate_per_min tool)
    (usage_max_session_minutes tool) available is_member.

(** ** The service *)

Definition min_balance (cfg : ToolBillingConfig) : Q := default 0%Q (min_balance_parsed cfg).

Definition max_minutes (cfg : ToolBillingConfig) (tool : Tool) : Z :=
  session_cap_minutes (usage_max_session_minutes tool) (default_max_session_minutes cfg).

Definition gate (cfg : ToolBillingConfig) : MeteredGate := {|
  g_require_membership := require_membership cfg;
  g_prepaid := match billing_mode cfg with Prepaid => true | Postpaid => false end;
  g_min_balance := min_balance cfg;
  g_default_max_minutes := default_max_session_minutes cfg;
  g_online_sync := match actuation_mode cfg with OnlineSynchronous => true | EdgeLocal => false end;
|}.

Definition is_member (uid : uuid) : M bool := user_has_permission uid "member.access".

Definition required_available_rate (cfg : ToolBillingConfig) (eff : EffectiveRate) : Q :=
  match billing_mode cfg with
  | Prepaid => max_session_cost (eff_flat_fee eff) (eff_rate_per_min eff)
      (default (default_max_session_minutes cfg) (eff_max_session_minutes eff))
  | Postpaid => min_balance cfg
  end.

Definition metered_authorized (cfg : ToolBillingConfig) (uid : uuid) (tool : Tool) : M bool :=
  eff ← resolve_effective_billing uid tool;
  if negb (is_metered (eff_flat_fee eff) (eff_rate_per_min eff)) then mret true
  else
    available ← available_balance uid;
    member ← is_member uid;
    mret (metered_access_ok member (require_membership cfg) available
            (required_available_rate cfg eff)).

(** The reasons of a denial; the last is worded from its two amounts. *)
Inductive Denial : Type :=
  | AlreadyOpen
  | MembershipRequired
  | InsufficientBalance (available required : Q).

Inductive ActivationOutcome : Type :=
  | Authorized (session : ToolUsageSession)
  | Denied (reason : Denial).

Definition open_session (cfg : ToolBillingConfig) (now : instant) (uid : uuid) (tool : Tool)
    : M ActivationOutcome :=
  existing ← open_tool_session_for_tool (tool_id tool);
  if is_some existing then mret (Denied AlreadyOpen)
  else
    eff ← resolve_effective_billing uid tool;
    let metered := is_metered (eff_flat_fee eff) (eff_rate_per_min eff) in
    outsider ← (if metered && require_membership cfg
                then m ← is_member uid; mret (negb m) else mret false);
    if outsider : bool then mret (Denied MembershipRequired)
    else
      let required := required_available_rate cfg eff in
      available ← available_balance uid;
      if metered && negb (Qle_bool required available)
      then mret (Denied (InsufficientBalance available required))
      else
        let hold := match billing_mode cfg with
                    | Prepaid => if metered then required else 0%Q
                    | Postpaid => 0%Q
                    end in
        session ← insert_tool_session {| ns_tool_id := tool_id tool; ns_user_id := uid;
          started_at := now; hold_amount := hold; rate_flat_fee := eff_flat_fee eff;
          rate_per_min_locked := eff_rate_per_min eff; session_tier_id := eff_tier_id eff |};
        mret (Authorized session).

Definition record_usage (tid : uuid) (secs : f32) (active_secs : option f32) : M bool :=
  if negb (is_finite secs && at_least_zero secs) then mret false
  else
    session ← open_tool_session_for_tool tid;
    match session with
    | None => mret false
    | Some session =>
        _ ← add_reported_seconds (session_id session) (three_places secs) (is_some active_secs);
        _ ← match active_secs with
            | Some a => if is_finite a && at_least_zero a
                        then add_reported_active_seconds (session_id session) (three_places a)
                        else mret tt
            | None => mret tt
            end;
        mret true
    end.

(** [Duration::num_seconds] since the start, not below zero. *)
Definition elapsed (now : instant) (s : ToolUsageSession) : Z :=
  Z.max 0 (Z.quot (now - started_at (opened s)) 1000000000).

(** The rates a session is charged at: what it locked, if it locked anything. *)
Definition charge_rates (tool : Tool) (s : ToolUsageSession) : option Q * option Q :=
  let new := opened s in
  if is_some (rate_per_min_locked new) || is_some (rate_flat_fee new) || is_some (session_tier_id new)
  then (rate_flat_fee new, rate_per_min_locked new)
  else (usage_flat_fee tool, usage_rate_per_min tool).

(** Reported usage, cut to the time the tool was on. *)
Definition effective_usage (now : instant) (tool : Tool) (s : ToolUsageSession) : Q :=
  let reported := effective_reported (usage_basis tool) (reported_seconds s)
                    (reported_active_seconds s) in
  let cap := inject_Z (elapsed now s) in
  if negb (Qle_bool reported cap) then cap else reported.

Definition charge_of (cfg : ToolBillingConfig) (now : instant) (tool : Tool) (s : ToolUsageSession) : Q :=
  let '(flat, rate) := charge_rates tool s in
  session_charge flat rate (effective_usage now tool s) (max_minutes cfg tool).

Definition settle_open_session_for_tool (cfg : ToolBillingConfig) (now : instant) (tool : Tool)
    (status_on_close : string) : M (option Q) :=
  session ← open_tool_session_for_tool (tool_id tool);
  match session with
  | None => mret None
  | Some session =>
      let charge := charge_of cfg now tool session in
      let reference := uuid_show (session_id session) in
      let uid := ns_user_id (opened session) in
      seen ← ledger_entry_exists_for_reference reference;
      posted ← (if seen : bool then mret None
        else
          r ← attempt (insert_ledger_entry {| nle_user_id := uid; nle_entry_type := ToolUsage;
            nle_amount := (- charge)%Q; nle_currency := tb_currency cfg; nle_occurred_at := now;
            nle_description := Some ("Tool usage: " +:+ tool_name tool);
            nle_external_reference := Some reference; nle_created_by := None |});
          match r with
          | inl e => mret (Some e)
          | inr UniqueViolation => mret None
          | inr e => throw e
          end);
      closed ← settle_tool_session now (session_id session) (reported_seconds session) charge
                 (le_id <$> (posted : option LedgerEntry)) status_on_close;
      if closed && is_some posted then
        _ ← audit (if status_on_close ≟ "abandoned"%string then ToolSessionAbandoned
                   else ToolUsageCharged) uid;
        mret (Some charge)
      else mret None
  end.

Fixpoint sweep_loop (cfg : ToolBillingConfig) (now : instant) (candidates : list ToolUsageSession)
    (closed : nat) : M nat :=
  match candidates with
  | [] => mret closed
  | session :: candidates =>
      tool ← get_tool_by_id (ns_tool_id (opened session));
      match tool with
      | None => sweep_loop cfg now candidates closed
      | Some tool =>
          if abandoned_cutoff (max_minutes cfg tool) (session_grace_minutes cfg) now
               <=? started_at (opened session)
          then sweep_loop cfg now candidates closed
          else
            r ← attempt (settle_open_session_for_tool cfg now tool "abandoned");
            sweep_loop cfg now candidates
              (match r with inl (Some _) => S closed | _ => closed end)
      end
  end.

Definition sweep_abandoned (cfg : ToolBillingConfig) (now : instant) : M nat :=
  if negb (tb_enabled cfg) then mret 0%nat
  else
    candidates ← open_tool_sessions_older_than
                   (abandoned_cutoff 1 (session_grace_minutes cfg) now);
    sweep_loop cfg now candidates 0%nat.

(** ** The charge *)

Lemma is_positive_false v : is_positive v = false -> (default 0 v <= 0)%Q.
Proof.
  unfold is_positive. destruct v as [x|]; simpl; [|lra].
  intros H%negb_false_iff. by apply Qle_bool_iff.
Qed.

(** The seconds billed: the usage, between nothing and the cap. *)
Lemma session_charge_cut flat rate eff cap :
  0 <= cap ->
  exists billable, session_charge flat rate eff cap =
      dec_round 2 (default 0 flat + dec_div (default 0 rate * billable) (inject_Z 60))%Q /\
    (0 <= billable <= inject_Z cap * inject_Z 60)%Q /\
    (inject_Z cap * inject_Z 60 <= eff -> billable == inject_Z cap * inject_Z 60)%Q.
Proof.
  intros Hc. unfold session_charge.
  assert (0 <= inject_Z cap * inject_Z 60)%Q as Hpos.
  { rewrite <- inject_Z_mult. change 0%Q with (inject_Z 0). rewrite <- Zle_Qle. lia. }
  destruct (Qle_bool eff _) eqn:E1; simpl.
  - apply Qle_bool_iff in E1. destruct (Qle_bool 0 eff) eqn:E2; simpl.
    + apply Qle_bool_iff in E2. exists eff. split; [done|]. split; [done|]. intros. lra.
    + apply Qle_bool_false in E2. exists 0%Q. split; [done|]. split; [lra|]. intros. lra.
  - exists (inject_Z cap * inject_Z 60)%Q. split; [done|]. split; [lra | done].
Qed.

Lemma sixty_pos : (0 < inject_Z 60)%Q.
Proof. reflexivity. Qed.

Lemma charge_within flat rate eff cap :
  0 <= cap -> (0 <= default 0 rate)%Q -> fits (default 0 rate * inject_Z cap)%Q ->
  (session_charge flat rate eff cap <= max_session_cost flat rate cap)%Q /\
  (inject_Z cap * inject_Z 60 <= eff ->
   session_charge flat rate eff cap == max_session_cost flat rate cap)%Q.
Proof.
  intros Hc Hr Hf. destruct (session_charge_cut flat rate eff cap Hc) as (b & -> & [Hb0 Hb1] & Heq).
  assert (default 0 rate * b <= default 0 rate * inject_Z cap * inject_Z 60)%Q as Hle.
  { rewrite <- Qmult_assoc, !(Qmult_comm (default 0 rate)%Q). by apply Qmult_le_compat_r. }
  pose proof (div_le _ _ _ Hf sixty_pos Hle) as Hdiv.
  unfold max_session_cost. split.
  - apply round_mono. lra.
  - intros Heff. f_equiv. apply Qplus_inj_l, Qle_antisym; [done|].
    apply div_ge; [done | apply sixty_pos|]. rewrite (Heq Heff). lra.
Qed.

(** A settled session never costs more than its hold was computed as: at the
    same rates and the same cap, the charge of any usage whatever is at most the
    most the session can cost, and at least its flat fee. *)
Theorem charge_within_cost flat rate eff cap :
  0 <= cap -> (0 <= default 0 rate)%Q -> fits (default 0 rate * inject_Z cap)%Q ->
  (dec_round 2 (default 0 flat) <= session_charge flat rate eff cap
    <= max_session_cost flat rate cap)%Q.
Proof.
  intros Hc Hr Hf. split; [|by apply charge_within].
  destruct (session_charge_cut flat rate eff cap Hc) as (b & -> & [Hb0 Hb1] & _).
  apply round_mono.
  assert (0 <= dec_div (default 0 rate * b) (inject_Z 60))%Q; [|lra].
  apply div_ge; [by exists 0, 0%nat | apply sixty_pos|].
  rewrite Qmult_0_l. by apply Qmult_le_0_compat.
Qed.

(** ** Opening a session *)

Lemma triple_available_balance I P uid :
  triple I P (available_balance uid) (fun a db => a = (balance db uid - open_holds db uid)%Q).
Proof.
  eapply triple_bind; [apply triple_select_keep|]. intros b.
  eapply triple_bind; [apply triple_select_keep|]. intros h.
  apply triple_ret. by intros db _ [[_ ->] ->].
Qed.

(** What is left once every hold is met. *)
Definition available (db : Db) (uid : uuid) : Q := (balance db uid - open_holds db uid)%Q.

Definition solvent (db : Db) : Prop := forall uid, (0 <= available db uid)%Q.

Lemma holds_add db db' uid row :
  sessions db' = sessions db ++ [row] -> is_open row = true ->
  (open_holds db' uid == open_holds db uid +
    (if ns_user_id (opened row) ≟ uid then hold_amount (opened row) else 0))%Q.
Proof.
  intros H Hopen. unfold open_holds, holds. rewrite H, List.filter_app, fmap_app. simpl.
  rewrite Hopen, andb_true_r. case_bool_decide; [apply total_snoc|].
  simpl. rewrite app_nil_r. lra.
Qed.

Lemma of_money_solvent : of_money solvent.
Proof.
  intros db db' Hl Hs _ H uid. specialize (H uid). revert H.
  unfold available, balance, amounts, open_holds, holds. by rewrite Hl, Hs.
Qed.

Lemma triple_insert_session I P new Q :
  (forall db row, I db -> P db -> opened row = new -> is_open row = true ->
    session_id row = gen_random_uuid (next_id db) ->
    find_first (tool_open (ns_tool_id new)) (sessions db) = None ->
    I (with_sessions 1 (fun l => l ++ [row]) db) /\
    Q row (with_sessions 1 (fun l => l ++ [row]) db)) ->
  triple I P (insert_tool_session new) Q.
Proof.
  intros H. apply triple_call. intros db Hi Hp.
  destruct (find_first _ _) eqn:E; [done|]. simpl.
  destruct (users db !! _); [|done]. destruct (tools db !! _); [|done].
  simpl. by apply H.
Qed.

(** The hold a member is allowed to place, and the session that places it. *)
Lemma triple_open_session cfg I now uid tool :
  (forall db row, I db -> ns_user_id (opened row) = uid -> is_open row = true ->
    session_id row = gen_random_uuid (next_id db) ->
    find_first (tool_open (ns_tool_id (opened row))) (sessions db) = None ->
    (hold_amount (opened row) <= 0 \/ hold_amount (opened row) <= available db uid)%Q ->
    I (with_sessions 1 (fun l => l ++ [row]) db)) ->
  keeps I (open_session cfg now uid tool).
Proof.
  intros H. unfold open_session. apply keeps_bind; [auto with css|].
  intros existing. destruct (is_some existing); [apply keeps_ret|].
  apply keeps_bind; [auto with css|]. intros eff. apply keeps_bind.
  { destruct (_ && _); [|apply keeps_ret]. apply keeps_bind; [auto with css | intros; apply keeps_ret]. }
  intros outsider. destruct outsider; [apply keeps_ret|].
  eapply triple_bind; [apply triple_available_balance|]. intros a.
  destruct (_ && negb _) eqn:E; [by apply triple_ret|].
  eapply triple_bind with (R := fun _ _ => True); [|intros; apply keeps_ret].
  apply triple_insert_session. intros db row Hi Ha Hrow Hopen Hid Hnone. split; [|done].
  apply H; rewrite ?Hrow; try done. simpl.
  destruct (billing_mode cfg); [|left; lra].
  destruct (is_metered _ _); [|left; lra]. right. subst a. simpl in E.
  apply negb_false_iff, Qle_bool_iff in E. exact E.
Qed.

(** Starting a metered tool never commits money the member does not have:
    from a state where every member's holds are covered by their balance, a start
    leaves it so, granted or refused, whatever calls fail. *)
Theorem open_session_keeps_solvent cfg now uid tool db fs :
  solvent db -> solvent (open_session cfg now uid tool (db, fs)).1.1.
Proof.
  intros Hdb. assert (keeps solvent (open_session cfg now uid tool)) as H.
  { apply triple_open_session. intros d row Hd Hu Hopen _ _ Hhold v.
    specialize (Hd v) as Hv. specialize (Hd uid).
    unfold available in *. change (balance (with_sessions _ _ d)) with (balance d).
    rewrite (holds_add d _ v row), Hu by done.
    case_bool_decide; [subst v|]; destruct Hhold; lra. }
  specialize (H db fs Hdb Logic.I). destruct (open_session _ _ _ _ _) as [[db' fs'] r]. apply H.
Qed.

(** ** Usage, by source *)

Lemma find_update f (p : ToolUsageSession -> bool) l :
  (forall s, p (f s) = p s) ->
  find_first p (f <$> l) = f <$> find_first p l.
Proof.
  intros Hp. induction l as [|x l IH]; simpl; [done|]. rewrite Hp. by destruct (p x).
Qed.

(** An update of the row a tool's open session was found as. *)
Lemma find_update_open tid f s l :
  find_first (tool_open tid) l = Some s ->
  (forall x, tool_open tid (f x) = tool_open tid x) ->
  find_first (tool_open tid) (update_open (session_id s) f l) = Some (f s).
Proof.
  intros Hs Hf. unfold update_open. rewrite find_update, Hs.
  - simpl. apply find_first_Some in Hs as [_ Ho]. apply andb_true_iff in Ho as [_ Ho].
    by rewrite Ho, bool_decide_eq_true_2.
  - intros x. by destruct (_ && is_open x).
Qed.

(** What a report says, once it is one the service takes. *)
Definition usable (r : f32 * option f32) : bool := is_finite r.1 && at_least_zero r.1.

Definition total_opt (l : list Q) : option Q :=
  match l with [] => None | _ => Some (total l) end.

Lemma total_opt_snoc l x : total_opt (l ++ [x]) = plus (total_opt l) x.
Proof.
  destruct l as [|y l]; [done|].
  change (total_opt ((y :: l) ++ [x])) with (Some (foldl Qplus 0%Q ((y :: l) ++ [x]))).
  by rewrite foldl_app.
Qed.

(** The three figures a list of reports amounts to. *)
Definition sensed (rs : list (f32 * option f32)) : list Q :=
  (fun r => three_places r.1) <$> List.filter (fun r => usable r && is_some r.2) rs.
Definition unsensed (rs : list (f32 * option f32)) : list Q :=
  (fun r => three_places r.1) <$> List.filter (fun r => usable r && negb (is_some r.2)) rs.
Definition working (rs : list (f32 * option f32)) : list Q :=
  omap (fun r => a ← r.2; if usable r && (is_finite a && at_least_zero a)
                          then Some (three_places a) else None) rs.

(** The row after those reports. *)
Definition accounts (rs : list (f32 * option f32)) (s : ToolUsageSession) : Prop :=
  reported_sensed_seconds s = total_opt (sensed rs) /\
  reported_unsensed_seconds s = total_opt (unsensed rs) /\
  reported_seconds s = option_or (total_opt (sensed rs)) (total_opt (unsensed rs)) /\
  reported_active_seconds s = total_opt (working rs).

Lemma record_usage_accounts tid rs r s db :
  find_first (tool_open tid) (sessions db) = Some s -> accounts rs s ->
  exists db' s', (record_usage tid r.1 r.2 (db, [])).1 = (db', []) /\
    find_first (tool_open tid) (sessions db') = Some s' /\ accounts (rs ++ [r]) s'.
Proof.
  intros Hs (H1 & H2 & H3 & H4). destruct r as [secs active]. unfold record_usage. cbn [fst snd].
  unfold accounts, sensed, unsensed, working. rewrite !List.filter_app, !omap_app, !fmap_app.
  cbn [List.filter omap list_omap fst snd].
  assert (usable (secs, active) = is_finite secs && at_least_zero secs) as Hus by done.
  rewrite Hus. destruct (is_finite secs && at_least_zero secs); cbn [negb andb].
  2: { exists db, s. split; [done|]. split; [done|].
       destruct active; cbn [omap list_omap mbind option_bind]; rewrite !app_nil_r; done. }
  unfold mbind at 1, M_bind at 1, open_tool_session_for_tool, select, call at 1. rewrite Hs.
  unfold mbind at 1, M_bind at 1, add_reported_seconds, call at 1. cbn iota beta.
  set (sn := is_some active).
  assert (find_first (tool_open tid)
    (update_open (session_id s) (report (three_places secs) sn) (sessions db)) =
    Some (report (three_places secs) sn s)) as Hf by (by apply find_update_open).
  set (db1 := with_sessions 0 _ db).
  destruct active as [a|]; cbn [is_some negb] in *; subst sn.
  - cbn [mbind option_bind]. destruct (is_finite a && at_least_zero a).
    + exists (with_sessions 0 (update_open (session_id s) (report_active (three_places a))) db1),
        (report_active (three_places a) (report (three_places secs) true s)).
      split; [done|]. split; [by apply (find_update_open tid _ (report (three_places secs) true s))|].
      cbn [andb fmap list_fmap fst]. rewrite app_nil_r, !total_opt_snoc. cbn.
      rewrite H1, H2, H4. done.
    + exists db1, (report (three_places secs) true s). split; [done|]. split; [done|].
      cbn [andb fmap list_fmap fst]. rewrite !app_nil_r, !total_opt_snoc. cbn.
      rewrite H1, H2, H4. done.
  - exists db1, (report (three_places secs) false s). split; [done|]. split; [done|].
    cbn [andb negb fmap list_fmap fst]. rewrite !app_nil_r, !total_opt_snoc. cbn.
    rewrite H1, H2, H3, H4. split; [done|]. split; [done|]. split; [|done].
    fold (sensed rs) (unsensed rs). by destruct (total_opt (sensed rs)).
Qed.

(** Device reports, one after the other. *)
Definition report_all (tid : uuid) (rs : list (f32 * option f32)) (db : Db) : Db :=
  foldl (fun db r => (record_usage tid r.1 r.2 (db, [])).1.1) db rs.

Lemma report_all_accounts tid before rs s db :
  find_first (tool_open tid) (sessions db) = Some s -> accounts before s ->
  exists s', find_first (tool_open tid) (sessions (report_all tid rs db)) = Some s' /\
    accounts (before ++ rs) s'.
Proof.
  revert before s db. induction rs as [|r rs IH]; intros before s db Hs Ha.
  - rewrite app_nil_r. by exists s.
  - destruct (record_usage_accounts tid before r s db Hs Ha) as (db' & s' & Hr & Hs' & Ha').
    change (r :: rs) with ([r] ++ rs). rewrite app_assoc. unfold report_all. cbn [app foldl].
    rewrite Hr. by apply (IH _ s').
Qed.

(** The usage a session bills never adds two measurements of one machine:
    however reports of sensing and of plain devices arrive on a session that had
    none, the figure is the total of the sensing devices if any of them spoke, and
    of the plain ones otherwise; unusable reports count for nothing. *)
Theorem usage_is_by_source tid rs s db :
  find_first (tool_open tid) (sessions db) = Some s ->
  reported_seconds s = None -> reported_active_seconds s = None ->
  reported_sensed_seconds s = None -> reported_unsensed_seconds s = None ->
  exists s', find_first (tool_open tid) (sessions (report_all tid rs db)) = Some s' /\
    reported_seconds s' = option_or (total_opt (sensed rs)) (total_opt (unsensed rs)) /\
    reported_active_seconds s' = total_opt (working rs).
Proof.
  intros Hs H1 H2 H3 H4.
  destruct (report_all_accounts tid [] rs s db Hs) as (s' & Hs' & _ & _ & Hr & Hw); [done|].
  by exists s'.
Qed.

(** ** One gate *)

Definition member_of (db : Db) (uid : uuid) : bool :=
  has_permission (rbac db) (roles_for_user db uid) "member.access".

(** The gate's answer at the rates a member has. *)
Definition gate_answer (cfg : ToolBillingConfig) (db : Db) (uid : uuid) (tool : Tool) : bool :=
  let eff := effective_billing db uid tool in
  authorizes_rate (gate cfg) (eff_flat_fee eff) (eff_rate_per_min eff)
    (eff_max_session_minutes eff) (available db uid) (member_of db uid).

Lemma required_agrees cfg (eff : EffectiveRate) :
  required_available_rate cfg eff =
  required_for_rate (gate cfg) (eff_flat_fee eff) (eff_rate_per_min eff) (eff_max_session_minutes eff).
Proof. unfold required_available_rate, required_for_rate. simpl. by destruct (billing_mode cfg). Qed.

(** The gate is one gate: the self-check, the allow-list filter and the start
    of a session decide the same.  A member may start a free tool exactly when the
    filter lists it for them, and the self-check says so too. *)
Theorem the_gates_agree cfg now uid tool db :
  find_first (tool_open (tool_id tool)) (sessions db) = None ->
  is_Some (users db !! uid) -> is_Some (tools db !! tool_id tool) ->
  (run (metered_authorized cfg uid tool) db).2 = inl (gate_answer cfg db uid tool) /\
  ((exists s, (run (open_session cfg now uid tool) db).2 = inl (Authorized s)) <->
   gate_answer cfg db uid tool = true).
Proof.
  intros Hnone [u Hu] [t Ht]. set (eff := effective_billing db uid tool).
  unfold gate_answer, authorizes_rate, metered_access_ok. fold eff. rewrite <- required_agrees.
  split.
  - unfold run, metered_authorized, mbind, M_bind, resolve_effective_billing, select, call at 1.
    fold eff. destruct (negb (is_metered _ _)); [done|]. reflexivity.
  - unfold run, open_session, mbind, M_bind, open_tool_session_for_tool, resolve_effective_billing,
      select, call at 1 2. rewrite Hnone. cbn [is_some]. fold eff.
    destruct (is_metered (eff_flat_fee eff) (eff_rate_per_min eff)); cbn [negb andb].
    2: { cbn [mret M_ret].
         change (available_balance uid (db, []))
           with ((db, @nil fault), inl (available db uid) : Q + DatabaseError).
         unfold insert_tool_session, call; cbn [ns_tool_id ns_user_id]; rewrite Hnone;
           cbn [is_some]; rewrite Hu, Ht; split; [done | eauto]. }
    unfold is_member, user_has_permission, select, call at 1. cbn beta iota.
    unfold member_of.
    change (g_require_membership (gate cfg)) with (require_membership cfg).
    destruct (require_membership cfg), (has_permission (rbac db) (roles_for_user db uid) _); cbn [mret M_ret negb orb andb];
      try (split; [by intros [s Hs] | done]).
    all: change (available_balance uid (db, [])) with ((db, @nil fault), inl (available db uid) : Q + DatabaseError).
    all: destruct (Qle_bool (required_available_rate cfg eff) (available db uid)) eqn:E;
      cbn iota beta; rewrite E; cbn [negb andb mret M_ret]; [|split; [by intros [s Hs] | done]].
    all: unfold insert_tool_session, call; cbn [ns_tool_id ns_user_id]; rewrite Hnone; cbn [is_some];
      rewrite Hu, Ht; split; [done | eauto].
Qed.

(** ** The tables stay well formed *)

(** One row per external reference, one session per identifier, one open session
    per tool -- and every identifier was generated. *)
Record wf (db : Db) : Prop := {
  wf_references : NoDup (references db);
  wf_ids : NoDup (session_id <$> sessions db);
  wf_generated : forall s, s ∈ sessions db -> exists i, (i < next_id db)%nat /\
    session_id s = gen_random_uuid i;
  wf_open : forall tid, (length (List.filter (tool_open tid) (sessions db)) <= 1)%nat;
}.

Lemma wf_money : of_money wf.
Proof.
  intros db db' Hl Hs Hn [H1 H2 H3 H4].
  constructor; unfold references in *; rewrite ?Hl, ?Hs, ?Hn; done.
Qed.

Lemma wf_add_ledger db row :
  wf db -> is_none_or (nle_external_reference (le_entry row))
    (fun r => bool_decide (r ∉ references db)) = true -> wf (add_ledger row db).
Proof.
  intros [H1 H2 H3 H4] Hr. constructor; try done.
  - rewrite (references_add db _ row) by done.
    destruct (nle_external_reference (le_entry row)) as [r|]; simpl in *; [|by rewrite app_nil_r].
    apply bool_decide_eq_true in Hr. apply NoDup_app. split; [done|]. split.
    + set_solver.
    + apply NoDup_singleton.
  - simpl. intros s Hs. destruct (H3 s Hs) as (i & Hi & ->). exists i. split; [lia | done].
Qed.

(** Updates of rows that neither open a session nor rename one. *)
Lemma wf_update db sid f :
  (forall s, session_id (f s) = session_id s /\ opened (f s) = opened s) ->
  (forall s, is_open (f s) = true -> is_open s = true) ->
  wf db -> wf (with_sessions 0 (update_open sid f) db).
Proof.
  intros Hf Ho [H1 H2 H3 H4].
  assert (forall s, session_id (if (session_id s ≟ sid) && is_open s then f s else s) = session_id s)
    as Hid by (intros s; case_match; [apply Hf | done]).
  constructor; simpl; try done.
  - unfold update_open. rewrite <- list_fmap_compose.
    rewrite (list_fmap_ext _ session_id); [done|]. intros i s _. apply Hid.
  - intros s (x & -> & Hx)%list_elem_of_fmap. rewrite Hid. by apply H3.
  - intros tid. etrans; [|apply (H4 tid)]. unfold update_open. generalize (sessions db).
    intros l. induction l as [|x l IH]; [simpl; lia|]. cbn [fmap list_fmap List.filter].
    assert (tool_open tid (if (session_id x ≟ sid) && is_open x then f x else x) = true ->
      tool_open tid x = true) as Hx.
    { case_match; [|done]. unfold tool_open. rewrite (proj2 (Hf x)).
      intros [-> Hx]%andb_true_iff. by rewrite (Ho _ Hx). }
    destruct (tool_open tid (if (session_id x ≟ sid) && is_open x then f x else x));
      [rewrite Hx by done; simpl; lia|].
    destruct (tool_open tid x); simpl; lia.
Qed.

Lemma wf_insert_session db row :
  wf db -> is_open row = true -> session_id row = gen_random_uuid (next_id db) ->
  find_first (tool_open (ns_tool_id (opened row))) (sessions db) = None ->
  wf (with_sessions 1 (fun l => l ++ [row]) db).
Proof.
  intros [H1 H2 H3 H4] Hopen Hid Hnone. constructor; simpl; try done.
  - rewrite fmap_app. apply NoDup_app. split; [done|]. split; [|apply NoDup_singleton].
    intros x (s & -> & Hs)%list_elem_of_fmap Heq%list_elem_of_singleton.
    destruct (H3 s Hs) as (i & Hi & Hsi). rewrite Hsi, Hid in Heq.
    apply gen_random_uuid_inj in Heq. lia.
  - intros s [Hs | ->%list_elem_of_singleton]%elem_of_app.
    + destruct (H3 s Hs) as (i & Hi & ->). exists i. split; [lia | done].
    + exists (next_id db). split; [lia | done].
  - intros tid. rewrite List.filter_app, length_app. cbn [List.filter].
    unfold tool_open at 2. case_bool_decide as E; simpl; [|specialize (H4 tid); lia].
    rewrite Hopen. rewrite E in Hnone. rewrite find_first_None in Hnone.
    assert (List.filter (tool_open tid) (sessions db) = []) as ->; [|simpl; lia].
    clear -Hnone. induction (sessions db) as [|x l IH]; simpl; [done|].
    rewrite (Hnone x) by left. apply IH. intros; apply Hnone. by right.
Qed.

Lemma wf_inv cfg : service_inv cfg wf.
Proof.
  apply money_inv; [apply wf_money|]. intros db row Hwf _ Hr _.
  apply wf_add_ledger; [done | by rewrite Hr].
Qed.

Lemma wf_credit amount reference : credit_ok amount reference wf.
Proof. intros db row Hwf _ Hr Hnew. apply wf_add_ledger; [done | by rewrite Hr]. Qed.

(** ** Histories *)

Section history.
Context {C : Calendar} (mcfg : MembershipConfig) (cfg : ToolBillingConfig).

(** One operation on the money, with the arguments it is called with. *)
Inductive op : Type :=
  | Credit (now : instant) (uid : uuid) (type : LedgerEntryType) (amount : Q)
      (reference description : option string) (actor : option uuid)
  | InvoicePaid (now : instant) (obj : json)
  | Refunded (now : instant) (obj : json)
  | Cycle (now : instant) (stripe : option StripeClient)
  | Start (now : instant) (uid : uuid) (tool : Tool)
  | Usage (tid : uuid) (secs : f32) (active_secs : option f32)
  | Stop (now : instant) (tool : Tool)
  | Sweep (now : instant).

Definition run_op (o : op) : M unit :=
  match o with
  | Credit now uid type amount reference description actor =>
      _ ← record_credit mcfg now uid type amount reference description actor; mret tt
  | InvoicePaid now obj => _ ← handle_invoice_paid mcfg now obj; mret tt
  | Refunded now obj => _ ← handle_charge_refunded mcfg now obj; mret tt
  | Cycle now stripe => _ ← run_cycle mcfg now stripe; mret tt
  | Start now uid tool => _ ← open_session cfg now uid tool; mret tt
  | Usage tid secs active_secs => _ ← record_usage tid secs active_secs; mret tt
  | Stop now tool => _ ← settle_open_session_for_tool cfg now tool "settled"; mret tt
  | Sweep now => _ ← sweep_abandoned cfg now; mret tt
  end.

(** Operations in any order, each under faults of its own. *)
Definition history (l : list (op * list fault)) (db : Db) : Db :=
  foldl (fun db turn => (run_op turn.1 (db, turn.2)).1.1) db l.

Lemma wf_empty_money db : ledger db = [] -> sessions db = [] -> wf db.
Proof.
  intros Hl Hs. constructor; unfold references; rewrite ?Hl, ?Hs; simpl; try apply NoDup_nil_2.
  - intros s H. inversion H.
  - lia.
Qed.

(** ** Exactly once *)

(** A session that is over was charged for. *)
Definition billed (db : Db) : Prop :=
  forall s, s ∈ sessions db -> is_open s = false -> uuid_show (session_id s) ∈ references db.

Definition accounted (db : Db) : Prop := wf db /\ billed db.

Lemma accounted_money : of_money accounted.
Proof.
  intros db db' Hl Hs Hn [Hwf Hb]. split; [exact (wf_money db db' Hl Hs Hn Hwf)|].
  intros s. unfold references. rewrite Hl, Hs. apply Hb.
Qed.

Lemma references_grow db row r : r ∈ references db -> r ∈ references (add_ledger row db).
Proof. rewrite (references_add db (add_ledger row db) row eq_refl). set_solver. Qed.

Lemma accounted_add db row :
  accounted db -> is_none_or (nle_external_reference (le_entry row))
    (fun r => bool_decide (r ∉ references db)) = true -> accounted (add_ledger row db).
Proof.
  intros [Hwf Hb] Hr. split; [by apply wf_add_ledger|]. intros s Hs Ho. by apply references_grow, Hb.
Qed.

Lemma accounted_inv : service_inv mcfg accounted.
Proof.
  apply money_inv; [apply accounted_money|]. intros db row Ha _ Hr _.
  apply accounted_add; [done | by rewrite Hr].
Qed.

Lemma accounted_credit amount reference : credit_ok amount reference accounted.
Proof. intros db row Ha _ Hr Hnew. apply accounted_add; [done | by rewrite Hr]. Qed.

(** A post that went through, or met its own row, left the row there. *)
Lemma triple_post (I P : Db -> Prop) entry r :
  nle_external_reference entry = Some r ->
  (forall db row, I db -> P db -> le_entry row = entry -> r ∉ references db ->
    I (add_ledger row db) /\ P (add_ledger row db)) ->
  triple I P (attempt (insert_ledger_entry entry)) (fun x db =>
    P db /\ match x with inl _ | inr UniqueViolation => r ∈ references db | inr _ => True end).
Proof.
  intros Hr H db fs Hi Hp. unfold attempt, insert_ledger_entry, call. rewrite Hr. cbn [is_some_and].
  assert (r ∉ references db -> let row := {| le_id := gen_random_uuid (next_id db); le_entry := entry |} in
    I (add_ledger row db) /\ P (add_ledger row db) /\ r ∈ references (add_ledger row db)) as Hnew.
  { intros Hn row. destruct (H db row Hi Hp eq_refl Hn). split_and!; try done.
    rewrite (references_add db (add_ledger row db) row eq_refl). cbn [le_entry row]. rewrite Hr. set_solver. }
  destruct fs as [|[] fs]; destruct (users db !! nle_user_id entry); simpl; try done;
    case_bool_decide as E; simpl; try done; destruct (Hnew E) as (H1 & H2 & H3); done.
Qed.

Lemma is_open_update sid f x :
  is_open (if (session_id x ≟ sid) && is_open x then f x else x) =
  if (session_id x ≟ sid) && is_open x then is_open (f x) else is_open x.
Proof. by destruct (_ && _). Qed.

(** The one open session of a tool. *)
Lemma sole_open db tid s x :
  wf db -> find_first (tool_open tid) (sessions db) = Some s -> x ∈ sessions db -> tool_open tid x = true -> x = s.
Proof.
  intros Hwf [Hs Ho]%find_first_Some Hx Hxo. pose proof (wf_open _ Hwf tid) as Hone.
  assert (s ∈ List.filter (tool_open tid) (sessions db)) as Hs' by by apply elem_of_lfilter.
  assert (x ∈ List.filter (tool_open tid) (sessions db)) as Hx' by by apply elem_of_lfilter.
  destruct (List.filter (tool_open tid) (sessions db)) as [|y [|z l]]; simpl in Hone; [|..|lia].
  - by apply not_elem_of_nil in Hs'.
  - apply list_elem_of_singleton in Hs', Hx'. congruence.
Qed.

Lemma accounted_close now s tid reported charged entry st :
  st <> "open"%string ->
  triple accounted (fun db => find_first (tool_open tid) (sessions db) = Some s /\
      uuid_show (session_id s) ∈ references db)
    (settle_tool_session now (session_id s) reported charged entry st)
    (fun _ db => find_first (tool_open tid) (sessions db) = None).
Proof.
  intros Hst. apply triple_call. intros db [Hwf Hb] [Hs Hr].
  assert (forall x, is_open (close now reported charged entry st x) = false) as Hcl
    by (intros x; by apply bool_decide_eq_false_2).
  split; [split|].
  - apply wf_update; [done | |done]. intros x. by rewrite Hcl.
  - intros y (x & -> & Hx)%list_elem_of_fmap Ho. rewrite is_open_update, Hcl in Ho.
    destruct ((session_id x ≟ session_id s) && is_open x) eqn:E; [|by apply Hb].
    apply andb_true_iff in E as [E _]. apply bool_decide_eq_true in E. simpl. by rewrite E.
  - apply find_first_None. simpl. intros y (x & -> & Hx)%list_elem_of_fmap.
    destruct ((session_id x ≟ session_id s) && is_open x) eqn:E.
    + unfold tool_open. rewrite Hcl. apply andb_false_r.
    + destruct (tool_open tid x) eqn:Ex; [|done]. pose proof (sole_open db tid s x Hwf Hs Hx Ex) as ->.
      unfold tool_open in Ex. apply andb_true_iff in Ex as [_ Ex].
      by rewrite Ex, bool_decide_eq_true_2 in E.
Qed.

(** A stop that is answered leaves the tool without a session. *)
Lemma accounted_settle now tool st :
  st <> "open"%string ->
  triple accounted (fun _ => True) (settle_open_session_for_tool cfg now tool st)
    (fun _ db => find_first (tool_open (tool_id tool)) (sessions db) = None).
Proof.
  intros Hst. unfold settle_open_session_for_tool.
  eapply triple_bind; [by apply (triple_select _ _ _ (fun o db => o = find_first (tool_open (tool_id tool)) (sessions db)))|].
  intros [s|]; [|apply triple_ret; by intros db _ <-].
  eapply triple_bind with (R := fun seen db => find_first (tool_open (tool_id tool)) (sessions db) = Some s /\
    (seen = true -> uuid_show (session_id s) ∈ references db)).
  { intros db fs Hi Hs. rewrite exists_reference. destruct fs as [|[] fs]; (split; [done|]); try done;
      (split; [done|]); apply bool_decide_eq_true. }
  intros seen. eapply triple_bind with (R := fun _ db => find_first (tool_open (tool_id tool)) (sessions db) = Some s /\
    uuid_show (session_id s) ∈ references db).
  { destruct seen; [apply triple_ret; naive_solver|].
    eapply triple_bind; [apply triple_post; [reflexivity|]|].
    - intros db row Ha [Hs _] Hrow Hr. split; [|done]. apply accounted_add; [done|].
      rewrite Hrow. simpl. by apply bool_decide_eq_true.
    - intros [row|[]]; first [apply triple_ret; naive_solver | apply triple_throw]. }
  intros posted. eapply triple_bind; [by apply accounted_close|]. intros closed.
  case_match; [|by apply triple_ret].
  eapply triple_bind with (R := fun _ db => find_first (tool_open (tool_id tool)) (sessions db) = None);
    [|intros ?; by apply triple_ret].
  apply triple_kept; apply keeps_audit; [|apply accounted_money]. by intros db db' _ ->.
Qed.

Lemma keeps_triple {A} (I : Db -> Prop) (m : M A) (Q : A -> Db -> Prop) :
  triple I (fun _ => True) m Q -> keeps I m.
Proof. intros H. by eapply triple_weaken. Qed.

Lemma accounted_update (sid : uuid) (f : ToolUsageSession -> ToolUsageSession) :
  (forall s, session_id (f s) = session_id s /\ opened (f s) = opened s /\ is_open (f s) = is_open s) ->
  keeps accounted (call (fun db => (with_sessions 0 (update_open sid f) db, inl tt))).
Proof.
  intros Hf. apply keeps_call. intros db [Hwf Hb]. split.
  - apply wf_update; [intros s; split; apply Hf | intros s; by rewrite (proj2 (proj2 (Hf s))) | done].
  - intros y (x & -> & Hx)%list_elem_of_fmap. destruct (_ && _) eqn:E; [|by apply Hb].
    destruct (Hf x) as (-> & _ & ->). by apply Hb.
Qed.

Lemma accounted_usage tid secs active_secs : keeps accounted (record_usage tid secs active_secs).
Proof.
  unfold record_usage. destruct (negb _); [apply keeps_ret|].
  apply keeps_bind; [auto with css|]. intros [s|]; [|apply keeps_ret].
  apply keeps_bind; [by apply accounted_update|]. intros _.
  apply keeps_bind; [|intros _; apply keeps_ret].
  destruct active_secs as [a|]; [|apply keeps_ret]. case_match; [|apply keeps_ret].
  by apply accounted_update.
Qed.

Lemma accounted_sweep now : keeps accounted (sweep_abandoned cfg now).
Proof.
  unfold sweep_abandoned. destruct (negb _); [apply keeps_ret|].
  apply keeps_bind; [auto with css|]. intros candidates. generalize 0%nat.
  induction candidates as [|s candidates IH]; intros n; simpl; [apply keeps_ret|].
  apply keeps_bind; [auto with css|]. intros [tool|]; [|apply IH].
  destruct (_ <=? _); [apply IH|].
  apply keeps_bind; [by eapply keeps_attempt, keeps_triple, accounted_settle | intros r; apply IH].
Qed.

Lemma accounted_open_session now uid tool : keeps accounted (open_session cfg now uid tool).
Proof.
  apply triple_open_session. intros db row [Hwf Hb] _ Hopen Hid Hnone _. split; [by apply wf_insert_session|].
  intros s [Hs| ->%list_elem_of_singleton]%elem_of_app Ho; [by apply Hb | congruence].
Qed.

Lemma accounted_run_op o : keeps accounted (run_op o).
Proof.
  pose proof accounted_inv as Hinv.
  destruct o; (apply keeps_bind; [|intros; apply keeps_ret]).
  - apply keeps_record_credit; [done | apply accounted_credit].
  - unfold handle_invoice_paid. destruct (str_field obj "customer"); [|apply keeps_ret].
    apply keeps_bind; [auto with css|]. intros [u|]; [|apply keeps_ret].
    apply keeps_bind; [|intros; apply keeps_ret].
    apply keeps_record_credit; [done | apply accounted_credit].
  - unfold handle_charge_refunded. destruct (str_field obj "customer"); [|apply keeps_ret].
    apply keeps_bind; [auto with css|]. intros [u|]; [|apply keeps_ret].
    case_match; [apply keeps_ret|]. apply keeps_bind; [|intros; apply keeps_ret].
    apply keeps_record_credit; [done | apply accounted_credit].
  - apply keeps_run_cycle; [done|]. intros ? ? ? ? _ _ _. apply accounted_credit.
  - apply accounted_open_session.
  - apply accounted_usage.
  - by eapply keeps_triple, accounted_settle.
  - apply accounted_sweep.
Qed.

Lemma accounted_requests l db : accounted db -> accounted (history l db).
Proof.
  revert db. induction l as [|[o fs] l IH]; intros db Ha; [done|]. apply IH.
  pose proof (accounted_run_op o db fs Ha Logic.I) as H. simpl.
  destruct (run_op o (db, fs)) as [[db' fs'] r]. apply H.
Qed.

(** The rows of a reference. *)
Definition rows_of (reference : string) (db : Db) : list LedgerEntry :=
  List.filter (fun e => nle_external_reference (le_entry e) ≟ Some reference) (ledger db).

Lemma rows_of_one reference db :
  wf db -> length (rows_of reference db) = if bool_decide (reference ∈ references db) then 1%nat else 0%nat.
Proof.
  intros [Hr _ _ _]. unfold rows_of, references in *. induction (ledger db) as [|e rows IH].
  { rewrite bool_decide_eq_false_2; [done|]. apply not_elem_of_nil. }
  cbn [List.filter omap list_omap] in *.
  destruct (nle_external_reference (le_entry e)) as [r|].
  - apply NoDup_cons in Hr as [Hnew Hr]. specialize (IH Hr). destruct (decide (r = reference)) as [->|E].
    + rewrite (bool_decide_eq_true_2 (Some reference = Some reference)) by done.
      rewrite (bool_decide_eq_true_2 (reference ∈ reference :: _)) by left.
      rewrite bool_decide_eq_false_2 in IH by done. cbn [length]. by rewrite IH.
    + rewrite (bool_decide_eq_false_2 (Some r = Some reference)) by congruence.
      rewrite IH. apply (f_equal (fun b : bool => if b then 1%nat else 0%nat)), bool_decide_ext.
      rewrite elem_of_cons. naive_solver.
  - rewrite bool_decide_eq_false_2 by done. by apply IH.
Qed.

(** What a credit leaves: its row, if it is answered. *)
Lemma credit_posts now uid type amount r description actor :
  triple wf (fun _ => True) (record_credit mcfg now uid type amount (Some r) description actor)
    (fun _ db => r ∈ references db).
Proof.
  unfold record_credit. eapply triple_bind with (R := fun seen db => seen = true -> r ∈ references db).
  { intros db fs Hi _. rewrite exists_reference. destruct fs as [|[] fs]; (split; [done|]); try done;
      apply bool_decide_eq_true. }
  intros [|]; [apply triple_ret; naive_solver|].
  eapply triple_bind.
  - eapply (triple_weaken wf _ (fun _ => True)); [apply (triple_post wf (fun _ => True)); [reflexivity|] | done | done].
    intros db row Hwf _ Hrow Hr. split; [|done]. apply wf_add_ledger; [done|]. rewrite Hrow. simpl.
    by apply bool_decide_eq_true.
  - assert (service_inv mcfg (fun db => r ∈ references db)) as Hinv.
    { apply money_inv; [intros db db' Hl _ _; unfold references; by rewrite Hl|].
      intros db row Hin _ _ _. by apply references_grow. }
    intros [row|[]]; try apply triple_throw; [|apply triple_ret; naive_solver].
    eapply triple_bind with (R := fun _ db => r ∈ references db); [|intros _; by apply triple_ret].
    eapply triple_weaken; [apply triple_kept; apply keeps_settle_after_credit; [exact Hinv | apply wf_inv]| |];
      naive_solver.
Qed.

(** A stop that finds its charge posted posts nothing. *)
Lemma settle_again now tool st s db :
  find_first (tool_open (tool_id tool)) (sessions db) = Some s -> uuid_show (session_id s) ∈ references db ->
  let '(db', r) := run (settle_open_session_for_tool cfg now tool st) db in
  r = inl None /\ ledger db' = ledger db.
Proof.
  intros Hs Hr. unfold run, settle_open_session_for_tool.
  unfold mbind at 1, M_bind at 1, open_tool_session_for_tool, select, call at 1. rewrite Hs.
  unfold mbind, M_bind. rewrite exists_reference, bool_decide_eq_true_2 by done.
  cbn [mret M_ret fmap option_fmap option_map]. unfold settle_tool_session, call at 1.
  cbn [is_some]. rewrite andb_false_r. done.
Qed.

(** The tables after any history: what was charged or credited was so once, and what is
    asked again is answered without doing it again. *)
Record exactly_once (db : Db) : Prop := {
  once_row : forall reference, (length (rows_of reference db) <= 1)%nat;
  once_open : forall tid, (length (List.filter (tool_open tid) (sessions db)) <= 1)%nat;
  (** a session that is over has its charge *)
  once_closed : forall s, s ∈ sessions db -> is_open s = false ->
    length (rows_of (uuid_show (session_id s)) db) = 1%nat;
  (** a credit answered has its row; one that had it changes nothing, and is answered *)
  once_credited : forall now uid type amount r description actor fs,
    let '((db', _), res) := record_credit mcfg now uid type amount (Some r) description actor (db, fs) in
    (forall posted, res = inl posted -> length (rows_of r db') = 1%nat) /\
    (length (rows_of r db) = 1%nat -> db' = db /\ (fs = [] -> res = inl false));
  (** a start at a tool in use is refused *)
  once_started : forall now uid tool s, s ∈ sessions db -> tool_open (tool_id tool) s = true ->
    run (open_session cfg now uid tool) db = (db, inl (Denied AlreadyOpen));
  (** a stop answered has closed the session *)
  once_stopped : forall now tool st fs charge, st <> "open"%string ->
    (settle_open_session_for_tool cfg now tool st (db, fs)).2 = inl charge ->
    List.filter (tool_open (tool_id tool)) (sessions (settle_open_session_for_tool cfg now tool st (db, fs)).1.1) = [];
  (** and one whose charge is there already charges nothing more *)
  once_charged : forall now tool st s, s ∈ sessions db -> tool_open (tool_id tool) s = true ->
    length (rows_of (uuid_show (session_id s)) db) = 1%nat ->
    let '(db', r) := run (settle_open_session_for_tool cfg now tool st) db in
    r = inl None /\ ledger db' = ledger db;
}.

Lemma found_open db tool s :
  wf db -> s ∈ sessions db -> tool_open (tool_id tool) s = true ->
  find_first (tool_open (tool_id tool)) (sessions db) = Some s.
Proof.
  intros Hwf Hs Ho. destruct (find_first_is_Some _ _ _ Hs Ho) as [x Hx]. rewrite Hx. f_equal. symmetry.
  by apply (sole_open db (tool_id tool) x s).
Qed.

Lemma accounted_once db : accounted db -> exactly_once db.
Proof.
  intros [Hwf Hb]. pose proof (fun r => rows_of_one r db Hwf) as Hone.
  assert (forall r, length (rows_of r db) = 1%nat -> r ∈ references db) as Hin.
  { intros r. rewrite Hone. by case_bool_decide. }
  constructor.
  - intros r. rewrite Hone. case_bool_decide; lia.
  - apply Hwf.
  - intros s Hs Ho. rewrite Hone, bool_decide_eq_true_2; [done | by apply Hb].
  - intros now uid type amount r description actor fs.
    pose proof (credit_posts now uid type amount r description actor db fs Hwf Logic.I) as Hpost.
    pose proof (fun Hr => redelivery_lemma mcfg now uid type amount r description actor db fs Hr) as Hre.
    destruct (record_credit _ _ _ _ _ _ _ _ _) as [[db' fs'] res] eqn:E. destruct Hpost as [Hwf' Hpost]. split.
    + intros posted ->. by rewrite (rows_of_one r db' Hwf'), bool_decide_eq_true_2.
    + intros Hr%Hin. destruct (Hre Hr) as [H1 H2]. simpl in H1, H2. subst db'. split; [done|]. intros ->.
      unfold record_credit, mbind, M_bind in E. rewrite exists_reference, bool_decide_eq_true_2 in E by done.
      simpl in E. by injection E as _ <-.
  - intros now uid tool s Hs Ho. unfold run, open_session, mbind, M_bind, open_tool_session_for_tool, select, call at 1.
    by rewrite (found_open db tool s).
  - intros now tool st fs charge Hst Hres.
    pose proof (accounted_settle now tool st Hst db fs (conj Hwf Hb) Logic.I) as H.
    destruct (settle_open_session_for_tool _ _ _ _ _) as [[db' fs'] res]. simpl in Hres. subst res.
    destruct H as [_ H]. rewrite find_first_None in H. simpl.
    induction (sessions db') as [|x l IH]; [done|]. simpl. rewrite (H x) by left. apply IH.
    intros y Hy. apply H. by right.
  - intros now tool st s Hs Ho Hr%Hin. apply (settle_again now tool st s); [by apply found_open | done].
Qed.

Lemma accounted_empty db : ledger db = [] -> sessions db = [] -> accounted db.
Proof.
  intros Hl Hs. split; [by apply wf_empty_money|]. intros s. rewrite Hs. by intros ?%not_elem_of_nil.
Qed.

(** C10. What is charged or credited is so exactly once.  After any history of
    payments, refunds, renewal cycles, starts, usage reports, stops and sweeps, with any
    calls failing or losing their reply: no reference has two rows and no tool two open
    sessions; every session that is over has exactly one charge; whatever comes next, a
    credit that is answered has exactly one row, and delivered again changes nothing and is
    still answered, even for a member who is gone; a start at a tool in use is refused as
    such; a stop that is answered has closed the session, and one that was charged before
    without being answered closes it without another charge. *)
Theorem charged_exactly_once l db :
  ledger db = [] -> sessions db = [] -> exactly_once (history l db).
Proof. intros Hl Hs. by apply accounted_once, accounted_requests, accounted_empty. Qed.

End history.

(** ** Settling, without faults *)

Lemma close_holds db s now reported charged entry st uid :
  NoDup (session_id <$> sessions db) -> s ∈ sessions db -> is_open s = true ->
  st <> "open"%string ->
  (open_holds (with_sessions 0 (update_open (session_id s)
     (close now reported charged entry st)) db) uid ==
   open_holds db uid - (if ns_user_id (opened s) ≟ uid then hold_amount (opened s) else 0))%Q.
Proof.
  unfold open_holds, holds. simpl. intros Hnd Hin Hopen Hst.
  set (f := close now reported charged entry st).
  assert (forall x, is_open (f x) = false) as Hf by (intros; by apply bool_decide_eq_false_2).
  induction (sessions db) as [|x l IH]; [inversion Hin|].
  rewrite fmap_cons in Hnd. apply NoDup_cons in Hnd as [Hx Hnd].
  unfold update_open in *. rewrite fmap_cons. cbn [List.filter].
  destruct (decide (session_id x = session_id s)) as [E|E].
  - assert (x = s) as ->.
    { apply elem_of_cons in Hin as [->|Hin]; [done|]. exfalso. apply Hx. rewrite E.
      by apply list_elem_of_fmap_2. }
    rewrite (bool_decide_eq_true_2 (session_id s = session_id s)), Hopen by done. cbn [andb]. rewrite Hf, andb_false_r, andb_true_r.
    assert ((fun y => if (session_id y ≟ session_id s) && is_open y then f y else y) <$> l = l) as Hl.
    { rewrite <- (list_fmap_id l) at 2. apply list_fmap_ext. intros i y Hy.
      rewrite bool_decide_eq_false_2; [done|]. intros Ey. apply Hx. rewrite <- Ey.
      apply list_elem_of_fmap_2. by eapply list_elem_of_lookup_2. }
    rewrite Hl. case_bool_decide; [rewrite fmap_cons, total_cons|]; lra.
  - assert (s ∈ l) as Hs by (apply elem_of_cons in Hin as [->|]; done).
    rewrite (bool_decide_eq_false_2 _ E). cbn [andb]. specialize (IH Hnd Hs).
    destruct ((ns_user_id (opened x) ≟ uid) && is_open x); [|done].
    rewrite !fmap_cons, !total_cons, IH. lra.
Qed.

Definition usage_row cfg now tool s db : LedgerEntry := {|
  le_id := gen_random_uuid (next_id db); le_entry := {| nle_user_id := ns_user_id (opened s);
    nle_entry_type := ToolUsage; nle_amount := (- charge_of cfg now tool s)%Q;
    nle_currency := tb_currency cfg; nle_occurred_at := now;
    nle_description := Some ("Tool usage: " +:+ tool_name tool);
    nle_external_reference := Some (uuid_show (session_id s)); nle_created_by := None |} |}.

Lemma settle_run cfg now tool s st db :
  find_first (tool_open (tool_id tool)) (sessions db) = Some s ->
  is_Some (users db !! ns_user_id (opened s)) -> uuid_show (session_id s) ∉ references db ->
  let '(db', r) := run (settle_open_session_for_tool cfg now tool st) db in
  r = inl (Some (charge_of cfg now tool s)) /\
  ledger db' = ledger db ++ [usage_row cfg now tool s db] /\
  sessions db' = update_open (session_id s)
    (close now (reported_seconds s) (charge_of cfg now tool s)
       (Some (gen_random_uuid (next_id db))) st) (sessions db).
Proof.
  intros Hs Hu Hr. unfold run, settle_open_session_for_tool.
  unfold mbind at 1, M_bind at 1, open_tool_session_for_tool, select, call at 1. rewrite Hs.
  unfold mbind, M_bind. rewrite exists_reference, bool_decide_eq_false_2 by done.
  unfold attempt. rewrite insert_run; [|done | simpl; by apply bool_decide_eq_true_2].
  cbn [mret M_ret]. unfold settle_tool_session, call at 1. cbn [sessions add_ledger].
  assert (existsb (fun x => (session_id x ≟ session_id s) && is_open x) (sessions db) = true) as ->.
  { apply existsb_elem. exists s. apply find_first_Some in Hs as [Hin Ho]. split; [done|].
    apply andb_true_iff in Ho as [_ ->]. by rewrite bool_decide_eq_true_2. }
  done.
Qed.

(** Holds computed for at least the cap the session is settled at. *)
Definition hold_covers (cfg : ToolBillingConfig) (tool : Tool) (s : ToolUsageSession) (cap : Z) : Prop :=
  let '(flat, rate) := charge_rates tool s in
  (hold_amount (opened s) == max_session_cost flat rate cap)%Q /\
  0 <= max_minutes cfg tool <= cap /\ (0 <= default 0 rate)%Q /\
  fits (default 0 rate * inject_Z (max_minutes cfg tool))%Q.

Lemma charge_within_hold cfg now tool s cap :
  hold_covers cfg tool s cap -> (charge_of cfg now tool s <= hold_amount (opened s))%Q.
Proof.
  unfold hold_covers, charge_of. destruct (charge_rates tool s) as [flat rate].
  intros (-> & [H0 Hcap] & Hr & Hf). eapply Qle_trans; [by apply charge_within|].
  apply round_mono, Qplus_le_r. rewrite !(Qmult_comm (default 0 rate)%Q).
  apply Qmult_le_compat_r; [by rewrite <- Zle_Qle | done].
Qed.

(** Stopping a tool only ever frees money: a session whose hold was computed
    for the cap it is settled at, or a longer one, is charged once, by a debit of
    exactly its charge; its hold is released; and nobody's available balance goes
    down. *)
Theorem settle_frees_the_hold cfg now tool s st cap db :
  wf db -> find_first (tool_open (tool_id tool)) (sessions db) = Some s ->
  is_Some (users db !! ns_user_id (opened s)) -> uuid_show (session_id s) ∉ references db ->
  st <> "open"%string -> hold_covers cfg tool s cap ->
  let '(db', r) := run (settle_open_session_for_tool cfg now tool st) db in
  r = inl (Some (charge_of cfg now tool s)) /\
  (balance db' (ns_user_id (opened s)) ==
     balance db (ns_user_id (opened s)) - charge_of cfg now tool s)%Q /\
  (open_holds db' (ns_user_id (opened s)) ==
     open_holds db (ns_user_id (opened s)) - hold_amount (opened s))%Q /\
  forall v, (available db v <= available db' v)%Q.
Proof.
  intros Hwf Hs Hu Hr Hst Hc. pose proof (settle_run cfg now tool s st db Hs Hu Hr) as Hrun.
  destruct (run _ db) as [db' r]. destruct Hrun as (Hres & Hl & Hse).
  assert (forall v, open_holds db' v == open_holds db v -
    (if ns_user_id (opened s) ≟ v then hold_amount (opened s) else 0))%Q as Hh.
  { intros v. apply find_first_Some in Hs as [Hin Ho]. apply andb_true_iff in Ho as [_ Ho].
    rewrite <- (close_holds db s now (reported_seconds s) (charge_of cfg now tool s)
      (Some (gen_random_uuid (next_id db))) st v (wf_ids _ Hwf) Hin Ho Hst).
    unfold open_holds, holds. by rewrite Hse. }
  assert (forall v, balance db' v == balance db v +
    (if ns_user_id (opened s) ≟ v then - charge_of cfg now tool s else 0))%Q as Hb.
  { intros v. by rewrite (balance_add db db' v _ Hl). }
  split; [done|]. split; [rewrite Hb, bool_decide_eq_true_2 by done; lra|].
  split; [rewrite Hh, bool_decide_eq_true_2 by done; lra|].
  intros v. unfold available. rewrite Hh, Hb.
  pose proof (charge_within_hold cfg now tool s cap Hc). case_bool_decide; lra.
Qed.

(** What a session that opens is opened as. *)
Lemma opened_as cfg now uid tool db :
  triple (fun _ => True) (fun d => d = db) (open_session cfg now uid tool) (fun r _ =>
    forall s, r = Authorized s ->
    let eff := effective_billing db uid tool in
    opened s = {| ns_tool_id := tool_id tool; ns_user_id := uid; started_at := now;
      hold_amount := match billing_mode cfg with
                     | Prepaid => if is_metered (eff_flat_fee eff) (eff_rate_per_min eff)
                                  then required_available_rate cfg eff else 0%Q
                     | Postpaid => 0%Q
                     end;
      rate_flat_fee := eff_flat_fee eff; rate_per_min_locked := eff_rate_per_min eff;
      session_tier_id := eff_tier_id eff |}).
Proof.
  unfold open_session. eapply triple_bind; [apply triple_select_keep|]. intros existing.
  destruct (is_some existing); [by apply triple_ret|].
  eapply triple_bind; [apply triple_select_keep|]. intros eff.
  eapply triple_bind with (R := fun _ _ => eff = effective_billing db uid tool).
  { destruct (_ && _).
    - eapply triple_bind; [apply triple_select_keep|]. intros m. apply triple_ret.
      by intros d _ (((-> & _) & ->) & _).
    - apply triple_ret. by intros d _ ((-> & _) & ->). }
  intros outsider. destruct outsider; [by apply triple_ret|].
  eapply triple_bind with (R := fun _ _ => eff = effective_billing db uid tool).
  { eapply triple_bind; [apply triple_select_keep|]. intros b.
    eapply triple_bind; [apply triple_select_keep|]. intros h. apply triple_ret.
    by intros d _ ((-> & _) & _). }
  intros a. destruct (_ && negb _); [by apply triple_ret|].
  eapply triple_bind with (R := fun row _ => eff = effective_billing db uid tool /\
    opened row = {| ns_tool_id := tool_id tool; ns_user_id := uid; started_at := now;
      hold_amount := match billing_mode cfg with
                     | Prepaid => if is_metered (eff_flat_fee eff) (eff_rate_per_min eff)
                                  then required_available_rate cfg eff else 0%Q
                     | Postpaid => 0%Q
                     end;
      rate_flat_fee := eff_flat_fee eff; rate_per_min_locked := eff_rate_per_min eff;
      session_tier_id := eff_tier_id eff |}).
  - apply triple_insert_session. intros d row _ Heff Hrow _ _ _. done.
  - intros s. apply triple_ret. by intros d _ [-> Hs] s' [= <-].
Qed.

(** A start from a known state: nothing, or one more session that the member can pay
    for. *)
Lemma opens_from cfg now uid tool db :
  triple (fun _ => True) (fun d => d = db) (open_session cfg now uid tool) (fun r d =>
    match r with
    | Authorized s => tools d = tools db /\ s ∈ sessions d /\ tool_open (tool_id tool) s = true /\
        ns_user_id (opened s) = uid /\
        (hold_amount (opened s) <= 0 \/ hold_amount (opened s) <= available db uid)%Q
    | Denied _ => d = db
    end).
Proof.
  unfold open_session. eapply triple_bind; [apply triple_select_at|]. intros existing.
  destruct (is_some existing); [apply triple_ret; by intros ? _ [-> _]|].
  apply triple_pure. intros _. eapply triple_bind; [apply triple_select_at|]. intros eff.
  apply triple_pure. intros _. eapply triple_bind with (R := fun _ d => d = db).
  { destruct (_ && _); [|by apply triple_ret].
    eapply triple_bind; [apply triple_select_at|]. intros m. apply triple_ret. by intros ? _ [-> _]. }
  intros outsider. destruct outsider; [by apply triple_ret|].
  eapply triple_bind with (R := fun a d => d = db /\ a = available db uid).
  { eapply triple_weaken;
      [apply triple_and; [apply (triple_kept _ (fun d => d = db)) |
         apply (triple_available_balance _ (fun _ => True))]| |].
    1-2: unfold available_balance, user_balance, sum_open_tool_holds; run_keeps.
    - by intros d _ ->.
    - by intros a d _ [-> ->]. }
  intros a. apply triple_pure. intros ->.
  destruct (_ && negb _) eqn:E; [by apply triple_ret|].
  eapply triple_bind; [|intros s; apply triple_ret; intros d _ Hd; exact Hd].
  apply triple_insert_session. intros d row _ -> Hrow Hopen _ _. split; [done|]. simpl.
  split; [done|]. split; [apply elem_of_app; right; by left|].
  unfold tool_open. rewrite Hopen, Hrow. simpl. split; [by rewrite bool_decide_eq_true_2|].
  split; [done|]. destruct (billing_mode cfg); [|left; lra].
  destruct (is_metered _ _); [|left; lra]. right. simpl in E.
  apply negb_false_iff, Qle_bool_iff in E. exact E.
Qed.

(** A rate tier's own session cap bounds the hold but not the charge: for a
    member on such a tier the hold is the cost of the tier's cap, while a session
    used to the tool's cap is charged the cost of the tool's. *)
Theorem tier_cap_bounds_the_hold_only cfg now now' uid tool db s c s' :
  billing_mode cfg = Prepaid ->
  let eff := effective_billing db uid tool in
  is_metered (eff_flat_fee eff) (eff_rate_per_min eff) = true ->
  eff_max_session_minutes eff = Some c -> is_Some (eff_tier_id eff) ->
  (run (open_session cfg now uid tool) db).2 = inl (Authorized s) ->
  opened s' = opened s ->
  0 <= max_minutes cfg tool -> (0 <= default 0 (eff_rate_per_min eff))%Q ->
  fits (default 0 (eff_rate_per_min eff) * inject_Z (max_minutes cfg tool))%Q ->
  (inject_Z (max_minutes cfg tool) * inject_Z 60 <= effective_usage now' tool s')%Q ->
  (hold_amount (opened s') == max_session_cost (eff_flat_fee eff) (eff_rate_per_min eff) c)%Q /\
  (charge_of cfg now' tool s' ==
     max_session_cost (eff_flat_fee eff) (eff_rate_per_min eff) (max_minutes cfg tool))%Q.
Proof.
  intros Hmode eff Hm Hcap [t Ht] Hopen Hs' H0 Hr Hf Huse.
  assert (hold_amount (opened s) = max_session_cost (eff_flat_fee eff) (eff_rate_per_min eff) c /\
    charge_rates tool s = (eff_flat_fee eff, eff_rate_per_min eff)) as [Hh Hrates].
  { pose proof (opened_as cfg now uid tool db db [] Logic.I eq_refl) as Has.
    unfold run in Hopen. destruct (open_session cfg now uid tool (db, [])) as [[db' fs'] r].
    simpl in Hopen. subst r. destruct Has as [_ Has]. specialize (Has s eq_refl).
    unfold charge_rates. rewrite Has. cbn. fold eff. rewrite Hmode, Hm, Ht, !orb_true_r.
    unfold required_available_rate. by rewrite Hmode, Hcap. }
  rewrite Hs', Hh. split; [done|].
  unfold charge_of. assert (charge_rates tool s' = charge_rates tool s) as ->
    by (unfold charge_rates; by rewrite Hs').
  rewrite Hrates. by apply charge_within.
Qed.

(** ** What billing leaves alone

    The operations of the service look at tools and users and never write one. *)
Section tools.
Context (I : Db -> Prop) (HI : of_tools I).

Lemma tools_call {A} (f : Db -> Db * (A + DatabaseError)) :
  (forall db, tools (f db).1 = tools db /\ users (f db).1 = users db) -> keeps I (call f).
Proof. intros Hf. apply keeps_call. intros db. apply HI; apply Hf. Qed.

Lemma tools_audit event uid : keeps I (audit event uid).
Proof. apply keeps_bind; [by apply keeps_attempt, tools_call | intros; apply keeps_ret]. Qed.

Lemma tools_insert_entry entry : keeps I (insert_ledger_entry entry).
Proof. apply tools_call. intros db. by repeat case_match. Qed.

Lemma tools_insert_session new : keeps I (insert_tool_session new).
Proof. apply tools_call. intros db. by repeat case_match. Qed.

Hint Resolve tools_audit tools_insert_entry tools_insert_session : css.

Lemma tools_open_session cfg now uid tool : keeps I (open_session cfg now uid tool).
Proof.
  unfold open_session, is_member, user_has_permission, available_balance, user_balance,
    sum_open_tool_holds, resolve_effective_billing. run_keeps.
Qed.

Lemma tools_record_usage tid secs active_secs : keeps I (record_usage tid secs active_secs).
Proof. unfold record_usage. run_keeps; by apply tools_call. Qed.

Lemma tools_settle cfg now tool st : keeps I (settle_open_session_for_tool cfg now tool st).
Proof. unfold settle_open_session_for_tool. run_keeps; by apply tools_call. Qed.

Lemma tools_sweep cfg now : keeps I (sweep_abandoned cfg now).
Proof.
  unfold sweep_abandoned. destruct (negb _); [apply keeps_ret|].
  apply keeps_bind; [auto with css|]. intros candidates. generalize 0%nat.
  induction candidates as [|s candidates IH]; intros n; simpl; [apply keeps_ret|].
  apply keeps_bind; [auto with css|]. intros [tool|]; [|apply IH].
  destruct (_ <=? _); [apply IH|].
  apply keeps_bind; [apply keeps_attempt, tools_settle | intros r; apply IH].
Qed.

End tools.

Section renewal.
Context {C : Calendar}.

(** Renewals spend money that is on hold: a member whose balance covers the
    dues only by counting what an open session has reserved is charged them all the
    same, and their available balance goes negative. *)
Theorem renewal_spends_held_money mcfg now uid u d db o :
  users db !! uid = Some u -> membership_next_due_at u = Some d -> 0 <= grace_days mcfg ->
  (forall t, t <= now -> is_Some (checked_add_months t (months (due_period mcfg)))) ->
  now < d + days (28 * 1199) -> dues_due d now (grace_days mcfg) = true ->
  (0 <= due_amount mcfg <= balance db uid)%Q -> (available db uid < due_amount mcfg)%Q ->
  (available (settle_renewal mcfg now uid o (db, [])).1.1 uid < 0)%Q.
Proof.
  intros Hu Hd Hg Hm Hnow Hdue [H0 Hb] Ha.
  destruct (renewal_settles_lemma mcfg now uid u d db o Hu Hd Hg Hm Hnow)
    as (k & due & db' & o' & -> & Hs & Hend). simpl.
  destruct Hs as [_ _ S2 _ _ Sse _ S6].
  assert (1 <= Z.of_nat k) as Hk.
  { destruct k as [|k]; [|lia]. exfalso. destruct due as [n|].
    - destruct S6 as [-> _]. specialize (Hend _ eq_refl). unfold anniversary in Hend.
      simpl in Hend. congruence.
    - destruct S6 as (_ & Hlt & _). rewrite S2 in Hlt.
      change (inject_Z (Z.of_nat 0)) with 0%Q in Hlt. lra. }
  unfold available in *. rewrite S2. unfold open_holds, holds in *. rewrite Sse.
  assert (1 * due_amount mcfg <= inject_Z (Z.of_nat k) * due_amount mcfg)%Q.
  { apply Qmult_le_compat_r; [|done]. change 1%Q with (inject_Z 1). by rewrite <- Zle_Qle. }
  lra.
Qed.

End renewal.

End ToolBilling.
End ToolBilling.
