(* ===== verification/Api.v ===== *)
(** * Errors of the HTTP surface ([server/src/api/errors.rs])

    What a handler answers when it does not succeed, the conversion every database
    error takes to get there, and the status each answer has. *)
From S2P Require Import Prelude Faults Database.
Import Faults Database.

Module Api.

Inductive ApiError : Type :=
  | Unauthorized (message : string)
  | Forbidden (message : string)
  | ValidationError (message : string)
  | BadRequest (message : string)
  | NotFoundError (message : string)
  | Conflict (message : string)
  | TooManyRequests (message : string)
  | InternalServerError (message : string)
  | DatabaseFailure (message : string)
  | NotImplemented (message : string).

Definition is_server_error (e : ApiError) : bool :=
  match e with InternalServerError _ | DatabaseFailure _ | NotImplemented _ => true | _ => false end.

(** [into_response]: the status and the body's message. *)
Definition into_response (e : ApiError) : Z * string :=
  match e with
  | Unauthorized m => (401, m)
  | Forbidden m => (403, m)
  | ValidationError m => (400, m)
  | BadRequest m => (400, m)
  | NotFoundError m => (404, m)
  | Conflict m => (409, m)
  | TooManyRequests m => (429, m)
  | InternalServerError _ => (500, "Internal server error")
  | DatabaseFailure _ => (500, "Database operation failed")
  | NotImplemented m => (501, m)
  end%string.

(** [From<DatabaseError>], which delegates to [From<diesel::result::Error>]. *)
Definition api_error (e : DatabaseError) : ApiError :=
  match e with
  | Connection => InternalServerError "Database connection error"
  | NotFound => NotFoundError "Requested resource not found"
  | UniqueViolation => Conflict "Resource already exists"
  | ForeignKeyViolation => Conflict "Referenced resource does not exist or is still in use"
  | CheckViolation => BadRequest "A value was not one this field accepts"
  | UnknownFault => DatabaseFailure "Database operation failed"
  | OtherError m => InternalServerError ("Database error: " +:+ m)
  end.

(** [AuthError], and [From<AuthError>]: what an extractor's refusal answers. *)
Inductive AuthError : Type :=
  | WrongCredentials
  | MissingCredentials
  | TokenCreation
  | InvalidToken
  | InsufficientRole (what : string)
  | UserNotFound
  | UserInactive
  | InvalidPassword (message : string)
  | InternalError.

Definition auth_api_error (e : AuthError) : ApiError :=
  match e with
  | WrongCredentials => Unauthorized "Invalid credentials"
  | MissingCredentials => Unauthorized "Missing authentication credentials"
  | TokenCreation => InternalServerError "Failed to create authentication token"
  | InvalidToken => Unauthorized "Invalid authentication token"
  | InsufficientRole what => Forbidden ("Insufficient permissions: " +:+ what +:+ " required")
  | UserNotFound => NotFoundError "User not found"
  | UserInactive => Forbidden "User account is inactive"
  | InvalidPassword _ => BadRequest "Invalid password format"
  | InternalError => InternalServerError "Authentication service error"
  end.

(** The server-error test and the status agree: 5xx exactly for those, and then the
    body never carries the detail of one of the first two. *)
Lemma server_error_status e : is_server_error e = true <-> 500 <= (into_response e).1.
Proof. destruct e; simpl; split; intros; done || lia. Qed.

(** ** Guards

    [if bad { return Err(e) }], before the rest of a handler. *)
Section Guards.
Context {Db A : Type}.
Abbreviation H := (Faults.M Db ApiError).
Implicit Types (m : H A) (I : Db -> Prop).

Definition unless (bad : bool) (e : ApiError) (m : H A) : H A := if bad then throw e else m.

Lemma reads_unless bad e m R : reads m R -> reads (unless bad e m) (fun db x => bad = false /\ R db x).
Proof.
  intros Hm. unfold unless. destruct bad; [apply reads_throw|].
  eapply reads_weaken; [done | naive_solver].
Qed.

Lemma triple_unless I P bad e m Q :
  (bad = false -> triple I P m Q) -> triple I P (unless bad e m) Q.
Proof. unfold unless. destruct bad; [intros _; apply triple_throw | auto]. Qed.

Lemma keeps_unless I bad e m : keeps I m -> keeps I (unless bad e m).
Proof. intros Hm. by apply triple_unless. Qed.

End Guards.

End Api.
