(* ===== verification/Throttle.v ===== *)
(** * The attempt throttle ([server/src/throttle.rs])

    One in-memory table of counters for registration, login, second factors, reset
    mails and check-ins.  Every operation is one critical section and reads the
    clock once; an instant is nanoseconds, and counters are 32 bits wide. *)
From S2P Require Import Prelude.

Module Throttle.

#[local] Open Scope Z_scope.

Record ThrottleEntry := {
  attempts : Z;
  last_attempt : instant;
  locked_until : option instant;
}.

Abbreviation Table := (gmap string ThrottleEntry).

(** [Duration::as_secs] of a wait, cut to 32 bits. *)
Definition remaining (until now : instant) : Z := ((until - now) / seconds 1) mod 2 ^ 32.

Definition stays (now : instant) (lockout_seconds : Z) (e : ThrottleEntry) : bool :=
  match locked_until e with
  | None => now - last_attempt e <? seconds (lockout_seconds * 2)
  | Some until => now <? until
  end.

Definition cleanup_old_entries (now : instant) (lockout_seconds : Z) (t : Table) : Table :=
  filter (fun kv => stays now lockout_seconds kv.2 = true) t.

(** [inr]: refused, with the seconds left. *)
Definition check_attempt (id : string) (max_attempts lockout_seconds : Z) (now : instant)
    (t : Table) : Table * (unit + Z) :=
  let t := cleanup_old_entries now lockout_seconds t in
  match t !! id with
  | None => (t, inl tt)
  | Some e =>
      let locked := match locked_until e with
                    | Some until => if now <? until then Some until else None
                    | None => None
                    end in
      match locked with
      | Some until => (t, inr (remaining until now))
      | None =>
          if max_attempts <=? attempts e then
            let until := last_attempt e + seconds lockout_seconds in
            if now <? until then
              (<[id := {| attempts := attempts e; last_attempt := last_attempt e;
                          locked_until := Some until |}]> t,
               inr (remaining until now))
            else (t, inl tt)
          else (t, inl tt)
      end
  end.

Definition record_failed_attempt (id : string) (max_attempts lockout_seconds : Z) (now : instant)
    (t : Table) : Table :=
  let e := default {| attempts := 0; last_attempt := now; locked_until := None |} (t !! id) in
  let n := (attempts e + 1) mod 2 ^ 32 in
  <[id := {| attempts := n; last_attempt := now;
             locked_until := if max_attempts <=? n then Some (now + seconds lockout_seconds)
                             else locked_until e |}]> t.

Definition record_successful_attempt (id : string) (t : Table) : Table := delete id t.

Definition get_attempt_count (id : string) (t : Table) : Z := default 0 (attempts <$> t !! id).

Definition get_remaining_lockout (id : string) (now : instant) (t : Table) : option Z :=
  e ← t !! id;
  until ← locked_until e;
  if now <? until then Some (remaining until now) else None.

(** ** What callers do *)

Inductive call : Type :=
  | Check (id : string) (max_attempts lockout_seconds : Z)
  | Fail (id : string) (max_attempts lockout_seconds : Z)
  | Clear (id : string).

Definition of_call (c : call) : string := match c with Check id _ _ | Fail id _ _ | Clear id => id end.

Definition perform (now : instant) (c : call) (t : Table) : Table :=
  match c with
  | Check id m l => (check_attempt id m l now t).1
  | Fail id m l => record_failed_attempt id m l now t
  | Clear id => record_successful_attempt id t
  end.

Definition performs (h : list (instant * call)) (t : Table) : Table :=
  foldl (fun t c => perform c.1 c.2 t) t h.

(** A guess as the login, reset and check-in handlers make one that fails: checked,
    and counted if it was let through. *)
Definition guess (id : string) (max_attempts lockout_seconds : Z) (now : instant) (t : Table)
    : Table * bool :=
  match check_attempt id max_attempts lockout_seconds now t with
  | (t, inl _) => (record_failed_attempt id max_attempts lockout_seconds now t, true)
  | (t, inr _) => (t, false)
  end.

(** ** A lockout *)

Lemma lookup_cleanup now l t id e :
  cleanup_old_entries now l t !! id = Some e <-> t !! id = Some e /\ stays now l e = true.
Proof. unfold cleanup_old_entries. by rewrite map_lookup_filter_Some. Qed.

Lemma lookup_cleanup_locked now l t id e until :
  t !! id = Some e -> locked_until e = Some until -> now < until ->
  cleanup_old_entries now l t !! id = Some e.
Proof.
  intros Hi Hu Hn. apply lookup_cleanup. split; [done|]. unfold stays. rewrite Hu. by apply Z.ltb_lt.
Qed.

Definition locked (id : string) (until : instant) (t : Table) : Prop :=
  exists e, t !! id = Some e /\ locked_until e = Some until.

(** Calls for others, and checks by anybody, leave a lockout that has not run out. *)
Lemma perform_keeps_locked id until now c t :
  locked id until t -> now < until -> (of_call c = id -> exists m l, c = Check id m l) ->
  locked id until (perform now c t).
Proof.
  intros (e & He & Hu) Hn Hc. unfold locked.
  destruct c as [id' m l|id' m l|id']; simpl.
  - pose proof (lookup_cleanup_locked now l t id e until He Hu Hn) as Hk. unfold check_attempt.
    destruct (cleanup_old_entries now l t !! id') as [e'|] eqn:E; [|by exists e].
    repeat case_match; simpl; try by exists e.
    all: destruct (decide (id' = id)) as [->|Hne]; [|rewrite lookup_insert_ne by done; by exists e].
    all: rewrite Hk in E; injection E as <-; exfalso; split_andb; simplify_eq; lia || congruence.
  - destruct (decide (id' = id)) as [->|Hne]; [by destruct (Hc eq_refl) as (? & ? & ?)|].
    exists e. unfold record_failed_attempt. by rewrite lookup_insert_ne.
  - destruct (decide (id' = id)) as [->|Hne]; [by destruct (Hc eq_refl) as (? & ? & ?)|].
    exists e. unfold record_successful_attempt. by rewrite lookup_delete_ne.
Qed.

(** A lockout holds: through any calls for other identifiers with any limits, and
    any checks of its own, an identifier locked until some instant is refused at every
    instant before it, with the whole seconds that are left. *)
Theorem lockout_holds id until h now m l t :
  locked id until t ->
  Forall (fun c => c.1 < until /\ (of_call c.2 = id -> exists m l, c.2 = Check id m l)) h ->
  now < until ->
  (check_attempt id m l now (performs h t)).2 = inr (remaining until now).
Proof.
  intros Hl Hh Hn. assert (locked id until (performs h t)) as (e & He & Hu).
  { revert t Hl. induction Hh as [|[t0 c] h [Ht Hc] _ IH]; intros t Hl; [done|].
    apply IH. by apply perform_keeps_locked. }
  unfold check_attempt. rewrite (lookup_cleanup_locked now l _ id e until He Hu Hn), Hu.
  by rewrite (proj2 (Z.ltb_lt now until) Hn).
Qed.

(** ** A rate

    The guesses let through for one identifier, the latest first. *)
Inductive step : Type :=
  | Guess
  | Other (c : call).

Definition go (id : string) (m l : Z) (st : Table * list instant) (s : instant * step)
    : Table * list instant :=
  let '(t, passed) := st in
  match s.2 with
  | Guess =>
      let '(t, ok) := guess id m l s.1 t in (t, if ok : bool then s.1 :: passed else passed)
  | Other c => (perform s.1 c t, passed)
  end.

(** Time goes on, and the others are calls for other identifiers that forget no sooner
    than [l]. *)
Fixpoint goes_on (id : string) (l : Z) (from : instant) (h : list (instant * step)) : Prop :=
  match h with
  | [] => True
  | (t, s) :: h =>
      from <= t /\
      match s with
      | Guess => True
      | Other c => of_call c <> id /\
          match c with Check _ _ l' => l <= 2 * l' | _ => True end
      end /\ goes_on id l t h
  end.

(** No [m] + 1 guesses within [l] seconds: each is [l] after the one [m] places earlier. *)
Fixpoint spaced (m : nat) (l : Z) (passed : list instant) : Prop :=
  match passed with
  | [] => True
  | x :: rest => (forall y, rest !! (m - 1)%nat = Some y -> y + seconds l <= x) /\ spaced m l rest
  end.

(** The table counts the guesses since it last forgot, and it forgot no sooner than [l]
    after the one before them. *)
Definition accounts_for (id : string) (m : nat) (l : Z) (now : instant)
    (st : Table * list instant) : Prop :=
  spaced m l st.2 /\ Forall (fun x => x <= now) st.2 /\
  match st.1 !! id with
  | None => Forall (fun y => y + seconds l <= now) st.2
  | Some e => exists recent older, st.2 = recent ++ older /\
      attempts e = Z.of_nat (length recent) /\ (length recent <= m)%nat /\
      Forall (fun x => x <= last_attempt e) st.2 /\ last_attempt e <= now /\
      Forall (fun y => y + seconds l <= now) older /\
      locked_until e = (if Z.of_nat m <=? attempts e then Some (last_attempt e + seconds l) else None)
  end.

Lemma accounts_later id m l now now' st :
  now <= now' -> accounts_for id m l now st -> accounts_for id m l now' st.
Proof.
  intros Hn (H1 & H2 & H3). unfold accounts_for.
  split_and!; [done|eapply Forall_impl; [done|simpl; lia]|].
  destruct (st.1 !! id) as [e|]; [|eapply Forall_impl; [done|simpl; lia]].
  destruct H3 as (recent & older & ? & ? & ? & ? & ? & ? & ?). exists recent, older.
  split_and!; try done; [lia|eapply Forall_impl; [done|simpl; lia]].
Qed.

(** Somebody's check forgets only what is [l] old. *)
Lemma accounts_cleanup id m l l' now st :
  l <= 2 * l' -> accounts_for id m l now st ->
  accounts_for id m l now (cleanup_old_entries now l' st.1, st.2).
Proof.
  intros Hl (H1 & H2 & H3). unfold accounts_for. cbn [fst snd]. split_and!; [done|done|].
  destruct (cleanup_old_entries now l' st.1 !! id) as [e|] eqn:E.
  - apply lookup_cleanup in E as [E _]. by rewrite E in H3.
  - destruct (st.1 !! id) as [e|] eqn:E1; [|done].
    destruct H3 as (recent & older & _ & _ & _ & Hx & _ & _ & Hu).
    destruct (stays now l' e) eqn:Es; [by rewrite (proj2 (lookup_cleanup _ _ _ _ _) (conj E1 Es)) in E|].
    eapply Forall_impl; [done|]. simpl. intros x Hxe. unfold stays in Es. rewrite Hu in Es.
    assert (seconds l <= seconds (l' * 2)) by (unfold seconds; lia).
    destruct (Z.of_nat m <=? attempts e); apply Z.ltb_ge in Es; lia.
Qed.

Lemma accounts_guess id m l now st :
  (0 < m)%nat -> Z.of_nat m < 2 ^ 32 -> 0 <= l -> accounts_for id m l now st ->
  accounts_for id m l now (go id (Z.of_nat m) l st (now, Guess)).
Proof.
  intros Hm Hw Hl H. destruct st as [t passed]. cbn [go fst snd]. unfold guess, check_attempt.
  apply (accounts_cleanup id m l l now) in H; [|lia]. cbn [fst snd] in H.
  assert (Hs : forall e, cleanup_old_entries now l t !! id = Some e -> stays now l e = true)
    by (intros e [_ ?]%lookup_cleanup; done).
  set (t' := cleanup_old_entries now l t) in *.
  destruct H as (H1 & H2 & H3). cbn [fst snd] in *.
  assert (Hnext : forall e recent older, passed = recent ++ older -> attempts e = Z.of_nat (length recent) ->
    (length recent < m)%nat -> Forall (fun y => y + seconds l <= now) older ->
    default {| attempts := 0; last_attempt := now; locked_until := None |} (t' !! id) = e ->
    locked_until e = None ->
    accounts_for id m l now (record_failed_attempt id (Z.of_nat m) l now t', now :: passed)).
  { intros e recent older -> Ha Hk Ho He Hu. unfold accounts_for, record_failed_attempt. cbn [fst snd].
    rewrite He, Ha, (Z.mod_small (Z.of_nat (length recent) + 1)) by lia. split_and!.
    - cbn [spaced]. split; [|done]. intros y Hy. rewrite lookup_app_r in Hy by lia.
      by apply (Forall_lookup_1 _ _ _ _ Ho) in Hy.
    - by constructor.
    - rewrite lookup_insert_eq. exists (now :: recent), older. cbn [attempts last_attempt locked_until length].
      split_and!; try done; [lia|by constructor|by rewrite Hu]. }
  destruct (t' !! id) as [e|] eqn:E.
  - destruct H3 as (recent & older & Hp & Ha & Hk & Hx & He & Ho & Hu).
    specialize (Hs e eq_refl). unfold stays in Hs. rewrite Hu in Hs |- *.
    destruct (Z.of_nat m <=? attempts e) eqn:Em.
    + rewrite Hs. unfold accounts_for. cbn [fst snd]. rewrite E. split_and!; try done.
      exists recent, older. by rewrite Em.
    + apply Z.leb_gt in Em. apply (Hnext e recent older); try done. lia.
  - apply (Hnext {| attempts := 0; last_attempt := now; locked_until := None |} [] passed); try done; simpl; lia.
Qed.

(** For anybody else a check is the clean-up. *)
Lemma check_other id i m l now t :
  i <> id -> (check_attempt i m l now t).1 !! id = cleanup_old_entries now l t !! id.
Proof.
  intros Hi. unfold check_attempt. repeat case_match; cbn [fst];
    rewrite ?lookup_insert_ne by done; done.
Qed.

Lemma accounts_other id m l now st c :
  of_call c <> id -> (forall i m' l', c = Check i m' l' -> l <= 2 * l') ->
  accounts_for id m l now st -> accounts_for id m l now (perform now c st.1, st.2).
Proof.
  intros Hc Hl H. destruct c as [i m' l'|i m' l'|i]; cbn [of_call perform] in *.
  - apply (accounts_cleanup id m l l' now) in H; [|exact (Hl i m' l' eq_refl)].
    unfold accounts_for in *. cbn [fst snd] in *. by rewrite check_other.
  - unfold accounts_for, record_failed_attempt in *. cbn [fst]. by rewrite lookup_insert_ne.
  - unfold accounts_for, record_successful_attempt in *. cbn [fst]. by rewrite lookup_delete_ne.
Qed.

Lemma accounts_go id m l now h st :
  (0 < m)%nat -> Z.of_nat m < 2 ^ 32 -> 0 <= l -> accounts_for id m l now st -> goes_on id l now h ->
  exists now', accounts_for id m l now' (foldl (go id (Z.of_nat m) l) st h).
Proof.
  intros Hm Hw Hl. revert now st. induction h as [|[t s] h IH]; intros now st H Hh; [by exists now|].
  destruct Hh as (Ht & Hs & Hh). apply (IH t); [|done]. apply (accounts_later _ _ _ _ t) in H; [|done].
  destruct s as [|c]; [by apply accounts_guess|]. destruct st as [tb passed].
  apply (accounts_other _ _ _ _ (tb, passed)); [apply Hs| |done].
  intros i m' l' ->. apply Hs.
Qed.

Lemma spaced_spec m l passed i x y :
  (0 < m)%nat -> spaced m l passed -> passed !! i = Some x -> passed !! (i + m)%nat = Some y ->
  y + seconds l <= x.
Proof.
  intros Hm. revert i. induction passed as [|z passed IH]; intros i Hs Hx Hy; [done|].
  destruct Hs as [Hz Hs]. destruct i as [|i]; [|by apply (IH i)].
  injection Hx as ->. apply Hz. replace (0 + m)%nat with (S (m - 1)) in Hy by lia. done.
Qed.

(** C31. Guessing is rate limited: on an empty table, whatever else is checked, counted
    or cleared for others, no [m] + 1 guesses for one identifier pass within the lockout
    of [l] seconds, as long as the others' checks carry lockouts of at least half of it. *)
Theorem guessing_is_bounded id m l start h i x y :
  (0 < m)%nat -> Z.of_nat m < 2 ^ 32 -> 0 <= l -> goes_on id l start h ->
  (foldl (go id (Z.of_nat m) l) (∅, []) h).2 !! i = Some x ->
  (foldl (go id (Z.of_nat m) l) (∅, []) h).2 !! (i + m)%nat = Some y ->
  y + seconds l <= x.
Proof.
  intros Hm Hw Hl Hh Hx Hy.
  destruct (accounts_go id m l start h (∅, [])) as (now & Ha & _); [done..| |done|].
  - unfold accounts_for. cbn [fst snd]. rewrite lookup_empty. by split_and!.
  - by apply (spaced_spec m l _ i x y Hm Ha).
Qed.

(** Without that condition they do: any check with a lockout of less than half the time
    since the last failure forgets a counter that is not locked, whoever it counts. *)
Lemma foreign_check_forgets id id' m' l' now e t :
  id' <> id -> t !! id = Some e -> locked_until e = None ->
  last_attempt e + seconds (l' * 2) <= now ->
  (check_attempt id' m' l' now t).1 !! id = None.
Proof.
  intros Hne He Hu Hl. assert (Hc : cleanup_old_entries now l' t !! id = None).
  { destruct (cleanup_old_entries now l' t !! id) as [e'|] eqn:E; [|done].
    apply lookup_cleanup in E as [E Hs]. unfold stays in Hs. simplify_eq. rewrite Hu in Hs.
    apply Z.ltb_lt in Hs. lia. }
  by rewrite check_other.
Qed.

(** ** Examples *)

Definition sprayed : list (instant * step) :=
  [(0, Guess); (seconds 1, Guess); (seconds 2, Other (Check "door" 5 30)); (seconds 2, Guess);
   (seconds 3, Guess); (seconds 61, Guess); (seconds 65, Guess)].

Lemma lockout_holds_witness :
  (check_attempt "a" 3 60 (seconds 30)
     (performs [(seconds 5, Check "b" 5 1); (seconds 9, Check "a" 3 1)]
        (record_failed_attempt "a" 1 60 0 ∅))).2 = inr 30.
Proof.
  apply (lockout_holds "a" (seconds 60)); [by eexists|repeat constructor; try done|done].
  all: by eexists _, _.
Defined.

Lemma guessing_is_bounded_witness :
  (foldl (go "a" 3 60) (∅, []) sprayed).2 = [seconds 65; seconds 2; seconds 1; 0] /\
  0 + seconds 60 <= seconds 65.
Proof.
  split; [by vm_compute|].
  by apply (guessing_is_bounded "a" 3 60 0 sprayed 0); [lia|lia|lia|vm_compute; intuition congruence|vm_compute..].
Defined.

(** The mail reset limit (3 in 900 s) after a door check-in: the counter is gone. *)
Example a_check_in_forgets_resets :
  let t := record_failed_attempt "reset" 3 900 (seconds 1)
             (record_failed_attempt "reset" 3 900 0 ∅) in
  get_attempt_count "reset" t = 2 /\
  get_attempt_count "reset" (check_attempt "door" 5 30 (seconds 62) t).1 = 0.
Proof. by vm_compute. Qed.

End Throttle.
