(* ===== verification/Power.v ===== *)
(** * The power topology ([server/src/api/power.rs], the power tables of
    [server/src/database.rs])

    Circuits, which may hang under an upstream trunk, their outlets, the outlets'
    receptacles and the tool in each; the latest reading of every tool; and the
    emergency lockouts of circuits and tools. *)
From Stdlib Require Import QArith.
From S2P Require Import Prelude Text Wire Faults Money Database Api.
Import Text Wire Faults Money Database Api.

Module Power.

#[local] Open Scope Z_scope.

Section Power.
Context {U : Uuid} {IS : IdSource}.

(** [BigDecimal]'s [Display]. *)
Context (amps_to_string : Q -> string).

(** ** Rows *)

Record PowerCircuit := {
  circuit_row_id : uuid;
  breaker_label : string;
  voltage_rating : Z;
  amperage_limit : Q;
  parent_circuit_id : option uuid;
  circuit_locked_out : bool;
  circuit_lockout_reason : option string;
  lockout_source : option string;
  circuit_locked_out_at : option instant;
  locked_out_by : option uuid;
}.

Record PowerOutlet := {
  outlet_row_id : uuid;
  circuit_id : uuid;
  place_id : uuid;
  outlet_label : string;
  location : option string;
}.

Record PowerReceptacle := {
  receptacle_row_id : uuid;
  outlet_id : uuid;
  receptacle_label : string;
}.

Record ToolPowerState := {
  tps_tool_id : uuid;
  last_draw_amps : option Q;
  last_voltage : option Q;
  reported_max_voltage : option Q;
  reported_amperage_limit : option Q;
  last_reported_at : instant;
  tool_locked_out : bool;
  tool_lockout_reason : option string;
  tool_locked_out_at : option instant;
  last_relay_on : option bool;
  power_evidence_since : option instant;
}.

Record PowerDb := {
  base : Db;
  circuits : gmap uuid PowerCircuit;
  outlets : gmap uuid PowerOutlet;
  receptacles : gmap uuid PowerReceptacle;
  power_states : gmap uuid ToolPowerState;
  places : gset uuid;
}.

Definition with_base (b : Db) (db : PowerDb) : PowerDb := {|
  base := b; circuits := circuits db; outlets := outlets db; receptacles := receptacles db;
  power_states := power_states db; places := places db |}.

#[export] Instance power_base : Part PowerDb Db :=
  {| part := base; put := with_base; part_put := ltac:(done); put_part := ltac:(by intros []);
     put_put := ltac:(done) |}.

Definition with_circuits (f : gmap uuid PowerCircuit -> gmap uuid PowerCircuit) (db : PowerDb)
    : PowerDb := {|
  base := base db; circuits := f (circuits db); outlets := outlets db;
  receptacles := receptacles db; power_states := power_states db; places := places db |}.

Definition with_outlets (f : gmap uuid PowerOutlet -> gmap uuid PowerOutlet) (db : PowerDb)
    : PowerDb := {|
  base := base db; circuits := circuits db; outlets := f (outlets db);
  receptacles := receptacles db; power_states := power_states db; places := places db |}.

Definition with_receptacles (f : gmap uuid PowerReceptacle -> gmap uuid PowerReceptacle)
    (db : PowerDb) : PowerDb := {|
  base := base db; circuits := circuits db; outlets := outlets db;
  receptacles := f (receptacles db); power_states := power_states db; places := places db |}.

Definition with_power_states (f : gmap uuid ToolPowerState -> gmap uuid ToolPowerState)
    (db : PowerDb) : PowerDb := {|
  base := base db; circuits := circuits db; outlets := outlets db;
  receptacles := receptacles db; power_states := f (power_states db); places := places db |}.

Abbreviation M := (Faults.M PowerDb DatabaseError).

Definition find_row {A} (table : PowerDb -> gmap uuid A) (k : uuid) : M A :=
  call (fun db => (db, match table db !! k with Some r => inl r | None => inr NotFound end)).

Definition list_rows {A} (table : PowerDb -> gmap uuid A) : M (list A) :=
  select (fun db => (map_to_list (table db)).*2).

(** ** Circuits *)

Definition list_power_circuits : M (list PowerCircuit) := list_rows circuits.
Definition get_power_circuit (cid : uuid) : M PowerCircuit := find_row circuits cid.

(** The walk over the trunks; [acc] comes reversed at the end. *)
Fixpoint ancestors_loop (fuel : nat) (current : option uuid) (acc : list PowerCircuit)
    : M (list PowerCircuit) :=
  match current with
  | None => mret acc
  | Some parent =>
      match fuel with
      | O => throw (OtherError "power circuit ancestor chain exceeded 32 levels")
      | S fuel =>
          c ← get_power_circuit parent;
          ancestors_loop fuel (parent_circuit_id c) (c :: acc)
      end
  end.

Definition power_circuit_ancestors (cid : uuid) : M (list PowerCircuit) :=
  c ← get_power_circuit cid;
  ancestors_loop 32 (parent_circuit_id c) [].

Record NewPowerCircuit := {
  np_breaker_label : string;
  np_voltage_rating : Z;
  np_amperage_limit : Q;
  np_parent_circuit_id : option uuid;
}.

Definition circuit_of (id : uuid) (n : NewPowerCircuit) : PowerCircuit := {|
  circuit_row_id := id; breaker_label := np_breaker_label n;
  voltage_rating := np_voltage_rating n; amperage_limit := np_amperage_limit n;
  parent_circuit_id := np_parent_circuit_id n; circuit_locked_out := false;
  circuit_lockout_reason := None; lockout_source := None; circuit_locked_out_at := None;
  locked_out_by := None |}.

(** A row under a fresh identifier, which the primary key keeps unique. *)
Definition insert_row {A} (table : PowerDb -> gmap uuid A)
    (set : (gmap uuid A -> gmap uuid A) -> PowerDb -> PowerDb) (row : uuid -> A)
    (db : PowerDb) : PowerDb * (A + DatabaseError) :=
  let id := gen_random_uuid (next_id (base db)) in
  let db := with_base (with_sessions 1 (fun l => l) (base db)) db in
  match table db !! id with
  | Some _ => (db, inr UniqueViolation)
  | None => (set <[id := row id]> db, inl (row id))
  end.

Definition create_power_circuit (n : NewPowerCircuit) : M PowerCircuit :=
  call (fun db =>
    if is_none_or (np_parent_circuit_id n) (fun p => is_some (circuits db !! p))
    then insert_row circuits with_circuits (fun id => circuit_of id n) db
    else (db, inr ForeignKeyViolation)).

(** [None] leaves a column alone. *)
Record UpdatePowerCircuit := {
  up_breaker_label : option string;
  up_voltage_rating : option Z;
  up_amperage_limit : option Q;
  up_parent_circuit_id : option (option uuid);
}.

Definition change_circuit (u : UpdatePowerCircuit) (c : PowerCircuit) : PowerCircuit := {|
  circuit_row_id := circuit_row_id c;
  breaker_label := default (breaker_label c) (up_breaker_label u);
  voltage_rating := default (voltage_rating c) (up_voltage_rating u);
  amperage_limit := default (amperage_limit c) (up_amperage_limit u);
  parent_circuit_id := default (parent_circuit_id c) (up_parent_circuit_id u);
  circuit_locked_out := circuit_locked_out c; circuit_lockout_reason := circuit_lockout_reason c;
  lockout_source := lockout_source c; circuit_locked_out_at := circuit_locked_out_at c;
  locked_out_by := locked_out_by c |}.

(** The new parent, if one is set, must exist. *)
Definition parent_exists (u : option (option uuid)) (db : PowerDb) : bool :=
  match u with Some (Some p) => is_some (circuits db !! p) | _ => true end.

Definition update_power_circuit (cid : uuid) (u : UpdatePowerCircuit) : M PowerCircuit :=
  call (fun db =>
    match circuits db !! cid with
    | None => (db, inr NotFound)
    | Some c =>
        if parent_exists (up_parent_circuit_id u) db
        then (with_circuits <[cid := change_circuit u c]> db, inl (change_circuit u c))
        else (db, inr ForeignKeyViolation)
    end).

(** What an [ON DELETE RESTRICT] refuses comes as an error of no kind. *)
Definition circuit_in_use (cid : uuid) (db : PowerDb) : bool :=
  existsb (fun c => parent_circuit_id c ≟ Some cid) (map_to_list (circuits db)).*2 ||
  existsb (fun o => circuit_id o ≟ cid) (map_to_list (outlets db)).*2.

Definition delete_power_circuit (cid : uuid) : M Z :=
  call (fun db =>
    if circuit_in_use cid db then (db, inr UnknownFault)
    else (with_circuits (delete cid) db,
          inl (if is_some (circuits db !! cid) then 1 else 0))).

(** ** Outlets and receptacles *)

Definition list_power_outlets : M (list PowerOutlet) := list_rows outlets.
Definition get_power_outlet (oid : uuid) : M PowerOutlet := find_row outlets oid.

Definition list_outlets_for_circuit (cid : uuid) : M (list PowerOutlet) :=
  select (fun db => List.filter (fun o => circuit_id o ≟ cid) (map_to_list (outlets db)).*2).

Record NewPowerOutlet := {
  no_circuit_id : uuid;
  no_place_id : uuid;
  no_label : string;
  no_location : option string;
}.

Definition create_power_outlet (n : NewPowerOutlet) : M PowerOutlet :=
  call (fun db =>
    if is_some (circuits db !! no_circuit_id n) && bool_decide (no_place_id n ∈ places db)
    then insert_row outlets with_outlets
      (fun id => {| outlet_row_id := id; circuit_id := no_circuit_id n; place_id := no_place_id n;
                    outlet_label := no_label n; location := no_location n |}) db
    else (db, inr ForeignKeyViolation)).

Record UpdatePowerOutlet := {
  uo_circuit_id : option uuid;
  uo_place_id : option uuid;
  uo_label : option string;
  uo_location : option (option string);
}.

Definition change_outlet (u : UpdatePowerOutlet) (o : PowerOutlet) : PowerOutlet := {|
  outlet_row_id := outlet_row_id o; circuit_id := default (circuit_id o) (uo_circuit_id u);
  place_id := default (place_id o) (uo_place_id u);
  outlet_label := default (outlet_label o) (uo_label u);
  location := default (location o) (uo_location u) |}.

Definition update_power_outlet (oid : uuid) (u : UpdatePowerOutlet) : M PowerOutlet :=
  call (fun db =>
    match outlets db !! oid with
    | None => (db, inr NotFound)
    | Some o =>
        if is_none_or (uo_circuit_id u) (fun c => is_some (circuits db !! c)) &&
           is_none_or (uo_place_id u) (fun p => bool_decide (p ∈ places db))
        then (with_outlets <[oid := change_outlet u o]> db, inl (change_outlet u o))
        else (db, inr ForeignKeyViolation)
    end).

(** [ON DELETE SET NULL]: a tool loses the receptacle that goes. *)
Definition unplug (gone : uuid -> bool) (t : Tool) : Tool :=
  if is_some_and (receptacle_id t) gone then set_receptacle None (updated_at t) t else t.

Definition drop_receptacles (gone : PowerReceptacle -> bool) (db : PowerDb) : PowerDb :=
  let dropped := fun rid => is_some_and (receptacles db !! rid) gone in
  with_base (with_tools (fmap (unplug dropped)) (base db))
    (with_receptacles (filter (fun kr => gone kr.2 = false)) db).

(** The outlet's receptacles go with it. *)
Definition delete_power_outlet (oid : uuid) : M Z :=
  call (fun db => (with_outlets (delete oid) (drop_receptacles (fun r => outlet_id r ≟ oid) db),
                   inl (if is_some (outlets db !! oid) then 1 else 0))).

Definition list_receptacles_for_outlet (oid : uuid) : M (list PowerReceptacle) :=
  select (fun db => List.filter (fun r => outlet_id r ≟ oid) (map_to_list (receptacles db)).*2).

Definition list_power_receptacles : M (list PowerReceptacle) := list_rows receptacles.
Definition get_power_receptacle (rid : uuid) : M PowerReceptacle := find_row receptacles rid.

Definition create_power_receptacle (oid : uuid) (label : string) : M PowerReceptacle :=
  call (fun db =>
    if is_some (outlets db !! oid)
    then insert_row receptacles with_receptacles
      (fun id => {| receptacle_row_id := id; outlet_id := oid; receptacle_label := label |}) db
    else (db, inr ForeignKeyViolation)).

Definition update_power_receptacle (rid : uuid) (oid : option uuid) (label : option string)
    : M PowerReceptacle :=
  call (fun db =>
    match receptacles db !! rid with
    | None => (db, inr NotFound)
    | Some r =>
        let r' := {| receptacle_row_id := receptacle_row_id r;
                     outlet_id := default (outlet_id r) oid;
                     receptacle_label := default (receptacle_label r) label |} in
        if is_none_or oid (fun o => is_some (outlets db !! o))
        then (with_receptacles <[rid := r']> db, inl r') else (db, inr ForeignKeyViolation)
    end).

Definition delete_power_receptacle (rid : uuid) : M Z :=
  call (fun db => (drop_receptacles (fun r => receptacle_row_id r ≟ rid) db,
                   inl (if is_some (receptacles db !! rid) then 1 else 0))).

(** The partial unique index: one tool in a receptacle. *)
Definition receptacle_taken (rid tid : uuid) (db : PowerDb) : bool :=
  existsb (fun kt => (receptacle_id kt.2 ≟ Some rid) && negb (kt.1 ≟ tid))
    (map_to_list (tools (base db))).

Definition assign_receptacle (now : instant) (tid : uuid) (rid : option uuid) : M Z :=
  call (fun db =>
    match tools (base db) !! tid with
    | None => (db, inl 0)
    | Some t =>
        if negb (is_none_or rid (fun r => is_some (receptacles db !! r)))
        then (db, inr ForeignKeyViolation)
        else if is_some_and rid (fun r => receptacle_taken r tid db) then (db, inr UniqueViolation)
        else (with_base (with_tools <[tid := set_receptacle rid now t]> (base db)) db, inl 1)
    end).

(** ** Readings and lockouts *)

Record NewToolPowerState := {
  nt_tool_id : uuid;
  nt_last_draw_amps : option Q;
  nt_last_voltage : option Q;
  nt_reported_max_voltage : option Q;
  nt_reported_amperage_limit : option Q;
  nt_last_reported_at : instant;
  nt_last_relay_on : option bool;
  nt_power_evidence_since : option instant;
}.

(** One row per tool; a reading leaves the lockout columns alone. *)
Definition read_into (n : NewToolPowerState) (old : option ToolPowerState) : ToolPowerState := {|
  tps_tool_id := nt_tool_id n; last_draw_amps := nt_last_draw_amps n;
  last_voltage := nt_last_voltage n; reported_max_voltage := nt_reported_max_voltage n;
  reported_amperage_limit := nt_reported_amperage_limit n;
  last_reported_at := nt_last_reported_at n;
  tool_locked_out := match old with Some s => tool_locked_out s | None => false end;
  tool_lockout_reason := old ≫= tool_lockout_reason;
  tool_locked_out_at := old ≫= tool_locked_out_at;
  last_relay_on := nt_last_relay_on n; power_evidence_since := nt_power_evidence_since n |}.

Definition upsert_tool_power_state (n : NewToolPowerState) : M ToolPowerState :=
  call (fun db =>
    match tools (base db) !! nt_tool_id n with
    | None => (db, inr ForeignKeyViolation)
    | Some _ =>
        let row := read_into n (power_states db !! nt_tool_id n) in
        (with_power_states <[nt_tool_id n := row]> db, inl row)
    end).

Definition get_tool_power_state (tid : uuid) : M (option ToolPowerState) :=
  select (fun db => power_states db !! tid).

Definition list_tool_power_state : M (list ToolPowerState) := list_rows power_states.

Definition all_tool_receptacle_links : M (list (uuid * option uuid)) :=
  select (fun db => (fun kt => (kt.1, receptacle_id kt.2)) <$> map_to_list (tools (base db))).

Definition lock_circuit (locked : bool) (source reason : option string) (at_ : option instant)
    (by_ : option uuid) (c : PowerCircuit) : PowerCircuit := {|
  circuit_row_id := circuit_row_id c; breaker_label := breaker_label c;
  voltage_rating := voltage_rating c; amperage_limit := amperage_limit c;
  parent_circuit_id := parent_circuit_id c; circuit_locked_out := locked;
  circuit_lockout_reason := reason; lockout_source := source; circuit_locked_out_at := at_;
  locked_out_by := by_ |}.

(** Only a circuit that is not locked yet is touched. *)
Definition engage_circuit_lockout (now : instant) (cid : uuid) (source reason : string) : M Z :=
  call (fun db =>
    match circuits db !! cid with
    | Some c =>
        if circuit_locked_out c then (db, inl 0)
        else (with_circuits
          <[cid := lock_circuit true (Some source) (Some reason) (Some now) (locked_out_by c) c]> db,
          inl 1)
    | None => (db, inl 0)
    end).

Definition clear_circuit_lockout (cid : uuid) (by_ : option uuid) : M Z :=
  call (fun db =>
    match circuits db !! cid with
    | Some c => (with_circuits <[cid := lock_circuit false None None None by_ c]> db, inl 1)
    | None => (db, inl 0)
    end).

Definition lock_tool (locked : bool) (reason : option string) (at_ : option instant)
    (s : ToolPowerState) : ToolPowerState := {|
  tps_tool_id := tps_tool_id s; last_draw_amps := last_draw_amps s;
  last_voltage := last_voltage s; reported_max_voltage := reported_max_voltage s;
  reported_amperage_limit := reported_amperage_limit s;
  last_reported_at := last_reported_at s; tool_locked_out := locked;
  tool_lockout_reason := reason; tool_locked_out_at := at_;
  last_relay_on := last_relay_on s; power_evidence_since := power_evidence_since s |}.

(** The row of a tool that has never reported. *)
Definition unread (now : instant) (tid : uuid) : ToolPowerState := {|
  tps_tool_id := tid; last_draw_amps := None; last_voltage := None;
  reported_max_voltage := None; reported_amperage_limit := None; last_reported_at := now;
  tool_locked_out := false; tool_lockout_reason := None; tool_locked_out_at := None;
  last_relay_on := None; power_evidence_since := None |}.

Definition engage_tool_lockout (now : instant) (tid : uuid) (reason : string) : M Z :=
  call (fun db =>
    match tools (base db) !! tid with
    | None => (db, inr ForeignKeyViolation)
    | Some _ =>
        let row := default (unread now tid) (power_states db !! tid) in
        (with_power_states <[tid := lock_tool true (Some reason) (Some now) row]> db, inl 1)
    end).

Definition clear_tool_lockout (tid : uuid) : M Z :=
  call (fun db =>
    match power_states db !! tid with
    | Some s => (with_power_states <[tid := lock_tool false None None s]> db, inl 1)
    | None => (db, inl 0)
    end).

(** ** Draw *)

(** [sum_draw_per_circuit], up to the order of its result: every circuit starts at
    zero, and each reading goes to the circuit its tool hangs on. *)
Definition circuit_of_tool (tool_to_receptacle recep_to_outlet outlet_to_circuit : gmap uuid uuid)
    (tid : uuid) : option uuid :=
  rid ← tool_to_receptacle !! tid;
  oid ← recep_to_outlet !! rid;
  outlet_to_circuit !! oid.

Definition sum_draw_per_circuit (circuit_ids : list uuid) (tool_draws : list (uuid * Q))
    (tool_to_receptacle recep_to_outlet outlet_to_circuit : gmap uuid uuid) : gmap uuid Q :=
  foldl (fun totals td =>
    match circuit_of_tool tool_to_receptacle recep_to_outlet outlet_to_circuit td.1 with
    | None => totals
    | Some cid => <[cid := default 0 (totals !! cid) + td.2]>%Q totals
    end) (list_to_map ((fun c => (c, 0%Q)) <$> circuit_ids)) tool_draws.

Definition overloaded_circuits (candidates : list (uuid * Q * bool)) (totals : gmap uuid Q)
    : list (uuid * Q * Q) :=
  omap (fun '(id, limit, locked) =>
    if (locked : bool) then None
    else let total := default 0%Q (totals !! id) in
         if Qle_bool total limit then None else Some (id, total, limit)) candidates.

(** The three maps a listing of the topology builds. *)
Definition recep_map (rs : list PowerReceptacle) : gmap uuid uuid :=
  list_to_map ((fun r => (receptacle_row_id r, outlet_id r)) <$> rs).
Definition outlet_map (os : list PowerOutlet) : gmap uuid uuid :=
  list_to_map ((fun o => (outlet_row_id o, circuit_id o)) <$> os).
Definition tool_map (links : list (uuid * option uuid)) : gmap uuid uuid :=
  list_to_map (omap (fun tr => (fun r => (tr.1, r)) <$> tr.2) links).

Definition circuit_draw_totals : M (gmap uuid Q) :=
  states ← list_tool_power_state;
  links ← all_tool_receptacle_links;
  rs ← list_power_receptacles;
  os ← list_power_outlets;
  cs ← list_power_circuits;
  mret (sum_draw_per_circuit (circuit_row_id <$> cs)
    (omap (fun s => (fun d => (tps_tool_id s, d)) <$> last_draw_amps s) states)
    (tool_map links) (recep_map rs) (outlet_map os)).

Definition find_opt {A} (table : PowerDb -> gmap uuid A) (k : uuid) : M (option A) :=
  select (fun db => table db !! k).

Definition tool_is_locked_out (tid : uuid) : M bool :=
  own ← find_opt power_states tid;
  if (tool_locked_out <$> own) ≟ Some true then mret true
  else
    t ← find_opt (fun db => tools (base db)) tid;
    match t ≫= receptacle_id with
    | None => mret false
    | Some rid =>
        r ← find_opt receptacles rid;
        match outlet_id <$> r with
        | None => mret false
        | Some oid =>
            o ← find_opt outlets oid;
            match circuit_id <$> o with
            | None => mret false
            | Some cid =>
                c ← find_opt circuits cid;
                mret ((circuit_locked_out <$> c) ≟ Some true)
            end
        end
    end.

Definition overage_reason (total limit : Q) : string :=
  "summed draw " +:+ amps_to_string total +:+ " A exceeds circuit limit " +:+
  amps_to_string limit +:+ " A".

Fixpoint trip_all (now : instant) (over : list (uuid * Q * Q)) : M (list (uuid * Q * Q)) :=
  match over with
  | [] => mret []
  | (id, total, limit) :: over =>
      n ← engage_circuit_lockout now id "server_aggregate" (overage_reason total limit);
      rest ← trip_all now over;
      mret (if 0 <? n then (id, total, limit) :: rest else rest)
  end.

Definition evaluate_circuit_overages (now : instant) : M (list (uuid * Q * Q)) :=
  totals ← circuit_draw_totals;
  cs ← list_power_circuits;
  trip_all now (overloaded_circuits
    ((fun c => (circuit_row_id c, amperage_limit c, circuit_locked_out c)) <$> cs) totals).

(** ** What an edge is told *)

Context (to_rfc3339 : instant -> string).

Definition power_state_snapshot (now : instant) : M PowerStatePayload :=
  cs ← list_power_circuits;
  rs ← list_power_receptacles;
  os ← list_power_outlets;
  states ← list_tool_power_state;
  tool_rows ← select (fun db => map_to_list (tools (base db)));
  let locked_circuits : gset uuid :=
    list_to_set (circuit_row_id <$> List.filter circuit_locked_out cs) in
  let own_locked : gset uuid :=
    list_to_set (tps_tool_id <$> List.filter tool_locked_out states) in
  let tool_circuit := fun t : Tool =>
    rid ← receptacle_id t; oid ← recep_map rs !! rid; outlet_map os !! oid in
  let locked := fun kt : uuid * Tool =>
    bool_decide (kt.1 ∈ own_locked) ||
    is_some_and (tool_circuit kt.2) (fun c => bool_decide (c ∈ locked_circuits)) in
  mret {|
    ps_as_of := to_rfc3339 now;
    locked_tool_ids := (fun kt => uuid_show kt.1) <$> List.filter locked tool_rows;
    ps_circuits := (fun c => {| Wire.circuit_id := uuid_show (circuit_row_id c);
                                Wire.amperage_limit := amps_to_string (amperage_limit c) |}) <$> cs;
    ps_tools := (fun kt => {| pt_id := uuid_show kt.1; pt_external_id := external_id kt.2;
                              pt_circuit_id := uuid_show <$> tool_circuit kt.2 |}) <$> tool_rows |}.

(** ** The handlers

    [admin] is the caller the extractor let in; [enabled] is [power.enabled] of the
    live configuration. *)

Abbreviation H := (Faults.M PowerDb ApiError).

#[export] Instance ApiError_fault : FaultError ApiError := api_error Connection.

Definition require_enabled (enabled : bool) : H unit :=
  if enabled then mret tt
  else throw (Forbidden "Power topology module is disabled in server configuration").

Definition map_power_conflict (e : DatabaseError) : ApiError :=
  match e with
  | UniqueViolation => Conflict "That receptacle is already assigned to another tool"
  | ForeignKeyViolation => Conflict
      "This item is still referenced (a sub-circuit, outlet, or receptacle); move or delete those first"
  | other => api_error other
  end.

(** A lookup whose failure, whatever it is, is the caller's. *)
Definition or_bad_request {A} (message : string) (m : M A) : H A :=
  map_err (fun _ => BadRequest message) m.

Definition power_audit (event : AuditEventType) (admin : uuid) : H unit :=
  map_err api_error (within (audit event admin)).

Record CreateCircuitRequest := {
  cc_breaker_label : string;
  cc_voltage_rating : Z;
  cc_amperage_limit : Q;
  cc_parent_circuit_id : option uuid;
}.

Definition create_circuit (enabled : bool) (admin : uuid) (req : CreateCircuitRequest)
    : H PowerCircuit :=
  _ ← require_enabled enabled;
  unless (trim (cc_breaker_label req) ≟ EmptyString) (BadRequest "breaker_label is required") (
  unless (cc_voltage_rating req <=? 0) (BadRequest "voltage_rating must be positive") (
  unless (Qle_bool (cc_amperage_limit req) 0) (BadRequest "amperage_limit must be positive") (
  _ ← match cc_parent_circuit_id req with
      | Some parent => _ ← or_bad_request "parent_circuit_id does not exist" (get_power_circuit parent);
                       mret tt
      | None => mret tt
      end;
  created ← map_err map_power_conflict (create_power_circuit {|
    np_breaker_label := trim (cc_breaker_label req); np_voltage_rating := cc_voltage_rating req;
    np_amperage_limit := cc_amperage_limit req;
    np_parent_circuit_id := cc_parent_circuit_id req |});
  _ ← power_audit PowerCircuitCreated admin;
  mret created))).

(** The body's [parent_circuit_id] as derived deserialization reads it: a JSON null
    is the outer [None], like a field that is not there; what is no identifier is
    refused. *)
Definition read_parent (field : option json) : option (option (option uuid)) :=
  match field with
  | None | Some JNull => Some None
  | Some (JStr s) => (fun u => Some (Some u)) <$> uuid_parse s
  | Some _ => None
  end.

Definition update_circuit (enabled : bool) (admin id : uuid) (req : UpdatePowerCircuit)
    : H PowerCircuit :=
  _ ← require_enabled enabled;
  _ ← map_err api_error (get_power_circuit id);
  unless (is_some_and (up_voltage_rating req) (fun v => v <=? 0))
    (BadRequest "voltage_rating must be positive") (
  unless (is_some_and (up_amperage_limit req) (fun a => Qle_bool a 0))
    (BadRequest "amperage_limit must be positive") (
  _ ← match up_parent_circuit_id req with
      | Some (Some parent) =>
          unless (parent ≟ id) (BadRequest "A circuit can't be its own upstream trunk") (
          _ ← or_bad_request "parent_circuit_id does not exist" (get_power_circuit parent);
          chain ← map_err api_error (power_circuit_ancestors parent);
          unless (existsb (fun c => circuit_row_id c ≟ id) chain)
            (BadRequest "Change would create a cycle in the circuit hierarchy") (mret tt))
      | _ => mret tt
      end;
  after ← map_err map_power_conflict (update_power_circuit id {|
    up_breaker_label := trim <$> up_breaker_label req; up_voltage_rating := up_voltage_rating req;
    up_amperage_limit := up_amperage_limit req;
    up_parent_circuit_id := up_parent_circuit_id req |});
  _ ← power_audit PowerCircuitUpdated admin;
  mret after)).

Definition delete_circuit (admin id : uuid) : H unit :=
  cs ← map_err api_error list_power_circuits;
  os ← map_err api_error (list_outlets_for_circuit id);
  let child_circuits := length (List.filter (fun c => parent_circuit_id c ≟ Some id) cs) in
  unless ((0 <? child_circuits)%nat || (0 <? length os)%nat)
    (Conflict "This circuit still has sub-circuits or outlets; move or delete them first") (
  deleted ← map_err map_power_conflict (delete_power_circuit id);
  unless (deleted =? 0) (NotFoundError "Circuit not found")
    (power_audit PowerCircuitDeleted admin)).

Definition get_place (pid : uuid) : M unit :=
  call (fun db => (db, if bool_decide (pid ∈ places db) then inl tt else inr NotFound)).

Definition create_outlet (enabled : bool) (admin : uuid) (req : NewPowerOutlet) : H PowerOutlet :=
  _ ← require_enabled enabled;
  unless (trim (no_label req) ≟ EmptyString) (BadRequest "label is required") (
  _ ← or_bad_request "circuit_id does not exist" (get_power_circuit (no_circuit_id req));
  _ ← or_bad_request "place_id does not exist" (get_place (no_place_id req));
  created ← map_err map_power_conflict (create_power_outlet {|
    no_circuit_id := no_circuit_id req; no_place_id := no_place_id req;
    no_label := trim (no_label req); no_location := no_location req |});
  _ ← power_audit PowerOutletCreated admin;
  mret created).

Definition update_outlet (enabled : bool) (admin id : uuid) (req : UpdatePowerOutlet)
    : H PowerOutlet :=
  _ ← require_enabled enabled;
  _ ← map_err api_error (get_power_outlet id);
  _ ← match uo_circuit_id req with
      | Some cid => _ ← or_bad_request "circuit_id does not exist" (get_power_circuit cid); mret tt
      | None => mret tt
      end;
  _ ← match uo_place_id req with
      | Some pid => or_bad_request "place_id does not exist" (get_place pid)
      | None => mret tt
      end;
  after ← map_err map_power_conflict (update_power_outlet id {|
    uo_circuit_id := uo_circuit_id req; uo_place_id := uo_place_id req;
    uo_label := trim <$> uo_label req; uo_location := uo_location req |});
  _ ← power_audit PowerOutletUpdated admin;
  mret after.

Definition delete_outlet (admin id : uuid) : H unit :=
  deleted ← map_err map_power_conflict (delete_power_outlet id);
  unless (deleted =? 0) (NotFoundError "Outlet not found") (power_audit PowerOutletDeleted admin).

Definition create_receptacle (enabled : bool) (admin oid : uuid) (label : string)
    : H PowerReceptacle :=
  _ ← require_enabled enabled;
  unless (trim label ≟ EmptyString) (BadRequest "label is required") (
  _ ← or_bad_request "outlet_id does not exist" (get_power_outlet oid);
  created ← map_err map_power_conflict (create_power_receptacle oid (trim label));
  _ ← power_audit PowerReceptacleCreated admin;
  mret created).

Definition update_receptacle (enabled : bool) (admin id : uuid) (oid : option uuid)
    (label : option string) : H PowerReceptacle :=
  _ ← require_enabled enabled;
  _ ← map_err api_error (get_power_receptacle id);
  _ ← match oid with
      | Some oid => _ ← or_bad_request "outlet_id does not exist" (get_power_outlet oid); mret tt
      | None => mret tt
      end;
  after ← map_err map_power_conflict (update_power_receptacle id oid (trim <$> label));
  _ ← power_audit PowerReceptacleUpdated admin;
  mret after.

Definition delete_receptacle (admin id : uuid) : H unit :=
  deleted ← map_err map_power_conflict (delete_power_receptacle id);
  unless (deleted =? 0) (NotFoundError "Receptacle not found")
    (power_audit PowerReceptacleDeleted admin).

Definition assign_tool_receptacle (now : instant) (enabled : bool) (admin tid : uuid)
    (rid : option uuid) : H unit :=
  _ ← require_enabled enabled;
  _ ← match rid with
      | Some rid => _ ← or_bad_request "receptacle_id does not exist" (get_power_receptacle rid); mret tt
      | None => mret tt
      end;
  changed ← map_err map_power_conflict (assign_receptacle now tid rid);
  unless (changed =? 0) (NotFoundError "Tool not found") (power_audit PowerReceptacleUpdated admin).

(** The two broadcasts at the end send what [power_state_snapshot] and the
    tool-guard payload say; they change no table. *)
Definition reenable_circuit (enabled : bool) (staff id : uuid) : H unit :=
  _ ← require_enabled enabled;
  cleared ← map_err map_power_conflict (clear_circuit_lockout id (Some staff));
  unless (cleared =? 0) (NotFoundError "Circuit not found")
    (power_audit EmergencyLockoutCleared staff).

Definition reenable_tool (enabled : bool) (staff tid : uuid) : H unit :=
  _ ← require_enabled enabled;
  t ← map_err api_error (find_opt (fun db => tools (base db)) tid);
  match t with
  | None => throw (NotFoundError "Tool not found")
  | Some _ =>
      _ ← map_err map_power_conflict (clear_tool_lockout tid);
      power_audit EmergencyLockoutCleared staff
  end.

End Power.
End Power.
