(* ===== verification/PowerTopology.v ===== *)
(** * What the power topology keeps ([server/src/api/power.rs])

    The links of the topology stay sound under every handler whatever its calls
    meet, a lockout holds until staff clear it, an overloaded circuit trips, and an
    edge is told of exactly the tools the server denies. *)
From Stdlib Require Import QArith.
From S2P Require Import Prelude Text Wire Faults Money Database Api Power.
Import Text Faults Money Database Api Power.

Module PowerTopology.

#[local] Open Scope Z_scope.

Section PowerTopology.
Context {U : Uuid} {IS : IdSource} (amps_to_string : Q -> string).
Implicit Types (cs : gmap uuid PowerCircuit).

(** ** The topology

    The links from a circuit to its trunk, as far as they go. *)
Inductive chain (cs : gmap uuid PowerCircuit) : option uuid -> list uuid -> Prop :=
  | chain_top : chain cs None []
  | chain_up k c l : cs !! k = Some c -> chain cs (parent_circuit_id c) l ->
      chain cs (Some k) (k :: l).

(** Every circuit reaches a top-level one: its trunks exist and never come round. *)
Definition rooted (cs : gmap uuid PowerCircuit) : Prop :=
  forall k, is_Some (cs !! k) -> exists l, chain cs (Some k) l.

Definition rated (c : PowerCircuit) : Prop := 0 < voltage_rating c /\ (0 < amperage_limit c)%Q.

Record sound (db : PowerDb) : Prop := {
  sound_circuits : forall k c, circuits db !! k = Some c -> circuit_row_id c = k /\ rated c;
  sound_rooted : rooted (circuits db);
  sound_outlets : forall k o, outlets db !! k = Some o ->
    outlet_row_id o = k /\ is_Some (circuits db !! circuit_id o) /\ place_id o ∈ places db;
  sound_receptacles : forall k r, receptacles db !! k = Some r ->
    receptacle_row_id r = k /\ is_Some (outlets db !! outlet_id r);
  sound_states : forall k s, power_states db !! k = Some s -> tps_tool_id s = k;
  sound_plugs : forall k t rid, tools (base db) !! k = Some t -> receptacle_id t = Some rid ->
    is_Some (receptacles db !! rid);
  sound_single : forall k k' t t' rid, tools (base db) !! k = Some t ->
    tools (base db) !! k' = Some t' -> receptacle_id t = Some rid ->
    receptacle_id t' = Some rid -> k = k';
}.

Lemma chain_functional cs o l l' : chain cs o l -> chain cs o l' -> l = l'.
Proof.
  intros H. revert l'. induction H as [|k c l Hc H IH]; intros l' H'; inversion H'; [done|].
  simplify_eq. f_equal. by apply IH.
Qed.

(** A change of one circuit does not touch a chain that does not pass it. *)
Lemma chain_insert_ne cs o l k c : chain cs o l -> k ∉ l -> chain (<[k := c]> cs) o l.
Proof.
  induction 1 as [|j d l Hd H IH]; intros Hk; [constructor|].
  apply not_elem_of_cons in Hk as [Hk1 Hk2]. econstructor; [|by apply IH].
  by rewrite lookup_insert_ne.
Qed.

(** A chain, cut where it first meets a circuit that now hangs elsewhere. *)
Lemma chain_insert cs k c lp :
  chain cs (parent_circuit_id c) lp -> k ∉ lp ->
  forall o l, chain cs o l -> exists l', chain (<[k := c]> cs) o l'.
Proof.
  intros Hp Hk o l H. induction H as [|j d l Hd H [l' IH]]; [by exists []; constructor|].
  destruct (decide (j = k)) as [->|Hj].
  - exists (k :: lp). econstructor; [by rewrite lookup_insert_eq|]. by apply chain_insert_ne.
  - exists (j :: l'). econstructor; [by rewrite lookup_insert_ne | done].
Qed.

Lemma rooted_insert cs k c lp :
  rooted cs -> chain cs (parent_circuit_id c) lp -> k ∉ lp -> rooted (<[k := c]> cs).
Proof.
  intros Hr Hp Hk j Hj. destruct (decide (j = k)) as [->|Hne].
  - exists (k :: lp). econstructor; [by rewrite lookup_insert_eq|]. by apply chain_insert_ne.
  - rewrite lookup_insert_ne in Hj by done. destruct (Hr j Hj) as [l Hl].
    by eapply chain_insert.
Qed.

(** In a chain, the circuits themselves. *)
Lemma chain_exists cs o l k : chain cs o l -> k ∈ l -> is_Some (cs !! k).
Proof.
  induction 1 as [|j c l Hc H IH]; rewrite ?elem_of_nil, ?elem_of_cons; [done|].
  intros [->|Hin]; [by eexists | by apply IH].
Qed.

(** A chain never passes a circuit twice. *)
Lemma chain_acyclic cs k c l :
  cs !! k = Some c -> chain cs (parent_circuit_id c) l -> k ∉ l.
Proof.
  intros Hc H Hin.
  assert (exists l1 l2, l = l1 ++ k :: l2 /\ chain cs (Some k) (k :: l2)) as (l1 & l2 & El & H2).
  { clear Hc. revert Hin. induction H as [|j d l Hd H IH]; rewrite ?elem_of_nil, ?elem_of_cons;
      [done|]. intros [->|Hin].
    - exists [], l. split; [done|]. by econstructor.
    - destruct (IH Hin) as (l1 & l2 & -> & H2). by exists (j :: l1), l2. }
  assert (k :: l = k :: l2) as E by (eapply chain_functional; [by econstructor | done]).
  apply (f_equal length) in E. rewrite El in E. simpl in E. rewrite length_app in E. simpl in E. lia.
Qed.

(** A change that keeps the parent keeps every chain. *)
Lemma rooted_same_parent cs k c c' :
  rooted cs -> cs !! k = Some c -> parent_circuit_id c' = parent_circuit_id c ->
  rooted (<[k := c']> cs).
Proof.
  intros Hr Hc Hp. destruct (Hr k ltac:(by eexists)) as [l Hl]. inversion Hl; simplify_eq.
  eapply rooted_insert; [done | by rewrite Hp | by eapply chain_acyclic].
Qed.

Lemma rooted_delete cs k :
  rooted cs -> (forall j c, cs !! j = Some c -> parent_circuit_id c <> Some k) ->
  rooted (delete k cs).
Proof.
  intros Hr Hk. assert (forall o l, chain cs o l -> o <> Some k -> chain (delete k cs) o l) as H.
  { induction 1 as [|j c l Hc H IH]; intros Hj; [constructor|]. econstructor.
    - rewrite lookup_delete_ne by congruence. exact Hc.
    - apply IH. by eapply Hk. }
  intros j Hj. destruct (decide (j = k)) as [->|Hne]; [by rewrite lookup_delete_eq in Hj; destruct Hj|].
  rewrite lookup_delete_ne in Hj by done. destruct (Hr j Hj) as [l Hl]. exists l.
  apply H; [done | congruence].
Qed.

(** ** What the walk over the trunks returns *)

Lemma reads_find {A} (table : PowerDb -> gmap uuid A) k :
  reads (find_row table k) (fun db r => table db !! k = Some r).
Proof. apply reads_call. intros db. simpl. by destruct (table db !! k). Qed.

Lemma reads_loop fuel : forall current acc,
  reads (ancestors_loop fuel current acc) (fun db l => sound db ->
    exists up, chain (circuits db) current (circuit_row_id <$> up) /\ l = reverse up ++ acc).
Proof.
  induction fuel as [|fuel IH]; intros [parent|] acc; simpl.
  - apply reads_throw.
  - apply reads_ret. intros db _. exists []. split; [constructor | done].
  - eapply reads_bind; [apply reads_find|]. intros c. eapply reads_weaken; [apply IH|].
    intros db l H Hc Hs. destruct (H Hs) as (up & Hup & ->). exists (c :: up).
    rewrite reverse_cons, <- app_assoc. split; [|done]. simpl.
    destruct (sound_circuits _ Hs _ _ Hc) as [-> _]. by econstructor.
  - apply reads_ret. intros db _. exists []. split; [constructor | done].
Qed.

Lemma reads_ancestors cid :
  reads (power_circuit_ancestors cid) (fun db l => sound db ->
    exists c up, circuits db !! cid = Some c /\
      chain (circuits db) (parent_circuit_id c) (circuit_row_id <$> up) /\ l = reverse up).
Proof.
  eapply reads_bind; [apply reads_find|]. intros c. eapply reads_weaken; [apply reads_loop|].
  intros db l H Hc Hs. destruct (H Hs) as (up & Hup & ->). exists c, up. by rewrite app_nil_r.
Qed.

(** ** Single changes *)

Lemma sound_base db b : sound db -> tools b = tools (base db) -> sound (with_base b db).
Proof. intros [? ? ? ? ? H6 H7] Hb. split; simpl; rewrite ?Hb; done. Qed.

Lemma is_Some_insert {A} (m : gmap uuid A) k j x : is_Some (m !! j) -> is_Some (<[k := x]> m !! j).
Proof. rewrite lookup_insert_is_Some'. tauto. Qed.

Lemma sound_circuit_put db k c lp :
  sound db -> circuit_row_id c = k -> rated c ->
  chain (circuits db) (parent_circuit_id c) lp -> k ∉ lp ->
  sound (with_circuits <[k := c]> db).
Proof.
  intros [H1 H2 H3 H4 H5 H6 H7] Hk Hr Hc Hn. split; simpl; try done.
  - intros j d. rewrite lookup_insert_Some. intros [[<- <-]|[_ H]]; [done | by apply H1].
  - by eapply rooted_insert.
  - intros j o Ho. destruct (H3 j o Ho) as (? & ? & ?). split_and!; [done | by apply is_Some_insert | done].
Qed.

Lemma sound_circuit_change db k c c' :
  sound db -> circuits db !! k = Some c -> circuit_row_id c' = circuit_row_id c -> rated c' ->
  parent_circuit_id c' = parent_circuit_id c -> sound (with_circuits <[k := c']> db).
Proof.
  intros Hs Hc Hid Hr Hp. destruct (sound_rooted _ Hs k ltac:(by eexists)) as [l Hl].
  inversion Hl; simplify_eq. apply sound_circuit_put with (lp := l0); try done.
  - rewrite Hid. by apply (sound_circuits _ Hs).
  - by rewrite Hp.
  - by eapply chain_acyclic.
Qed.

Lemma sound_outlet_put db k o :
  sound db -> outlet_row_id o = k -> is_Some (circuits db !! circuit_id o) -> place_id o ∈ places db ->
  sound (with_outlets <[k := o]> db).
Proof.
  intros [H1 H2 H3 H4 H5 H6 H7] Hk Hc Hp. split; simpl; try done.
  - intros j d. rewrite lookup_insert_Some. intros [[<- <-]|[_ H]]; [done | by apply H3].
  - intros j r Hr. destruct (H4 j r Hr) as (? & ?). split; [done | by apply is_Some_insert].
Qed.

Lemma sound_receptacle_put db k r :
  sound db -> receptacle_row_id r = k -> is_Some (outlets db !! outlet_id r) ->
  sound (with_receptacles <[k := r]> db).
Proof.
  intros [H1 H2 H3 H4 H5 H6 H7] Hk Ho. split; simpl; try done.
  - intros j d. rewrite lookup_insert_Some. intros [[<- <-]|[_ H]]; [done | by apply H4].
  - intros j t rid Ht Hr. apply is_Some_insert. by eapply H6.
Qed.

Lemma sound_state_put db k s :
  sound db -> tps_tool_id s = k -> sound (with_power_states <[k := s]> db).
Proof.
  intros [H1 H2 H3 H4 H5 H6 H7] Hk. split; simpl; try done.
  intros j d. rewrite lookup_insert_Some. intros [[<- <-]|[_ H]]; [done | by apply H5].
Qed.

(** Identifiers handed out are of no row. *)
Lemma sound_insert_row {A} (table : PowerDb -> gmap uuid A) set row db :
  sound db ->
  (forall id db', sound db' -> circuits db' = circuits db -> outlets db' = outlets db ->
    places db' = places db -> table db' !! id = None -> sound (set <[id := row id]> db')) ->
  sound (insert_row table set row db).1.
Proof.
  intros Hs H. unfold insert_row.
  set (db' := with_base _ db). assert (sound db') as Hs' by (by apply sound_base).
  destruct (table db' !! _) eqn:E; [done|]. simpl. by apply H.
Qed.

(** Dropped receptacles leave no tool behind. *)
Lemma sound_drop db gone : sound db -> sound (drop_receptacles gone db).
Proof.
  intros [H1 H2 H3 H4 H5 H6 H7].
  assert (forall k t rid, tools (base (drop_receptacles gone db)) !! k = Some t ->
    receptacle_id t = Some rid -> exists t', tools (base db) !! k = Some t' /\
      receptacle_id t' = Some rid /\ is_some_and (receptacles db !! rid) gone = false) as Hb.
  { intros k t rid. simpl. rewrite lookup_fmap, fmap_Some. intros (t' & Ht & ->). unfold unplug.
    destruct (is_some_and (receptacle_id t') _) eqn:E; simpl; [done|]. intros Hr.
    exists t'. by rewrite Hr in E. }
  split; try done.
  - intros k r. simpl. rewrite map_lookup_filter_Some. intros [Hr _]. by apply H4.
  - intros k t rid Ht Hr. destruct (Hb k t rid Ht Hr) as (t' & Ht' & Hr' & Hg).
    destruct (H6 k t' rid Ht' Hr') as [r Er]. simpl. exists r.
    rewrite map_lookup_filter_Some. rewrite Er in Hg. by split.
  - intros k k' t t' rid Ht Ht' Hr Hr'. destruct (Hb _ _ _ Ht Hr) as (t1 & ? & ? & _).
    destruct (Hb _ _ _ Ht' Hr') as (t2 & ? & ? & _). by eapply H7.
Qed.

Lemma sound_delete_outlet db oid :
  sound db -> sound (with_outlets (delete oid) (drop_receptacles (fun r => outlet_id r ≟ oid) db)).
Proof.
  intros Hs. pose proof (sound_drop db (fun r => outlet_id r ≟ oid) Hs) as [H1 H2 H3 H4 H5 H6 H7].
  split; try done.
  - intros k o. cbn [outlets with_outlets]. rewrite lookup_delete_Some. intros [_ H]. by apply H3.
  - intros k r Hr. destruct (H4 k r Hr) as [Hk [o Ho]]. split; [done|].
    cbn [outlets with_outlets]. rewrite lookup_delete_ne; [by exists o|]. intros ->.
    cbn in Hr. rewrite map_lookup_filter_Some in Hr. destruct Hr as [_ Hr]. simpl in Hr.
    by apply bool_decide_eq_false in Hr.
Qed.

Lemma sound_delete_circuit db cid :
  sound db -> circuit_in_use cid db = false -> sound (with_circuits (delete cid) db).
Proof.
  unfold circuit_in_use. intros [H1 H2 H3 H4 H5 H6 H7] Hu. apply orb_false_iff in Hu as [Hc Ho].
  assert (forall k c, circuits db !! k = Some c -> parent_circuit_id c <> Some cid) as Hc'.
  { intros k c Hk Hp. apply not_true_iff_false in Hc. apply Hc, existsb_exists. exists c.
    split; [|by apply bool_decide_eq_true]. apply list_elem_of_In, list_elem_of_fmap.
    exists (k, c). by rewrite elem_of_map_to_list. }
  split; try done.
  - intros k c. simpl. rewrite lookup_delete_Some. intros [_ H]. by apply H1.
  - by apply rooted_delete.
  - intros k o Hk. destruct (H3 k o Hk) as (? & ? & ?). split_and!; [done| |done].
    simpl. rewrite lookup_delete_ne; [done|]. intros E. apply not_true_iff_false in Ho.
    apply Ho, existsb_exists. exists o. split; [|by apply bool_decide_eq_true].
    apply list_elem_of_In, list_elem_of_fmap. exists (k, o). by rewrite elem_of_map_to_list.
Qed.

Lemma sound_plug now db tid t rid :
  sound db -> tools (base db) !! tid = Some t ->
  is_none_or rid (fun r => is_some (receptacles db !! r)) = true ->
  is_some_and rid (fun r => receptacle_taken r tid db) = false ->
  sound (with_base (with_tools <[tid := set_receptacle rid now t]> (base db)) db).
Proof.
  intros [H1 H2 H3 H4 H5 H6 H7] Ht Hr Hn.
  assert (forall k t' r, tools (base db) !! k = Some t' -> receptacle_id t' = Some r ->
    rid = Some r -> k = tid) as Hfree.
  { intros k t' r Hk Hkr ->. apply dec_stable. intros Hne. apply not_true_iff_false in Hn.
    apply Hn, existsb_exists. exists (k, t'). split; [by apply list_elem_of_In, elem_of_map_to_list|].
    simpl. rewrite Hkr. by rewrite bool_decide_eq_true_2, bool_decide_eq_false_2. }
  split; simpl; try done.
  - intros k t' r. rewrite lookup_insert_Some. intros [[<- <-]|[_ Hk]]; [|by eapply H6].
    simpl. intros ->. simpl in Hr. by destruct (receptacles db !! r).
  - intros k k' t1 t2 r. rewrite !lookup_insert_Some.
    intros [[<- <-]|[Hk1 Hk]] [[<- <-]|[Hk2 Hk']]; simpl; intros Hr1 Hr2; try done.
    + symmetry. by apply (Hfree k' t2 r).
    + by apply (Hfree k t1 r).
    + by eapply H7.
Qed.

(** ** Every operation *)

Inductive request : Type :=
  | CreateCircuit (enabled : bool) (admin : uuid) (req : CreateCircuitRequest)
  | UpdateCircuit (enabled : bool) (admin id : uuid) (req : UpdatePowerCircuit)
  | DeleteCircuit (admin id : uuid)
  | CreateOutlet (enabled : bool) (admin : uuid) (req : NewPowerOutlet)
  | UpdateOutlet (enabled : bool) (admin id : uuid) (req : UpdatePowerOutlet)
  | DeleteOutlet (admin id : uuid)
  | CreateReceptacle (enabled : bool) (admin oid : uuid) (label : string)
  | UpdateReceptacle (enabled : bool) (admin id : uuid) (oid : option uuid) (label : option string)
  | DeleteReceptacle (admin id : uuid)
  | AssignReceptacle (now : instant) (enabled : bool) (admin tid : uuid) (rid : option uuid)
  | ReenableCircuit (enabled : bool) (staff id : uuid)
  | ReenableTool (enabled : bool) (staff tid : uuid)
  | Reading (n : NewToolPowerState)
  | SelfTrip (now : instant) (tid : uuid) (reason : string)
  | EdgeTrip (now : instant) (cid : uuid) (source reason : string)
  | Overages (now : instant).

Definition handle (r : request) : Faults.M PowerDb ApiError unit :=
  match r with
  | CreateCircuit enabled admin req => _ ← create_circuit enabled admin req; mret tt
  | UpdateCircuit enabled admin id req => _ ← update_circuit enabled admin id req; mret tt
  | DeleteCircuit admin id => delete_circuit admin id
  | CreateOutlet enabled admin req => _ ← create_outlet enabled admin req; mret tt
  | UpdateOutlet enabled admin id req => _ ← update_outlet enabled admin id req; mret tt
  | DeleteOutlet admin id => delete_outlet admin id
  | CreateReceptacle enabled admin oid label =>
      _ ← create_receptacle enabled admin oid label; mret tt
  | UpdateReceptacle enabled admin id oid label =>
      _ ← update_receptacle enabled admin id oid label; mret tt
  | DeleteReceptacle admin id => delete_receptacle admin id
  | AssignReceptacle now enabled admin tid rid => assign_tool_receptacle now enabled admin tid rid
  | ReenableCircuit enabled staff id => reenable_circuit enabled staff id
  | ReenableTool enabled staff tid => reenable_tool enabled staff tid
  | Reading n => _ ← map_err api_error (upsert_tool_power_state n); mret tt
  | SelfTrip now tid reason => _ ← map_err api_error (engage_tool_lockout now tid reason); mret tt
  | EdgeTrip now cid source reason =>
      _ ← map_err api_error (engage_circuit_lockout now cid source reason); mret tt
  | Overages now => _ ← map_err api_error (evaluate_circuit_overages amps_to_string now); mret tt
  end.

(** *** What any invariant of the power tables needs of the shared steps *)

Lemma keeps_require_enabled I b : keeps I (require_enabled b).
Proof. destruct b; [apply keeps_ret | apply keeps_throw]. Qed.

Lemma keeps_find {A} I (table : PowerDb -> gmap uuid A) k : keeps I (find_row table k).
Proof. eapply keeps_reads, reads_find. Qed.

Lemma keeps_ancestors I cid : keeps I (power_circuit_ancestors cid).
Proof. eapply keeps_reads, reads_ancestors. Qed.

Lemma reads_place pid : reads (get_place pid) (fun db _ => pid ∈ places db).
Proof. apply reads_call. intros db. simpl. by case_bool_decide. Qed.

(** An invariant that does not look at the records: audits may pass it. *)
Definition audit_free (I : PowerDb -> Prop) : Prop :=
  forall db b, tools b = tools (base db) -> I db -> I (with_base b db).

Lemma keeps_power_audit I event admin : audit_free I -> keeps I (power_audit event admin).
Proof.
  intros H. apply keeps_map_err. intros db fs Hi _.
  assert (triple (fun b => tools b = tools (base db)) (fun _ => True) (audit event admin)
    (fun _ _ => True)) as Ht.
  { apply keeps_bind; [|intros; apply keeps_ret]. apply keeps_attempt, keeps_call. by intros b. }
  specialize (Ht (base db) fs eq_refl Logic.I). unfold within. simpl.
  destruct (audit event admin (base db, fs)) as [[b fs'] r]. destruct Ht as [Ht _].
  split; [by apply H | by destruct r].
Qed.

#[local] Hint Resolve keeps_unless keeps_require_enabled keeps_find keeps_ancestors
  keeps_power_audit : css.
#[local] Hint Extern 2 (keeps _ (or_bad_request _ _)) => apply keeps_map_err : css.
#[local] Hint Extern 2 (keeps _ (get_place _)) => eapply keeps_reads, reads_place : css.

Lemma sound_audit_free : audit_free sound.
Proof. intros db b Hb Hs. by apply sound_base. Qed.
#[local] Hint Resolve sound_audit_free : css.

Lemma keeps_sound_create_circuit n :
  0 < np_voltage_rating n -> (0 < np_amperage_limit n)%Q -> keeps sound (create_power_circuit n).
Proof.
  intros Hv Ha. apply keeps_call. intros db Hs. destruct (is_none_or _ _) eqn:E; [|done].
  apply sound_insert_row; [done|]. intros id db' Hs' Hc _ _ Hid.
  assert (exists lp, chain (circuits db') (np_parent_circuit_id n) lp) as [lp Hlp].
  { rewrite Hc. destruct (np_parent_circuit_id n) as [p|]; [|exists []; constructor].
    apply (sound_rooted _ Hs). simpl in E. by destruct (circuits db !! p). }
  eapply sound_circuit_put; try done. intros Hin. destruct (chain_exists _ _ _ _ Hlp Hin).
  congruence.
Qed.

Lemma keeps_sound_create_outlet n : keeps sound (create_power_outlet n).
Proof.
  apply keeps_call. intros db Hs. destruct (_ && _) eqn:E; [|done]. split_andb.
  apply sound_insert_row; [done|]. intros id db' Hs' Hc _ Hp Hid.
  apply sound_outlet_put; simpl; rewrite ?Hc, ?Hp; try done. by destruct (circuits db !! _).
Qed.

Lemma keeps_sound_create_receptacle oid label : keeps sound (create_power_receptacle oid label).
Proof.
  apply keeps_call. intros db Hs. destruct (is_some _) eqn:E; [|done].
  apply sound_insert_row; [done|]. intros id db' Hs' _ Ho _ Hid.
  apply sound_receptacle_put; simpl; rewrite ?Ho; try done. by destruct (outlets db !! _).
Qed.

Lemma keeps_sound_update_outlet oid u : keeps sound (update_power_outlet oid u).
Proof.
  apply keeps_call. intros db Hs. destruct (outlets db !! oid) as [o|] eqn:Eo; [|done].
  destruct (_ && _) eqn:E; [|done]. split_andb. destruct (sound_outlets _ Hs _ _ Eo) as (H1 & H2 & H3).
  apply sound_outlet_put; simpl; try done.
  - destruct (uo_circuit_id u) as [c|]; [|done]. simpl in *. by destruct (circuits db !! c).
  - destruct (uo_place_id u) as [p|]; [|done]. simpl in *. by split_andb.
Qed.

Lemma keeps_sound_update_receptacle rid oid label :
  keeps sound (update_power_receptacle rid oid label).
Proof.
  apply keeps_call. intros db Hs. destruct (receptacles db !! rid) as [r|] eqn:Er; [|done].
  cbn zeta. destruct (is_none_or _ _) eqn:E; [|done].
  destruct (sound_receptacles _ Hs _ _ Er) as (H1 & H2).
  apply sound_receptacle_put; simpl; try done.
  destruct oid as [o|]; [|done]. simpl in *. by destruct (outlets db !! o).
Qed.

Lemma keeps_sound_assign now tid rid : keeps sound (assign_receptacle now tid rid).
Proof.
  apply keeps_call. intros db Hs. destruct (tools (base db) !! tid) as [t|] eqn:Et; [|done].
  destruct (is_none_or _ _) eqn:E1; [|done]. destruct (is_some_and _ _) eqn:E2; [done|].
  by apply sound_plug.
Qed.

Lemma keeps_sound_lock cid locked source reason at_ by_ :
  forall db c, sound db -> circuits db !! cid = Some c ->
    sound (with_circuits <[cid := lock_circuit locked source reason at_ by_ c]> db).
Proof.
  intros db c Hs Hc. eapply sound_circuit_change; [done..| |done].
  apply (sound_circuits _ Hs) in Hc. tauto.
Qed.

Lemma keeps_sound_engage now cid source reason : keeps sound (engage_circuit_lockout now cid source reason).
Proof.
  apply keeps_call. intros db Hs. destruct (circuits db !! cid) as [c|] eqn:Ec; [|done].
  destruct (circuit_locked_out c); [done|]. by apply keeps_sound_lock.
Qed.

Lemma keeps_sound_trip_all now over : keeps sound (trip_all amps_to_string now over).
Proof.
  induction over as [|[[id total] limit] over IH]; [apply keeps_ret|]. simpl.
  apply keeps_bind; [apply keeps_sound_engage|]. intros n. apply keeps_bind; [done|].
  intros. apply keeps_ret.
Qed.

(** The new parent is not under the circuit. *)
Lemma triple_update_circuit id u :
  triple sound (fun db => (forall v, up_voltage_rating u = Some v -> 0 < v) /\
      (forall a, up_amperage_limit u = Some a -> (0 < a)%Q) /\
      (forall p, up_parent_circuit_id u = Some (Some p) ->
        exists l, chain (circuits db) (Some p) l /\ id ∉ l))
    (update_power_circuit id u) (fun _ _ => True).
Proof.
  apply triple_call. intros db Hs (Hv & Ha & Hp).
  destruct (circuits db !! id) as [c|] eqn:Ec; [|done]. destruct (parent_exists _ _) eqn:E; [|done].
  split; [|done]. simpl. destruct (sound_circuits _ Hs _ _ Ec) as [Hid [Hr1 Hr2]].
  assert (rated (change_circuit u c)) as Hr.
  { split; simpl; [destruct (up_voltage_rating u); simpl | destruct (up_amperage_limit u); simpl]; auto. }
  destruct (up_parent_circuit_id u) as [[p|]|] eqn:Eu.
  - destruct (Hp p eq_refl) as (l & Hl & Hn). apply sound_circuit_put with (lp := l); try done.
    simpl. by rewrite Eu.
  - apply sound_circuit_put with (lp := []); try done; [|apply not_elem_of_nil].
    simpl. rewrite Eu. constructor.
  - eapply sound_circuit_change; try done. simpl. by rewrite Eu.
Qed.

(** The guard of an update: the new parent's trunks do not pass the circuit. *)
Definition parent_guard (id : uuid) (u : option (option uuid)) : Faults.M PowerDb ApiError unit :=
  match u with
  | Some (Some parent) =>
      unless (parent ≟ id) (BadRequest "A circuit can't be its own upstream trunk") (
      _ ← or_bad_request "parent_circuit_id does not exist" (get_power_circuit parent);
      chain ← map_err api_error (power_circuit_ancestors parent);
      unless (existsb (fun c => circuit_row_id c ≟ id) chain)
        (BadRequest "Change would create a cycle in the circuit hierarchy") (mret tt))
  | _ => mret tt
  end.

Lemma reads_parent_guard id u :
  reads (parent_guard id u) (fun db _ => sound db -> forall p, u = Some (Some p) ->
    exists l, chain (circuits db) (Some p) l /\ id ∉ l).
Proof.
  destruct u as [[parent|]|]; simpl; [|by apply reads_ret..].
  eapply (reads_weaken _ (fun db (_ : unit) => (parent ≟ id) = false /\ (sound db -> exists l,
    chain (circuits db) (Some parent) (parent :: l) /\ id ∉ l))).
  - apply reads_unless. eapply reads_bind; [apply reads_map_err, reads_find|]. intros c0.
    eapply (reads_weaken _ (fun db (_ : unit) => sound db -> exists l,
      chain (circuits db) (Some parent) (parent :: l) /\ id ∉ l)); [|by intros db [] H _].
    eapply reads_bind; [apply reads_map_err, reads_ancestors|]. intros ups.
    eapply reads_weaken; [apply reads_unless, (reads_ret _ (fun _ _ => True)); done|].
    intros db [] [He _] H Hs. destruct (H Hs) as (c & up & Hc & Hch & ->).
    exists (circuit_row_id <$> up). split; [by econstructor|].
    intros Hin. apply list_elem_of_fmap in Hin as (d & -> & Hd).
    apply not_true_iff_false in He. apply He, existsb_exists. exists d.
    split; [by apply list_elem_of_In, elem_of_reverse | by apply bool_decide_eq_true].
  - intros db [] [Hne H] Hs p Ep. simplify_eq. destruct (H Hs) as (l & Hl & Hn).
    exists (p :: l). split; [done|]. apply bool_decide_eq_false in Hne.
    rewrite not_elem_of_cons. split; [congruence | done].
Qed.

Lemma keeps_sound_update_circuit enabled admin id req : keeps sound (update_circuit enabled admin id req).
Proof.
  unfold update_circuit. apply keeps_bind; [auto with css|]. intros [].
  apply keeps_bind; [apply keeps_map_err, keeps_find|]. intros _. unfold unless.
  destruct (is_some_and (up_voltage_rating req) _) eqn:Ev; [apply keeps_throw|].
  destruct (is_some_and (up_amperage_limit req) _) eqn:Ea; [apply keeps_throw|].
  eapply triple_bind; [apply (triple_reads _ _ _ _ (reads_parent_guard id _))|]. intros [].
  apply triple_bind with (R := fun _ _ => True);
    [|intros after; apply triple_keeps, keeps_bind; [auto with css | intros; apply keeps_ret]].
  apply triple_map_err. eapply triple_weaken; [apply triple_update_circuit| |done].
  intros db Hs [_ H]. split_and!; simpl.
  - intros v Hv. rewrite Hv in Ev. simpl in Ev. lia.
  - intros a Ha. rewrite Ha in Ea. simpl in Ea. apply not_true_iff_false in Ea.
    apply Qnot_le_lt. intros Hle. by apply Ea, Qle_bool_iff.
  - by apply H.
Qed.

#[local] Hint Resolve keeps_sound_create_outlet keeps_sound_create_receptacle
  keeps_sound_update_outlet keeps_sound_update_receptacle keeps_sound_assign keeps_sound_engage
  keeps_sound_trip_all keeps_sound_update_circuit : css.

Lemma keeps_list {A} I (table : PowerDb -> gmap uuid A) : keeps I (list_rows table).
Proof. apply keeps_select. Qed.
#[local] Hint Resolve keeps_list : css.
#[local] Hint Extern 1 (keeps _ (get_power_circuit _)) => apply keeps_find : css.
#[local] Hint Extern 1 (keeps _ (get_power_outlet _)) => apply keeps_find : css.
#[local] Hint Extern 1 (keeps _ (get_power_receptacle _)) => apply keeps_find : css.
#[local] Hint Extern 1 (keeps _ list_power_circuits) => apply keeps_select : css.
#[local] Hint Extern 1 (keeps _ (list_outlets_for_circuit _)) => apply keeps_select : css.
#[local] Hint Extern 1 (keeps _ (find_opt _ _)) => apply keeps_select : css.

(** C26. The topology stays sound: whatever request comes and whatever its calls meet,
    every circuit's trunks lead to a top-level circuit and never round, links point
    at rows that are there, ratings stay positive, and a receptacle feeds one tool. *)
Theorem topology_stays_sound r : keeps sound (handle r).
Proof.
  destruct r; simpl; try (apply keeps_bind; [|intros; apply keeps_ret]); auto with css.
  - unfold create_circuit, unless. run_keeps. apply keeps_map_err, keeps_sound_create_circuit; simpl.
    + lia.
    + apply Qnot_le_lt. intros Hle. apply Qle_bool_iff in Hle. congruence.
  - unfold delete_circuit, unless. run_keeps. apply keeps_map_err, keeps_call. intros db Hs.
    destruct (circuit_in_use id db) eqn:E; [done|]. by apply sound_delete_circuit.
  - unfold create_outlet. run_keeps. apply keeps_unless. run_keeps.
  - unfold update_outlet. run_keeps.
  - unfold delete_outlet, unless. run_keeps. apply keeps_map_err, keeps_call. intros db Hs.
    by apply sound_delete_outlet.
  - unfold create_receptacle. run_keeps. apply keeps_unless. run_keeps.
  - unfold update_receptacle. run_keeps.
  - unfold delete_receptacle, unless. run_keeps. apply keeps_map_err, keeps_call. intros db Hs.
    by apply sound_drop.
  - unfold assign_tool_receptacle, unless. run_keeps.
  - unfold reenable_circuit, unless. run_keeps. apply keeps_map_err, keeps_call. intros db Hs.
    destruct (circuits db !! id) eqn:E; [|done]. by apply keeps_sound_lock.
  - unfold reenable_tool. run_keeps. apply keeps_map_err, keeps_call. intros db Hs.
    destruct (power_states db !! tid) eqn:E; [|done]. apply sound_state_put; [done|].
    simpl. by apply (sound_states _ Hs).
  - apply keeps_map_err, keeps_call. intros db Hs.
    destruct (tools (base db) !! nt_tool_id n) eqn:E; [|done]. by apply sound_state_put.
  - apply keeps_map_err, keeps_call. intros db Hs.
    destruct (tools (base db) !! tid) eqn:E; [|done]. apply sound_state_put; [done|].
    destruct (power_states db !! tid) eqn:Es; [|done]. simpl. by apply (sound_states _ Hs).
  - apply keeps_map_err. unfold evaluate_circuit_overages, circuit_draw_totals,
      list_tool_power_state, list_power_receptacles, list_power_outlets, list_power_circuits,
      all_tool_receptacle_links. run_keeps.
Qed.

(** ** Lockouts *)

(** A circuit, or a tool, held in lockout. *)
Definition latched (x : uuid + uuid) (db : PowerDb) : Prop :=
  match x with
  | inl cid => exists c, circuits db !! cid = Some c /\ circuit_locked_out c = true
  | inr tid => exists s, power_states db !! tid = Some s /\ tool_locked_out s = true
  end.

(** The requests that may end it, both of them a person's. *)
Definition releases (x : uuid + uuid) (r : request) : Prop :=
  match x, r with
  | inl cid, ReenableCircuit _ _ id | inl cid, DeleteCircuit _ id => id = cid
  | inr tid, ReenableTool _ _ id => id = tid
  | _, _ => False
  end.

Lemma latched_same x db db' :
  circuits db' = circuits db -> power_states db' = power_states db -> latched x db -> latched x db'.
Proof. intros H1 H2. destruct x; simpl; by rewrite ?H1, ?H2. Qed.

Lemma latched_circuit x db k c :
  (circuits db !! k = None \/ circuit_locked_out c = true \/
   exists c0, circuits db !! k = Some c0 /\ circuit_locked_out c = circuit_locked_out c0) ->
  latched x db -> latched x (with_circuits <[k := c]> db).
Proof.
  intros Hc. destruct x as [cid|tid]; [|done]. simpl. intros (d & Hd & Hl).
  destruct (decide (k = cid)) as [->|Hne].
  - exists c. rewrite lookup_insert_eq. split; [done|]. destruct Hc as [H|[H|(c0 & H1 & H2)]]; congruence.
  - exists d. by rewrite lookup_insert_ne.
Qed.

Lemma latched_state x db k s :
  (tool_locked_out s = true \/ power_states db !! k = None \/
   exists s0, power_states db !! k = Some s0 /\ tool_locked_out s = tool_locked_out s0) ->
  latched x db -> latched x (with_power_states <[k := s]> db).
Proof.
  intros Hc. destruct x as [cid|tid]; [done|]. simpl. intros (d & Hd & Hl).
  destruct (decide (k = tid)) as [->|Hne].
  - exists s. rewrite lookup_insert_eq. split; [done|]. destruct Hc as [H|[H|(c0 & H1 & H2)]]; congruence.
  - exists d. by rewrite lookup_insert_ne.
Qed.

Lemma latched_audit_free x : audit_free (latched x).
Proof. intros db b _. by apply latched_same. Qed.
#[local] Hint Resolve latched_audit_free : css.

(** An operation that touches neither circuits nor readings. *)
Lemma keeps_latched_call {A} x (f : PowerDb -> PowerDb * (A + DatabaseError)) :
  (forall db, circuits (f db).1 = circuits db /\ power_states (f db).1 = power_states db) ->
  keeps (latched x) (call f).
Proof. intros H. apply keeps_call. intros db. by apply latched_same; apply H. Qed.

Lemma keeps_latched_engage x now cid source reason :
  keeps (latched x) (engage_circuit_lockout now cid source reason).
Proof.
  apply keeps_call. intros db Hl. destruct (circuits db !! cid) as [c|] eqn:Ec; [|done].
  destruct (circuit_locked_out c); [done|]. apply latched_circuit; [|done]. right. by left.
Qed.
#[local] Hint Resolve keeps_latched_engage : css.

Lemma keeps_latched_trip_all x now over : keeps (latched x) (trip_all amps_to_string now over).
Proof.
  induction over as [|[[id total] limit] over IH]; [apply keeps_ret|]. simpl.
  apply keeps_bind; [auto with css|]. intros n. apply keeps_bind; [done|]. intros. apply keeps_ret.
Qed.

Lemma latched_insert_circuit x db n :
  latched x db -> latched x (insert_row circuits with_circuits (fun id => circuit_of id n) db).1.
Proof.
  intros Hl. unfold insert_row. simpl. destruct (circuits db !! _) eqn:E; simpl.
  - by apply (latched_same x db).
  - apply latched_circuit; [by left | by apply (latched_same x db)].
Qed.

(** Case analysis on what a table operation does, for the untouched tables. *)
Ltac untouched :=
  apply keeps_map_err, keeps_latched_call; intros db; unfold insert_row;
  repeat case_match; simpl; done.

(** C27. A lockout holds: readings, trips and every change of the topology leave a
    locked circuit or tool locked, whatever their calls meet; only staff re-enabling
    it, or an administrator deleting the circuit itself, end it. *)
Theorem lockout_latches x r : ~ releases x r -> keeps (latched x) (handle r).
Proof.
  intros Hr. destruct r; simpl; try (apply keeps_bind; [|intros; apply keeps_ret]); auto with css.
  - unfold create_circuit, unless. run_keeps. apply keeps_map_err, keeps_call. intros db Hl.
    destruct (is_none_or _ _); [|done]. by apply latched_insert_circuit.
  - unfold update_circuit, unless. run_keeps. apply keeps_map_err, keeps_call. intros db Hl.
    destruct (circuits db !! id) as [c|] eqn:Ec; [|done]. destruct (parent_exists _ _); [|done].
    apply latched_circuit; [|done]. right. right. by exists c.
  - unfold delete_circuit, unless. run_keeps. apply keeps_map_err, keeps_call. intros db Hl.
    destruct (circuit_in_use id db); [done|]. destruct x as [cid|tid]; [|done].
    destruct Hl as (c & Hc & Hl). exists c. simpl. rewrite lookup_delete_ne; [done|]. by simpl in Hr.
  - unfold create_outlet, unless. run_keeps. untouched.
  - unfold update_outlet. run_keeps. untouched.
  - unfold delete_outlet, unless. run_keeps. untouched.
  - unfold create_receptacle, unless. run_keeps. untouched.
  - unfold update_receptacle. run_keeps. untouched.
  - unfold delete_receptacle, unless. run_keeps. untouched.
  - unfold assign_tool_receptacle, unless. run_keeps; untouched.
  - unfold reenable_circuit, unless. run_keeps. apply keeps_map_err, keeps_call. intros db Hl.
    destruct (circuits db !! id) eqn:E; [|done]. destruct x as [cid|tid]; [|done].
    destruct Hl as (d & Hd & Hl). exists d. simpl. rewrite lookup_insert_ne; [done|]. by simpl in Hr.
  - unfold reenable_tool. run_keeps. apply keeps_map_err, keeps_call. intros db Hl.
    destruct (power_states db !! tid) eqn:E; [|done]. destruct x as [cid|tid']; [done|].
    destruct Hl as (d & Hd & Hl). exists d. simpl. rewrite lookup_insert_ne; [done|]. by simpl in Hr.
  - apply keeps_map_err, keeps_call. intros db Hl.
    destruct (tools (base db) !! nt_tool_id n) eqn:E; [|done]. apply latched_state; [|done].
    right. destruct (power_states db !! nt_tool_id n) eqn:Es; [right; by eexists | by left].
  - apply keeps_map_err, keeps_call. intros db Hl.
    destruct (tools (base db) !! tid) eqn:E; [|done]. apply latched_state; [by left | done].
  - apply keeps_map_err. unfold evaluate_circuit_overages, circuit_draw_totals,
      list_tool_power_state, list_power_receptacles, list_power_outlets, list_power_circuits,
      all_tool_receptacle_links. run_keeps. apply keeps_latched_trip_all.
Qed.

(** ** Runs without faults *)

Lemma run_bind {D E A B} {F : FaultError E} (m : Faults.M D E A) (k : A -> Faults.M D E B) db :
  (m (db, [])).1.2 = [] ->
  run (m ≫= k) db = match run m db with (db, inl x) => run (k x) db | (db, inr e) => (db, inr e) end.
Proof.
  unfold run, mbind, M_bind. destruct (m (db, [])) as [[db' fs] [x|e]]; simpl; intros ->; [|done].
  by destruct (k x (db', [])) as [[] ?].
Qed.

Lemma run_loop db : sound db -> forall fuel up current acc,
  chain (circuits db) current (circuit_row_id <$> up) ->
  Forall (fun c => circuits db !! circuit_row_id c = Some c) up ->
  ancestors_loop fuel current acc (db, []) =
    (db, [], if (length up <=? fuel)%nat then inl (reverse up ++ acc)
             else inr (OtherError "power circuit ancestor chain exceeded 32 levels")).
Proof.
  intros Hs fuel. induction fuel as [|fuel IH]; intros up current acc Hch Hup;
    inversion Hch as [E1 E2|k c l Hc Hl E1 E2]; subst.
  - by destruct up.
  - by destruct up.
  - by destruct up.
  - destruct up as [|d up]; [done|]. injection E2 as Ek El. subst.
    apply Forall_cons in Hup as [Hd Hup]. rewrite Hd in Hc. injection Hc as <-.
    cbn [ancestors_loop]. unfold mbind, M_bind, get_power_circuit, find_row, call. rewrite Hd.
    rewrite (IH up _ (d :: acc)) by done. cbn [length Nat.leb]. case_match; [|done].
    by rewrite reverse_cons, <- app_assoc.
Qed.

(** The circuits of a chain. *)
Lemma chain_rows db o l : sound db -> chain (circuits db) o l ->
  exists up, l = circuit_row_id <$> up /\
    Forall (fun c => circuits db !! circuit_row_id c = Some c) up.
Proof.
  intros Hs. induction 1 as [|k c l Hc H (up & -> & Hup)]; [by exists []|].
  exists (c :: up). destruct (sound_circuits _ Hs _ _ Hc) as [E _]. simpl. rewrite E.
  split; [done|]. constructor; [by rewrite E | done].
Qed.

(** The trunks of a circuit are found, top first, and all of them: the walk ends
    because the topology is sound, and it refuses only a chain of more than 32. *)
Theorem power_circuit_ancestors_complete db cid c :
  sound db -> circuits db !! cid = Some c ->
  exists up, chain (circuits db) (Some cid) (cid :: (circuit_row_id <$> up)) /\
    run (power_circuit_ancestors cid) db =
      (db, if (length up <=? 32)%nat then inl (reverse up)
           else inr (OtherError "power circuit ancestor chain exceeded 32 levels")).
Proof.
  intros Hs Hc. destruct (sound_rooted _ Hs cid ltac:(by eexists)) as [l Hl].
  inversion Hl as [|k d l' Hd Hl']; simplify_eq.
  destruct (chain_rows _ _ _ Hs Hl') as (up & -> & Hup). exists up. split; [done|].
  unfold run, power_circuit_ancestors, mbind, M_bind, get_power_circuit, find_row, call.
  rewrite Hc. rewrite (run_loop db Hs 32 up _ []) by done. by rewrite app_nil_r.
Qed.

(** *** What the listings say *)

Lemma rows_map {A B} (m : gmap uuid A) (id : A -> uuid) (f : A -> B) :
  (forall k x, m !! k = Some x -> id x = k) ->
  list_to_map ((fun r => (id r, f r)) <$> (map_to_list m).*2) = f <$> m.
Proof.
  intros H. rewrite <- (list_to_map_to_list (f <$> m)), map_to_list_fmap.
  f_equal. rewrite <- list_fmap_compose. apply list_fmap_ext. intros i [k x] Hx. simpl.
  apply list_elem_of_lookup_2, elem_of_map_to_list, H in Hx. by rewrite Hx.
Qed.

Lemma elem_of_plugs (m : gmap uuid Tool) tid r :
  (tid, r) ∈ omap (fun tr => (fun r => (tr.1, r)) <$> tr.2)
    ((fun kt => (kt.1, receptacle_id kt.2)) <$> map_to_list m) <->
  (t ← m !! tid; receptacle_id t) = Some r.
Proof.
  rewrite list_elem_of_omap. split.
  - intros ([k o] & Hx & He). apply list_elem_of_fmap in Hx as ([k' t] & Ek & Ht).
    injection Ek as -> ->. apply elem_of_map_to_list in Ht. simpl in He.
    destruct (receptacle_id t) as [r'|] eqn:Er; [|done]. injection He as -> ->.
    simpl. by rewrite Ht.
  - intros H. destruct (m !! tid) as [t|] eqn:Et; [|done]. simpl in H.
    exists (tid, Some r). split; [|done]. apply list_elem_of_fmap. exists (tid, t).
    rewrite elem_of_map_to_list. simpl. by rewrite H.
Qed.

Lemma tool_map_lookup (m : gmap uuid Tool) tid :
  tool_map ((fun kt => (kt.1, receptacle_id kt.2)) <$> map_to_list m) !! tid =
  (t ← m !! tid; receptacle_id t).
Proof.
  apply option_eq. intros r. unfold tool_map. rewrite <- elem_of_list_to_map', elem_of_plugs; [done|].
  intros x'. rewrite !elem_of_plugs. congruence.
Qed.

(** The circuit a tool hangs on, straight from the tables. *)
Definition feeds (db : PowerDb) (tid : uuid) : option uuid :=
  t ← tools (base db) !! tid;
  rid ← receptacle_id t;
  r ← receptacles db !! rid;
  o ← outlets db !! outlet_id r;
  Some (circuit_id o).

Lemma circuit_of_tool_feeds db tid : sound db ->
  circuit_of_tool (tool_map ((fun kt => (kt.1, receptacle_id kt.2)) <$> map_to_list (tools (base db))))
    (recep_map (map_to_list (receptacles db)).*2) (outlet_map (map_to_list (outlets db)).*2) tid =
  feeds db tid.
Proof.
  intros Hs. unfold circuit_of_tool, feeds, recep_map, outlet_map.
  rewrite tool_map_lookup, !rows_map.
  - destruct (tools (base db) !! tid) as [t|]; [|done]. simpl.
    destruct (receptacle_id t) as [rid|]; [|done]. simpl. rewrite lookup_fmap.
    destruct (receptacles db !! rid) as [r|]; [|done]. simpl. rewrite lookup_fmap.
    by destruct (outlets db !! outlet_id r).
  - intros k x H. apply (sound_receptacles _ Hs _ _ H).
  - intros k x H. apply (sound_outlets _ Hs _ _ H).
Qed.

(** The draw of a circuit: the latest readings of the tools on it, added up. *)
Definition draw (db : PowerDb) (cid : uuid) : Q :=
  total (omap (fun s => if feeds db (tps_tool_id s) ≟ Some cid then last_draw_amps s else None)
    (map_to_list (power_states db)).*2).

Lemma sum_draw_lookup tools_ receps outs (draws : list (uuid * Q)) cid : forall m : gmap uuid Q,
  (default 0 (foldl (fun totals td =>
      match circuit_of_tool tools_ receps outs td.1 with
      | None => totals
      | Some cid => <[cid := default 0 (totals !! cid) + td.2]> totals
      end) m draws !! cid) ==
   default 0 (m !! cid) +
   total (omap (fun td => if circuit_of_tool tools_ receps outs td.1 ≟ Some cid
                          then Some td.2 else None) draws))%Q.
Proof.
  induction draws as [|[tid q] draws IH]; intros m; simpl.
  - unfold total. simpl. ring.
  - rewrite IH. destruct (circuit_of_tool tools_ receps outs tid) as [c|]; simpl.
    + case_bool_decide as E.
      * injection E as ->. rewrite lookup_insert_eq. simpl. rewrite total_cons. rewrite Qplus_assoc. reflexivity.
      * rewrite lookup_insert_ne by congruence. reflexivity.
    + reflexivity.
Qed.

Lemma omap_draws db (l : list ToolPowerState) tools_ receps outs cid :
  (forall tid, circuit_of_tool tools_ receps outs tid = feeds db tid) ->
  omap (fun td : uuid * Q => if circuit_of_tool tools_ receps outs td.1 ≟ Some cid
      then Some td.2 else None)
    (omap (fun s => (fun d => (tps_tool_id s, d)) <$> last_draw_amps s) l) =
  omap (fun s => if feeds db (tps_tool_id s) ≟ Some cid then last_draw_amps s else None) l.
Proof.
  intros H. induction l as [|s l IH]; [done|]. rewrite !omap_cons.
  destruct (last_draw_amps s) as [d|]; cbn [fmap option_fmap option_map].
  - rewrite omap_cons, IH. simpl. rewrite H. by case_bool_decide.
  - rewrite IH. by case_bool_decide.
Qed.

Lemma run_totals db : sound db ->
  exists m : gmap uuid Q, circuit_draw_totals (db, []) = ((db, []), inl m) /\
    forall cid, (default 0 (m !! cid) == draw db cid)%Q.
Proof.
  intros Hs. eexists. split; [reflexivity|]. intros cid.
  unfold sum_draw_per_circuit. rewrite sum_draw_lookup. unfold draw.
  rewrite (omap_draws db) by (intros; by apply circuit_of_tool_feeds).
  assert (forall l, default 0%Q ((list_to_map ((fun c => (c, 0%Q)) <$> l) : gmap uuid Q) !! cid) = 0%Q)
    as ->; [|ring].
  intros l. destruct (_ !! cid) as [q|] eqn:E; [|done].
  apply elem_of_list_to_map_2, list_elem_of_fmap in E as (c & Ec & _). by injection Ec as _ ->.
Qed.

(** One trip after another: the circuits named are locked, the others are as they were. *)
Lemma run_trip_all db now (over : list (uuid * Q * Q)) : sound db ->
  (forall x, x ∈ over -> exists c, circuits db !! x.1.1 = Some c /\ circuit_locked_out c = false) ->
  NoDup ((fun x => x.1.1) <$> over) ->
  exists db', trip_all amps_to_string now over (db, []) = ((db', []), inl over) /\
    sound db' /\ (forall k, is_Some (circuits db' !! k) <-> is_Some (circuits db !! k)) /\
    (forall k c, circuits db !! k = Some c -> exists c', circuits db' !! k = Some c' /\
       amperage_limit c' = amperage_limit c /\
       circuit_locked_out c' =
         circuit_locked_out c || bool_decide (k ∈ ((fun x => x.1.1) <$> over))).
Proof.
  revert db. induction over as [|[[id tot] limit] over IH]; intros db Hs Hov Hnd.
  - exists db. split; [done|]. split; [done|]. split; [done|]. intros k c Hc. exists c.
    by rewrite orb_false_r.
  - destruct (Hov _ ltac:(by left)) as (c0 & Hc0 & Hl0). simpl in Hc0.
    apply NoDup_cons in Hnd as [Hn Hnd]. simpl in Hn. cbn [trip_all].
    unfold mbind, M_bind at 1, engage_circuit_lockout at 1, call. rewrite Hc0, Hl0.
    set (c1 := lock_circuit _ _ _ _ _ c0). set (db1 := with_circuits _ db).
    assert (sound db1) as Hs1 by (by apply keeps_sound_lock).
    destruct (IH db1 Hs1) as (db' & Hr & Hs' & Hdom & Hk); [|done|].
    { intros x Hx. destruct (Hov x) as (c & Hc & Hl); [by right|]. exists c. simpl.
      rewrite lookup_insert_ne; [done|]. intros ->. apply Hn, list_elem_of_fmap. by exists x. }
    exists db'. unfold M_bind. rewrite Hr. split; [done|]. split; [done|]. split.
    { intros k. rewrite Hdom. simpl. rewrite lookup_insert_is_Some'. split; [|tauto].
      intros [<-|H]; [by eexists | done]. }
    intros k c Hc. destruct (decide (k = id)) as [->|Hne].
    + destruct (Hk id c1) as (c' & H1 & H2 & Hl'); [by simpl; rewrite lookup_insert_eq|].
      exists c'. simplify_eq. split_and!; [done..|]. rewrite Hl', fmap_cons.
      rewrite (bool_decide_eq_true_2 (_ ∈ _ :: _)) by (by left). by rewrite orb_true_r.
    + destruct (Hk k c) as (c' & H1 & H2 & Hl'); [by simpl; rewrite lookup_insert_ne|].
      exists c'. split_and!; [done..|]. rewrite Hl'. f_equal. apply bool_decide_ext.
      rewrite fmap_cons, elem_of_cons. simpl. naive_solver.
Qed.

Lemma run_overages db now : sound db ->
  exists m : gmap uuid Q, (forall cid, (default 0 (m !! cid) == draw db cid)%Q) /\
    evaluate_circuit_overages amps_to_string now (db, []) =
    trip_all amps_to_string now (overloaded_circuits
      ((fun c => (circuit_row_id c, amperage_limit c, circuit_locked_out c)) <$>
        (map_to_list (circuits db)).*2) m) (db, []).
Proof.
  intros Hs. destruct (run_totals db Hs) as (m & Hm & Hd). exists m. split; [done|].
  unfold evaluate_circuit_overages, mbind, M_bind at 1. by rewrite Hm.
Qed.

Lemma elem_of_overloaded cands (m : gmap uuid Q) x :
  x ∈ overloaded_circuits cands m <-> exists limit, (x.1.1, limit, false) ∈ cands /\
    x = (x.1.1, default 0%Q (m !! x.1.1), limit) /\ Qle_bool (default 0%Q (m !! x.1.1)) limit = false.
Proof.
  unfold overloaded_circuits. rewrite list_elem_of_omap. split.
  - intros ([[id limit] []] & Hin & He); [done|]. destruct (Qle_bool _ _) eqn:El; [done|].
    injection He as <-. by exists limit.
  - intros (limit & Hin & Ex & El). exists (x.1.1, limit, false). split; [done|].
    rewrite El. by rewrite <- Ex.
Qed.

Lemma overloaded_nodup cands (m : gmap uuid Q) :
  NoDup ((fun x => x.1.1) <$> cands) ->
  NoDup ((fun x => x.1.1) <$> overloaded_circuits cands m).
Proof.
  induction cands as [|[[id limit] locked] cands IH]; [done|].
  rewrite fmap_cons, NoDup_cons. intros [Hn Hnd]. specialize (IH Hnd).
  unfold overloaded_circuits. rewrite omap_cons. fold (overloaded_circuits cands m).
  destruct locked; [done|]. destruct (Qle_bool _ _); [done|]. rewrite fmap_cons, NoDup_cons.
  split; [|done]. intros Hin. apply Hn. apply list_elem_of_fmap in Hin as (x & Hx & Ho).
  simpl in Hx. apply elem_of_overloaded in Ho as (l & Hl & _). apply list_elem_of_fmap.
  eexists. split; [|exact Hl]. done.
Qed.

(** After an evaluation that nothing disturbed no circuit is left drawing more
    than its rating and unlocked; what it reports is exactly what it locked, and a
    circuit at its rating is left alone. *)
Theorem overages_trip db now : sound db ->
  exists tripped db', run (evaluate_circuit_overages amps_to_string now) db = (db', inl tripped) /\
    forall k c, circuits db !! k = Some c -> exists c', circuits db' !! k = Some c' /\
      (k ∈ ((fun x => x.1.1) <$> tripped) <->
        circuit_locked_out c = false /\ (amperage_limit c < draw db k)%Q) /\
      circuit_locked_out c' =
        circuit_locked_out c || negb (Qle_bool (draw db k) (amperage_limit c)).
Proof.
  intros Hs. destruct (run_overages db now Hs) as (m & Hm & Hr). unfold run. rewrite Hr.
  set (cands := _ <$> _). set (over := overloaded_circuits cands m).
  assert (forall k limit locked, (k, limit, locked) ∈ cands <-> exists c, circuits db !! k = Some c /\
    amperage_limit c = limit /\ circuit_locked_out c = locked) as Hc.
  { intros k limit locked. unfold cands. rewrite list_elem_of_fmap. split.
    - intros (c & Ec & Hin). injection Ec as -> -> ->. apply list_elem_of_fmap in Hin as ([k c'] & -> & Hin).
      apply elem_of_map_to_list in Hin. destruct (sound_circuits _ Hs _ _ Hin) as [<- _].
      by exists c'.
    - intros (c & Hk & <- & <-). exists c. destruct (sound_circuits _ Hs _ _ Hk) as [-> _].
      split; [done|]. apply list_elem_of_fmap. exists (k, c). by rewrite elem_of_map_to_list. }
  assert (forall k c, circuits db !! k = Some c -> k ∈ ((fun x => x.1.1) <$> over) <->
    circuit_locked_out c = false /\ Qle_bool (draw db k) (amperage_limit c) = false) as Ho.
  { intros k c Hk. assert (Qle_bool (default 0%Q (m !! k)) (amperage_limit c) =
      Qle_bool (draw db k) (amperage_limit c)) as E.
    { apply eq_true_iff_eq. rewrite !Qle_bool_iff. by rewrite Hm. }
    rewrite list_elem_of_fmap. split.
    - intros (x & -> & Hx). apply elem_of_overloaded in Hx as (l & Hl & _ & Hq).
      apply Hc in Hl as (c' & Hk' & <- & Hl). rewrite Hk in Hk'. injection Hk' as <-.
      by rewrite E in Hq.
    - intros [Hl Hq]. exists (k, default 0%Q (m !! k), amperage_limit c). split; [done|].
      apply elem_of_overloaded. exists (amperage_limit c). simpl. rewrite E. split; [|done].
      apply Hc. by exists c. }
  destruct (run_trip_all db now over Hs) as (db' & Hrun & _ & _ & Hk).
  { intros x Hx. apply elem_of_overloaded in Hx as (l & Hl & _). apply Hc in Hl as (c & ? & ? & ?).
    by exists c. }
  { apply overloaded_nodup.
    enough (((fun x => x.1.1) <$> cands) = (map_to_list (circuits db)).*1) as ->
      by apply NoDup_fst_map_to_list.
    unfold cands. rewrite <- !list_fmap_compose. apply list_fmap_ext. intros i [k c] Hx.
    apply list_elem_of_lookup_2, elem_of_map_to_list in Hx.
    by destruct (sound_circuits _ Hs _ _ Hx). }
  exists over, db'. rewrite Hrun. split; [done|]. intros k c Hkc.
  destruct (Hk k c Hkc) as (c' & Hc' & _ & Hl). exists c'. split; [done|]. rewrite Hl. split.
  - by rewrite (Ho k c Hkc), Qle_bool_false.
  - destruct (circuit_locked_out c) eqn:El; [done|]. simpl.
    destruct (Qle_bool _ _) eqn:Eq; simpl.
    + apply bool_decide_eq_false_2. rewrite (Ho k c Hkc). rewrite Eq. naive_solver.
    + apply bool_decide_eq_true_2, (Ho k c Hkc). by rewrite Eq.
Qed.

(** ** The gate and what an edge is told *)

(** The reference: the tool's own lockout, or that of the circuit it hangs on. *)
Definition locked_out (db : PowerDb) (tid : uuid) : bool :=
  is_some_and (power_states db !! tid) tool_locked_out ||
  is_some_and (feeds db tid) (fun cid => is_some_and (circuits db !! cid) circuit_locked_out).

Lemma run_locked_out db tid :
  tool_is_locked_out tid (db, []) = ((db, []), inl (locked_out db tid)).
Proof.
  unfold tool_is_locked_out, locked_out, feeds, find_opt, select, call, mbind, M_bind.
  destruct (power_states db !! tid) as [s|]; cbn -[bool_decide]; [destruct (tool_locked_out s); [done|]|];
    rewrite bool_decide_eq_false_2 by done;
    (destruct (tools (base db) !! tid) as [t|]; cbn -[bool_decide]; [|done]);
    (destruct (receptacle_id t) as [rid|]; cbn -[bool_decide]; [|done]);
    (destruct (receptacles db !! rid) as [r|]; cbn -[bool_decide]; [|done]);
    (destruct (outlets db !! outlet_id r) as [o|]; cbn -[bool_decide]; [|done]);
    (destruct (circuits db !! circuit_id o) as [c|]; cbn -[bool_decide]; [|done]);
    by destruct (circuit_locked_out c).
Qed.

(** The rows of a table that pass a test, by their keys. *)
Lemma elem_of_passing {A} (m : gmap uuid A) (id : A -> uuid) (f : A -> bool) k :
  (forall k x, m !! k = Some x -> id x = k) ->
  k ∈ (id <$> List.filter f (map_to_list m).*2) <-> is_some_and (m !! k) f = true.
Proof.
  intros Hid. rewrite list_elem_of_fmap. split.
  - intros (x & -> & Hx). apply elem_of_lfilter in Hx as [Hx Hf].
    apply list_elem_of_fmap in Hx as ([k x'] & -> & Hx). apply elem_of_map_to_list in Hx.
    simpl in *. by rewrite (Hid _ _ Hx), Hx.
  - intros H. destruct (m !! k) as [x|] eqn:E; [|done]. exists x. split; [by rewrite (Hid _ _ E)|].
    apply elem_of_lfilter. split; [|done]. apply list_elem_of_fmap. exists (k, x).
    by rewrite elem_of_map_to_list.
Qed.

(** The gate and the edges agree: the list of locked tools pushed to an edge has
    exactly the tools the server itself refuses, at the same moment, for power. *)
Theorem snapshot_agrees_with_gate (to_rfc3339 : instant -> string) db now : sound db ->
  exists p, run (power_state_snapshot amps_to_string to_rfc3339 now) db = (db, inl p) /\
    forall tid, is_Some (tools (base db) !! tid) ->
      exists b, run (tool_is_locked_out tid) db = (db, inl b) /\
        (uuid_show tid ∈ Wire.locked_tool_ids p <-> b = true).
Proof.
  intros Hs. eexists. split; [reflexivity|]. intros tid [t Ht]. exists (locked_out db tid).
  split; [unfold run; by rewrite run_locked_out|]. cbn [Wire.locked_tool_ids].
  rewrite list_elem_of_fmap.
  assert (forall kt, kt ∈ map_to_list (tools (base db)) ->
    (rid ← receptacle_id kt.2; oid ← recep_map (map_to_list (receptacles db)).*2 !! rid;
     outlet_map (map_to_list (outlets db)).*2 !! oid) = feeds db kt.1) as Hf.
  { intros [k t'] Hk. apply elem_of_map_to_list in Hk.
    rewrite <- circuit_of_tool_feeds by done. unfold circuit_of_tool.
    rewrite tool_map_lookup. cbn [fst snd]. by rewrite Hk. }
  assert (forall kt, kt ∈ map_to_list (tools (base db)) ->
    bool_decide (kt.1 ∈ (list_to_set (tps_tool_id <$> List.filter tool_locked_out
        (map_to_list (power_states db)).*2) : gset uuid)) ||
    is_some_and (rid ← receptacle_id kt.2; oid ← recep_map (map_to_list (receptacles db)).*2 !! rid;
        outlet_map (map_to_list (outlets db)).*2 !! oid)
      (fun c => bool_decide (c ∈ (list_to_set (circuit_row_id <$> List.filter circuit_locked_out
        (map_to_list (circuits db)).*2) : gset uuid))) = locked_out db kt.1) as Hl.
  { intros kt Hk. rewrite (Hf kt Hk). unfold locked_out. f_equal.
    - apply eq_true_iff_eq. rewrite bool_decide_eq_true, elem_of_list_to_set.
      apply elem_of_passing. apply (sound_states _ Hs).
    - destruct (feeds db kt.1) as [cid|]; [|done]. simpl. apply eq_true_iff_eq.
      rewrite bool_decide_eq_true, elem_of_list_to_set. apply elem_of_passing.
      intros k x H. apply (sound_circuits _ Hs _ _ H). }
  split.
  - intros ([k t'] & Hk & Hin). apply elem_of_lfilter in Hin as [Hin Hb].
    assert (tid = k) as ->.
    { apply (f_equal uuid_parse) in Hk. rewrite !uuid_parse_show in Hk. by injection Hk. }
    specialize (Hl (k, t') Hin). cbn [fst snd] in Hl, Hb. by rewrite <- Hl.
  - intros Hb. exists (tid, t). split; [done|]. apply elem_of_lfilter.
    assert ((tid, t) ∈ map_to_list (tools (base db))) as Hin by by apply elem_of_map_to_list.
    split; [done|]. specialize (Hl (tid, t) Hin). cbn [fst snd] in Hl |- *. by rewrite Hl.
Qed.

End PowerTopology.
End PowerTopology.
