(* ===== verification/Training.v ===== *)
(** * Training and who may use a tool ([server/src/api/training.rs],
    [server/src/api/waivers.rs], the training tables of [server/src/database.rs])

    Steps, each trainee's progress through them, the instructors certified for a
    step, and waivers; who may record a completion; and the gate a tool is behind. *)
From Stdlib Require Import QArith.
From S2P Require Import Prelude Text Rbac Schedules Access Faults Money Database ToolBilling Api Power.
Import Text Rbac Schedules Faults Money Database Api Power.

Module Training.

#[local] Open Scope Z_scope.

Inductive TrainingStatus : Type := NotStarted | InProgress | Completed | Failed | Expired.

#[global] Instance TrainingStatus_eq_dec : EqDecision TrainingStatus.
Proof. solve_decision. Defined.

Inductive AssessmentType : Type := Practical | Written | Both | ObservationOnly.

Section Training.
Context {U : Uuid} {IS : IdSource} {tz : TimeZone} {IP : Access.IntervalParser} {D : Decimal}.

(** ** Rows *)

Record TrainingStep := {
  step_id : uuid;
  step_tool_id : uuid;
  step_number : Z;
  step_name : string;
  training_materials_url : option string;
  requires_assessment : bool;
  assessment_type : option AssessmentType;
  duration_minutes : option Z;
  expires_after_days : option Z;
  created_by : uuid;
  self_attestable : bool;
}.

Record UserTrainingProgress := {
  progress_id : uuid;
  progress_status : TrainingStatus;
  instructor_id : option uuid;
  progress_started_at : option instant;
  completed_at : option instant;
  expires_at : option instant;
  assessment_score : option Z;
  progress_notes : option string;
  acknowledged_materials_url : option string;
}.

Record TrainingInstructor := {
  instructor_row_id : uuid;
  certified_by : uuid;
  instructor_expires_at : option instant;
}.

Record TrainingWaiver := {
  waiver_id : uuid;
  waiver_reason : string;
  waived_by : option uuid;
  waiver_expires_at : option instant;
}.

(** Progress, instructors and waivers are unique for their pair of keys. *)
Record TrainingDb := {
  power : PowerDb;
  steps : gmap uuid TrainingStep;
  progress : gmap (uuid * uuid) UserTrainingProgress;
  instructors : gmap (uuid * uuid) TrainingInstructor;
  waivers : gmap (uuid * uuid) TrainingWaiver;
  prerequisites : gmap uuid (uuid * uuid);
}.

Definition with_power (p : PowerDb) (db : TrainingDb) : TrainingDb := {|
  power := p; steps := steps db; progress := progress db; instructors := instructors db;
  waivers := waivers db; prerequisites := prerequisites db |}.

#[export] Instance training_power : Part TrainingDb PowerDb :=
  {| part := power; put := with_power; part_put := ltac:(done); put_part := ltac:(by intros []);
     put_put := ltac:(done) |}.

Definition with_steps (f : gmap uuid TrainingStep -> gmap uuid TrainingStep) (db : TrainingDb)
    : TrainingDb := {|
  power := power db; steps := f (steps db); progress := progress db;
  instructors := instructors db; waivers := waivers db; prerequisites := prerequisites db |}.

Definition with_progress
    (f : gmap (uuid * uuid) UserTrainingProgress -> gmap (uuid * uuid) UserTrainingProgress)
    (db : TrainingDb) : TrainingDb := {|
  power := power db; steps := steps db; progress := f (progress db);
  instructors := instructors db; waivers := waivers db; prerequisites := prerequisites db |}.

Definition with_instructors
    (f : gmap (uuid * uuid) TrainingInstructor -> gmap (uuid * uuid) TrainingInstructor)
    (db : TrainingDb) : TrainingDb := {|
  power := power db; steps := steps db; progress := progress db;
  instructors := f (instructors db); waivers := waivers db; prerequisites := prerequisites db |}.

Definition with_waivers
    (f : gmap (uuid * uuid) TrainingWaiver -> gmap (uuid * uuid) TrainingWaiver)
    (db : TrainingDb) : TrainingDb := {|
  power := power db; steps := steps db; progress := progress db;
  instructors := instructors db; waivers := f (waivers db); prerequisites := prerequisites db |}.

Definition with_prerequisites (f : gmap uuid (uuid * uuid) -> gmap uuid (uuid * uuid))
    (db : TrainingDb) : TrainingDb := {|
  power := power db; steps := steps db; progress := progress db;
  instructors := instructors db; waivers := waivers db; prerequisites := f (prerequisites db) |}.

Abbreviation M := (Faults.M TrainingDb DatabaseError).

(** The money tables' methods, from here. *)
Definition base_call {A} (m : Database.M A) : M A := within (P := PowerDb) (within (P := Db) m).

Definition money (db : TrainingDb) : Db := base (power db).

(** A fresh identifier. *)
Definition fresh (db : TrainingDb) : uuid := gen_random_uuid (next_id (money db)).
Definition spend (db : TrainingDb) : TrainingDb :=
  with_power (with_base (with_sessions 1 (fun l => l) (money db)) (power db)) db.

(** ** Steps *)

Record NewTrainingStep := {
  ns_tool_id : uuid;
  ns_step_number : Z;
  ns_step_name : string;
  ns_training_materials_url : option string;
  ns_requires_assessment : option bool;
  ns_assessment_type : option AssessmentType;
  ns_duration_minutes : option Z;
  ns_expires_after_days : option Z;
  ns_created_by : uuid;
  ns_self_attestable : option bool;
}.

(** The columns' defaults where nothing is given. *)
Definition step_of (id : uuid) (n : NewTrainingStep) : TrainingStep := {|
  step_id := id; step_tool_id := ns_tool_id n; step_number := ns_step_number n;
  step_name := ns_step_name n; training_materials_url := ns_training_materials_url n;
  requires_assessment := default false (ns_requires_assessment n);
  assessment_type := ns_assessment_type n; duration_minutes := ns_duration_minutes n;
  expires_after_days := ns_expires_after_days n; created_by := ns_created_by n;
  self_attestable := default false (ns_self_attestable n) |}.

(** A number is taken once per tool, and is positive. *)
Definition number_taken (db : TrainingDb) (id tid : uuid) (n : Z) : bool :=
  existsb (fun ks => negb (ks.1 ≟ id) && (step_tool_id ks.2 ≟ tid) && (step_number ks.2 =? n))
    (map_to_list (steps db)).

Definition put_step (k : uuid) (s : TrainingStep) (db : TrainingDb)
    : TrainingDb * (TrainingStep + DatabaseError) :=
  if step_number s <=? 0 then (db, inr CheckViolation)
  else if number_taken db k (step_tool_id s) (step_number s)
  then (db, inr UniqueViolation)
  else (with_steps <[k := s]> db, inl s).

Definition create_training_step (n : NewTrainingStep) : M TrainingStep :=
  call (fun db =>
    let db' := spend db in
    if negb (is_some (tools (money db) !! ns_tool_id n) && is_some (users (money db) !! ns_created_by n))
    then (db', inr ForeignKeyViolation)
    else if is_some (steps db !! fresh db) then (db', inr UniqueViolation)
    else put_step (fresh db) (step_of (fresh db) n) db').

Definition get_training_step_by_id (sid : uuid) : M (option TrainingStep) :=
  select (fun db => steps db !! sid).

(** [None] leaves a column alone: a nullable one cannot be cleared. *)
Record UpdateTrainingStep := {
  us_step_name : option string;
  us_training_materials_url : option string;
  us_requires_assessment : option bool;
  us_assessment_type : option AssessmentType;
  us_duration_minutes : option Z;
  us_expires_after_days : option Z;
  us_self_attestable : option bool;
}.

Definition change_step (u : UpdateTrainingStep) (s : TrainingStep) : TrainingStep := {|
  step_id := step_id s; step_tool_id := step_tool_id s; step_number := step_number s;
  step_name := default (step_name s) (us_step_name u);
  training_materials_url := option_or (us_training_materials_url u) (training_materials_url s);
  requires_assessment := default (requires_assessment s) (us_requires_assessment u);
  assessment_type := option_or (us_assessment_type u) (assessment_type s);
  duration_minutes := option_or (us_duration_minutes u) (duration_minutes s);
  expires_after_days := option_or (us_expires_after_days u) (expires_after_days s);
  created_by := created_by s;
  self_attestable := default (self_attestable s) (us_self_attestable u) |}.

Definition update_training_step_row (sid : uuid) (u : UpdateTrainingStep) : M TrainingStep :=
  call (fun db =>
    match steps db !! sid with
    | None => (db, inr NotFound)
    | Some s => (with_steps <[sid := change_step u s]> db, inl (change_step u s))
    end).

Definition renumber (n : Z) (s : TrainingStep) : TrainingStep := {|
  step_id := step_id s; step_tool_id := step_tool_id s; step_number := n;
  step_name := step_name s; training_materials_url := training_materials_url s;
  requires_assessment := requires_assessment s; assessment_type := assessment_type s;
  duration_minutes := duration_minutes s; expires_after_days := expires_after_days s;
  created_by := created_by s; self_attestable := self_attestable s |}.

Definition update_step_position (sid : uuid) (n : Z) : M unit :=
  call (fun db =>
    match steps db !! sid with
    | None => (db, inr NotFound)
    | Some s => let '(db, r) := put_step sid (renumber n s) db in
                (db, match r with inl _ => inl tt | inr e => inr e end)
    end).

Definition has_user_progress_for_step (sid : uuid) : M bool :=
  select (fun db => existsb (fun kp => kp.1.2 ≟ sid) (map_to_list (progress db))).

(** The step's progress, instructors and prerequisites go with it. *)
Definition delete_step (sid : uuid) : M unit :=
  call (fun db =>
    match steps db !! sid with
    | None => (db, inr NotFound)
    | Some _ =>
        (with_steps (delete sid)
          (with_progress (filter (fun kp => kp.1.2 <> sid))
          (with_instructors (filter (fun ki => ki.1.2 <> sid))
          (with_prerequisites (filter (fun kp => kp.2.1 <> sid /\ kp.2.2 <> sid)) db))), inl tt)
    end).

Definition add_training_prerequisite (sid prereq : uuid) : M uuid :=
  call (fun db =>
    let db' := spend db in
    if negb (is_some (steps db !! sid) && is_some (steps db !! prereq))
    then (db', inr ForeignKeyViolation)
    else if sid ≟ prereq then (db', inr CheckViolation)
    else if existsb (fun kp => kp.2 ≟ (sid, prereq)) (map_to_list (prerequisites db)) ||
            is_some (prerequisites db !! fresh db)
    then (db', inr UniqueViolation)
    else (with_prerequisites <[fresh db := (sid, prereq)]> db', inl (fresh db))).

Definition remove_training_prerequisite (pid : uuid) : M unit :=
  call (fun db =>
    match prerequisites db !! pid with
    | None => (db, inr NotFound)
    | Some _ => (with_prerequisites (delete pid) db, inl tt)
    end).

(** ** Progress *)

(** The table's two checks on a row. *)
Definition progress_ok (p : UserTrainingProgress) : bool :=
  is_none_or (assessment_score p) (fun s => (0 <=? s) && (s <=? 100)) &&
  is_none_or (progress_started_at p) (fun s => is_none_or (completed_at p) (fun c => s <=? c)).

Definition put_progress (uid sid : uuid) (p : UserTrainingProgress) (db : TrainingDb)
    : TrainingDb * (UserTrainingProgress + DatabaseError) :=
  if progress_ok p then (with_progress <[(uid, sid) := p]> db, inl p) else (db, inr CheckViolation).

(** A new row: the trainee and the step must exist. *)
Definition insert_progress (uid sid : uuid) (p : UserTrainingProgress) (db : TrainingDb)
    : TrainingDb * (UserTrainingProgress + DatabaseError) :=
  if is_some (users (money db) !! uid) && is_some (steps db !! sid)
  then put_progress uid sid p (spend db) else (db, inr ForeignKeyViolation).

(** [NewUserTrainingProgress]: the columns an insert sets, the rest null. *)
Definition new_progress (db : TrainingDb) (st : TrainingStatus) (instructor : option uuid)
    (started : option instant) (notes : option string) : UserTrainingProgress := {|
  progress_id := fresh db; progress_status := st; instructor_id := instructor;
  progress_started_at := started; completed_at := None; expires_at := None;
  assessment_score := None; progress_notes := notes; acknowledged_materials_url := None |}.

Definition get_progress_for_step (uid sid : uuid) : M (option UserTrainingProgress) :=
  select (fun db => progress db !! (uid, sid)).

Record UpdateUserTrainingProgress := {
  up_status : option TrainingStatus;
  up_instructor_id : option uuid;
  up_started_at : option instant;
  up_completed_at : option instant;
  up_expires_at : option instant;
  up_assessment_score : option Z;
  up_notes : option string;
}.

Definition change_progress (u : UpdateUserTrainingProgress) (p : UserTrainingProgress)
    : UserTrainingProgress := {|
  progress_id := progress_id p; progress_status := default (progress_status p) (up_status u);
  instructor_id := option_or (up_instructor_id u) (instructor_id p);
  progress_started_at := option_or (up_started_at u) (progress_started_at p);
  completed_at := option_or (up_completed_at u) (completed_at p);
  expires_at := option_or (up_expires_at u) (expires_at p);
  assessment_score := option_or (up_assessment_score u) (assessment_score p);
  progress_notes := option_or (up_notes u) (progress_notes p);
  acknowledged_materials_url := acknowledged_materials_url p |}.

Definition update_user_training_progress (uid sid : uuid) (u : UpdateUserTrainingProgress)
    : M UserTrainingProgress :=
  call (fun db =>
    match progress db !! (uid, sid) with
    | None => (db, inr NotFound)
    | Some p => put_progress uid sid (change_progress u p) db
    end).

(** [Utc::now() + Duration::days(days)], inside the range of a [DateTime]. *)
Definition calculate_expiry_date (now : instant) (s : TrainingStep) : option instant :=
  (fun d => now + seconds (d * 86400)) <$> expires_after_days s.

Definition parse_completion (completion_status : string) : TrainingStatus :=
  if completion_status ≟ "completed"%string then Completed
  else if completion_status ≟ "partial"%string then InProgress
  else if completion_status ≟ "failed"%string then Failed
  else InProgress.

(** The upsert: an insert sets what a new row has, and only a conflict sets the
    completion and expiry. *)
Definition record_step_completion (now : instant) (trainee sid instructor : uuid)
    (completion_status : string) (notes : option string) : M unit :=
  let st := parse_completion completion_status in
  expires ← (if st ≟ Completed then
               s ← get_training_step_by_id sid;
               mret (s ≫= calculate_expiry_date now)
             else mret None);
  let completed := if st ≟ Completed then Some now else None in
  call (fun db =>
    let '(db, r) :=
      match progress db !! (trainee, sid) with
      | None => insert_progress trainee sid (new_progress db st (Some instructor) (Some now) notes) db
      | Some p => put_progress trainee sid {|
          progress_id := progress_id p; progress_status := st; instructor_id := Some instructor;
          progress_started_at := progress_started_at p; completed_at := completed;
          expires_at := expires; assessment_score := assessment_score p; progress_notes := notes;
          acknowledged_materials_url := acknowledged_materials_url p |} db
      end in
    (db, match r with inl _ => inl tt | inr e => inr e end)).

Record StartTrainingRequest := {
  st_training_step_id : uuid;
  st_instructor_id : option uuid;
  st_notes : option string;
}.

Definition start_training (now : instant) (uid : uuid) (req : StartTrainingRequest)
    : M UserTrainingProgress :=
  let sid := st_training_step_id req in
  call (fun db =>
    match progress db !! (uid, sid) with
    | None => insert_progress uid sid
        (new_progress db InProgress (st_instructor_id req) (Some now) (st_notes req)) db
    | Some p => put_progress uid sid {|
        progress_id := progress_id p; progress_status := InProgress;
        instructor_id := st_instructor_id req; progress_started_at := Some now;
        completed_at := completed_at p; expires_at := expires_at p;
        assessment_score := assessment_score p; progress_notes := progress_notes p;
        acknowledged_materials_url := acknowledged_materials_url p |} db
    end).

Record CompleteTrainingRequest := {
  ct_training_step_id : uuid;
  ct_assessment_score : option Z;
  ct_passed : bool;
  ct_notes : option string;
}.

Definition complete_training (now : instant) (uid : uuid) (req : CompleteTrainingRequest)
    : M UserTrainingProgress :=
  let sid := ct_training_step_id req in
  s ← get_training_step_by_id sid;
  call (fun db =>
    match progress db !! (uid, sid) with
    | None => (db, inr NotFound)
    | Some p => put_progress uid sid {|
        progress_id := progress_id p;
        progress_status := if ct_passed req then Completed else Failed;
        instructor_id := instructor_id p; progress_started_at := progress_started_at p;
        completed_at := Some now;
        expires_at := if ct_passed req then s ≫= calculate_expiry_date now else None;
        assessment_score := ct_assessment_score req; progress_notes := ct_notes req;
        acknowledged_materials_url := s ≫= training_materials_url |} db
    end).

(** ** Instructors and waivers *)

Definition is_certified_instructor (now : instant) (uid sid : uuid) : M bool :=
  select (fun db => is_some_and (instructors db !! (uid, sid))
    (fun i => is_none_or (instructor_expires_at i) (fun e => now <? e))).

Definition insert_instructor (uid sid by_ : uuid) (expires : option instant)
    : M TrainingInstructor :=
  call (fun db =>
    let db' := spend db in
    if negb (is_some (users (money db) !! uid) && is_some (users (money db) !! by_) &&
             is_some (steps db !! sid))
    then (db', inr ForeignKeyViolation)
    else match instructors db !! (uid, sid) with
    | Some _ => (db', inr UniqueViolation)
    | None =>
        let row := {| instructor_row_id := fresh db; certified_by := by_;
                      instructor_expires_at := expires |} in
        (with_instructors <[(uid, sid) := row]> db', inl row)
    end).

Definition revoke_certification (iid : uuid) : M unit :=
  call (fun db =>
    if existsb (fun ki => instructor_row_id ki.2 ≟ iid) (map_to_list (instructors db))
    then (with_instructors (filter (fun ki => instructor_row_id ki.2 <> iid)) db, inl tt)
    else (db, inr NotFound)).

Definition upsert_waiver (uid tid : uuid) (reason : string) (by_ : option uuid)
    (expires : option instant) : M TrainingWaiver :=
  call (fun db =>
    let db' := spend db in
    if negb (is_some (users (money db) !! uid) && is_some (tools (money db) !! tid))
    then (db', inr ForeignKeyViolation)
    else
      let row := {| waiver_id := default (fresh db) (waiver_id <$> waivers db !! (uid, tid));
                    waiver_reason := reason; waived_by := by_; waiver_expires_at := expires |} in
      (with_waivers <[(uid, tid) := row]> db', inl row)).

Definition delete_waiver (wid : uuid) : M (uuid * TrainingWaiver) :=
  call (fun db =>
    match find_first (fun kw => waiver_id kw.2 ≟ wid) (map_to_list (waivers db)) with
    | None => (db, inr NotFound)
    | Some (k, w) => (with_waivers (delete k) db, inl (k.1, w))
    end).

(** ** The gate of a tool *)

Definition step_ids_of (db : TrainingDb) (tid : uuid) : list uuid :=
  (List.filter (fun ks => step_tool_id ks.2 ≟ tid) (map_to_list (steps db))).*1.

Definition tool_has_training_steps (tid : uuid) : M bool :=
  select (fun db => 0 <? Z.of_nat (length (step_ids_of db tid))).

(** The loop over the steps: the first that is not completed, or has run out, ends it. *)
Fixpoint all_completed (now : instant) (uid : uuid) (sids : list uuid) : M bool :=
  match sids with
  | [] => mret true
  | sid :: sids =>
      p ← get_progress_for_step uid sid;
      match p with
      | None => mret false
      | Some p =>
          if negb (progress_status p ≟ Completed) then mret false
          else if is_some_and (expires_at p) (fun e => e <? now) then mret false
          else all_completed now uid sids
      end
  end.

Definition user_has_completed_all_training_steps (now : instant) (uid tid : uuid) : M bool :=
  sids ← select (fun db => step_ids_of db tid);
  match sids with [] => mret true | _ => all_completed now uid sids end.

Definition user_has_active_waiver (now : instant) (uid tid : uuid) : M bool :=
  select (fun db => is_some_and (waivers db !! (uid, tid))
    (fun w => is_none_or (waiver_expires_at w) (fun e => now <? e))).

Definition user_is_authorized_for_tool (now : instant) (uid tid : uuid) (requires_training : bool)
    : M bool :=
  locked_out ← within (tool_is_locked_out tid);
  has_steps ← tool_has_training_steps tid;
  training_ok ←
    (if negb has_steps && negb requires_training then mret true
     else
       waived ← user_has_active_waiver now uid tid;
       if waived : bool then mret true
       else if has_steps then user_has_completed_all_training_steps now uid tid
       else mret false);
  mret (Access.is_allow (Access.may
    {| Access.p_user_id := Some uid; Access.p_level := 0; Access.p_card_digests := ∅;
       Access.p_is_active := true |}
    {| Access.locked_out := locked_out; Access.unavailable := None;
       Access.default_effect := Access.Open; Access.policy_schedule_id := None;
       Access.training_ok := Some training_ok; Access.metered_ok := None |}
    [] [] now (from_rows [] [] []) Access.Use)).

Definition can_access_tool (now : instant) (uid tid : uuid)
    (metered_gate : option ToolBilling.MeteredGate) : M bool :=
  t ← base_call (get_tool_by_id tid);
  match t with
  | None => throw NotFound
  | Some tool =>
      ok ← user_is_authorized_for_tool now uid tid (requires_training tool);
      if negb ok then mret false
      else match metered_gate with
      | None => mret true
      | Some g =>
          u ← base_call (find_user_by_id uid);
          match u with
          | None => mret false
          | Some _ =>
              available ← base_call (available_balance uid);
              is_member ← base_call (user_has_permission uid "member.access");
              eff ← base_call (resolve_effective_billing uid tool);
              mret (ToolBilling.authorizes_rate g (eff_flat_fee eff) (eff_rate_per_min eff)
                (eff_max_session_minutes eff) available is_member)
          end
      end
  end.

(** ** The handlers

    [staff] and [admin] are callers the extractors let in; [user] is any signed-in
    caller. *)

Abbreviation H := (Faults.M TrainingDb ApiError).

Definition lift {A} (m : M A) : H A := map_err api_error m.
Definition log_event (event : AuditEventType) (uid : uuid) : H unit := lift (base_call (audit event uid)).

Definition may_certify (uid : uuid) : H bool := lift (base_call (user_has_permission uid "training.certify")).

Definition reject_self_attestable_assessment (self_attestable requires_assessment : option bool)
    : H unit :=
  unless ((self_attestable ≟ Some true) && (requires_assessment ≟ Some true))
    (BadRequest "A training step cannot be self-service and require an assessment. Self-service records that the trainee read something; an assessment records that somebody else judged them competent.")
    (mret tt).

(** [created_by] of the row is the caller, whatever the payload would say. *)
Definition create_step (staff : uuid) (n : NewTrainingStep) : H TrainingStep :=
  _ ← reject_self_attestable_assessment (ns_self_attestable n) (ns_requires_assessment n);
  s ← lift (create_training_step {|
    ns_tool_id := ns_tool_id n; ns_step_number := ns_step_number n; ns_step_name := ns_step_name n;
    ns_training_materials_url := ns_training_materials_url n;
    ns_requires_assessment := ns_requires_assessment n; ns_assessment_type := ns_assessment_type n;
    ns_duration_minutes := ns_duration_minutes n; ns_expires_after_days := ns_expires_after_days n;
    ns_created_by := staff; ns_self_attestable := ns_self_attestable n |});
  _ ← log_event TrainingStepCreated staff;
  mret s.

Definition step_or_404 (sid : uuid) : H TrainingStep :=
  s ← lift (get_training_step_by_id sid);
  match s with Some s => mret s | None => throw (NotFoundError "Training step not found") end.

(** Checked against the row as it will be. *)
Definition update_training_step (sid : uuid) (u : UpdateTrainingStep) : H TrainingStep :=
  existing ← step_or_404 sid;
  _ ← reject_self_attestable_assessment
        (Some (default (self_attestable existing) (us_self_attestable u)))
        (Some (default (requires_assessment existing) (us_requires_assessment u)));
  lift (update_training_step_row sid u).

Definition delete_training_step (staff sid : uuid) : H unit :=
  has_progress ← lift (has_user_progress_for_step sid);
  unless has_progress (BadRequest "Cannot delete training step with existing user progress") (
  _ ← step_or_404 sid;
  _ ← lift (delete_step sid);
  log_event TrainingStepDeleted staff).

Definition update_training_step_position (sid : uuid) (n : Z) : H unit :=
  lift (update_step_position sid n).

Definition add_prerequisite (sid prereq : uuid) : H uuid := lift (add_training_prerequisite sid prereq).
Definition remove_prerequisite (pid : uuid) : H unit := lift (remove_training_prerequisite pid).

(** Only the status, the score and the notes come from the request. *)
Definition update_training_progress (now : instant) (user target sid : uuid)
    (status : TrainingStatus) (score : option Z) (notes : option string) : H UserTrainingProgress :=
  certify ← may_certify user;
  can_update ← (if certify : bool then mret true else lift (is_certified_instructor now user sid));
  unless (negb can_update) (Forbidden "Cannot update training progress") (
  lift (update_user_training_progress target sid {|
    up_status := Some status; up_instructor_id := None; up_started_at := None;
    up_completed_at := None; up_expires_at := None; up_assessment_score := score;
    up_notes := notes |})).

Definition start_training_session (now : instant) (user target : uuid) (req : StartTrainingRequest)
    : H UserTrainingProgress :=
  allowed ← (if user ≟ target then mret true else may_certify user);
  unless (negb allowed) (Forbidden "Cannot start training for another user") (
  p ← lift (start_training now target req);
  _ ← log_event TrainingSessionStarted target;
  mret p).

Definition complete_training_session (now : instant) (user target : uuid)
    (req : CompleteTrainingRequest) : H UserTrainingProgress :=
  step ← step_or_404 (ct_training_step_id req);
  let is_self_attestation := self_attestable step && (user ≟ target) in
  certify ← may_certify user;
  instructor ← (if certify : bool then mret true
                else lift (is_certified_instructor now user (ct_training_step_id req)));
  unless (negb (instructor || is_self_attestation)) (Forbidden "Cannot complete training session") (
  unless (is_self_attestation && is_some (ct_assessment_score req))
    (BadRequest "A self-service confirmation cannot carry an assessment score") (
  unless (is_self_attestation && negb (ct_passed req))
    (BadRequest "A self-service confirmation cannot be recorded as not passed") (
  p ← lift (complete_training now target req);
  _ ← log_event (if is_self_attestation then TrainingDocumentationAcknowledged
                 else TrainingSessionCompleted) target;
  mret p))).

Definition certify_instructor (staff uid sid : uuid) (expires : option instant)
    : H TrainingInstructor :=
  i ← lift (insert_instructor uid sid staff expires);
  _ ← log_event InstructorCertified uid;
  mret i.

Definition revoke_instructor_certification (staff iid : uuid) : H unit :=
  _ ← lift (revoke_certification iid);
  log_event InstructorRevoked staff.

Definition grant_waiver (admin uid tid : uuid) (reason : string) (expires : option instant)
    : H TrainingWaiver :=
  unless (trim reason ≟ EmptyString) (BadRequest "A waiver reason is required") (
  w ← lift (upsert_waiver uid tid (trim reason) (Some admin) expires);
  _ ← log_event TrainingWaiverGranted uid;
  mret w).

Definition revoke_waiver (wid : uuid) : H TrainingWaiver :=
  uw ← lift (delete_waiver wid);
  _ ← log_event TrainingWaiverRevoked uw.1;
  mret uw.2.

Definition check_tool_access (now : instant) (tid uid : uuid)
    (gate : option ToolBilling.MeteredGate) : H bool := lift (can_access_tool now uid tid gate).

Definition check_my_tool_access (now : instant) (user tid : uuid)
    (gate : option ToolBilling.MeteredGate) : H bool := lift (can_access_tool now user tid gate).

(** One request to the training surface. *)
Inductive request : Type :=
  | CreateStep (staff : uuid) (n : NewTrainingStep)
  | UpdateStep (sid : uuid) (u : UpdateTrainingStep)
  | DeleteStep (staff sid : uuid)
  | MoveStep (sid : uuid) (n : Z)
  | AddPrerequisite (sid prereq : uuid)
  | RemovePrerequisite (pid : uuid)
  | UpdateProgress (user target sid : uuid) (status : TrainingStatus) (score : option Z)
      (notes : option string)
  | StartSession (user target : uuid) (req : StartTrainingRequest)
  | CompleteSession (user target : uuid) (req : CompleteTrainingRequest)
  | CertifyInstructor (staff uid sid : uuid) (expires : option instant)
  | RevokeInstructor (staff iid : uuid)
  | GrantWaiver (admin uid tid : uuid) (reason : string) (expires : option instant)
  | RevokeWaiver (wid : uuid).

Definition handle (now : instant) (r : request) : H unit :=
  match r with
  | CreateStep staff n => _ ← create_step staff n; mret tt
  | UpdateStep sid u => _ ← update_training_step sid u; mret tt
  | DeleteStep staff sid => delete_training_step staff sid
  | MoveStep sid n => update_training_step_position sid n
  | AddPrerequisite sid p => _ ← add_prerequisite sid p; mret tt
  | RemovePrerequisite pid => remove_prerequisite pid
  | UpdateProgress user target sid status score notes =>
      _ ← update_training_progress now user target sid status score notes; mret tt
  | StartSession user target req => _ ← start_training_session now user target req; mret tt
  | CompleteSession user target req => _ ← complete_training_session now user target req; mret tt
  | CertifyInstructor staff uid sid e => _ ← certify_instructor staff uid sid e; mret tt
  | RevokeInstructor staff iid => revoke_instructor_certification staff iid
  | GrantWaiver admin uid tid reason e => _ ← grant_waiver admin uid tid reason e; mret tt
  | RevokeWaiver wid => _ ← revoke_waiver wid; mret tt
  end.

End Training.
End Training.
