(* ===== verification/TrainingGate.v ===== *)
(** * Who may sign, and who may use a tool ([server/src/api/training.rs],
    [DatabaseManager::user_is_authorized_for_tool])

    No step is both self-attested and assessed, a completion is always somebody's
    with the right to record it, and the gate of a tool says exactly what the
    training rules do. *)
From Stdlib Require Import QArith.
From S2P Require Import Prelude Text Rbac Schedules Access Faults Money Database ToolBilling Api Power PowerTopology Training.
Import Text Rbac Schedules Faults Money Database Api Power Training.

Module TrainingGate.

#[local] Open Scope Z_scope.

Section TrainingGate.
Context {U : Uuid} {IS : IdSource} {tz : TimeZone} {IP : Access.IntervalParser} {D : Decimal}.

(** ** Calls that only look, and records *)

Lemma reads_base {A} (m : Faults.M Db DatabaseError A) R : reads m R -> reads (base_call m) (fun db x => R (money db) x).
Proof.
  intros H. exact (reads_within (D := TrainingDb) (P := PowerDb) _ (fun p x => R (base p) x)
    (reads_within (D := PowerDb) (P := Db) m R H)).
Qed.

Lemma reads_lift {A} (m : Faults.M TrainingDb DatabaseError A) R : reads m R -> reads (lift m) R.
Proof. apply reads_map_err. Qed.

Definition certifies (db : TrainingDb) (uid : uuid) : bool :=
  has_permission (rbac (money db)) (roles_for_user (money db) uid) "training.certify".

Definition instructs (now : instant) (db : TrainingDb) (uid sid : uuid) : bool :=
  is_some_and (instructors db !! (uid, sid))
    (fun i => is_none_or (instructor_expires_at i) (fun e => now <? e)).

Lemma reads_may_certify uid : reads (may_certify uid) (fun db b => b = certifies db uid).
Proof.
  exact (reads_lift _ _ (reads_base _ (fun d b =>
    b = has_permission (rbac d) (roles_for_user d uid) "training.certify") (reads_select _))).
Qed.

Lemma reads_instructor now uid sid :
  reads (lift (is_certified_instructor now uid sid)) (fun db b => b = instructs now db uid sid).
Proof. apply reads_lift, reads_select. Qed.

Lemma reads_step sid : reads (step_or_404 sid) (fun db s => steps db !! sid = Some s).
Proof.
  eapply reads_bind; [apply reads_lift, reads_select|]. intros [s|]; [|apply reads_throw].
  by apply reads_ret.
Qed.

(** An invariant of the training tables that the money tables do not touch. *)
Definition power_free (I : TrainingDb -> Prop) : Prop := forall db p, I db -> I (with_power p db).

Lemma keeps_log I event uid : power_free I -> keeps I (log_event event uid).
Proof. intros H. apply keeps_map_err, keeps_within_frame, H. Qed.

#[local] Hint Resolve keeps_unless keeps_log : css.
#[local] Hint Extern 2 (keeps _ (lift _)) => apply keeps_map_err : css.
#[local] Hint Extern 2 (keeps _ (step_or_404 _)) => eapply keeps_reads, reads_step : css.
#[local] Hint Extern 2 (keeps _ (may_certify _)) => eapply keeps_reads, reads_may_certify : css.
#[local] Hint Extern 2 (keeps _ (is_certified_instructor _ _ _)) => apply keeps_select : css.
#[local] Hint Extern 2 (keeps _ (has_user_progress_for_step _)) => apply keeps_select : css.
#[local] Hint Extern 2 (keeps _ (get_training_step_by_id _)) => apply keeps_select : css.

(** ** Attested or assessed *)

Definition separate (db : TrainingDb) : Prop :=
  forall k s, steps db !! k = Some s -> self_attestable s && requires_assessment s = false.

Lemma separate_same db db' : steps db' = steps db -> separate db -> separate db'.
Proof. intros H Hs k s. rewrite H. apply Hs. Qed.

Lemma separate_put db k s :
  separate db -> self_attestable s && requires_assessment s = false ->
  separate (with_steps <[k := s]> db).
Proof.
  intros Hs H j t. simpl. rewrite lookup_insert_Some. intros [[<- <-]|[_ Ht]]; [done | by eapply Hs].
Qed.

Lemma separate_power : power_free separate.
Proof. intros db p. by apply separate_same. Qed.
#[local] Hint Resolve separate_power : css.

Lemma separate_put_step db k s :
  separate db -> self_attestable s && requires_assessment s = false -> separate (put_step k s db).1.
Proof.
  intros Hs H. unfold put_step. destruct (_ <=? 0); [done|]. destruct (number_taken _ _ _ _); [done|].
  by apply separate_put.
Qed.

(** An operation that leaves the steps alone. *)
Lemma keeps_separate_call {A} (f : TrainingDb -> TrainingDb * (A + DatabaseError)) :
  (forall db, steps (f db).1 = steps db) -> keeps separate (call f).
Proof. intros H. apply keeps_call. intros db. by apply separate_same. Qed.

Lemma both_false a b :
  (Some a ≟ Some true) && (Some b ≟ Some true) = false -> a && b = false.
Proof. by destruct a, b. Qed.

Lemma keeps_update_step sid u : keeps separate (update_training_step sid u).
Proof.
  unfold update_training_step. eapply triple_bind; [apply triple_reads, reads_step|].
  intros s. eapply triple_bind.
  - apply triple_reads. unfold reject_self_attestable_assessment.
    apply (reads_unless _ _ _ (fun _ _ => True)), reads_ret. done.
  - intros []. apply triple_map_err, triple_call. intros db Hs ((_ & Hc) & Hb & _). rewrite Hc.
    split; [|done]. apply separate_put; [done|]. by apply both_false.
Qed.

(** Case analysis on an operation that leaves a table alone. *)
Ltac untouched := intros ?; cbv zeta; unfold insert_progress, put_progress, put_step;
  repeat case_match; simplify_eq/=; done.

Lemma keeps_separate_start now uid req : keeps separate (start_training now uid req).
Proof. apply keeps_separate_call. untouched. Qed.

Lemma keeps_separate_complete now uid req : keeps separate (complete_training now uid req).
Proof. apply keeps_bind; [auto with css|]. intros s. apply keeps_separate_call. untouched. Qed.

(** No step is both for the trainee to attest and for somebody else to assess:
    whatever is created or changed, one field at a time or both. *)
Theorem attestation_excludes_assessment now r : keeps separate (handle now r).
Proof.
  destruct r; simpl; try (apply keeps_bind; [|intros; apply keeps_ret]); auto with css.
  - unfold create_step. eapply triple_bind.
    + apply (triple_reads separate (fun _ => True)). unfold reject_self_attestable_assessment.
      apply (reads_unless _ _ _ (fun _ _ => True)), reads_ret. done.
    + intros []. apply triple_bind with (R := fun _ _ => True);
        [|intros s; apply triple_keeps, keeps_bind; [auto with css | intros; apply keeps_ret]].
      apply triple_map_err, triple_call. intros db Hs (_ & Hb & _). split; [|by case_match].
      cbv zeta. case_match; [by apply separate_power|]. case_match; [by apply separate_power|].
      apply separate_put_step; [by apply separate_power|]. simpl.
      destruct (ns_self_attestable n) as [[]|], (ns_requires_assessment n) as [[]|]; done.
  - apply keeps_update_step.
  - unfold delete_training_step. run_keeps. apply keeps_unless. run_keeps. apply keeps_map_err, keeps_call.
    intros db Hs. case_match; [|done]. intros k s. simpl. rewrite lookup_delete_Some.
    intros [_ Hk]. by eapply Hs.
  - apply keeps_map_err, keeps_call. intros db Hs. destruct (steps db !! sid) as [s|] eqn:E; [|done].
    destruct (put_step _ _ _) as [db' r] eqn:Ep. simpl. change db' with (db', r).1. rewrite <- Ep.
    apply separate_put_step; [done|]. simpl. by eapply Hs.
  - apply keeps_map_err, keeps_separate_call. untouched.
  - apply keeps_map_err, keeps_separate_call. untouched.
  - unfold update_training_progress. run_keeps; apply keeps_unless, keeps_map_err, keeps_separate_call; untouched.
  - unfold start_training_session. run_keeps; apply keeps_unless; run_keeps;
      apply keeps_map_err, keeps_separate_start.
  - unfold complete_training_session. run_keeps; repeat apply keeps_unless; run_keeps;
      apply keeps_map_err, keeps_separate_complete.
  - unfold certify_instructor. run_keeps. apply keeps_map_err, keeps_separate_call. untouched.
  - unfold revoke_instructor_certification. run_keeps. apply keeps_map_err, keeps_separate_call. untouched.
  - unfold grant_waiver. apply keeps_unless. run_keeps. apply keeps_map_err, keeps_separate_call. untouched.
  - unfold revoke_waiver. run_keeps. apply keeps_map_err, keeps_separate_call. untouched.
Qed.

(** ** Who signs a completion *)

Definition completed (db : TrainingDb) (uid sid : uuid) : Prop :=
  exists p, progress db !! (uid, sid) = Some p /\ progress_status p = Completed.

(** The right to record that [uid] has completed [sid]: over everybody's training,
    as an instructor certified for that step, or over one's own where the step is
    for the trainee to attest. *)
Definition may_sign (now : instant) (db : TrainingDb) (actor uid sid : uuid) : Prop :=
  certifies db actor = true \/ instructs now db actor sid = true \/
  (actor = uid /\ exists s, steps db !! sid = Some s /\ self_attestable s = true).

Definition signer (r : request) : option uuid :=
  match r with
  | UpdateProgress user _ _ _ _ _ | CompleteSession user _ _ => Some user
  | _ => None
  end.

(** Nothing is completed that was not, unless [G]. *)
Definition no_news (db0 : TrainingDb) (uid sid : uuid) (G : Prop) (db : TrainingDb) : Prop :=
  completed db uid sid -> completed db0 uid sid \/ G.

Lemma no_news_same db0 uid sid G db db' :
  progress db' = progress db -> no_news db0 uid sid G db -> no_news db0 uid sid G db'.
Proof. intros E H. unfold no_news, completed. by rewrite E. Qed.

Lemma no_news_power db0 uid sid G : power_free (no_news db0 uid sid G).
Proof. intros db p. by apply no_news_same. Qed.
#[local] Hint Resolve no_news_power : css.

Lemma no_news_put db0 uid sid G db k p :
  no_news db0 uid sid G db -> (k = (uid, sid) -> progress_status p = Completed -> G) ->
  no_news db0 uid sid G (with_progress <[k := p]> db).
Proof.
  intros H Hp (q & Hq & Hc). simpl in Hq. rewrite lookup_insert_Some in Hq.
  destruct Hq as [[-> <-]|[_ Hq]]; [right; by apply Hp|]. apply H. by exists q.
Qed.

Lemma keeps_news_call {A} db0 uid sid G (f : TrainingDb -> TrainingDb * (A + DatabaseError)) :
  (forall db, progress (f db).1 = progress db) -> keeps (no_news db0 uid sid G) (call f).
Proof. intros H. apply keeps_call. intros db. by apply no_news_same. Qed.

Lemma no_news_put_progress db0 uid sid G db u s p :
  no_news db0 uid sid G db -> ((u, s) = (uid, sid) -> progress_status p = Completed -> G) ->
  no_news db0 uid sid G (put_progress u s p db).1.
Proof. intros H Hp. unfold put_progress. destruct (progress_ok p); [by apply no_news_put | done]. Qed.

Lemma triple_call_first {A} {D0 E} {F : FaultError E} I P (f : D0 -> D0 * (A + E)) :
  (forall db, I db -> P db -> I (f db).1) -> triple I P (call f) (fun _ _ => True).
Proof. intros H. apply triple_call. intros db Hi Hp. split; [by apply H | by case_match]. Qed.

Section Signed.
Context (now : instant) (db0 : TrainingDb) (uid sid : uuid).

(** The guard of an update, and of a completion. *)
Lemma news_update user target s status score notes :
  let G := may_sign now db0 user uid sid in
  triple (no_news db0 uid sid G) (fun db => db = db0)
    (update_training_progress now user target s status score notes) (fun _ _ => True).
Proof.
  intros G. unfold update_training_progress.
  eapply triple_bind; [apply triple_reads, reads_may_certify|]. intros certify.
  apply triple_bind with (R := fun can db => can = true ->
    (target, s) = (uid, sid) -> G).
  - destruct certify.
    + apply triple_ret. intros db _ [-> Hc] _ _. left. by rewrite <- Hc.
    + eapply triple_weaken; [apply triple_reads, reads_instructor | exact (fun _ _ H => H)|].
      intros b db _ [[-> _] ->] Hi E. injection E as -> ->. right. by left.
  - intros can. apply triple_unless. intros Hb. apply triple_map_err, triple_call_first.
    intros db Hn Hg. destruct (progress db !! (target, s)) as [p|]; [|done].
    apply no_news_put_progress; [done|]. intros E _. apply Hg; [|done]. by destruct can.
Qed.

Lemma news_complete user target req :
  let G := may_sign now db0 user uid sid in
  triple (no_news db0 uid sid G) (fun db => db = db0)
    (complete_training_session now user target req) (fun _ _ => True).
Proof.
  intros G. unfold complete_training_session.
  eapply triple_bind; [apply triple_reads, reads_step|]. intros step.
  eapply triple_bind; [apply triple_reads, reads_may_certify|]. intros certify.
  apply triple_bind with (R := fun ins db => db = db0 /\ steps db !! ct_training_step_id req = Some step
    /\ (ins = true -> (target, ct_training_step_id req) = (uid, sid) -> G)).
  - destruct certify.
    + apply triple_ret. intros db _ [[-> Hs] Hc]. split_and!; [done..|]. intros _ _. left.
      by rewrite <- Hc.
    + eapply triple_weaken; [apply triple_reads, reads_instructor | exact (fun _ _ H => H)|].
      intros b db _ [[[-> Hs] _] ->]. split_and!; [done..|]. intros Hi E.
      injection E as <- <-. right. by left.
  - intros ins. apply triple_unless. intros Hb. apply triple_unless. intros _.
    apply triple_unless. intros _. apply triple_bind with (R := fun _ _ => True).
    + unfold complete_training. apply triple_map_err.
      eapply triple_bind; [apply triple_reads, reads_select|]. intros s. apply triple_call_first.
      intros db Hn [(-> & Hs & Hg) _]. destruct (progress db0 !! _) as [p|]; [|done].
      apply no_news_put_progress; [done|]. intros E _. simpl in Hb.
      destruct ins; [by apply Hg|]. simpl in Hb. apply negb_false_iff, andb_true_iff in Hb as [Ha Hu].
      apply bool_decide_eq_true in Hu as ->. injection E as <- <-. right. right. split; [done|].
      by exists step.
    + intros p. apply triple_keeps, keeps_bind; [|intros; apply keeps_ret]. destruct (_ && _); auto with css.
Qed.

Lemma news_start req user target G :
  keeps (no_news db0 uid sid G) (start_training_session now user target req).
Proof.
  unfold start_training_session.
  apply keeps_bind; [case_match; auto with css|]. intros allowed. apply keeps_unless.
  apply keeps_bind; [|intros; apply keeps_bind; auto with css]. apply keeps_map_err, keeps_call.
  intros db Hn. destruct (progress db !! _) as [p|].
  - apply no_news_put_progress; [done|]. by intros _.
  - unfold insert_progress. destruct (_ && _); [|done].
    apply no_news_put_progress; [by apply no_news_power|]. by intros _.
Qed.
End Signed.

Lemma news_mono {A} db uid sid (G G' : Prop) (m : Faults.M TrainingDb ApiError A) :
  triple (no_news db uid sid G) (fun d => d = db) m (fun _ _ => True) -> (G -> G') ->
  triple (no_news db uid sid G') (fun d => d = db) m (fun _ _ => True).
Proof.
  intros H Hg d fs _ ->. specialize (H db fs ltac:(by left) eq_refl).
  destruct (m (db, fs)) as [[d' fs'] x]. destruct H as [H _]. split; [|by destruct x].
  intros Hc. destruct (H Hc); [by left | right; auto].
Qed.

(** A step is completed for a trainee only by somebody with the right to say so:
    staff, an instructor certified for that very step and not lapsed, or the trainee
    for a step that is theirs to attest -- whatever the request and whatever its
    calls meet. *)
Theorem completion_is_signed now r db fs uid sid :
  ~ completed db uid sid ->
  let '((db', _), _) := handle now r (db, fs) in
  completed db' uid sid ->
  exists actor, signer r = Some actor /\ may_sign now db actor uid sid.
Proof.
  intros Hnot. set (G := exists actor, signer r = Some actor /\ may_sign now db actor uid sid).
  enough (triple (no_news db uid sid G) (fun d => d = db) (handle now r) (fun _ _ => True)) as Ht.
  { specialize (Ht db fs ltac:(by left) eq_refl). destruct (handle now r (db, fs)) as [[db' fs'] x].
    destruct Ht as [Ht _]. intros Hc. by destruct (Ht Hc). }
  destruct r; simpl handle.
  7: { eapply triple_bind; [|intros; apply triple_keeps, keeps_ret].
       eapply news_mono; [apply news_update|]. intros H. by exists user. }
  8: { eapply triple_bind; [|intros; apply triple_keeps, keeps_ret].
       eapply news_mono; [apply news_complete|]. intros H. by exists user. }
  all: apply triple_keeps; try (apply keeps_bind; [|intros; apply keeps_ret]); clearbody G.
  - unfold create_step, reject_self_attestable_assessment. run_keeps.
    apply keeps_map_err, keeps_news_call. untouched.
  - unfold update_training_step, reject_self_attestable_assessment. run_keeps.
    apply keeps_map_err, keeps_news_call. untouched.
  - unfold delete_training_step. run_keeps. apply keeps_unless. run_keeps. apply keeps_map_err, keeps_call.
    intros d Hn. case_match; [|done]. intros (p & Hp & Hc). simpl in Hp.
    rewrite map_lookup_filter_Some in Hp. apply Hn. exists p. tauto.
  - apply keeps_map_err, keeps_news_call. untouched.
  - apply keeps_map_err, keeps_news_call. untouched.
  - apply keeps_map_err, keeps_news_call. untouched.
  - apply news_start.
  - unfold certify_instructor. run_keeps. apply keeps_map_err, keeps_news_call. untouched.
  - unfold revoke_instructor_certification. run_keeps. apply keeps_map_err, keeps_news_call. untouched.
  - unfold grant_waiver. apply keeps_unless. run_keeps. apply keeps_map_err, keeps_news_call. untouched.
  - unfold revoke_waiver. run_keeps. apply keeps_map_err, keeps_news_call. untouched.
Qed.

(** ** The gate *)

(** A step the trainee has completed and that has not run out. *)
Definition current (now : instant) (db : TrainingDb) (uid sid : uuid) : Prop :=
  exists p, progress db !! (uid, sid) = Some p /\ progress_status p = Completed /\
    forall e, expires_at p = Some e -> now <= e.

Definition waived (now : instant) (db : TrainingDb) (uid tid : uuid) : Prop :=
  exists w, waivers db !! (uid, tid) = Some w /\ forall e, waiver_expires_at w = Some e -> now < e.

(** What a tool asks of somebody: nothing at all, or a waiver, or all its steps. *)
Definition trained (now : instant) (db : TrainingDb) (uid tid : uuid) (requires : bool) : Prop :=
  (step_ids_of db tid = [] /\ requires = false) \/ waived now db uid tid \/
  (step_ids_of db tid <> [] /\ forall sid, sid ∈ step_ids_of db tid -> current now db uid sid).

Lemma elem_of_step_ids db tid sid :
  sid ∈ step_ids_of db tid <-> exists s, steps db !! sid = Some s /\ step_tool_id s = tid.
Proof.
  unfold step_ids_of. rewrite list_elem_of_fmap. split.
  - intros ([k s] & -> & H). apply elem_of_lfilter in H as [H Ht]. apply elem_of_map_to_list in H.
    exists s. by apply bool_decide_eq_true in Ht.
  - intros (s & H & Ht). exists (sid, s). split; [done|]. apply elem_of_lfilter.
    rewrite elem_of_map_to_list. split; [done | by apply bool_decide_eq_true].
Qed.

Lemma run_all_completed now uid db sids :
  exists b, all_completed now uid sids (db, []) = ((db, []), inl b) /\
    (b = true <-> forall sid, sid ∈ sids -> current now db uid sid).
Proof.
  induction sids as [|sid sids (b & IH & Hb)].
  - exists true. split; [done|]. split; [|done]. intros _ sid H. inversion H.
  - cbn [all_completed]. unfold mbind, M_bind, get_progress_for_step, select, call.
    destruct (progress db !! (uid, sid)) as [p|] eqn:Ep; cycle 1.
    { exists false. split; [done|]. split; [done|]. intros H.
      destruct (H sid ltac:(by left)) as (p & Hp & _). congruence. }
    case_bool_decide as Es; cbn [negb]; cycle 1.
    { exists false. split; [done|]. split; [done|]. intros H.
      destruct (H sid ltac:(by left)) as (p' & Hp & Hc & _). congruence. }
    destruct (is_some_and (expires_at p) _) eqn:Ex.
    { exists false. split; [done|]. split; [done|]. intros H.
      destruct (H sid ltac:(by left)) as (p' & Hp & _ & He). rewrite Ep in Hp. injection Hp as <-.
      destruct (expires_at p) as [e|]; [|done]. specialize (He e eq_refl). simpl in Ex. lia. }
    rewrite IH. exists b. split; [done|]. rewrite Hb. split.
    + intros H s. rewrite elem_of_cons. intros [->|Hs]; [|by apply H].
      exists p. split_and!; [done..|]. intros e Ee. rewrite Ee in Ex. simpl in Ex. lia.
    + intros H s Hs. apply H. by right.
Qed.

Lemma waiver_bool now db uid tid :
  is_some_and (waivers db !! (uid, tid)) (fun w => is_none_or (waiver_expires_at w) (fun e => now <? e))
    = true <-> waived now db uid tid.
Proof.
  unfold waived. destruct (waivers db !! (uid, tid)) as [w|]; simpl; split; try done.
  - intros H. exists w. split; [done|]. intros e He. rewrite He in H. simpl in H. lia.
  - intros (w' & Hw & H). injection Hw as <-. destruct (waiver_expires_at w) as [e|]; [|done].
    simpl. apply Z.ltb_lt. by apply H.
  - intros (w & Hw & _). done.
Qed.

(** The engine, given no rules: the lockout and the training decide. *)
Lemma may_tool now uid lockout ok :
  Access.is_allow (Access.may
    {| Access.p_user_id := Some uid; Access.p_level := 0; Access.p_card_digests := ∅;
       Access.p_is_active := true |}
    {| Access.locked_out := lockout; Access.unavailable := None;
       Access.default_effect := Access.Open; Access.policy_schedule_id := None;
       Access.training_ok := Some ok; Access.metered_ok := None |}
    [] [] now (from_rows [] [] []) Access.Use) = negb lockout && ok.
Proof. by destruct lockout, ok. Qed.

Lemma gate_decides now db uid tid requires :
  exists b, run (user_is_authorized_for_tool now uid tid requires) db = (db, inl b) /\
    (b = true <-> PowerTopology.locked_out (power db) tid = false /\ trained now db uid tid requires).
Proof.
  set (lockout := PowerTopology.locked_out (power db) tid).
  set (has := 0 <? Z.of_nat (length (step_ids_of db tid))).
  assert (has = true <-> step_ids_of db tid <> []) as Hhas.
  { unfold has. destruct (step_ids_of db tid); simpl; split; try done; lia. }
  enough (exists ok,
    (if negb has && negb requires then mret true
     else waived ← user_has_active_waiver now uid tid;
       if waived : bool then mret true
       else if has then user_has_completed_all_training_steps now uid tid
       else mret false) (db, []) = ((db, []), inl ok) /\
    (ok = true <-> trained now db uid tid requires)) as (ok & Hrun & Hok).
  { exists (negb lockout && ok). split.
    - unfold run, user_is_authorized_for_tool. unfold mbind, M_bind at 1. unfold within at 1.
      rewrite PowerTopology.run_locked_out. simpl put. simpl part.
      replace (with_power (power db) db) with db by (by destruct db).
      unfold mbind, M_bind at 1, tool_has_training_steps, select, call. fold has.
      unfold M_bind at 1. unfold mbind in Hrun. rewrite Hrun. unfold mret, M_ret.
      by rewrite may_tool.
    - rewrite andb_true_iff, negb_true_iff, Hok. done. }
  unfold trained. destruct (negb has && negb requires) eqn:Efree.
  { exists true. split; [done|]. split; [|done]. intros _. left. apply andb_true_iff in Efree.
    rewrite !negb_true_iff in Efree. destruct Efree as [E1 E2]. split; [|done].
    destruct (step_ids_of db tid) eqn:Es; [done|]. rewrite <- not_true_iff_false, Hhas in E1. by destruct E1. }
  unfold mbind, M_bind, user_has_active_waiver at 1, select, call.
  destruct (is_some_and (waivers db !! (uid, tid)) _) eqn:Ew.
  { exists true. split; [done|]. apply waiver_bool in Ew. tauto. }
  assert (~ waived now db uid tid) as Hw by (rewrite <- waiver_bool; congruence).
  destruct has eqn:Eh.
  - unfold user_has_completed_all_training_steps, mbind, M_bind, select, call.
    destruct (run_all_completed now uid db (step_ids_of db tid)) as (b & Hb & Hiff).
    exists b. split; [by destruct (step_ids_of db tid); [injection Hb as <-|]|].
    rewrite Hiff. assert (step_ids_of db tid <> []) by by apply Hhas. tauto.
  - exists false. split; [done|]. split; [done|]. assert (~ step_ids_of db tid <> []) as Hn
      by (rewrite <- Hhas; done). destruct requires; [|done]. intros [[]|[|[]]]; done.
Qed.

Lemma honest_all_completed now uid sids : honest (all_completed now uid sids).
Proof. induction sids as [|sid sids IH]; cbn [all_completed]; run_honest. Qed.

Lemma keeps_all_completed I now uid sids : keeps I (all_completed now uid sids).
Proof. induction sids as [|sid sids IH]; cbn [all_completed]; run_keeps. Qed.

#[local] Hint Resolve honest_all_completed keeps_all_completed : css.

(** Under any faults, a gate that answers answers that. *)
Lemma reads_gate now uid tid requires :
  reads (user_is_authorized_for_tool now uid tid requires) (fun db b =>
    b = true <-> PowerTopology.locked_out (power db) tid = false /\ trained now db uid tid requires).
Proof.
  apply reads_honest.
  - unfold user_is_authorized_for_tool, tool_is_locked_out, find_opt, tool_has_training_steps,
      user_has_active_waiver, user_has_completed_all_training_steps. run_honest.
  - intros db0. unfold user_is_authorized_for_tool, tool_has_training_steps,
      user_has_active_waiver, user_has_completed_all_training_steps.
    apply keeps_bind; [|intros; run_keeps].
    apply (keeps_within _ (fun p => p = power db0)); [|by intros db ->|intros db p -> ->; by destruct db0].
    unfold tool_is_locked_out, find_opt. run_keeps.
  - intros db b Hb. destruct (gate_decides now db uid tid requires) as (b' & Hb' & Hiff).
    rewrite Hb in Hb'. by injection Hb' as <-.
Qed.

(** The gate of a tool is the rules and nothing else: somebody may use it exactly
    when neither it nor its circuit is locked out and it asks for no training, or
    they hold a waiver that has not run out, or they have completed every one of its
    steps and none has run out. *)
Theorem tool_gate_iff now db uid tid requires :
  exists b, run (user_is_authorized_for_tool now uid tid requires) db = (db, inl b) /\
    (b = true <-> PowerTopology.locked_out (power db) tid = false /\ trained now db uid tid requires).
Proof. apply gate_decides. Qed.

(** ** What a completion leaves *)

Record recorded (now : instant) (s : TrainingStep) (user target : uuid)
    (req : CompleteTrainingRequest) (p : UserTrainingProgress) : Prop := {
  recorded_status : progress_status p = if ct_passed req then Completed else Failed;
  recorded_at : completed_at p = Some now;
  recorded_expiry : expires_at p = if ct_passed req
    then (fun d => now + seconds (d * 86400)) <$> expires_after_days s else None;
  recorded_document : acknowledged_materials_url p = training_materials_url s;
  recorded_score : assessment_score p = ct_assessment_score req;
  recorded_attestation : self_attestable s = true -> user = target ->
    ct_passed req = true /\ assessment_score p = None;
}.

(** A completion that is answered is on record as it was sent: completed or
    failed, now, with the score, running out when the step's interval says, and with
    the document the trainee had before them at that moment; and one's own word for
    it never carries a score or a failure. *)
Theorem completion_recorded now user target req db :
  match run (complete_training_session now user target req) db with
  | (db', inl p) => exists s, steps db !! ct_training_step_id req = Some s /\
      progress db' !! (target, ct_training_step_id req) = Some p /\
      recorded now s user target req p
  | _ => True
  end.
Proof.
  set (sid := ct_training_step_id req).
  set (Q := fun p db' => exists s, steps db !! sid = Some s /\
    progress db' !! (target, sid) = Some p /\ recorded now s user target req p).
  enough (triple (fun _ => True) (fun d => d = db) (complete_training_session now user target req) Q) as Ht.
  { specialize (Ht db [] Logic.I eq_refl). unfold run.
    destruct (complete_training_session _ _ _ _ _) as [[db' fs] [p|e]]; [|done].
    by destruct Ht as [_ Ht]. }
  unfold complete_training_session.
  eapply triple_bind; [apply triple_reads, reads_step|]. intros s.
  eapply triple_bind; [apply triple_reads, reads_may_certify|]. intros certify.
  apply triple_bind with (R := fun _ d => d = db /\ steps db !! sid = Some s).
  { destruct certify; [apply triple_ret; by intros d _ [[-> Hs] _]|].
    eapply triple_weaken; [apply triple_reads, reads_instructor | exact (fun _ _ H => H)|].
    by intros b d _ [[[-> Hs] _] _]. }
  intros ins. apply triple_unless. intros _. apply triple_unless. intros H1.
  apply triple_unless. intros H2. apply triple_bind with (R := Q).
  - unfold complete_training. apply triple_map_err.
    eapply triple_bind; [apply triple_reads, reads_select|]. intros s'. apply triple_call.
    intros d _ [[-> Hs] ->]. fold sid. rewrite Hs. destruct (progress db !! _) as [p0|]; [|done].
    unfold put_progress. destruct (progress_ok _); [|done]. split; [done|]. exists s.
    split; [done|]. split; [by simpl; rewrite lookup_insert_eq|]. split; try done.
    intros Ha ->. rewrite Ha, bool_decide_eq_true_2 in H1, H2 by done. simpl in H1, H2.
    by destruct (ct_passed req), (ct_assessment_score req).
  - intros p. apply triple_bind with (R := fun _ => Q p); [|intros; by apply triple_ret].
    apply triple_kept; [|apply keeps_log; by intros d]. apply keeps_log. by intros d q.
Qed.

(** ** What the tables refuse, and what they let through *)

(** Starting a step again once it has a completion date is always refused: the new
    start is after the old completion, and the table checks that it is not. *)
Lemma restart_refused now user req db p c :
  progress db !! (user, st_training_step_id req) = Some p -> completed_at p = Some c -> c < now ->
  run (start_training_session now user user req) db =
    (db, inr (BadRequest "A value was not one this field accepts")).
Proof.
  intros Hp Hc Hlt. unfold run, start_training_session. rewrite bool_decide_eq_true_2 by done.
  unfold mbind, M_bind, mret, M_ret, unless, lift, map_err, start_training, call.
  cbn [negb]. rewrite Hp. unfold put_progress, progress_ok. cbn [progress_started_at completed_at assessment_score].
  rewrite Hc. simpl. replace (now <=? c) with false by lia. by rewrite andb_false_r.
Qed.

(** A first completion recorded for a trainee never runs out, whatever interval the
    step has: the insert sets no expiry and no completion date. *)
Lemma first_completion_never_expires now trainee sid instructor notes db s u :
  progress db !! (trainee, sid) = None -> steps db !! sid = Some s ->
  users (money db) !! trainee = Some u ->
  exists db' p, run (record_step_completion now trainee sid instructor "completed" notes) db =
      (db', inl tt) /\ progress db' !! (trainee, sid) = Some p /\
    progress_status p = Completed /\ expires_at p = None /\ completed_at p = None.
Proof.
  intros Hp Hs Hu. unfold run, record_step_completion, parse_completion.
  rewrite !bool_decide_eq_true_2 by done.
  unfold mbind, M_bind, get_training_step_by_id, select, call, mret, M_ret.
  rewrite Hp. unfold insert_progress. rewrite Hu, Hs. cbn [is_some andb].
  eexists _, _. split; [reflexivity|]. simpl. rewrite lookup_insert_eq. done.
Qed.

End TrainingGate.
End TrainingGate.
