(* ===== verification/GuardStore.v ===== *)
(** * The tables behind the device surface ([server/src/database.rs])

    Devices and their bindings, cards, tool events, sessions of resources, doors and
    their rules, beside the training, power and money tables; and the methods of
    [DatabaseManager] the tool-guard and resource routes call.  Sealing a card is
    cryptography: a [CardCipher] is the two digests it computes of a code. *)
From Stdlib Require Import QArith.
From S2P Require Import Prelude Text EdgeModules Rbac Schedules Access Faults Money Database Power Training.
Import Text Rbac Faults Money Database Power Training.

Module GuardStore.

#[local] Open Scope Z_scope.

(** ** Vocabularies *)

Inductive CardStatus : Type := ActiveCard | DisabledCard | ReleasedCard.

#[global] Instance CardStatus_eq_dec : EqDecision CardStatus.
Proof. solve_decision. Defined.

Definition grants_access (s : CardStatus) : bool :=
  match s with ActiveCard => true | _ => false end.

Definition is_revoked (s : CardStatus) : bool :=
  match s with DisabledCard | ReleasedCard => true | ActiveCard => false end.

Inductive ResourceKind : Type := DoorKind | ToolKind.

Definition resource_kind_as_str (k : ResourceKind) : string :=
  match k with DoorKind => "door" | ToolKind => "tool" end.

(** [session_profile] and [session_closed_by]. *)
Definition MOMENTARY : string := "momentary".
Definition UNTIL_STOPPED : string := "until_stopped".
Definition PROFILES : list string := [MOMENTARY; UNTIL_STOPPED].

Definition default_session_profile (k : ResourceKind) : string :=
  match k with DoorKind => MOMENTARY | ToolKind => UNTIL_STOPPED end.

Definition BY_STOP : string := "stop".
Definition BY_SWEEP : string := "sweep".
Definition BY_ADMIN : string := "admin".

(** [binding_role]. *)
Definition POWER : string := "power".
Definition EDGE : string := "edge".
Definition STRIKE : string := "strike".

(** What [css_lib::card_crypto::CardCipher] computes of a code: the blind index a
    card row is found by, and the digest a device holds (argon2, which can fail). *)
Record CardCipher := {
  blind_index : string -> string;
  wire_digest : string -> option string;
}.

Definition hex_nibble (n : Z) : Ascii.ascii :=
  Ascii.ascii_of_nat (Z.to_nat (if n <? 10 then n + 48 else n + 87)).

(** [hex::encode]. *)
Fixpoint hex_encode (s : string) : string :=
  match s with
  | String.EmptyString => String.EmptyString
  | String.String c s =>
      String.String (hex_nibble (Z.shiftr (byte c) 4))
        (String.String (hex_nibble (Z.land (byte c) 15)) (hex_encode s))
  end.

(** [v->>'f'] on a value that is there: its text. *)
Class JsonbText := jsonb_text : json -> option string.

Section GuardStore.
Context {U : Uuid} {IS : IdSource} {TH : TokenHash} {JT : JsonbText}.
Context {tz : Schedules.TimeZone} {IP : Access.IntervalParser}.

(** ** Rows *)

Record SpaceDevice := {
  device_name : string;
  deleted_at : option instant;
  last_seen_at : option instant;
}.

Record DeviceBinding := {
  binding_id : uuid;
  binding_name : string;
  binding_resource : uuid;
  binding_device : uuid;
  binding_role : string;
  binding_pulse_ms : Z;
  hold_open_access : bool;
}.

Record UserCard := {
  card_id : uuid;
  card_user_id : uuid;
  code_bidx : option string;
  code_wire_digest : option string;
  card_status : CardStatus;
  last_used_at : option instant;
  card_created_at : instant;
}.

Inductive CardResolution : Type :=
  | Active (user : User) (card : option UserCard)
  | Revoked (user : User) (card : UserCard)
  | Unknown.

Record ToolEvent := {
  event_tool_id : uuid;
  event_type : string;
  old_status : option ToolStatus;
  new_status : option ToolStatus;
  event_user_id : option uuid;
  event_actor_id : option uuid;
  event_created_at : instant;
}.

Record Resource := {
  resource_row_id : uuid;
  kind : string;
  session_profile : string;
}.

Record ResourceSession := {
  rs_id : uuid;
  rs_resource_id : uuid;
  rs_user_id : option uuid;
  rs_device_id : option uuid;
  opened_at : instant;
  closed_at : option instant;
  closed_by : option string;
}.

Record DoorAccessEvent := {
  dae_door_id : uuid;
  dae_user_id : option uuid;
  dae_method : string;
  card_id_attempted : option string;
  granted : bool;
  dae_reason : option string;
}.

(** What a handler asks to have published: allow-lists, the lockouts, the wiring. *)
Inductive Scope : Type := All | ToolScope (tid : uuid).

Inductive Broadcast : Type :=
  | AllowLists (s : Scope)
  | PowerSnapshot
  | ModuleSnapshot.

(** Bindings, rules and schedules stand in the order their queries return them:
    creation, creation, name. *)
Record GuardDb := {
  training : TrainingDb;
  devices : gmap uuid SpaceDevice;
  device_tokens : list (uuid * string);
  bindings : list DeviceBinding;
  cards : gmap uuid UserCard;
  tool_events : list ToolEvent;
  resources : gmap uuid Resource;
  resource_sessions : list ResourceSession;
  doors : gmap uuid Access.DoorRow;
  access_rules : list Access.AccessRule;
  schedules : list Access.Schedule;
  door_events : list DoorAccessEvent;
  outbox : list Broadcast;
}.

Definition money_of (db : GuardDb) : Db := money (training db).

Definition with_training (t : TrainingDb) (db : GuardDb) : GuardDb := {|
  training := t; devices := devices db; device_tokens := device_tokens db;
  bindings := bindings db; cards := cards db; tool_events := tool_events db;
  resources := resources db; resource_sessions := resource_sessions db; doors := doors db;
  access_rules := access_rules db; schedules := schedules db; door_events := door_events db;
  outbox := outbox db |}.

#[export] Instance guard_training : Part GuardDb TrainingDb :=
  {| part := training; put := with_training; part_put := ltac:(done);
     put_part := ltac:(by intros []); put_put := ltac:(done) |}.

Definition with_devices (f : gmap uuid SpaceDevice -> gmap uuid SpaceDevice) (db : GuardDb)
    : GuardDb := {|
  training := training db; devices := f (devices db); device_tokens := device_tokens db;
  bindings := bindings db; cards := cards db; tool_events := tool_events db;
  resources := resources db; resource_sessions := resource_sessions db; doors := doors db;
  access_rules := access_rules db; schedules := schedules db; door_events := door_events db;
  outbox := outbox db |}.

Definition with_cards (f : gmap uuid UserCard -> gmap uuid UserCard) (db : GuardDb) : GuardDb := {|
  training := training db; devices := devices db; device_tokens := device_tokens db;
  bindings := bindings db; cards := f (cards db); tool_events := tool_events db;
  resources := resources db; resource_sessions := resource_sessions db; doors := doors db;
  access_rules := access_rules db; schedules := schedules db; door_events := door_events db;
  outbox := outbox db |}.

Definition with_tool_events (f : list ToolEvent -> list ToolEvent) (db : GuardDb) : GuardDb := {|
  training := training db; devices := devices db; device_tokens := device_tokens db;
  bindings := bindings db; cards := cards db; tool_events := f (tool_events db);
  resources := resources db; resource_sessions := resource_sessions db; doors := doors db;
  access_rules := access_rules db; schedules := schedules db; door_events := door_events db;
  outbox := outbox db |}.

Definition with_resources (f : gmap uuid Resource -> gmap uuid Resource) (db : GuardDb)
    : GuardDb := {|
  training := training db; devices := devices db; device_tokens := device_tokens db;
  bindings := bindings db; cards := cards db; tool_events := tool_events db;
  resources := f (resources db); resource_sessions := resource_sessions db; doors := doors db;
  access_rules := access_rules db; schedules := schedules db; door_events := door_events db;
  outbox := outbox db |}.

Definition with_resource_sessions (f : list ResourceSession -> list ResourceSession)
    (db : GuardDb) : GuardDb := {|
  training := training db; devices := devices db; device_tokens := device_tokens db;
  bindings := bindings db; cards := cards db; tool_events := tool_events db;
  resources := resources db; resource_sessions := f (resource_sessions db); doors := doors db;
  access_rules := access_rules db; schedules := schedules db; door_events := door_events db;
  outbox := outbox db |}.

Definition with_door_events (f : list DoorAccessEvent -> list DoorAccessEvent) (db : GuardDb)
    : GuardDb := {|
  training := training db; devices := devices db; device_tokens := device_tokens db;
  bindings := bindings db; cards := cards db; tool_events := tool_events db;
  resources := resources db; resource_sessions := resource_sessions db; doors := doors db;
  access_rules := access_rules db; schedules := schedules db; door_events := f (door_events db);
  outbox := outbox db |}.

Definition with_outbox (f : list Broadcast -> list Broadcast) (db : GuardDb) : GuardDb := {|
  training := training db; devices := devices db; device_tokens := device_tokens db;
  bindings := bindings db; cards := cards db; tool_events := tool_events db;
  resources := resources db; resource_sessions := resource_sessions db; doors := doors db;
  access_rules := access_rules db; schedules := schedules db; door_events := door_events db;
  outbox := f (outbox db) |}.

Abbreviation M := (Faults.M GuardDb DatabaseError).

(** The methods of the tables underneath, from here. *)
Definition training_call {A} (m : Faults.M TrainingDb DatabaseError A) : M A := within (P := TrainingDb) m.
Definition power_call {A} (m : Faults.M PowerDb DatabaseError A) : M A := training_call (within (P := PowerDb) m).
Definition money_call {A} (m : Faults.M Db DatabaseError A) : M A := training_call (base_call m).

(** ** Devices *)

Definition live_device (db : GuardDb) (did : uuid) : bool :=
  is_some_and (devices db !! did) (fun d => negb (is_some (deleted_at d))).

Definition find_device_by_auth_token (token : string) : M (option (uuid * string)) :=
  select (fun db => find_first
    (fun dt => (dt.2 ≟ hash_token token) && live_device db dt.1) (device_tokens db)).

Definition touch_device_last_seen (now : instant) (did : uuid) : M bool :=
  call (fun db =>
    if live_device db did
    then (with_devices (alter (fun d => {| device_name := device_name d; deleted_at := deleted_at d;
                                           last_seen_at := Some now |}) did) db, inl true)
    else (db, inl false)).

Definition is_bound (db : GuardDb) (did rid : uuid) : bool :=
  existsb (fun b => (binding_device b ≟ did) && (binding_resource b ≟ rid)) (bindings db).

Definition is_bound_as (db : GuardDb) (did rid : uuid) (role : string) : bool :=
  existsb (fun b => (binding_device b ≟ did) && (binding_resource b ≟ rid) &&
                    (binding_role b ≟ role)) (bindings db).

Definition device_is_bound_to_tool (did tid : uuid) : M bool :=
  select (fun db => is_bound db did tid).

Definition device_is_bound_to_tool_in_role (did tid : uuid) (role : string) : M bool :=
  select (fun db => is_bound_as db did tid role).

Definition coordinates (db : GuardDb) (edge subject : uuid) : bool :=
  existsb (fun b => (binding_device b ≟ edge) && (binding_role b ≟ EDGE) &&
                    is_bound db subject (binding_resource b)) (bindings db).

(** Two statements on one connection, with an early return between them. *)
Definition device_coordinates_device (edge subject : uuid) : M bool :=
  coordinated ← select (fun db => binding_resource <$> List.filter
    (fun b => (binding_device b ≟ edge) && (binding_role b ≟ EDGE)) (bindings db));
  match coordinated with
  | [] => mret false
  | _ => select (fun db => existsb
      (fun b => (binding_device b ≟ subject) && bool_decide (binding_resource b ∈ coordinated))
      (bindings db))
  end.

Definition device_binding_pairs : M (list (uuid * uuid)) :=
  select (fun db => (fun b => (binding_device b, binding_resource b)) <$> bindings db).

Definition list_approved_devices : M (list uuid) :=
  select (fun db => List.filter (live_device db) (map_to_list (devices db)).*1).

(** The door's strike bindings, earliest first. *)
Definition strike_rows (db : GuardDb) (rid : uuid) : list (Z * bool) :=
  (fun b => (binding_pulse_ms b, hold_open_access b)) <$> List.filter
    (fun b => (binding_resource b ≟ rid) && (binding_role b ≟ STRIKE)) (bindings db).

Definition door_strike (rid : uuid) : M (option Access.StrikeProfile) :=
  select (fun db => Access.door_strike (strike_rows db rid)).

(** ** Tools *)

Definition get_tool_by_id (tid : uuid) : M (option Tool) := money_call (Database.get_tool_by_id tid).

Definition get_tool_by_external_id (name : string) : M (option Tool) :=
  money_call (select (fun db => snd <$> find_first
    (fun kt => external_id kt.2 ≟ Some name) (map_to_list (tools db)))).

Definition tool_in_use (t : Tool) : bool := match tool_status t with InUse => true | _ => false end.

Definition get_inuse_tools : M (list Tool) :=
  money_call (select (fun db => List.filter tool_in_use (map_to_list (tools db)).*2)).

Definition update_tool_status (now : instant) (tid : uuid) (st : ToolStatus) : M Tool :=
  money_call (call (fun db =>
    match tools db !! tid with
    | None => (db, inr NotFound)
    | Some t => (with_tools <[tid := set_status st now t]> db, inl (set_status st now t))
    end)).

(** One statement: only an idle tool is taken. *)
Definition try_activate_tool (now : instant) (tid : uuid) : M bool :=
  money_call (call (fun db =>
    match tools db !! tid with
    | Some t =>
        match tool_status t with
        | Idle => (with_tools <[tid := set_status InUse now t]> db, inl true)
        | _ => (db, inl false)
        end
    | None => (db, inl false)
    end)).

Definition create_tool_event (e : ToolEvent) : M unit :=
  call (fun db =>
    if is_some (tools (money_of db) !! event_tool_id e) &&
       is_none_or (event_user_id e) (fun u => is_some (users (money_of db) !! u)) &&
       is_none_or (event_actor_id e) (fun u => is_some (users (money_of db) !! u))
    then (with_tool_events (fun l => l ++ [e]) db, inl tt)
    else (db, inr ForeignKeyViolation)).

(** [ORDER BY created_at DESC LIMIT 1]; among events of one instant, the last. *)
Definition latest_activated (db : GuardDb) (tid : uuid) : option ToolEvent :=
  match sort_by (fun a b => event_created_at b <=? event_created_at a)
    (List.filter (fun e => (event_tool_id e ≟ tid) && (event_type e ≟ "activated"%string))
       (reverse (tool_events db))) with
  | e :: _ => Some e
  | [] => None
  end.

Definition latest_activation (tid : uuid) : M (option ToolEvent) :=
  select (fun db => latest_activated db tid).

(** ** Cards *)

Definition newest_first (l : list UserCard) : list UserCard :=
  sort_by (fun a b => card_created_at b <=? card_created_at a) l.

(** A live row of the code before any released one, of those the latest. *)
Definition card_by_index (db : GuardDb) (bidx : string) : option UserCard :=
  let rows := List.filter (fun c => code_bidx c ≟ Some bidx) (map_to_list (cards db)).*2 in
  option_or (find_first (fun c => negb (card_status c ≟ ReleasedCard)) rows)
    (head (newest_first (List.filter (fun c => card_status c ≟ ReleasedCard) rows))).

(** [profile->>'f' = $1 OR profile->'f' ? $1]. *)
Definition jsonb_exists (v : json) (code : string) : bool :=
  match v with
  | JStr s => s ≟ code
  | JArr l => existsb (fun x => match x with JStr s => s ≟ code | _ => false end) l
  | JObj kvs => existsb (fun kv => kv.1 ≟ code) kvs
  | _ => false
  end.

Definition profile_names (field code : string) (u : User) : bool :=
  is_some_and (json_get (profile u) field) (fun v =>
    is_some_and (jsonb_text v) (fun t => t ≟ code) || jsonb_exists v code).

Definition field_char (c : Ascii.ascii) : bool :=
  let z := byte c in
  ((48 <=? z) && (z <=? 57)) || ((65 <=? z) && (z <=? 90)) || ((97 <=? z) && (z <=? 122)) ||
  (z =? 95).

Definition find_user_by_profile_field (field code : string) : M (option User) :=
  if (field ≟ String.EmptyString) || negb (forallb field_char (bytes field))
  then throw (OtherError ("invalid profile field name (must be [A-Za-z0-9_]+): " +:+
                          ModuleState.dquote +:+ ModuleState.escape_debug field +:+
                          ModuleState.dquote))
  else money_call (select (fun db =>
    find_first (profile_names field code) (map_to_list (users db)).*2)).

Definition resolve_card (field code : string) (cipher : option CardCipher) : M CardResolution :=
  card ← match cipher with
         | Some c => select (fun db => card_by_index db (blind_index c code))
         | None => mret None
         end;
  match card with
  | Some card =>
      u ← money_call (find_user_by_id (card_user_id card));
      match u with
      | None => throw NotFound
      | Some u => mret (if grants_access (card_status card) then Active u (Some card)
                        else Revoked u card)
      end
  | None =>
      u ← find_user_by_profile_field field code;
      mret match u with Some u => Active u None | None => Unknown end
  end.

Definition touch_card_last_used (now : instant) (cid : uuid) : M unit :=
  call (fun db => (with_cards (alter (fun c => {|
    card_id := card_id c; card_user_id := card_user_id c; code_bidx := code_bidx c;
    code_wire_digest := code_wire_digest c; card_status := card_status c;
    last_used_at := Some now; card_created_at := card_created_at c |}) cid) db, inl tt)).

(** [cards_in_profile]: the non-empty strings at a field. *)
Definition cards_in_profile (p : json) (field : string) : list string :=
  match json_get p field with
  | Some (JStr s) => if s ≟ String.EmptyString then [] else [s]
  | Some (JArr l) => List.filter (fun s => negb (s ≟ String.EmptyString)) (omap json_as_str l)
  | _ => []
  end.

(** A list built in order, each value once. *)
Definition push_new (l : list string) (s : string) : list string :=
  if bool_decide (s ∈ l) then l else l ++ [s].

(** The digests of one member's active cards and of the codes in their profile, as the
    door lists carry them. *)
Definition active_digests (db : GuardDb) (uid : uuid) : list string :=
  omap (fun c => if (card_user_id c ≟ uid) && (card_status c ≟ ActiveCard)
                 then code_wire_digest c else None) (map_to_list (cards db)).*2.

Definition legacy_digests (field : string) (cipher : option CardCipher) (u : User)
    : list string :=
  match cipher with
  | Some c => omap (wire_digest c) (cards_in_profile (profile u) field)
  | None => []
  end.

Definition card_digests (field : string) (cipher : option CardCipher) (db : GuardDb) (u : User)
    : list string :=
  foldl push_new [] (hex_encode <$> active_digests db (user_id u) ++ legacy_digests field cipher u).

(** Of the users named, those with a digest at all. *)
Definition digests_of (field : string) (cipher : option CardCipher) (db : GuardDb)
    (us : list User) : gmap uuid (list string) :=
  foldr (fun u by_user =>
    match card_digests field cipher db u with
    | [] => by_user
    | ds => <[user_id u := ds]> by_user
    end) ∅ us.

Definition card_digests_by_user (us : list User) (field : string) (cipher : option CardCipher)
    : M (gmap uuid (list string)) :=
  select (fun db => digests_of field cipher db us).

(** ** Resources and their sessions *)

Definition resource_kind (rid : uuid) : M (option string) :=
  select (fun db => kind <$> resources db !! rid).

Definition resource_kinds : M (list (uuid * string)) :=
  select (fun db => (fun kr => (kr.1, kind kr.2)) <$> map_to_list (resources db)).

Definition resource_profiles : M (gmap uuid (string * string)) :=
  select (fun db => (fun r => (kind r, session_profile r)) <$> resources db).

Definition get_resource (rid : uuid) : M (option Resource) := select (fun db => resources db !! rid).

(** The CHECK on the column holds the vocabulary. *)
Definition update_resource_session_profile (rid : uuid) (p : string) : M (option Resource) :=
  call (fun db =>
    match resources db !! rid with
    | None => (db, inl None)
    | Some r =>
        if negb (bool_decide (p ∈ PROFILES)) then (db, inr CheckViolation)
        else let r' := {| resource_row_id := resource_row_id r; kind := kind r;
                          session_profile := p |} in
             (with_resources <[rid := r']> db, inl (Some r'))
    end).

Definition session_open (s : ResourceSession) : bool := negb (is_some (closed_at s)).

Definition open_on (rid : uuid) (s : ResourceSession) : bool :=
  (rs_resource_id s ≟ rid) && session_open s.

Definition fresh (db : GuardDb) : uuid := Training.fresh (training db).
Definition spend (db : GuardDb) : GuardDb := with_training (Training.spend (training db)) db.

(** The partial unique index decides: a second badge joins the open session. *)
Definition open_resource_session (now : instant) (rid : uuid) (uid did : option uuid)
    : M ResourceSession :=
  call (fun db =>
    let db' := spend db in
    if negb (is_some (resources db !! rid) &&
             is_none_or uid (fun u => is_some (users (money_of db) !! u)) &&
             is_none_or did (fun d => is_some (devices db !! d)))
    then (db', inr ForeignKeyViolation)
    else match find_first (open_on rid) (resource_sessions db) with
    | Some s => (db', inl s)
    | None =>
        let s := {| rs_id := fresh db; rs_resource_id := rid; rs_user_id := uid;
                    rs_device_id := did; opened_at := now; closed_at := None;
                    closed_by := None |} in
        (with_resource_sessions (fun l => l ++ [s]) db', inl s)
    end).

Definition close_session (now : instant) (who : string) (s : ResourceSession) : ResourceSession := {|
  rs_id := rs_id s; rs_resource_id := rs_resource_id s; rs_user_id := rs_user_id s;
  rs_device_id := rs_device_id s; opened_at := opened_at s; closed_at := Some now;
  closed_by := Some who |}.

Definition close_resource_session (now : instant) (rid : uuid) (who : string)
    : M (option ResourceSession) :=
  call (fun db =>
    match find_first (open_on rid) (resource_sessions db) with
    | None => (db, inl None)
    | Some s =>
        (with_resource_sessions
           (fmap (fun s => if open_on rid s then close_session now who s else s)) db,
         inl (Some (close_session now who s)))
    end).

Definition open_resource_sessions : M (list ResourceSession) :=
  select (fun db => sort_by (fun a b => opened_at a <=? opened_at b)
    (List.filter session_open (resource_sessions db))).

(** ** Doors *)

Definition get_door (did : uuid) : M Access.DoorRow :=
  call (fun db => (db, match doors db !! did with Some d => inl d | None => inr NotFound end)).

Definition list_rules_for_door (did : uuid) : M (list Access.AccessRule) :=
  select (fun db => List.filter (fun r => Access.ar_resource_id r ≟ did) (access_rules db)).

Definition list_schedules : M (list Access.Schedule) := select schedules.

(** Joined to [doors]: a binding of another kind of resource is none of a door's. *)
Definition coordinated_doors (db : GuardDb) (did : uuid) : list Access.DoorRow :=
  omap (fun b =>
    if (binding_device b ≟ did) && (binding_role b ≟ EDGE) then doors db !! binding_resource b
    else None) (bindings db).

Definition list_doors_for_device (did : uuid) : M (list Access.DoorRow) :=
  select (fun db => coordinated_doors db did).

Definition active_users (db : Db) : list User := List.filter is_active (map_to_list (users db)).*2.

Definition list_active_users : M (list User) := money_call (select active_users).

(** Every assigned user of those named, with the effective level. *)
Definition levels_of (db : Db) (uids : list uuid) : gmap uuid Z :=
  foldr (fun uid m =>
    match roles_for_user db uid with
    | [] => m
    | rs => <[uid := effective_level (rbac db) rs]> m
    end) ∅ uids.

Definition effective_levels_for (uids : list uuid) : M (gmap uuid Z) :=
  money_call (select (fun db => levels_of db uids)).

Definition insert_door_access_event (e : DoorAccessEvent) : M unit :=
  call (fun db =>
    if is_some (doors db !! dae_door_id e) &&
       is_none_or (dae_user_id e) (fun u => is_some (users (money_of db) !! u))
    then (with_door_events (fun l => l ++ [e]) db, inl tt)
    else (db, inr ForeignKeyViolation)).

(** ** Requests to publish *)

Definition broadcast (b : Broadcast) : M unit := effect (with_outbox (fun l => l ++ [b])).

End GuardStore.
End GuardStore.
