(* ===== verification/Hooks.v ===== *)
(** * The webhook tables ([server/src/database.rs], [server/src/models/webhooks.rs])

    Webhooks with their subscriptions and reusable auth headers, and the deliveries
    attempted.  A method is one transaction: an insert that a constraint refuses takes
    the whole of it back.  Hooks, headers and deliveries stand newest first; that a
    name has at most 255 characters is left out. *)
From S2P Require Import Prelude Rbac Faults Database.
Import Faults Database.

Module Hooks.

#[local] Open Scope Z_scope.

(** [webhook_format]. *)
Definition JSON : string := "json".
Definition DISCORD : string := "discord".
Definition FORMATS : list string := [JSON; DISCORD].

Section Hooks.
Context {U : Uuid} {IS : IdSource}.

(** ** Rows *)

Record WebhookAuthHeader := {
  header_id : uuid;
  header_label : string;
  header_name : string;
  header_value : string;
}.

Record Webhook := {
  webhook_id : uuid;
  webhook_name : string;
  url : string;
  enabled : bool;
  signing_secret : string;
  format : string;
}.

(** [category] absent: every category; [min_severity] is the floor, inclusive. *)
Record WebhookClassSubscription := {
  class_webhook_id : uuid;
  class_category : option string;
  min_severity : string;
}.

Record NewWebhookDelivery := {
  delivered_to : uuid;
  delivery_log_id : option uuid;
  delivery_event_type : string;
  delivery_attempt : Z;
  success : bool;
  status_code : option Z;
  response_body : option string;
  delivery_error : option string;
  request_payload : option json;
}.

Record HookDb := {
  webhooks : list Webhook;
  event_subscriptions : list (uuid * string);
  class_subscriptions : list WebhookClassSubscription;
  auth_headers : list WebhookAuthHeader;
  auth_links : list (uuid * uuid);
  deliveries : list (NewWebhookDelivery * instant);
  next_hook : nat;
}.

Abbreviation M := (Faults.M HookDb DatabaseError).

Definition hook_of (db : HookDb) (id : uuid) : option Webhook :=
  find_first (fun w => webhook_id w ≟ id) (webhooks db).

Definition is_hook (db : HookDb) (id : uuid) : bool := is_some (hook_of db id).
Definition is_header (db : HookDb) (id : uuid) : bool :=
  existsb (fun h => header_id h ≟ id) (auth_headers db).

Definition fresh (db : HookDb) : uuid := gen_random_uuid (next_hook db).

(** ** Auth headers *)

Definition with_headers (f : list WebhookAuthHeader -> list WebhookAuthHeader) (db : HookDb)
    : HookDb := {|
  webhooks := webhooks db; event_subscriptions := event_subscriptions db;
  class_subscriptions := class_subscriptions db; auth_headers := f (auth_headers db);
  auth_links := auth_links db; deliveries := deliveries db; next_hook := S (next_hook db) |}.

Record NewWebhookAuthHeader := {
  nh_label : string;
  nh_name : string;
  nh_value : string;
}.

Definition create_webhook_auth_header (n : NewWebhookAuthHeader) : M WebhookAuthHeader :=
  call (fun db =>
    let h := {| header_id := fresh db; header_label := nh_label n; header_name := nh_name n;
                header_value := nh_value n |} in
    (with_headers (cons h) db, inl h)).

Definition list_webhook_auth_headers : M (list WebhookAuthHeader) := select auth_headers.

Record UpdateWebhookAuthHeader := {
  uh_label : option string;
  uh_name : option string;
  uh_value : option string;
}.

Definition updated_header (u : UpdateWebhookAuthHeader) (h : WebhookAuthHeader) : WebhookAuthHeader := {|
  header_id := header_id h; header_label := default (header_label h) (uh_label u);
  header_name := default (header_name h) (uh_name u);
  header_value := default (header_value h) (uh_value u) |}.

Definition update_webhook_auth_header (id : uuid) (u : UpdateWebhookAuthHeader) : M WebhookAuthHeader :=
  call (fun db =>
    match find_first (fun h => header_id h ≟ id) (auth_headers db) with
    | None => (db, inr NotFound)
    | Some h =>
        (with_headers (fmap (fun h => if header_id h ≟ id then updated_header u h else h)) db,
         inl (updated_header u h))
    end).

(** The rows deleted; links go with their header. *)
Definition delete_webhook_auth_header (id : uuid) : M Z :=
  call (fun db =>
    ({| webhooks := webhooks db; event_subscriptions := event_subscriptions db;
        class_subscriptions := class_subscriptions db;
        auth_headers := List.filter (fun h => negb (header_id h ≟ id)) (auth_headers db);
        auth_links := List.filter (fun l => negb (l.2 ≟ id)) (auth_links db);
        deliveries := deliveries db; next_hook := next_hook db |},
     inl (if is_header db id then 1 else 0))).

Definition count_webhook_auth_header_usage (id : uuid) : M Z :=
  select (fun db => Z.of_nat (length (List.filter (fun l => l.2 ≟ id) (auth_links db)))).

(** ** Webhooks *)

Record NewWebhook := {
  nw_name : string;
  nw_url : string;
  nw_enabled : bool;
  nw_secret : string;
  nw_format : string;
}.

Definition with_hook_rows (hs : list Webhook) (subs : list (uuid * string))
    (links : list (uuid * uuid)) (db : HookDb) : HookDb := {|
  webhooks := hs; event_subscriptions := subs; class_subscriptions := class_subscriptions db;
  auth_headers := auth_headers db; auth_links := links; deliveries := deliveries db;
  next_hook := S (next_hook db) |}.

(** What the constraints say of rows inserted for a hook. *)
Definition rows_refused (db : HookDb) (events : list string) (headers : list uuid) : option DatabaseError :=
  if negb (bool_decide (NoDup events)) || negb (bool_decide (NoDup headers)) then Some UniqueViolation
  else if negb (forallb (is_header db) headers) then Some ForeignKeyViolation
  else None.

Definition create_webhook (n : NewWebhook) (events : list string) (headers : list uuid) : M Webhook :=
  call (fun db =>
    let w := {| webhook_id := fresh db; webhook_name := nw_name n; url := nw_url n;
                enabled := nw_enabled n; signing_secret := nw_secret n; format := nw_format n |} in
    if negb (bool_decide (nw_format n ∈ FORMATS)) then (db, inr CheckViolation) else
    match rows_refused db events headers with
    | Some e => (db, inr e)
    | None =>
        (with_hook_rows (w :: webhooks db)
           (event_subscriptions db ++ ((fun e => (fresh db, e)) <$> events))
           (auth_links db ++ ((fun h => (fresh db, h)) <$> headers)) db, inl w)
    end).

Definition list_webhooks : M (list Webhook) := select webhooks.

Definition get_webhook (id : uuid) : M Webhook :=
  call (fun db => (db, match hook_of db id with Some w => inl w | None => inr NotFound end)).

Record UpdateWebhook := {
  uw_name : option string;
  uw_url : option string;
  uw_enabled : option bool;
  uw_format : option string;
}.

Definition updated_hook (u : UpdateWebhook) (w : Webhook) : Webhook := {|
  webhook_id := webhook_id w; webhook_name := default (webhook_name w) (uw_name u);
  url := default (url w) (uw_url u); enabled := default (enabled w) (uw_enabled u);
  signing_secret := signing_secret w; format := default (format w) (uw_format u) |}.

(** The rows of one hook, replaced wholesale where new ones are given. *)
Definition replaced {A} (id : uuid) (rows : list (uuid * A)) (new : option (list A)) : list (uuid * A) :=
  match new with
  | None => rows
  | Some xs => List.filter (fun r => negb (r.1 ≟ id)) rows ++ ((fun x => (id, x)) <$> xs)
  end.

Definition update_webhook (id : uuid) (u : UpdateWebhook) (events : option (list string))
    (headers : option (list uuid)) : M Webhook :=
  call (fun db =>
    match hook_of db id with
    | None => (db, inr NotFound)
    | Some w =>
        if negb (is_none_or (uw_format u) (fun f => bool_decide (f ∈ FORMATS)))
        then (db, inr CheckViolation) else
        match rows_refused db (default [] events) (default [] headers) with
        | Some e => (db, inr e)
        | None =>
            (with_hook_rows
               ((fun w => if webhook_id w ≟ id then updated_hook u w else w) <$> webhooks db)
               (replaced id (event_subscriptions db) events)
               (replaced id (auth_links db) headers) db,
             inl (updated_hook u w))
        end
    end).

(** Everything that refers to the hook goes with it. *)
Definition delete_webhook (id : uuid) : M Z :=
  call (fun db =>
    ({| webhooks := List.filter (fun w => negb (webhook_id w ≟ id)) (webhooks db);
        event_subscriptions := List.filter (fun s => negb (s.1 ≟ id)) (event_subscriptions db);
        class_subscriptions := List.filter (fun s => negb (class_webhook_id s ≟ id)) (class_subscriptions db);
        auth_headers := auth_headers db;
        auth_links := List.filter (fun l => negb (l.1 ≟ id)) (auth_links db);
        deliveries := List.filter (fun d => negb (delivered_to d.1 ≟ id)) (deliveries db);
        next_hook := next_hook db |},
     inl (if is_hook db id then 1 else 0))).

Definition get_webhook_event_types (id : uuid) : M (list string) :=
  select (fun db => (List.filter (fun s => s.1 ≟ id) (event_subscriptions db)).*2).

Definition get_webhook_class_subscriptions (id : uuid) : M (list WebhookClassSubscription) :=
  select (fun db => List.filter (fun s => class_webhook_id s ≟ id) (class_subscriptions db)).

Definition with_classes (cs : list WebhookClassSubscription) (db : HookDb) : HookDb := {|
  webhooks := webhooks db; event_subscriptions := event_subscriptions db;
  class_subscriptions := cs; auth_headers := auth_headers db; auth_links := auth_links db;
  deliveries := deliveries db; next_hook := next_hook db |}.

Definition severities : list string := ["info"; "notice"; "warning"; "critical"]%string.

Definition replace_webhook_class_subscriptions (id : uuid) (subs : list (option string * string)) : M unit :=
  call (fun db =>
    if negb (forallb (fun s => bool_decide (s.2 ∈ severities)) subs) then (db, inr CheckViolation)
    else if negb (is_hook db id) && negb (length subs =? 0)%nat then (db, inr ForeignKeyViolation)
    else (with_classes (List.filter (fun s => negb (class_webhook_id s ≟ id)) (class_subscriptions db) ++
            ((fun s => {| class_webhook_id := id; class_category := s.1; min_severity := s.2 |}) <$> subs)) db,
          inl tt)).

Definition get_webhook_auth_header_ids (id : uuid) : M (list uuid) :=
  select (fun db => (List.filter (fun l => l.1 ≟ id) (auth_links db)).*2).

(** ** What the dispatcher asks *)

Definition get_webhook_auth_headers_for_dispatch (id : uuid) : M (list WebhookAuthHeader) :=
  select (fun db =>
    l ← List.filter (fun l => l.1 ≟ id) (auth_links db);
    List.filter (fun h => header_id h ≟ l.2) (auth_headers db)).

Definition get_enabled_webhooks_for_event (event : string) : M (list Webhook) :=
  select (fun db =>
    s ← List.filter (fun s => s.2 ≟ event) (event_subscriptions db);
    List.filter (fun w => (webhook_id w ≟ s.1) && enabled w) (webhooks db)).

Definition class_matches (category : string) (at_or_below : list string)
    (s : WebhookClassSubscription) : bool :=
  is_none_or (class_category s) (fun c => c ≟ category) &&
  bool_decide (min_severity s ∈ at_or_below).

(** [DISTINCT] over the hooks a subscription of theirs matches. *)
Definition get_enabled_webhooks_for_class (category : string) (at_or_below : list string)
    : M (list Webhook) :=
  select (fun db => List.filter
    (fun w => enabled w && existsb (fun s => (class_webhook_id s ≟ webhook_id w) &&
                                             class_matches category at_or_below s)
                             (class_subscriptions db))
    (webhooks db)).

Definition with_delivery (d : NewWebhookDelivery * instant) (db : HookDb) : HookDb := {|
  webhooks := webhooks db; event_subscriptions := event_subscriptions db;
  class_subscriptions := class_subscriptions db; auth_headers := auth_headers db;
  auth_links := auth_links db; deliveries := d :: deliveries db; next_hook := next_hook db |}.

Definition record_webhook_delivery (now : instant) (d : NewWebhookDelivery) : M unit :=
  call (fun db =>
    if is_hook db (delivered_to d) then (with_delivery (d, now) db, inl tt)
    else (db, inr ForeignKeyViolation)).

(** A page of the log, of one hook or of all. *)
Definition list_webhook_deliveries (id : option uuid) (limit offset : Z)
    : M (list (NewWebhookDelivery * instant)) :=
  select (fun db => take (Z.to_nat limit) (drop (Z.to_nat offset)
    (List.filter (fun d => is_none_or id (fun i => delivered_to d.1 ≟ i)) (deliveries db)))).

(** ** What the constraints keep

    Rows refer to rows, a hook names an event once, identifiers are not reused. *)
Record referential (db : HookDb) : Prop := {
  hooks_old : forall w, w ∈ webhooks db -> exists i, (i < next_hook db)%nat /\ webhook_id w = gen_random_uuid i;
  hooks_unique : NoDup (webhook_id <$> webhooks db);
  events_known : forall s, s ∈ event_subscriptions db -> s.1 ∈ webhook_id <$> webhooks db;
  events_unique : NoDup (event_subscriptions db);
  classes_known : forall s, s ∈ class_subscriptions db -> class_webhook_id s ∈ webhook_id <$> webhooks db;
  links_known : forall l, l ∈ auth_links db -> l.1 ∈ webhook_id <$> webhooks db;
  deliveries_known : forall d, d ∈ deliveries db -> delivered_to d.1 ∈ webhook_id <$> webhooks db;
}.

End Hooks.
End Hooks.
