(* ===== verification/Trail.v ===== *)
(** * The audit trail and what hangs on it ([server/src/database.rs])

    The audit log with its payloads, acknowledgements, heartbeat runs and webhooks
    beside the tables of the device surface.  A row inserted is offered to the
    dispatcher that was registered, which never fails the insert.  The log and the
    deliveries stand newest first. *)
From Stdlib Require Import QArith.
From S2P Require Import Prelude Text Rbac Schedules Access Faults Money AuditLog Database Power Training GuardStore Hooks.
Import Text Faults Money Audit Database Power Training GuardStore Hooks.

Module Trail.

#[local] Open Scope Z_scope.

Section Trail.
Context {U : Uuid} {IS : IdSource} {JT : JsonbText}.

(** ** Rows *)

Record NewAuditLog := {
  na_event_type : string;
  na_user_id : option uuid;
  na_actor_id : option uuid;
  na_event_data : json;
  na_ip_address : option string;
  na_user_agent : option string;
}.

Record AuditLog := {
  log_id : uuid;
  log_event_type : string;
  log_user_id : option uuid;
  log_actor_id : option uuid;
  event_data : json;
  log_ip_address : option string;
  log_user_agent : option string;
  log_created_at : instant;
}.

Record AlertAcknowledgement := {
  audit_log_id : uuid;
  ack_user_id : option uuid;
  ack_note : option string;
  acknowledged_at : instant;
}.

Record NewAlertHeartbeatRun := {
  started_at : instant;
  finished_at : instant;
  alerts_raised : Z;
  unacknowledged : Z;
  deliveries_failed : Z;
  run_ok : bool;
  run_error : option string;
}.

Record TrailDb := {
  guard : GuardDb;
  audit_logs : list AuditLog;
  next_log : nat;
  acknowledgements : gmap uuid AlertAcknowledgement;
  heartbeat_runs : list NewAlertHeartbeatRun;
  hooks : HookDb;
  (** What the registered dispatchers have been sent, oldest first. *)
  webhook_tx : option (list AuditLog);
  groupsio_tx : option (list AuditLog);
}.

Definition with_guard (g : GuardDb) (db : TrailDb) : TrailDb := {|
  guard := g; audit_logs := audit_logs db; next_log := next_log db;
  acknowledgements := acknowledgements db; heartbeat_runs := heartbeat_runs db;
  hooks := hooks db;
  webhook_tx := webhook_tx db; groupsio_tx := groupsio_tx db |}.

#[export] Instance trail_guard : Part TrailDb GuardDb :=
  {| part := guard; put := with_guard; part_put := ltac:(done);
     put_part := ltac:(by intros []); put_put := ltac:(done) |}.

Definition with_log (r : AuditLog) (db : TrailDb) : TrailDb := {|
  guard := guard db; audit_logs := r :: audit_logs db; next_log := S (next_log db);
  acknowledgements := acknowledgements db; heartbeat_runs := heartbeat_runs db;
  hooks := hooks db;
  webhook_tx := webhook_tx db; groupsio_tx := groupsio_tx db |}.

Definition with_sent (r : AuditLog) (db : TrailDb) : TrailDb := {|
  guard := guard db; audit_logs := audit_logs db; next_log := next_log db;
  acknowledgements := acknowledgements db; heartbeat_runs := heartbeat_runs db;
  hooks := hooks db;
  webhook_tx := (fun q => q ++ [r]) <$> webhook_tx db;
  groupsio_tx := (fun q => q ++ [r]) <$> groupsio_tx db |}.

Definition with_acknowledgements
    (f : gmap uuid AlertAcknowledgement -> gmap uuid AlertAcknowledgement) (db : TrailDb)
    : TrailDb := {|
  guard := guard db; audit_logs := audit_logs db; next_log := next_log db;
  acknowledgements := f (acknowledgements db); heartbeat_runs := heartbeat_runs db;
  hooks := hooks db;
  webhook_tx := webhook_tx db; groupsio_tx := groupsio_tx db |}.

Definition with_heartbeat (run : NewAlertHeartbeatRun) (db : TrailDb) : TrailDb := {|
  guard := guard db; audit_logs := audit_logs db; next_log := next_log db;
  acknowledgements := acknowledgements db; heartbeat_runs := run :: heartbeat_runs db;
  hooks := hooks db;
  webhook_tx := webhook_tx db; groupsio_tx := groupsio_tx db |}.

Definition with_hooks (h : HookDb) (db : TrailDb) : TrailDb := {|
  guard := guard db; audit_logs := audit_logs db; next_log := next_log db;
  acknowledgements := acknowledgements db; heartbeat_runs := heartbeat_runs db;
  hooks := h; webhook_tx := webhook_tx db; groupsio_tx := groupsio_tx db |}.

#[export] Instance trail_hooks : Part TrailDb HookDb :=
  {| part := hooks; put := with_hooks; part_put := ltac:(done);
     put_part := ltac:(by intros []); put_put := ltac:(done) |}.

Abbreviation M := (Faults.M TrailDb DatabaseError).

(** The methods of the tables underneath, from here. *)
Definition guard_call {A} (m : Faults.M GuardDb DatabaseError A) : M A := within (P := GuardDb) m.
Definition hook_call {A} (m : Faults.M HookDb DatabaseError A) : M A := within (P := HookDb) m.

(** ** The log *)

Definition logged (id : uuid) (now : instant) (n : NewAuditLog) : AuditLog := {|
  log_id := id; log_event_type := na_event_type n; log_user_id := na_user_id n;
  log_actor_id := na_actor_id n; event_data := na_event_data n;
  log_ip_address := na_ip_address n; log_user_agent := na_user_agent n; log_created_at := now |}.

(** The insert, then the fan-out of the row it returned. *)
Definition create_audit_log (now : instant) (n : NewAuditLog) : M AuditLog :=
  r ← call (fun db =>
        let r := logged (gen_random_uuid (next_log db)) now n in (with_log r db, inl r));
  _ ← effect (with_sent r);
  mret r.

Definition get_audit_log (id : uuid) : M (option AuditLog) :=
  select (fun db => find_first (fun r => log_id r ≟ id) (audit_logs db)).

(** [data->>'field']. *)
Definition text_field (r : AuditLog) (field : string) : option string :=
  match json_get (event_data r) field with
  | None | Some JNull => None
  | Some (JStr s) => Some s
  | Some v => jsonb_text v
  end.

(** [SELECT DISTINCT ON (key) … ORDER BY key, created_at DESC], of the rows that have one. *)
Definition latest (key : AuditLog -> option string) (rows : list AuditLog) : gmap string AuditLog :=
  foldr (fun r m =>
    match key r with
    | None => m
    | Some k =>
        if is_some_and (m !! k) (fun r' => log_created_at r <? log_created_at r') then m
        else <[k := r]> m
    end) ∅ rows.

Definition keyed (types : list string) (field : string) (r : AuditLog) : option string :=
  if bool_decide (log_event_type r ∈ types) then text_field r field else None.

Definition MODULE_LIVENESS : list string := ["tool_module_silent"; "tool_module_returned"]%string.

Definition latest_module_liveness_records : M (gmap string string) :=
  select (fun db => log_event_type <$> latest (keyed MODULE_LIVENESS "module_id") (audit_logs db)).

Definition isolation_state (r : AuditLog) : string := default "silent"%string (text_field r "state").

Definition latest_device_isolation_records : M (gmap string string) :=
  select (fun db => isolation_state <$>
    latest (keyed ["edge_isolation_reported"%string] "device_id") (audit_logs db)).

Definition latest_unauthorized_power_reports : M (gmap string instant) :=
  select (fun db => log_created_at <$>
    latest (keyed ["unauthorized_power_detected"%string] "tool_id") (audit_logs db)).

(** ** What is watched *)

Definition live_row (db : GuardDb) (did : uuid) : option SpaceDevice :=
  d ← devices db !! did; if deleted_at d then None else Some d.

(** Bindings whose device is not deleted, with when it last reported. *)
Definition bound_modules_with_liveness : M (list (DeviceBinding * option instant)) :=
  guard_call (select (fun db =>
    omap (fun b => d ← live_row db (binding_device b); Some (b, last_seen_at d)) (bindings db))).

(** Two statements: the bound, then the devices that are not. *)
Definition unbound_devices_with_liveness : M (list (uuid * string * option instant)) :=
  bound ← guard_call (select (fun db => binding_device <$> bindings db));
  guard_call (select (fun db =>
    omap (fun kd => d ← live_row db kd.1;
                    if bool_decide (kd.1 ∈ bound) then None
                    else Some (kd.1, device_name d, last_seen_at d))
      (map_to_list (devices db)))).

Definition list_tool_power_state : M (list ToolPowerState) :=
  guard_call (power_call Power.list_tool_power_state).

Definition get_tool_by_id (tid : uuid) : M (option Tool) := guard_call (GuardStore.get_tool_by_id tid).

(** ** Alerts *)

Definition later_than (since : option instant) (t : instant) : bool :=
  match since with None => true | Some s => s <? t end.

Definition of_types (types : list string) (r : AuditLog) : bool :=
  bool_decide (log_event_type r ∈ types).

Definition count_audit_rows_since (types : list string) (since : option instant) : M Z :=
  select (fun db => Z.of_nat (length (List.filter
    (fun r => of_types types r && later_than since (log_created_at r)) (audit_logs db)))).

(** [LEFT JOIN alert_acknowledgements … IS NULL]. *)
Definition unacked (types : list string) (db : TrailDb) : list AuditLog :=
  List.filter (fun r => of_types types r && negb (is_some (acknowledgements db !! log_id r)))
    (audit_logs db).

(** Grouped by event type. *)
Definition count_by_type (rows : list AuditLog) : gmap string Z :=
  foldr (fun r m => <[log_event_type r := default 0 (m !! log_event_type r) + 1]> m) ∅ rows.

Definition unacknowledged_alert_counts (types : list string) : M (list (string * Z)) :=
  select (fun db => map_to_list (count_by_type (unacked types db))).

Definition count_failed_webhook_deliveries_since (since : option instant) : M Z :=
  select (fun db => Z.of_nat (length (List.filter
    (fun d => negb (success d.1) && later_than since d.2) (deliveries (hooks db))))).

(** [ORDER BY started_at DESC], first. *)
Definition latest_run (runs : list NewAlertHeartbeatRun) : option NewAlertHeartbeatRun :=
  head (sort_by (fun a b => started_at b <=? started_at a) runs).

Definition latest_alert_heartbeat_run : M (option NewAlertHeartbeatRun) :=
  select (fun db => latest_run (heartbeat_runs db)).

Definition record_alert_heartbeat_run (run : NewAlertHeartbeatRun) : M unit :=
  call (fun db => (with_heartbeat run db, inl tt)).

Definition get_alert_acknowledgement (id : uuid) : M (option AlertAcknowledgement) :=
  select (fun db => acknowledgements db !! id).

(** [ON CONFLICT DO NOTHING] on the row's key, which refers to the log. *)
Definition acknowledge_alert (now : instant) (id by_ : uuid) (note : option string) : M bool :=
  call (fun db =>
    if negb (existsb (fun r => log_id r ≟ id) (audit_logs db)) then (db, inr ForeignKeyViolation)
    else match acknowledgements db !! id with
    | Some _ => (db, inl false)
    | None =>
        (with_acknowledgements <[id := {| audit_log_id := id; ack_user_id := Some by_;
                                          ack_note := note; acknowledged_at := now |}]> db,
         inl true)
    end).

Record AlertFilter := {
  filter_types : list string;
  filter_acknowledged : option bool;
}.

Definition feed_matches (f : AlertFilter) (db : TrailDb) (r : AuditLog) : bool :=
  of_types (filter_types f) r &&
  match filter_acknowledged f with
  | None => true
  | Some b => Bool.eqb b (is_some (acknowledgements db !! log_id r))
  end.

(** One page, newest first, each with its acknowledgement. *)
Definition list_alerts (f : AlertFilter) (limit offset : Z)
    : M (list (AuditLog * option AlertAcknowledgement)) :=
  select (fun db =>
    (fun r => (r, acknowledgements db !! log_id r)) <$>
      take (Z.to_nat limit) (drop (Z.to_nat offset)
        (sort_by (fun a b => log_created_at b <=? log_created_at a)
           (List.filter (feed_matches f db) (audit_logs db))))).

Definition count_alerts (f : AlertFilter) : M Z :=
  select (fun db => Z.of_nat (length (List.filter (feed_matches f db) (audit_logs db)))).

End Trail.

End Trail.
