(* ===== verification/Bypass.v ===== *)
(** * Bypass detection ([css_lib/src/bypass.rs], [server/src/bypass.rs])

    Sweeps that write a row when something changed and none while it lasts, reading
    what was last said back out of the audit trail. *)
From Stdlib Require Import QArith.
From S2P Require Import Prelude Text Rbac Schedules Access Faults Money AuditLog Database Power Training GuardStore Hooks Trail.
Import Text Faults Money Audit Database Power Training GuardStore Hooks Trail.

Module Bypass.

#[local] Open Scope Z_scope.

(** ** Decisions *)

Inductive LivenessTransition : Type := WentSilent | Returned | NoChange.

Definition is_silent (seconds_since_seen : option Z) (threshold_secs : Z) : bool :=
  match seconds_since_seen with None => true | Some secs => threshold_secs <? secs end.

Definition classify_liveness (seconds_since_seen : option Z) (threshold_secs : Z)
    (previously_reported_silent : bool) : LivenessTransition :=
  match is_silent seconds_since_seen threshold_secs, previously_reported_silent with
  | true, false => WentSilent
  | false, true => Returned
  | _, _ => NoChange
  end.

Record PowerEvidence := {
  relay_reported_on : bool;
  draw_observed : bool;
}.

Definition any (e : PowerEvidence) : bool := relay_reported_on e || draw_observed e.

Definition is_unauthorized_power (evidence : PowerEvidence) (lease_valid : bool)
    (seconds_observed debounce_secs : Z) : bool :=
  if lease_valid || negb (any evidence) then false else debounce_secs <=? seconds_observed.

(** [Duration::num_seconds]. *)
Definition num_seconds (d : duration) : Z := Z.quot d (seconds 1).

(** ** The service *)

Section Service.
Context {U : Uuid} {IS : IdSource} {JT : JsonbText}.

Abbreviation M := (Faults.M TrailDb DatabaseError).

(** [BigDecimal]'s [Display], and the settings; a draw is compared as a float, and the
    threshold appears in the payload as JSON writes it. *)
Context (amps_to_string : Q -> string).

Record BypassConfig := {
  module_silence_secs : Z;
  unauthorized_power_debounce_secs : Z;
  drawing : Q -> bool;
  draw_threshold : json;
}.

Context (config : BypassConfig).

Definition opt_int (z : option Z) : json := match z with Some z => JInt z | None => JNull end.

(** System-triggered, so there is no human actor to record. *)
Definition entry (event : AuditEventType) (data : json) : NewAuditLog := {|
  na_event_type := AuditClass.as_str event; na_user_id := None; na_actor_id := None;
  na_event_data := data; na_ip_address := None; na_user_agent := None |}.

(** Logged, not propagated. *)
Definition write (now : instant) (event : AuditEventType) (data : json) : M unit :=
  _ ← attempt (create_audit_log now (entry event data)); mret tt.

Definition since_seen (now : instant) (last_seen : option instant) : option Z :=
  (fun t => num_seconds (now - t)) <$> last_seen.

Definition said_silent (recorded : gmap string string) (key silent : string) : bool :=
  is_some_and (recorded !! key) (fun e => e ≟ silent).

Definition module_data (b : DeviceBinding) (secs : option Z) : json := JObj
  [("module_id", JStr (uuid_show (binding_id b))); ("module_name", JStr (binding_name b));
   ("role", JStr (binding_role b)); ("device_id", JStr (uuid_show (binding_device b)));
   ("seconds_since_seen", opt_int secs);
   ("threshold_secs", JInt (module_silence_secs config));
   ("note", JStr "silence only; the cause (power, network, or removal) is not distinguishable from here")]%string.

Definition module_event (t : LivenessTransition) : option AuditEventType :=
  match t with
  | NoChange => None
  | WentSilent => Some ToolModuleSilent
  | Returned => Some ToolModuleReturned
  end.

Fixpoint sweep_modules (now : instant) (recorded : gmap string string)
    (modules : list (DeviceBinding * option instant)) : M nat :=
  match modules with
  | [] => mret 0%nat
  | (b, last_seen) :: modules =>
      let secs := since_seen now last_seen in
      let previously := said_silent recorded (uuid_show (binding_id b))
                          (AuditClass.as_str ToolModuleSilent) in
      match module_event (classify_liveness secs (module_silence_secs config) previously) with
      | None => sweep_modules now recorded modules
      | Some event =>
          _ ← write now event (module_data b secs);
          n ← sweep_modules now recorded modules;
          mret (S n)
      end
  end.

Definition sweep_once (now : instant) : M nat :=
  modules ← bound_modules_with_liveness;
  match modules with
  | [] => mret 0%nat
  | _ => recorded ← latest_module_liveness_records; sweep_modules now recorded modules
  end.

Definition device_data (did : uuid) (name state : string) (secs : option Z) : json := JObj
  [("device_id", JStr (uuid_show did)); ("device_name", JStr name); ("state", JStr state);
   ("seconds_since_seen", opt_int secs);
   ("threshold_secs", JInt (module_silence_secs config));
   ("detected_by", JStr "server_inference");
   ("note", JStr "inferred from silence; an isolated edge cannot report its own isolation, so this is late and one-sided")]%string.

Definition device_state (t : LivenessTransition) : option string :=
  match t with
  | NoChange => None
  | WentSilent => Some "silent"
  | Returned => Some "returned"
  end%string.

Fixpoint sweep_devices (now : instant) (recorded : gmap string string)
    (devices : list (uuid * string * option instant)) : M nat :=
  match devices with
  | [] => mret 0%nat
  | (did, name, last_seen) :: devices =>
      let secs := since_seen now last_seen in
      let previously := said_silent recorded (uuid_show did) "silent" in
      match device_state (classify_liveness secs (module_silence_secs config) previously) with
      | None => sweep_devices now recorded devices
      | Some state =>
          _ ← write now EdgeIsolationReported (device_data did name state secs);
          n ← sweep_devices now recorded devices;
          mret (S n)
      end
  end.

Definition sweep_unbound_devices (now : instant) : M nat :=
  devices ← unbound_devices_with_liveness;
  match devices with
  | [] => mret 0%nat
  | _ => recorded ← latest_device_isolation_records; sweep_devices now recorded devices
  end.

Definition evidence_of (reading : ToolPowerState) : PowerEvidence := {|
  relay_reported_on := default false (last_relay_on reading);
  draw_observed := is_some_and (last_draw_amps reading) (drawing config) |}.

Definition observed (now : instant) (reading : ToolPowerState) : Z :=
  match power_evidence_since reading with Some t => num_seconds (now - t) | None => 0 end.

Definition finding (now : instant) (tool : Tool) (reading : ToolPowerState) : bool :=
  is_unauthorized_power (evidence_of reading) (tool_in_use tool) (observed now reading)
    (unauthorized_power_debounce_secs config).

(** For this episode: the evidence clock restarts when the power goes away. *)
Definition reported (already : gmap string instant) (reading : ToolPowerState) : bool :=
  match already !! uuid_show (tps_tool_id reading), power_evidence_since reading with
  | Some reported_at, Some since => since <=? reported_at
  | Some _, None => true
  | None, _ => false
  end.

(** [Debug] of a status. *)
Definition status_debug (s : ToolStatus) : string :=
  match s with
  | Idle => "Idle" | InUse => "InUse" | Maintenance => "Maintenance"
  | Broken => "Broken" | Repair => "Repair" | Retired => "Retired"
  end%string.

Definition power_data (now : instant) (tool : Tool) (reading : ToolPowerState) : json := JObj
  [("tool_id", JStr (uuid_show (tps_tool_id reading))); ("tool_name", JStr (tool_name tool));
   ("evidence", JObj
     [("relay_reported_on", JBool (relay_reported_on (evidence_of reading)));
      ("draw_observed", JBool (draw_observed (evidence_of reading)));
      ("last_draw_amps", match last_draw_amps reading with
                         | Some q => JStr (amps_to_string q) | None => JNull end);
      ("draw_threshold_amps", draw_threshold config)]);
   ("seconds_observed", JInt (observed now reading));
   ("tool_status", JStr (status_debug (tool_status tool)));
   ("note", JStr "the server never authorized this tool on; recorded, not acted on -- draw on a circuit is not proof this tool ran")]%string.

Fixpoint check_readings (now : instant) (already : gmap string instant)
    (readings : list ToolPowerState) : M nat :=
  match readings with
  | [] => mret 0%nat
  | reading :: readings =>
      tool ← get_tool_by_id (tps_tool_id reading);
      match tool with
      | None => check_readings now already readings
      | Some tool =>
          if negb (finding now tool reading) || reported already reading
          then check_readings now already readings
          else
            _ ← write now UnauthorizedPowerDetected (power_data now tool reading);
            n ← check_readings now already readings;
            mret (S n)
      end
  end.

Definition check_unauthorized_power (now : instant) : M nat :=
  readings ← list_tool_power_state;
  match readings with
  | [] => mret 0%nat
  | _ => already ← latest_unauthorized_power_reports; check_readings now already readings
  end.

(** One tick of [run]: each pass on its own, whatever became of the others. *)
Definition tick (now : instant) : M unit :=
  _ ← attempt (sweep_once now);
  _ ← attempt (sweep_unbound_devices now);
  _ ← attempt (check_unauthorized_power now);
  mret tt.

(** ** Reports

    Both sweeps report what a function of the item says, one row after another. *)
Fixpoint report_all {X} (now : instant) (f : X -> option (AuditEventType * json)) (xs : list X) : M nat :=
  match xs with
  | [] => mret 0%nat
  | x :: xs =>
      match f x with
      | None => report_all now f xs
      | Some (event, data) => _ ← write now event data; n ← report_all now f xs; mret (S n)
      end
  end.

Definition silent_at (now : instant) (last_seen : option instant) : bool :=
  is_silent (since_seen now last_seen) (module_silence_secs config).

Definition module_key (m : DeviceBinding * option instant) : string := uuid_show (binding_id m.1).

Definition module_report (now : instant) (recorded : gmap string string)
    (m : DeviceBinding * option instant) : option (AuditEventType * json) :=
  (fun event => (event, module_data m.1 (since_seen now m.2))) <$>
  module_event (classify_liveness (since_seen now m.2) (module_silence_secs config)
    (said_silent recorded (module_key m) (AuditClass.as_str ToolModuleSilent))).

Lemma sweep_modules_eq now recorded ms :
  sweep_modules now recorded ms = report_all now (module_report now recorded) ms.
Proof.
  induction ms as [|[b seen] ms IH]; [done|]. cbn [sweep_modules report_all]. unfold module_report at 1.
  cbn [fst snd]. rewrite <-IH. by destruct (module_event _).
Qed.

Abbreviation Device := (uuid * string * option instant)%type.

Definition device_key (d : Device) : string := uuid_show d.1.1.

Definition device_report (now : instant) (recorded : gmap string string) (d : Device)
    : option (AuditEventType * json) :=
  (fun state => (EdgeIsolationReported, device_data d.1.1 d.1.2 state (since_seen now d.2))) <$>
  device_state (classify_liveness (since_seen now d.2) (module_silence_secs config)
    (said_silent recorded (device_key d) "silent")).

Lemma sweep_devices_eq now recorded ds :
  sweep_devices now recorded ds = report_all now (device_report now recorded) ds.
Proof.
  induction ds as [|[[did name] seen] ds IH]; [done|]. cbn [sweep_devices report_all].
  unfold device_report at 1. cbn [fst snd]. rewrite <-IH. by destruct (device_state _).
Qed.

(** ** What the trail says

    [key] finds the rows about one thing, [down] says of such a row that it reports
    the thing silent; the last word counts. *)
Section Said.
Context (key : AuditLog -> option string) (down : AuditLog -> bool).

Fixpoint said (k : string) (rows : list AuditLog) : bool :=
  match rows with
  | [] => false
  | r :: rows => if key r ≟ Some k then down r else said k rows
  end.

(** Every row about [k] changes what was said. *)
Fixpoint alternates (k : string) (rows : list AuditLog) : Prop :=
  match rows with
  | [] => True
  | r :: rows => (key r = Some k -> down r = negb (said k rows)) /\ alternates k rows
  end.

Fixpoint newest_first (rows : list AuditLog) : Prop :=
  match rows with
  | [] => True
  | r :: rows => Forall (fun r' => log_created_at r' <= log_created_at r) rows /\ newest_first rows
  end.

Lemma latest_newest rows k :
  newest_first rows -> latest key rows !! k = find_first (fun r => key r ≟ Some k) rows.
Proof.
  induction rows as [|r rows IH]; [done|]. intros [Hr Hrows]. cbn [latest foldr find_first].
  fold (latest key rows). specialize (IH Hrows). destruct (key r) as [k'|] eqn:E.
  - assert (Hlt : is_some_and (latest key rows !! k') (fun r' => log_created_at r <? log_created_at r') = false).
    { destruct (latest key rows !! k') as [r'|] eqn:El; [|done]. simpl.
      assert (r' ∈ rows) as Hin.
      { clear -El. induction rows as [|x rows IH]; [done|]. cbn [latest foldr] in El.
        fold (latest key rows) in El. repeat case_match; try (right; by apply IH).
        all: destruct (decide (k' = s)) as [->|Hne];
          [rewrite lookup_insert_eq in El; simplify_eq; by left
          |rewrite lookup_insert_ne in El by done; right; by apply IH]. }
      apply Z.ltb_ge. by eapply Forall_forall in Hr. }
    rewrite Hlt. destruct (decide (k' = k)) as [->|Hne].
    + by rewrite lookup_insert_eq, bool_decide_true.
    + rewrite lookup_insert_ne by done. rewrite bool_decide_false by congruence. done.
  - by rewrite bool_decide_false.
Qed.

Lemma said_find rows k :
  said k rows = is_some_and (find_first (fun r => key r ≟ Some k) rows) down.
Proof.
  induction rows as [|r rows IH]; [done|]. cbn [said find_first].
  by destruct (key r ≟ Some k).
Qed.

Lemma said_other r rows k : key r <> Some k -> said k (r :: rows) = said k rows.
Proof. intros H. cbn [said]. by rewrite bool_decide_false. Qed.

Lemma alternates_other r rows k : key r <> Some k -> alternates k rows -> alternates k (r :: rows).
Proof. intros H Hr. by split. Qed.

End Said.

(** ** Conditions on the log *)

Definition on_log (J : list AuditLog -> Prop) (db : TrailDb) : Prop := J (audit_logs db).

Lemma write_log (J P Q : list AuditLog -> Prop) now event data :
  (forall rows, J rows -> P rows -> Q rows) ->
  (forall rows id, J rows -> P rows ->
    J (logged id now (entry event data) :: rows) /\ Q (logged id now (entry event data) :: rows)) ->
  triple (on_log J) (on_log P) (write now event data) (fun _ => on_log Q).
Proof.
  intros Hq Hw db fs Hj Hp. unfold write, create_audit_log, attempt, mbind, M_bind, call, effect.
  pose proof (Hq _ Hj Hp). destruct (Hw _ (gen_random_uuid (next_log db)) Hj Hp).
  by destruct fs as [|[] fs].
Qed.

Section Watch.
Context {X : Type} (key : AuditLog -> option string) (down : AuditLog -> bool).
Context (now : instant) (f : X -> option (AuditEventType * json)).
Context (xkey : X -> string) (xsilent : X -> bool) (said0 : string -> bool).

(** What [f] says of an item, against what was said before. *)
Definition reports : Prop := forall x,
  match f x with
  | None => xsilent x = said0 (xkey x)
  | Some (event, data) =>
      xsilent x = negb (said0 (xkey x)) /\
      forall id, key (logged id now (entry event data)) = Some (xkey x) /\
                 down (logged id now (entry event data)) = xsilent x
  end.

Context (Hf : reports).

(** The items to come are distinct, and nothing was said of them since. *)
Definition to_come (xs : list X) (rows : list AuditLog) : Prop :=
  NoDup (xkey <$> xs) /\ forall x, x ∈ xs -> said key down (xkey x) rows = said0 (xkey x).

Lemma to_come_cons x xs rows : to_come (x :: xs) rows -> to_come xs rows.
Proof. intros [Hn Hs]. apply NoDup_cons in Hn as [_ Hn]. split; [done|]. intros y Hy. apply Hs. by right. Qed.

Lemma to_come_after x xs r rows :
  key r = Some (xkey x) -> to_come (x :: xs) rows -> to_come xs (r :: rows).
Proof.
  intros Hk H. pose proof (to_come_cons x xs rows H) as [Hn Hs]. split; [done|].
  intros y Hy. rewrite said_other; [by apply Hs|]. rewrite Hk. intros Heq. injection Heq as Heq.
  destruct H as [Hn' _]. apply NoDup_cons in Hn' as [Hx _]. apply Hx, list_elem_of_fmap. by exists y.
Qed.

(** A condition kept by a row that changes what was said of an item. *)
Definition kept_by_reports (J : list AuditLog -> Prop) : Prop :=
  forall x event data id rows, f x = Some (event, data) ->
    said key down (xkey x) rows = said0 (xkey x) -> J rows ->
    J (logged id now (entry event data) :: rows).

Lemma report_all_keeps (J : list AuditLog -> Prop) xs :
  kept_by_reports J ->
  triple (on_log J) (on_log (to_come xs)) (report_all now f xs) (fun _ _ => True).
Proof.
  intros HJ. induction xs as [|x xs IH]; cbn [report_all]; [by apply triple_ret|].
  destruct (f x) as [[event data]|] eqn:E.
  - apply (triple_bind _ _ _ _ (fun _ => on_log (to_come xs))).
    + apply write_log; [intros rows _; apply to_come_cons|]. intros rows id Hj Hc.
      pose proof (Hf x) as Hx. rewrite E in Hx. destruct Hx as [_ Hx]. destruct (Hx id) as [Hk _].
      split; [|by apply (to_come_after x)]. apply (HJ x); [done| |done]. by apply Hc; left.
    + intros _. apply (triple_bind _ _ _ _ (fun _ _ => True)); [done|]. intros n. by apply triple_ret.
  - eapply triple_weaken; [exact IH| |done]. intros db _. apply to_come_cons.
Qed.

(** Where nothing fails, what is said afterwards is how it is. *)
Lemma report_all_settles xs ys :
  answers (on_log (fun rows => to_come xs rows /\ NoDup (xkey <$> ys ++ xs) /\
             forall y, y ∈ ys -> said key down (xkey y) rows = xsilent y))
    (report_all now f xs)
    (fun _ => on_log (fun rows => forall y, y ∈ ys ++ xs -> said key down (xkey y) rows = xsilent y)).
Proof.
  revert ys. induction xs as [|x xs IH]; intros ys; cbn [report_all].
  { apply answers_ret. intros db (_ & _ & H). unfold on_log. by rewrite app_nil_r. }
  assert (Hassoc : ys ++ x :: xs = (ys ++ [x]) ++ xs) by by rewrite <-app_assoc.
  pose proof (Hf x) as Hx. rewrite Hassoc. destruct (f x) as [[event data]|] eqn:E.
  - apply (answers_bind _ _ _ (fun _ => on_log (fun rows => to_come xs rows /\
      NoDup (xkey <$> (ys ++ [x]) ++ xs) /\
      forall y, y ∈ ys ++ [x] -> said key down (xkey y) rows = xsilent y))).
    + intros db (Hc & Hn & Hy). destruct Hx as [_ Hx].
      destruct (Hx (gen_random_uuid (next_log db))) as [Hk Hd].
      eexists _, tt. split; [reflexivity|]. unfold on_log. simpl.
      split_and!; [by apply (to_come_after x)|done|]. intros y [Hin|Hin]%elem_of_app.
      * rewrite Hk. rewrite bool_decide_false; [by apply Hy|]. intros Heq. injection Heq as Heq.
        rewrite <-app_assoc, fmap_app in Hn. apply NoDup_app in Hn as (_ & Hn & _).
        apply (Hn (xkey y)); [apply list_elem_of_fmap; by exists y|]. rewrite <-Heq. by left.
      * apply list_elem_of_singleton in Hin as ->. by rewrite Hk, bool_decide_true.
    + intros _. eapply answers_bind; [apply IH|]. intros n. apply answers_ret. intros db H. exact H.
  - eapply answers_weaken; [apply IH| |intros n db H; exact H]. intros db (Hc & Hn & Hy). unfold on_log.
    split_and!; [by apply (to_come_cons x)|done|]. intros y [Hin|Hin]%elem_of_app; [by apply Hy|].
    apply list_elem_of_singleton in Hin as ->. rewrite Hx. by apply Hc; left.
Qed.

(** Nothing to say, nothing written. *)
Lemma report_all_quiet xs :
  (forall x, x ∈ xs -> xsilent x = said0 (xkey x)) -> report_all now f xs = mret 0%nat.
Proof.
  induction xs as [|x xs IH]; intros Hs; [done|]. cbn [report_all].
  pose proof (Hf x) as Hx. rewrite (Hs x) in Hx by by left. destruct (f x) as [[event data]|].
  - destruct Hx as [Hx _]. by destruct (said0 (xkey x)).
  - apply IH. intros y Hy. apply Hs. by right.
Qed.

End Watch.

(** ** The three subjects *)

Definition module_row := keyed MODULE_LIVENESS "module_id".
Definition says_module_silent (r : AuditLog) : bool := log_event_type r ≟ "tool_module_silent"%string.
Definition device_row := keyed ["edge_isolation_reported"%string] "device_id".
Definition says_device_silent (r : AuditLog) : bool := isolation_state r ≟ "silent"%string.
Definition power_row := keyed ["unauthorized_power_detected"%string] "tool_id".

(** How long a report says the tool had been powered. *)
Definition seconds_in (r : AuditLog) : Z :=
  match json_get (event_data r) "seconds_observed" with Some (JInt s) => s | _ => 0 end.

(** No two reports about one tool are of the same run of power. *)
Fixpoint episodes (rows : list AuditLog) : Prop :=
  match rows with
  | [] => True
  | r :: rows =>
      (forall r' k, r' ∈ rows -> power_row r = Some k -> power_row r' = Some k ->
        log_created_at r' + seconds (seconds_in r) <= log_created_at r) /\ episodes rows
  end.

Lemma module_reports now recorded :
  reports module_row says_module_silent now (module_report now recorded) module_key
    (fun m => silent_at now m.2) (fun k => said_silent recorded k "tool_module_silent").
Proof.
  intros [b seen]. unfold module_report, classify_liveness, silent_at, module_key. cbn [fst snd].
  change (AuditClass.as_str ToolModuleSilent) with "tool_module_silent"%string.
  destruct (is_silent _ _), (said_silent _ _ _); cbn [module_event fmap option_fmap option_map]; done.
Qed.

Lemma device_reports now recorded :
  reports device_row says_device_silent now (device_report now recorded) device_key
    (fun d => silent_at now d.2) (fun k => said_silent recorded k "silent").
Proof.
  intros [[did name] seen]. unfold device_report, classify_liveness, silent_at, device_key. cbn [fst snd].
  destruct (is_silent _ _), (said_silent _ _ _); cbn [device_state fmap option_fmap option_map]; done.
Qed.

(** ** The trail is a record of changes *)

Definition transitions (now : instant) (rows : list AuditLog) : Prop :=
  newest_first rows /\ Forall (fun r => log_created_at r <= now) rows /\
  (forall k, alternates module_row says_module_silent k rows) /\
  (forall k, alternates device_row says_device_silent k rows) /\ episodes rows.

(** A row of now is in order, and right if it is right about its own subject. *)
Lemma transitions_cons now n id rows :
  let r := logged id now n in
  transitions now rows ->
  (forall k, module_row r = Some k -> says_module_silent r = negb (said module_row says_module_silent k rows)) ->
  (forall k, device_row r = Some k -> says_device_silent r = negb (said device_row says_device_silent k rows)) ->
  (forall r' k, r' ∈ rows -> power_row r = Some k -> power_row r' = Some k ->
     log_created_at r' + seconds (seconds_in r) <= log_created_at r) ->
  transitions now (r :: rows).
Proof.
  intros r (H1 & H2 & H3 & H4 & H5) Hm Hd Hp.
  unfold transitions. split; [by split|]. split; [by constructor|]. split; [|split].
  - intros k. split; [apply Hm | apply H3].
  - intros k. split; [apply Hd | apply H4].
  - by split.
Qed.

(** Not about the three: anything another service records. *)
Definition foreign (event : string) : Prop :=
  event ∉ MODULE_LIVENESS /\ event <> "edge_isolation_reported"%string /\
  event <> "unauthorized_power_detected"%string.

Lemma keyed_not types field r : log_event_type r ∉ types -> keyed types field r = None.
Proof. intros H. unfold keyed. by rewrite bool_decide_false. Qed.

Lemma transitions_foreign now n id rows :
  foreign (na_event_type n) -> transitions now rows -> transitions now (logged id now n :: rows).
Proof.
  intros (Hm & Hd & Hp) H. apply transitions_cons; [done|..].
  - intros k. unfold module_row. by rewrite keyed_not.
  - intros k. unfold device_row. rewrite keyed_not; [done|]. by rewrite list_elem_of_singleton.
  - intros r' k _. unfold power_row. rewrite keyed_not; [done|]. by rewrite list_elem_of_singleton.
Qed.

Lemma transitions_later now now' rows : now <= now' -> transitions now rows -> transitions now' rows.
Proof.
  intros Hn (H1 & H2 & H). split_and!; [done| |apply H..]. eapply Forall_impl; [done|]. simpl. lia.
Qed.

Lemma module_reports_keep now recorded :
  kept_by_reports module_row says_module_silent now (module_report now recorded) module_key
    (fun k => said_silent recorded k "tool_module_silent") (transitions now).
Proof.
  intros m event data id rows E Hs HJ. pose proof (module_reports now recorded m) as Hm.
  rewrite E in Hm. destruct Hm as [Hx Hm]. destruct (Hm id) as [Hk Hd].
  assert (event = ToolModuleSilent \/ event = ToolModuleReturned) as Hev.
  { unfold module_report in E. destruct (classify_liveness _ _ _); simplify_eq/=; auto. }
  apply transitions_cons; [done|..].
  - intros k Hk'. rewrite Hk in Hk'. injection Hk' as <-. by rewrite Hd, Hx, Hs.
  - intros k. unfold device_row. rewrite keyed_not; [done|]. rewrite list_elem_of_singleton.
    by destruct Hev as [-> | ->].
  - intros r' k _. unfold power_row. rewrite keyed_not; [done|]. rewrite list_elem_of_singleton.
    by destruct Hev as [-> | ->].
Qed.

Lemma device_reports_keep now recorded :
  kept_by_reports device_row says_device_silent now (device_report now recorded) device_key
    (fun k => said_silent recorded k "silent") (transitions now).
Proof.
  intros d event data id rows E Hs HJ. pose proof (device_reports now recorded d) as Hm.
  rewrite E in Hm. destruct Hm as [Hx Hm]. destruct (Hm id) as [Hk Hd].
  assert (event = EdgeIsolationReported) as ->.
  { unfold device_report in E. destruct (classify_liveness _ _ _); by simplify_eq/=. }
  apply transitions_cons; [done|..].
  - intros k. unfold module_row. rewrite keyed_not; [done|]. simpl. set_solver.
  - intros k Hk'. rewrite Hk in Hk'. injection Hk' as <-. by rewrite Hd, Hx, Hs.
  - intros r' k _. unfold power_row. rewrite keyed_not; [done|]. by rewrite list_elem_of_singleton.
Qed.

(** ** The keys of the tables *)

Definition unique_keys (g : GuardDb) : Prop :=
  NoDup (binding_id <$> bindings g) /\
  forall k s, power_states (part (part g)) !! k = Some s -> tps_tool_id s = k.

(** What a sweep reads back is the last word. *)
Lemma recorded_modules rows k :
  newest_first rows ->
  said_silent (log_event_type <$> latest module_row rows) k "tool_module_silent" =
  said module_row says_module_silent k rows.
Proof.
  intros H. unfold said_silent. rewrite lookup_fmap, latest_newest by done. rewrite said_find.
  by destruct (find_first _ _).
Qed.

Lemma recorded_devices rows k :
  newest_first rows ->
  said_silent (isolation_state <$> latest device_row rows) k "silent" =
  said device_row says_device_silent k rows.
Proof.
  intros H. unfold said_silent. rewrite lookup_fmap, latest_newest by done. rewrite said_find.
  by destruct (find_first _ _).
Qed.

#[local] Instance uuid_show_inj : Inj (=) (=) uuid_show.
Proof. intros a b H. apply (f_equal uuid_parse) in H. rewrite !uuid_parse_show in H. by injection H. Qed.

Definition bound_modules (g : GuardDb) : list (DeviceBinding * option instant) :=
  omap (fun b => d ← live_row g (binding_device b); Some (b, last_seen_at d)) (bindings g).

Lemma bound_modules_keys g : unique_keys g -> NoDup (module_key <$> bound_modules g).
Proof.
  intros [Hn _]. unfold bound_modules. induction (bindings g) as [|b bs IH]; [constructor|].
  rewrite fmap_cons in Hn. apply NoDup_cons in Hn as [Hb Hn]. cbn [omap list_omap].
  destruct (live_row g (binding_device b)) as [d|]; cbn [mbind option_bind]; [|by apply IH].
  rewrite fmap_cons. apply NoDup_cons. split; [|by apply IH].
  intros ([b' seen] & He & Hin)%list_elem_of_fmap. unfold module_key in He. cbn [fst] in He.
  apply uuid_show_inj in He. apply Hb, list_elem_of_fmap. exists b'. split; [done|].
  apply list_elem_of_omap in Hin as (b0 & Hin & He0). by destruct (live_row g _); simplify_eq/=.
Qed.

Definition unbound_devices (g : GuardDb) (bound : list uuid) : list Device :=
  omap (fun kd => d ← live_row g kd.1;
                  if bool_decide (kd.1 ∈ bound) then None else Some (kd.1, device_name d, last_seen_at d))
    (map_to_list (devices g)).

Lemma unbound_devices_keys g bound : NoDup (device_key <$> unbound_devices g bound).
Proof.
  unfold unbound_devices. pose proof (NoDup_fst_map_to_list (devices g)) as Hn.
  induction (map_to_list (devices g)) as [|[did d] ds IH]; [constructor|].
  rewrite fmap_cons in Hn. apply NoDup_cons in Hn as [Hb Hn]. cbn [omap list_omap fst].
  destruct (live_row g did) as [d'|]; cbn [mbind option_bind]; [|by apply IH].
  case_bool_decide; [by apply IH|]. rewrite fmap_cons. apply NoDup_cons. split; [|by apply IH].
  intros ([[did' name] seen] & He & Hin)%list_elem_of_fmap. unfold device_key in He. cbn [fst] in He.
  apply uuid_show_inj in He. subst did'. apply Hb, list_elem_of_fmap.
  apply list_elem_of_omap in Hin as ([did' d0] & Hin & He0). exists (did', d0).
  cbn [fst] in *. destruct (live_row g did') as [|]; [|done]. cbn [mbind option_bind] in He0.
  case_bool_decide; by simplify_eq/=.
Qed.

Definition keyed_well (db : TrailDb) : Prop := unique_keys (guard db).

Lemma reads_modules :
  reads bound_modules_with_liveness (fun db ms => ms = bound_modules (guard db)).
Proof. exact (reads_within _ _ (reads_select _)). Qed.

Lemma reads_devices :
  reads unbound_devices_with_liveness (fun db ds => exists bound, ds = unbound_devices (guard db) bound).
Proof.
  eapply reads_bind; [exact (reads_within _ _ (reads_select _))|]. intros bound.
  eapply reads_weaken; [exact (reads_within _ _ (reads_select _))|]. intros db ds -> _. by exists bound.
Qed.

Lemma sweep_once_keeps now :
  triple (on_log (transitions now)) keyed_well (sweep_once now) (fun _ _ => True).
Proof.
  eapply triple_bind; [apply (triple_reads _ _ _ _ reads_modules)|]. intros ms.
  assert (Hrest : triple (on_log (transitions now)) (fun db => keyed_well db /\ ms = bound_modules (guard db))
    (recorded ← latest_module_liveness_records; sweep_modules now recorded ms) (fun _ _ => True)).
  { eapply triple_bind; [apply triple_reads, reads_select|]. intros recorded. rewrite sweep_modules_eq.
    eapply triple_weaken.
    - apply (report_all_keeps module_row says_module_silent now _ _ _ _ (module_reports now recorded)).
      apply module_reports_keep.
    - intros db HI [[Hk ->] ->]. split; [by apply bound_modules_keys|]. intros m _. symmetry.
      apply recorded_modules, HI.
    - done. }
  destruct ms; [by apply triple_ret | exact Hrest].
Qed.

Lemma sweep_unbound_keeps now :
  triple (on_log (transitions now)) keyed_well (sweep_unbound_devices now) (fun _ _ => True).
Proof.
  eapply triple_bind; [apply (triple_reads _ _ _ _ reads_devices)|]. intros ds.
  assert (Hrest : triple (on_log (transitions now))
    (fun db => keyed_well db /\ exists bound, ds = unbound_devices (guard db) bound)
    (recorded ← latest_device_isolation_records; sweep_devices now recorded ds) (fun _ _ => True)).
  { eapply triple_bind; [apply triple_reads, reads_select|]. intros recorded. rewrite sweep_devices_eq.
    eapply triple_weaken.
    - apply (report_all_keeps device_row says_device_silent now _ _ _ _ (device_reports now recorded)).
      apply device_reports_keep.
    - intros db HI [[Hk [bound ->]] ->]. split; [apply unbound_devices_keys|]. intros m _. symmetry.
      apply recorded_devices, HI.
    - done. }
  destruct ds; [by apply triple_ret | exact Hrest].
Qed.

(** ** Unauthorized power, once per run of power *)

Lemma first_is_latest key rows k r :
  newest_first rows -> r ∈ rows -> key r = Some k ->
  exists r0, latest key rows !! k = Some r0 /\ log_created_at r <= log_created_at r0.
Proof.
  intros Hn Hin Hk. rewrite latest_newest by done. induction rows as [|x rows IH]; [by apply not_elem_of_nil in Hin|].
  destruct Hn as [Hx Hn]. cbn [find_first]. case_bool_decide as E.
  - exists x. split; [done|]. apply elem_of_cons in Hin as [-> | Hin]; [done|].
    by eapply Forall_forall in Hx.
  - apply elem_of_cons in Hin as [-> | Hin]; [done|]. by apply IH.
Qed.

Definition power_rows_match (already : gmap string instant) (readings : list ToolPowerState)
    (rows : list AuditLog) : Prop :=
  NoDup (tps_tool_id <$> readings) /\
  forall reading, reading ∈ readings ->
    find_first (fun r => power_row r ≟ Some (uuid_show (tps_tool_id reading))) rows =
    None /\ already !! uuid_show (tps_tool_id reading) = None \/
    exists r, find_first (fun r => power_row r ≟ Some (uuid_show (tps_tool_id reading))) rows = Some r /\
      already !! uuid_show (tps_tool_id reading) = Some (log_created_at r).

Lemma power_rows_cons already reading readings rows :
  power_rows_match already (reading :: readings) rows -> power_rows_match already readings rows.
Proof.
  intros [Hn Hs]. apply NoDup_cons in Hn as [_ Hn]. split; [done|]. intros y Hy. apply Hs. by right.
Qed.

Lemma power_rows_after already reading readings r rows :
  power_row r = Some (uuid_show (tps_tool_id reading)) ->
  power_rows_match already (reading :: readings) rows -> power_rows_match already readings (r :: rows).
Proof.
  intros Hk H. pose proof (power_rows_cons _ _ _ _ H) as [Hn Hs]. split; [done|].
  intros y Hy. cbn [find_first]. rewrite Hk, bool_decide_false; [by apply Hs|].
  intros Heq. injection Heq as Heq. apply uuid_show_inj in Heq.
  destruct H as [Hn' _]. apply NoDup_cons in Hn' as [Hx _]. apply Hx, list_elem_of_fmap. by exists y.
Qed.

Lemma num_seconds_le d : 0 <= d -> seconds (num_seconds d) <= d.
Proof.
  intros Hd. unfold num_seconds, seconds. pose proof (Z.quot_rem' d (1 * 1000000000)).
  pose proof (Z.rem_bound_pos d (1 * 1000000000)). lia.
Qed.

Lemma num_seconds_neg d : d <= 0 -> num_seconds d <= 0.
Proof. intros Hd. unfold num_seconds, seconds. pose proof (Z.quot_opp_l (- d) (1 * 1000000000)) as H.
  rewrite Z.opp_involutive in H. rewrite H by lia. pose proof (Z.quot_pos (- d) (1 * 1000000000)). lia. Qed.

(** A report of a run of power no report is of yet. *)
Lemma new_episode now already reading tool rows r' :
  transitions now rows -> power_rows_match already [reading] rows ->
  reported already reading = false -> r' ∈ rows ->
  power_row r' = Some (uuid_show (tps_tool_id reading)) ->
  log_created_at r' + seconds (seconds_in (logged uuid_nil now (entry UnauthorizedPowerDetected
    (power_data now tool reading)))) <= now.
Proof.
  intros (Hn & Hle & _) [_ Hm] Hrep Hin Hk.
  change (seconds_in _) with (observed now reading).
  destruct (first_is_latest power_row rows _ _ Hn Hin Hk) as (r0 & Hl & Hr0).
  rewrite latest_newest in Hl by done.
  destruct (Hm reading (list_elem_of_here _ _)) as [[He _]|(r1 & He & Ha)]; [congruence|].
  simplify_eq. unfold reported in Hrep. rewrite Ha in Hrep. unfold observed.
  assert (log_created_at r0 <= now).
  { eapply Forall_forall in Hle; [exact Hle|]. by apply find_first_Some in Hl as [? _]. }
  destruct (power_evidence_since reading) as [since|]; [|done]. apply Z.leb_gt in Hrep.
  destruct (Z.le_gt_cases 0 (now - since)) as [Hd|Hd].
  - pose proof (num_seconds_le _ Hd). lia.
  - pose proof (num_seconds_neg (now - since)). unfold seconds. lia.
Qed.

Lemma check_readings_keeps now already readings :
  triple (on_log (transitions now)) (on_log (power_rows_match already readings))
    (check_readings now already readings) (fun _ _ => True).
Proof.
  induction readings as [|reading readings IH]; cbn [check_readings]; [by apply triple_ret|].
  assert (Hskip : triple (on_log (transitions now)) (on_log (power_rows_match already (reading :: readings)))
    (check_readings now already readings) (fun _ _ => True)).
  { eapply triple_weaken; [exact IH| |done]. intros db _. apply power_rows_cons. }
  eapply triple_bind.
  { apply (triple_reads _ (on_log (power_rows_match already (reading :: readings))) _ (fun _ _ => True)).
    eapply reads_weaken; [|done]. unfold get_tool_by_id, guard_call, GuardStore.get_tool_by_id, money_call, training_call, base_call.
    repeat apply reads_within. apply reads_select. }
  intros [tool|].
  2: { eapply triple_weaken; [exact Hskip| |done]. by intros db _ [? _]. }
  destruct (negb (finding now tool reading) || reported already reading) eqn:E.
  { eapply triple_weaken; [exact Hskip| |done]. by intros db _ [? _]. }
  apply orb_false_iff in E as [_ Hrep].
  apply (triple_bind _ _ _ _ (fun _ => on_log (power_rows_match already readings))).
  - eapply triple_weaken; [apply (write_log (transitions now)
      (power_rows_match already (reading :: readings)) (power_rows_match already readings))| |done].
    + intros rows _. apply power_rows_cons.
    + intros rows id HJ Hm. split; [|by apply (power_rows_after _ reading)].
      apply transitions_cons; [done|..].
      * intros k. unfold module_row. rewrite keyed_not; [done|]. simpl. set_solver.
      * intros k. unfold device_row. rewrite keyed_not; [done|]. by rewrite list_elem_of_singleton.
      * intros r' k Hin [= <-] Hk. apply (new_episode now already reading tool rows r'); try done.
        destruct Hm as [_ Hm]. split; [repeat constructor; set_solver|]. intros y ->%list_elem_of_singleton.
        apply Hm. by left.
    + by intros db _ [? _].
  - intros _. apply (triple_bind _ _ _ _ (fun _ _ => True)); [exact IH|]. intros n. by apply triple_ret.
Qed.

Definition power_readings (g : GuardDb) : list ToolPowerState :=
  (map_to_list (power_states (part (part g)))).*2.

Lemma power_readings_keys g : unique_keys g -> NoDup (tps_tool_id <$> power_readings g).
Proof.
  intros [_ Hf]. unfold power_readings.
  assert (tps_tool_id <$> (map_to_list (power_states (part (part g)))).*2 =
          (map_to_list (power_states (part (part g)))).*1) as ->; [|apply NoDup_fst_map_to_list].
  rewrite <-list_fmap_compose. apply list_fmap_ext. intros i [k st] Hi. simpl.
  apply Hf, elem_of_map_to_list. by apply list_elem_of_lookup_2 in Hi.
Qed.

Lemma reads_readings :
  reads list_tool_power_state (fun db rs => rs = power_readings (guard db)).
Proof.
  unfold list_tool_power_state, guard_call, power_call, training_call.
  exact (reads_within _ _ (reads_within _ _ (reads_within _ _ (reads_select _)))).
Qed.

Lemma check_power_keeps now :
  triple (on_log (transitions now)) keyed_well (check_unauthorized_power now) (fun _ _ => True).
Proof.
  eapply triple_bind; [apply (triple_reads _ _ _ _ reads_readings)|]. intros rs.
  assert (Hrest : triple (on_log (transitions now)) (fun db => keyed_well db /\ rs = power_readings (guard db))
    (already ← latest_unauthorized_power_reports; check_readings now already rs) (fun _ _ => True)).
  { eapply triple_bind; [apply triple_reads, reads_select|]. intros already.
    eapply triple_weaken; [apply check_readings_keeps| |done].
    intros db HI [[Hk ->] ->]. split; [by apply power_readings_keys|]. intros reading _.
    fold power_row. rewrite lookup_fmap, latest_newest by apply HI.
    destruct (find_first _ (audit_logs db)) as [r|]; [right; by exists r|by left]. }
  destruct rs; [by apply triple_ret | exact Hrest].
Qed.

(** A pass touches the trail, and no table underneath. *)
Lemma write_guard g now event data : keeps (fun db => guard db = g) (write now event data).
Proof.
  unfold write, create_audit_log. apply keeps_bind; [|intros; apply keeps_ret]. apply keeps_attempt.
  apply keeps_bind; [by apply keeps_call|]. intros r. apply keeps_bind; [|intros; apply keeps_ret].
  by apply triple_effect.
Qed.

Lemma report_all_guard {X} g now (f : X -> option (AuditEventType * json)) xs :
  keeps (fun db => guard db = g) (report_all now f xs).
Proof.
  induction xs as [|x xs IH]; cbn [report_all]; [apply keeps_ret|].
  destruct (f x) as [[event data]|]; [|done]. apply keeps_bind; [apply write_guard|]. intros _.
  apply keeps_bind; [done|]. intros n. apply keeps_ret.
Qed.

Lemma check_readings_guard g now already rs :
  keeps (fun db => guard db = g) (check_readings now already rs).
Proof.
  induction rs as [|r rs IH]; cbn [check_readings]; [apply keeps_ret|]. apply keeps_bind.
  - apply (keeps_reads _ _ (fun _ _ => True)). eapply reads_weaken; [|done].
    unfold get_tool_by_id, guard_call, GuardStore.get_tool_by_id, money_call, training_call, base_call.
    repeat apply reads_within. apply reads_select.
  - intros [tool|]; [|done]. case_match; [done|]. apply keeps_bind; [apply write_guard|]. intros _.
    apply keeps_bind; [done|]. intros n. apply keeps_ret.
Qed.

Lemma sweep_once_guard g now : keeps (fun db => guard db = g) (sweep_once now).
Proof.
  apply keeps_bind; [apply (keeps_reads _ _ _ reads_modules)|]. intros ms.
  assert (keeps (fun db => guard db = g) (recorded ← latest_module_liveness_records; sweep_modules now recorded ms))
    by (apply keeps_bind; [apply keeps_select|intros rec; rewrite sweep_modules_eq; apply report_all_guard]).
  destruct ms; [apply keeps_ret|done].
Qed.

Lemma sweep_unbound_guard g now : keeps (fun db => guard db = g) (sweep_unbound_devices now).
Proof.
  apply keeps_bind; [apply (keeps_reads _ _ _ reads_devices)|]. intros ds.
  assert (keeps (fun db => guard db = g) (recorded ← latest_device_isolation_records; sweep_devices now recorded ds))
    by (apply keeps_bind; [apply keeps_select|intros rec; rewrite sweep_devices_eq; apply report_all_guard]).
  destruct ds; [apply keeps_ret|done].
Qed.

Lemma check_power_guard g now : keeps (fun db => guard db = g) (check_unauthorized_power now).
Proof.
  apply keeps_bind; [apply (keeps_reads _ _ _ reads_readings)|]. intros rs.
  assert (keeps (fun db => guard db = g) (already ← latest_unauthorized_power_reports; check_readings now already rs))
    by (apply keeps_bind; [apply keeps_select|intros; apply check_readings_guard]).
  destruct rs; [apply keeps_ret|done].
Qed.

Lemma tick_part (m : M nat) now :
  triple (on_log (transitions now)) keyed_well m (fun _ _ => True) ->
  (forall g, keeps (fun db => guard db = g) m) ->
  triple (on_log (transitions now)) keyed_well (attempt m) (fun _ => keyed_well).
Proof.
  intros Ht Hg db fs HI Hk. specialize (Ht db fs HI Hk).
  specialize (Hg (guard db) db fs eq_refl Logic.I). unfold attempt.
  destruct (m (db, fs)) as [[db' fs'] r]. destruct Ht as [Ht _], Hg as [Hg _].
  split; [done|]. unfold keyed_well. by rewrite Hg.
Qed.

Lemma tick_keeps now :
  triple (on_log (transitions now)) keyed_well (tick now) (fun _ => keyed_well).
Proof.
  apply (triple_bind _ _ _ _ (fun _ => keyed_well)); [apply tick_part; [apply sweep_once_keeps|intros; apply sweep_once_guard]|intros _].
  apply (triple_bind _ _ _ _ (fun _ => keyed_well)); [apply tick_part; [apply sweep_unbound_keeps|intros; apply sweep_unbound_guard]|intros _].
  apply (triple_bind _ _ _ _ (fun _ => keyed_well)); [apply tick_part; [apply check_power_keeps|intros; apply check_power_guard]|intros _].
  by apply triple_ret.
Qed.

(** ** Histories

    Passes, with whatever faults their calls meet, among anything other services do
    to the tables and record of other kinds. *)
Inductive history : instant -> TrailDb -> Prop :=
  | started now db : audit_logs db = [] -> keyed_well db -> history now db
  | time_passes now now' db : history now db -> now <= now' -> history now' db
  | ticked now db fs : history now db -> history now (tick now (db, fs)).1.1
  | world_moves now db g : history now db -> unique_keys g -> history now (with_guard g db)
  | other_row now db id n : history now db -> foreign (na_event_type n) ->
      history now (with_log (logged id now n) db).

Lemma history_ok now db : history now db -> transitions now (audit_logs db) /\ keyed_well db.
Proof.
  induction 1 as [now db H Hk|now now' db _ [IH Hk] Hn|now db fs _ [IH Hk]|now db g _ [IH Hk] Hg|now db id n _ [IH Hk] Hf].
  - rewrite H. split; [|done]. by split_and!.
  - split; [by apply (transitions_later now)|done].
  - pose proof (tick_keeps now db fs IH Hk) as Ht. destruct (tick now (db, fs)) as [[db' fs'] r] eqn:E.
    destruct Ht as [Ht Hr]. split; [exact Ht|]. destruct r as [[]|e]; [exact Hr|].
    exfalso. clear -E. unfold tick, attempt, mbind, M_bind in E.
    destruct (sweep_once _ _) as [[? ?] ?], (sweep_unbound_devices _ _) as [[? ?] ?],
      (check_unauthorized_power _ _) as [[? ?] ?]. discriminate E.
  - by split.
  - split; [by apply transitions_foreign|done].
Qed.

(** C39. The trail records changes, not states: whatever faults the passes meet and
    whatever happens in between, each row about a module, and each row about a device,
    says the opposite of the row before it about the same one, the first says silent,
    and no two reports of unauthorized power about one tool are of the same run. *)
Theorem trail_records_changes now db :
  history now db ->
  (forall k, alternates module_row says_module_silent k (audit_logs db)) /\
  (forall k, alternates device_row says_device_silent k (audit_logs db)) /\
  episodes (audit_logs db).
Proof. intros H. apply history_ok in H as [H _]. apply H. Qed.

(** ** A pass that nothing disturbs *)

(** What a pass over the modules comes to, with what it reads in place. *)
Lemma sweep_once_eq now db :
  sweep_once now (db, []) =
  report_all now (module_report now (log_event_type <$> latest module_row (audit_logs db)))
    (bound_modules (guard db)) (db, []).
Proof.
  rewrite <-sweep_modules_eq.
  change (sweep_once now (db, [])) with
    (match bound_modules (guard db) with
     | [] => mret 0%nat
     | _ => recorded ← latest_module_liveness_records;
            sweep_modules now recorded (bound_modules (guard db))
     end (with_guard (guard db) db, [])).
  replace (with_guard (guard db) db) with db by by destruct db.
  by destruct (bound_modules (guard db)).
Qed.

(** Where nothing fails, a pass leaves the trail saying of every bound module whether
    it is silent now, and a second pass at that moment writes nothing. *)
Theorem sweep_says_how_it_is now db :
  transitions now (audit_logs db) -> keyed_well db ->
  exists db' n, run (sweep_once now) db = (db', inl n) /\
    (forall m, m ∈ bound_modules (guard db) ->
      said module_row says_module_silent (module_key m) (audit_logs db') = silent_at now m.2) /\
    run (sweep_once now) db' = (db', inl 0%nat).
Proof.
  intros HI Hk. pose proof (proj1 HI) as Hn.
  pose proof (sweep_once_guard (guard db) now db [] eq_refl Logic.I) as Hg.
  pose proof (sweep_once_keeps now db [] HI Hk) as Ht.
  destruct (report_all_settles module_row says_module_silent now _ _ _ _
    (module_reports now (log_event_type <$> latest module_row (audit_logs db)))
    (bound_modules (guard db)) [] db) as (db' & n & Hr & Hs).
  { split_and!; [split| |]; [by apply bound_modules_keys|intros m _; by rewrite recorded_modules
      |by apply bound_modules_keys|intros y Hy; by apply not_elem_of_nil in Hy]. }
  rewrite <-sweep_once_eq in Hr. rewrite Hr in Hg, Ht. destruct Hg as [Hg _], Ht as [Ht _].
  exists db', n. unfold run. rewrite Hr. split_and!; [done|exact Hs|].
  rewrite sweep_once_eq, Hg. erewrite (report_all_quiet module_row says_module_silent now); [done|apply module_reports|].
  intros m Hm. cbn beta. rewrite recorded_modules by apply Ht. symmetry. by apply Hs.
Qed.

(** A report of unauthorized power is about a tool the server has not turned on, that
    showed power for the debounce time. *)
Lemma finding_iff now tool reading :
  finding now tool reading = true <->
  tool_in_use tool = false /\
  (default false (last_relay_on reading) = true \/
   exists amps, last_draw_amps reading = Some amps /\ drawing config amps = true) /\
  unauthorized_power_debounce_secs config <= observed now reading.
Proof.
  unfold finding, is_unauthorized_power, any, evidence_of. cbn [relay_reported_on draw_observed].
  destruct (tool_in_use tool), (default false (last_relay_on reading)),
    (last_draw_amps reading) as [q|]; simpl; rewrite ?Z.leb_le; try naive_solver.
  destruct (drawing config q) eqn:Eq; simpl; rewrite ?Z.leb_le; naive_solver.
Qed.

End Service.
End Bypass.
