(* ===== verification/Alerts.v ===== *)
(** * The alert feed and its heartbeat ([server/src/api/alerts.rs], [server/src/alerts.rs])

    Audit rows worth a person's attention, a page at a time, acknowledged beside the
    log and never in it; and the periodic event whose absence is the alarm. *)
From Stdlib Require Import QArith.
From S2P Require Import Prelude Text Rbac Schedules Access Faults Money AuditLog Database Api Power Training GuardStore Hooks Trail.
Import Text Rbac Faults Money Audit Database Api Power Training GuardStore Hooks Trail.

Module Alerts.

#[local] Open Scope Z_scope.

Section Alerts.
Context {U : Uuid} {IS : IdSource} {JT : JsonbText}.

(** [{:?}] of a string, RFC 3339, and [DatabaseError]'s Display. *)
Context (debug : string -> string) (to_rfc3339 : instant -> string)
  (error_text : DatabaseError -> string).

Abbreviation M := (Faults.M TrailDb DatabaseError).
Abbreviation H := (Faults.M TrailDb ApiError).

Definition lift {A} (m : M A) : H A := map_err api_error m.

(** [AuditLogger::log_event]: a failure is logged and forgotten. *)
Definition log_event (now : instant) (event : AuditEventType) (user actor : option uuid)
    (data : json) : M unit :=
  _ ← attempt (create_audit_log now {|
        na_event_type := AuditClass.as_str event; na_user_id := user; na_actor_id := actor;
        na_event_data := data; na_ip_address := None; na_user_agent := None |});
  mret tt.

(** ** The feed *)

Definition VIEW : string := "alerts.view".
Definition ACKNOWLEDGE : string := "alerts.acknowledge".
Definition DEFAULT_MIN_SEVERITY : AuditClass.Severity.t := AuditClass.Severity.Notice.

Definition require (user : uuid) (key : string) : H unit :=
  yes ← lift (guard_call (money_call (user_has_permission user key)));
  if yes : bool then mret tt else throw (Forbidden ("requires the " +:+ key +:+ " permission")).

Record AlertQuery := {
  page : option Z;
  per_page : option Z;
  category : option string;
  q_min_severity : option string;
  acknowledged : option bool;
}.

Record AlertResponse := {
  alert_log : AuditLog;
  alert_kind : AuditEventType;
  acknowledgement : option AlertAcknowledgement;
}.

Definition from_row (row : AuditLog * option AlertAcknowledgement) : option AlertResponse :=
  (fun kind => {| alert_log := row.1; alert_kind := kind; acknowledgement := row.2 |}) <$>
  AuditClass.parse (log_event_type row.1).

Definition category_eqb (a b : AuditClass.Category.t) : bool :=
  AuditClass.Category.as_str a ≟ AuditClass.Category.as_str b.

Definition types_for (min : AuditClass.Severity.t) (cat : option AuditClass.Category.t)
    : list string :=
  AuditClass.as_str <$> List.filter (fun t => is_none_or cat (category_eqb (AuditClass.category t)))
    (List.filter (AuditClass.severe min) AuditClass.all).

Fixpoint join (sep : string) (l : list string) : string :=
  match l with
  | [] => EmptyString
  | [x] => x
  | x :: l => x +:+ sep +:+ join sep l
  end.

Definition parse_filter (q : AlertQuery)
    : ApiError + (AuditClass.Severity.t * option AuditClass.Category.t) :=
  match
    match q_min_severity q with
    | None => inr DEFAULT_MIN_SEVERITY
    | Some s =>
        match AuditClass.Severity.parse s with
        | Some v => inr v
        | None => inl (BadRequest ("unknown min_severity " +:+ debug s +:+ "; one of " +:+
            join ", " (AuditClass.Severity.as_str <$> AuditClass.Severity.ALL)))
        end
    end
  with
  | inl e => inl e
  | inr min =>
      match category q with
      | None => inr (min, None)
      | Some c =>
          match AuditClass.Category.parse c with
          | Some v => inr (min, Some v)
          | None => inl (BadRequest ("unknown category " +:+ debug c +:+ "; one of " +:+
              join ", " (AuditClass.Category.as_str <$> AuditClass.Category.ALL)))
          end
      end
  end.

Definition of_result {A} (r : ApiError + A) : H A :=
  match r with inl e => throw e | inr x => mret x end.

Record PaginatedResponse (T : Type) := {
  items : list T;
  resp_page : Z;
  resp_per_page : Z;
  total : Z;
  total_pages : Z;
}.
#[global] Arguments items {T}.
#[global] Arguments total {T}.
#[global] Arguments total_pages {T}.

(** The sum of two 32-bit numbers wraps. *)
Definition paginated {T} (its : list T) (page per_page total : Z) : PaginatedResponse T := {|
  items := its; resp_page := page; resp_per_page := per_page; total := total;
  total_pages := ((total + per_page - 1) mod 2 ^ 32) / per_page |}.

(** The offset is a 32-bit product. *)
Definition list_alerts (user : uuid) (q : AlertQuery) : H (PaginatedResponse AlertResponse) :=
  _ ← require user VIEW;
  let p := default 1 (page q) in
  let n := default 50 (per_page q) in
  unless ((p =? 0) || (n =? 0) || (200 <? n)) (BadRequest "Invalid pagination parameters") (
    mc ← of_result (parse_filter q);
    let f := {| filter_types := types_for mc.1 mc.2; filter_acknowledged := acknowledged q |} in
    count ← lift (count_alerts f);
    rows ← lift (Trail.list_alerts f n (((p - 1) * n) mod 2 ^ 32));
    mret (paginated (omap from_row rows) p n (count mod 2 ^ 32))).

Record AlertSummary := {
  by_severity : list (AuditClass.Severity.t * Z);
  unacknowledged_total : Z;
}.

Definition severity_eqb (a b : AuditClass.Severity.t) : bool :=
  AuditClass.Severity.rank a =? AuditClass.Severity.rank b.

(** [*by.entry(sev).or_insert(0) += n], in the map's order. *)
Definition add_to (by_ : list (AuditClass.Severity.t * Z)) (sev : AuditClass.Severity.t) (n : Z)
    : list (AuditClass.Severity.t * Z) :=
  if existsb (fun e => severity_eqb e.1 sev) by_
  then (fun e => if severity_eqb e.1 sev then (e.1, e.2 + n) else e) <$> by_
  else sort_by (fun a b => AuditClass.Severity.rank a.1 <=? AuditClass.Severity.rank b.1) ((sev, n) :: by_).

Definition shown_severities : list AuditClass.Severity.t :=
  List.filter (fun s => AuditClass.Severity.rank DEFAULT_MIN_SEVERITY <=? AuditClass.Severity.rank s)
    AuditClass.Severity.ALL.

Definition summarise (counts : list (string * Z)) : AlertSummary :=
  foldl (fun acc kn =>
    match AuditClass.parse kn.1 with
    | Some t => {| by_severity := add_to (by_severity acc) (AuditClass.severity t) kn.2;
                   unacknowledged_total := unacknowledged_total acc + kn.2 |}
    | None => acc
    end)
    {| by_severity := (fun s => (s, 0)) <$> shown_severities; unacknowledged_total := 0 |} counts.

Definition summary (user : uuid) : H AlertSummary :=
  _ ← require user VIEW;
  counts ← lift (unacknowledged_alert_counts (types_for DEFAULT_MIN_SEVERITY None));
  mret (summarise counts).

Definition classification : list (string * (AuditClass.Category.t * AuditClass.Severity.t)) :=
  (fun t => (AuditClass.as_str t, (AuditClass.category t, AuditClass.severity t))) <$> AuditClass.all.

Definition note_of (payload : option (option string)) : option string :=
  n ← default None payload;
  let n := trim n in
  if n ≟ EmptyString then None else Some n.

Definition opt_str (s : option string) : json := match s with Some s => JStr s | None => JNull end.

Definition acknowledged_data (id : uuid) (kind : AuditEventType) (note : option string) : json := JObj
  [("alert_id", JStr (uuid_show id)); ("alert_event_type", JStr (AuditClass.as_str kind));
   ("severity", JStr (AuditClass.Severity.as_str (AuditClass.severity kind)));
   ("note", opt_str note)]%string.

Definition alert_kind_of (log : AuditLog) : option AuditEventType :=
  kind ← AuditClass.parse (log_event_type log);
  if AuditClass.severe DEFAULT_MIN_SEVERITY kind then Some kind else None.

Definition acknowledge (now : instant) (user id : uuid) (payload : option (option string))
    : H (AlertResponse * string) :=
  _ ← require user ACKNOWLEDGE;
  let note := note_of payload in
  unless (is_some_and note (fun n => 1000 <? Z.of_nat (length (chars n))))
      (BadRequest "note must be 1000 characters or fewer") (
    log ← lift (get_audit_log id);
    match log with
    | None => throw (NotFoundError "No such alert")
    | Some log =>
        match alert_kind_of log with
        | None => throw (NotFoundError "No such alert")
        | Some kind =>
            fresh ← lift (acknowledge_alert now id user note);
            _ ← (if fresh : bool
                 then lift (log_event now AlertAcknowledged (log_user_id log) (Some user)
                        (acknowledged_data id kind note))
                 else mret tt);
            ack ← lift (get_alert_acknowledgement id);
            mret ({| alert_log := log; alert_kind := kind; acknowledgement := ack |},
                  if fresh : bool then "Alert acknowledged"%string else "Already acknowledged"%string)
        end
    end).

(** ** The heartbeat *)

Section Heartbeat.
Context (interval_secs : Z).

Record HeartbeatOutcome := {
  o_alerts_raised : Z;
  o_unacknowledged : Z;
  o_deliveries_failed : Z;
  o_error : option string;
}.

(** Whether a run is late enough for the next. *)
Definition due_after (now : instant) (last : option NewAlertHeartbeatRun) : bool :=
  match last with
  | None => true
  | Some run => seconds interval_secs <=? now - started_at run
  end.

Definition due (now : instant) : M bool :=
  if interval_secs =? 0 then mret false
  else last ← latest_alert_heartbeat_run; mret (due_after now last).

Definition counted (t : AuditEventType) : bool :=
  AuditClass.severe AuditClass.Severity.Notice t &&
  negb (category_eqb (AuditClass.category t) AuditClass.Category.Alerts).

Definition counted_types : list string := AuditClass.as_str <$> List.filter counted AuditClass.all.

Definition heartbeat_data (since : option instant) (raised unacked failed : Z)
    (error : option string) : json := JObj
  [("since", opt_str (to_rfc3339 <$> since)); ("alerts_raised", JInt raised);
   ("unacknowledged", JInt unacked); ("deliveries_failed", JInt failed);
   ("ok", JBool (negb (is_some error))); ("detail", opt_str error);
   ("interval_secs", JInt interval_secs)]%string.

(** The event first: a run that could not count still beats. *)
Definition finish (now : instant) (raised unacked failed : Z) (error : option string)
    : M HeartbeatOutcome :=
  last ← attempt latest_alert_heartbeat_run;
  let since := match last with inl run => started_at <$> run | inr _ => None end in
  _ ← log_event now AlertHeartbeat None None (heartbeat_data since raised unacked failed error);
  _ ← attempt (record_alert_heartbeat_run {|
        started_at := now; finished_at := now; alerts_raised := as_i32 raised;
        unacknowledged := as_i32 unacked; deliveries_failed := as_i32 failed;
        run_ok := negb (is_some error); run_error := error |});
  mret {| o_alerts_raised := raised; o_unacknowledged := unacked; o_deliveries_failed := failed;
          o_error := error |}.

Definition failing (what : string) (e : DatabaseError) : option string :=
  Some (what +:+ ": " +:+ error_text e).

Definition run (now : instant) : M HeartbeatOutcome :=
  last ← attempt latest_alert_heartbeat_run;
  match last with
  | inr e => finish now 0 0 0 (failing "load last run" e)
  | inl last =>
      let since := started_at <$> last in
      raised ← attempt (count_audit_rows_since counted_types since);
      match raised with
      | inr e => finish now 0 0 0 (failing "count alerts" e)
      | inl raised =>
          counts ← attempt (unacknowledged_alert_counts counted_types);
          match counts with
          | inr e => finish now raised 0 0 (failing "count unacknowledged" e)
          | inl counts =>
              let unacked := foldl Z.add 0 counts.*2 in
              failed ← attempt (count_failed_webhook_deliveries_since since);
              match failed with
              | inr e => finish now raised unacked 0 (failing "count failed deliveries" e)
              | inl failed => finish now raised unacked failed None
              end
          end
      end
  end.

(** One tick of [ticker]: beat if due. *)
Definition ticker_tick (now : instant) : M unit :=
  yes ← attempt (due now);
  match yes with
  | inl true => _ ← run now; mret tt
  | _ => mret tt
  end.

End Heartbeat.
(** ** Acknowledging *)

Lemma reads_require user key :
  reads (require user key) (fun db _ =>
    has_permission (rbac (money_of (guard db))) (roles_for_user (money_of (guard db)) user) key = true).
Proof.
  eapply reads_bind.
  - apply reads_map_err.
    exact (reads_within _ _ (reads_within _ _ (reads_within _ _ (reads_within _ _ (reads_select _))))).
  - intros [|]; [|apply reads_throw]. apply reads_ret. intros db Hx. by symmetry.
Qed.

Lemma acks_log_event A now event user actor data :
  keeps (fun db => acknowledgements db = A) (log_event now event user actor data).
Proof.
  unfold log_event, create_audit_log. apply keeps_bind; [|intros; apply keeps_ret]. apply keeps_attempt.
  apply keeps_bind; [by apply keeps_call|]. intros r. apply keeps_bind; [|intros; apply keeps_ret].
  by apply triple_effect.
Qed.

(** What one acknowledgement may do to the table. *)
Definition acked_by (now : instant) (user id : uuid) (payload : option (option string))
    (db : TrailDb) (A : gmap uuid AlertAcknowledgement) : Prop :=
  acknowledgements db !! id = None /\
  has_permission (rbac (money_of (guard db))) (roles_for_user (money_of (guard db)) user) ACKNOWLEDGE = true /\
  (exists log kind, log ∈ audit_logs db /\ log_id log = id /\ alert_kind_of log = Some kind) /\
  A = <[id := {| audit_log_id := id; ack_user_id := Some user; ack_note := note_of payload;
                 acknowledged_at := now |}]> (acknowledgements db).

Definition acks_after (now : instant) (user id : uuid) (payload : option (option string))
    (db0 db : TrailDb) : Prop :=
  acknowledgements db = acknowledgements db0 \/ acked_by now user id payload db0 (acknowledgements db).

(** What of an insert, whatever it met. *)
Lemma acknowledge_alert_writes now user id payload log kind db0 :
  has_permission (rbac (money_of (guard db0))) (roles_for_user (money_of (guard db0)) user) ACKNOWLEDGE = true ->
  log ∈ audit_logs db0 -> log_id log = id -> alert_kind_of log = Some kind ->
  triple (acks_after now user id payload db0) (fun db => db = db0)
    (acknowledge_alert now id user (note_of payload))
    (fun _ db => acks_after now user id payload db0 db /\ is_Some (acknowledgements db !! id)).
Proof.
  intros Hp Hin Hid Hk. apply triple_call. intros db HI ->. cbn [fst snd].
  destruct (negb _) eqn:E.
  { exfalso. apply negb_true_iff, not_true_iff_false in E. apply E, existsb_exists. exists log.
    split; [by apply list_elem_of_In|]. by apply bool_decide_eq_true. }
  destruct (acknowledgements db0 !! id) as [a|] eqn:Ea; [cbn [fst snd]; split; [by left|split; [by left|by exists a]]|].
  assert (acks_after now user id payload db0 (with_acknowledgements
    <[id := {| audit_log_id := id; ack_user_id := Some user; ack_note := note_of payload;
               acknowledged_at := now |}]> db0)) by (right; split_and!; [done|done|by exists log, kind|done]).
  cbn [fst snd]. split; [done|]. split; [done|]. simpl. rewrite lookup_insert_eq. by eexists.
Qed.

(** A run that leaves the table alone. *)
Lemma triple_acks {A} now user id payload db0 (P : TrailDb -> Prop) (m : H A) :
  (forall A0, keeps (fun db => acknowledgements db = A0) m) ->
  (forall db, P db -> is_Some (acknowledgements db !! id)) ->
  triple (acks_after now user id payload db0) P m (fun _ db => is_Some (acknowledgements db !! id)).
Proof.
  intros Hm HP db fs HI Hp. specialize (Hm (acknowledgements db) db fs eq_refl Logic.I).
  apply HP in Hp. destruct (m (db, fs)) as [[db' fs'] r]. destruct Hm as [Hm _].
  unfold acks_after in *. rewrite Hm. split; [done|]. by destruct r.
Qed.

(** An alert is acknowledged at most once, by somebody who may, and nothing else is:
    whatever a request meets, the acknowledgements are as they were, or this one row is
    new, about a row of the log that is an alert, by this user with this note; and an
    answer says the acknowledgement that stands. *)
Theorem acknowledged_once now user id payload db0 :
  triple (acks_after now user id payload db0) (fun db => db = db0)
    (acknowledge now user id payload)
    (fun r db => acknowledgement r.1 = acknowledgements db !! id /\
                 is_Some (acknowledgement r.1)).
Proof.
  eapply triple_bind; [apply (triple_reads _ _ _ _ (reads_require user ACKNOWLEDGE))|]. intros [].
  apply triple_unless. intros _. eapply triple_bind.
  { apply (triple_reads _ _ _ _ (reads_map_err _ _ _ (reads_select _))). }
  intros [log|]; [|apply triple_throw]. destruct (alert_kind_of log) as [kind|] eqn:Ek; [|apply triple_throw].
  apply (triple_bind _ _ _ _ (fun _ db => acks_after now user id payload db0 db /\
                                          is_Some (acknowledgements db !! id))).
  - intros db fs HI [[-> Hperm] Hf]. symmetry in Hf. apply find_first_Some in Hf as [Hin Hid].
    apply bool_decide_eq_true in Hid.
    pose proof (acknowledge_alert_writes now user id payload log kind db0 Hperm Hin Hid Ek db0 fs HI eq_refl) as Hw.
    unfold lift, map_err. by destruct (acknowledge_alert _ _ _ _ _) as [[db' fs'] [x|e]].
  - intros fresh. apply (triple_bind _ _ _ _ (fun _ db => is_Some (acknowledgements db !! id))).
    + apply triple_acks; [|by intros db [_ ?]]. intros A. destruct fresh; [|apply keeps_ret].
      apply keeps_map_err, acks_log_event.
    + intros _. eapply triple_bind; [apply (triple_reads _ _ _ _ (reads_map_err _ _ _ (reads_select _)))|].
      intros ack. apply triple_ret. intros db _ [Hs ->]. simpl. done.
Qed.

(** ** The feed, page by page *)

(** Everything that matches, newest first. *)
Definition feed (f : AlertFilter) (db : TrailDb) : list AuditLog :=
  sort_by (fun a b => log_created_at b <=? log_created_at a) (List.filter (feed_matches f db) (audit_logs db)).

Definition filter_of (q : AlertQuery) (mc : AuditClass.Severity.t * option AuditClass.Category.t)
    : AlertFilter := {| filter_types := types_for mc.1 mc.2; filter_acknowledged := acknowledged q |}.

Definition rows_of (f : AlertFilter) (db : TrailDb) : list AlertResponse :=
  omap from_row ((fun r => (r, acknowledgements db !! log_id r)) <$> feed f db).

(** The query for one page. *)
Definition page_of (q : AlertQuery) (p n : Z) : AlertQuery := {|
  page := Some p; per_page := Some n; category := category q; q_min_severity := q_min_severity q;
  acknowledged := acknowledged q |}.

Lemma elem_of_types_for min cat s :
  s ∈ types_for min cat -> exists e, s = AuditClass.as_str e /\ AuditClass.severe min e = true.
Proof.
  unfold types_for. intros (e & -> & He)%list_elem_of_fmap. apply elem_of_lfilter in He as [He _].
  apply elem_of_lfilter in He as [_ He]. by exists e.
Qed.

(** Kept folded: unfolded, it is a filter of a hundred and fifty names. *)
#[local] Opaque types_for.

Lemma from_row_readable row e :
  log_event_type row.1 = AuditClass.as_str e ->
  from_row row = Some {| alert_log := row.1; alert_kind := e; acknowledgement := row.2 |}.
Proof. intros H. unfold from_row. by rewrite (proj2 (AuditClass.parse_iff _ _) H). Qed.

Definition readable (f : AlertFilter) : Prop :=
  forall s, s ∈ filter_types f -> exists e, s = AuditClass.as_str e.

Lemma readable_filter q mc : readable (filter_of q mc).
Proof. intros s Hs. apply elem_of_types_for in Hs as (e & He & _). by exists e. Qed.

(** Nothing that is asked for is unreadable. *)
Lemma rows_of_length f db : readable f -> length (rows_of f db) = length (feed f db).
Proof.
  intros Hf. unfold rows_of, feed.
  assert (Hall : forall r, r ∈ sort_by (fun a b => log_created_at b <=? log_created_at a)
      (List.filter (feed_matches f db) (audit_logs db)) ->
      exists e, log_event_type r = AuditClass.as_str e).
  { intros r Hr. rewrite sort_by_perm in Hr. apply elem_of_lfilter in Hr as [_ Hr].
    apply andb_true_iff in Hr as [Hr _]. apply bool_decide_eq_true in Hr. by apply Hf. }
  induction (sort_by _ _) as [|r l IH]; [done|]. cbn [fmap list_fmap omap list_omap].
  destruct (Hall r) as [e He]; [by left|].
  rewrite (from_row_readable (r, _) e He). cbn [length]. f_equal. apply IH.
  intros r' Hr'. apply Hall. by right.
Qed.

Lemma run_require user key db :
  has_permission (rbac (money_of (guard db))) (roles_for_user (money_of (guard db)) user) key = true ->
  require user key (db, []) = ((db, []), inl tt).
Proof.
  intros Hp. unfold require, mbind, M_bind, lift, map_err.
  assert (Hr : guard_call (money_call (user_has_permission user key)) (db, []) = ((db, []), inl true)).
  { unfold guard_call, money_call, training_call, base_call. repeat apply within_at.
    unfold user_has_permission, select, call. by rewrite <-Hp. }
  by rewrite Hr.
Qed.

(** One valid page, where nothing fails. *)
Lemma run_list_alerts user q mc p n db :
  has_permission (rbac (money_of (guard db))) (roles_for_user (money_of (guard db)) user) VIEW = true ->
  parse_filter q = inr mc -> 1 <= p -> 1 <= n <= 200 ->
  list_alerts user (page_of q p n) (db, []) =
  ((db, []), inl (paginated
     (omap from_row ((fun r => (r, acknowledgements db !! log_id r)) <$>
        take (Z.to_nat n) (drop (Z.to_nat (((p - 1) * n) mod 2 ^ 32)) (feed (filter_of q mc) db))))
     p n (Z.of_nat (length (List.filter (feed_matches (filter_of q mc) db) (audit_logs db))) mod 2 ^ 32))).
Proof.
  intros Hp Hq H1 H2. unfold list_alerts, mbind, M_bind. rewrite run_require by done.
  cbn [page_of page per_page acknowledged default].
  change (parse_filter (page_of q p n)) with (parse_filter q). rewrite Hq.
  assert ((p =? 0) || (n =? 0) || (200 <? n) = false) as Hb
    by (rewrite !orb_false_iff, !Z.eqb_neq, Z.ltb_ge; lia).
  unfold unless. unfold id. rewrite Hb. reflexivity.
Qed.

Lemma slices {A} (n k : nat) (l : list A) :
  (length l <= k * n)%nat ->
  mjoin ((fun i => take n (drop (i * n) l)) <$> seq 0 k) = l.
Proof.
  revert l. induction k as [|k IH]; intros l Hl; [destruct l; [done|simpl in Hl; lia]|].
  cbn [seq fmap list_fmap mjoin list_join]. rewrite drop_0.
  rewrite <-fmap_S_seq, <-list_fmap_compose.
  transitivity (take n l ++ mjoin ((fun i => take n (drop (i * n) (drop n l))) <$> seq 0 k)).
  - f_equal. f_equal. apply list_fmap_ext. intros i j Hi. simpl. by rewrite drop_drop.
  - rewrite IH; [by rewrite take_drop|]. rewrite length_drop. lia.
Qed.

Lemma join_page_items {A B} (g : A -> option B) (ls : list (list A)) :
  mjoin (omap g <$> ls) = omap g (mjoin ls).
Proof. induction ls as [|l ls IH]; [done|]. cbn [fmap list_fmap mjoin list_join]. rewrite omap_app. by f_equal. Qed.

Lemma join_fmap {X A B} (g : A -> B) (h : X -> list A) (l : list X) :
  mjoin ((fun i => g <$> h i) <$> l) = g <$> mjoin (h <$> l).
Proof. induction l as [|i l IH]; [done|]. cbn [fmap list_fmap mjoin list_join]. rewrite fmap_app. by f_equal. Qed.

(** The pages are the feed: where nothing fails and the feed is not too long for its
    32-bit count, the pages up to [total_pages] in order are every alert that matches,
    newest first, each exactly once with its acknowledgement. *)
Theorem pages_are_the_feed user q mc n db :
  has_permission (rbac (money_of (guard db))) (roles_for_user (money_of (guard db)) user) VIEW = true ->
  parse_filter q = inr mc -> 1 <= n <= 200 ->
  Z.of_nat (length (feed (filter_of q mc) db)) + 200 < 2 ^ 32 ->
  exists pages : list (PaginatedResponse AlertResponse),
    (forall i r, pages !! i = Some r ->
       Faults.run (list_alerts user (page_of q (Z.of_nat i + 1) n)) db = (db, inl r) /\
       total_pages r = Z.of_nat (length pages) /\
       total r = Z.of_nat (length (feed (filter_of q mc) db))) /\
    mjoin (items <$> pages) = rows_of (filter_of q mc) db /\
    length (mjoin (items <$> pages)) = length (feed (filter_of q mc) db).
Proof.
  intros Hp Hq Hn Hlen. set (f := filter_of q mc) in *. set (L := length (feed f db)) in *.
  set (k := Z.to_nat ((Z.of_nat L + n - 1) / n)).
  assert (Hk : Z.of_nat k = (Z.of_nat L + n - 1) / n) by (unfold k; apply Z2Nat.id, Z.div_pos; lia).
  assert (Hkn : (Z.of_nat k - 1) * n <= Z.of_nat L /\ Z.of_nat L <= Z.of_nat k * n).
  { pose proof (Z.div_mod (Z.of_nat L + n - 1) n). pose proof (Z.mod_pos_bound (Z.of_nat L + n - 1) n). nia. }
  assert (Hcount : length (List.filter (feed_matches f db) (audit_logs db)) = L).
  { unfold L, feed. by rewrite sort_by_perm. }
  set (slice := fun i : nat => (fun r => (r, acknowledgements db !! log_id r)) <$>
    take (Z.to_nat n) (drop (i * Z.to_nat n) (feed f db))).
  exists ((fun i : nat => paginated (omap from_row (slice i)) (Z.of_nat i + 1) n (Z.of_nat L)) <$> seq 0 k).
  rewrite <-list_fmap_compose.
  assert (Hj : mjoin ((items ∘ (fun i : nat => paginated (omap from_row (slice i)) (Z.of_nat i + 1) n
      (Z.of_nat L))) <$> seq 0 k) = rows_of f db).
  { transitivity (mjoin (omap from_row <$> (slice <$> seq 0 k))); [by rewrite <-list_fmap_compose|].
    rewrite join_page_items. unfold rows_of. f_equal. unfold slice.
    rewrite join_fmap. f_equal. apply slices. fold L. nia. }
  split_and!; [|exact Hj|rewrite Hj; apply rows_of_length, readable_filter].
  intros i r Hr. apply list_lookup_fmap_Some in Hr as (j & -> & Hj'). apply lookup_seq in Hj' as [-> Hi].
  rewrite length_fmap, length_seq. cbn [total total_pages paginated].
  rewrite Nat.add_0_l, (Z.mod_small (Z.of_nat L + n - 1)) by lia. split_and!; [|done|done].
  unfold Faults.run. rewrite (run_list_alerts user q mc) by (done || lia). fold f. rewrite Hcount.
  rewrite (Z.mod_small (Z.of_nat L)) by lia.
  replace (((Z.of_nat i + 1 - 1) * n) mod 2 ^ 32) with (Z.of_nat i * n).
  2: { symmetry. rewrite Z.mod_small; nia. }
  by replace (Z.to_nat (Z.of_nat i * n)) with (i * Z.to_nat n)%nat by nia.
Qed.

(** ** The beat *)

Section Beat.
Context (interval_secs : Z) (Hinterval : 0 <= interval_secs).

(** The runs, newest first, an interval or more apart. *)
Fixpoint well_spaced (runs : list NewAlertHeartbeatRun) : Prop :=
  match runs with
  | [] => True
  | r :: runs =>
      (forall r', r' ∈ runs -> started_at r' + seconds interval_secs <= started_at r) /\
      well_spaced runs
  end.

Lemma latest_run_head runs :
  well_spaced runs -> latest_run runs = head runs.
Proof.
  intros H. unfold latest_run.
  enough (sort_by (fun a b => started_at b <=? started_at a) runs = runs) as ->; [done|].
  induction runs as [|r runs IH]; [done|]. destruct H as [Hr H].
  change (sort_by _ (r :: runs)) with
    (insert_by (fun a b => started_at b <=? started_at a) r (sort_by (fun a b => started_at b <=? started_at a) runs)).
  rewrite IH by done. destruct runs as [|r' runs]; [done|]. cbn [insert_by].
  rewrite (proj2 (Z.leb_le (started_at r') (started_at r))); [done|].
  specialize (Hr r' (list_elem_of_here _ _)). unfold seconds in Hr. lia.
Qed.

Definition runs_ok (now : instant) (runs : list NewAlertHeartbeatRun) : Prop :=
  well_spaced runs /\ Forall (fun r => started_at r <= now) runs.

Definition on_runs (J : list NewAlertHeartbeatRun -> Prop) (db : TrailDb) : Prop :=
  J (heartbeat_runs db).

Lemma runs_log_event J now event user actor data : keeps (on_runs J) (log_event now event user actor data).
Proof.
  unfold log_event, create_audit_log. apply keeps_bind; [|intros; apply keeps_ret]. apply keeps_attempt.
  apply keeps_bind; [by apply keeps_call|]. intros r. apply keeps_bind; [|intros; apply keeps_ret].
  by apply triple_effect.
Qed.

(** A run that is due adds itself, whatever it could not count. *)
Lemma finish_runs now raised unacked failed error :
  triple (on_runs (runs_ok now)) (fun db => due_after interval_secs now (head (heartbeat_runs db)) = true)
    (finish interval_secs now raised unacked failed error) (fun _ _ => True).
Proof.
  set (P := fun db : TrailDb => due_after interval_secs now (head (heartbeat_runs db)) = true).
  eapply triple_bind; [apply (triple_reads _ P), reads_attempt, reads_select|]. intros last.
  apply (triple_bind _ _ _ _ (fun _ => P)).
  { eapply triple_weaken; [apply (triple_kept _ P)| |done]; [..|by intros db _ [? _]].
    - apply (runs_log_event (fun runs => due_after interval_secs now (head runs) = true)).
    - apply runs_log_event. }
  intros _. apply (triple_bind _ _ _ _ (fun _ _ => True)); [|intros; by apply triple_ret].
  eapply triple_weaken; [apply triple_attempt, (triple_call _ P _ (fun _ _ => True))|done|done].
  intros db HI Hd. split; [|done]. cbn [fst]. split; [|by constructor; [|apply HI]].
  split; [|apply HI]. cbn [started_at]. destruct HI as [HI _]. unfold P in Hd. intros r' Hr'.
  destruct (heartbeat_runs db) as [|r runs]; [by apply not_elem_of_nil in Hr'|].
  cbn [head due_after] in Hd. apply Z.leb_le in Hd.
  apply elem_of_cons in Hr' as [-> | Hr']; [lia|]. apply HI in Hr'. unfold seconds in *. lia.
Qed.

(** What the counts read changes nothing. *)
Lemma run_runs now :
  triple (on_runs (runs_ok now)) (fun db => due_after interval_secs now (head (heartbeat_runs db)) = true)
    (run interval_secs now) (fun _ _ => True).
Proof.
  unfold run. set (P := fun db : TrailDb => due_after interval_secs now (head (heartbeat_runs db)) = true).
  assert (Hf : forall Q raised unacked failed error, triple (on_runs (runs_ok now)) (fun db => P db /\ Q db)
    (finish interval_secs now raised unacked failed error) (fun _ _ => True)).
  { intros. eapply triple_weaken; [apply finish_runs| |done]. by intros db _ [? _]. }
  eapply triple_bind; [apply (triple_reads _ P), reads_attempt, reads_select|].
  intros [last|e]; [|apply Hf].
  eapply triple_bind; [eapply triple_weaken; [apply (triple_reads _ P), reads_attempt, reads_select| |]|].
  { by intros db _ [? _]. } { intros x db _ H. exact H. }
  intros [raised|e]; [|apply Hf].
  eapply triple_bind; [eapply triple_weaken; [apply (triple_reads _ P), reads_attempt, reads_select| |]|].
  { by intros db _ [? _]. } { intros x db _ H. exact H. }
  intros [counts|e]; [|apply Hf].
  eapply triple_bind; [eapply triple_weaken; [apply (triple_reads _ P), reads_attempt, reads_select| |]|].
  { by intros db _ [? _]. } { intros x db _ H. exact H. }
  intros [failed|e]; apply Hf.
Qed.

Lemma reads_due now :
  reads (due interval_secs now) (fun db yes => well_spaced (heartbeat_runs db) -> yes = true ->
    due_after interval_secs now (head (heartbeat_runs db)) = true).
Proof.
  unfold due. destruct (interval_secs =? 0); [by apply reads_ret|].
  eapply reads_bind; [apply reads_select|]. intros last. apply reads_ret. intros db -> Hw Hd.
  by rewrite latest_run_head in Hd.
Qed.

Lemma ticker_tick_runs now : keeps (on_runs (runs_ok now)) (ticker_tick interval_secs now).
Proof.
  eapply triple_bind; [apply (triple_reads _ (fun _ => True)), reads_attempt, reads_due|].
  intros [[|]|e]; try by apply triple_ret.
  apply (triple_bind _ _ _ _ (fun _ _ => True)); [|intros; by apply triple_ret].
  eapply triple_weaken; [apply run_runs| |done]. intros db [HI _] [_ Hd]. by apply Hd.
Qed.

(** Ticks, whatever they meet, among anything that records no run. *)
Inductive beating : instant -> TrailDb -> Prop :=
  | beat_start now db : heartbeat_runs db = [] -> beating now db
  | beat_tick now now' db fs : beating now db -> now <= now' ->
      beating now' (ticker_tick interval_secs now' (db, fs)).1.1
  | beat_other now db db' : beating now db -> heartbeat_runs db' = heartbeat_runs db -> beating now db'.

Lemma beating_ok now db : beating now db -> runs_ok now (heartbeat_runs db).
Proof.
  induction 1 as [now db H|now now' db fs _ [IH1 IH2] Hn|now db db' _ IH H].
  - rewrite H. by split.
  - assert (HI : on_runs (runs_ok now') db) by (split; [done|eapply Forall_impl; [done|simpl; lia]]).
    pose proof (ticker_tick_runs now' db fs HI Logic.I) as Ht.
    destruct (ticker_tick interval_secs now' (db, fs)) as [[db' fs'] r]. apply Ht.
  - by rewrite H.
Qed.

Definition is_heartbeat (now : instant) (r : AuditLog) : Prop :=
  log_event_type r = AuditClass.as_str AlertHeartbeat /\ log_created_at r = now.

Lemma finish_beats now raised unacked failed error db :
  exists db' x, finish interval_secs now raised unacked failed error (db, []) = ((db', []), inl x) /\
    (exists r, head (heartbeat_runs db') = Some r /\ started_at r = now) /\
    exists row, head (audit_logs db') = Some row /\ is_heartbeat now row.
Proof.
  exists (finish interval_secs now raised unacked failed error (db, [])).1.1,
    {| o_alerts_raised := raised; o_unacknowledged := unacked; o_deliveries_failed := failed;
       o_error := error |}.
  split; [reflexivity|]. split; (eexists; split; [reflexivity|done]).
Qed.

(** The heart beats on time and no oftener: whatever the ticks meet, recorded beats are
    at least the interval apart; and a tick that nothing disturbs leaves a latest beat
    less than the interval old, logging the event in that very tick if it had to beat. *)
Theorem heartbeats_are_spaced now db :
  beating now db ->
  well_spaced (heartbeat_runs db) /\
  forall now' : instant, 0 < interval_secs ->
    exists db', Faults.run (ticker_tick interval_secs now') db = (db', inl tt) /\
      exists r, head (heartbeat_runs db') = Some r /\
        (now' - started_at r < seconds interval_secs /\ db' = db \/
         started_at r = now' /\ exists row, head (audit_logs db') = Some row /\ is_heartbeat now' row).
Proof.
  intros H. apply beating_ok in H as [Hw _]. split; [done|]. intros now' Hi.
  assert (Hd : due interval_secs now' (db, []) =
    ((db, []), inl (due_after interval_secs now' (head (heartbeat_runs db))))).
  { unfold due. rewrite (proj2 (Z.eqb_neq _ _)) by lia.
    change (((db, []), inl (due_after interval_secs now' (latest_run (heartbeat_runs db)))) =
      ((db, []), inl (due_after interval_secs now' (head (heartbeat_runs db)))) :> (TrailDb * list fault) * (bool + DatabaseError)).
    by rewrite latest_run_head. }
  unfold Faults.run, ticker_tick, attempt, mbind, M_bind. rewrite Hd.
  destruct (due_after interval_secs now' (head (heartbeat_runs db))) eqn:E.
  - set (since := started_at <$> latest_run (heartbeat_runs db)).
    destruct (finish_beats now'
      (Z.of_nat (length (List.filter (fun r => of_types counted_types r && later_than since (log_created_at r)) (audit_logs db))))
      (foldl Z.add 0 (map_to_list (count_by_type (unacked counted_types db))).*2)
      (Z.of_nat (length (List.filter (fun d => negb (success d.1) && later_than since d.2) (deliveries (hooks db)))))
      None db) as (db' & x & Hf & (r & Hr & Ht) & Hrow).
    change (run interval_secs now' (db, [])) with (finish interval_secs now'
      (Z.of_nat (length (List.filter (fun r => of_types counted_types r && later_than since (log_created_at r)) (audit_logs db))))
      (foldl Z.add 0 (map_to_list (count_by_type (unacked counted_types db))).*2)
      (Z.of_nat (length (List.filter (fun d => negb (success d.1) && later_than since d.2) (deliveries (hooks db)))))
      None (db, [])).
    rewrite Hf. exists db'. split; [done|]. exists r. split; [done|]. by right.
  - exists db. split; [done|]. destruct (head (heartbeat_runs db)) as [r|]; [|done].
    exists r. split; [done|]. left. split; [|done]. cbn [due_after] in E. by apply Z.leb_gt in E.
Qed.

End Beat.

End Alerts.
End Alerts.
