(* ===== verification/Webhooks.v ===== *)
(** * Outbound webhooks ([server/src/webhooks.rs])

    An audit row goes to the hooks subscribed to its type or to its class, each once:
    a signed request with bounded retries, every attempt on record.  The network is an
    argument: what a name resolves to, and what each attempt is answered. *)
From Stdlib Require Import Ascii.
From S2P Require Import Prelude Text Faults AuditLog Database GuardStore Hooks Trail.
Import Text Faults Audit Database Hooks Trail.

Module Webhooks.

#[local] Open Scope Z_scope.

Definition MAX_ATTEMPTS : Z := 3.
Definition MAX_RESPONSE_READ : nat := 65536.

(** ** Addresses *)

(** Four bytes, or eight 16-bit segments. *)
Inductive IpAddr : Type :=
  | V4 (a b c d : Z)
  | V6 (segments : list Z).

#[global] Instance IpAddr_eq_dec : EqDecision IpAddr.
Proof. solve_decision. Defined.

Definition AWS_IMDS_V6 : list Z := [0xfd00; 0x0ec2; 0; 0; 0; 0; 0; 0x254].

Definition v4_link_local (a b : Z) : bool := (a =? 169) && (b =? 254).

(** [Ipv6Addr::to_ipv4_mapped], as its first two bytes. *)
Definition to_ipv4_mapped (segments : list Z) : option (Z * Z) :=
  match segments with
  | [0; 0; 0; 0; 0; 0xffff; ab; _] => Some (Z.shiftr ab 8, Z.land ab 0xff)
  | _ => None
  end.

Definition ip_is_forbidden (ip : IpAddr) : bool :=
  match ip with
  | V4 a b _ _ => v4_link_local a b
  | V6 segments =>
      match to_ipv4_mapped segments with
      | Some (a, b) => v4_link_local a b
      | None => (Z.land (default 0 (head segments)) 0xffc0 =? 0xfe80) || (segments ≟ AWS_IMDS_V6)
      end
  end.

(** ** Bodies *)

(** The first byte of [s] at [i], if it is one, does not continue a character. *)
Definition is_char_boundary (s : list ascii) (i : nat) : bool :=
  match s !! i with None => true | Some c => negb (tail_byte c) end.

Fixpoint back_off (s : list ascii) (fin : nat) : nat :=
  match fin with
  | O => O
  | S prev => if is_char_boundary s fin then fin else back_off s prev
  end.

Definition truncate (s : string) (max : nat) : string :=
  if (length (bytes s) <=? max)%nat then s
  else of_bytes (take (back_off (bytes s) max) (bytes s)) +:+ "…[truncated]".

Definition recordable_body (debug success : bool) (text : string) : option string :=
  if success && negb debug then None else Some (truncate text 4096).

(** A response's chunks, [None] where reading failed. *)
Fixpoint read_chunks (buf : list ascii) (chunks : list (option (list ascii))) : list ascii :=
  if (length buf <? MAX_RESPONSE_READ)%nat then
    match chunks with
    | Some chunk :: chunks =>
        let room := (MAX_RESPONSE_READ - length buf)%nat in
        if (length chunk <=? room)%nat then read_chunks (buf ++ chunk) chunks
        else buf ++ take room chunk
    | _ => buf
    end
  else buf.

(** ** Libraries *)

Inductive HttpResult : Type :=
  | Reply (status : Z) (chunks : list (option (list ascii)))
  | NoReply (error : string).

Section Dispatcher.
Context {U : Uuid} {IS : IdSource} {JT : GuardStore.JsonbText}.

Record Request := {
  req_url : string;
  pinned : string * list (IpAddr * Z);
  req_headers : list (string * string);
  req_body : list ascii;
}.

(** [serde_json], HMAC-SHA256, [HeaderName] and [HeaderValue], [url::Url] as its host
    and port, lossy UTF-8, [Display] of an address, RFC 3339. *)
Class Libraries := {
  to_vec : json -> option (list ascii);
  json_to_string : json -> string;
  hmac : string -> list ascii -> list ascii;
  header_name_of : string -> option string;
  header_value_ok : string -> bool;
  parse_url : string -> (option string * option Z) + string;
  from_utf8_lossy : list ascii -> string;
  ip_to_string : IpAddr -> string;
  to_rfc3339 : instant -> string;
}.

Context {L : Libraries}.

(** [site.debug], what names resolve to now, and the answer to an attempt. *)
Context (site_debug : bool) (lookup_host : string -> Z -> list (IpAddr * Z) + string)
  (post : Z -> Request -> HttpResult).

Abbreviation M := (Faults.M TrailDb DatabaseError).

Definition sign (secret : string) (body : list ascii) : string :=
  GuardStore.hex_encode (of_bytes (hmac secret body)).

Definition read_body_capped (chunks : list (option (list ascii))) : string :=
  from_utf8_lossy (read_chunks [] chunks).

(** The screened addresses, or why not to send. *)
Definition resolve_and_screen (u : string) : (string * list (IpAddr * Z)) + string :=
  match parse_url u with
  | inr e => inr ("invalid URL: " +:+ e)
  | inl (None, _) => inr "URL has no host"
  | inl (Some _, None) => inr "URL has no known port"
  | inl (Some host, Some port) =>
      match lookup_host host port with
      | inr e => inr ("could not resolve " +:+ host +:+ ": " +:+ e)
      | inl [] => inr (host +:+ " resolved to no addresses")
      | inl addrs =>
          match find_first (fun a => ip_is_forbidden a.1) addrs with
          | Some bad => inr (host +:+ " resolves to a blocked address (" +:+ ip_to_string bad.1 +:+
                             "); refusing delivery")
          | None => inl (host, addrs)
          end
      end
  end%string.

(** ** Headers *)

(** [HeaderMap::insert]. *)
Fixpoint insert_header (name value : string) (hs : list (string * string)) : list (string * string) :=
  match hs with
  | [] => [(name, value)]
  | h :: hs => if h.1 ≟ name then (name, value) :: hs else h :: insert_header name value hs
  end.

Definition insert_if_ok (name value : string) (hs : list (string * string)) : list (string * string) :=
  if header_value_ok value then insert_header name value hs else hs.

Definition apply_auth_header (hs : list (string * string)) (h : WebhookAuthHeader) : list (string * string) :=
  match header_name_of (header_name h) with
  | Some name => insert_if_ok name (header_value h) hs
  | None => hs
  end.

Definition base_headers (w : Webhook) (event signature : string) : list (string * string) :=
  insert_if_ok "x-webhook-id" (uuid_show (webhook_id w))
    (insert_if_ok "x-webhook-event" event
       (insert_if_ok "x-webhook-signature" ("sha256=" +:+ signature)
          [("content-type", "application/json")])).

Definition build_headers (w : Webhook) (event signature : string) : M (list (string * string)) :=
  r ← attempt (hook_call (get_webhook_auth_headers_for_dispatch (webhook_id w)));
  mret match r with
       | inl hs => foldl apply_auth_header (base_headers w event signature) hs
       | inr _ => base_headers w event signature
       end.

(** ** Delivery *)

(** [false]: the webhook no longer exists. *)
Definition record (now : instant) (d : NewWebhookDelivery) : M bool :=
  r ← attempt (hook_call (record_webhook_delivery now d));
  mret match r with inr ForeignKeyViolation => false | _ => true end.

Definition is_success (status : Z) : bool := (200 <=? status) && (status <=? 299).

Definition delivery_row (w : Webhook) (payload : json) (event : string) (log : option uuid)
    (attempt : Z) (ok : bool) (status : option Z) (body error : option string) : NewWebhookDelivery := {|
  delivered_to := webhook_id w; delivery_log_id := log; delivery_event_type := event;
  delivery_attempt := attempt; success := ok; status_code := status; response_body := body;
  delivery_error := error; request_payload := Some payload |}.

(** What an attempt came to: its row, and the error if it failed. *)
Definition outcome (w : Webhook) (payload : json) (event : string) (log : option uuid) (n : Z)
    (r : HttpResult) : NewWebhookDelivery * option string :=
  match r with
  | Reply status chunks =>
      let body := recordable_body site_debug (is_success status) (read_body_capped chunks) in
      if is_success status
      then (delivery_row w payload event log n true (Some status) body None, None)
      else let e := "non-success status " +:+ pretty status in
           (delivery_row w payload event log n false (Some status) body (Some e), Some e)
  | NoReply e => (delivery_row w payload event log n false None None (Some e), Some e)
  end.

Fixpoint attempts (now : instant) (w : Webhook) (payload : json) (event : string)
    (log : option uuid) (req : Request) (n : Z) (tries : nat) (last_err : string) : M (unit + string) :=
  match tries with
  | O => mret (inr last_err)
  | S tries =>
      let '(row, error) := outcome w payload event log n (post n req) in
      still_exists ← record now row;
      if negb still_exists then mret (inr "webhook deleted while a delivery was in flight"%string)
      else match error with
      | None => mret (inl tt)
      | Some e => attempts now w payload event log req (n + 1) tries e
      end
  end.

Definition deliver (now : instant) (w : Webhook) (payload : json) (event : string)
    (log : option uuid) : M (unit + string) :=
  match to_vec payload with
  | None => mret (inr "serialize payload")
  | Some body =>
      headers ← build_headers w event (sign (signing_secret w) body);
      match resolve_and_screen (url w) with
      | inr reason =>
          _ ← record now (delivery_row w payload event log 1 false None None (Some reason));
          mret (inr reason)
      | inl pin =>
          attempts now w payload event log
            {| req_url := url w; pinned := pin; req_headers := headers; req_body := body |}
            1 (Z.to_nat MAX_ATTEMPTS) "no attempts made"
      end
  end%string.

(** ** Payloads *)

Definition opt_str (s : option string) : json := match s with Some s => JStr s | None => JNull end.
Definition opt_uuid (u : option uuid) : json := opt_str (uuid_show <$> u).

Definition event_payload (now : instant) (r : AuditLog) : json := JObj
  [("event", JObj
     [("id", JStr (uuid_show (log_id r))); ("event_type", JStr (log_event_type r));
      ("user_id", opt_uuid (log_user_id r)); ("actor_id", opt_uuid (log_actor_id r));
      ("data", event_data r); ("ip_address", opt_str (log_ip_address r));
      ("user_agent", opt_str (log_user_agent r)); ("created_at", JStr (to_rfc3339 (log_created_at r)))]);
   ("delivered_at", JStr (to_rfc3339 now))]%string.

Definition class_names (event : string) : string * string :=
  match AuditClass.parse event with
  | Some t => (AuditClass.Category.as_str (AuditClass.category t),
               AuditClass.Severity.as_str (AuditClass.severity t))
  | None => ("unknown", "info")
  end%string.

Definition color (severity : string) : Z :=
  if severity ≟ "critical" then 0xE53935 else if severity ≟ "warning" then 0xFB8C00
  else if severity ≟ "notice" then 0x1E88E5 else 0x9E9E9E.

(** At most 900 characters of the event's data. *)
Definition detail (data : json) : string :=
  let s := json_to_string data in
  if (900 <? length (chars s))%nat then of_bytes (mjoin (take 900 (chars s))) +:+ "…" else s.

Definition newline : string := String.String (ascii_of_nat 10) EmptyString.

Definition discord_payload (r : AuditLog) : json :=
  let '(category, severity) := class_names (log_event_type r) in JObj
  [("content", JStr ("**" +:+ severity +:+ "** `" +:+ log_event_type r +:+ "` (" +:+ category +:+ ")"));
   ("embeds", JArr [JObj
     [("title", JStr (log_event_type r));
      ("description", JStr ("```json" +:+ newline +:+ detail (event_data r) +:+ newline +:+ "```"));
      ("color", JInt (color severity)); ("timestamp", JStr (to_rfc3339 (log_created_at r)));
      ("footer", JObj [("text", JStr ("severity " +:+ severity +:+ " · category " +:+ category))])]])]%string.

Definition test_payload (now : instant) : json := JObj
  [("event", JObj
     [("id", JStr (uuid_show uuid_nil)); ("event_type", JStr "webhook_test");
      ("data", JObj [("message", JStr "This is a test webhook delivery.")]);
      ("created_at", JStr (to_rfc3339 now))]);
   ("delivered_at", JStr (to_rfc3339 now)); ("test", JBool true)]%string.

Definition test_payload_for (now : instant) (fmt : string) : json :=
  if fmt ≟ DISCORD then JObj
    [("content", JStr "**test** `webhook_test` (webhook)");
     ("embeds", JArr [JObj
       [("title", JStr "webhook_test"); ("description", JStr "This is a test webhook delivery.");
        ("color", JInt 0x9E9E9E); ("timestamp", JStr (to_rfc3339 now))]])]%string
  else test_payload now.

(** ** Dispatch *)

Definition at_or_below (kind : AuditEventType) : list string :=
  AuditClass.Severity.as_str <$> List.filter
    (fun s => AuditClass.Severity.rank s <=? AuditClass.Severity.rank (AuditClass.severity kind))
    AuditClass.Severity.ALL.

(** Those by class, but for the ones already there. *)
Fixpoint merge_hooks (ws by_class : list Webhook) : list Webhook :=
  match by_class with
  | [] => ws
  | w :: by_class =>
      merge_hooks (if existsb (fun v => webhook_id v ≟ webhook_id w) ws then ws else ws ++ [w]) by_class
  end.

(** [None]: nothing is sent, the hooks could not be loaded. *)
Definition receivers (event : string) : M (option (list Webhook)) :=
  ws ← attempt (hook_call (get_enabled_webhooks_for_event event));
  match ws with
  | inr _ => mret None
  | inl ws =>
      match AuditClass.parse event with
      | None => mret (Some ws)
      | Some kind =>
          by_class ← attempt (hook_call (get_enabled_webhooks_for_class
            (AuditClass.Category.as_str (AuditClass.category kind)) (at_or_below kind)));
          mret (Some match by_class with inl by_class => merge_hooks ws by_class | inr _ => ws end)
      end
  end.

Definition body_for (now : instant) (r : AuditLog) (w : Webhook) : json :=
  if format w ≟ DISCORD then discord_payload r else event_payload now r.

Fixpoint deliver_all (now : instant) (r : AuditLog) (ws : list Webhook) : M unit :=
  match ws with
  | [] => mret tt
  | w :: ws =>
      _ ← deliver now w (body_for now r w) (log_event_type r) (Some (log_id r));
      deliver_all now r ws
  end.

Definition handle_event (now : instant) (r : AuditLog) : M unit :=
  ws ← receivers (log_event_type r);
  deliver_all now r (default [] ws).

(** The consumer takes the oldest row it was sent, and at shutdown all that are left. *)
Definition with_webhook_tx (q : option (list AuditLog)) (db : TrailDb) : TrailDb := {|
  guard := guard db; audit_logs := audit_logs db; next_log := next_log db;
  acknowledgements := acknowledgements db; heartbeat_runs := heartbeat_runs db;
  hooks := hooks db; webhook_tx := q; groupsio_tx := groupsio_tx db |}.

Definition receive : M (option AuditLog) :=
  q ← peek webhook_tx;
  match q with
  | Some (r :: rest) => _ ← effect (with_webhook_tx (Some rest)); mret (Some r)
  | _ => mret None
  end.

Fixpoint drain (now : instant) (fuel : nat) : M unit :=
  match fuel with
  | O => mret tt
  | S fuel =>
      r ← receive;
      match r with
      | None => mret tt
      | Some r => _ ← handle_event now r; drain now fuel
      end
  end.

(** ** One delivery, where nothing fails *)

Definition added (rows : list NewWebhookDelivery) (now : instant) (db : TrailDb) : TrailDb :=
  with_hooks (foldr (fun row h => with_delivery (row, now) h) (hooks db) rows) db.

Lemma added_hook rows now db id : is_hook (hooks (added rows now db)) id = is_hook (hooks db) id.
Proof. induction rows as [|row rows IH]; [done|exact IH]. Qed.

Lemma added_cons rows row now db : added [row] now (added rows now db) = added (row :: rows) now db.
Proof. done. Qed.

Lemma added_app rows rows' now db : added rows now (added rows' now db) = added (rows ++ rows') now db.
Proof. induction rows as [|row rows IH]; [done|]. by rewrite <-added_cons, IH. Qed.

Lemma added_nil now db : added [] now db = db.
Proof. by destruct db. Qed.

Lemma deliveries_added rows now db :
  deliveries (hooks (added rows now db)) = ((fun row => (row, now)) <$> rows) ++ deliveries (hooks db).
Proof. induction rows as [|row rows IH]; [done|]. simpl. by f_equal. Qed.

Lemma run_record now row db :
  is_hook (hooks db) (delivered_to row) = true ->
  record now row (db, []) = ((added [row] now db, []), inl true).
Proof.
  intros Hw. unfold record, attempt, hook_call, within, record_webhook_delivery, call, mbind, M_bind.
  cbn [part trail_hooks]. by rewrite Hw.
Qed.

Lemma run_build_headers w event signature db :
  exists hs, build_headers w event signature (db, []) = ((db, []), inl hs).
Proof.
  unfold build_headers, attempt, mbind, M_bind, hook_call.
  erewrite (within_at (P := HookDb)) by reflexivity. by eexists.
Qed.

(** The row an attempt leaves, and whether it was accepted. *)
Definition row_of (w : Webhook) (payload : json) (event : string) (log : option uuid) (req : Request)
    (n : Z) : NewWebhookDelivery := (outcome w payload event log n (post n req)).1.

Definition accepted (req : Request) (n : Z) : bool :=
  match post n req with Reply status _ => is_success status | NoReply _ => false end.

Lemma outcome_accepted w payload event log req n :
  (outcome w payload event log n (post n req)).2 = None <-> accepted req n = true.
Proof. unfold outcome, accepted. destruct (post n req) as [status chunks|e]; [destruct (is_success status)|]; done. Qed.

Lemma row_success w payload event log req n :
  success (row_of w payload event log req n) = accepted req n /\
  delivery_attempt (row_of w payload event log req n) = n /\
  delivered_to (row_of w payload event log req n) = webhook_id w /\
  delivery_log_id (row_of w payload event log req n) = log.
Proof. unfold row_of, outcome, accepted. destruct (post n req) as [status chunks|e]; [destruct (is_success status)|]; done. Qed.

(** The attempts made: up to the first that is accepted, or all. *)
Fixpoint made (req : Request) (n : Z) (tries : nat) : list Z :=
  match tries with
  | O => []
  | S tries => n :: if accepted req n then [] else made req (n + 1) tries
  end.

Lemma run_attempts now w payload event log req n tries last db :
  is_hook (hooks db) (webhook_id w) = true ->
  exists r, attempts now w payload event log req n tries last (db, []) =
    ((added (row_of w payload event log req <$> reverse (made req n tries)) now db, []), inl r) /\
    (r = inl tt <-> exists i, i ∈ made req n tries /\ accepted req i = true).
Proof.
  revert n last db. induction tries as [|tries IH]; intros n last db Hw.
  - exists (inr last). cbn [attempts made]. rewrite reverse_nil. cbn [fmap list_fmap]. rewrite added_nil.
    split; [done|]. split; [done|]. intros (i & Hi & _). by apply not_elem_of_nil in Hi.
  - cbn [attempts made]. pose proof (row_success w payload event log req n) as (_ & _ & Hto & _).
    pose proof (outcome_accepted w payload event log req n) as Ha.
    unfold row_of in Hto. destruct (outcome w payload event log n (post n req)) as [row error] eqn:E.
    cbn [fst snd] in *. unfold mbind, M_bind. rewrite run_record by by rewrite Hto.
    cbn [negb]. destruct error as [e|].
    + assert (accepted req n = false) as -> by (destruct (accepted req n); naive_solver).
      destruct (IH (n + 1) e (added [row] now db)) as (r & Hr & Hi); [by rewrite added_hook|].
      rewrite Hr. exists r. rewrite added_app, reverse_cons, fmap_app. cbn [fmap list_fmap].
      assert (row_of w payload event log req n = row) as -> by (unfold row_of; by rewrite E).
      split; [done|]. rewrite Hi. setoid_rewrite elem_of_cons. split.
      * intros (i & Hin & Hok). exists i. auto.
      * intros (i & [->|Hin] & Hok); [|by exists i].
        assert (accepted req n = false) by (destruct (accepted req n); naive_solver). congruence.
    + rewrite (proj1 Ha eq_refl). exists (inl tt). cbn [reverse].
      change (reverse [n]) with [n]. cbn [fmap list_fmap].
      assert (row_of w payload event log req n = row) as -> by (unfold row_of; by rewrite E).
      split; [done|]. split; [|done]. intros _. exists n. split; [by left|by apply Ha].
Qed.

(** What one delivery leaves: rows of its own, one of them of a first attempt, three at
    most; it succeeded if a row says so. *)
Definition told (w : Webhook) (log : option uuid) (rows : list NewWebhookDelivery) : Prop :=
  Forall (fun row => delivered_to row = webhook_id w /\ delivery_log_id row = log) rows /\
  length (List.filter (fun row => delivery_attempt row =? 1) rows) = 1%nat /\ (length rows <= 3)%nat.

Lemma made_three req : made req 1 3 ∈ [[1]; [1; 2]; [1; 2; 3]].
Proof. cbn [made]. destruct (accepted req 1), (accepted req (1 + 1)), (accepted req (1 + 1 + 1)); set_solver. Qed.

Lemma told_made w payload event log req :
  told w log (row_of w payload event log req <$> reverse (made req 1 3)).
Proof.
  pose proof (fun n => row_success w payload event log req n) as Hr.
  split; [|split].
  - apply Forall_fmap, Forall_forall. intros n _. simpl. by destruct (Hr n) as (_ & _ & -> & ->).
  - rewrite <-(length_fmap delivery_attempt).
    assert (forall l, delivery_attempt <$> List.filter (fun row => delivery_attempt row =? 1)
      (row_of w payload event log req <$> l) = List.filter (Z.eqb 1) l) as ->.
    { intros l. induction l as [|n l IH]; [done|]. cbn [fmap list_fmap List.filter].
      destruct (Hr n) as (_ & Hn & _). rewrite Hn, (Z.eqb_sym n 1). destruct (1 =? n) eqn:E; [|done].
      cbn [fmap list_fmap]. f_equal; [|done]. by rewrite Hn. }
    pose proof (made_three req) as Hm. rewrite !elem_of_cons in Hm.
    destruct Hm as [->|[->|[->|Hm]]]; [done..|by apply not_elem_of_nil in Hm].
  - rewrite length_fmap, length_reverse. pose proof (made_three req) as Hm. rewrite !elem_of_cons in Hm.
    destruct Hm as [->|[->|[->|Hm]]]; [simpl; lia..|by apply not_elem_of_nil in Hm].
Qed.

Lemma run_deliver now w payload event log body db :
  to_vec payload = Some body -> is_hook (hooks db) (webhook_id w) = true ->
  exists rows r, deliver now w payload event log (db, []) = ((added rows now db, []), inl r) /\
    told w log rows /\ (r = inl tt <-> exists row, row ∈ rows /\ success row = true).
Proof.
  intros Hb Hw. unfold deliver. rewrite Hb. unfold mbind, M_bind.
  destruct (run_build_headers w event (sign (signing_secret w) body) db) as [hs Hh]. rewrite Hh.
  destruct (resolve_and_screen (url w)) as [pin|reason].
  - set (req := {| req_url := url w; pinned := pin; req_headers := hs; req_body := body |}).
    destruct (run_attempts now w payload event log req 1 (Z.to_nat MAX_ATTEMPTS) "no attempts made" db Hw)
      as (r & Hr & Hi).
    exists (row_of w payload event log req <$> reverse (made req 1 3)), r.
    split; [exact Hr|]. split; [apply told_made|]. rewrite Hi. split.
    + intros (i & Hin & Hok). exists (row_of w payload event log req i). split.
      * apply list_elem_of_fmap. exists i. split; [done|]. by rewrite elem_of_reverse.
      * by rewrite (proj1 (row_success w payload event log req i)).
    + intros (row & Hin & Hok). apply list_elem_of_fmap in Hin as (i & -> & Hin). exists i.
      rewrite elem_of_reverse in Hin. split; [done|].
      by rewrite (proj1 (row_success w payload event log req i)) in Hok.
  - unfold mbind, M_bind. rewrite run_record by done. eexists _, _. split; [reflexivity|].
    split; [|split; [done|]].
    + split_and!; [by repeat constructor|done|simpl; lia].
    + intros (row & ->%list_elem_of_singleton & Hok). done.
Qed.

(** ** To whom *)

(** A subscription of the hook's, to the event's type or to its class. *)
Definition wants (db : HookDb) (event : string) (w : Webhook) : Prop :=
  (webhook_id w, event) ∈ event_subscriptions db \/
  exists kind s sev, AuditClass.parse event = Some kind /\ s ∈ class_subscriptions db /\
    class_webhook_id s = webhook_id w /\
    (class_category s = None \/ class_category s = Some (AuditClass.Category.as_str (AuditClass.category kind))) /\
    AuditClass.Severity.parse (min_severity s) = Some sev /\
    AuditClass.severe sev kind = true.

Lemma elem_of_at_or_below kind s :
  s ∈ at_or_below kind <->
  exists sev, AuditClass.Severity.parse s = Some sev /\ AuditClass.severe sev kind = true.
Proof.
  unfold at_or_below, AuditClass.severe. rewrite list_elem_of_fmap. split.
  - intros (sev & -> & Hs). apply elem_of_lfilter in Hs as [_ Hs]. exists sev.
    by rewrite AuditClass.severity_parse_as_str.
  - intros (sev & Hp & Hs). exists sev. apply find_first_Some in Hp as [Hin Hp].
    apply bool_decide_eq_true in Hp. split; [done|]. by apply elem_of_lfilter.
Qed.

Lemma merge_hooks_spec ws by_class :
  NoDup (webhook_id <$> ws) ->
  NoDup (webhook_id <$> merge_hooks ws by_class) /\
  (forall w, w ∈ merge_hooks ws by_class -> w ∈ ws \/ w ∈ by_class) /\
  (forall w, w ∈ ws -> w ∈ merge_hooks ws by_class) /\
  (forall w, w ∈ by_class -> webhook_id w ∈ webhook_id <$> merge_hooks ws by_class).
Proof.
  revert ws. induction by_class as [|w by_class IH]; intros ws Hn; cbn [merge_hooks].
  { split_and!; auto. intros w Hw. by apply not_elem_of_nil in Hw. }
  destruct (existsb (fun v => webhook_id v ≟ webhook_id w) ws) eqn:E.
  - destruct (IH ws Hn) as (H1 & H2 & H3 & H4). split_and!; [done| |done|].
    + intros v [?|?]%H2; [by left|right; by right].
    + intros v [->|Hv]%elem_of_cons; [|by apply H4].
      apply existsb_exists in E as (v & Hv & Hid). apply list_elem_of_In in Hv.
      apply bool_decide_eq_true in Hid. rewrite <-Hid. apply list_elem_of_fmap. exists v. auto.
  - assert (Hn' : NoDup (webhook_id <$> ws ++ [w])).
    { rewrite fmap_app. apply NoDup_app. split_and!; [done| |by apply NoDup_singleton].
      intros id (v & -> & Hv)%list_elem_of_fmap Hid. apply list_elem_of_singleton in Hid.
      apply not_true_iff_false in E. apply E, existsb_exists. exists v.
      split; [by apply list_elem_of_In|]. by apply bool_decide_eq_true. }
    destruct (IH _ Hn') as (H1 & H2 & H3 & H4). split_and!; [done| | |].
    + intros v [Hv|?]%H2; [|right; by right]. apply elem_of_app in Hv as [?|Hv]; [by left|].
      apply list_elem_of_singleton in Hv as ->. right. by left.
    + intros v Hv. apply H3, elem_of_app. by left.
    + intros v [->|Hv]%elem_of_cons; [|by apply H4]. apply list_elem_of_fmap. exists w.
      split; [done|]. apply H3, elem_of_app. right. by left.
Qed.

Lemma id_inj (hs : list Webhook) v w :
  NoDup (webhook_id <$> hs) -> v ∈ hs -> w ∈ hs -> webhook_id v = webhook_id w -> v = w.
Proof.
  induction hs as [|h hs IH]; intros Hn Hv Hw He; [by apply not_elem_of_nil in Hv|].
  rewrite fmap_cons in Hn. apply NoDup_cons in Hn as [Hh Hn].
  apply elem_of_cons in Hv as [->|Hv]; apply elem_of_cons in Hw as [->|Hw]; [done| | |by apply IH].
  - exfalso. apply Hh. rewrite He. apply list_elem_of_fmap. by exists w.
  - exfalso. apply Hh. rewrite <-He. apply list_elem_of_fmap. by exists v.
Qed.

Definition by_event (db : HookDb) (event : string) : list Webhook :=
  s ← List.filter (fun s => s.2 ≟ event) (event_subscriptions db);
  List.filter (fun w => (webhook_id w ≟ s.1) && enabled w) (webhooks db).

Lemma elem_of_by_event db event w :
  w ∈ by_event db event <->
  w ∈ webhooks db /\ enabled w = true /\ (webhook_id w, event) ∈ event_subscriptions db.
Proof.
  unfold by_event. rewrite list_elem_of_bind. split.
  - intros ([id e] & Hw & Hs). apply elem_of_lfilter in Hw as [Hw Hb], Hs as [Hs He].
    apply andb_true_iff in Hb as [Hid Hen]. apply bool_decide_eq_true in Hid, He. by simplify_eq/=.
  - intros (Hw & Hen & Hs). exists (webhook_id w, event). split; apply elem_of_lfilter; split; try done.
    + by rewrite bool_decide_true.
    + by apply bool_decide_eq_true.
Qed.

Lemma by_event_unique db event : referential db -> NoDup (webhook_id <$> by_event db event).
Proof.
  intros Hr. apply NoDup_fmap_2_strong.
  { intros v w Hv Hw. apply elem_of_by_event in Hv as [Hv _], Hw as [Hw _].
    exact (id_inj (webhooks db) v w (hooks_unique _ Hr) Hv Hw). }
  unfold by_event. apply NoDup_bind.
  - intros [i e] [j f] w Hi Hj Hwi Hwj. apply elem_of_lfilter in Hi as [_ Hi], Hj as [_ Hj].
    apply elem_of_lfilter in Hwi as [_ Hwi], Hwj as [_ Hwj]. cbn [fst snd] in *. split_andb. congruence.
  - intros s _. apply NoDup_ListNoDup, List.NoDup_filter, NoDup_ListNoDup.
    exact (NoDup_fmap_1 webhook_id _ (hooks_unique _ Hr)).
  - apply NoDup_ListNoDup, List.NoDup_filter, NoDup_ListNoDup, (events_unique _ Hr).
Qed.

Definition by_class (db : HookDb) (kind : AuditEventType) : list Webhook :=
  List.filter (fun w => enabled w && existsb (fun s => (class_webhook_id s ≟ webhook_id w) &&
      class_matches (AuditClass.Category.as_str (AuditClass.category kind)) (at_or_below kind) s)
    (class_subscriptions db)) (webhooks db).

Lemma elem_of_by_class db kind w :
  w ∈ by_class db kind <->
  w ∈ webhooks db /\ enabled w = true /\
  exists s sev, s ∈ class_subscriptions db /\ class_webhook_id s = webhook_id w /\
    (class_category s = None \/ class_category s = Some (AuditClass.Category.as_str (AuditClass.category kind))) /\
    AuditClass.Severity.parse (min_severity s) = Some sev /\ AuditClass.severe sev kind = true.
Proof.
  unfold by_class. rewrite elem_of_lfilter, andb_true_iff, existsb_exists. unfold class_matches.
  split.
  - intros (Hw & Hen & s & Hs & Hb). apply list_elem_of_In in Hs. apply andb_true_iff in Hb as [Hid Hb].
    apply andb_true_iff in Hb as [Hc Hm]. apply bool_decide_eq_true in Hid, Hm.
    apply elem_of_at_or_below in Hm as (sev & Hp & Hsev). split_and!; [done..|]. exists s, sev.
    split_and!; try done. destruct (class_category s) as [c|]; [right|by left].
    simpl in Hc. apply bool_decide_eq_true in Hc. by subst c.
  - intros (Hw & Hen & s & sev & Hs & Hid & Hc & Hp & Hsev). split_and!; [done..|]. exists s.
    apply list_elem_of_In in Hs. split; [done|]. rewrite !andb_true_iff. split_and!.
    + by apply bool_decide_eq_true.
    + destruct Hc as [-> | ->]; [done|]. by apply bool_decide_eq_true.
    + apply bool_decide_eq_true, elem_of_at_or_below. by exists sev.
Qed.

Lemma wants_iff db event w :
  w ∈ webhooks db -> enabled w = true ->
  (wants db event w <-> w ∈ by_event db event \/
     exists kind, AuditClass.parse event = Some kind /\ w ∈ by_class db kind).
Proof.
  intros Hw Hen. unfold wants. rewrite elem_of_by_event. setoid_rewrite elem_of_by_class. naive_solver.
Qed.

(** Each hook once, and exactly those that are enabled and want the event. *)
Lemma run_receivers event db :
  referential (hooks db) ->
  exists ws, receivers event (db, []) = ((db, []), inl (Some ws)) /\
    NoDup (webhook_id <$> ws) /\
    forall w, w ∈ ws <-> w ∈ webhooks (hooks db) /\ enabled w = true /\ wants (hooks db) event w.
Proof.
  intros Hr. pose proof (by_event_unique (hooks db) event Hr) as Hn.
  unfold receivers, attempt, mbind, M_bind, hook_call.
  rewrite (within_at (P := HookDb) (get_enabled_webhooks_for_event event) db [] [] (inl (by_event (hooks db) event))) by done.
  assert (Hsub : forall w, w ∈ by_event (hooks db) event ->
    w ∈ webhooks (hooks db) /\ enabled w = true /\ wants (hooks db) event w).
  { intros w (Hw & Hen & Hs)%elem_of_by_event. split_and!; [done..|by left]. }
  destruct (AuditClass.parse event) as [kind|] eqn:Ek.
  - rewrite (within_at (P := HookDb) _ db [] [] (inl (by_class (hooks db) kind))) by done.
    destruct (merge_hooks_spec (by_event (hooks db) event) (by_class (hooks db) kind) Hn) as (H1 & H2 & H3 & H4).
    eexists. split; [reflexivity|]. split; [done|]. intros w. split.
    + intros [Hw|Hw]%H2; [by apply Hsub|]. pose proof Hw as (Hin & Hen & _)%elem_of_by_class.
      split_and!; [done..|]. apply wants_iff; [done..|]. right. by exists kind.
    + intros (Hin & Hen & [Hw|(k & Hk & Hw)]%wants_iff); [by apply H3| |done|done].
      rewrite Ek in Hk. injection Hk as <-. apply H4 in Hw as (v & Hid & Hv)%list_elem_of_fmap.
      assert (v ∈ webhooks (hooks db)) as Hvin.
      { apply H2 in Hv as [Hv|Hv]; [by apply elem_of_by_event in Hv as [? _]|by apply elem_of_by_class in Hv as [? _]]. }
      by rewrite (id_inj (webhooks (hooks db)) w v (hooks_unique _ Hr) Hin Hvin Hid).
  - eexists. split; [reflexivity|]. split; [done|]. intros w. split; [apply Hsub|].
    intros (Hin & Hen & [Hw|(k & Hk & _)]%wants_iff); [done|by rewrite Ek in Hk|done|done].
Qed.

Definition rows_to (id : uuid) (rows : list NewWebhookDelivery) : list NewWebhookDelivery :=
  List.filter (fun row => delivered_to row ≟ id) rows.

Definition first_attempts (rows : list NewWebhookDelivery) : nat :=
  length (List.filter (fun row => delivery_attempt row =? 1) rows).

Lemma rows_to_app id rows rows' : rows_to id (rows ++ rows') = rows_to id rows ++ rows_to id rows'.
Proof. apply List.filter_app. Qed.

Lemma rows_to_told w log rows : told w log rows -> rows_to (webhook_id w) rows = rows.
Proof.
  intros (Ha & _ & _). unfold rows_to. induction Ha as [|row rows [Hto _] _ IH]; [done|].
  cbn [List.filter]. by rewrite bool_decide_true, IH.
Qed.

Lemma rows_to_other w log rows id : told w log rows -> id <> webhook_id w -> rows_to id rows = [].
Proof.
  intros (Ha & _ & _) Hne. unfold rows_to. induction Ha as [|row rows [Hto _] _ IH]; [done|].
  cbn [List.filter]. rewrite bool_decide_false by congruence. done.
Qed.

Lemma run_deliver_all now r ws db :
  (forall w, exists body, to_vec (body_for now r w) = Some body) ->
  NoDup (webhook_id <$> ws) -> (forall w, w ∈ ws -> is_hook (hooks db) (webhook_id w) = true) ->
  exists rows, deliver_all now r ws (db, []) = ((added rows now db, []), inl tt) /\
    Forall (fun row => delivery_log_id row = Some (log_id r)) rows /\
    (forall w, w ∈ ws -> first_attempts (rows_to (webhook_id w) rows) = 1%nat /\
                         (length (rows_to (webhook_id w) rows) <= 3)%nat) /\
    (forall id, id ∉ webhook_id <$> ws -> rows_to id rows = []).
Proof.
  intros Hb. revert db. induction ws as [|w ws IH]; intros db Hn Hin.
  { exists []. rewrite added_nil. split_and!; [done|done| |done]. intros w Hw. by apply not_elem_of_nil in Hw. }
  rewrite fmap_cons in Hn. apply NoDup_cons in Hn as [Hw Hn]. destruct (Hb w) as [body Hbody].
  destruct (run_deliver now w (body_for now r w) (log_event_type r) (Some (log_id r)) body db Hbody)
    as (rows & res & Hr & Ht & _); [apply Hin; by left|].
  destruct (IH (added rows now db) Hn) as (rest & Hrest & Hlog & Hto & Hno).
  { intros v Hv. rewrite added_hook. apply Hin. by right. }
  exists (rest ++ rows). cbn [deliver_all]. unfold mbind, M_bind. rewrite Hr, Hrest, added_app.
  split; [done|]. split; [|split].
  - apply Forall_app. split; [done|]. destruct Ht as [Ht _]. eapply Forall_impl; [done|]. by intros row [_ ?].
  - intros v [->|Hv]%elem_of_cons; rewrite rows_to_app.
    + rewrite (Hno (webhook_id w)), (rows_to_told _ _ _ Ht) by done. apply Ht.
    + rewrite (rows_to_other _ _ _ (webhook_id v) Ht), app_nil_r; [by apply Hto|].
      intros He. apply Hw. rewrite <-He. apply list_elem_of_fmap. by exists v.
  - intros id Hid. rewrite fmap_cons, not_elem_of_cons in Hid. destruct Hid as [Hne Hid].
    by rewrite rows_to_app, Hno, (rows_to_other _ _ _ id Ht).
Qed.

Lemma is_hook_in db w : w ∈ webhooks db -> is_hook db (webhook_id w) = true.
Proof.
  intros Hw. unfold is_hook, hook_of. destruct (find_first _ _) as [v|] eqn:E; [done|].
  rewrite find_first_None in E. specialize (E w Hw). by rewrite bool_decide_true in E.
Qed.

(** Each subscriber is told once: where nothing fails, an audit row becomes, for every
    webhook that is enabled and subscribed to its type or to a class that covers it, one
    first attempt and at most two more, on record under the row's id, and for every other
    webhook nothing. *)
Theorem each_subscriber_is_told now r db :
  referential (hooks db) -> (forall w, exists body, to_vec (body_for now r w) = Some body) ->
  exists rows, Faults.run (handle_event now r) db = (added rows now db, inl tt) /\
    Forall (fun row => delivery_log_id row = Some (log_id r)) rows /\
    forall w, w ∈ webhooks (hooks db) ->
      (enabled w = true /\ wants (hooks db) (log_event_type r) w ->
        first_attempts (rows_to (webhook_id w) rows) = 1%nat /\
        (length (rows_to (webhook_id w) rows) <= 3)%nat) /\
      (~ (enabled w = true /\ wants (hooks db) (log_event_type r) w) ->
        rows_to (webhook_id w) rows = []).
Proof.
  intros Hr Hb. destruct (run_receivers (log_event_type r) db Hr) as (ws & Hws & Hn & Hin).
  destruct (run_deliver_all now r ws db Hb Hn) as (rows & Hd & Hlog & Hto & Hno).
  { intros w (Hw & _)%Hin. by apply is_hook_in. }
  exists rows. unfold Faults.run, handle_event, mbind, M_bind. rewrite Hws. change (default [] (Some ws)) with ws. rewrite Hd.
  split; [done|]. split; [done|]. intros w Hw. split.
  - intros [Hen Hwt]. apply Hto, Hin. done.
  - intros Hnot. apply Hno. intros (v & Hid & Hv)%list_elem_of_fmap. apply Hnot.
    pose proof Hv as (Hvw & Hen & Hwt)%Hin.
    by rewrite (id_inj _ w v (hooks_unique _ Hr) Hw Hvw Hid).
Qed.

(** ** Where it is sent *)

Definition screened (w : Webhook) (req : Request) : Prop :=
  req_url req = url w /\ (pinned req).2 <> [] /\
  Forall (fun a => ip_is_forbidden a.1 = false) (pinned req).2.

Lemma resolve_screened u pin :
  resolve_and_screen u = inl pin ->
  pin.2 <> [] /\ Forall (fun a => ip_is_forbidden a.1 = false) pin.2.
Proof.
  unfold resolve_and_screen. destruct (parse_url u) as [[[host|] [port|]]|e]; try done.
  destruct (lookup_host host port) as [[|a addrs]|e]; try done.
  destruct (find_first _ (a :: addrs)) eqn:E; [done|]. intros [= <-]. split; [done|].
  rewrite find_first_None in E. by apply Forall_forall.
Qed.

End Dispatcher.

Section Sending.
Context {U : Uuid} {IS : IdSource} {JT : GuardStore.JsonbText} {L : Libraries}.

Lemma attempts_agree site_debug (post post' : Z -> Request -> HttpResult) now w payload event log req n tries last st :
  (forall n, post n req = post' n req) ->
  attempts site_debug post now w payload event log req n tries last st =
  attempts site_debug post' now w payload event log req n tries last st.
Proof.
  intros Hp. revert n last st. induction tries as [|tries IH]; intros n last st; [done|].
  cbn [attempts]. rewrite Hp. destruct (outcome _ _ _ _ _ _ _) as [row error]. unfold mbind, M_bind.
  destruct (record now row st) as [st' [[|]|e]]; try done. cbn [negb]. destruct error; [apply IH|done].
Qed.

(** A delivery goes nowhere but to the hook's own URL at addresses that were screened
    first: what any other request would be answered makes no difference to it, whatever
    faults the database has. *)
Theorem only_screened_requests site_debug lookup_host (post post' : Z -> Request -> HttpResult)
    now w payload event log st :
  (forall n req, screened w req -> post n req = post' n req) ->
  deliver site_debug lookup_host post now w payload event log st =
  deliver site_debug lookup_host post' now w payload event log st.
Proof.
  intros Hp. unfold deliver. destruct (to_vec payload) as [body|]; [|done]. unfold mbind, M_bind.
  destruct (build_headers w event (sign (signing_secret w) body) st) as [st' [hs|e]]; [|done].
  destruct (resolve_and_screen lookup_host (url w)) as [pin|reason] eqn:E; [|done].
  apply attempts_agree. intros n. apply Hp. split; [done|]. by apply (resolve_screened lookup_host (url w)).
Qed.

End Sending.

(** ** Truncation *)

Lemma within_tail lo hi c : 128 <= lo -> hi <= 191 -> within_bytes lo hi c = true -> tail_byte c = true.
Proof. unfold tail_byte, within_bytes. rewrite !andb_true_iff, !Z.leb_le. lia. Qed.

Lemma lead_not_tail a l : valid_utf8 (a :: l) = true -> tail_byte a = false.
Proof.
  intros Hv. unfold tail_byte, within_bytes. apply andb_false_iff. rewrite !Z.leb_gt.
  cbn [valid_utf8] in Hv. destruct (byte a <? 128) eqn:E; [apply Z.ltb_lt in E; lia|].
  right. unfold within_bytes in Hv. repeat case_match; split_andb; lia.
Qed.

(** A text is empty, or a character of one to four bytes, the rest of which continue it. *)
Lemma valid_utf8_step l :
  valid_utf8 l = true -> l = [] \/
  exists a tail rest, l = a :: tail ++ rest /\ (length tail <= 3)%nat /\
    forallb tail_byte tail = true /\ tail_byte a = false /\ valid_utf8 rest = true /\
    forall rest', valid_utf8 rest' = true -> valid_utf8 (a :: tail ++ rest') = true.
Proof.
  intros Hv. destruct l as [|a l]; [by left|]. right. pose proof (lead_not_tail a l Hv) as Ha.
  cbn [valid_utf8] in Hv. destruct (byte a <? 128) eqn:E1.
  { exists a, [], l. split_and!; try done; [simpl; lia|]. intros rest' Hr. cbn [app valid_utf8]. by rewrite E1. }
  destruct l as [|b l]; [done|]. destruct (within_bytes 194 223 a) eqn:E2.
  { apply andb_true_iff in Hv as [Hb Hv]. exists a, [b], l. split_and!; try done; [simpl; lia|simpl; by rewrite Hb|].
    intros rest' Hr. cbn [app valid_utf8]. by rewrite E1, E2, Hb, Hr. }
  destruct l as [|c l]; [done|]. destruct (within_bytes 224 239 a) eqn:E3.
  { apply andb_true_iff in Hv as [Hbc Hv]. exists a, [b; c], l. split_and!; try done; [simpl; lia| |].
    - apply andb_true_iff in Hbc as [Hb Hc]. cbn [forallb]. rewrite Hc, !andb_true_r.
      destruct (byte a =? 224), (byte a =? 237); refine (within_tail _ _ _ _ _ Hb); lia.
    - intros rest' Hr. cbn [app valid_utf8]. by rewrite E1, E2, E3, Hbc, Hr. }
  destruct l as [|d l]; [done|]. apply andb_true_iff in Hv as [Habcd Hv].
  exists a, [b; c; d], l. split_and!; try done.
  - rewrite !andb_true_iff in Habcd. destruct Habcd as [[[_ Hb] Hc] Hd]. cbn [forallb]. rewrite Hc, Hd, !andb_true_r.
    destruct (byte a =? 240), (byte a =? 244); refine (within_tail _ _ _ _ _ Hb); lia.
  - intros rest' Hr. cbn [app valid_utf8]. by rewrite E1, E2, E3, Habcd, Hr.
Qed.

Lemma boundary_shift a tail rest i :
  is_char_boundary (a :: tail ++ rest) (S (length tail) + i) = is_char_boundary rest i.
Proof.
  unfold is_char_boundary. replace (S (length tail) + i)%nat with (length (a :: tail) + i)%nat by done.
  rewrite (lookup_app_r (a :: tail) rest) by lia.
  by replace (length (a :: tail) + i - length (a :: tail))%nat with i by lia.
Qed.

(** Inside a character there is no boundary. *)
Lemma no_boundary_inside a tail rest i :
  forallb tail_byte tail = true -> (0 < i <= length tail)%nat ->
  is_char_boundary (a :: tail ++ rest) i = false.
Proof.
  intros Ht Hi. unfold is_char_boundary. destruct i as [|i]; [lia|]. change ((a :: tail ++ rest) !! S i) with ((tail ++ rest) !! i).
  rewrite lookup_app_l by lia. destruct (tail !! i) as [c|] eqn:E.
  - apply negb_false_iff. rewrite forallb_forall in Ht. apply Ht, list_elem_of_In. by eapply list_elem_of_lookup_2.
  - apply lookup_ge_None in E. lia.
Qed.

(** A cut at a boundary leaves a text. *)
Lemma valid_utf8_cut l i :
  valid_utf8 l = true -> is_char_boundary l i = true -> valid_utf8 (take i l) = true.
Proof.
  remember (length l) as n eqn:Hn. assert (length l <= n)%nat as Hle by lia. clear Hn. revert l i Hle.
  induction n as [|n IH]; intros l i Hle Hv Hb; (destruct (valid_utf8_step l Hv) as [->|(a & tail & rest & -> & _ & Ht & Ha & Hr & Hk)]; [by rewrite take_nil|]).
  { simpl in Hle. lia. }
  destruct (decide (i = 0%nat)) as [->|Hi0]; [done|].
  destruct (decide (i <= length tail)%nat) as [Hi|Hi]; [by rewrite no_boundary_inside in Hb by (done || lia)|].
  replace i with (S (length tail) + (i - S (length tail)))%nat in Hb |- * by lia.
  rewrite boundary_shift in Hb. cbn [take Nat.add]. rewrite take_app_add. apply Hk, IH; [|done|done].
  simpl in Hle. rewrite length_app in Hle. lia.
Qed.

(** One of any four places in a row is a boundary. *)
Lemma boundary_near l i :
  valid_utf8 l = true -> (i <= length l)%nat ->
  exists j, (j <= i <= j + 3)%nat /\ is_char_boundary l j = true.
Proof.
  remember (length l) as n eqn:Hn. assert (length l <= n)%nat as Hle by lia. rewrite Hn. clear Hn. revert l i Hle.
  induction n as [|n IH]; intros l i Hle Hv Hi; (destruct (valid_utf8_step l Hv) as [->|(a & tail & rest & -> & Hl & Ht & Ha & Hr & Hk)]; [by exists i; split; [lia|destruct i]|]).
  { simpl in Hle. lia. }
  destruct (decide (i <= length tail)%nat) as [Hi'|Hi'].
  - exists 0%nat. split; [lia|]. unfold is_char_boundary. simpl. by rewrite Ha.
  - cbn [length] in Hi, Hle. rewrite length_app in Hi, Hle.
    destruct (IH rest (i - S (length tail))%nat) as (j & Hj & Hb); [lia|done|lia|].
    exists (S (length tail) + j)%nat. rewrite boundary_shift. split; [lia|done].
Qed.

Lemma back_off_spec l i :
  (back_off l i <= i)%nat /\
  (forall j, (j <= i)%nat -> is_char_boundary l j = true -> (j <= back_off l i)%nat) /\
  (back_off l i = 0%nat \/ is_char_boundary l (back_off l i) = true).
Proof.
  induction i as [|i (H1 & H2 & H3)]; cbn [back_off].
  { split_and!; [lia|intros; lia|by left]. }
  destruct (is_char_boundary l (S i)) eqn:E.
  - split_and!; [lia|intros; lia|by right].
  - split_and!; [lia| |done]. intros j Hj Hb. apply H2; [|done].
    assert (j <> S i) by (intros ->; congruence). lia.
Qed.

(** What is kept of a long body is a text and nearly all that may be kept: of a text of
    more than [max] bytes, at most [max] and more than [max] - 4 of its first bytes, cut
    between characters, and a mark; a shorter one is kept whole. *)
Theorem truncate_cuts_between_characters s max :
  valid_utf8 (bytes s) = true ->
  ((length (bytes s) <= max)%nat -> truncate s max = s) /\
  ((max < length (bytes s))%nat -> exists n,
     truncate s max = of_bytes (take n (bytes s)) +:+ "…[truncated]" /\
     (n <= max < n + 4)%nat /\ valid_utf8 (take n (bytes s)) = true).
Proof.
  intros Hv. unfold truncate. split; intros Hl.
  - by rewrite (proj2 (Nat.leb_le _ _) Hl).
  - rewrite (proj2 (Nat.leb_gt _ _) Hl). exists (back_off (bytes s) max). split; [done|].
    destruct (back_off_spec (bytes s) max) as (H1 & H2 & H3).
    destruct (boundary_near (bytes s) max Hv) as (j & Hj & Hb); [lia|]. specialize (H2 j ltac:(lia) Hb).
    split; [lia|]. destruct H3 as [-> | H3]; [done|]. by apply valid_utf8_cut.
Qed.

End Webhooks.
