(* ===== verification/WebhookApi.v ===== *)
(** * Administering webhooks ([server/src/api/webhooks.rs])

    What an administrator may register, change and take away, and that whatever is
    registered can be sent something.  [url::Url] is an argument: the scheme and host
    it finds in a text. *)
From Stdlib Require Import Ascii.
From S2P Require Import Prelude Text Faults AuditLog Database Api GuardStore Hooks Trail Alerts Webhooks.
Import Text Faults Audit Database Api Hooks Trail Webhooks.

Module WebhookApi.

#[local] Open Scope Z_scope.

Inductive Host : Type :=
  | Domain (name : string)
  | Literal (ip : IpAddr).

(** Here the mapped form of a v4 address is not looked through. *)
Definition is_link_local (h : Host) : bool :=
  match h with
  | Literal (V4 a b _ _) => v4_link_local a b
  | Literal (V6 segments) =>
      (Z.land (default 0 (head segments)) 0xffc0 =? 0xfe80) || (segments ≟ AWS_IMDS_V6)
  | Domain _ => false
  end.

Section WebhookApi.
Context {U : Uuid} {IS : IdSource} {JT : GuardStore.JsonbText} {L : Libraries}.
Context (debug : string -> string) (parse : string -> option (string * option Host)).

Abbreviation H := (Faults.M TrailDb ApiError).

Definition lift {A} (m : Faults.M HookDb DatabaseError A) : H A := map_err api_error (hook_call m).

(** ** What is accepted *)

Definition validate_url (u : string) : option ApiError :=
  match parse u with
  | None => Some (BadRequest "Webhook URL is not a valid URL")
  | Some (scheme, host) =>
      if negb ((scheme ≟ "http") || (scheme ≟ "https"))
      then Some (BadRequest "Webhook URL must start with http:// or https://")
      else match host with
      | Some h =>
          if is_link_local h
          then Some (BadRequest "Webhook URL may not address a link-local or cloud metadata endpoint")
          else None
      | None => Some (BadRequest "Webhook URL must name a host")
      end
  end%string.

Definition validate_event_types (events : list string) : option ApiError :=
  (fun e => BadRequest ("Unknown event type: " +:+ e)) <$>
  find_first (fun e => negb (bool_decide (e ∈ AuditClass.as_str <$> AuditClass.all))) events.

Record ClassSubscription := {
  cs_category : option string;
  cs_min_severity : string;
}.

(** A category that is blank is none. *)
Definition named_category (c : option string) : option string :=
  c ← c; let c := trim c in if c ≟ EmptyString then None else Some c.

Definition validate_class (s : ClassSubscription) : (option string * string) + ApiError :=
  match AuditClass.Severity.parse (cs_min_severity s) with
  | None => inr (BadRequest ("unknown min_severity: " +:+ cs_min_severity s))
  | Some sev =>
      match named_category (cs_category s) with
      | None => inl (None, AuditClass.Severity.as_str sev)
      | Some c =>
          match AuditClass.Category.parse c with
          | None => inr (BadRequest ("unknown category: " +:+ c))
          | Some c => inl (Some (AuditClass.Category.as_str c), AuditClass.Severity.as_str sev)
          end
      end
  end.

Fixpoint validate_class_subscriptions (subs : list ClassSubscription)
    : list (option string * string) + ApiError :=
  match subs with
  | [] => inl []
  | s :: subs =>
      match validate_class s with
      | inr e => inr e
      | inl row =>
          match validate_class_subscriptions subs with
          | inl rows => inl (row :: rows)
          | inr e => inr e
          end
      end
  end.

Definition validate_format (fmt : option string) : string + ApiError :=
  let f := trim (default JSON fmt) in
  if bool_decide (f ∈ FORMATS) then inl f
  else inr (BadRequest ("unknown format " +:+ debug f +:+ "; one of " +:+ Alerts.join ", " FORMATS)).

Definition check (e : option ApiError) : H unit :=
  match e with Some e => throw e | None => mret tt end.

Definition of_result {A} (r : A + ApiError) : H A :=
  match r with inl x => mret x | inr e => throw e end.

(** A failure is logged and forgotten. *)
Definition audit (now : instant) (event : AuditEventType) (actor : uuid) (data : json) : H unit :=
  map_err api_error (Alerts.log_event now event None (Some actor) data).

(** ** Auth headers *)

Record AuthHeaderResponse := {
  ah_id : uuid;
  ah_name : string;
  ah_header_name : string;
  has_value : bool;
}.

Definition header_response (h : WebhookAuthHeader) : AuthHeaderResponse := {|
  ah_id := header_id h; ah_name := header_label h; ah_header_name := header_name h;
  has_value := negb (header_value h ≟ EmptyString) |}.

Definition create_auth_header (now : instant) (admin : uuid) (n : NewWebhookAuthHeader)
    : H AuthHeaderResponse :=
  unless ((trim (nh_label n) ≟ EmptyString) || (trim (nh_name n) ≟ EmptyString))
    (BadRequest "name and header_name are required") (
  unless (nh_value n ≟ EmptyString) (BadRequest "header_value is required") (
    h ← lift (create_webhook_auth_header n);
    _ ← audit now WebhookAuthHeaderCreated admin (JObj
          [("auth_header_id", JStr (uuid_show (header_id h))); ("name", JStr (header_label h))]%string);
    mret (header_response h))).

Definition list_auth_headers : H (list AuthHeaderResponse) :=
  hs ← lift list_webhook_auth_headers; mret (header_response <$> hs).

Definition update_auth_header (now : instant) (admin id : uuid) (u : UpdateWebhookAuthHeader)
    : H AuthHeaderResponse :=
  unless (is_some_and (uh_value u) (fun v => v ≟ EmptyString))
    (BadRequest "header_value cannot be set to empty") (
    h ← lift (update_webhook_auth_header id u);
    _ ← audit now WebhookAuthHeaderUpdated admin (JObj [("auth_header_id", JStr (uuid_show id))]%string);
    mret (header_response h)).

Definition delete_auth_header (now : instant) (admin id : uuid) : H unit :=
  usage ← lift (count_webhook_auth_header_usage id);
  unless (0 <? usage) (Conflict ("Auth header is still attached to " +:+ pretty usage +:+
                                 " webhook(s); detach it first")) (
    deleted ← lift (delete_webhook_auth_header id);
    if deleted =? 0 then throw (NotFoundError "Auth header not found")
    else audit now WebhookAuthHeaderDeleted admin (JObj [("auth_header_id", JStr (uuid_show id))]%string)).

(** ** Webhooks *)

Record WebhookResponse := {
  wr_webhook : Webhook;
  wr_event_types : list string;
  wr_class_subscriptions : list ClassSubscription;
  wr_auth_header_ids : list uuid;
}.

Definition to_webhook_response (w : Webhook) : H WebhookResponse :=
  events ← lift (get_webhook_event_types (webhook_id w));
  classes ← lift (get_webhook_class_subscriptions (webhook_id w));
  headers ← lift (get_webhook_auth_header_ids (webhook_id w));
  mret {| wr_webhook := w; wr_event_types := events;
          wr_class_subscriptions :=
            (fun c => {| cs_category := class_category c; cs_min_severity := min_severity c |}) <$> classes;
          wr_auth_header_ids := headers |}.

Record CreateWebhookRequest := {
  cr_name : string;
  cr_url : string;
  cr_enabled : option bool;
  cr_event_types : list string;
  cr_class_subscriptions : list ClassSubscription;
  cr_auth_header_ids : list uuid;
  cr_format : option string;
}.

(** [secret] is what [generate_signing_secret] drew. *)
Definition create_webhook (now : instant) (admin : uuid) (secret : string) (req : CreateWebhookRequest)
    : H WebhookResponse :=
  unless (trim (cr_name req) ≟ EmptyString) (BadRequest "name is required") (
    _ ← check (validate_url (cr_url req));
    _ ← check (validate_event_types (cr_event_types req));
    class_subs ← of_result (validate_class_subscriptions (cr_class_subscriptions req));
    fmt ← of_result (validate_format (cr_format req));
    w ← lift (Hooks.create_webhook
      {| nw_name := cr_name req; nw_url := cr_url req; nw_enabled := default true (cr_enabled req);
         nw_secret := secret; nw_format := fmt |} (cr_event_types req) (cr_auth_header_ids req));
    _ ← lift (replace_webhook_class_subscriptions (webhook_id w) class_subs);
    _ ← audit now WebhookCreated admin (JObj
          [("webhook_id", JStr (uuid_show (webhook_id w))); ("name", JStr (webhook_name w));
           ("url", JStr (url w))]%string);
    to_webhook_response w).

Fixpoint responses (ws : list Webhook) : H (list WebhookResponse) :=
  match ws with
  | [] => mret []
  | w :: ws => r ← to_webhook_response w; rs ← responses ws; mret (r :: rs)
  end.

Definition list_webhooks : H (list WebhookResponse) := ws ← lift Hooks.list_webhooks; responses ws.

Definition get_webhook (id : uuid) : H WebhookResponse :=
  w ← lift (Hooks.get_webhook id); to_webhook_response w.

Record UpdateWebhookRequest := {
  ur_name : option string;
  ur_url : option string;
  ur_enabled : option bool;
  ur_event_types : option (list string);
  ur_class_subscriptions : option (list ClassSubscription);
  ur_auth_header_ids : option (list uuid);
  ur_format : option string;
}.

Definition optional {A B} (f : A -> B + ApiError) (x : option A) : H (option B) :=
  match x with
  | None => mret None
  | Some x => y ← of_result (f x); mret (Some y)
  end.

Definition update_webhook (now : instant) (admin id : uuid) (req : UpdateWebhookRequest)
    : H WebhookResponse :=
  _ ← check (ur_url req ≫= validate_url);
  _ ← check (ur_event_types req ≫= validate_event_types);
  class_subs ← optional validate_class_subscriptions (ur_class_subscriptions req);
  fmt ← optional (fun f => validate_format (Some f)) (ur_format req);
  w ← lift (Hooks.update_webhook id
    {| uw_name := ur_name req; uw_url := ur_url req; uw_enabled := ur_enabled req; uw_format := fmt |}
    (ur_event_types req) (ur_auth_header_ids req));
  _ ← match class_subs with
      | Some subs => lift (replace_webhook_class_subscriptions id subs)
      | None => mret tt
      end;
  _ ← audit now WebhookUpdated admin (JObj [("webhook_id", JStr (uuid_show id))]%string);
  to_webhook_response w.

Definition delete_webhook (now : instant) (admin id : uuid) : H unit :=
  deleted ← lift (Hooks.delete_webhook id);
  if deleted =? 0 then throw (NotFoundError "Webhook not found")
  else audit now WebhookDeleted admin (JObj [("webhook_id", JStr (uuid_show id))]%string).

(** The outcome is in the answer, which succeeds. *)
Definition test_webhook (site_debug : bool) (lookup_host : string -> Z -> list (IpAddr * Z) + string)
    (post : Z -> Request -> HttpResult) (now : instant) (id : uuid) : H (unit + string) :=
  w ← lift (Hooks.get_webhook id);
  map_err api_error (deliver site_debug lookup_host post now w (test_payload_for now (format w)) "webhook_test" None).

Definition clamp (lo hi x : Z) : Z := Z.min hi (Z.max lo x).

Definition list_deliveries (id : option uuid) (limit offset : option Z)
    : H (list (NewWebhookDelivery * instant)) :=
  lift (list_webhook_deliveries id (clamp 1 500 (default 50 limit)) (Z.max 0 (default 0 offset))).

(** ** Any request, and the dispatcher *)

Inductive HookRequest : Type :=
  | CreateHeader (n : NewWebhookAuthHeader)
  | UpdateHeader (id : uuid) (u : UpdateWebhookAuthHeader)
  | DeleteHeader (id : uuid)
  | ListHeaders
  | CreateHook (secret : string) (req : CreateWebhookRequest)
  | UpdateHook (id : uuid) (req : UpdateWebhookRequest)
  | DeleteHook (id : uuid)
  | TestHook (id : uuid)
  | GetHook (id : uuid)
  | ListHooks
  | ListDeliveries (id : option uuid) (limit offset : option Z).

Definition forget {A} (m : H A) : H unit := _ ← m; mret tt.

Definition serve (site_debug : bool) (lookup_host : string -> Z -> list (IpAddr * Z) + string)
    (post : Z -> Request -> HttpResult) (now : instant) (admin : uuid) (r : HookRequest) : H unit :=
  match r with
  | CreateHeader n => forget (create_auth_header now admin n)
  | UpdateHeader id u => forget (update_auth_header now admin id u)
  | DeleteHeader id => delete_auth_header now admin id
  | ListHeaders => forget list_auth_headers
  | CreateHook secret req => forget (create_webhook now admin secret req)
  | UpdateHook id req => forget (update_webhook now admin id req)
  | DeleteHook id => delete_webhook now admin id
  | TestHook id => forget (test_webhook site_debug lookup_host post now id)
  | GetHook id => forget (get_webhook id)
  | ListHooks => forget list_webhooks
  | ListDeliveries id limit offset => forget (list_deliveries id limit offset)
  end.

(** ** What is registered can be sent something *)

Definition known_event (e : string) : Prop := exists kind, e = AuditClass.as_str kind.

Definition known_class (c : option string) (sev : string) : Prop :=
  (c = None \/ exists cat, c = Some (AuditClass.Category.as_str cat)) /\
  exists v, sev = AuditClass.Severity.as_str v.

Record can_fire (db : HookDb) : Prop := {
  fire_referential : referential db;
  fire_events : forall s, s ∈ event_subscriptions db -> known_event s.2;
  fire_classes : forall s, s ∈ class_subscriptions db -> known_class (class_category s) (min_severity s);
  fire_hooks : forall w, w ∈ webhooks db -> format w ∈ FORMATS /\ validate_url (url w) = None;
}.

Lemma hook_of_in db id w : hook_of db id = Some w -> w ∈ webhooks db /\ webhook_id w = id.
Proof. intros H. apply find_first_Some in H as [H Hid]. by apply bool_decide_eq_true in Hid. Qed.

Lemma is_hook_id db id : is_hook db id = true -> id ∈ webhook_id <$> webhooks db.
Proof.
  unfold is_hook. destruct (hook_of db id) as [w|] eqn:E; [|done]. intros _.
  apply hook_of_in in E as [Hw <-]. apply list_elem_of_fmap. by exists w.
Qed.

Lemma fresh_not_hook db : referential db -> fresh db ∉ webhook_id <$> webhooks db.
Proof.
  intros Hr (w & Hid & Hw)%list_elem_of_fmap. destruct (hooks_old _ Hr w Hw) as (i & Hi & He).
  unfold fresh in Hid. rewrite He in Hid. apply gen_random_uuid_inj in Hid. lia.
Qed.

(** What leaves the hooks and what refers to them alone. *)
Lemma can_fire_headers db hs links n :
  can_fire db -> (next_hook db <= n)%nat -> (forall l, l ∈ links -> l.1 ∈ webhook_id <$> webhooks db) ->
  can_fire {| webhooks := webhooks db; event_subscriptions := event_subscriptions db;
    class_subscriptions := class_subscriptions db; auth_headers := hs; auth_links := links;
    deliveries := deliveries db; next_hook := n |}.
Proof.
  intros [[H1 H2 H3 H4 H5 H6 H7] He Hc Hw] Hn Hl. split; try done. split; try done.
  intros w Hin. destruct (H1 w Hin) as (i & Hi & ?). exists i. split; [cbn; lia|done].
Qed.

Lemma keeps_create_header n : keeps can_fire (create_webhook_auth_header n).
Proof.
  apply keeps_call. intros db H. apply can_fire_headers; [done|simpl; lia|]. apply H.
Qed.

Lemma keeps_update_header id u : keeps can_fire (update_webhook_auth_header id u).
Proof.
  apply keeps_call. intros db H. case_match; [|done]. apply can_fire_headers; [done|simpl; lia|]. apply H.
Qed.

Lemma keeps_delete_header id : keeps can_fire (delete_webhook_auth_header id).
Proof.
  apply keeps_call. intros db H. apply can_fire_headers; [done|simpl; lia|].
  intros l Hl. apply elem_of_lfilter in Hl as [Hl _]. by apply H.
Qed.

(** Rows of one hook. *)
Lemma elem_of_tagged {A} (id : uuid) (xs : list A) r : r ∈ (fun x => (id, x)) <$> xs <-> r.1 = id /\ r.2 ∈ xs.
Proof.
  rewrite list_elem_of_fmap. split; [intros (x & -> & Hx); done|].
  intros [H1 H2]. exists r.2. destruct r; simpl in *. by subst.
Qed.

Lemma NoDup_rows {A} (id : uuid) (xs : list A) (rows : list (uuid * A)) :
  NoDup rows -> NoDup xs -> (forall r, r ∈ rows -> r.1 <> id) -> NoDup (rows ++ ((fun x => (id, x)) <$> xs)).
Proof.
  intros Hr Hx Hd. apply NoDup_app. split_and!; [done| |].
  - intros r Hin Hin'. apply elem_of_tagged in Hin' as [He _]. by apply (Hd r).
  - apply NoDup_fmap_2; [|done]. intros x y [= ->]. done.
Qed.

Lemma rows_refused_none db events headers :
  rows_refused db events headers = None -> NoDup events.
Proof.
  unfold rows_refused. destruct (bool_decide (NoDup events)) eqn:E; [by apply bool_decide_eq_true in E|done].
Qed.

Lemma keeps_create_hook n events headers :
  Forall known_event events -> validate_url (nw_url n) = None ->
  keeps can_fire (Hooks.create_webhook n events headers).
Proof.
  intros Hev Hurl. apply keeps_call. intros db [Hr He Hc Hw]. cbn beta zeta.
  destruct (negb (bool_decide (nw_format n ∈ FORMATS))) eqn:Ef; [done|].
  apply negb_false_iff, bool_decide_eq_true in Ef.
  destruct (rows_refused db events headers) eqn:E; [done|]. apply rows_refused_none in E.
  pose proof (fresh_not_hook db Hr) as Hnew. destruct Hr as [H1 H2 H3 H4 H5 H6 H7]. cbn [fst].
  split; [split| | |]; cbn [with_hook_rows webhooks event_subscriptions class_subscriptions auth_links deliveries next_hook].
  - intros w [->|Hin]%elem_of_cons; [exists (next_hook db); split; [lia|done]|].
    destruct (H1 w Hin) as (i & Hi & ?). exists i. split; [lia|done].
  - rewrite fmap_cons. by apply NoDup_cons.
  - intros s [Hs|[Hs _]%elem_of_tagged]%elem_of_app; rewrite fmap_cons, elem_of_cons; [right; by apply H3|by left].
  - apply NoDup_rows; [done|done|]. intros s Hs Heq. apply Hnew. rewrite <-Heq. by apply H3.
  - intros s Hs. rewrite fmap_cons, elem_of_cons. right. by apply H5.
  - intros s [Hs|[Hs _]%elem_of_tagged]%elem_of_app; rewrite fmap_cons, elem_of_cons; [right; by apply H6|by left].
  - intros d Hd. rewrite fmap_cons, elem_of_cons. right. by apply H7.
  - intros s [Hs|[_ Hs]%elem_of_tagged]%elem_of_app; [by apply He|]. by eapply Forall_forall in Hev.
  - done.
  - intros w [->|Hin]%elem_of_cons; [done|by apply Hw].
Qed.

Lemma NoDup_fmap_lfilter {A B} (f : A -> B) (g : A -> bool) (l : list A) :
  NoDup (f <$> l) -> NoDup (f <$> List.filter g l).
Proof.
  induction l as [|x l IH]; [done|]. rewrite fmap_cons. intros [Hx Hn]%NoDup_cons. cbn [List.filter].
  destruct (g x); [|by apply IH]. rewrite fmap_cons. apply NoDup_cons. split; [|by apply IH].
  intros (y & Hy & Hin)%list_elem_of_fmap. apply elem_of_lfilter in Hin as [Hin _].
  apply Hx. rewrite Hy. apply list_elem_of_fmap. by exists y.
Qed.

Lemma keeps_delete_hook id : keeps can_fire (Hooks.delete_webhook id).
Proof.
  apply keeps_call. intros db [[H1 H2 H3 H4 H5 H6 H7] He Hc Hw]. cbn [fst].
  assert (Hleft : forall i, i ∈ webhook_id <$> webhooks db -> i <> id ->
    i ∈ webhook_id <$> List.filter (fun w => negb (webhook_id w ≟ id)) (webhooks db)).
  { intros i (w & -> & Hin)%list_elem_of_fmap Hne. apply list_elem_of_fmap. exists w. split; [done|].
    apply elem_of_lfilter. split; [done|]. by rewrite bool_decide_false. }
  assert (Hkept : forall {A} (f : A -> uuid) (l : list A) x,
    x ∈ List.filter (fun x => negb (f x ≟ id)) l -> x ∈ l /\ f x <> id).
  { intros A f l x Hx. apply elem_of_lfilter in Hx as [Hx Hb].
    apply negb_true_iff, bool_decide_eq_false in Hb. done. }
  split; [split| | |]; cbn [webhooks event_subscriptions class_subscriptions auth_links deliveries next_hook].
  - intros w [Hin _]%Hkept. by apply H1.
  - by apply NoDup_fmap_lfilter.
  - intros s [Hs Hne]%(Hkept _ fst). by apply Hleft; [apply H3|].
  - rewrite <-(list_fmap_id (List.filter _ _)). apply NoDup_fmap_lfilter. by rewrite list_fmap_id.
  - intros s [Hs Hne]%(Hkept _ class_webhook_id). by apply Hleft; [apply H5|].
  - intros s [Hs Hne]%(Hkept _ fst). by apply Hleft; [apply H6|].
  - intros d [Hd Hne]%(Hkept _ (fun d => delivered_to d.1)). by apply Hleft; [apply H7|].
  - intros s [Hs _]%(Hkept _ fst). by apply He.
  - intros s [Hs _]%(Hkept _ class_webhook_id). by apply Hc.
  - intros w [Hin _]%Hkept. by apply Hw.
Qed.

Lemma elem_of_replaced {A} id (rows : list (uuid * A)) new r :
  r ∈ replaced id rows new -> r ∈ rows \/ r.1 = id /\ exists xs, new = Some xs /\ r.2 ∈ xs.
Proof.
  destruct new as [xs|]; cbn [replaced]; [|by left]. intros [Hr|[Hid Hx]%elem_of_tagged]%elem_of_app.
  - apply elem_of_lfilter in Hr as [Hr _]. by left.
  - right. split; [done|]. by exists xs.
Qed.

Lemma NoDup_replaced {A} id (rows : list (uuid * A)) new :
  NoDup rows -> NoDup (default [] new) -> NoDup (replaced id rows new).
Proof.
  intros Hr Hn. destruct new as [xs|]; [|done]. apply NoDup_rows; [|done|].
  - rewrite <-(list_fmap_id (List.filter _ _)). apply NoDup_fmap_lfilter. by rewrite list_fmap_id.
  - intros r Hin. apply elem_of_lfilter in Hin as [_ Hb]. by apply negb_true_iff, bool_decide_eq_false in Hb.
Qed.

Lemma keeps_update_hook id u events headers :
  Forall known_event (default [] events) -> (forall v, uw_url u = Some v -> validate_url v = None) ->
  keeps can_fire (Hooks.update_webhook id u events headers).
Proof.
  intros Hev Hurl. apply keeps_call. intros db [Hr He Hc Hw].
  destruct (hook_of db id) as [w|] eqn:Ew; [|done]. apply hook_of_in in Ew as [Hwin Hwid].
  destruct (negb (is_none_or (uw_format u) (fun f => bool_decide (f ∈ FORMATS)))) eqn:Ef; [done|].
  apply negb_false_iff in Ef. destruct (rows_refused db _ _) eqn:E; [done|].
  apply rows_refused_none in E. destruct Hr as [H1 H2 H3 H4 H5 H6 H7]. cbn [fst].
  assert (Hids : webhook_id <$> ((fun w => if webhook_id w ≟ id then updated_hook u w else w) <$> webhooks db) =
    webhook_id <$> webhooks db).
  { rewrite <-list_fmap_compose. apply list_fmap_ext. intros _ v _. simpl. by case_bool_decide. }
  assert (Hid : id ∈ webhook_id <$> webhooks db) by (apply list_elem_of_fmap; by exists w).
  split; [split| | |]; cbn [with_hook_rows webhooks event_subscriptions class_subscriptions auth_links deliveries next_hook];
    rewrite ?Hids; try done.
  - intros v (v0 & -> & Hv)%list_elem_of_fmap. destruct (H1 v0 Hv) as (i & Hi & Hg).
    exists i. split; [lia|]. by case_bool_decide.
  - intros s [Hs|[-> _]]%elem_of_replaced; [by apply H3|done].
  - by apply NoDup_replaced.
  - intros s [Hs|[-> _]]%elem_of_replaced; [by apply H6|done].
  - intros s [Hs|(_ & xs & -> & Hs)]%elem_of_replaced; [by apply He|]. by eapply Forall_forall in Hev.
  - intros v (v0 & -> & Hv)%list_elem_of_fmap. pose proof (Hw v0 Hv) as [Hf Hu].
    case_bool_decide; [|done]. cbn [updated_hook format url]. split.
    + destruct (uw_format u) as [f|]; [|done]. by apply bool_decide_eq_true in Ef.
    + destruct (uw_url u) as [v|] eqn:Eu; [|done]. by apply Hurl.
Qed.

Lemma keeps_classes id subs :
  Forall (fun s => known_class s.1 s.2) subs -> keeps can_fire (replace_webhook_class_subscriptions id subs).
Proof.
  intros Hk. apply keeps_call. intros db [[H1 H2 H3 H4 H5 H6 H7] He Hc Hw].
  destruct (negb (forallb _ subs)); [done|]. destruct (negb (is_hook db id) && _) eqn:E; [done|]. cbn [fst].
  assert (Hin : forall s, s ∈ List.filter (fun s => negb (class_webhook_id s ≟ id)) (class_subscriptions db) ++
      ((fun s => {| class_webhook_id := id; class_category := s.1; min_severity := s.2 |}) <$> subs) ->
    s ∈ class_subscriptions db \/ class_webhook_id s = id /\ subs <> [] /\
      known_class (class_category s) (min_severity s)).
  { intros s [Hs|(x & -> & Hx)%list_elem_of_fmap]%elem_of_app.
    - apply elem_of_lfilter in Hs as [Hs _]. by left.
    - right. split_and!; [done|by intros ->; apply not_elem_of_nil in Hx|]. by eapply Forall_forall in Hk. }
  split; [split| | |]; try done; cbn [with_classes class_subscriptions webhooks].
  - intros s [Hs|(-> & Hne & _)]%Hin; [by apply H5|]. apply is_hook_id.
    apply andb_false_iff in E as [E|E]; [by apply negb_false_iff in E|]. by destruct subs.
  - intros s [Hs|(_ & _ & Hs)]%Hin; [by apply Hc|done].
Qed.

Lemma keeps_delivery now d : keeps can_fire (record_webhook_delivery now d).
Proof.
  apply keeps_call. intros db H. destruct (is_hook db (delivered_to d)) eqn:E; [|done].
  destruct H as [[H1 H2 H3 H4 H5 H6 H7] He Hc Hw]. split; [split| | |]; try done.
  intros d' [->|Hd]%elem_of_cons; [by apply is_hook_id|by apply H7].
Qed.

(** ** Every request keeps it *)

Definition hooks_ok (db : TrailDb) : Prop := can_fire (hooks db).

Lemma keeps_lift {A} (m : Faults.M HookDb DatabaseError A) : keeps can_fire m -> keeps hooks_ok (lift m).
Proof. intros Hm. by apply keeps_map_err, (keeps_within _ can_fire). Qed.

Lemma keeps_hook_call {A} (m : Faults.M HookDb DatabaseError A) : keeps can_fire m -> keeps hooks_ok (hook_call m).
Proof. intros Hm. by apply (keeps_within _ can_fire). Qed.

Lemma keeps_log_event now event user actor data : keeps hooks_ok (Alerts.log_event now event user actor data).
Proof.
  unfold Alerts.log_event, Trail.create_audit_log. apply keeps_bind; [|intros; apply keeps_ret]. apply keeps_attempt.
  apply keeps_bind; [by apply keeps_call|]. intros r. apply keeps_bind; [|intros; apply keeps_ret].
  by apply triple_effect.
Qed.

Lemma keeps_hook_log now event actor data : keeps hooks_ok (audit now event actor data).
Proof. apply keeps_map_err, keeps_log_event. Qed.

Lemma keeps_check {A} e (k : unit -> H A) :
  (e = None -> keeps hooks_ok (k tt)) -> keeps hooks_ok (check e ≫= k).
Proof.
  intros Hk. destruct e as [e|]; [by intros db fs|]. apply keeps_bind; [apply keeps_ret|]. intros [].
  by apply Hk.
Qed.

Lemma keeps_result {A B} (r : B + ApiError) (k : B -> H A) :
  (forall x, r = inl x -> keeps hooks_ok (k x)) -> keeps hooks_ok (of_result r ≫= k).
Proof.
  intros Hk. destruct r as [x|e]; [|by intros db fs]. intros db fs Hi Hp. by apply (Hk x).
Qed.

Lemma validated_events events : validate_event_types events = None -> Forall known_event events.
Proof.
  intros Hv. apply Forall_forall. intros e He. unfold validate_event_types in Hv.
  destruct (find_first _ events) eqn:E; [done|]. rewrite find_first_None in E. specialize (E e He).
  apply negb_false_iff, bool_decide_eq_true in E. apply list_elem_of_fmap in E as (kind & -> & _). by exists kind.
Qed.

Lemma validated_class s row : validate_class s = inl row -> known_class row.1 row.2.
Proof.
  unfold validate_class. destruct (AuditClass.Severity.parse _) as [sev|]; [|done].
  destruct (named_category _) as [c|].
  - destruct (AuditClass.Category.parse c) as [cat|]; [|done]. intros [= <-]. split; [right; by exists cat|by exists sev].
  - intros [= <-]. split; [by left|by exists sev].
Qed.

Lemma validated_classes subs rows :
  validate_class_subscriptions subs = inl rows -> Forall (fun s => known_class s.1 s.2) rows.
Proof.
  revert rows. induction subs as [|s subs IH]; intros rows; cbn [validate_class_subscriptions]; [by intros [= <-]|].
  destruct (validate_class s) as [row|e] eqn:E; [|done]. destruct (validate_class_subscriptions subs) as [rest|e]; [|done].
  intros [= <-]. constructor; [by eapply validated_class|by apply IH].
Qed.

#[local] Hint Resolve keeps_lift keeps_hook_log keeps_create_header keeps_update_header keeps_delete_header
  keeps_delete_hook keeps_select : css.

Lemma keeps_response w : keeps hooks_ok (to_webhook_response w).
Proof. unfold to_webhook_response. run_keeps; apply keeps_lift, keeps_select. Qed.

Lemma keeps_create_webhook now admin secret req : keeps hooks_ok (create_webhook now admin secret req).
Proof.
  apply keeps_unless. apply keeps_check. intros Hurl. apply keeps_check. intros Hev%validated_events.
  apply keeps_result. intros rows Hrows%validated_classes. apply keeps_result. intros fmt Hf.
  apply keeps_bind; [by apply keeps_lift, keeps_create_hook|]. intros w.
  apply keeps_bind; [by apply keeps_lift, keeps_classes|]. intros _.
  apply keeps_bind; [apply keeps_hook_log|]. intros _. apply keeps_response.
Qed.

Lemma keeps_optional {A B C} (f : A -> B + ApiError) x (k : option B -> H C) :
  (forall y, match x, y with Some x, Some y => f x = inl y | None, None => True | _, _ => False end ->
     keeps hooks_ok (k y)) -> keeps hooks_ok (optional f x ≫= k).
Proof.
  intros Hk. destruct x as [x|]; cbn [optional]; [|intros db fs Hi Hp; by apply (Hk None)].
  intros db fs Hi Hp. destruct (f x) as [y|e] eqn:E; [|done]. by apply (Hk (Some y)).
Qed.

Lemma keeps_update_webhook now admin id req : keeps hooks_ok (update_webhook now admin id req).
Proof.
  apply keeps_check. intros Hurl. apply keeps_check. intros Hev. apply keeps_optional. intros subs Hsubs.
  apply keeps_optional. intros fmt _. apply keeps_bind.
  { apply keeps_lift, keeps_update_hook.
    - destruct (ur_event_types req) as [events|]; [by apply validated_events|done].
    - intros v Hv. cbn [uw_url] in Hv. by rewrite Hv in Hurl. }
  intros w. apply keeps_bind.
  { destruct subs as [rows|]; [|apply keeps_ret]. apply keeps_lift, keeps_classes.
    destruct (ur_class_subscriptions req) as [cs|]; [by apply validated_classes in Hsubs|done]. }
  intros _. apply keeps_bind; [apply keeps_hook_log|]. intros _. apply keeps_response.
Qed.

(** A delivery only adds to the record of deliveries. *)
Lemma keeps_record_row now d : keeps hooks_ok (record now d).
Proof. apply keeps_bind; [apply keeps_attempt, keeps_hook_call, keeps_delivery|]. intros r. apply keeps_ret. Qed.

Lemma keeps_attempts site_debug post now w payload event log req n tries last :
  keeps hooks_ok (attempts site_debug post now w payload event log req n tries last).
Proof.
  revert n last. induction tries as [|tries IH]; intros n last; cbn [attempts]; [apply keeps_ret|].
  destruct (outcome _ _ _ _ _ _ _) as [row error]. apply keeps_bind; [apply keeps_record_row|].
  intros [|]; cbn [negb]; [|apply keeps_ret]. destruct error; [apply IH|apply keeps_ret].
Qed.

Lemma keeps_deliver site_debug lookup_host post now w payload event log :
  keeps hooks_ok (deliver site_debug lookup_host post now w payload event log).
Proof.
  unfold deliver. destruct (to_vec payload); [|apply keeps_ret]. apply keeps_bind.
  { apply keeps_bind; [|intros; apply keeps_ret]. apply keeps_attempt, keeps_hook_call, keeps_select. }
  intros hs. destruct (resolve_and_screen lookup_host (url w)); [apply keeps_attempts|].
  apply keeps_bind; [apply keeps_record_row|]. intros _. apply keeps_ret.
Qed.

Lemma keeps_deliver_all site_debug lookup_host post now r ws :
  keeps hooks_ok (deliver_all site_debug lookup_host post now r ws).
Proof.
  induction ws as [|w ws IH]; cbn [deliver_all]; [apply keeps_ret|].
  apply keeps_bind; [apply keeps_deliver|]. done.
Qed.

Lemma keeps_handle_event site_debug lookup_host post now r :
  keeps hooks_ok (handle_event site_debug lookup_host post now r).
Proof.
  apply keeps_bind; [|intros; apply keeps_deliver_all]. unfold receivers. apply keeps_bind.
  { apply keeps_attempt, keeps_hook_call, keeps_select. }
  intros [ws|e]; [|apply keeps_ret]. destruct (AuditClass.parse _); [|apply keeps_ret].
  apply keeps_bind; [apply keeps_attempt, keeps_hook_call, keeps_select|]. intros; apply keeps_ret.
Qed.

Lemma keeps_responses ws : keeps hooks_ok (responses ws).
Proof.
  induction ws as [|w ws IH]; cbn [responses]; [apply keeps_ret|].
  apply keeps_bind; [apply keeps_response|]. intros r. apply keeps_bind; [done|]. intros; apply keeps_ret.
Qed.

Lemma keeps_get_hook id : keeps can_fire (Hooks.get_webhook id).
Proof. by apply keeps_call. Qed.

Lemma keeps_forget {A} (m : H A) : keeps hooks_ok m -> keeps hooks_ok (forget m).
Proof. intros Hm. apply keeps_bind; [done|]. intros; apply keeps_ret. Qed.

#[local] Hint Resolve keeps_create_webhook keeps_update_webhook keeps_response keeps_responses
  keeps_get_hook keeps_deliver keeps_forget : css.

Lemma keeps_serve site_debug lookup_host post now admin r :
  keeps hooks_ok (serve site_debug lookup_host post now admin r).
Proof.
  destruct r; cbn [serve];
    unfold create_auth_header, update_auth_header, delete_auth_header, list_auth_headers, delete_webhook,
      test_webhook, get_webhook, list_webhooks, list_deliveries, list_webhook_auth_headers,
      count_webhook_auth_header_usage, Hooks.list_webhooks, list_webhook_deliveries;
    try apply keeps_forget; try solve [auto with css]; repeat apply keeps_unless; run_keeps;
    repeat apply keeps_unless; run_keeps.
Qed.

(** Requests and dispatched rows in any order, with whatever faults they meet, from no
    webhooks at all. *)
Inductive registered : TrailDb -> Prop :=
  | none_yet db : webhooks (hooks db) = [] -> event_subscriptions (hooks db) = [] ->
      class_subscriptions (hooks db) = [] -> auth_links (hooks db) = [] -> deliveries (hooks db) = [] ->
      registered db
  | served site_debug lookup_host post now admin r db fs : registered db ->
      registered (serve site_debug lookup_host post now admin r (db, fs)).1.1
  | dispatched site_debug lookup_host post now r db fs : registered db ->
      registered (handle_event site_debug lookup_host post now r (db, fs)).1.1
  | elsewhere db db' : registered db -> hooks db' = hooks db -> registered db'.

Lemma registered_ok db : registered db -> hooks_ok db.
Proof.
  induction 1 as [db Hw He Hc Hl Hd|site_debug lookup_host post now admin r db fs _ IH
    |site_debug lookup_host post now r db fs _ IH|db db' _ IH H].
  - assert (forall {A} (x : A), x ∉ []) as Hno by (intros A x Hx; by apply not_elem_of_nil in Hx).
    split; [split| | |]; rewrite ?Hw, ?He, ?Hc, ?Hl, ?Hd; try (intros x Hx; by apply Hno in Hx); constructor.
  - pose proof (keeps_serve site_debug lookup_host post now admin r db fs IH Logic.I) as Hk.
    destruct (serve _ _ _ _ _ _ _) as [[db' fs'] res]. apply Hk.
  - pose proof (keeps_handle_event site_debug lookup_host post now r db fs IH Logic.I) as Hk.
    destruct (handle_event _ _ _ _ _ _) as [[db' fs'] res]. apply Hk.
  - unfold hooks_ok. by rewrite H.
Qed.

(** C40. Whatever is registered can fire: after any requests and deliveries, whatever faults
    they met, each subscription is of a webhook that is there, to a kind of event the
    server has, or to a severity and a category it has; each webhook has a format that
    can be rendered and a URL that was checked, and names an event once. *)
Theorem whatever_is_registered_can_fire db :
  registered db ->
  (forall s, s ∈ event_subscriptions (hooks db) ->
    s.1 ∈ webhook_id <$> webhooks (hooks db) /\ exists kind, AuditClass.parse s.2 = Some kind) /\
  (forall c, c ∈ class_subscriptions (hooks db) ->
    class_webhook_id c ∈ webhook_id <$> webhooks (hooks db) /\
    (exists sev, AuditClass.Severity.parse (min_severity c) = Some sev) /\
    (class_category c = None \/
     exists cat s, class_category c = Some s /\ AuditClass.Category.parse s = Some cat)) /\
  (forall w, w ∈ webhooks (hooks db) -> format w ∈ FORMATS /\ validate_url (url w) = None) /\
  referential (hooks db).
Proof.
  intros [Hr He Hc Hw]%registered_ok. split_and!; [| |exact Hw|exact Hr].
  - intros s Hs. split; [by apply Hr|]. destruct (He s Hs) as [kind ->]. exists kind. apply AuditClass.parse_as_str.
  - intros c Hin. destruct (Hc c Hin) as [Hcat [sev Hsev]]. split_and!; [by apply Hr| |].
    + exists sev. rewrite Hsev. apply AuditClass.severity_parse_as_str.
    + destruct Hcat as [?|[cat ?]]; [by left|]. right. exists cat, (AuditClass.Category.as_str cat).
      by rewrite AuditClass.category_parse_as_str.
Qed.

End WebhookApi.
End WebhookApi.
