(* ===== verification/Accounts.v ===== *)
(** * The tables behind logging in ([server/src/database.rs], accounts)

    The columns of [users] that say who somebody is, their addresses, second factors
    and single-use links, with the [DatabaseManager] methods on them, above the audit
    trail.  The triggers that mirror a primary address onto its user are part of the
    statements that fire them; lengths of names are not limited. *)
From Stdlib Require Import QArith.
From S2P Require Import Prelude Text Rbac Schedules Access Faults Money AuditLog Database Power Training GuardStore Hooks Trail.
Import Text Rbac Faults Money Audit Database Power Training GuardStore Hooks Trail.

Module Accounts.

#[local] Open Scope Z_scope.

(** [str::to_lowercase], and PostgreSQL's [lower]: two tables of the same letters. *)
Class CaseFold := {
  to_lowercase : string -> string;
  lower : string -> string;
}.

Section Accounts.
Context {U : Uuid} {IS : IdSource} {JT : JsonbText} {CF : CaseFold}.

(** ** Rows *)

(** The columns of [users] beside those of [Database.User]. *)
Record Account := {
  username : string;
  email : string;
  password_hash : string;
  created_at : instant;
  account_updated_at : instant;
  meta : json;
  mfa_enrolled_at : option instant;
  email_verified_at : option instant;
  token_version : Z;
}.

(** A row of [users]. *)
Record AppUser := {
  person : User;
  account : Account;
}.

Definition uid_of (u : AppUser) : uuid := user_id (person u).

Record NewUser := {
  nu_username : string;
  nu_email : string;
  nu_password_hash : string;
  nu_full_name : string;
  nu_is_active : option bool;
  nu_profile : option json;
  nu_meta : option json;
}.

Definition new_user (name mail hash full : string) : NewUser := {|
  nu_username := name; nu_email := mail; nu_password_hash := hash; nu_full_name := full;
  nu_is_active := Some true; nu_profile := Some (JObj []); nu_meta := Some (JObj []) |}.

Record UpdateUser := {
  up_username : option string;
  up_email : option string;
  up_password_hash : option string;
  up_full_name : option string;
  up_is_active : option bool;
  up_profile : option json;
  up_meta : option json;
}.

Record UserEmail := {
  ue_id : uuid;
  ue_user_id : uuid;
  ue_email : string;
  is_primary : bool;
  verified_at : option instant;
  ue_created_at : instant;
}.

Record UserMfaTotp := {
  totp_id : uuid;
  totp_user_id : uuid;
  secret_base32 : string;
  confirmed_at : option instant;
  totp_created_at : instant;
  totp_updated_at : instant;
  last_used_step : option Z;
  totp_label : string;
}.

Record NewUserMfaWebauthn := {
  wa_user_id : uuid;
  credential_id : string;
  passkey : json;
  wa_label : string;
}.

Record UserMfaWebauthn := {
  wa_id : uuid;
  wa_row : NewUserMfaWebauthn;
  wa_created_at : instant;
  wa_last_used_at : option instant;
}.

Record UserMfaRecoveryCode := {
  code_id : uuid;
  code_user_id : uuid;
  code_hash : string;
  code_used_at : option instant;
}.

Record PasswordResetToken := {
  prt_user_id : uuid;
  prt_token_hash : string;
  prt_expires_at : instant;
  prt_used_at : option instant;
}.

Record EmailVerificationToken := {
  evt_user_id : uuid;
  evt_token_hash : string;
  evt_expires_at : instant;
  evt_used_at : option instant;
  evt_user_email_id : option uuid;
}.

(** ** Tables *)

Record Factors := {
  totps : list UserMfaTotp;
  webauthns : list UserMfaWebauthn;
  recovery_codes : list UserMfaRecoveryCode;
}.

Record AccountDb := {
  trail : TrailDb;
  accounts : gmap uuid Account;
  addresses : list UserEmail;
  factors : Factors;
  reset_tokens : list PasswordResetToken;
  verification_tokens : list EmailVerificationToken;
  next_row : nat;
}.

Definition with_trail (t : TrailDb) (db : AccountDb) : AccountDb := {|
  trail := t; accounts := accounts db; addresses := addresses db; factors := factors db;
  reset_tokens := reset_tokens db; verification_tokens := verification_tokens db;
  next_row := next_row db |}.

#[export] Instance account_trail : Part AccountDb TrailDb :=
  {| part := trail; put := with_trail; part_put := ltac:(done);
     put_part := ltac:(by intros []); put_put := ltac:(done) |}.

Definition with_accounts (f : gmap uuid Account -> gmap uuid Account) (db : AccountDb)
    : AccountDb := {|
  trail := trail db; accounts := f (accounts db); addresses := addresses db;
  factors := factors db; reset_tokens := reset_tokens db;
  verification_tokens := verification_tokens db; next_row := next_row db |}.

Definition with_addresses (n : nat) (f : list UserEmail -> list UserEmail) (db : AccountDb)
    : AccountDb := {|
  trail := trail db; accounts := accounts db; addresses := f (addresses db);
  factors := factors db; reset_tokens := reset_tokens db;
  verification_tokens := verification_tokens db; next_row := (n + next_row db)%nat |}.

Definition with_factors (n : nat) (f : Factors -> Factors) (db : AccountDb) : AccountDb := {|
  trail := trail db; accounts := accounts db; addresses := addresses db;
  factors := f (factors db); reset_tokens := reset_tokens db;
  verification_tokens := verification_tokens db; next_row := (n + next_row db)%nat |}.

Definition with_resets (f : list PasswordResetToken -> list PasswordResetToken)
    (db : AccountDb) : AccountDb := {|
  trail := trail db; accounts := accounts db; addresses := addresses db;
  factors := factors db; reset_tokens := f (reset_tokens db);
  verification_tokens := verification_tokens db; next_row := next_row db |}.

Definition with_verifications
    (f : list EmailVerificationToken -> list EmailVerificationToken) (db : AccountDb)
    : AccountDb := {|
  trail := trail db; accounts := accounts db; addresses := addresses db;
  factors := factors db; reset_tokens := reset_tokens db;
  verification_tokens := f (verification_tokens db); next_row := next_row db |}.

Definition with_totps (f : list UserMfaTotp -> list UserMfaTotp) (fs : Factors) : Factors := {|
  totps := f (totps fs); webauthns := webauthns fs; recovery_codes := recovery_codes fs |}.
Definition with_webauthns (f : list UserMfaWebauthn -> list UserMfaWebauthn) (fs : Factors)
    : Factors := {|
  totps := totps fs; webauthns := f (webauthns fs); recovery_codes := recovery_codes fs |}.
Definition with_codes (f : list UserMfaRecoveryCode -> list UserMfaRecoveryCode) (fs : Factors)
    : Factors := {|
  totps := totps fs; webauthns := webauthns fs; recovery_codes := f (recovery_codes fs) |}.

(** [UPDATE ... WHERE p SET f], and whether it changed a row. *)
Definition update_where {A} (p : A -> bool) (f : A -> A) (l : list A) : list A :=
  (fun x => if p x then f x else x) <$> l.
Definition delete_where {A} (p : A -> bool) (l : list A) : list A :=
  List.filter (fun x => negb (p x)) l.

Abbreviation M := (Faults.M AccountDb DatabaseError).

Definition trail_call {A} (m : Faults.M TrailDb DatabaseError A) : M A := within (P := TrailDb) m.
Definition base_of (db : AccountDb) : Db := money_of (guard (trail db)).
Definition on_base (f : Db -> Db) (db : AccountDb) : AccountDb :=
  let g := guard (trail db) in
  let t := training g in
  let p := power t in
  with_trail (with_guard (with_training (with_power (with_base (f (base p)) p) t) g) (trail db)) db.
Definition base_call {A} (m : Faults.M Db DatabaseError A) : M A :=
  trail_call (guard_call (money_call m)).

(** ** Users *)

(** The row under its own key. *)
Definition user_of (db : AccountDb) (uid : uuid) : option AppUser :=
  u ← users (base_of db) !! uid;
  a ← accounts db !! uid;
  if user_id u ≟ uid then Some {| person := u; account := a |} else None.

Definition find_user_by_id (uid : uuid) : M (option AppUser) := select (fun db => user_of db uid).

Definition named (db : AccountDb) (name : string) : option uuid :=
  fst <$> find_first (fun ua => username ua.2 ≟ name) (map_to_list (accounts db)).

Definition find_user_by_username (name : string) : M (option AppUser) :=
  select (fun db => uid ← named db name; user_of db uid).

Definition address_row (db : AccountDb) (address : string) : option UserEmail :=
  find_first (fun e => lower (ue_email e) ≟ to_lowercase (trim address)) (addresses db).

Definition find_user_by_email (address : string) : M (option AppUser) :=
  select (fun db => e ← address_row db address; user_of db (ue_user_id e)).

(** [user_emails_mirror_primary], after the row [e] was written. *)
Definition mirror (e : UserEmail) (db : AccountDb) : AccountDb :=
  if is_primary e
  then with_accounts (alter (fun a => {|
         username := username a; email := ue_email e; password_hash := password_hash a;
         created_at := created_at a; account_updated_at := account_updated_at a;
         meta := meta a; mfa_enrolled_at := mfa_enrolled_at a;
         email_verified_at := verified_at e; token_version := token_version a |})
         (ue_user_id e)) db
  else db.

Definition mirror_all (es : list UserEmail) (db : AccountDb) : AccountDb :=
  foldl (fun db e => mirror e db) db es.

(** [INSERT INTO user_emails]: its keys, its unique indexes, its trigger. *)
Definition insert_address (now : instant) (uid : uuid) (address : string) (primary : bool)
    (db : AccountDb) : AccountDb * (UserEmail + DatabaseError) :=
  if negb (is_some (accounts db !! uid)) then (db, inr ForeignKeyViolation)
  else if existsb (fun e => lower (ue_email e) ≟ lower address) (addresses db) ||
          primary && existsb (fun e => is_primary e && (ue_user_id e ≟ uid)) (addresses db)
  then (db, inr UniqueViolation)
  else let e := {| ue_id := gen_random_uuid (next_row db); ue_user_id := uid;
                   ue_email := address; is_primary := primary; verified_at := None;
                   ue_created_at := now |} in
       (mirror e (with_addresses 1 (fun es => es ++ [e]) db), inl e).

(** [sync_user_roles_to]. *)
Definition sync_user_roles_to (uid : uuid) (name : string) (db : Db) : Db :=
  with_user_roles (fun rows =>
    delete_where (fun ur => ur.1 ≟ uid) rows ++
    match find_first (fun r => role_name r ≟ name) (roles db) with
    | Some r => [(uid, role_id r)]
    | None => []
    end) db.

(** The row, then the address its insert trigger seeds, then its role. *)
Definition create_user (now : instant) (n : NewUser) (role : string) : M AppUser :=
  call (fun db =>
    let uid := gen_random_uuid (next_row db) in
    if is_some (users (base_of db) !! uid) || is_some (accounts db !! uid) ||
       existsb (fun ua => (username ua.2 ≟ nu_username n) || (lower (email ua.2) ≟ lower (nu_email n)))
         (map_to_list (accounts db))
    then (db, inr UniqueViolation)
    else
      let a := {| username := nu_username n; email := nu_email n;
                  password_hash := nu_password_hash n; created_at := now;
                  account_updated_at := now; meta := default (JObj []) (nu_meta n);
                  mfa_enrolled_at := None; email_verified_at := None; token_version := 0 |} in
      let u := {| user_id := uid; full_name := nu_full_name n;
                  is_active := default true (nu_is_active n); membership_next_due_at := None;
                  profile := default (JObj []) (nu_profile n) |} in
      let db1 := with_addresses 1 (fun es => es)
        (with_accounts <[uid := a]> (on_base (with_users <[uid := u]>) db)) in
      match insert_address now uid (nu_email n) true db1 with
      | (db2, inl _) => (on_base (sync_user_roles_to uid role) db2,
                         inl {| person := u; account := a |})
      | (_, inr e) => (db, inr e)
      end).

(** [users_email_is_a_mirror]: a change of the mirrored columns is refused. *)
Definition refused_email (uid : uuid) (a : Account) (wanted : option string) (db : AccountDb)
    : bool :=
  match wanted with
  | None => false
  | Some w => negb (w ≟ email a) &&
      negb (existsb (fun e => is_primary e && (ue_user_id e ≟ uid) && (ue_email e ≟ w) &&
                              (verified_at e ≟ email_verified_at a)) (addresses db))
  end.

Definition updated_user (now : instant) (up : UpdateUser) (u : AppUser) : AppUser := {|
  person := {| user_id := user_id (person u); full_name := default (full_name (person u)) (up_full_name up);
             is_active := default (is_active (person u)) (up_is_active up);
             membership_next_due_at := membership_next_due_at (person u);
             profile := default (profile (person u)) (up_profile up) |};
  account := let a := account u in {|
    username := default (username a) (up_username up); email := default (email a) (up_email up);
    password_hash := default (password_hash a) (up_password_hash up);
    created_at := created_at a; account_updated_at := now;
    meta := default (meta a) (up_meta up); mfa_enrolled_at := mfa_enrolled_at a;
    email_verified_at := email_verified_at a;
    token_version := token_version a + (if is_some (up_password_hash up) then 1 else 0) |} |}.

Definition set_user (uid : uuid) (u : AppUser) (db : AccountDb) : AccountDb :=
  with_accounts <[uid := account u]> (on_base (with_users <[uid := person u]>) db).

(** A new password raises [token_version] in the same transaction; the column is 32
    bits wide and the database refuses to leave it. *)
Definition update_user (now : instant) (uid : uuid) (up : UpdateUser) : M AppUser :=
  call (fun db =>
    match user_of db uid with
    | None => (db, inr NotFound)
    | Some u =>
        let u' := updated_user now up u in
        if existsb (fun ua => negb (ua.1 ≟ uid) && (username ua.2 ≟ username (account u')))
             (map_to_list (accounts db)) then (db, inr UniqueViolation)
        else if refused_email uid (account u) (up_email up) db then (db, inr CheckViolation)
        else if 2 ^ 31 <=? token_version (account u') then (db, inr UnknownFault)
        else (set_user uid u' db, inl u')
    end).

Definition deactivate_user (now : instant) (uid : uuid) : M AppUser :=
  call (fun db =>
    match user_of db uid with
    | None => (db, inr NotFound)
    | Some u =>
        let u' := updated_user now {| up_username := None; up_email := None;
          up_password_hash := None; up_full_name := None; up_is_active := Some false;
          up_profile := None; up_meta := None |} u in
        (set_user uid u' db, inl u')
    end).

(** ** Addresses *)

Definition addresses_of (db : AccountDb) (uid : uuid) : list UserEmail :=
  let own := sort_by (fun a b => ue_created_at a <=? ue_created_at b)
    (List.filter (fun e => ue_user_id e ≟ uid) (addresses db)) in
  List.filter is_primary own ++ List.filter (fun e => negb (is_primary e)) own.

Definition list_user_emails (uid : uuid) : M (list UserEmail) :=
  select (fun db => addresses_of db uid).

Definition is_address (uid eid : uuid) (e : UserEmail) : bool :=
  (ue_user_id e ≟ uid) && (ue_id e ≟ eid).

Definition get_user_email (uid eid : uuid) : M (option UserEmail) :=
  select (fun db => find_first (is_address uid eid) (addresses db)).

Definition find_user_email (address : string) : M (option UserEmail) :=
  select (fun db => address_row db address).

(** A claim on an address that nobody confirmed in time. *)
Definition stale_claim (address : string) (stale_before : instant) (e : UserEmail) : bool :=
  (lower (ue_email e) ≟ to_lowercase (trim address)) && negb (is_some (verified_at e)) &&
  negb (is_primary e) && (ue_created_at e <? stale_before).

(** The tokens that name an address go with it. *)
Definition drop_addresses (p : UserEmail -> bool) (db : AccountDb) : AccountDb :=
  let gone := ue_id <$> List.filter p (addresses db) in
  with_verifications (delete_where (fun t =>
      is_some_and (evt_user_email_id t) (fun eid => bool_decide (eid ∈ gone))))
    (with_addresses 0 (delete_where p) db).

(** A transaction: an error leaves the tables as they were. *)
Definition transaction {A} (f : AccountDb -> AccountDb * (A + DatabaseError)) : M A :=
  call (fun db => match f db with (db', inl x) => (db', inl x) | (_, inr e) => (db, inr e) end).

Definition add_user_email (now : instant) (uid : uuid) (address : string) (stale_before : instant)
    : M UserEmail :=
  transaction (fun db =>
    insert_address now uid (trim address) false
      (drop_addresses (stale_claim address stale_before) db)).

Definition remove_user_email (uid eid : uuid) : M unit :=
  call (fun db =>
    let p e := is_address uid eid e && negb (is_primary e) in
    if existsb p (addresses db) then (drop_addresses p db, inl tt) else (db, inr NotFound)).

Definition set_primary (b : bool) (e : UserEmail) : UserEmail := {|
  ue_id := ue_id e; ue_user_id := ue_user_id e; ue_email := ue_email e; is_primary := b;
  verified_at := verified_at e; ue_created_at := ue_created_at e |}.

(** [UPDATE user_emails SET f WHERE p], and the trigger on the rows it wrote. *)
Definition update_addresses (p : UserEmail -> bool) (f : UserEmail -> UserEmail)
    (db : AccountDb) : AccountDb :=
  mirror_all (f <$> List.filter p (addresses db)) (with_addresses 0 (update_where p f) db).

Definition RollbackTransaction : DatabaseError := OtherError "RollbackTransaction".

(** The old primary steps down, then the other, confirmed, takes its place. *)
Definition set_primary_user_email (uid eid : uuid) : M string :=
  call (fun db =>
    match find_first (is_address uid eid) (addresses db) with
    | None => (db, inr NotFound)
    | Some target =>
        if negb (is_some (verified_at target)) then (db, inr RollbackTransaction)
        else
          let is_old e := (ue_user_id e ≟ uid) && is_primary e in
          match find_first is_old (addresses db) with
          | None => (db, inr NotFound)
          | Some old =>
              (update_addresses (fun e => ue_id e ≟ eid) (set_primary true)
                 (update_addresses is_old (set_primary false) db), inl (ue_email old))
          end
    end).

(** The new address takes the old one's place, unconfirmed. *)
Definition replace_primary_user_email (now : instant) (uid : uuid) (address : string)
    (stale_before : instant) : M UserEmail :=
  transaction (fun db =>
    let db := drop_addresses (stale_claim address stale_before) db in
    let is_old e := (ue_user_id e ≟ uid) && is_primary e in
    if existsb is_old (addresses db)
    then insert_address now uid (trim address) true (drop_addresses is_old db)
    else (db, inr NotFound)).

Definition verified (now : instant) (e : UserEmail) : UserEmail := {|
  ue_id := ue_id e; ue_user_id := ue_user_id e; ue_email := ue_email e;
  is_primary := is_primary e; verified_at := Some now; ue_created_at := ue_created_at e |}.

Definition mark_email_verified (now : instant) (uid : uuid) (eid : option uuid) : M unit :=
  call (fun db =>
    let p := match eid with
             | Some eid => is_address uid eid
             | None => fun e => (ue_user_id e ≟ uid) && is_primary e
             end in
    if existsb p (addresses db) then (update_addresses p (verified now) db, inl tt)
    else (db, inr NotFound)).

(** ** Single-use links *)

Definition spend_reset (now : instant) (t : PasswordResetToken) : PasswordResetToken := {|
  prt_user_id := prt_user_id t; prt_token_hash := prt_token_hash t;
  prt_expires_at := prt_expires_at t; prt_used_at := Some now |}.

Definition create_password_reset_token (now : instant) (uid : uuid) (hash : string)
    (expiry : instant) : M unit :=
  call (fun db =>
    if negb (is_some (accounts db !! uid)) then (db, inr ForeignKeyViolation)
    else if existsb (fun t => prt_token_hash t ≟ hash) (reset_tokens db)
    then (db, inr UniqueViolation)
    else (with_resets (fun ts =>
            update_where (fun t => (prt_user_id t ≟ uid) && negb (is_some (prt_used_at t)))
              (spend_reset now) ts ++
            [{| prt_user_id := uid; prt_token_hash := hash; prt_expires_at := expiry;
                prt_used_at := None |}]) db, inl tt)).

Definition reset_live (now : instant) (hash : string) (t : PasswordResetToken) : bool :=
  (prt_token_hash t ≟ hash) && negb (is_some (prt_used_at t)) && (now <? prt_expires_at t).

Definition claim_password_reset_token (now : instant) (hash : string) : M (option uuid) :=
  call (fun db =>
    match find_first (reset_live now hash) (reset_tokens db) with
    | None => (db, inl None)
    | Some t => (with_resets (update_where (reset_live now hash) (spend_reset now)) db,
                 inl (Some (prt_user_id t)))
    end).

Definition spend_verification (now : instant) (t : EmailVerificationToken)
    : EmailVerificationToken := {|
  evt_user_id := evt_user_id t; evt_token_hash := evt_token_hash t;
  evt_expires_at := evt_expires_at t; evt_used_at := Some now;
  evt_user_email_id := evt_user_email_id t |}.

Definition create_email_verification_token (now : instant) (uid : uuid) (eid : option uuid)
    (hash : string) (expiry : instant) : M unit :=
  call (fun db =>
    if negb (is_some (accounts db !! uid)) ||
       is_some_and eid (fun eid => negb (existsb (fun e => ue_id e ≟ eid) (addresses db)))
    then (db, inr ForeignKeyViolation)
    else if existsb (fun t => evt_token_hash t ≟ hash) (verification_tokens db)
    then (db, inr UniqueViolation)
    else (with_verifications (fun ts =>
            update_where (fun t => (evt_user_id t ≟ uid) && (evt_user_email_id t ≟ eid) &&
                                   negb (is_some (evt_used_at t))) (spend_verification now) ts ++
            [{| evt_user_id := uid; evt_token_hash := hash; evt_expires_at := expiry;
                evt_used_at := None; evt_user_email_id := eid |}]) db, inl tt)).

Definition verification_live (now : instant) (hash : string) (t : EmailVerificationToken) : bool :=
  (evt_token_hash t ≟ hash) && negb (is_some (evt_used_at t)) && (now <? evt_expires_at t).

Definition claim_email_verification_token (now : instant) (hash : string)
    : M (option (uuid * option uuid)) :=
  call (fun db =>
    match find_first (verification_live now hash) (verification_tokens db) with
    | None => (db, inl None)
    | Some t => (with_verifications (update_where (verification_live now hash)
                   (spend_verification now)) db,
                 inl (Some (evt_user_id t, evt_user_email_id t)))
    end).

(** ** Second factors *)

Definition is_confirmed (t : UserMfaTotp) : bool := is_some (confirmed_at t).

Definition totps_of (db : AccountDb) (uid : uuid) : list UserMfaTotp :=
  let own := sort_by (fun a b => totp_created_at a <=? totp_created_at b)
    (List.filter (fun t => totp_user_id t ≟ uid) (totps (factors db))) in
  List.filter is_confirmed own ++ List.filter (fun t => negb (is_confirmed t)) own.

Definition list_user_totp (uid : uuid) : M (list UserMfaTotp) := select (fun db => totps_of db uid).

(** An earlier setup in flight is dropped, a confirmed row never. *)
Definition begin_totp_setup (now : instant) (uid : uuid) (secret label : string) : M UserMfaTotp :=
  call (fun db =>
    if negb (is_some (accounts db !! uid)) then (db, inr ForeignKeyViolation)
    else
      let t := {| totp_id := gen_random_uuid (next_row db); totp_user_id := uid;
                  secret_base32 := secret; confirmed_at := None; totp_created_at := now;
                  totp_updated_at := now; last_used_step := None; totp_label := label |} in
      (with_factors 1 (with_totps (fun ts =>
         delete_where (fun t => (totp_user_id t ≟ uid) && negb (is_confirmed t)) ts ++ [t])) db,
       inl t)).

Definition is_totp (uid tid : uuid) (t : UserMfaTotp) : bool :=
  (totp_user_id t ≟ uid) && (totp_id t ≟ tid).

Definition confirmed (now : instant) (t : UserMfaTotp) : UserMfaTotp := {|
  totp_id := totp_id t; totp_user_id := totp_user_id t; secret_base32 := secret_base32 t;
  confirmed_at := Some now; totp_created_at := totp_created_at t; totp_updated_at := now;
  last_used_step := None; totp_label := totp_label t |}.

Definition used_at_step (now : instant) (step : Z) (t : UserMfaTotp) : UserMfaTotp := {|
  totp_id := totp_id t; totp_user_id := totp_user_id t; secret_base32 := secret_base32 t;
  confirmed_at := confirmed_at t; totp_created_at := totp_created_at t; totp_updated_at := now;
  last_used_step := Some step; totp_label := totp_label t |}.

(** [UPDATE user_mfa_totp SET f WHERE p]: no row is [NotFound]. *)
Definition update_totps (p : UserMfaTotp -> bool) (f : UserMfaTotp -> UserMfaTotp) : M unit :=
  call (fun db =>
    if existsb p (totps (factors db))
    then (with_factors 0 (with_totps (update_where p f)) db, inl tt)
    else (db, inr NotFound)).

Definition finalize_totp_confirmation (now : instant) (uid tid : uuid) : M unit :=
  update_totps (is_totp uid tid) (confirmed now).

Definition update_totp_last_used_step (now : instant) (tid : uuid) (step : Z) : M unit :=
  update_totps (fun t => totp_id t ≟ tid) (used_at_step now step).

Definition delete_user_totp (uid tid : uuid) : M unit :=
  call (fun db =>
    if existsb (is_totp uid tid) (totps (factors db))
    then (with_factors 0 (with_totps (delete_where (is_totp uid tid))) db, inl tt)
    else (db, inr NotFound)).

(** Newest first. *)
Definition webauthns_of (db : AccountDb) (uid : uuid) : list UserMfaWebauthn :=
  sort_by (fun a b => wa_created_at b <=? wa_created_at a)
    (List.filter (fun w => wa_user_id (wa_row w) ≟ uid) (webauthns (factors db))).

Definition list_user_webauthn (uid : uuid) : M (list UserMfaWebauthn) :=
  select (fun db => webauthns_of db uid).

Definition insert_user_webauthn (now : instant) (n : NewUserMfaWebauthn) : M UserMfaWebauthn :=
  call (fun db =>
    if negb (is_some (accounts db !! wa_user_id n)) then (db, inr ForeignKeyViolation)
    else if existsb (fun w => credential_id (wa_row w) ≟ credential_id n) (webauthns (factors db))
    then (db, inr UniqueViolation)
    else
      let w := {| wa_id := gen_random_uuid (next_row db); wa_row := n; wa_created_at := now;
                  wa_last_used_at := None |} in
      (with_factors 1 (with_webauthns (fun ws => ws ++ [w])) db, inl w)).

Definition is_webauthn (uid wid : uuid) (w : UserMfaWebauthn) : bool :=
  (wa_id w ≟ wid) && (wa_user_id (wa_row w) ≟ uid).

(** The number of rows deleted. *)
Definition delete_user_webauthn (uid wid : uuid) : M nat :=
  call (fun db =>
    (with_factors 0 (with_webauthns (delete_where (is_webauthn uid wid))) db,
     inl (length (List.filter (is_webauthn uid wid) (webauthns (factors db)))))).

Definition touch_user_webauthn_last_used (now : instant) (uid : uuid) (cred : string) : M unit :=
  call (fun db =>
    (with_factors 0 (with_webauthns (update_where
       (fun w => (wa_user_id (wa_row w) ≟ uid) && (credential_id (wa_row w) ≟ cred))
       (fun w => {| wa_id := wa_id w; wa_row := wa_row w; wa_created_at := wa_created_at w;
                    wa_last_used_at := Some now |}))) db, inl tt)).

Fixpoint code_rows (n : nat) (uid : uuid) (hashes : list string) : list UserMfaRecoveryCode :=
  match hashes with
  | [] => []
  | h :: hashes => {| code_id := gen_random_uuid n; code_user_id := uid; code_hash := h;
                      code_used_at := None |} :: code_rows (S n) uid hashes
  end.

Definition replace_user_recovery_codes (uid : uuid) (hashes : list string) : M unit :=
  call (fun db =>
    match hashes, accounts db !! uid with
    | _ :: _, None => (db, inr ForeignKeyViolation)
    | _, _ => (with_factors (length hashes) (with_codes (fun cs =>
                 delete_where (fun c => code_user_id c ≟ uid) cs ++
                 code_rows (next_row db) uid hashes)) db, inl tt)
    end).

Definition is_unused (c : UserMfaRecoveryCode) : bool := negb (is_some (code_used_at c)).

Definition unused_codes (db : AccountDb) (uid : uuid) : list UserMfaRecoveryCode :=
  List.filter (fun c => (code_user_id c ≟ uid) && is_unused c) (recovery_codes (factors db)).

Definition list_unused_recovery_codes (uid : uuid) : M (list UserMfaRecoveryCode) :=
  select (fun db => unused_codes db uid).

Definition count_unused_recovery_codes (uid : uuid) : M Z :=
  select (fun db => Z.of_nat (length (unused_codes db uid))).

Definition spent (now : instant) (c : UserMfaRecoveryCode) : UserMfaRecoveryCode := {|
  code_id := code_id c; code_user_id := code_user_id c; code_hash := code_hash c;
  code_used_at := Some now |}.

(** One statement: of two that present the same code only one finds it unused. *)
Definition mark_recovery_code_used (now : instant) (cid : uuid) : M unit :=
  call (fun db =>
    let p c := (code_id c ≟ cid) && is_unused c in
    if existsb p (recovery_codes (factors db))
    then (with_factors 0 (with_codes (update_where p (spent now))) db, inl tt)
    else (db, inr NotFound)).

Definition set_enrolled (whenever : option instant) (a : Account) : Account := {|
  username := username a; email := email a; password_hash := password_hash a;
  created_at := created_at a; account_updated_at := account_updated_at a; meta := meta a;
  mfa_enrolled_at := whenever; email_verified_at := email_verified_at a;
  token_version := token_version a |}.

Definition set_user_mfa_enrolled (uid : uuid) (whenever : option instant) : M unit :=
  call (fun db =>
    if is_some (accounts db !! uid)
    then (with_accounts (alter (set_enrolled whenever) uid) db, inl tt)
    else (db, inr NotFound)).

Definition reset_user_mfa (uid : uuid) : M unit :=
  call (fun db =>
    (with_accounts (alter (set_enrolled None) uid)
       (with_factors 0 (fun fs =>
          with_totps (delete_where (fun t => totp_user_id t ≟ uid))
            (with_webauthns (delete_where (fun w => wa_user_id (wa_row w) ≟ uid))
               (with_codes (delete_where (fun c => code_user_id c ≟ uid)) fs))) db), inl tt)).

Definition recompute_user_mfa_enrolled (now : instant) (uid : uuid) : M bool :=
  ts ← list_user_totp uid;
  ws ← list_user_webauthn uid;
  let enrolled := existsb is_confirmed ts || match ws with [] => false | _ => true end in
  _ ← set_user_mfa_enrolled uid (if enrolled then Some now else None);
  mret enrolled.

End Accounts.
End Accounts.
