(* ===== verification/Auth.v ===== *)
(** * Who a request is from ([server/src/auth.rs])

    Passwords, session tokens, the cookie that carries them, and the extractors that
    turn the headers of a request into a user.  Argon2 and the token format are
    interfaces; the epoch in a token and the one on the account decide together
    whether it still counts. *)
From Stdlib Require Import QArith Ascii.
From S2P Require Import Prelude Text Rbac Schedules Access Faults Money AuditLog Database Api Power Training GuardStore Hooks Trail Accounts.
Import Text Rbac Faults Money Audit Database Api Power Training GuardStore Hooks Trail Accounts.

Module Auth.

#[local] Open Scope Z_scope.

(** ** Configuration *)

Inductive MfaEnforcement : Type := OptIn | RequiredForStaff | RequiredForAll.

Record AuthMfaConfig := {
  mfa_enabled : bool;
  enforcement : MfaEnforcement;
  allow_totp : bool;
  allow_webauthn : bool;
  issuer : string;
  recovery_code_count : Z;
}.

Definition is_required_for (c : AuthMfaConfig) (is_staff : bool) : bool :=
  mfa_enabled c &&
  match enforcement c with
  | OptIn => false
  | RequiredForStaff => is_staff
  | RequiredForAll => true
  end.

Record AuthConfig := {
  jwt_secret : string;
  jwt_expiration_hours : Z;
  allow_registration : bool;
  require_email_verification : bool;
  password_min_length : Z;
  password_reset_enabled : bool;
  login_throttle_enabled : bool;
  login_throttle_attempts : Z;
  login_throttle_seconds : Z;
  cookie_secure : bool;
  mfa : AuthMfaConfig;
}.

Record RegistrationChallengeConfig := {
  challenge_enabled : bool;
  phrase : string;
  throttle_enabled : bool;
  throttle_attempts : Z;
  throttle_seconds : Z;
  terms_of_service_checkbox : bool;
  recaptcha_enabled : bool;
}.

Record InitialSetupConfig := {
  setup_enabled : bool;
  setup_admin_email : string;
}.

Record AppConfig := {
  auth : AuthConfig;
  registration_challenge : RegistrationChallengeConfig;
  initial_setup : InitialSetupConfig;
  email_enabled : bool;
  site_url : string;
  site_name : string;
}.

(** ** Argon2 *)
Class PasswordHashUtil := {
  (** The first argument is the salt drawn. *)
  hash_password : Z -> string -> AuthError + string;
  verify_password : string -> string -> AuthError + bool;
}.

Section Auth.
Context {U : Uuid} {IS : IdSource} {JT : JsonbText} {CF : CaseFold} {PH : PasswordHashUtil}.

Definition should_grant_admin_role (c : AppConfig) (address : string) : bool :=
  setup_enabled (initial_setup c) &&
  (to_lowercase address ≟ to_lowercase (setup_admin_email (initial_setup c))).

(** ** Session tokens *)

Record Claims := {
  sub : string;
  exp : Z;
  iat : Z;
  claims_user_id : uuid;
  claims_username : string;
  claims_token_version : Z;
}.

(** What is relied on of the format: a token that is accepted carries the claims it was
    made of.  The last argument is the instant of the check. *)
Class Jwt := {
  encode : Claims -> string -> option string;
  decode : string -> string -> instant -> option Claims;
  decode_encode : forall c s t now c',
    encode c s = Some t -> decode t s now = Some c' -> c' = c;
}.

Context {JW : Jwt}.

Definition timestamp (now : instant) : Z := now / seconds 1.

Definition claims_new (now : instant) (u : AppUser) (hours : Z) : Claims := {|
  sub := uuid_show (uid_of u); exp := timestamp (now + seconds (hours * 3600));
  iat := timestamp now; claims_user_id := uid_of u; claims_username := username (account u);
  claims_token_version := token_version (account u) |}.

Abbreviation M := (Faults.M AccountDb DatabaseError).
(** What the extractors and the service run in. *)
Abbreviation A := (Faults.M AccountDb AuthError).

Definition internal_error {X} (m : M X) : A X := map_err (fun _ => InternalError) m.

Definition create_token (now : instant) (secret : string) (u : AppUser) (hours : Z)
    : AuthError + string :=
  match encode (claims_new now u hours) secret with
  | Some t => inr t
  | None => inl TokenCreation
  end.

Definition verify_token (now : instant) (secret token : string) : AuthError + Claims :=
  match decode token secret now with
  | Some c => inr c
  | None => inl InvalidToken
  end.

Definition of_auth {X} (r : AuthError + X) : A X :=
  match r with inl e => throw e | inr x => mret x end.

Definition get_user_from_token (now : instant) (secret token : string) : A AppUser :=
  claims ← of_auth (verify_token now secret token);
  u ← internal_error (find_user_by_id (claims_user_id claims));
  match u with
  | None => throw UserNotFound
  | Some u =>
      if negb (is_active (person u)) then throw UserInactive
      else if negb (claims_token_version claims ≟ token_version (account u))
      then throw InvalidToken
      else mret u
  end.

(** ** Passwords *)

(** By name, and else by address, where a fault is nobody. *)
Definition lookup_identity (ident : string) : A (option AppUser) :=
  by_name ← internal_error (find_user_by_username ident);
  match by_name with
  | Some u => mret (Some u)
  | None =>
      by_email ← attempt (internal_error (find_user_by_email ident));
      mret match by_email with inl u => u | inr _ => None end
  end.

(** An unknown user costs a verification too; the status is told only to who knows the
    password. *)
Definition authenticate_user (ident password : string) : A AppUser :=
  u ← lookup_identity ident;
  match u with
  | None => throw WrongCredentials
  | Some u =>
      ok ← of_auth (verify_password password (password_hash (account u)));
      if negb ok then throw WrongCredentials
      else if negb (is_active (person u)) then throw UserInactive
      else mret u
  end.

(** ** The session cookie *)

Definition SESSION_COOKIE_NAME : string := "css_session".

Definition session_set_cookie (token : string) (max_age : Z) (secure : bool) : string :=
  SESSION_COOKIE_NAME +:+ "=" +:+ token +:+ "; HttpOnly; SameSite=Strict; Path=/; Max-Age=" +:+
  pretty max_age +:+ (if secure then "; Secure" else "").

Definition session_clear_cookie (secure : bool) : string :=
  SESSION_COOKIE_NAME +:+ "=; HttpOnly; SameSite=Strict; Path=/; Max-Age=0" +:+
  (if secure then "; Secure" else "").

(** [split_once]: a pair without an equals sign is skipped. *)
Definition cookie_value (pair : list ascii) : option string :=
  if bool_decide ("="%char ∈ pair) then
    let '(name, value) := split_once "=" pair in
    if trim (of_bytes name) ≟ SESSION_COOKIE_NAME then Some (trim (of_bytes value)) else None
  else None.

Definition token_from_cookie_header (header : string) : option string :=
  head (omap cookie_value (split_on ";" (bytes header))).

(** The cookie first, then [Authorization]. *)
Definition select_request_token (cookie authorization : option string) : AuthError + string :=
  match cookie ≫= token_from_cookie_header with
  | Some t => inr t
  | None =>
      match authorization with
      | None => inl MissingCredentials
      | Some h => match strip_prefix "Bearer " h with Some t => inr t | None => inl InvalidToken end
      end
  end.

(** ** The extractors *)

(** The two headers of a request, as text where they are text. *)
Record Headers := { cookie : option string; authorization : option string }.

Definition auth_user (now : instant) (c : AppConfig) (h : Headers) : A AppUser :=
  token ← of_auth (select_request_token (cookie h) (authorization h));
  get_user_from_token now (jwt_secret (auth c)) token.

Definition having (key what : string) (now : instant) (c : AppConfig) (h : Headers) : A AppUser :=
  u ← auth_user now c h;
  yes ← internal_error (base_call (user_has_permission (uid_of u) key));
  if yes : bool then mret u else throw (InsufficientRole what).

Definition admin_user := having "admin.access" "administrator access".
Definition staff_user := having "staff.access" "staff access".
Definition member_user := having "member.access" "member access".

End Auth.
End Auth.
