(* ===== verification/Mfa.v ===== *)
(** * Second factors ([server/src/mfa.rs], [server/src/api/mfa.rs])

    The store of pending challenges, the two code checks, and every handler: setting
    authenticators, passkeys and recovery codes up and down, and the step that turns a
    challenge into a session.  [Server] is what the handlers of the accounts share:
    the tables and what the process keeps in memory.  The one-time-password and
    passkey libraries and the random number generator are interfaces. *)
From Stdlib Require Import QArith Ascii.
From S2P Require Import Prelude Text Rbac Schedules Access Faults Money AuditLog Database Api Throttle Power Training GuardStore Hooks Trail Alerts Accounts Auth.
Import Text Rbac Faults Money Audit Database Api Power Training GuardStore Hooks Trail Accounts Auth.

Module Mfa.

#[local] Open Scope Z_scope.

(** ** The libraries *)

(** [totp_rs], with the digits, skew and period the service gives it. *)
Class TotpLib := {
  TOTP : Type;
  secret_to_bytes : string -> string + string;
  (** Secret, issuer, account. *)
  totp_new : string -> string -> string -> string + TOTP;
  (** The code at a time in seconds. *)
  generate : TOTP -> Z -> string;
  check_current : TOTP -> instant -> string -> bool;
  get_url : TOTP -> string;
}.

(** [webauthn_rs]: a ceremony's first step draws its challenge. *)
Class WebauthnLib {U : Uuid} := {
  Passkey : Type;
  PasskeyAuthentication : Type;
  PasskeyRegistration : Type;
  PublicKeyCredential : Type;
  RegisterPublicKeyCredential : Type;
  passkey_from_value : json -> option Passkey;
  passkey_to_value : Passkey -> json;
  cred_id : Passkey -> string;
  parse_credential : json -> string + PublicKeyCredential;
  parse_registration : json -> string + RegisterPublicKeyCredential;
  (** User, name, display name, credentials to exclude. *)
  start_passkey_registration : Z -> uuid -> string -> string -> list string ->
    option (json * PasskeyRegistration);
  finish_passkey_registration : RegisterPublicKeyCredential -> PasskeyRegistration ->
    string + Passkey;
  start_passkey_authentication : Z -> list Passkey -> option (json * PasskeyAuthentication);
  (** The credential that signed. *)
  finish_passkey_authentication : PublicKeyCredential -> PasskeyAuthentication -> option string;
}.

(** The operating system's and the thread's generators: what the n-th draw gives.  The
    long ones never repeat. *)
Class Entropy := {
  alphanumeric : Z -> string;
  random_token : Z -> string;
  random_base32 : Z -> string;
  gen_range : Z -> Z -> Z;
  alphanumeric_inj : forall i j, alphanumeric i = alphanumeric j -> i = j;
  random_token_inj : forall i j, random_token i = random_token j -> i = j;
  gen_range_bound : forall n i, 0 < n -> 0 <= gen_range n i < n;
}.

(** What becomes of a message handed to the mailer. *)
Record Mail := { mail_to : string; mail_subject : string; mail_body : string }.
Class Mailer := send_mail : Z -> Mail -> option string.

Definition CHALLENGE_TTL : duration := seconds 600.

Definition TOTP_METHOD : string := "totp".
Definition WEBAUTHN_METHOD : string := "webauthn".
Definition RECOVERY_METHOD : string := "recovery".

(** [AuthError]'s Display. *)
Definition auth_error_text (e : AuthError) : string :=
  match e with
  | WrongCredentials => "Wrong credentials"
  | MissingCredentials => "Missing credentials"
  | TokenCreation => "Failed to create token"
  | InvalidToken => "Invalid token"
  | InsufficientRole what => "Forbidden: " +:+ what +:+ " required"
  | UserNotFound => "User not found"
  | UserInactive => "User account is inactive"
  | InvalidPassword m => "Invalid password: " +:+ m
  | InternalError => "Internal server error"
  end%string.

Section Mfa.
Context {U : Uuid} {IS : IdSource} {JT : JsonbText} {CF : CaseFold} {PH : PasswordHashUtil}
  {JW : Jwt} {TL : TotpLib} {WL : WebauthnLib} {EN : Entropy} {ML : Mailer}.

(** ** The challenge store *)

Record LoginChallenge := {
  lc_user_id : uuid;
  lc_methods : list string;
  webauthn_auth : option PasskeyAuthentication;
}.

Record WebauthnRegistration := {
  wr_user_id : uuid;
  wr_label : string;
  wr_state : PasskeyRegistration;
}.

Inductive Entry := Login (c : LoginChallenge) | Register (r : WebauthnRegistration).

Record StoredChallenge := {
  entry : Entry;
  expires_at : instant;
}.

Abbreviation Store := (gmap string StoredChallenge).

Definition prune_expired (now : instant) (m : Store) : Store :=
  filter (fun kv => now < expires_at kv.2) m.

Definition put (now : instant) (token : string) (e : Entry) (m : Store) : Store :=
  <[token := {| entry := e; expires_at := now + CHALLENGE_TTL |}]> (prune_expired now m).

Definition take (now : instant) (token : string) (m : Store) : Store * option Entry :=
  let m := prune_expired now m in
  match m !! token with
  | None => (m, None)
  | Some stored => (delete token m, if expires_at stored <=? now then None else Some (entry stored))
  end.

(** ** What the handlers share *)

Record Server := {
  tables : AccountDb;
  throttles : Throttle.Table;
  challenges : Store;
  outbox : list Mail;
  draws : Z;
}.

Definition with_tables (t : AccountDb) (s : Server) : Server := {|
  tables := t; throttles := throttles s; challenges := challenges s; outbox := outbox s;
  draws := draws s |}.

#[export] Instance server_tables : Part Server AccountDb :=
  {| part := tables; Faults.put := with_tables; part_put := ltac:(done);
     put_part := ltac:(by intros []); put_put := ltac:(done) |}.

Definition with_throttles (t : Throttle.Table) (s : Server) : Server := {|
  tables := tables s; throttles := t; challenges := challenges s; outbox := outbox s;
  draws := draws s |}.

Definition with_challenges (m : Store) (s : Server) : Server := {|
  tables := tables s; throttles := throttles s; challenges := m; outbox := outbox s;
  draws := draws s |}.

Definition posted (m : Mail) (s : Server) : Server := {|
  tables := tables s; throttles := throttles s; challenges := challenges s;
  outbox := outbox s ++ [m]; draws := draws s |}.

Definition drawn (n : Z) (s : Server) : Server := {|
  tables := tables s; throttles := throttles s; challenges := challenges s;
  outbox := outbox s; draws := draws s + n |}.

Abbreviation H := (Faults.M Server ApiError).

Definition lift {A} (m : Faults.M AccountDb DatabaseError A) : H A :=
  map_err api_error (within (P := AccountDb) m).
Definition lift_auth {A} (m : Faults.M AccountDb AuthError A) : H A :=
  map_err auth_api_error (within (P := AccountDb) m).

Definition of_result {A} (r : ApiError + A) : H A :=
  match r with inl e => throw e | inr x => mret x end.
Definition or_error {A} (o : option A) (e : ApiError) : H A :=
  match o with Some x => mret x | None => throw e end.

(** [n] draws, and the number of the first. *)
Definition draw (n : Z) : H Z :=
  i ← peek draws; _ ← effect (drawn n); mret i.

Definition on_challenges {A} (f : Store -> Store * A) : H A :=
  x ← peek (fun s => (f (challenges s)).2);
  _ ← effect (fun s => with_challenges (f (challenges s)).1 s);
  mret x.

Definition on_throttles {A} (f : Throttle.Table -> Throttle.Table * A) : H A :=
  x ← peek (fun s => (f (throttles s)).2);
  _ ← effect (fun s => with_throttles (f (throttles s)).1 s);
  mret x.

(** What is logged and forgotten when it fails. *)
Definition log_event (now : instant) (event : AuditEventType) (user actor : option uuid)
    (data : json) : H unit :=
  lift (trail_call (Alerts.log_event now event user actor data)).

Definition audit (now : instant) (event : AuditEventType) (uid : uuid) (data : json) : H unit :=
  log_event now event (Some uid) (Some uid) data.

Definition put_login (now : instant) (c : LoginChallenge) : H string :=
  i ← draw 1;
  on_challenges (fun m => (put now (alphanumeric i) (Login c) m, alphanumeric i)).

Definition take_login (now : instant) (token : string) : H (option LoginChallenge) :=
  e ← on_challenges (take now token);
  mret match e with Some (Login c) => Some c | _ => None end.

Definition put_registration (now : instant) (r : WebauthnRegistration) : H string :=
  i ← draw 1;
  on_challenges (fun m => (put now (alphanumeric i) (Register r) m, alphanumeric i)).

Definition take_registration (now : instant) (token : string) : H (option WebauthnRegistration) :=
  e ← on_challenges (take now token);
  mret match e with Some (Register r) => Some r | _ => None end.

(** ** One-time passwords *)

Section Service.
(** What the service was built with, at startup; [webauthn]: whether it could be. *)
Context (frozen : AuthMfaConfig) (webauthn : bool).

Definition totp (secret account : string) : string + TOTP :=
  match secret_to_bytes secret with
  | inl e => inl ("invalid TOTP secret: " +:+ e)%string
  | inr b =>
      match totp_new b (issuer frozen) account with
      | inl e => inl ("failed to build TOTP: " +:+ e)%string
      | inr t => inr t
      end
  end.

Definition verify_totp (now : instant) (secret account code : string) : bool :=
  match totp secret account with
  | inl _ => false
  | inr t => check_current t now code
  end.

Definition PERIOD : Z := 30.

(** The first step of the window, one either side of now, that has this code. *)
Definition verify_totp_step (now : instant) (secret account code : string) : option Z :=
  match totp secret account with
  | inl _ => None
  | inr t =>
      let now := timestamp now in
      if now <? 0 then None
      else
        (fun time => time / PERIOD) <$>
        find_first (fun time => (0 <=? time) && (generate t time ≟ code))
          ((fun delta => now + delta * PERIOD) <$> [-1; 0; 1])
  end.

(** ** Recovery codes *)

Definition ALPHABET : list ascii := bytes "ABCDEFGHJKLMNPQRSTUVWXYZ23456789".

Definition code_chunk (i : Z) : string :=
  of_bytes ((fun k => nth (Z.to_nat (gen_range 32 (i + k))) ALPHABET "A"%char) <$> [0; 1; 2; 3]).

Definition recovery_code (i : Z) : string :=
  code_chunk i +:+ "-" +:+ code_chunk (i + 4) +:+ "-" +:+ code_chunk (i + 8).

Definition generate_recovery_codes (n : nat) : H (list string) :=
  i ← draw (12 * Z.of_nat n);
  mret ((fun k => recovery_code (i + 12 * Z.of_nat k)) <$> seq 0 n).

Definition hash_recovery_code (salt : Z) (code : string) : string + string :=
  match hash_password salt code with
  | inl e => inl ("argon2 hash: " +:+ auth_error_text e)%string
  | inr h => inr h
  end.

Fixpoint hash_codes (codes : list string) : H (list string) :=
  match codes with
  | [] => mret []
  | c :: codes =>
      salt ← draw 1;
      h ← match hash_recovery_code salt c with
          | inl e => throw (InternalServerError e)
          | inr h => mret h
          end;
      hs ← hash_codes codes;
      mret (h :: hs)
  end.

Definition verify_recovery_code (candidate hash : string) : bool :=
  match verify_password candidate hash with inr b => b | inl _ => false end.

End Service.
End Mfa.
End Mfa.
