(* ===== verification/MfaApi.v ===== *)
(** * The handlers of second factors ([server/src/api/mfa.rs])

    Enrolling authenticators, passkeys and recovery codes, and [verify_login], which
    trades a challenge and one factor for a session. *)
From Stdlib Require Import QArith Ascii.
From S2P Require Import Prelude Text Rbac Schedules Access Faults Money AuditLog Database Api Throttle Power Training GuardStore Hooks Trail Alerts Accounts Auth Mfa.
Import Text Rbac Faults Money Audit Database Api Power Training GuardStore Hooks Trail Accounts Auth Mfa.

Module MfaApi.

#[local] Open Scope Z_scope.

Section MfaApi.
Context {U : Uuid} {IS : IdSource} {JT : JsonbText} {CF : CaseFold} {PH : PasswordHashUtil}
  {JW : Jwt} {TL : TotpLib} {WL : WebauthnLib} {EN : Entropy} {ML : Mailer}.
(** The service as it was built at startup, whether its passkey half could be, and
    [ApiError]'s Display. *)
Context (frozen : AuthMfaConfig) (webauthn : bool) (error_text : ApiError -> string).
(** Whether a text is a header value. *)
Context (header_value : string -> bool).

Abbreviation H := (Faults.M Server ApiError).

(** ** Requests and answers *)

Record UserResponse := {
  ur_id : uuid;
  ur_username : string;
  ur_email : string;
  ur_full_name : string;
  ur_is_active : bool;
  ur_role : string;
  ur_created_at : instant;
  ur_updated_at : instant;
  ur_meta : json;
  ur_email_verified : bool;
}.

Definition from_user (u : AppUser) (primary_role : string) : UserResponse := {|
  ur_id := uid_of u; ur_username := username (account u); ur_email := email (account u);
  ur_full_name := full_name (person u); ur_is_active := is_active (person u);
  ur_role := primary_role; ur_created_at := created_at (account u);
  ur_updated_at := account_updated_at (account u); ur_meta := meta (account u);
  ur_email_verified := is_some (email_verified_at (account u)) |}.

Record LoginResponse := {
  token : string;
  login_user : UserResponse;
  expires_in : Z;
  must_enroll_mfa : option bool;
}.

(** A session as it is answered: the body, and the [Set-Cookie] header. *)
Record Session := {
  login : LoginResponse;
  set_cookie : option string;
}.

Record MfaVerifyRequest := {
  challenge_token : string;
  method : string;
  code : option string;
  response : option json;
}.

Record TotpAuthenticatorResponse := {
  ta_id : uuid;
  ta_label : string;
  ta_created_at : instant;
  ta_confirmed_at : option instant;
}.

Record MfaStatusResponse := {
  st_enabled : bool;
  totp_enrolled : bool;
  totp_authenticators : list TotpAuthenticatorResponse;
  webauthn_count : nat;
  recovery_codes_remaining : Z;
  must_enroll : bool;
}.

Record MfaTotpSetupResponse := {
  setup_id : uuid;
  setup_label : string;
  setup_secret_base32 : string;
  otpauth_uri : string;
}.

Record WebauthnCredentialResponse := {
  wc_id : uuid;
  wc_label : string;
  wc_created_at : instant;
  wc_last_used_at : option instant;
}.

(** ** Helpers *)

Definition require_enabled (c : AppConfig) : H unit :=
  if mfa_enabled (mfa (auth c)) then mret tt
  else throw (Forbidden "MFA is disabled in server configuration").

Definition attach_session_cookie (cookie : string) : option string :=
  if header_value cookie then Some cookie else None.

Definition issue_token (now : instant) (c : AppConfig) (u : AppUser) : H LoginResponse :=
  t ← lift_auth (of_auth (create_token now (jwt_secret (auth c)) u (jwt_expiration_hours (auth c))));
  role ← lift (base_call (user_primary_role (uid_of u)));
  mret {| token := t; login_user := from_user u role;
          expires_in := jwt_expiration_hours (auth c) * 60 * 60; must_enroll_mfa := None |}.

Definition count_json (n : Z) : json := JObj [("count"%string, JInt n)].

(** Mints, hashes and stores the sheet of codes, and logs that. *)
Definition mint_recovery_codes (now : instant) (uid : uuid) : H (list string) :=
  codes ← generate_recovery_codes (Z.to_nat (recovery_code_count frozen));
  hashes ← hash_codes codes;
  _ ← lift (replace_user_recovery_codes uid hashes);
  _ ← audit now MfaRecoveryCodesRegenerated uid (count_json (recovery_code_count frozen));
  mret codes.

(** ** Status and authenticators *)

Definition authenticator (t : UserMfaTotp) : TotpAuthenticatorResponse := {|
  ta_id := totp_id t; ta_label := totp_label t; ta_created_at := totp_created_at t;
  ta_confirmed_at := confirmed_at t |}.

Definition status (u : AppUser) : H MfaStatusResponse :=
  ts ← lift (list_user_totp (uid_of u));
  ws ← lift (list_user_webauthn (uid_of u));
  remaining ← lift (count_unused_recovery_codes (uid_of u));
  is_staff ← lift (base_call (user_has_permission (uid_of u) "staff.access"));
  mret {| st_enabled := mfa_enabled frozen; totp_enrolled := existsb is_confirmed ts;
          totp_authenticators := authenticator <$> List.filter is_confirmed ts;
          webauthn_count := length ws; recovery_codes_remaining := remaining;
          must_enroll := is_required_for frozen is_staff &&
                         negb (is_some (mfa_enrolled_at (account u))) |}.

(** A label that is blank is none. *)
Definition setup_label_of (payload : option (option string)) : string :=
  match trim <$> mjoin payload with
  | Some EmptyString | None => "Authenticator app"
  | Some l => l
  end.

Definition totp_setup (now : instant) (c : AppConfig) (u : AppUser)
    (payload : option (option string)) : H MfaTotpSetupResponse :=
  _ ← require_enabled c;
  unless (negb (allow_totp frozen)) (Forbidden "TOTP disabled") (
    let label := setup_label_of payload in
    unless (120 <? Z.of_nat (length (chars label)))
      (BadRequest "label must be 120 characters or fewer") (
      i ← draw 1;
      let secret := random_base32 i in
      row ← lift (begin_totp_setup now (uid_of u) secret label);
      match totp frozen secret (email (account u)) with
      | inl e => throw (InternalServerError e)
      | inr t => mret {| setup_id := totp_id row; setup_label := totp_label row;
                         setup_secret_base32 := secret; otpauth_uri := get_url t |}
      end)).

Definition in_flight (wanted : option uuid) (t : UserMfaTotp) : bool :=
  negb (is_confirmed t) && is_none_or wanted (fun w => w ≟ totp_id t).

Definition enrolled_data (t : UserMfaTotp) : json :=
  JObj [("totp_id", JStr (uuid_show (totp_id t))); ("label", JStr (totp_label t))]%string.

Definition totp_confirm (now : instant) (c : AppConfig) (u : AppUser) (wanted : option uuid)
    (code : string) : H (list string) :=
  _ ← require_enabled c;
  rows ← lift (list_user_totp (uid_of u));
  stored ← or_error (find_first (in_flight wanted) rows) (BadRequest "No TOTP setup in progress");
  unless (negb (verify_totp frozen now (secret_base32 stored) (email (account u)) (trim code)))
    (BadRequest "Invalid code") (
    let first_factor := negb (is_some (mfa_enrolled_at (account u))) in
    _ ← lift (finalize_totp_confirmation now (uid_of u) (totp_id stored));
    _ ← lift (recompute_user_mfa_enrolled now (uid_of u));
    codes ← (if first_factor then mint_recovery_codes now (uid_of u) else mret []);
    _ ← audit now MfaTotpEnrolled (uid_of u) (enrolled_data stored);
    mret codes).

Definition totp_disable (now : instant) (u : AppUser) (tid : uuid) : H unit :=
  rows ← lift (list_user_totp (uid_of u));
  stored ← or_error (find_first (fun t => totp_id t ≟ tid) rows)
                    (NotFoundError "No such authenticator");
  _ ← lift (delete_user_totp (uid_of u) tid);
  _ ← lift (recompute_user_mfa_enrolled now (uid_of u));
  audit now MfaTotpDisabled (uid_of u) (enrolled_data stored).

(** ** Passkeys *)

Definition need_webauthn : H unit :=
  if webauthn then mret tt else throw (Forbidden "WebAuthn disabled").

Definition webauthn_list (u : AppUser) : H (list WebauthnCredentialResponse) :=
  rows ← lift (list_user_webauthn (uid_of u));
  mret ((fun r => {| wc_id := wa_id r; wc_label := wa_label (wa_row r);
                     wc_created_at := wa_created_at r; wc_last_used_at := wa_last_used_at r |})
        <$> rows).

Definition webauthn_register_begin (now : instant) (c : AppConfig) (u : AppUser) (label : string)
    : H (string * json) :=
  _ ← require_enabled c;
  _ ← need_webauthn;
  existing ← lift (list_user_webauthn (uid_of u));
  let label := trim label in
  unless (label ≟ EmptyString) (BadRequest "label is required") (
    i ← draw 1;
    match start_passkey_registration i (uid_of u) (username (account u)) (full_name (person u))
            ((fun r => credential_id (wa_row r)) <$> existing) with
    | None => throw (InternalServerError "Could not start passkey registration")
    | Some (options, st) =>
        t ← put_registration now {| wr_user_id := uid_of u; wr_label := label; wr_state := st |};
        mret (t, options)
    end).

Definition webauthn_register_finish (now : instant) (c : AppConfig) (u : AppUser)
    (challenge : string) (response : json) : H uuid :=
  _ ← require_enabled c;
  _ ← need_webauthn;
  pending ← take_registration now challenge;
  pending ← or_error pending (BadRequest "Unknown or expired challenge_token");
  unless (negb (wr_user_id pending ≟ uid_of u))
    (Forbidden "challenge_token does not belong to this user") (
    match parse_registration response with
    | inl e => throw (BadRequest ("Invalid WebAuthn response: " +:+ e))
    | inr credential =>
        match finish_passkey_registration credential (wr_state pending) with
        | inl e => throw (BadRequest ("WebAuthn registration rejected: " +:+ e))
        | inr passkey =>
            stored ← lift (insert_user_webauthn now
              {| wa_user_id := uid_of u; credential_id := cred_id passkey;
                 passkey := passkey_to_value passkey; wa_label := wr_label pending |});
            _ ← lift (recompute_user_mfa_enrolled now (uid_of u));
            _ ← audit now MfaWebauthnRegistered (uid_of u)
                  (JObj [("credential_row_id", JStr (uuid_show (wa_id stored)));
                         ("label", JStr (wa_label (wa_row stored)))]%string);
            mret (wa_id stored)
        end
    end).

Definition webauthn_remove (now : instant) (u : AppUser) (wid : uuid) : H unit :=
  deleted ← lift (delete_user_webauthn (uid_of u) wid);
  unless (deleted =? 0)%nat (NotFoundError "Credential not found") (
    _ ← lift (recompute_user_mfa_enrolled now (uid_of u));
    audit now MfaWebauthnRemoved (uid_of u)
      (JObj [("credential_row_id"%string, JStr (uuid_show wid))])).

Definition recovery_regenerate (now : instant) (c : AppConfig) (u : AppUser) : H (list string) :=
  _ ← require_enabled c;
  mint_recovery_codes now (uid_of u).

(** ** Completing a login *)

(** A code that is blank is none. *)
Definition given_code (code : option string) : option string :=
  match trim <$> code with Some EmptyString | None => None | Some c => Some c end.

Definition is_replay (step : Z) (t : UserMfaTotp) : bool :=
  is_some_and (last_used_step t) (fun last => step <=? last).

(** Every authenticator is tried; the first that has the code at a step it has not
    spent answers.  [replayed]: one had it at a spent step. *)
Fixpoint try_totps (now : instant) (u : AppUser) (code : string) (replayed : bool)
    (rows : list UserMfaTotp) : H unit :=
  match rows with
  | [] => throw (Unauthorized (if replayed then "This TOTP code has already been used"
                               else "Invalid TOTP code"))
  | row :: rows =>
      match verify_totp_step frozen now (secret_base32 row) (email (account u)) code with
      | None => try_totps now u code replayed rows
      | Some step =>
          if is_replay step row then try_totps now u code true rows
          else lift (update_totp_last_used_step now (totp_id row) step)
      end
  end.

Definition verify_totp_path (now : instant) (u : AppUser) (code : option string) : H unit :=
  code ← or_error (given_code code) (BadRequest "code is required for TOTP");
  rows ← lift (list_user_totp (uid_of u));
  match List.filter is_confirmed rows with
  | [] => throw (Unauthorized "No confirmed TOTP for user")
  | confirmed => try_totps now u code false confirmed
  end.

Definition verify_webauthn_path (now : instant) (u : AppUser) (challenge : LoginChallenge)
    (response : option json) : H unit :=
  _ ← need_webauthn;
  st ← or_error (webauthn_auth challenge) (BadRequest "This challenge has no WebAuthn state");
  response ← or_error response (BadRequest "response is required");
  match parse_credential response with
  | inl e => throw (BadRequest ("Invalid WebAuthn response: " +:+ e))
  | inr cred =>
      match finish_passkey_authentication cred st with
      | None => throw (Unauthorized "WebAuthn authentication rejected")
      | Some used =>
          _ ← attempt (lift (touch_user_webauthn_last_used now (uid_of u) used));
          mret tt
      end
  end.

Fixpoint try_codes (now : instant) (u : AppUser) (code : string) (rows : list UserMfaRecoveryCode)
    : H unit :=
  match rows with
  | [] => throw (Unauthorized "Invalid recovery code")
  | row :: rows =>
      if verify_recovery_code code (code_hash row) then
        _ ← lift (mark_recovery_code_used now (code_id row));
        audit now MfaRecoveryCodeUsed (uid_of u)
          (JObj [("code_id"%string, JStr (uuid_show (code_id row)))])
      else try_codes now u code rows
  end.

Definition verify_recovery_path (now : instant) (u : AppUser) (code : option string) : H unit :=
  code ← or_error (given_code code) (BadRequest "code is required for recovery");
  rows ← lift (list_unused_recovery_codes (uid_of u));
  try_codes now u code rows.

Definition verify_factor (now : instant) (u : AppUser) (challenge : LoginChallenge)
    (req : MfaVerifyRequest) : H unit :=
  if method req ≟ TOTP_METHOD then verify_totp_path now u (code req)
  else if method req ≟ WEBAUTHN_METHOD then verify_webauthn_path now u challenge (response req)
  else if method req ≟ RECOVERY_METHOD then verify_recovery_path now u (code req)
  else throw (BadRequest ("Unknown method: " +:+ method req)).

(** The check of an attempt, when the throttle is on, and what it says when refused. *)
Definition throttled (on : bool) (id : string) (max secs : Z) (now : instant)
    (message : Z -> string) : H unit :=
  if on then
    r ← on_throttles (Throttle.check_attempt id max secs now);
    match r with
    | inl _ => mret tt
    | inr remaining => throw (TooManyRequests (message remaining))
    end
  else mret tt.

Definition count_failure (on : bool) (id : string) (max secs : Z) (now : instant) : H unit :=
  if on then on_throttles (fun t => (Throttle.record_failed_attempt id max secs now t, tt))
  else mret tt.

Definition count_success (on : bool) (id : string) : H unit :=
  if on then on_throttles (fun t => (Throttle.record_successful_attempt id t, tt)) else mret tt.

Definition verify_login (now : instant) (c : AppConfig) (req : MfaVerifyRequest) : H Session :=
  _ ← require_enabled c;
  challenge ← take_login now (challenge_token req);
  challenge ← or_error challenge (Unauthorized "Unknown or expired challenge_token");
  u ← lift (find_user_by_id (lc_user_id challenge));
  u ← or_error u (Unauthorized "User no longer exists");
  unless (negb (is_active (person u))) (Unauthorized "Account is not active") (
    let id := ("mfa:" +:+ uuid_show (uid_of u))%string in
    let on := login_throttle_enabled (auth c) in
    let max := login_throttle_attempts (auth c) in
    let secs := login_throttle_seconds (auth c) in
    _ ← throttled on id max secs now (fun remaining =>
          "Too many verification attempts. Try again in " +:+ pretty remaining +:+ " seconds.")%string;
    outcome ← attempt (verify_factor now u challenge req);
    match outcome with
    | inl _ =>
        _ ← count_success on id;
        _ ← audit now MfaLoginPassed (uid_of u) (JObj [("method"%string, JStr (method req))]);
        login ← issue_token now c u;
        mret {| login := login;
                set_cookie := attach_session_cookie (session_set_cookie (token login)
                  (jwt_expiration_hours (auth c) * 60 * 60) (cookie_secure (auth c))) |}
    | inr e =>
        _ ← count_failure on id max secs now;
        _ ← audit now MfaLoginFailed (uid_of u)
              (JObj [("method", JStr (method req)); ("error", JStr (error_text e))]%string);
        throw e
    end).

(** ** Issuing a challenge *)

Record MfaChallenge := {
  mc_token : string;
  mc_methods : list string;
  webauthn_options : option json;
}.

(** The ceremony over the stored passkeys that can be read, if there is one. *)
Definition start_ceremony (draw : Z) (creds : list UserMfaWebauthn)
    : option (json * PasskeyAuthentication) :=
  if webauthn then
    match omap (fun r => passkey_from_value (passkey (wa_row r))) creds with
    | [] => None
    | passkeys => start_passkey_authentication draw passkeys
    end
  else None.

Definition build_login_challenge (now : instant) (u : AppUser) : H MfaChallenge :=
  ts ← lift (list_user_totp (uid_of u));
  creds ← lift (list_user_webauthn (uid_of u));
  i ← draw 1;
  let ceremony := start_ceremony i creds in
  remaining ← lift (count_unused_recovery_codes (uid_of u));
  let methods :=
    (if existsb is_confirmed ts then [TOTP_METHOD] else []) ++
    (if is_some ceremony then [WEBAUTHN_METHOD] else []) ++
    (if 0 <? remaining then [RECOVERY_METHOD] else []) in
  match methods with
  | [] => throw (InternalServerError "User is marked MFA-enrolled but has no usable methods")
  | _ =>
      t ← put_login now {| lc_user_id := uid_of u; lc_methods := methods;
                           webauthn_auth := snd <$> ceremony |};
      mret {| mc_token := t; mc_methods := methods; webauthn_options := fst <$> ceremony |}
  end.

End MfaApi.
End MfaApi.
