(* ===== verification/AuthApi.v ===== *)
(** * Registering, logging in and single-use links ([server/src/api/auth.rs])

    Every route under [/api/auth] beside the second factors.  Configuration is the one
    in force at the request; the reCAPTCHA service and the mailer are interfaces. *)
From Stdlib Require Import QArith Ascii.
From S2P Require Import Prelude Text Rbac Schedules Access Faults Money AuditLog Database Api Throttle Power Training GuardStore Hooks Trail Alerts Accounts Auth Mfa MfaApi.
Import Text Rbac Faults Money Audit Database Api Power Training GuardStore Hooks Trail Accounts Auth Mfa MfaApi.

Module AuthApi.

#[local] Open Scope Z_scope.

(** [verify_token] of the reCAPTCHA service. *)
Class Recaptcha := verify_recaptcha : Z -> string -> string + bool.

(** ** Tokens ([server/src/tokens.rs]) *)

Definition RESET_TOKEN_TTL_MINUTES : Z := 60.
Definition VERIFICATION_TOKEN_TTL_HOURS : Z := 24.
Definition RESET_THROTTLE_ATTEMPTS : Z := 3.
Definition RESET_THROTTLE_SECONDS : Z := 900.

Definition RESET_REQUESTED_MESSAGE : string :=
  "If an account exists for that address, a password reset link has been sent.".
Definition VERIFICATION_REQUESTED_MESSAGE : string :=
  "If that address needs confirming, a new link has been sent.".

Definition newline : string := String (ascii_of_nat 10) EmptyString.

Fixpoint join_lines (l : list string) : string :=
  match l with
  | [] => EmptyString
  | [x] => x
  | x :: l => x +:+ newline +:+ join_lines l
  end.

(** [trim_end_matches('/')]. *)
Definition trim_slashes (s : string) : string :=
  of_bytes (rev (drop_while (fun c => c ≟ "/"%char) (rev (bytes s)))).

Definition reset_email_body (site_name link : string) : string :=
  join_lines [
    "Somebody asked to reset the password for your " +:+ site_name +:+ " account.";
    EmptyString;
    "To choose a new one, open this link:";
    EmptyString;
    link;
    EmptyString;
    "The link works once and expires in " +:+ pretty RESET_TOKEN_TTL_MINUTES +:+ " minutes.";
    "If you did not ask for this you can ignore this message; your password";
    "has not changed."]%string.

Definition verification_email_body (site_name link : string) : string :=
  join_lines [
    "Welcome to " +:+ site_name +:+ ".";
    EmptyString;
    "Please confirm this address by opening this link:";
    EmptyString;
    link;
    EmptyString;
    "The link works once and expires in " +:+ pretty VERIFICATION_TOKEN_TTL_HOURS +:+ " hours."]%string.

Definition reset_link (c : AppConfig) (token : string) : string :=
  trim_slashes (site_url c) +:+ "/reset-password?token=" +:+ token.
Definition verification_link (c : AppConfig) (token : string) : string :=
  trim_slashes (site_url c) +:+ "/verify-email?token=" +:+ token.

Section AuthApi.
Context {U : Uuid} {IS : IdSource} {JT : JsonbText} {CF : CaseFold} {PH : PasswordHashUtil}
  {JW : Jwt} {TL : TotpLib} {WL : WebauthnLib} {EN : Entropy} {ML : Mailer} {TH : TokenHash}
  {RC : Recaptcha}.
Context (frozen : AuthMfaConfig) (webauthn : bool) (error_text : ApiError -> string)
  (header_value : string -> bool).

Abbreviation H := (Faults.M Server ApiError).

(** The secret for the message, and the digest to store. *)
Definition generate_token : H (string * string) :=
  i ← draw 1;
  mret (random_token i, hash_token (random_token i)).

(** Hands a message to the mailer; what went wrong, if anything did. *)
Definition send (m : Mail) : H (option string) :=
  i ← draw 1;
  _ ← effect (posted m);
  mret (send_mail i m).

Definition hours (n : Z) : duration := seconds (n * 3600).
Definition minutes (n : Z) : duration := seconds (n * 60).

Definition stale_claim_cutoff (now : instant) : instant := now - hours VERIFICATION_TOKEN_TTL_HOURS.

Definition failed_mail (purpose detail : string) : json :=
  JObj [("purpose", JStr purpose); ("detail", JStr detail)]%string.

(** A link for one address; a mailer that is off is no failure, and no failure is
    answered. *)
Definition issue_verification_mail_for (now : instant) (c : AppConfig) (uid : uuid)
    (eid : option uuid) (address : string) : H unit :=
  if negb (email_enabled c) then mret tt
  else
    '(plaintext, digest) ← generate_token;
    stored ← attempt (lift (create_email_verification_token now uid eid digest
                              (now + hours VERIFICATION_TOKEN_TTL_HOURS)));
    match stored with
    | inr _ => mret tt
    | inl _ =>
        sent ← send {| mail_to := address; mail_subject := "Confirm your email address";
                       mail_body := verification_email_body (site_name c)
                                      (verification_link c plaintext) |};
        match sent with
        | None => log_event now EmailVerificationSent (Some uid) (Some uid)
                    (JObj [("address"%string, JStr address)])
        | Some e => log_event now EmailSendFailed (Some uid) (Some uid)
                      (failed_mail "email_verification" e)
        end
    end.

(** ** Registration *)

Record RegisterRequest := {
  rr_username : string;
  rr_email : string;
  rr_password : string;
  rr_full_name : string;
  challenge_phrase : option string;
  terms_of_service_accepted : option bool;
  recaptcha_token : option string;
}.

(** The phrase, with its own throttle. *)
Definition check_challenge (now : instant) (r : RegistrationChallengeConfig) (id : string)
    (given : option string) : H unit :=
  if challenge_enabled r then
    _ ← throttled (throttle_enabled r) id (throttle_attempts r) (throttle_seconds r) now
          (fun n => "Too many failed registration attempts. Try again in " +:+ pretty n +:+ " seconds")%string;
    if default EmptyString given ≟ phrase r then mret tt
    else
      _ ← count_failure (throttle_enabled r) id (throttle_attempts r) (throttle_seconds r) now;
      throw (BadRequest "Invalid registration phrase")
  else mret tt.

Definition check_recaptcha (now : instant) (r : RegistrationChallengeConfig) (id : string)
    (given : option string) : H unit :=
  if recaptcha_enabled r then
    let given := default EmptyString given in
    unless (given ≟ EmptyString) (BadRequest "reCAPTCHA verification is required") (
      i ← draw 1;
      match verify_recaptcha i given with
      | inr true => mret tt
      | inr false =>
          _ ← count_failure (throttle_enabled r) id (throttle_attempts r) (throttle_seconds r) now;
          throw (BadRequest "reCAPTCHA verification failed. Please try again.")
      | inl _ => throw (InternalServerError "reCAPTCHA verification service unavailable")
      end)
  else mret tt.

(** [if let Ok(Some(_)) = ..]: a fault is nobody. *)
Definition taken {A} (m : H (option A)) (message : string) : H unit :=
  r ← attempt m;
  match r with
  | inl (Some _) => throw (Conflict message)
  | _ => mret tt
  end.

Definition short_password (c : AppConfig) (p : string) : bool :=
  Z.of_nat (String.length p) <? password_min_length (auth c).

Definition too_short (c : AppConfig) : string :=
  "Password must be at least " +:+ pretty (password_min_length (auth c)) +:+ " characters long".

Definition hash_new_password (p : string) : H string :=
  salt ← draw 1;
  match hash_password salt p with
  | inr h => mret h
  | inl _ => throw (InternalServerError "Failed to hash password")
  end.

(** The setup address becomes the administrator while there is none. *)
Definition assigned_role (c : AppConfig) (address : string) : H string :=
  if should_grant_admin_role c address then
    n ← lift (base_call count_active_admins);
    mret (if n =? 0 then "admin"%string else GUEST)
  else mret GUEST.

Definition registered_data (u : AppUser) (role : string) : json :=
  JObj [("username", JStr (username (account u))); ("email", JStr (email (account u)));
        ("role", JStr role); ("action", JStr "User registered successfully")]%string.

Definition register (now : instant) (c : AppConfig) (r : RegisterRequest)
    : H (UserResponse * string) :=
  let chal := registration_challenge c in
  let id := to_lowercase (rr_email r) in
  unless (negb (allow_registration (auth c))) (Forbidden "User registration is disabled") (
    _ ← check_challenge now chal id (challenge_phrase r);
    unless (terms_of_service_checkbox chal && negb (default false (terms_of_service_accepted r)))
      (BadRequest "You must accept the terms of service to register") (
      _ ← check_recaptcha now chal id (recaptcha_token r);
      unless ((rr_username r ≟ EmptyString) || (rr_email r ≟ EmptyString) || (rr_password r ≟ EmptyString))
        (BadRequest "Username, email, and password are required") (
        unless (short_password c (rr_password r)) (BadRequest (too_short c)) (
          unless (negb (contains_byte "@" (rr_email r))) (BadRequest "Invalid email format") (
            _ ← taken (lift (find_user_by_username (rr_username r))) "Username already exists";
            _ ← taken (lift (find_user_by_email (rr_email r))) "Email already exists";
            hash ← hash_new_password (rr_password r);
            role ← assigned_role c (rr_email r);
            u ← lift (create_user now
                        (new_user (rr_username r) (rr_email r) hash (rr_full_name r)) role);
            _ ← count_success (challenge_enabled chal && throttle_enabled chal) id;
            _ ← log_event now UserRegistration (Some (uid_of u)) None (registered_data u role);
            _ ← issue_verification_mail_for now c (uid_of u) None (email (account u));
            mret (from_user u role,
                  (if role ≟ "admin"%string then "Admin user registered successfully"
                   else "User registered successfully")%string)))))).

(** ** Logging in *)

Record LoginRequest := {
  username_or_email : string;
  password : string;
}.

Inductive LoginAnswer :=
  | Challenged (m : MfaChallenge)
  | LoggedIn (s : Session).

(** The password, under its throttle; a failure is counted and put on record. *)
Definition check_password (now : instant) (c : AppConfig) (r : LoginRequest) : H AppUser :=
  let id := ("login:" +:+ to_lowercase (trim (username_or_email r)))%string in
  let on := login_throttle_enabled (auth c) in
  let max := login_throttle_attempts (auth c) in
  let secs := login_throttle_seconds (auth c) in
  _ ← throttled on id max secs now (fun n =>
        "Too many login attempts. Try again in " +:+ pretty n +:+ " seconds.")%string;
  who ← attempt (lift_auth (authenticate_user (username_or_email r) (password r)));
  match who with
  | inl u => _ ← count_success on id; mret u
  | inr e =>
      _ ← count_failure on id max secs now;
      _ ← log_event now FailedLoginAttempt None None
            (JObj [("username_or_email"%string, JStr (username_or_email r))]);
      throw e
  end.

Definition login_data (u : AppUser) : json :=
  JObj [("username", JStr (username (account u)));
        ("action", JStr "User logged in successfully")]%string.

Definition start_session (now : instant) (c : AppConfig) (u : AppUser) : H Session :=
  t ← lift_auth (of_auth (create_token now (jwt_secret (auth c)) u (jwt_expiration_hours (auth c))));
  is_staff ← lift (base_call (user_has_permission (uid_of u) "staff.access"));
  role ← lift (base_call (user_primary_role (uid_of u)));
  let must := is_required_for (mfa (auth c)) is_staff && negb (is_some (mfa_enrolled_at (account u))) in
  _ ← log_event now UserLogin (Some (uid_of u)) None (login_data u);
  mret {| login := {| token := t; login_user := from_user u role;
                      expires_in := jwt_expiration_hours (auth c) * 60 * 60;
                      must_enroll_mfa := if must then Some true else None |};
          set_cookie := attach_session_cookie header_value (session_set_cookie t
            (jwt_expiration_hours (auth c) * 60 * 60) (cookie_secure (auth c))) |}.

Definition login (now : instant) (c : AppConfig) (r : LoginRequest) : H LoginAnswer :=
  unless ((username_or_email r ≟ EmptyString) || (password r ≟ EmptyString))
    (BadRequest "Username/email and password are required") (
    u ← check_password now c r;
    unless (require_email_verification (auth c) && negb (is_some (email_verified_at (account u))))
      (Forbidden ("Your email address has not been confirmed. Check your inbox for the " +:+
                  "confirmation link, or ask for a new one.")) (
      if is_some (mfa_enrolled_at (account u)) && mfa_enabled (mfa (auth c))
      then Challenged <$> build_login_challenge webauthn now u
      else LoggedIn <$> start_session now c u)).

(** The roles' names and the effective permissions, each in order. *)
Definition me (u : AppUser) : H (UserResponse * list string * list string) :=
  '(names, permissions) ← lift (base_call (select (fun db =>
     let ids := roles_for_user db (uid_of u) in
     (sort_by String.leb (role_name <$> List.filter (fun r => bool_decide (role_id r ∈ ids)) (roles db)),
      sort_by String.leb (elements (effective_permissions (rbac db) ids))))));
  role ← lift (base_call (user_primary_role (uid_of u)));
  mret (from_user u role, names, permissions).

Definition logout (c : AppConfig) : H (option string) :=
  mret (attach_session_cookie header_value (session_clear_cookie (cookie_secure (auth c)))).

(** ** Resetting a password *)

Definition reset_available (c : AppConfig) : bool :=
  password_reset_enabled (auth c) && email_enabled c.

(** The attempt counts whether or not the address is known. *)
Definition counted_request (now : instant) (id : string) (message : Z -> string) : H unit :=
  _ ← throttled true id RESET_THROTTLE_ATTEMPTS RESET_THROTTLE_SECONDS now message;
  count_failure true id RESET_THROTTLE_ATTEMPTS RESET_THROTTLE_SECONDS now.

(** Where a reset link for an address may go: the primary, or one that was confirmed. *)
Definition reset_target (address : string) : H (option (AppUser * UserEmail)) :=
  found ← lift (find_user_email address);
  match found with
  | Some row =>
      if is_primary row || is_some (verified_at row) then
        u ← lift (find_user_by_id (ue_user_id row));
        mret ((fun u => (u, row)) <$> u)
      else mret None
  | None => mret None
  end.

Definition found_json (b : bool) : json := JObj [("found"%string, JBool b)].

Definition password_reset_request (now : instant) (c : AppConfig) (given : string) : H string :=
  unless (negb (reset_available c)) (Forbidden "Password reset is not available on this instance") (
    let address := to_lowercase (trim given) in
    _ ← counted_request now ("password-reset:" +:+ address) (fun n =>
          "Too many password reset requests. Try again in " +:+ pretty n +:+ " seconds")%string;
    target ← reset_target address;
    _ ← match target with
        | Some (u, row) =>
            '(plaintext, digest) ← generate_token;
            _ ← lift (create_password_reset_token now (uid_of u) digest
                        (now + minutes RESET_TOKEN_TTL_MINUTES));
            sent ← send {| mail_to := ue_email row; mail_subject := "Reset your password";
                           mail_body := reset_email_body (site_name c) (reset_link c plaintext) |};
            match sent with
            | None => log_event now PasswordResetRequested (Some (uid_of u)) (Some (uid_of u)) (found_json true)
            | Some e => log_event now EmailSendFailed (Some (uid_of u)) (Some (uid_of u))
                          (failed_mail "password_reset" e)
            end
        | None => log_event now PasswordResetRequested None None (found_json false)
        end;
    mret RESET_REQUESTED_MESSAGE).

(** Only the password: a reset leaves the second factor asked. *)
Definition only_password (hash : string) : UpdateUser := {|
  up_username := None; up_email := None; up_password_hash := Some hash; up_full_name := None;
  up_is_active := None; up_profile := None; up_meta := None |}.

Definition password_reset_consume (now : instant) (c : AppConfig) (token new_password : string)
    : H string :=
  unless (negb (reset_available c)) (Forbidden "Password reset is not available on this instance") (
    unless (short_password c new_password) (ValidationError (too_short c)) (
      claimed ← lift (claim_password_reset_token now (hash_token (trim token)));
      match claimed with
      | None =>
          _ ← log_event now PasswordResetFailed None None
                (JObj [("reason", JStr "unknown, expired, or already used")]%string);
          throw (BadRequest "This password reset link is invalid or has expired. Request a new one.")
      | Some uid =>
          hash ← hash_new_password new_password;
          _ ← lift (update_user now uid (only_password hash));
          _ ← log_event now PasswordResetCompleted (Some uid) (Some uid)
                (JObj [("note", JStr "password changed without the previous one being presented")]%string);
          mret "Your password has been changed. You can now sign in with it."%string
      end)).

(** ** Confirming an address *)

Definition verify_email (now : instant) (token : string) : H string :=
  claimed ← lift (claim_email_verification_token now (hash_token (trim token)));
  match claimed with
  | None => throw (BadRequest "This confirmation link is invalid or has expired. Ask for a new one.")
  | Some (uid, eid) =>
      _ ← lift (mark_email_verified now uid eid);
      _ ← log_event now EmailVerified (Some uid) (Some uid) (JObj []);
      mret "Your email address is confirmed. You can now sign in."%string
  end.

Definition resend_verification (now : instant) (c : AppConfig) (given : string) : H string :=
  unless (negb (email_enabled c)) (Forbidden "Email confirmation is not available on this instance") (
    let address := to_lowercase (trim given) in
    _ ← counted_request now ("email-verify:" +:+ address) (fun n =>
          "Too many confirmation requests. Try again in " +:+ pretty n +:+ " seconds")%string;
    found ← lift (find_user_email address);
    _ ← match found with
        | Some row =>
            if is_some (verified_at row) then mret tt
            else issue_verification_mail_for now c (ue_user_id row)
                   (if is_primary row then None else Some (ue_id row)) (ue_email row)
        | None => mret tt
        end;
    mret VERIFICATION_REQUESTED_MESSAGE).

End AuthApi.
End AuthApi.
