(* ===== verification/UsersApi.v ===== *)
(** * Accounts as their owners and administrators change them

    The routes of [server/src/api/users.rs] that read or change a user, a password or
    an address, the ones of [server/src/api/admin.rs] on users, roles and factors, and
    [serve], the whole surface of accounts.  Listings that only page through users,
    deleting one and the Stripe customers are left out. *)
From Stdlib Require Import QArith Ascii.
From S2P Require Import Prelude Text Rbac Schedules Access Faults Money AuditLog Database Api Throttle Power Training GuardStore Hooks Trail Alerts Accounts Auth Mfa MfaApi AuthApi.
Import Text Rbac Faults Money Audit Database Api Power Training GuardStore Hooks Trail Accounts Auth Mfa MfaApi AuthApi.

Module UsersApi.

#[local] Open Scope Z_scope.

Section UsersApi.
Context {U : Uuid} {IS : IdSource} {JT : JsonbText} {CF : CaseFold} {PH : PasswordHashUtil}
  {JW : Jwt} {TL : TotpLib} {WL : WebauthnLib} {EN : Entropy} {ML : Mailer} {TH : TokenHash}
  {RC : Recaptcha}.
Context (frozen : AuthMfaConfig) (webauthn : bool) (error_text : ApiError -> string)
  (header_value : string -> bool).

Abbreviation H := (Faults.M Server ApiError).

Definition user_has (uid : uuid) (key : string) : H bool :=
  lift (base_call (user_has_permission uid key)).
Definition primary_role (uid : uuid) : H string := lift (base_call (user_primary_role uid)).
Definition level_of (uid : uuid) : H Z := lift (base_call (user_effective_level uid)).

(** Yourself, or with a permission over others. *)
Definition self_or (key : string) (caller : AppUser) (uid : uuid) (message : string) : H unit :=
  if uid_of caller ≟ uid then mret tt
  else
    yes ← user_has (uid_of caller) key;
    if yes : bool then mret tt else throw (Forbidden message).

Definition load_user (uid : uuid) (message : string) : H AppUser :=
  u ← lift (find_user_by_id uid); or_error u (NotFoundError message).

Definition respond (u : AppUser) : H UserResponse :=
  role ← primary_role (uid_of u); mret (from_user u role).

Definition get_user_by_id (caller : AppUser) (uid : uuid) : H UserResponse :=
  _ ← self_or "users.manage" caller uid "You can only view your own profile";
  u ← load_user uid "User not found";
  respond u.

(** Nobody acts on an equal. *)
Definition outranks (caller : AppUser) (uid : uuid) : H unit :=
  mine ← level_of (uid_of caller);
  theirs ← level_of uid;
  if mine <=? theirs
  then throw (Forbidden "You cannot modify a user at or above your own access level")
  else mret tt.

Record UpdateUserRequest := {
  ur_new_username : option string;
  ur_new_email : option string;
  ur_new_full_name : option string;
  ur_new_password : option string;
  current_password : option string;
  ur_new_is_active : option bool;
  ur_new_role : option string;
}.

(** The current password, as [unwrap_or(false)] takes it. *)
Definition knows_password (given : option string) (hash : string) : bool :=
  is_some_and given (fun p => match verify_password p hash with inr b => b | inl _ => false end).

(** What a requested role takes. *)
Definition check_role (caller : AppUser) (role : option string) : H unit :=
  match role with
  | None => mret tt
  | Some r =>
      unless (negb (bool_decide (r ∈ TIERS))) (BadRequest ("unknown role: " +:+ r)) (
        if r ≟ "admin"%string then
          yes ← user_has (uid_of caller) "admin.access";
          if yes : bool then mret tt else throw (Forbidden "Only admins can assign admin role")
        else mret tt)
  end.

Definition check_credentials (c : AppConfig) (caller : AppUser) (uid : uuid) (existing : AppUser)
    (p : UpdateUserRequest) : H unit :=
  let email_changing := is_some_and (ur_new_email p) (fun e => negb (e ≟ email (account existing))) in
  unless ((uid_of caller ≟ uid) && (is_some (ur_new_password p) || email_changing) &&
          negb (knows_password (current_password p) (password_hash (account existing))))
    (BadRequest "Current password is incorrect") (mret tt).

Definition new_hash (c : AppConfig) (p : option string) : H (option string) :=
  match p with
  | None => mret None
  | Some p =>
      unless (short_password c p) (BadRequest (too_short c)) (Some <$> hash_new_password p)
  end.

Definition check_new_primary (address : option string) : H unit :=
  match address with
  | None => mret tt
  | Some e =>
      unless (negb (contains_byte "@" e)) (BadRequest "Invalid email format") (
        taken (lift (find_user_by_email e)) "Email already exists")
  end.

Definition check_new_username (existing : AppUser) (name : option string) : H unit :=
  match name with
  | Some n =>
      if n ≟ username (account existing) then mret tt
      else unless (n ≟ EmptyString) (BadRequest "Username cannot be empty") (
             taken (lift (find_user_by_username n)) "Username already exists")
  | None => mret tt
  end.

(** [map_err] of a write of an address. *)
Definition email_conflict (e : DatabaseError) : ApiError :=
  match e with UniqueViolation => Conflict "Email already exists" | e => api_error e end.

Definition within_tables {A} (f : DatabaseError -> ApiError) (m : Faults.M AccountDb DatabaseError A)
    : H A := map_err f (within (P := AccountDb) m).

Definition email_change_data (old new_ : string) : json :=
  JObj [("old_email", JStr old); ("new_email", JStr new_)]%string.

Definition update_user (now : instant) (c : AppConfig) (caller : AppUser) (uid : uuid)
    (p : UpdateUserRequest) : H UserResponse :=
  _ ← self_or "users.manage" caller uid "You can only update your own profile";
  manages ← user_has (uid_of caller) "users.manage";
  unless (negb manages && (is_some (ur_new_is_active p) || is_some (ur_new_role p)))
    (Forbidden "You cannot modify account status or role") (
    _ ← check_role caller (ur_new_role p);
    existing ← load_user uid "User not found";
    _ ← (if uid_of caller ≟ uid then mret tt else outranks caller uid);
    _ ← check_credentials c caller uid existing p;
    hash ← new_hash c (ur_new_password p);
    let new_primary := match ur_new_email p with
                       | Some e => if e ≟ email (account existing) then None else Some e
                       | None => None
                       end in
    _ ← check_new_primary new_primary;
    _ ← check_new_username existing (ur_new_username p);
    updated ← lift (Accounts.update_user now uid
      {| up_username := ur_new_username p; up_email := None; up_password_hash := hash;
         up_full_name := ur_new_full_name p; up_is_active := ur_new_is_active p;
         up_profile := None; up_meta := None |});
    updated ← match new_primary with
              | None => mret updated
              | Some e =>
                  row ← within_tables email_conflict
                          (replace_primary_user_email now uid e (stale_claim_cutoff now));
                  u ← load_user uid "User not found";
                  _ ← issue_verification_mail_for now c uid None (ue_email row);
                  mret u
              end;
    _ ← match ur_new_role p with
        | Some r => lift (base_call (set_user_primary_role uid r))
        | None => mret tt
        end;
    _ ← (if is_some (ur_new_is_active p)
         then lift (trail_call (guard_call (broadcast (AllowLists All)))) else mret tt);
    _ ← match new_primary with
        | Some e => log_event now UserEmailChange (Some uid) (Some (uid_of caller))
                      (email_change_data (email (account existing)) e)
        | None => mret tt
        end;
    respond updated).

Definition change_own_password (now : instant) (c : AppConfig) (caller : AppUser)
    (current new_ : string) : H string :=
  unless (negb (knows_password (Some current) (password_hash (account caller))))
    (BadRequest "Current password is incorrect") (
    unless (short_password c new_) (BadRequest (too_short c)) (
      hash ← hash_new_password new_;
      _ ← lift (Accounts.update_user now (uid_of caller) (only_password hash));
      _ ← audit now UserPasswordChange (uid_of caller) (JObj []);
      mret "Password changed successfully"%string)).

Definition VALID_THEMES : list string :=
  ["system"; "css-light"; "css-dark"; "afterdark"; "her"; "forest"; "sky"; "clays"; "stones";
   "lofi"; "black"; "light"; "dark"; "cupcake"; "corporate"]%string.

(** [meta["theme"] = ..]: indexing anything but an object or null panics, so [None]. *)
Definition set_theme (theme : string) (meta : json) : option json :=
  match meta with
  | JNull => Some (JObj [("theme"%string, JStr theme)])
  | JObj fs => Some (JObj (if existsb (fun kv => kv.1 ≟ "theme"%string) fs
                           then (fun kv => if kv.1 ≟ "theme"%string then (kv.1, JStr theme) else kv) <$> fs
                           else fs ++ [("theme"%string, JStr theme)]))
  | _ => None
  end.

Definition update_user_theme (now : instant) (caller : AppUser) (uid : uuid) (theme : string)
    : H UserResponse :=
  _ ← self_or "admin.access" caller uid "You can only update your own theme";
  unless (negb (bool_decide (theme ∈ VALID_THEMES)))
    (BadRequest ("Invalid theme: " +:+ theme +:+ ". Must be one of: " +:+ Alerts.join ", " VALID_THEMES)) (
    existing ← load_user uid "User not found";
    meta ← or_error (set_theme theme (meta (account existing))) (InternalServerError "the handler panicked");
    u ← lift (Accounts.update_user now uid
      {| up_username := None; up_email := None; up_password_hash := None; up_full_name := None;
         up_is_active := None; up_profile := None; up_meta := Some meta |});
    respond u).

(** ** Addresses *)

(** Who may manage a user's addresses; whether that is the user. *)
Definition email_manager (caller : AppUser) (uid : uuid) : H bool :=
  if uid_of caller ≟ uid then mret true
  else
    yes ← user_has (uid_of caller) "users.manage";
    unless (negb yes) (Forbidden "You can only manage your own email addresses") (
      _ ← outranks caller uid;
      mret false).

Definition require_current_password (is_self : bool) (caller : AppUser) (given : option string)
    : H unit :=
  unless (is_self && negb (knows_password given (password_hash (account caller))))
    (BadRequest "Current password is incorrect") (mret tt).

Definition list_user_emails (caller : AppUser) (uid : uuid) : H (list UserEmail) :=
  _ ← self_or "users.manage" caller uid "You can only view your own email addresses";
  rows ← lift (Accounts.list_user_emails uid);
  match rows with [] => throw (NotFoundError "User not found") | _ => mret rows end.

Definition address_data (row : UserEmail) : json :=
  JObj [("address", JStr (ue_email row)); ("email_id", JStr (uuid_show (ue_id row)))]%string.

Definition added_email_error (e : DatabaseError) : ApiError :=
  match e with
  | UniqueViolation => Conflict "Email already exists"
  | ForeignKeyViolation => NotFoundError "User not found"
  | e => api_error e
  end.

Definition add_user_email (now : instant) (c : AppConfig) (caller : AppUser) (uid : uuid)
    (address : string) (given : option string) : H UserEmail :=
  is_self ← email_manager caller uid;
  _ ← require_current_password is_self caller given;
  let address := trim address in
  unless (negb (contains_byte "@" address)) (BadRequest "Invalid email format") (
    _ ← taken (lift (find_user_by_email address)) "Email already exists";
    row ← within_tables added_email_error
            (Accounts.add_user_email now uid address (stale_claim_cutoff now));
    _ ← log_event now UserEmailAdded (Some uid) (Some (uid_of caller)) (address_data row);
    _ ← issue_verification_mail_for now c uid (Some (ue_id row)) (ue_email row);
    mret row).

Definition load_address (uid eid : uuid) : H UserEmail :=
  row ← lift (get_user_email uid eid); or_error row (NotFoundError "Email address not found").

Definition remove_user_email (now : instant) (caller : AppUser) (uid eid : uuid) : H string :=
  _ ← email_manager caller uid;
  row ← load_address uid eid;
  unless (is_primary row)
    (BadRequest "The primary address cannot be removed; make another address primary first") (
    _ ← lift (Accounts.remove_user_email uid eid);
    _ ← log_event now UserEmailRemoved (Some uid) (Some (uid_of caller)) (address_data row);
    mret "Address removed"%string).

Definition set_primary_user_email (now : instant) (caller : AppUser) (uid eid : uuid)
    (given : option string) : H (list UserEmail) :=
  is_self ← email_manager caller uid;
  _ ← require_current_password is_self caller given;
  row ← load_address uid eid;
  unless (is_primary row) (BadRequest "That address is already the primary") (
    unless (negb (is_some (verified_at row)))
      (BadRequest "An address must be confirmed before it can become the primary") (
      old ← lift (Accounts.set_primary_user_email uid eid);
      _ ← log_event now UserEmailChange (Some uid) (Some (uid_of caller))
            (email_change_data old (ue_email row));
      lift (Accounts.list_user_emails uid))).

Definition resend_user_email (now : instant) (c : AppConfig) (caller : AppUser) (uid eid : uuid)
    : H string :=
  _ ← email_manager caller uid;
  row ← load_address uid eid;
  unless (is_some (verified_at row)) (BadRequest "That address is already confirmed") (
    _ ← issue_verification_mail_for now c uid
          (if is_primary row then None else Some (ue_id row)) (ue_email row);
    mret "Confirmation link sent"%string).

End UsersApi.
End UsersApi.
