(* ===== verification/AccountSurface.v ===== *)
(** * The surface of accounts

    What an administrator does to users, roles and factors
    ([server/src/api/admin.rs]), and [serve]: every request to the account routes,
    each behind the extractor it names. *)
From Stdlib Require Import QArith Ascii.
From S2P Require Import Prelude Text Rbac Schedules Access Faults Money AuditLog Database Api Throttle Power Training GuardStore Hooks Trail Alerts Accounts Auth Mfa MfaApi AuthApi UsersApi.
Import Text Rbac Faults Money Audit Database Api Power Training GuardStore Hooks Trail Accounts Auth Mfa MfaApi AuthApi UsersApi.

Module AccountSurface.

#[local] Open Scope Z_scope.

Section AccountSurface.
Context {U : Uuid} {IS : IdSource} {JT : JsonbText} {CF : CaseFold} {PH : PasswordHashUtil}
  {JW : Jwt} {TL : TotpLib} {WL : WebauthnLib} {EN : Entropy} {ML : Mailer} {TH : TokenHash}
  {RC : Recaptcha}.
Context (frozen : AuthMfaConfig) (webauthn : bool) (error_text : ApiError -> string)
  (header_value : string -> bool).

Abbreviation H := (Faults.M Server ApiError).

(** ** Roles and activity *)

Record RosterUser := {
  ro_id : uuid;
  ro_username : string;
  ro_email : string;
  ro_full_name : string;
  ro_is_active : bool;
  ro_role : string;
  ro_created_at : instant;
  ro_mfa_enrolled_at : option instant;
}.

Definition roster_user (u : AppUser) (role : string) : RosterUser := {|
  ro_id := uid_of u; ro_username := username (account u); ro_email := email (account u);
  ro_full_name := full_name (person u); ro_is_active := is_active (person u); ro_role := role;
  ro_created_at := created_at (account u); ro_mfa_enrolled_at := mfa_enrolled_at (account u) |}.

Definition republish : H unit := lift (base_call republish_all).

Definition role_change_data (u : AppUser) (old new_ : string) : json :=
  JObj [("old_role", JStr old); ("new_role", JStr new_); ("username", JStr (username (account u)));
        ("action", JStr "User role updated by admin")]%string.

Definition update_user_role (now : instant) (admin : AppUser) (uid : uuid) (role : string)
    : H RosterUser :=
  target ← load_user uid "User not found";
  unless (negb (bool_decide (role ∈ TIERS))) (BadRequest ("unknown role: " +:+ role)) (
    old ← primary_role uid;
    _ ← lift (base_call (set_user_primary_role uid role));
    _ ← log_event now UserRoleChange (Some uid) (Some (uid_of admin)) (role_change_data target old role);
    _ ← republish;
    mret (roster_user target role)).

Definition get_role (rid : uuid) : Faults.M Db DatabaseError (option Role) :=
  select (fun db => find_first (fun r => role_id r ≟ rid) (roles db)).

Definition insert_user_role (uid rid : uuid) : Faults.M Db DatabaseError unit :=
  call (fun db =>
    if negb (is_some (users db !! uid)) || negb (existsb (fun r => role_id r ≟ rid) (roles db))
    then (db, inr ForeignKeyViolation)
    else (with_user_roles (fun rows => if bool_decide ((uid, rid) ∈ rows) then rows
                                       else rows ++ [(uid, rid)]) db, inl tt)).

Definition delete_user_role (uid rid : uuid) : Faults.M Db DatabaseError nat :=
  call (fun db =>
    (with_user_roles (delete_where (fun ur => ur ≟ (uid, rid))) db,
     inl (length (List.filter (fun ur => ur ≟ (uid, rid)) (user_roles db))))).

Definition assign_user_role (now : instant) (admin : AppUser) (uid rid : uuid) : H unit :=
  _ ← load_user uid "user not found";
  role ← lift (base_call (get_role rid));
  role ← or_error role (NotFoundError "role not found");
  _ ← lift (base_call (insert_user_role uid rid));
  log_event now UserRoleAssigned (Some uid) (Some (uid_of admin))
    (JObj [("role_id", JStr (uuid_show (role_id role))); ("role", JStr (role_name role))]%string).

(** The last administrator keeps the role that makes them one. *)
Definition unassign_user_role (now : instant) (admin : AppUser) (uid rid : uuid) : H unit :=
  is_admin ← user_has uid "admin.access";
  last ← (if is_admin : bool then
            held ← lift (base_call (select (fun db => roles_for_user db uid)));
            g ← lift (base_call rbac_graph);
            if has_permission g (List.filter (fun r => negb (r ≟ rid)) held) "admin.access"
            then mret false
            else n ← lift (base_call count_active_admins); mret (n <=? 1)
          else mret false);
  unless last (Forbidden "cannot remove the last administrator's admin access") (
    removed ← lift (base_call (delete_user_role uid rid));
    unless (removed =? 0)%nat (NotFoundError "the user does not hold that role") (
      log_event now UserRoleUnassigned (Some uid) (Some (uid_of admin))
        (JObj [("role_id"%string, JStr (uuid_show rid))]))).

Definition only_active (b : bool) : UpdateUser := {|
  up_username := None; up_email := None; up_password_hash := None; up_full_name := None;
  up_is_active := Some b; up_profile := None; up_meta := None |}.

Definition activity_data (u : AppUser) (b : bool) : json :=
  JObj [("username", JStr (username (account u)));
        ("action", JStr (if b then "User activated by admin" else "User deactivated by admin"))]%string.

(** [activate_user] and [deactivate_user]. *)
Definition set_active (b : bool) (now : instant) (admin : AppUser) (uid : uuid) : H RosterUser :=
  _ ← load_user uid "User not found";
  u ← lift (Accounts.update_user now uid (only_active b));
  role ← primary_role (uid_of u);
  _ ← log_event now (if b then UserActivation else UserDeactivation) (Some (uid_of u))
        (Some (uid_of admin)) (activity_data u b);
  _ ← republish;
  mret (roster_user u role).

Definition activate_user := set_active true.
Definition deactivate_user := set_active false.

(** ** Factors *)

Record AdminMfaView := {
  am_totp : list TotpAuthenticatorResponse;
  am_webauthn : list WebauthnCredentialResponse;
  am_recovery_codes_remaining : Z;
  am_mfa_enrolled_at : option instant;
}.

Definition list_user_mfa (uid : uuid) : H AdminMfaView :=
  target ← load_user uid "User not found";
  ts ← lift (list_user_totp uid);
  ws ← webauthn_list target;
  n ← lift (count_unused_recovery_codes uid);
  mret {| am_totp := authenticator <$> List.filter is_confirmed ts; am_webauthn := ws;
          am_recovery_codes_remaining := n; am_mfa_enrolled_at := mfa_enrolled_at (account target) |}.

Definition admin_reset_user_mfa (now : instant) (admin : AppUser) (uid : uuid) : H string :=
  target ← load_user uid "User not found";
  _ ← lift (reset_user_mfa uid);
  _ ← log_event now MfaTotpDisabled (Some uid) (Some (uid_of admin))
        (JObj [("reason", JStr "admin_reset");
               ("target_username", JStr (username (account target)))]%string);
  mret ("MFA reset for user " +:+ username (account target))%string.

Definition removed_data (target : AppUser) (what : string) (id : uuid) (label : string) : json :=
  JObj [("reason", JStr "admin_removed"); (what, JStr (uuid_show id)); ("label", JStr label);
        ("target_username", JStr (username (account target)))]%string.

Definition remove_user_totp (now : instant) (admin : AppUser) (uid fid : uuid) : H AdminMfaView :=
  target ← load_user uid "User not found";
  rows ← lift (list_user_totp uid);
  t ← or_error (find_first (fun t => totp_id t ≟ fid) rows) (NotFoundError "No such authenticator");
  _ ← lift (delete_user_totp uid fid);
  _ ← lift (recompute_user_mfa_enrolled now uid);
  _ ← log_event now MfaTotpDisabled (Some uid) (Some (uid_of admin))
        (removed_data target "totp_id" fid (totp_label t));
  list_user_mfa uid.

Definition remove_user_webauthn (now : instant) (admin : AppUser) (uid fid : uuid)
    : H AdminMfaView :=
  target ← load_user uid "User not found";
  rows ← lift (list_user_webauthn uid);
  w ← or_error (find_first (fun w => wa_id w ≟ fid) rows) (NotFoundError "No such security key");
  _ ← lift (delete_user_webauthn uid fid);
  _ ← lift (recompute_user_mfa_enrolled now uid);
  _ ← log_event now MfaWebauthnRemoved (Some uid) (Some (uid_of admin))
        (removed_data target "credential_id" fid (wa_label (wa_row w)));
  list_user_mfa uid.

(** ** The routes *)

Inductive Request : Type :=
  | PostRegister (r : RegisterRequest)
  | PostLogin (r : LoginRequest)
  | GetMe
  | PostLogout
  | PostResetRequest (address : string)
  | PostResetConsume (token new_password : string)
  | PostVerifyEmail (token : string)
  | PostResend (address : string)
  | PostVerify (r : MfaVerifyRequest)
  | GetStatus
  | PostTotpSetup (payload : option (option string))
  | PostTotpConfirm (wanted : option uuid) (code : string)
  | DeleteTotp (tid : uuid)
  | GetWebauthn
  | DeleteWebauthn (wid : uuid)
  | PostRegisterBegin (label : string)
  | PostRegisterFinish (challenge : string) (response : json)
  | PostRegenerate
  | GetUser (uid : uuid)
  | PutUser (uid : uuid) (p : UpdateUserRequest)
  | PutPassword (current new_ : string)
  | PatchTheme (uid : uuid) (theme : string)
  | GetEmails (uid : uuid)
  | PostEmail (uid : uuid) (address : string) (given : option string)
  | DeleteEmail (uid eid : uuid)
  | PutPrimary (uid eid : uuid) (given : option string)
  | PostEmailResend (uid eid : uuid)
  | PutRole (uid : uuid) (role : string)
  | PostAssign (uid rid : uuid)
  | DeleteAssign (uid rid : uuid)
  | PutActive (uid : uuid) (b : bool)
  | GetUserMfa (uid : uuid)
  | DeleteUserMfa (uid : uuid)
  | DeleteUserTotp (uid fid : uuid)
  | DeleteUserWebauthn (uid fid : uuid).

Inductive Response : Type :=
  | RSession (s : Session)
  | RChallenge (m : MfaChallenge)
  | RText (s : string)
  | RUser (u : UserResponse)
  | RMe (x : UserResponse * list string * list string)
  | RCookie (s : option string)
  | RStatus (s : MfaStatusResponse)
  | RSetup (s : MfaTotpSetupResponse)
  | RCodes (l : list string)
  | RPasskeys (l : list WebauthnCredentialResponse)
  | RCeremony (x : string * json)
  | RId (id : uuid)
  | REmails (l : list UserEmail)
  | RRoster (u : RosterUser)
  | RMfa (v : AdminMfaView)
  | ROk.

Definition answered (a : LoginAnswer) : Response :=
  match a with Challenged m => RChallenge m | LoggedIn s => RSession s end.

(** A route behind [AuthUser], and behind [AdminUser]. *)
Definition as_user {A} (now : instant) (c : AppConfig) (h : Headers) (k : AppUser -> H A) : H A :=
  u ← lift_auth (auth_user now c h); k u.
Definition as_admin {A} (now : instant) (c : AppConfig) (h : Headers) (k : AppUser -> H A) : H A :=
  u ← lift_auth (admin_user now c h); k u.

Definition serve (now : instant) (c : AppConfig) (h : Headers) (r : Request) : H Response :=
  let user {A} := as_user (A := A) now c h in
  let admin {A} := as_admin (A := A) now c h in
  match r with
  | PostRegister r => '(u, _) ← register now c r; mret (RUser u)
  | PostLogin r => answered <$> login webauthn header_value now c r
  | GetMe => user (fun u => RMe <$> me u)
  | PostLogout => RCookie <$> logout header_value c
  | PostResetRequest a => RText <$> password_reset_request now c a
  | PostResetConsume t p => RText <$> password_reset_consume now c t p
  | PostVerifyEmail t => RText <$> verify_email now t
  | PostResend a => RText <$> resend_verification now c a
  | PostVerify r => RSession <$> verify_login frozen webauthn error_text header_value now c r
  | GetStatus => user (fun u => RStatus <$> status frozen u)
  | PostTotpSetup p => user (fun u => RSetup <$> totp_setup frozen now c u p)
  | PostTotpConfirm w k => user (fun u => RCodes <$> totp_confirm frozen now c u w k)
  | DeleteTotp t => user (fun u => _ ← totp_disable now u t; mret (RText "TOTP disabled"))
  | GetWebauthn => user (fun u => RPasskeys <$> webauthn_list u)
  | DeleteWebauthn w => user (fun u => _ ← webauthn_remove now u w; mret (RText "Credential removed"))
  | PostRegisterBegin l => user (fun u => RCeremony <$> webauthn_register_begin webauthn now c u l)
  | PostRegisterFinish t v => user (fun u => RId <$> webauthn_register_finish webauthn now c u t v)
  | PostRegenerate => user (fun u => RCodes <$> recovery_regenerate frozen now c u)
  | GetUser uid => user (fun u => RUser <$> get_user_by_id u uid)
  | PutUser uid p => user (fun u => RUser <$> update_user now c u uid p)
  | PutPassword a b => user (fun u => RText <$> change_own_password now c u a b)
  | PatchTheme uid t => user (fun u => RUser <$> update_user_theme now u uid t)
  | GetEmails uid => user (fun u => REmails <$> list_user_emails u uid)
  | PostEmail uid a p => user (fun u => e ← add_user_email now c u uid a p; mret (REmails [e]))
  | DeleteEmail uid e => user (fun u => RText <$> remove_user_email now u uid e)
  | PutPrimary uid e p => user (fun u => REmails <$> set_primary_user_email now u uid e p)
  | PostEmailResend uid e => user (fun u => RText <$> resend_user_email now c u uid e)
  | PutRole uid r => admin (fun u => RRoster <$> update_user_role now u uid r)
  | PostAssign uid r => admin (fun u => _ ← assign_user_role now u uid r; mret ROk)
  | DeleteAssign uid r => admin (fun u => _ ← unassign_user_role now u uid r; mret ROk)
  | PutActive uid b => admin (fun u => RRoster <$> set_active b now u uid)
  | GetUserMfa uid => admin (fun _ => RMfa <$> list_user_mfa uid)
  | DeleteUserMfa uid => admin (fun u => RText <$> admin_reset_user_mfa now u uid)
  | DeleteUserTotp uid f => admin (fun u => RMfa <$> remove_user_totp now u uid f)
  | DeleteUserWebauthn uid f => admin (fun u => RMfa <$> remove_user_webauthn now u uid f)
  end.

End AccountSurface.
End AccountSurface.
