(* ===== verification/AccountFrames.v ===== *)
(** * What the account handlers leave alone

    [calm I]: an invariant that every table method, draw, message and count keeps.  A
    handler that does not touch the challenge store keeps a calm invariant, whatever
    faults it meets; the store's own lemmas are at the end. *)
From Stdlib Require Import QArith Ascii.
From S2P Require Import Prelude Text Rbac Schedules Access Faults Money AuditLog Database Api Throttle Power Training GuardStore Hooks Trail Alerts Accounts Auth Mfa MfaApi AuthApi UsersApi AccountSurface.
Import Text Rbac Faults Money Audit Database Api Power Training GuardStore Hooks Trail Accounts Auth Mfa MfaApi AuthApi UsersApi AccountSurface.

Module AccountFrames.

#[local] Open Scope Z_scope.

(** ** Runs that only look *)
Section Looks.
Context {D E : Type} {F : FaultError E}.

Definition looks {A} (m : Faults.M D E A) : Prop := reads m (fun _ _ => True).

Lemma looks_ret {A} (x : A) : looks (mret x).
Proof. by apply reads_ret. Qed.

Lemma looks_throw {A} (e : E) : looks (A := A) (throw e).
Proof. apply reads_throw. Qed.

Lemma looks_select {A} (f : D -> A) : looks (select f).
Proof. eapply reads_weaken; [apply reads_select | done]. Qed.

Lemma looks_bind {A B} (m : Faults.M D E A) (k : A -> Faults.M D E B) :
  looks m -> (forall x, looks (k x)) -> looks (m ≫= k).
Proof.
  intros Hm Hk. eapply reads_bind; [apply Hm|]. intros x. eapply reads_weaken; [apply Hk|done].
Qed.

Lemma looks_attempt {A} (m : Faults.M D E A) : looks m -> looks (attempt m).
Proof. intros Hm. eapply reads_weaken; [by apply reads_attempt | done]. Qed.

End Looks.
#[global] Arguments looks {D E A}.

Lemma looks_map_err {D E E' A} (f : E -> E') (m : Faults.M D E A) : looks m -> looks (map_err f m).
Proof. apply reads_map_err. Qed.

Lemma looks_within {D P E A} `{Part D P} (m : Faults.M P E A) : looks m -> looks (within (D := D) m).
Proof. apply reads_within. Qed.

Ltac run_looks :=
  repeat first
    [ apply looks_ret | apply looks_throw | apply looks_select | apply looks_attempt
    | apply looks_map_err | apply looks_within | apply looks_bind; [|intros ?] | case_match ].

Section Frames.
Context {U : Uuid} {IS : IdSource} {JT : JsonbText} {CF : CaseFold} {PH : PasswordHashUtil}
  {JW : Jwt} {TL : TotpLib} {WL : WebauthnLib} {EN : Entropy} {ML : Mailer} {TH : TokenHash}
  {RC : Recaptcha}.
Context (frozen : AuthMfaConfig) (webauthn : bool) (error_text : ApiError -> string)
  (header_value : string -> bool).

Abbreviation H := (Faults.M Server ApiError).
Abbreviation Store := (gmap string StoredChallenge).

(** ** Tables *)

(** A predicate on the tables that does not look at the trail is kept by every call on
    the tables underneath. *)
Definition off_trail (K : AccountDb -> Prop) : Prop := forall t db, K db -> K (with_trail t db).

Lemma keeps_trail_call {A} K (m : Faults.M TrailDb DatabaseError A) :
  off_trail K -> keeps K (trail_call m).
Proof. intros HK. apply keeps_within_frame. intros db t. apply HK. Qed.

Definition of_tables (K : AccountDb -> Prop) (s : Server) : Prop := K (tables s).

Lemma keeps_within_tables {A E} K (m : Faults.M AccountDb E A) :
  keeps K m -> keeps (of_tables K) (within (P := AccountDb) m).
Proof.
  intros Hm s fs Hs _. specialize (Hm (tables s) fs Hs Logic.I). unfold within. cbn [part server_tables].
  destruct (m (tables s, fs)) as [[t fs'] r]. destruct Hm as [Hm _]. by destruct r.
Qed.

(** The methods on the tables of accounts, and anything underneath them. *)
Inductive table_method : forall {A}, Faults.M AccountDb DatabaseError A -> Prop :=
  | in_trail A (m : Faults.M TrailDb DatabaseError A) : table_method (trail_call m)
  | in_create_user now n role : table_method (create_user now n role)
  | in_update_user now uid up : table_method (Accounts.update_user now uid up)
  | in_add_email now uid a b : table_method (Accounts.add_user_email now uid a b)
  | in_remove_email uid eid : table_method (Accounts.remove_user_email uid eid)
  | in_set_primary uid eid : table_method (Accounts.set_primary_user_email uid eid)
  | in_replace now uid a b : table_method (replace_primary_user_email now uid a b)
  | in_verified now uid eid : table_method (mark_email_verified now uid eid)
  | in_reset now uid h e : table_method (create_password_reset_token now uid h e)
  | in_claim_reset now h : table_method (claim_password_reset_token now h)
  | in_verification now uid eid h e : table_method (create_email_verification_token now uid eid h e)
  | in_claim_verification now h : table_method (claim_email_verification_token now h)
  | in_setup now uid s l : table_method (begin_totp_setup now uid s l)
  | in_delete_totp uid tid : table_method (delete_user_totp uid tid)
  | in_insert_webauthn now n : table_method (insert_user_webauthn now n)
  | in_delete_webauthn uid wid : table_method (delete_user_webauthn uid wid)
  | in_touch now uid k : table_method (touch_user_webauthn_last_used now uid k)
  | in_codes uid hs : table_method (replace_user_recovery_codes uid hs)
  | in_mark now cid : table_method (mark_recovery_code_used now cid)
  | in_enrolled uid w : table_method (set_user_mfa_enrolled uid w)
  | in_reset_mfa uid : table_method (reset_user_mfa uid).

(** The two writes of an authenticator that answers a code are left to [confirms]. *)
Record calm (I : Server -> Prop) : Prop := {
  calm_throttles : forall t s, I s -> I (with_throttles t s);
  calm_draws : forall n s, 0 <= n -> I s -> I (drawn n s);
  calm_outbox : forall m s, I s -> I (posted m s);
  calm_method : forall A (m : Faults.M AccountDb DatabaseError A),
    table_method m -> keeps I (within (P := AccountDb) m);
}.

Lemma calm_tables K : (forall A (m : Faults.M AccountDb DatabaseError A), table_method m -> keeps K m) ->
  calm (of_tables K).
Proof. intros HK. split; [done..|]. intros A m Hm. by apply keeps_within_tables, HK. Qed.

Context (I : Server -> Prop) (HI : calm I).

(** ** What only looks *)

Lemma looks_auth_user now c h : looks (auth_user now c h).
Proof. unfold auth_user, get_user_from_token, internal_error, of_auth, find_user_by_id. run_looks. Qed.

Lemma looks_base {A} (f : Db -> A) : looks (base_call (select f)).
Proof. unfold base_call, trail_call, guard_call, money_call, Training.base_call. run_looks. Qed.

Lemma looks_having key what now c h : looks (having key what now c h).
Proof.
  unfold having, internal_error, user_has_permission. apply looks_bind; [apply looks_auth_user|].
  intros u. apply looks_bind; [apply looks_map_err, looks_base|]. intros []; run_looks.
Qed.

Lemma looks_authenticate ident password : looks (authenticate_user ident password).
Proof.
  unfold authenticate_user, lookup_identity, internal_error, of_auth, find_user_by_username,
    find_user_by_email. run_looks.
Qed.

Lemma keeps_lift_looks {A} (m : Faults.M AccountDb DatabaseError A) : looks m -> keeps I (lift m).
Proof. intros Hm. eapply keeps_reads, looks_map_err, looks_within, Hm. Qed.

Lemma keeps_lift_auth_looks {A} (m : Faults.M AccountDb AuthError A) : looks m -> keeps I (lift_auth m).
Proof. intros Hm. eapply keeps_reads, looks_map_err, looks_within, Hm. Qed.

Lemma keeps_select_tables {A} (f : AccountDb -> A) : keeps I (lift (select f)).
Proof. apply keeps_lift_looks, looks_select. Qed.

(** ** Small parts *)

Lemma keeps_method {A} (m : Faults.M AccountDb DatabaseError A) : table_method m -> keeps I (lift m).
Proof. intros Hm. by apply keeps_map_err, (calm_method I HI). Qed.


Lemma keeps_draw n : 0 <= n -> keeps I (draw n).
Proof.
  intros Hn. unfold draw. apply keeps_bind; [apply keeps_peek|]. intros i.
  apply keeps_bind; [|intros []; apply keeps_ret].
  apply triple_effect. intros s Hs _. split; [by apply (calm_draws I HI)|done].
Qed.

Lemma keeps_on_throttles {A} (f : Throttle.Table -> Throttle.Table * A) : keeps I (on_throttles f).
Proof.
  unfold on_throttles. apply keeps_bind; [apply keeps_peek|]. intros x.
  apply keeps_bind; [|intros []; apply keeps_ret].
  apply triple_effect. intros s Hs _. split; [by apply (calm_throttles I HI)|done].
Qed.

Lemma keeps_send m : keeps I (send m).
Proof.
  unfold send. apply keeps_bind; [by apply keeps_draw|]. intros i.
  apply keeps_bind; [|intros []; apply keeps_ret].
  apply triple_effect. intros s Hs _. split; [by apply (calm_outbox I HI)|done].
Qed.

Lemma keeps_logged now event user actor data : keeps I (Mfa.log_event now event user actor data).
Proof. apply keeps_method, in_trail. Qed.

Lemma keeps_or_error {A} (o : option A) e : keeps I (or_error o e).
Proof. destruct o; [apply keeps_ret | apply keeps_throw]. Qed.

Lemma keeps_fmap {A B} (f : A -> B) (m : H A) : keeps I m -> keeps I (f <$> m).
Proof. intros Hm. apply keeps_bind; [done|]. intros x. apply keeps_ret. Qed.

Lemma keeps_republished : keeps I republish.
Proof. apply keeps_method, in_trail. Qed.

Lemma keeps_auth_user now c h : keeps I (lift_auth (auth_user now c h)).
Proof. apply keeps_lift_auth_looks, looks_auth_user. Qed.

Lemma keeps_admin_user now c h : keeps I (lift_auth (admin_user now c h)).
Proof. apply keeps_lift_auth_looks, looks_having. Qed.

Lemma keeps_authenticate ident p : keeps I (lift_auth (authenticate_user ident p)).
Proof. apply keeps_lift_auth_looks, looks_authenticate. Qed.

Lemma keeps_of_auth {A} (r : AuthError + A) : keeps I (lift_auth (of_auth r)).
Proof. apply keeps_lift_auth_looks. unfold of_auth. run_looks. Qed.

Lemma keeps_base {A} (m : Faults.M Db DatabaseError A) : keeps I (lift (base_call m)).
Proof. apply keeps_method, (in_trail A). Qed.

Lemma keeps_error {A E} (f : E -> ApiError) (m : Faults.M AccountDb E A) :
  keeps I (within (P := AccountDb) m) -> keeps I (map_err f (within (P := AccountDb) m)).
Proof. apply keeps_map_err. Qed.

Lemma keeps_recompute now uid : keeps I (lift (recompute_user_mfa_enrolled now uid)).
Proof.
  assert (forall A B (m : Faults.M AccountDb DatabaseError A) (k : A -> Faults.M AccountDb DatabaseError B),
    keeps I (lift m) -> (forall x, keeps I (lift (k x))) -> keeps I (lift (m ≫= k))) as Hbind.
  { intros A B m k Hm Hk. intros s fs Hs _. specialize (Hm s fs Hs Logic.I).
    unfold lift, map_err, within, mbind, M_bind in *. cbn [part Faults.put server_tables] in *.
    destruct (m (tables s, fs)) as [[t fs'] [x|e]]; [|exact Hm]. destruct Hm as [Hm _].
    specialize (Hk x _ fs' Hm Logic.I). unfold lift, map_err, within in Hk.
    cbn [part Faults.put server_tables with_tables tables] in Hk.
    destruct (k x (t, fs')) as [[t2 fs2] [y|e]]; exact Hk. }
  unfold recompute_user_mfa_enrolled, list_user_totp, list_user_webauthn.
  apply Hbind; [apply keeps_select_tables|]. intros ts.
  apply Hbind; [apply keeps_select_tables|]. intros ws.
  apply Hbind; [apply keeps_method; constructor|]. intros []. apply keeps_lift_looks, looks_ret.
Qed.

Ltac run_calm :=
  repeat first
    [ progress cbv beta zeta
    | apply keeps_ret | apply keeps_throw
    | apply keeps_logged | apply keeps_draw; lia | apply keeps_on_throttles | apply keeps_send
    | apply keeps_or_error | apply keeps_select_tables | apply keeps_of_auth
    | apply keeps_auth_user | apply keeps_admin_user | apply keeps_authenticate
    | apply keeps_republished | apply keeps_recompute | apply keeps_base
    | apply keeps_method; constructor
    | apply (calm_method I HI); constructor
    | solve [auto with css]
    | apply keeps_error | apply keeps_unless | apply keeps_attempt | apply keeps_fmap
    | apply keeps_bind; [|intros ?] | case_match ].

(** ** Throttles, codes and messages *)

Lemma keeps_throttled on id max secs now f : keeps I (throttled on id max secs now f).
Proof. unfold throttled. run_calm. Qed.

Lemma keeps_count_failure on id max secs now : keeps I (count_failure on id max secs now).
Proof. unfold count_failure. run_calm. Qed.

Lemma keeps_count_success on id : keeps I (count_success on id).
Proof. unfold count_success. run_calm. Qed.

Lemma keeps_taken {A} (m : H (option A)) message : keeps I m -> keeps I (taken m message).
Proof. intros Hm. unfold taken. run_calm. Qed.

Lemma keeps_hash_new p : keeps I (hash_new_password p).
Proof. unfold hash_new_password. run_calm. Qed.

Lemma keeps_hash_codes codes : keeps I (hash_codes codes).
Proof. induction codes as [|k codes IH]; simpl; run_calm. Qed.

Lemma keeps_mint now uid : keeps I (mint_recovery_codes frozen now uid).
Proof.
  unfold mint_recovery_codes, generate_recovery_codes, audit.
  repeat first [apply keeps_hash_codes | run_calm].
Qed.

Lemma keeps_issue_mail now c uid eid a : keeps I (issue_verification_mail_for now c uid eid a).
Proof. unfold issue_verification_mail_for, AuthApi.generate_token. run_calm. Qed.

Hint Resolve keeps_throttled keeps_count_failure keeps_count_success keeps_taken keeps_hash_new
  keeps_hash_codes keeps_mint keeps_issue_mail : css.

Lemma keeps_issue_token now c u : keeps I (issue_token now c u).
Proof. unfold issue_token. run_calm. Qed.

(** ** The handlers that leave the store alone *)

Lemma keeps_user_has uid key : keeps I (user_has uid key).
Proof. apply keeps_base. Qed.

Lemma keeps_load uid message : keeps I (load_user uid message).
Proof. unfold load_user, find_user_by_id. run_calm. Qed.

Lemma keeps_load_address uid eid : keeps I (load_address uid eid).
Proof. unfold load_address, get_user_email. run_calm. Qed.

Lemma keeps_self_or key caller uid message : keeps I (self_or key caller uid message).
Proof. unfold self_or. repeat first [apply keeps_user_has | run_calm]. Qed.

Lemma keeps_outranks caller uid : keeps I (outranks caller uid).
Proof. unfold outranks, level_of. run_calm. Qed.

Lemma keeps_respond u : keeps I (respond u).
Proof. unfold respond, primary_role. run_calm. Qed.

Lemma keeps_manager caller uid : keeps I (email_manager caller uid).
Proof. unfold email_manager. repeat first [apply keeps_user_has | apply keeps_outranks | run_calm]. Qed.

Lemma keeps_current b caller given : keeps I (require_current_password b caller given).
Proof. unfold require_current_password. run_calm. Qed.

Lemma keeps_need c : keeps I (require_enabled c).
Proof. unfold require_enabled. run_calm. Qed.

Hint Resolve keeps_issue_token keeps_user_has keeps_load keeps_load_address keeps_self_or
  keeps_outranks keeps_respond keeps_manager keeps_current keeps_need : css.

Lemma keeps_register now c r : keeps I (register now c r).
Proof.
  unfold register, check_challenge, check_recaptcha, assigned_role, find_user_by_username,
    find_user_by_email. run_calm.
Qed.

Lemma keeps_check_password now c r : keeps I (check_password now c r).
Proof. unfold check_password. run_calm. Qed.

Lemma keeps_start_session now c u : keeps I (start_session header_value now c u).
Proof. unfold start_session. run_calm. Qed.

Lemma keeps_reset_target a : keeps I (reset_target a).
Proof. unfold reset_target, find_user_email, find_user_by_id. run_calm. Qed.

Lemma keeps_counted now id f : keeps I (counted_request now id f).
Proof. unfold counted_request. run_calm. Qed.

Hint Resolve keeps_reset_target keeps_counted keeps_check_password keeps_start_session : css.

Lemma keeps_reset_request now c a : keeps I (password_reset_request now c a).
Proof. unfold password_reset_request, AuthApi.generate_token. run_calm. Qed.

Lemma keeps_reset_consume now c t p : keeps I (password_reset_consume now c t p).
Proof. unfold password_reset_consume. run_calm. Qed.

Lemma keeps_verify_email now t : keeps I (verify_email now t).
Proof. unfold verify_email. run_calm. Qed.

Lemma keeps_resend now c a : keeps I (resend_verification now c a).
Proof. unfold resend_verification, find_user_email. run_calm. Qed.

Lemma keeps_me u : keeps I (me u).
Proof. unfold me. run_calm. Qed.

Lemma keeps_status u : keeps I (status frozen u).
Proof.
  unfold status, list_user_totp, list_user_webauthn, count_unused_recovery_codes. run_calm.
Qed.

Lemma keeps_totp_setup now c u p : keeps I (totp_setup frozen now c u p).
Proof. unfold totp_setup. run_calm. Qed.

Lemma keeps_totp_disable now u t : keeps I (totp_disable now u t).
Proof. unfold totp_disable, list_user_totp, audit. run_calm. Qed.

Lemma keeps_webauthn_list u : keeps I (webauthn_list u).
Proof. unfold webauthn_list, list_user_webauthn. run_calm. Qed.

Lemma keeps_webauthn_remove now u w : keeps I (webauthn_remove now u w).
Proof. unfold webauthn_remove, audit. run_calm. Qed.

Lemma keeps_regenerate now c u : keeps I (recovery_regenerate frozen now c u).
Proof. unfold recovery_regenerate. run_calm. Qed.

Lemma keeps_get_user u uid : keeps I (get_user_by_id u uid).
Proof. unfold get_user_by_id. run_calm. Qed.

Lemma keeps_put_user now c u uid p : keeps I (update_user now c u uid p).
Proof.
  unfold update_user, check_role, check_credentials, new_hash, check_new_primary,
    check_new_username, find_user_by_username, find_user_by_email. run_calm.
Qed.

Lemma keeps_change_password now c u a b : keeps I (change_own_password now c u a b).
Proof. unfold change_own_password, audit. run_calm. Qed.

Lemma keeps_theme now u uid t : keeps I (update_user_theme now u uid t).
Proof. unfold update_user_theme. run_calm. Qed.

Lemma keeps_emails u uid : keeps I (list_user_emails u uid).
Proof. unfold list_user_emails, Accounts.list_user_emails. run_calm. Qed.

Lemma keeps_add_email now c u uid a p : keeps I (add_user_email now c u uid a p).
Proof. unfold add_user_email, find_user_by_email. run_calm. Qed.

Lemma keeps_delete_email now u uid e : keeps I (remove_user_email now u uid e).
Proof. unfold remove_user_email. run_calm. Qed.

Lemma keeps_put_primary now u uid e p : keeps I (set_primary_user_email now u uid e p).
Proof. unfold set_primary_user_email, Accounts.list_user_emails. run_calm. Qed.

Lemma keeps_email_resend now c u uid e : keeps I (resend_user_email now c u uid e).
Proof. unfold resend_user_email. run_calm. Qed.

Lemma keeps_put_role now u uid r : keeps I (update_user_role now u uid r).
Proof. unfold update_user_role, primary_role. run_calm. Qed.

Lemma keeps_role_assign now u uid r : keeps I (assign_user_role now u uid r).
Proof. unfold assign_user_role. run_calm. Qed.

Lemma keeps_unassign now u uid r : keeps I (unassign_user_role now u uid r).
Proof. unfold unassign_user_role. run_calm. Qed.

Lemma keeps_set_active b now u uid : keeps I (set_active b now u uid).
Proof. unfold set_active, primary_role. run_calm. Qed.

Lemma keeps_user_mfa uid : keeps I (list_user_mfa uid).
Proof.
  unfold list_user_mfa, list_user_totp, count_unused_recovery_codes.
  repeat first [apply keeps_webauthn_list | run_calm].
Qed.

Hint Resolve keeps_user_mfa : css.

Lemma keeps_admin_reset now u uid : keeps I (admin_reset_user_mfa now u uid).
Proof. unfold admin_reset_user_mfa. run_calm. Qed.

Lemma keeps_remove_totp now u uid f : keeps I (remove_user_totp now u uid f).
Proof. unfold remove_user_totp, list_user_totp. run_calm. Qed.

Lemma keeps_remove_webauthn now u uid f : keeps I (remove_user_webauthn now u uid f).
Proof. unfold remove_user_webauthn, list_user_webauthn. run_calm. Qed.

(** ** Factors presented *)

Lemma keeps_verify_webauthn now u challenge r : keeps I (verify_webauthn_path webauthn now u challenge r).
Proof. unfold verify_webauthn_path, need_webauthn. run_calm. Qed.

Lemma keeps_try_codes now u k rows : keeps I (try_codes now u k rows).
Proof. induction rows as [|row rows IH]; simpl; unfold audit; run_calm. Qed.

Lemma keeps_verify_recovery now u k : keeps I (verify_recovery_path now u k).
Proof.
  unfold verify_recovery_path, list_unused_recovery_codes.
  repeat first [apply keeps_try_codes | run_calm].
Qed.

(** ** The whole surface

    For an invariant that does not look at the store, and that confirming and answering
    with an authenticator keep as well. *)
Section Whole.
Context (Hconfirm : forall now c u w k, keeps I (totp_confirm frozen now c u w k)).

(** The routes that reach the challenge store. *)
Definition on_store (r : Request) : Prop :=
  match r with
  | PostLogin _ | PostVerify _ | PostRegisterBegin _ | PostRegisterFinish _ _ => True
  | _ => False
  end.

Hint Resolve keeps_register keeps_me keeps_reset_request keeps_reset_consume
  keeps_verify_email keeps_resend keeps_status keeps_totp_setup keeps_totp_disable
  keeps_webauthn_list keeps_webauthn_remove keeps_regenerate
  keeps_get_user keeps_put_user keeps_change_password keeps_theme keeps_emails keeps_add_email
  keeps_delete_email keeps_put_primary keeps_email_resend keeps_put_role keeps_role_assign
  keeps_unassign keeps_set_active keeps_admin_reset keeps_remove_totp keeps_remove_webauthn : css.

Lemma serve_off_store now c h r :
  ~ on_store r -> keeps I (serve frozen webauthn error_text header_value now c h r).
Proof.
  intros Hr. destruct r; try (by destruct Hr); simpl; unfold as_user, as_admin, logout; run_calm.
Qed.

Context (Hstore : forall m s, I s -> I (with_challenges m s)).
Context (Htotp : forall now u k, keeps I (verify_totp_path frozen now u k)).

Lemma keeps_on_challenges {A} (f : Store -> Store * A) : keeps I (on_challenges f).
Proof.
  unfold on_challenges. apply keeps_bind; [apply keeps_peek|]. intros x.
  apply keeps_bind; [|intros []; apply keeps_ret].
  apply triple_effect. intros s Hs _. split; [by apply Hstore|done].
Qed.

Hint Resolve keeps_on_challenges keeps_verify_webauthn keeps_verify_recovery : css.

Lemma keeps_build now u : keeps I (build_login_challenge webauthn now u).
Proof.
  unfold build_login_challenge, put_login, list_user_totp, list_user_webauthn,
    count_unused_recovery_codes. run_calm.
Qed.

Lemma keeps_login now c r : keeps I (login webauthn header_value now c r).
Proof. unfold login. repeat first [apply keeps_build | run_calm]. Qed.

Lemma keeps_begin now c u l : keeps I (webauthn_register_begin webauthn now c u l).
Proof. unfold webauthn_register_begin, need_webauthn, list_user_webauthn, put_registration. run_calm. Qed.

Lemma keeps_finish now c u t v : keeps I (webauthn_register_finish webauthn now c u t v).
Proof. unfold webauthn_register_finish, need_webauthn, take_registration, audit. run_calm. Qed.

Lemma keeps_verify now c r :
  keeps I (verify_login frozen webauthn error_text header_value now c r).
Proof. unfold verify_login, take_login, find_user_by_id, verify_factor, audit. run_calm. Qed.

Hint Resolve keeps_login keeps_verify keeps_begin keeps_finish : css.

Theorem serve_keeps now c h r :
  keeps I (serve frozen webauthn error_text header_value now c h r).
Proof.
  destruct r; try (by apply serve_off_store; intros []);
    simpl; unfold as_user, as_admin, logout; run_calm.
Qed.

End Whole.

(** The two writes keep it if each does. *)
Lemma confirm_keeps now c u w k :
  (forall now uid tid, keeps I (lift (finalize_totp_confirmation now uid tid))) ->
  keeps I (totp_confirm frozen now c u w k).
Proof. intros Hfin. unfold totp_confirm, list_user_totp, audit. run_calm. Qed.

Lemma totp_keeps now u k :
  (forall now tid step, keeps I (lift (update_totp_last_used_step now tid step))) ->
  keeps I (verify_totp_path frozen now u k).
Proof.
  intros Hstep. unfold verify_totp_path, list_user_totp.
  assert (forall code replayed rows, keeps I (try_totps frozen now u code replayed rows)) as Htry.
  { intros code replayed rows. revert replayed.
    induction rows as [|row rows IH]; intros replayed; simpl; run_calm. }
  run_calm.
Qed.

End Frames.
End AccountFrames.
