(* ===== verification/AccountTables.v ===== *)
(** * What the table methods leave alone

    A predicate on one of the accounts' tables is kept by every method that does not
    write it: for each table, the writes that are left to look at. *)
From Stdlib Require Import QArith Ascii.
From S2P Require Import Prelude Text Rbac Schedules Access Faults Money AuditLog Database Api Power Training GuardStore Hooks Trail Accounts Auth Mfa MfaApi AuthApi UsersApi AccountSurface AccountFrames.
Import Text Rbac Faults Money Audit Database Api Power Training GuardStore Hooks Trail Accounts AccountFrames.

Module AccountTables.

#[local] Open Scope Z_scope.

Section Tables.
Context {U : Uuid} {IS : IdSource} {JT : JsonbText} {CF : CaseFold}.

Lemma keeps_transaction {A} (K : AccountDb -> Prop) (f : AccountDb -> AccountDb * (A + DatabaseError)) :
  (forall db db' x, K db -> f db = (db', inl x) -> K db') -> keeps K (transaction f).
Proof.
  intros Hf. apply keeps_call. intros db Hdb. destruct (f db) as [db' [x|e]] eqn:Hx; [|done].
  by eapply Hf.
Qed.

Ltac calling db Hdb := apply keeps_call; intros db Hdb; cbv beta zeta.

Lemma elem_update_where {A} (p : A -> bool) f l x : x ∈ update_where p f l ->
  exists y, y ∈ l /\ ((p y = true /\ x = f y) \/ (p y = false /\ x = y)).
Proof.
  intros (y & -> & Hy)%list_elem_of_fmap. exists y. split; [done|]. destruct (p y); tauto.
Qed.

(** ** Projections through the writes of addresses *)

Lemma mirror_factors e db : factors (mirror e db) = factors db.
Proof. unfold mirror. by case_match. Qed.
Lemma mirror_next e db : next_row (mirror e db) = next_row db.
Proof. unfold mirror. by case_match. Qed.
Lemma mirror_resets e db : reset_tokens (mirror e db) = reset_tokens db.
Proof. unfold mirror. by case_match. Qed.
Lemma mirror_addresses e db : addresses (mirror e db) = addresses db.
Proof. unfold mirror. by case_match. Qed.

Lemma mirror_all_proj {B} (p : AccountDb -> B) (es : list UserEmail) db :
  (forall e db, p (mirror e db) = p db) -> p (mirror_all es db) = p db.
Proof.
  intros Hp. unfold mirror_all. revert db. induction es as [|e es IH]; intros db; simpl; [done|].
  by rewrite IH.
Qed.

(** The password and its epoch do not hang on the address. *)
Definition epoch_of (uid : uuid) (db : AccountDb) : option (string * Z) :=
  (fun a => (password_hash a, token_version a)) <$> accounts db !! uid.

Lemma mirror_epoch uid e db : epoch_of uid (mirror e db) = epoch_of uid db.
Proof.
  unfold mirror, epoch_of. case_match; [|done]. simpl.
  destruct (decide (ue_user_id e = uid)) as [<-|Hne].
  - rewrite lookup_alter_eq. by destruct (accounts db !! ue_user_id e).
  - by rewrite lookup_alter_ne.
Qed.

Lemma user_of_Some db uid u : user_of db uid = Some u ->
  uid_of u = uid /\ accounts db !! uid = Some (account u).
Proof.
  unfold user_of. destruct (users (base_of db) !! uid) as [p|]; simpl; [|done].
  destruct (accounts db !! uid) as [a|]; simpl; [|done]. case_bool_decide; [|done]. by intros [= <-].
Qed.

(** An address written is one that clashes with none. *)
Lemma insert_address_spec now uid a primary db db' r : insert_address now uid a primary db = (db', r) ->
  match r with
  | inr _ => db' = db
  | inl e => is_some (accounts db !! uid) = true /\
      existsb (fun e => lower (ue_email e) ≟ lower a) (addresses db) = false /\
      (primary = true -> existsb (fun e => is_primary e && (ue_user_id e ≟ uid)) (addresses db) = false) /\
      e = {| ue_id := gen_random_uuid (next_row db); ue_user_id := uid; ue_email := a;
             is_primary := primary; verified_at := None; ue_created_at := now |} /\
      db' = mirror e (with_addresses 1 (fun es => es ++ [e]) db)
  end.
Proof.
  unfold insert_address. destruct (is_some (accounts db !! uid)) eqn:Ha; simpl; [|by intros [= <- <-]].
  destruct (existsb _ _) eqn:H1; simpl; [by intros [= <- <-]|].
  destruct primary; simpl.
  - destruct (existsb (fun e => is_primary e && _) _) eqn:H2; intros [= <- <-]; by repeat split.
  - intros [= <- <-]. by repeat split.
Qed.

Lemma insert_proj {B} (p : AccountDb -> B) now uid a primary db :
  (forall e db, p (mirror e db) = p db) -> (forall es db, p (with_addresses 1 es db) = p db) ->
  p (insert_address now uid a primary db).1 = p db.
Proof.
  intros Hm Hw. destruct (insert_address now uid a primary db) as [db' [e|e]] eqn:Hi;
    apply insert_address_spec in Hi; simpl; [|by subst].
  destruct Hi as (_ & _ & _ & _ & ->). by rewrite Hm, Hw.
Qed.

(** ** Authenticators *)

Definition totp_view (db : AccountDb) : list UserMfaTotp * nat := (totps (factors db), next_row db).

(** Kept by: identifiers drawn, a row deleted, a setup begun under a fresh identifier. *)
Record totp_kept (K : list UserMfaTotp -> nat -> Prop) : Prop := {
  tk_drawn : forall ts n k, K ts n -> K ts (k + n)%nat;
  tk_deleted : forall p ts n, K ts n -> K (delete_where p ts) n;
  tk_begun : forall t ts n, totp_id t = gen_random_uuid n -> confirmed_at t = None ->
    K ts n -> K (ts ++ [t]) (S n);
}.

Definition on_totps (K : list UserMfaTotp -> nat -> Prop) (db : AccountDb) : Prop :=
  K (totps (factors db)) (next_row db).

Lemma totps_mirror K e db : on_totps K (mirror e db) <-> on_totps K db.
Proof. unfold on_totps. by rewrite mirror_factors, mirror_next. Qed.

Lemma totps_mirror_all K es db : on_totps K (mirror_all es db) <-> on_totps K db.
Proof.
  unfold on_totps. rewrite (mirror_all_proj factors), (mirror_all_proj next_row); [done|..].
  - apply mirror_next.
  - apply mirror_factors.
Qed.

Lemma totps_insert K now uid a primary db : totp_kept K ->
  on_totps K db -> on_totps K (insert_address now uid a primary db).1.
Proof.
  intros HK Hdb. destruct (insert_address now uid a primary db) as [db' [e|e]] eqn:Hi;
    apply insert_address_spec in Hi; simpl; [|by subst].
  destruct Hi as (_ & _ & _ & _ & ->). apply totps_mirror. by apply (tk_drawn K HK _ _ 1).
Qed.

Lemma totps_inserted K now uid a primary db db' r : totp_kept K ->
  on_totps K db -> insert_address now uid a primary db = (db', r) -> on_totps K db'.
Proof. intros HK Hdb Hi. pose proof (totps_insert K now uid a primary db HK Hdb) as Hk. by rewrite Hi in Hk. Qed.

Lemma keeps_totps K : totp_kept K ->
  forall A (m : Faults.M AccountDb DatabaseError A), table_method m -> keeps (on_totps K) m.
Proof.
  intros HK A m [].
  - apply keeps_trail_call. by intros t db.
  - calling db Hdb. case_match; [done|].
    destruct (insert_address _ _ _ _ _) as [db' [e|e]] eqn:Hi; simpl; [|done].
    apply (totps_inserted K) in Hi; [exact Hi|done|]. by apply (tk_drawn K HK _ _ 1).
  - calling db Hdb. repeat case_match; done.
  - apply keeps_transaction. intros db db' x Hdb Hi. by eapply totps_inserted; [| |exact Hi].
  - calling db Hdb. by case_match.
  - calling db Hdb. repeat case_match; try done.
    unfold update_addresses. simpl. rewrite totps_mirror_all.
    match goal with |- on_totps K (with_addresses _ _ ?db') => enough (on_totps K db') as Hk by exact Hk end.
    by apply totps_mirror_all.
  - apply keeps_transaction. intros db db' x Hdb. cbv beta zeta. case_match; [|done]. intros Hi.
    by eapply totps_inserted; [| |exact Hi].
  - calling db Hdb. case_match; simpl; [|done]. by apply totps_mirror_all.
  - calling db Hdb. by repeat case_match.
  - calling db Hdb. by case_match.
  - calling db Hdb. by repeat case_match.
  - calling db Hdb. by case_match.
  - calling db Hdb. case_match; simpl; [done|].
    apply (tk_begun K HK); [done..|]. by apply (tk_deleted K HK).
  - calling db Hdb. case_match; simpl; [|done]. by apply (tk_deleted K HK).
  - calling db Hdb. repeat case_match; simpl; try done. by apply (tk_drawn K HK _ _ 1).
  - by apply keeps_call.
  - by apply keeps_call.
  - calling db Hdb. repeat case_match; simpl; try done; by apply (tk_drawn K HK).
  - calling db Hdb. by case_match.
  - calling db Hdb. by case_match.
  - calling db Hdb. by apply (tk_deleted K HK).
Qed.

(** ** The password's epoch *)

(** At least this epoch, and in it, this password. *)
Definition since (uid : uuid) (hash : string) (version : Z) (db : AccountDb) : Prop :=
  exists hash' version', epoch_of uid db = Some (hash', version') /\ version <= version' /\
    (version' = version -> hash' = hash).

Lemma since_insert uid0 hash v now uid a primary db :
  since uid0 hash v db -> since uid0 hash v (insert_address now uid a primary db).1.
Proof.
  unfold since. by rewrite (insert_proj (epoch_of uid0)); [|apply mirror_epoch|].
Qed.

Lemma since_inserted uid0 hash v now uid a primary db db' r :
  since uid0 hash v db -> insert_address now uid a primary db = (db', r) -> since uid0 hash v db'.
Proof. intros Hs Hi. apply (since_insert _ _ _ now uid a primary) in Hs. by rewrite Hi in Hs. Qed.

Lemma since_mirror_all uid hash v es db : since uid hash v db -> since uid hash v (mirror_all es db).
Proof. unfold since. by rewrite (mirror_all_proj (epoch_of uid)); [|apply mirror_epoch]. Qed.

Lemma since_set_user uid0 hash v now uid up u db : user_of db uid = Some u ->
  since uid0 hash v db -> since uid0 hash v (set_user uid (updated_user now up u) db).
Proof.
  intros Hu (h' & v' & He & Hle & Heq). apply user_of_Some in Hu as [_ Ha].
  unfold since, epoch_of in *. simpl. destruct (decide (uid0 = uid)) as [->|Hne].
  - rewrite lookup_insert_eq. rewrite Ha in He. simpl in He. injection He as <- <-.
    eexists _, _. split; [done|]. simpl. destruct (up_password_hash up); simpl; split; try lia.
    intros Hv. apply Heq. lia.
  - rewrite lookup_insert_ne by done. by eauto.
Qed.

Lemma since_alter uid0 hash v f uid db :
  (forall a, password_hash (f a) = password_hash a /\ token_version (f a) = token_version a) ->
  since uid0 hash v db -> since uid0 hash v (with_accounts (alter f uid) db).
Proof.
  intros Hf. unfold since, epoch_of. simpl. destruct (decide (uid = uid0)) as [->|Hne].
  - rewrite lookup_alter_eq. destruct (accounts db !! uid0) as [a|]; simpl; [|done].
    destruct (Hf a) as [-> ->]. done.
  - by rewrite lookup_alter_ne.
Qed.

Lemma keeps_since uid hash v A (m : Faults.M AccountDb DatabaseError A) :
  table_method m -> keeps (since uid hash v) m.
Proof.
  intros [].
  - apply keeps_trail_call. by intros t db.
  - calling db Hdb. case_match eqn:Hn; [done|].
    destruct (insert_address _ _ _ _ _) as [db' [e|e]] eqn:Hi; simpl; [|done].
    enough (since uid hash v db') as Hk by exact Hk. eapply since_inserted; [|exact Hi].
    apply orb_false_iff in Hn as [Hn _]. apply orb_false_iff in Hn as [_ Hn].
    destruct Hdb as (h' & v' & He & Hle). unfold since, epoch_of in *. simpl.
    rewrite lookup_insert_ne; [by eauto|]. intros Heq. rewrite Heq in Hn.
    by destruct (accounts db !! uid).
  - calling db Hdb. case_match eqn:Hu; [|done]. repeat case_match; try done. by apply since_set_user.
  - apply keeps_transaction. intros db db' x Hdb Hi. by eapply since_inserted; [|exact Hi].
  - calling db Hdb. by case_match.
  - calling db Hdb. repeat case_match; try done.
    unfold update_addresses. simpl. apply since_mirror_all.
    match goal with |- since _ _ _ (with_addresses _ _ ?db') => enough (since uid hash v db') as Hk by exact Hk end.
    by apply since_mirror_all.
  - apply keeps_transaction. intros db db' x Hdb. cbv beta zeta. case_match; [|done]. intros Hi.
    by eapply since_inserted; [|exact Hi].
  - calling db Hdb. case_match; simpl; [|done]. by apply since_mirror_all.
  - calling db Hdb. by repeat case_match.
  - calling db Hdb. by case_match.
  - calling db Hdb. by repeat case_match.
  - calling db Hdb. by case_match.
  - calling db Hdb. by case_match.
  - calling db Hdb. by case_match.
  - calling db Hdb. by repeat case_match.
  - by apply keeps_call.
  - by apply keeps_call.
  - calling db Hdb. by repeat case_match.
  - calling db Hdb. by case_match.
  - calling db Hdb. case_match; simpl; [|done]. by apply since_alter.
  - calling db Hdb. by apply since_alter.
Qed.

(** ** Reset links *)

(** Kept by: spending rows, and a row under a digest that none has. *)
Record resets_kept (K : list PasswordResetToken -> Prop) : Prop := {
  rk_spent : forall p now ts, K ts -> K (update_where p (spend_reset now) ts);
  rk_created : forall t ts, (forall t', t' ∈ ts -> prt_token_hash t' <> prt_token_hash t) ->
    K ts -> K (ts ++ [t]);
}.

Definition on_resets (K : list PasswordResetToken -> Prop) (db : AccountDb) : Prop := K (reset_tokens db).

Lemma resets_insert K now uid a primary db :
  on_resets K db -> on_resets K (insert_address now uid a primary db).1.
Proof. unfold on_resets. by rewrite (insert_proj reset_tokens); [|apply mirror_resets|]. Qed.

Lemma resets_inserted K now uid a primary db db' r :
  on_resets K db -> insert_address now uid a primary db = (db', r) -> on_resets K db'.
Proof. intros Hs Hi. apply (resets_insert _ now uid a primary) in Hs. by rewrite Hi in Hs. Qed.

Lemma resets_mirror_all K es db : on_resets K db -> on_resets K (mirror_all es db).
Proof. unfold on_resets. by rewrite (mirror_all_proj reset_tokens); [|apply mirror_resets]. Qed.

Lemma keeps_resets K A (m : Faults.M AccountDb DatabaseError A) :
  resets_kept K -> table_method m -> keeps (on_resets K) m.
Proof.
  intros HK [].
  - apply keeps_trail_call. by intros t db.
  - calling db Hdb. case_match; [done|].
    destruct (insert_address _ _ _ _ _) as [db' [e|e]] eqn:Hi; simpl; [|done].
    enough (on_resets K db') as Hk by exact Hk. by eapply resets_inserted; [|exact Hi].
  - calling db Hdb. by repeat case_match.
  - apply keeps_transaction. intros db db' x Hdb Hi. by eapply resets_inserted; [|exact Hi].
  - calling db Hdb. by case_match.
  - calling db Hdb. repeat case_match; try done.
    unfold update_addresses. simpl. apply resets_mirror_all.
    match goal with |- on_resets _ (with_addresses _ _ ?db') => enough (on_resets K db') as Hk by exact Hk end.
    by apply resets_mirror_all.
  - apply keeps_transaction. intros db db' x Hdb. cbv beta zeta. case_match; [|done]. intros Hi.
    by eapply resets_inserted; [|exact Hi].
  - calling db Hdb. case_match; simpl; [|done]. by apply resets_mirror_all.
  - calling db Hdb. case_match; [done|]. destruct (existsb _ (reset_tokens db)) eqn:Hx; simpl; [done|].
    apply (rk_created K HK); [|by apply (rk_spent K HK)]. simpl.
    intros t' (y & Hy & Heq)%elem_update_where Hh.
    assert (prt_token_hash y = h) as Hyh by (by destruct Heq as [[_ ->]|[_ ->]]).
    apply Bool.not_true_iff_false in Hx. apply Hx, existsb_exists. exists y.
    split; [by apply list_elem_of_In | by apply bool_decide_eq_true].
  - calling db Hdb. case_match; simpl; [|done]. by apply (rk_spent K HK).
  - calling db Hdb. by repeat case_match.
  - calling db Hdb. by case_match.
  - calling db Hdb. by case_match.
  - calling db Hdb. by case_match.
  - calling db Hdb. by repeat case_match.
  - by apply keeps_call.
  - by apply keeps_call.
  - calling db Hdb. by repeat case_match.
  - calling db Hdb. by case_match.
  - calling db Hdb. by case_match.
  - by apply keeps_call.
Qed.

End Tables.
End AccountTables.
