(* ===== verification/AccountHistory.v ===== *)
(** * Histories of the account surface

    A server starts with no challenge pending and answers requests one at a time, under
    any faults; between them the rest of the program changes its own tables.  What each
    request does to the challenge store, and what it takes to be answered a session. *)
From Stdlib Require Import QArith Ascii.
From S2P Require Import Prelude Text Rbac Schedules Access Faults Money AuditLog Database Api Throttle Power Training GuardStore Hooks Trail Alerts Accounts Auth Mfa MfaApi AuthApi UsersApi AccountSurface AccountFrames.
Import Text Rbac Faults Money Audit Database Api Power Training GuardStore Hooks Trail Accounts Auth Mfa MfaApi AuthApi UsersApi AccountSurface AccountFrames.

Module AccountHistory.

#[local] Open Scope Z_scope.

Section History.
Context {U : Uuid} {IS : IdSource} {JT : JsonbText} {CF : CaseFold} {PH : PasswordHashUtil}
  {JW : Jwt} {TL : TotpLib} {WL : WebauthnLib} {EN : Entropy} {ML : Mailer} {TH : TokenHash}
  {RC : Recaptcha}.
Context (frozen : AuthMfaConfig) (webauthn : bool) (error_text : ApiError -> string)
  (header_value : string -> bool).

Abbreviation H := (Faults.M Server ApiError).
Abbreviation Store := (gmap string StoredChallenge).

(** ** Histories *)

Record Step := {
  at_ : instant;
  cfg : AppConfig;
  hdrs : Headers;
  req : Request;
  before : Server;
  answer : Response + ApiError;
}.

Definition allotted (n : nat) (id : uuid) : Prop := exists k, (k < n)%nat /\ id = gen_random_uuid k.

(** As the process starts: nothing pending; the tables' unique columns are, and the
    identifiers of their rows were drawn. *)
Definition starts (s : Server) : Prop :=
  challenges s = ∅ /\
  NoDup (prt_token_hash <$> reset_tokens (tables s)) /\
  NoDup (totp_id <$> totps (factors (tables s))) /\
  (forall t, t ∈ totps (factors (tables s)) -> allotted (next_row (tables s)) (totp_id t)).

(** What the rest of the program may do: anything to the tables under the accounts' own,
    and to the throttles. *)
Definition elsewhere (s s' : Server) : Prop :=
  exists t th, s' = with_throttles th (with_tables (with_trail t (tables s)) s).

Inductive history : list Step -> Server -> Prop :=
  | started s : starts s -> history [] s
  | served h s now c hd r fs s' fs' a :
      history h s ->
      serve frozen webauthn error_text header_value now c hd r (s, fs) = ((s', fs'), a) ->
      history (h ++ [{| at_ := now; cfg := c; hdrs := hd; req := r; before := s; answer := a |}]) s'
  | meanwhile h s s' : history h s -> elsewhere s s' -> history h s'.

(** An invariant that every request and the rest of the program keep holds at the end, if
    it held anywhere on the way. *)
Lemma history_keeps (I : Server -> Prop) h1 h2 s :
  (forall s s', elsewhere s s' -> I s -> I s') ->
  (forall now c hd r, keeps I (serve frozen webauthn error_text header_value now c hd r)) ->
  history (h1 ++ h2) s -> (forall s1, history h1 s1 -> I s1) -> I s.
Proof.
  intros He Hs Hh Hi. remember (h1 ++ h2) as h eqn:Heq. revert h2 Heq.
  induction Hh as [s Hst | h s now c hd r fs s' fs' a Hh IH Hr | h s s' Hh IH He'];
    intros h2 Heq.
  - symmetry in Heq. apply app_nil in Heq as [-> ->]. apply Hi. by constructor.
  - destruct h2 as [|st h2' _] using rev_ind.
    + rewrite app_nil_r in Heq. apply Hi. rewrite <- Heq. by econstructor.
    + rewrite app_assoc in Heq. apply app_inj_tail in Heq as [-> _].
      specialize (IH _ eq_refl). specialize (Hs now c hd r s fs IH Logic.I).
      rewrite Hr in Hs. tauto.
  - eapply He, IH; [done|exact Heq].
Qed.

(** What held from the start holds before every step, and at the end. *)
Lemma history_invariant (I : Server -> Prop) h s :
  (forall s, starts s -> I s) -> (forall s s', elsewhere s s' -> I s -> I s') ->
  (forall now c hd r, keeps I (serve frozen webauthn error_text header_value now c hd r)) ->
  history h s -> I s.
Proof.
  intros Hst He Hs Hh. eapply (history_keeps I [] h); [done..|].
  intros s1 H1. remember [] as h0 eqn:E. induction H1 as [| |h0 s0 s1 H1 IH HE].
  - by apply Hst.
  - by destruct h0.
  - eapply He, IH; done.
Qed.

(** The history up to a step, and the step itself. *)
Lemma history_at h1 st h2 s : history (h1 ++ st :: h2) s ->
  history h1 (before st) /\ exists fs s' fs',
    serve frozen webauthn error_text header_value (at_ st) (cfg st) (hdrs st) (req st) (before st, fs)
      = ((s', fs'), answer st) /\ history (h1 ++ [st]) s'.
Proof.
  intros Hh. remember (h1 ++ st :: h2) as h eqn:Heq. revert h2 Heq.
  induction Hh as [s Hst | h s now c hd r fs s' fs' a Hh IH Hr | h s s' Hh IH He];
    intros h2 Heq; [by destruct h1| |by eapply IH].
  destruct h2 as [|st' h2' _] using rev_ind.
  - apply app_inj_tail in Heq as [-> <-]. simpl. split; [done|].
    exists fs, s', fs'. split; [done|]. by econstructor.
  - rewrite app_comm_cons, app_assoc in Heq. apply app_inj_tail in Heq as [-> _].
    by eapply IH.
Qed.

(** What a step established holds at the end of every history that it ends. *)
Lemma history_after (I : Server -> Prop) h st s :
  (forall s s', elsewhere s s' -> I s -> I s') ->
  (forall fs s' fs', history h (before st) ->
    serve frozen webauthn error_text header_value (at_ st) (cfg st) (hdrs st) (req st) (before st, fs)
      = ((s', fs'), answer st) -> I s') ->
  history (h ++ [st]) s -> I s.
Proof.
  intros He Hi Hh. remember (h ++ [st]) as h' eqn:Heq.
  induction Hh as [s Hst | h' s now c hd r fs s' fs' a Hh IH Hr | h' s s' Hh IH HE].
  - by destruct h.
  - apply app_inj_tail in Heq as [-> <-]. by eapply Hi.
  - eapply He, IH; done.
Qed.

(** From a step on. *)
Lemma history_from (I : Server -> Prop) h1 st h2 s :
  (forall s s', elsewhere s s' -> I s -> I s') ->
  (forall now c hd r, keeps I (serve frozen webauthn error_text header_value now c hd r)) ->
  (forall fs s' fs', history h1 (before st) ->
    serve frozen webauthn error_text header_value (at_ st) (cfg st) (hdrs st) (req st) (before st, fs)
      = ((s', fs'), answer st) -> I s') ->
  history (h1 ++ st :: h2) s -> I s.
Proof.
  intros He Hs Hi Hh. eapply (history_keeps I (h1 ++ [st]) h2); [done..| |].
  - by rewrite <- app_assoc.
  - intros s1. by apply history_after.
Qed.

End History.
End AccountHistory.
