(* ===== verification/AccountSessions.v ===== *)
(** * What a session takes

    The password step and the factor step, as they act on the challenge store, and what
    each must have been shown to answer a session. *)
From Stdlib Require Import QArith Ascii.
From S2P Require Import Prelude Text Rbac Schedules Access Faults Money AuditLog Database Api Throttle Power Training GuardStore Hooks Trail Alerts Accounts Auth Mfa MfaApi AuthApi UsersApi AccountSurface AccountFrames AccountHistory.
Import Text Rbac Faults Money Audit Database Api Power Training GuardStore Hooks Trail Accounts Auth Mfa MfaApi AuthApi UsersApi AccountSurface AccountFrames AccountHistory.

Module AccountSessions.

#[local] Open Scope Z_scope.

Section Sessions.
Context {U : Uuid} {IS : IdSource} {JT : JsonbText} {CF : CaseFold} {PH : PasswordHashUtil}
  {JW : Jwt} {TL : TotpLib} {WL : WebauthnLib} {EN : Entropy} {ML : Mailer} {TH : TokenHash}
  {RC : Recaptcha}.
Context (frozen : AuthMfaConfig) (webauthn : bool) (error_text : ApiError -> string)
  (header_value : string -> bool).

Abbreviation H := (Faults.M Server ApiError).
Abbreviation Store := (gmap string StoredChallenge).

(** ** What is to be shown *)

(** The name or the address, and the password, of an active account. *)
Definition knew (db : AccountDb) (r : LoginRequest) (u : AppUser) : Prop :=
  ((uid ← named db (username_or_email r); user_of db uid) = Some u \/
   (e ← address_row db (username_or_email r); user_of db (ue_user_id e)) = Some u) /\
  verify_password (password r) (password_hash (account u)) = inr true /\
  is_active (person u) = true.

(** The authenticator that answers a code: the first, confirmed ones in their order, that
    has it at a step it has not spent. *)
Fixpoint answering (now : instant) (u : AppUser) (code : string) (rows : list UserMfaTotp)
    : option (UserMfaTotp * Z) :=
  match rows with
  | [] => None
  | row :: rows =>
      match verify_totp_step frozen now (secret_base32 row) (email (account u)) code with
      | None => answering now u code rows
      | Some step => if is_replay step row then answering now u code rows else Some (row, step)
      end
  end.

Definition totp_answer (now : instant) (db : AccountDb) (u : AppUser) (r : MfaVerifyRequest)
    : option (UserMfaTotp * Z) :=
  k ← given_code (code r);
  answering now u k (List.filter is_confirmed (totps_of db (uid_of u))).

Definition shown_totp (now : instant) (db : AccountDb) (u : AppUser) (r : MfaVerifyRequest) : Prop :=
  exists row step, totp_answer now db u r = Some (row, step) /\
    row ∈ totps (factors db) /\ totp_user_id row = uid_of u /\ is_confirmed row = true /\
    is_replay step row = false /\
    exists k, given_code (code r) = Some k /\
      verify_totp_step frozen now (secret_base32 row) (email (account u)) k = Some step.

Definition shown_passkey (ch : LoginChallenge) (r : MfaVerifyRequest) : Prop :=
  exists st v cred used, webauthn_auth ch = Some st /\ response r = Some v /\
    parse_credential v = inr cred /\ finish_passkey_authentication cred st = Some used.

Definition shown_recovery (db : AccountDb) (u : AppUser) (r : MfaVerifyRequest) : Prop :=
  exists row code, given_code (MfaApi.code r) = Some code /\ row ∈ recovery_codes (factors db) /\
    code_user_id row = uid_of u /\ code_used_at row = None /\
    verify_recovery_code code (code_hash row) = true.

Definition shown (now : instant) (db : AccountDb) (u : AppUser) (ch : LoginChallenge)
    (r : MfaVerifyRequest) : Prop :=
  (method r = TOTP_METHOD /\ shown_totp now db u r) \/
  (method r = WEBAUTHN_METHOD /\ webauthn = true /\ shown_passkey ch r) \/
  (method r = RECOVERY_METHOD /\ shown_recovery db u r).

(** The session's token names this user, at the epoch of this row. *)
Definition session_of (now : instant) (c : AppConfig) (u : AppUser) (x : Session) : Prop :=
  encode (claims_new now u (jwt_expiration_hours (auth c))) (jwt_secret (auth c)) =
    Some (token (MfaApi.login x)).

(** ** The passwords step *)

Lemma triple_or_error {A} I P (o : option A) e :
  triple (E := ApiError) I P (or_error o e) (fun x s => P s /\ o = Some x).
Proof. destruct o; [by apply triple_ret | apply triple_throw]. Qed.

(** The challenge store and the tables, as a step finds them. *)
Definition found (t : AccountDb) (m : Store) (s : Server) : Prop := tables s = t /\ challenges s = m.

Lemma keeps_part {A} (I : Server -> Prop) (f : Throttle.Table -> Throttle.Table * A) :
  (forall t s, I s -> I (with_throttles t s)) -> keeps I (on_throttles f).
Proof.
  intros HI. unfold on_throttles. apply keeps_bind; [apply keeps_peek|]. intros x.
  apply keeps_bind; [|intros []; apply keeps_ret].
  apply triple_effect. intros s Hs _. split; [by apply HI|done].
Qed.

Lemma throttled_found t m on id max secs now f : keeps (found t m) (throttled on id max secs now f).
Proof.
  unfold throttled. destruct on; [|apply keeps_ret].
  apply keeps_bind; [by apply keeps_part|]. intros []; [apply keeps_ret | apply keeps_throw].
Qed.

Lemma failure_found t m on id max secs now : keeps (found t m) (count_failure on id max secs now).
Proof. unfold count_failure. destruct on; [by apply keeps_part | apply keeps_ret]. Qed.

Lemma success_found t m on id : keeps (found t m) (count_success on id).
Proof. unfold count_success. destruct on; [by apply keeps_part | apply keeps_ret]. Qed.

(** Nothing but the four writes to it changes the store. *)
Lemma calm_store m : calm (fun s => challenges s = m).
Proof.
  split; [done..|]. intros A f _. by apply keeps_within_frame.
Qed.

Lemma calm_drawn d : calm (fun s => d <= draws s).
Proof.
  split; [done| |done|]; [intros n s Hn; cbn; lia|]. intros A f _. by apply keeps_within_frame.
Qed.

Lemma lookup_reads ident : reads (lookup_identity ident) (fun db u => match u with
  | Some u => (uid ← named db ident; user_of db uid) = Some u \/
              (e ← address_row db ident; user_of db (ue_user_id e)) = Some u
  | None => True end).
Proof.
  unfold lookup_identity, internal_error, find_user_by_username, find_user_by_email.
  eapply reads_bind; [apply reads_map_err, reads_select|]. intros by_name; simpl.
  destruct by_name as [u|]; [apply reads_ret; by left|].
  eapply reads_bind; [apply reads_attempt, reads_map_err, reads_select|].
  intros [[u|]|e]; apply reads_ret; [|done..]. intros db ->. by right.
Qed.

Lemma authenticate_reads r : reads (authenticate_user (username_or_email r) (password r))
  (fun db u => knew db r u).
Proof.
  unfold authenticate_user, of_auth. eapply reads_bind; [apply lookup_reads|]. intros [u|]; simpl.
  2: apply reads_throw.
  eapply (reads_bind _ _ (fun _ ok => verify_password (password r) (password_hash (account u)) = inr ok)).
  - destruct verify_password; [apply reads_throw | by apply reads_ret].
  - intros []; simpl; [|apply reads_throw].
    destruct (is_active (person u)) eqn:Ha; simpl; [|apply reads_throw].
    apply reads_ret. intros db Hv Hu. unfold knew. tauto.
Qed.

Lemma lift_auth_reads {A} (m : Faults.M AccountDb AuthError A) R :
  reads m R -> reads (lift_auth m) (fun s x => R (tables s) x).
Proof. intros Hm. apply reads_map_err. exact (reads_within (D := Server) m R Hm). Qed.

Lemma lift_reads {A} (m : Faults.M AccountDb DatabaseError A) R :
  reads m R -> reads (lift m) (fun s x => R (tables s) x).
Proof. intros Hm. apply reads_map_err. exact (reads_within (D := Server) m R Hm). Qed.

Lemma check_password_ends now c r t m :
  ends (found t m) (check_password now c r) (fun a s => challenges s = m /\
    match a with inl u => tables s = t /\ knew t r u | inr _ => True end).
Proof.
  unfold check_password.
  apply ends_then; [apply throttled_found | by intros e s [_ Hm] |]. intros []. eapply ends_bind.
  { eapply ends_attempt; [apply ends_reads, lift_auth_reads, authenticate_reads|].
    intros r0 s Hs. exact Hs. }
  intros [u|e]; simpl.
  - apply (ends_pre _ (fun s => found t m s /\ knew t r u)).
    2: { intros s [[Ht Hm] Hk]. split; [done|]. by rewrite Ht in Hk. }
    apply ends_pure. intros Hk. apply ends_then; [apply success_found | by intros e s [_ Hm] |].
    intros []. apply ends_ret. intros s [Ht Hm]. exact (conj Hm (conj Ht Hk)).
  - apply (ends_pre _ (fun s => challenges s = m)); [|by intros s [[] _]].
    apply ends_then; [apply (keeps_count_failure _ (calm_store m)) | done|]. intros [].
    apply ends_then; [apply (keeps_logged _ (calm_store m)) | done|]. intros []. by apply ends_throw.
Qed.

Lemma of_auth_ends {A} P (x : AuthError + A) :
  ends P (lift_auth (of_auth x)) (fun a s => P s /\ match a with inl y => x = inr y | inr _ => True end).
Proof.
  apply ends_reads, (lift_auth_reads _ (fun _ y => x = inr y)).
  destruct x; [apply reads_throw | by apply reads_ret].
Qed.

Lemma create_token_encode now secret u n t :
  create_token now secret u n = inr t -> encode (claims_new now u n) secret = Some t.
Proof. unfold create_token. case_match; [|done]. by intros [= ->]. Qed.

Lemma start_session_ends now c u m :
  ends (fun s => challenges s = m) (start_session header_value now c u)
    (fun a s => challenges s = m /\ match a with inl x => session_of now c u x | inr _ => True end).
Proof.
  unfold start_session. eapply ends_bind; [eapply ends_post; [apply of_auth_ends|]|].
  { intros [t|e] s Hs; [exact Hs | by destruct Hs]. }
  intros t. apply ends_pure. intros Ht. apply create_token_encode in Ht.
  apply ends_then; [apply (keeps_base _ (calm_store m)) | done|]. intros is_staff.
  apply ends_then; [apply (keeps_base _ (calm_store m)) | done|]. intros role.
  apply ends_then; [apply (keeps_logged _ (calm_store m)) | done|]. intros [].
  by apply ends_ret.
Qed.

Lemma issue_token_ends now c u I : calm I ->
  ends I (issue_token now c u) (fun a s => I s /\
    match a with
    | inl x => encode (claims_new now u (jwt_expiration_hours (auth c))) (jwt_secret (auth c)) =
                 Some (token x)
    | inr _ => True
    end).
Proof.
  intros HI. unfold issue_token. eapply ends_bind; [eapply ends_post; [apply of_auth_ends|]|].
  { intros [t|e] s Hs; [exact Hs | by destruct Hs]. }
  intros t. apply ends_pure. intros Ht. apply create_token_encode in Ht.
  apply ends_then; [apply (keeps_base _ HI) | done|]. intros role.
  by apply ends_ret.
Qed.

(** ** Issuing a challenge *)

(** The challenge, with the ceremony over the passkeys of the moment. *)
Definition issued (now : instant) (t : AccountDb) (u : AppUser) (mc : MfaChallenge) (m m' : Store)
    : Prop :=
  exists ch i, lc_user_id ch = uid_of u /\
    webauthn_auth ch = snd <$> start_ceremony webauthn i (webauthns_of t (uid_of u)) /\
    m' = put now (mc_token mc) (Mfa.Login ch) m.

Lemma draw_found t m n : keeps (found t m) (draw n).
Proof.
  unfold draw. apply keeps_bind; [apply keeps_peek|]. intros i.
  apply keeps_bind; [|intros []; apply keeps_ret]. by apply triple_effect.
Qed.

Lemma put_login_ends now ch t m :
  ends (found t m) (put_login now ch) (fun a s => match a with
    | inl tok => challenges s = put now tok (Mfa.Login ch) m
    | inr _ => challenges s = m
    end).
Proof.
  unfold put_login. apply ends_then; [apply draw_found | by intros e s []|]. intros i.
  unfold on_challenges. eapply (ends_bind _ _ _ (fun x s => challenges s = m /\ x = alphanumeric i)).
  { apply ends_peek. by intros s [_ Hm]. }
  intros x. apply ends_pure. intros ->.
  apply (ends_bind _ _ _ (fun _ s => challenges s = put now (alphanumeric i) (Mfa.Login ch) m)).
  - apply ends_effect. by intros s ->.
  - intros []. by apply ends_ret.
Qed.

Lemma build_ends now u t m :
  ends (found t m) (build_login_challenge webauthn now u) (fun a s => match a with
    | inl mc => issued now t u mc m (challenges s)
    | inr _ => challenges s = m
    end).
Proof.
  assert (forall A (f : AccountDb -> A), ends (found t m) (lift (select f)) (fun r s =>
    match r with inl x => found t m s /\ x = f t | inr _ => challenges s = m end)) as Hsel.
  { intros A f. eapply ends_post; [apply ends_reads, lift_reads, reads_select|].
    intros [x|e] s [[Ht Hm] Hx]; [|done]. by rewrite Ht in Hx. }
  unfold build_login_challenge, list_user_totp, list_user_webauthn, count_unused_recovery_codes.
  eapply ends_bind; [apply Hsel|]. intros ts. apply ends_pure. intros _.
  eapply ends_bind; [apply Hsel|]. intros ws. apply ends_pure. intros ->.
  apply ends_then; [apply draw_found | by intros e s []|]. intros i. cbv zeta.
  eapply ends_bind; [apply Hsel|]. intros n. apply ends_pure. intros _.
  case_match; [apply ends_throw; by intros s []|].
  eapply ends_bind; [eapply ends_post; [apply put_login_ends|]|].
  { intros [tok|e] sv Hs; exact Hs. }
  intros tok. apply ends_ret. intros sv Hs.
  by refine (ex_intro _ _ (ex_intro _ i (conj _ (conj _ Hs)))).
Qed.

(** What logging in with a password answers, and what it leaves pending. *)
Lemma login_ends now c r t m :
  ends (found t m) (login webauthn header_value now c r) (fun a s => match a with
    | inl (LoggedIn x) => challenges s = m /\ exists u, knew t r u /\ session_of now c u x /\
        (is_some (mfa_enrolled_at (account u)) && mfa_enabled (mfa (auth c)) = false) /\
        (require_email_verification (auth c) = true -> is_some (email_verified_at (account u)) = true)
    | inl (Challenged mc) => exists u, knew t r u /\ issued now t u mc m (challenges s)
    | inr _ => challenges s = m
    end).
Proof.
  unfold login, unless. case_match; [apply ends_throw; by intros s []|].
  eapply ends_bind; [eapply ends_post; [apply check_password_ends|]|].
  { intros [u|e] s Hs; [|by destruct Hs].
    assert (found t m s /\ knew t r u) as Hf by (unfold found; tauto). exact Hf. }
  intros u. apply ends_pure. intros Hk.
  destruct (require_email_verification (auth c) && _) eqn:Hr; [apply ends_throw; by intros s []|].
  destruct (is_some (mfa_enrolled_at (account u)) && mfa_enabled (mfa (auth c))) eqn:Hm.
  - apply ends_fmap. eapply ends_post; [apply build_ends|].
    intros [mc|e] s Hs; [|done]. by exists u.
  - apply ends_fmap. eapply ends_weaken; [apply start_session_ends | by intros s []|].
    intros [x|e] s [Hs Hx]; [|done]. split; [done|]. exists u.
    repeat split; [done.. | apply Hk | apply Hk | apply Hk | done | done |].
    intros Hv. rewrite Hv in Hr. by destruct (email_verified_at (account u)).
Qed.

(** ** The factor's step *)

Lemma answering_elem now u k rows row step : answering now u k rows = Some (row, step) ->
  row ∈ rows /\ is_replay step row = false /\
  verify_totp_step frozen now (secret_base32 row) (email (account u)) k = Some step.
Proof.
  induction rows as [|y rows IH]; simpl; [done|].
  destruct (verify_totp_step frozen now (secret_base32 y) _ _) as [n|] eqn:Hv;
    [destruct (is_replay n y) eqn:Hr|]; intros Hx.
  1, 3: destruct (IH Hx); (split; [by right | done]).
  simplify_eq. split; [left | done].
Qed.

Lemma elem_totps_of db uid row :
  row ∈ totps_of db uid -> row ∈ totps (factors db) /\ totp_user_id row = uid.
Proof.
  unfold totps_of. rewrite elem_of_app, !elem_of_lfilter, !elem_of_sort_by, !elem_of_lfilter.
  intros [[[H1 H2%bool_decide_eq_true] _]|[[H1 H2%bool_decide_eq_true] _]]; done.
Qed.

Lemma shown_totp_intro now db u r row step :
  totp_answer now db u r = Some (row, step) -> shown_totp now db u r.
Proof.
  intros Ha. exists row, step. split; [done|]. unfold totp_answer in Ha.
  destruct (given_code (code r)) as [k|]; simpl in Ha; [|done].
  apply answering_elem in Ha as (He & Hr & Hv). apply elem_of_lfilter in He as [He Hc].
  apply elem_totps_of in He as [He Ho]. repeat split; try done. by exists k.
Qed.

Lemma try_totps_ends now u k t m rows replayed :
  ends (found t m) (try_totps frozen now u k replayed rows) (fun a s => challenges s = m /\
    match a with inl _ => exists x, answering now u k rows = Some x | inr _ => True end).
Proof.
  revert replayed. induction rows as [|row rows IH]; intros replayed; simpl.
  - apply ends_throw. by intros s [].
  - destruct verify_totp_step as [step|]; [destruct is_replay|]; [apply IH | | apply IH].
    eapply ends_weaken; [apply ends_keeps|by intros s [_ Hm]; exact Hm|].
    + apply keeps_map_err, keeps_within_frame. intros s p Hs. exact Hs.
    + intros [x|e] s Hs; split; try done. by eexists.
Qed.

Lemma or_error_ends {A} P (o : option A) e :
  ends (E := ApiError) P (or_error o e)
    (fun a s => P s /\ match a with inl x => o = Some x | inr _ => True end).
Proof. intros s fs Hs. by destruct o. Qed.

Lemma totp_path_ends now u r t m :
  ends (found t m) (verify_totp_path frozen now u (code r)) (fun a s => challenges s = m /\
    match a with inl _ => shown_totp now t u r | inr _ => True end).
Proof.
  unfold verify_totp_path, list_user_totp.
  eapply ends_bind; [eapply ends_post; [apply or_error_ends|]|].
  { intros [k|e] s Hs; [exact Hs | by destruct Hs as [[] _]]. }
  intros k. apply ends_pure. intros Hk.
  eapply ends_bind; [eapply ends_post; [apply ends_reads, lift_reads, reads_select|]|].
  { intros [ts|e] s [[Ht Hm] Hs]; [|done].
    assert (found t m s /\ ts = totps_of t (uid_of u)) as Hf by (rewrite Ht in Hs; done). exact Hf. }
  intros ts. apply ends_pure. intros ->.
  case_match eqn:Hc; [apply ends_throw; by intros s []|]. rewrite <- Hc.
  eapply ends_post; [apply try_totps_ends|].
  intros [x|e] s [Hs Hx]; [|done]. split; [done|]. destruct Hx as [[row step] Hx].
  apply (shown_totp_intro _ _ _ _ row step). unfold totp_answer. by rewrite Hk.
Qed.

Lemma webauthn_path_ends now u ch r t m :
  ends (found t m) (verify_webauthn_path webauthn now u ch (response r)) (fun a s =>
    challenges s = m /\
    match a with inl _ => webauthn = true /\ shown_passkey ch r | inr _ => True end).
Proof.
  unfold verify_webauthn_path, need_webauthn. destruct webauthn.
  2: { apply (ends_bind _ _ _ (fun _ _ => False)); [|by intros x s fs]. apply ends_throw. by intros s []. }
  apply ends_then; [apply keeps_ret | by intros e s [] |]. intros _.
  eapply ends_bind; [eapply ends_post; [apply or_error_ends|]|].
  { intros [x|e] s Hs; [exact Hs | by destruct Hs as [[] _]]. }
  intros st. apply ends_pure. intros Hst.
  eapply ends_bind; [eapply ends_post; [apply or_error_ends|]|].
  { intros [x|e] s Hs; [exact Hs | by destruct Hs as [[] _]]. }
  intros v. apply ends_pure. intros Hv.
  destruct (parse_credential v) as [e|cred] eqn:Hp; [apply ends_throw; by intros s []|].
  destruct finish_passkey_authentication as [used|] eqn:Hf; [|apply ends_throw; by intros s []].
  apply (ends_bind _ _ _ (fun _ s => challenges s = m)).
  - eapply (ends_weaken _ (fun s => challenges s = m)); [apply ends_keeps|by intros s []|].
    + apply keeps_attempt, keeps_map_err, keeps_within_frame. intros s p Hs. exact Hs.
    + by intros [x|e] s Hs.
  - intros _. apply ends_ret. intros s Hs. split; [done|]. split; [done|]. by exists st, v, cred, used.
Qed.

Lemma try_codes_ends now u k rows m :
  ends (fun s => challenges s = m) (try_codes now u k rows) (fun a s => challenges s = m /\
    match a with
    | inl _ => exists row, row ∈ rows /\ verify_recovery_code k (code_hash row) = true
    | inr _ => True
    end).
Proof.
  induction rows as [|row rows IH]; simpl; [by apply ends_throw|].
  destruct verify_recovery_code eqn:Hv.
  - apply ends_then; [apply (keeps_method _ (calm_store m)); constructor | done|]. intros [].
    eapply ends_post; [apply ends_keeps, (keeps_logged _ (calm_store m))|].
    intros [x|e] s Hs; (split; [done|]); [|done]. exists row. split; [left | done].
  - eapply ends_post; [apply IH|]. intros [x|e] s [Hs Hx]; (split; [done|]); [|done].
    destruct Hx as (row' & H1 & H2). exists row'. split; [by right | done].
Qed.

Lemma recovery_path_ends now u r t m :
  ends (found t m) (verify_recovery_path now u (code r)) (fun a s => challenges s = m /\
    match a with inl _ => shown_recovery t u r | inr _ => True end).
Proof.
  unfold verify_recovery_path, list_unused_recovery_codes.
  eapply ends_bind; [eapply ends_post; [apply or_error_ends|]|].
  { intros [k|e] s Hs; [exact Hs | by destruct Hs as [[] _]]. }
  intros k. apply ends_pure. intros Hk.
  eapply ends_bind; [eapply ends_post; [apply ends_reads, lift_reads, reads_select|]|].
  { intros [ts|e] s [[Ht Hm] Hs]; [|done].
    assert (found t m s /\ ts = unused_codes t (uid_of u)) as Hf by (rewrite Ht in Hs; done). exact Hf. }
  intros ts. apply ends_pure. intros ->.
  eapply ends_weaken; [apply try_codes_ends | by intros s []|].
  intros [x|e] s [Hs Hx]; [|done]. split; [done|]. destruct Hx as (row & He & Hv).
  unfold unused_codes in He. apply elem_of_lfilter in He as [He Ho].
  apply andb_true_iff in Ho as [Ho Hn]. apply bool_decide_eq_true in Ho. exists row, k.
  repeat split; try done. unfold is_unused in Hn. by destruct (code_used_at row).
Qed.

Lemma factor_ends now u ch r t m :
  ends (found t m) (verify_factor frozen webauthn now u ch r) (fun a s => challenges s = m /\
    match a with inl _ => shown now t u ch r | inr _ => True end).
Proof.
  unfold verify_factor, shown. repeat case_bool_decide.
  - eapply ends_post; [apply totp_path_ends|]. intros [x|e] s []; tauto.
  - eapply ends_post; [apply webauthn_path_ends|]. intros [x|e] s []; tauto.
  - eapply ends_post; [apply recovery_path_ends|]. intros [x|e] s []; tauto.
  - apply ends_throw. by intros s [].
Qed.

(** A session for a challenge: it was pending, it is gone, and a factor of its account
    was shown. *)
Definition redeemed (now : instant) (c : AppConfig) (t : AccountDb) (r : MfaVerifyRequest)
    (m : Store) (x : Session) : Prop :=
  exists ch u, (take now (challenge_token r) m).2 = Some (Mfa.Login ch) /\
    user_of t (lc_user_id ch) = Some u /\ is_active (person u) = true /\
    shown now t u ch r /\ session_of now c u x.

Lemma take_ends now tok t m :
  ends (found t m) (take_login now tok) (fun a s => found t (take now tok m).1 s /\
    match a with
    | inl o => o = match (take now tok m).2 with Some (Mfa.Login ch) => Some ch | _ => None end
    | inr _ => True
    end).
Proof.
  unfold take_login, on_challenges.
  apply (ends_bind _ _ _ (fun e s => found t (take now tok m).1 s /\ e = (take now tok m).2)).
  2: { intros e. apply ends_pure. intros ->. apply ends_ret. by intros s Hs. }
  apply (ends_bind _ _ _ (fun e s => found t m s /\ e = (take now tok m).2)).
  { apply ends_peek. by intros s [Ht <-]. }
  intros e. apply ends_pure. intros ->.
  apply (ends_bind _ _ _ (fun _ s => found t (take now tok m).1 s)).
  - apply ends_effect. by intros s [Ht <-].
  - intros []. by apply ends_ret.
Qed.

(** What the factor established holds of the session; what it left holds anyway. *)
Lemma verify_login_walk now c r t m (Phi : LoginChallenge -> AppUser -> Server -> Prop)
    (Psi : Server -> Prop) :
  (forall ch u, calm (Phi ch u)) -> calm Psi -> (forall ch u s, Phi ch u s -> Psi s) ->
  (forall s, found t (take now (challenge_token r) m).1 s -> Psi s) ->
  (forall ch u, user_of t (lc_user_id ch) = Some u ->
    ends (found t (take now (challenge_token r) m).1) (verify_factor frozen webauthn now u ch r)
      (fun a s => match a with inl _ => Phi ch u s | inr _ => Psi s end)) ->
  ends (found t m) (verify_login frozen webauthn error_text header_value now c r) (fun a s =>
    match a with
    | inl x => exists ch u, (take now (challenge_token r) m).2 = Some (Mfa.Login ch) /\
        user_of t (lc_user_id ch) = Some u /\ is_active (person u) = true /\
        session_of now c u x /\ Phi ch u s
    | inr _ => found t m s \/ Psi s
    end).
Proof.
  intros HPhi HPsi HPP Hfound Hf. unfold verify_login. apply ends_then.
  { unfold require_enabled. case_match; [apply keeps_ret | apply keeps_throw]. }
  { by left. }
  intros []. eapply ends_bind; [eapply ends_post; [apply take_ends|]|].
  { intros [o|e] s Hs; [exact Hs | destruct Hs as [Hs _]; right; auto]. }
  intros o. apply ends_pure. intros ->. set (m' := (take now (challenge_token r) m).1) in *.
  eapply ends_bind; [eapply ends_post; [apply or_error_ends|]|].
  { intros [ch|e] s Hs; [exact Hs | destruct Hs as [Hs _]; right; auto]. }
  intros ch. apply ends_pure. intros Hch.
  eapply ends_bind; [eapply ends_post; [apply ends_reads, lift_reads, reads_select|]|].
  { intros [u|e] s [Hs Hu]; [|right; auto].
    assert (found t m' s /\ u = user_of t (lc_user_id ch)) as Hg.
    { split; [done|]. destruct Hs as [Ht _]. by rewrite Ht in Hu. } exact Hg. }
  intros ou. apply ends_pure. intros ->.
  eapply ends_bind; [eapply ends_post; [apply or_error_ends|]|].
  { intros [u|e] s Hs; [exact Hs | destruct Hs as [Hs _]; right; auto]. }
  intros u. apply ends_pure. intros Hu. unfold unless.
  destruct (is_active (person u)) eqn:Ha; simpl; [|apply ends_throw; intros s Hs; right; auto].
  apply ends_then; [apply throttled_found | intros e s Hs; right; auto |]. intros [].
  eapply ends_bind; [eapply ends_attempt; [apply Hf, Hu|]; intros o s Hs; exact Hs|].
  intros [[]|e]; simpl.
  - apply ends_then; [apply (keeps_count_success _ (HPhi ch u)) | right; eauto |]. intros [].
    apply ends_then; [apply (keeps_logged _ (HPhi ch u)) | right; eauto |]. intros [].
    eapply ends_bind; [eapply ends_post; [apply (issue_token_ends _ _ _ _ (HPhi ch u))|]|].
    { intros [x|e] s Hs; [exact Hs | right; apply (HPP ch u), Hs]. }
    intros x. apply ends_pure. intros Hx. apply ends_ret. intros s Hs.
    exists ch, u. repeat split; try done.
    destruct (take now (challenge_token r) m).2 as [[]|]; by simplify_eq.
  - apply ends_then; [apply (keeps_count_failure _ HPsi) | by right |]. intros [].
    apply ends_then; [apply (keeps_logged _ HPsi) | by right |]. intros [].
    apply ends_throw. by right.
Qed.

Lemma calm_and (I J : Server -> Prop) : calm I -> calm J -> calm (fun s => I s /\ J s).
Proof.
  intros HI HJ. split.
  - intros t s [H1 H2]. by split; apply calm_throttles.
  - intros n s Hn [H1 H2]. by split; apply calm_draws.
  - intros m s [H1 H2]. by split; apply calm_outbox.
  - intros A m Hm s fs [H1 H2] _. pose proof (calm_method I HI A m Hm s fs H1 Logic.I) as Ha.
    pose proof (calm_method J HJ A m Hm s fs H2 Logic.I) as Hb.
    destruct (within m (s, fs)) as [[s' fs'] r]. destruct r; tauto.
Qed.

Lemma calm_pure (P : Prop) : calm (fun _ => P).
Proof. split; [done..|]. intros A m _ s fs Hs _. by destruct (within m (s, fs)) as [[s' fs'] []]. Qed.

Lemma verify_login_ends now c r t m :
  ends (found t m) (verify_login frozen webauthn error_text header_value now c r) (fun a s =>
    match a with
    | inl x => challenges s = (take now (challenge_token r) m).1 /\ redeemed now c t r m x
    | inr _ => challenges s = m \/ challenges s = (take now (challenge_token r) m).1
    end).
Proof.
  eapply ends_post.
  - apply (verify_login_walk now c r t m
      (fun ch u s => challenges s = (take now (challenge_token r) m).1 /\ shown now t u ch r)
      (fun s => challenges s = (take now (challenge_token r) m).1)).
    + intros ch u. apply calm_and; [apply calm_store | apply calm_pure].
    + apply calm_store.
    + by intros ch u s [].
    + by intros s [].
    + intros ch u _. eapply ends_post; [apply factor_ends|]. by intros [x|e] s [].
  - intros [x|e] s; simpl.
    + intros (ch & u & H1 & H2 & H3 & H4 & H5 & H6). split; [done|]. by exists ch, u.
    + intros [[_ Hs]|Hs]; [by left | by right].
Qed.

(** ** What a request does to the store *)

Inductive store_change (now : instant) (c : AppConfig) (t : AccountDb) (m : Store) :
    Request -> Response + ApiError -> Store -> Prop :=
  | unchanged r a : (forall x, a <> inl (RSession x)) -> store_change now c t m r a m
  | by_password r u x :
      knew t r u -> session_of now c u x ->
      is_some (mfa_enrolled_at (account u)) && mfa_enabled (mfa (auth c)) = false ->
      (require_email_verification (auth c) = true -> is_some (email_verified_at (account u)) = true) ->
      store_change now c t m (PostLogin r) (inl (RSession x)) m
  | challenged r u mc m' : knew t r u -> issued now t u mc m m' ->
      store_change now c t m (PostLogin r) (inl (RChallenge mc)) m'
  | by_factor r x : redeemed now c t r m x ->
      store_change now c t m (PostVerify r) (inl (RSession x)) (take now (challenge_token r) m).1
  | refused_factor r e :
      store_change now c t m (PostVerify r) (inr e) (take now (challenge_token r) m).1
  | registering l a tok rg : (forall x, a <> inl (RSession x)) ->
      store_change now c t m (PostRegisterBegin l) a (put now tok (Register rg) m)
  | registered tok v a : (forall x, a <> inl (RSession x)) ->
      store_change now c t m (PostRegisterFinish tok v) a (take now tok m).1.

(** An answer that is no session. *)
Definition quiet (a : Response + ApiError) : Prop := forall x, a <> inl (RSession x).

Definition mute (m : H Response) : Prop := ends (fun _ => True) m (fun a _ => quiet a).

Lemma mute_bind {A} (m : H A) (k : A -> H Response) : (forall x, mute (k x)) -> mute (m ≫= k).
Proof.
  intros Hk. apply (ends_bind _ _ _ (fun _ _ => True)); [|done].
  intros s fs _. by destruct (m (s, fs)) as [[s' fs'] [x|e]].
Qed.

Lemma mute_fmap {A} (f : A -> Response) (m : H A) :
  (forall y x, f y <> RSession x) -> mute (f <$> m).
Proof. intros Hf. apply mute_bind. intros y. apply ends_ret. intros s _ x [= Hx]. by eapply Hf. Qed.

Lemma mute_ret x : (forall y, x <> RSession y) -> mute (mret x).
Proof. intros Hx. apply ends_ret. intros s _ y [= Hy]. by eapply Hx. Qed.

Lemma serve_mute now c h r :
  match r with PostLogin _ | PostVerify _ => False | _ => True end ->
  mute (serve frozen webauthn error_text header_value now c h r).
Proof.
  destruct r; try done; intros _; simpl; unfold as_user, as_admin;
    repeat first [ apply mute_fmap; done | apply mute_ret; done | apply mute_bind; intros ? | case_match ].
Qed.

Lemma begin_ends now c u l m :
  ends (fun s => challenges s = m) (webauthn_register_begin webauthn now c u l)
    (fun a s => challenges s = m \/
       exists tok rg, challenges s = put now tok (Register rg) m).
Proof.
  unfold webauthn_register_begin, need_webauthn, require_enabled.
  apply ends_then; [case_match; [apply keeps_ret | apply keeps_throw] | by left|]. intros [].
  apply ends_then; [case_match; [apply keeps_ret | apply keeps_throw] | by left|]. intros [].
  apply ends_then; [apply (keeps_select_tables _ ) | by left|]. intros ws. cbv zeta.
  unfold unless. case_bool_decide; [apply ends_throw; by left|].
  apply ends_then; [by apply (keeps_draw _ (calm_store m)) | by left|]. intros i.
  destruct start_passkey_registration as [[o st]|]; [|apply ends_throw; by left].
  eapply ends_bind; [|intros t; apply ends_ret; intros sv Hs; exact Hs].
  unfold put_registration.
  apply ends_then; [by apply (keeps_draw _ (calm_store m)) | by left|]. intros k.
  apply ends_then; [apply keeps_peek | by left|]. intros x.
  apply (ends_bind _ _ _ (fun _ s => exists tok rg, challenges s = put now tok (Register rg) m)).
  - apply ends_effect. intros sv <-. by eexists _, _.
  - intros []. apply ends_ret. by right.
Qed.

Lemma finish_ends now c u tok v m :
  ends (fun s => challenges s = m) (webauthn_register_finish webauthn now c u tok v)
    (fun a s => challenges s = m \/ challenges s = (take now tok m).1).
Proof.
  unfold webauthn_register_finish, need_webauthn, require_enabled.
  apply ends_then; [case_match; [apply keeps_ret | apply keeps_throw] | by left|]. intros [].
  apply ends_then; [case_match; [apply keeps_ret | apply keeps_throw] | by left|]. intros [].
  apply (ends_bind _ _ _ (fun _ s => challenges s = (take now tok m).1)).
  - unfold take_registration, on_challenges.
    apply (ends_bind _ _ _ (fun _ s => challenges s = (take now tok m).1)); [|intros x; by apply ends_ret].
    apply (ends_bind _ _ _ (fun _ s => challenges s = m)); [by apply ends_peek|]. intros x.
    apply (ends_bind _ _ _ (fun _ s => challenges s = (take now tok m).1)); [|intros []; by apply ends_ret].
    apply ends_effect. by intros s <-.
  - intros p. eapply ends_post; [apply ends_keeps|by right]. set (m' := (take now tok m).1).
    pose proof (calm_store m') as Hc. unfold audit, unless.
    repeat first [ apply keeps_ret | apply keeps_throw | by apply keeps_logged
      | by apply keeps_recompute | apply keeps_method; [done|constructor] | apply keeps_or_error
      | apply keeps_bind; [|intros ?] | case_match ].
Qed.

Lemma user_ends {A} now c h (k : AppUser -> H A) t m (Q : A + ApiError -> Server -> Prop) :
  (forall u, ends (fun s => challenges s = m) (k u) Q) ->
  (forall e s, challenges s = m -> Q (inr e) s) -> ends (found t m) (as_user now c h k) Q.
Proof.
  intros Hk He. apply (ends_pre _ (fun s => challenges s = m)); [|by intros s []].
  by apply ends_then; [apply (keeps_auth_user _)| |].
Qed.

(** Every request, and what it did to the store. *)
Lemma serve_store now c h r t m :
  ends (found t m) (serve frozen webauthn error_text header_value now c h r)
    (fun a s => store_change now c t m r a (challenges s)).
Proof.
  assert (~ on_store r -> ends (found t m) (serve frozen webauthn error_text header_value now c h r)
    (fun a s => store_change now c t m r a (challenges s))) as Hoff.
  { intros Hr. eapply ends_post; [apply ends_and|].
    - eapply ends_pre; [apply ends_keeps, (serve_off_store _ _ _ _ _ (calm_store m)); [|done]|by intros s []].
      intros now' c' u w k. apply (confirm_keeps _ _ (calm_store m)). intros now2 uid tid.
      apply keeps_map_err, keeps_within_frame. done.
    - eapply ends_pre; [apply serve_mute|done]. destruct r; try done; by destruct Hr.
    - intros a s [-> Ha]. by constructor. }
  destruct r; try (apply Hoff; by intros []); clear Hoff; simpl.
  - apply ends_fmap. eapply ends_post; [apply login_ends|]. intros [[mc|x]|e] s Hs; simpl.
    + destruct Hs as (u & Hk & Hi). by eapply challenged.
    + destruct Hs as [-> (u & H1 & H2 & H3 & H4)]. by eapply by_password.
    + rewrite Hs. by constructor.
  - apply ends_fmap. eapply ends_post; [apply verify_login_ends|]. intros [x|e] s Hs; simpl.
    + destruct Hs as [-> Hx]. by constructor.
    + destruct Hs as [->| ->]; by constructor.
  - assert (ends (found t m) (serve frozen webauthn error_text header_value now c h (PostRegisterBegin label))
      (fun a s => challenges s = m \/ exists tok rg, challenges s = put now tok (Register rg) m)) as Hs.
    { apply user_ends; [|by left]. intros u. apply ends_fmap. by eapply ends_post; [apply begin_ends|]. }
    eapply ends_post; [eapply ends_and; [apply Hs | eapply ends_pre; [by apply (serve_mute now c h (PostRegisterBegin label))|done]]|].
    intros a s [[->|(tok & rg & ->)] Ha]; by constructor.
  - assert (ends (found t m) (serve frozen webauthn error_text header_value now c h (PostRegisterFinish challenge response0))
      (fun a s => challenges s = m \/ challenges s = (take now challenge m).1)) as Hs.
    { apply user_ends; [|by left]. intros u. apply ends_fmap. by eapply ends_post; [apply finish_ends|]. }
    eapply ends_post; [eapply ends_and; [apply Hs | eapply ends_pre; [by apply (serve_mute now c h (PostRegisterFinish challenge response0))|done]]|].
    intros a s [[->| ->] Ha]; by constructor.
Qed.

End Sessions.
End AccountSessions.
