(* ===== verification/AccountSafety.v ===== *)
(** * Logging in is safe

    Over whole histories of the account surface: what a session took, that an
    authenticator's code opens once, that a new password ends the sessions before it,
    and that a reset link sets one password. *)
From Stdlib Require Import QArith Ascii.
From S2P Require Import Prelude Text Rbac Schedules Access Faults Money AuditLog Database Api Throttle Power Training GuardStore Hooks Trail Alerts Accounts Auth Mfa MfaApi AuthApi UsersApi AccountSurface AccountFrames AccountHistory AccountSessions.
Import Text Rbac Faults Money Audit Database Api Power Training GuardStore Hooks Trail Accounts Auth Mfa MfaApi AuthApi UsersApi AccountSurface AccountFrames AccountHistory AccountSessions.

Module AccountSafety.

#[local] Open Scope Z_scope.

Section Safety.
Context {U : Uuid} {IS : IdSource} {JT : JsonbText} {CF : CaseFold} {PH : PasswordHashUtil}
  {JW : Jwt} {TL : TotpLib} {WL : WebauthnLib} {EN : Entropy} {ML : Mailer} {TH : TokenHash}
  {RC : Recaptcha}.
Context (frozen : AuthMfaConfig) (webauthn : bool) (error_text : ApiError -> string)
  (header_value : string -> bool).

Abbreviation H := (Faults.M Server ApiError).
Abbreviation Store := (gmap string StoredChallenge).
Abbreviation history := (AccountHistory.history frozen webauthn error_text header_value).

(** ** The store *)

Lemma lookup_put now tok e m k x : put now tok e m !! k = Some x ->
  (k = tok /\ x = {| entry := e; expires_at := now + CHALLENGE_TTL |}) \/ (k <> tok /\ m !! k = Some x).
Proof.
  unfold put, prune_expired. rewrite lookup_insert_Some, map_lookup_filter_Some.
  intros [[<- <-]|[Hk [Hm _]]]; [by left | right; by split].
Qed.

Lemma lookup_take now tok m k x : (take now tok m).1 !! k = Some x -> k <> tok /\ m !! k = Some x.
Proof.
  unfold take, prune_expired. destruct (filter _ m !! tok) as [e|] eqn:He; simpl.
  - rewrite lookup_delete_Some, map_lookup_filter_Some. intros [Hk [Hm _]]. by split.
  - intros Hk. split; [by intros ->; rewrite He in Hk|].
    by apply map_lookup_filter_Some in Hk as [? _].
Qed.

Lemma take_found now tok m e : (take now tok m).2 = Some e ->
  exists expiry, m !! tok = Some {| entry := e; expires_at := expiry |} /\ now < expiry.
Proof.
  unfold take, prune_expired. destruct (filter _ m !! tok) as [[e' expiry]|] eqn:He; simpl; [|done].
  apply map_lookup_filter_Some in He as [He Hn]. case_match; [done|]. intros [= <-].
  by exists expiry.
Qed.

(** ** A session takes its factors *)

(** The step that knew the password and was answered the challenge. *)
Definition password_step (st : Step) (tok : string) (ch : LoginChallenge) : Prop :=
  exists r mc u i, req st = PostLogin r /\ answer st = inl (RChallenge mc) /\ mc_token mc = tok /\
    knew (tables (before st)) r u /\ lc_user_id ch = uid_of u /\
    webauthn_auth ch =
      snd <$> start_ceremony webauthn i (webauthns_of (tables (before st)) (uid_of u)).

(** The step that traded it for a session. *)
Definition traded (tok : string) (st : Step) : Prop :=
  exists r x, req st = PostVerify r /\ challenge_token r = tok /\ answer st = inl (RSession x).

Definition pending_from (h : list Step) (s : Server) : Prop :=
  forall tok ch expiry, challenges s !! tok = Some {| entry := Mfa.Login ch; expires_at := expiry |} ->
  exists h1 st h2, h = h1 ++ st :: h2 /\ password_step st tok ch /\
    expiry = at_ st + CHALLENGE_TTL /\ Forall (fun st => ~ traded tok st) h2.

Lemma pending_later h s st tok ch expiry :
  pending_from h s -> challenges s !! tok = Some {| entry := Mfa.Login ch; expires_at := expiry |} ->
  ~ traded tok st ->
  exists h1 first h2, h ++ [st] = h1 ++ first :: h2 /\ password_step first tok ch /\
    expiry = at_ first + CHALLENGE_TTL /\ Forall (fun st => ~ traded tok st) h2.
Proof.
  intros Hp Hl Ht. destruct (Hp _ _ _ Hl) as (h1 & first & h2 & -> & Hf & He & Hn).
  exists h1, first, (h2 ++ [st]). rewrite <- app_assoc. repeat split; try done.
  apply Forall_app. by split; [|constructor].
Qed.

Lemma store_of_serve now c hd r s fs s' fs' a :
  serve frozen webauthn error_text header_value now c hd r (s, fs) = ((s', fs'), a) ->
  store_change frozen webauthn now c (tables s) (challenges s) r a (challenges s').
Proof.
  intros Hr. pose proof (serve_store frozen webauthn error_text header_value now c hd r
    (tables s) (challenges s) s fs (conj eq_refl eq_refl)) as Hs. by rewrite Hr in Hs.
Qed.

Lemma pending_step h st s' :
  pending_from h (before st) ->
  store_change frozen webauthn (at_ st) (cfg st) (tables (before st)) (challenges (before st))
    (req st) (answer st) (challenges s') ->
  pending_from (h ++ [st]) s'.
Proof.
  intros Hp Hr tok ch expiry Hl.
  assert ((forall x, answer st <> inl (RSession x)) -> ~ traded tok st) as Hquiet.
  { intros Hq (r & x & _ & _ & Hx). by apply (Hq x). }
  inversion Hr as [r a Hq Hreq Ha Hm | r u x _ _ _ _ Hreq | r u mc m' Hk (ch' & i & Hc & Hw & Hm) Hreq Ha
    | r x _ Hreq Ha Hm | r e Hreq Ha Hm | l a tok' rg Hq Hreq Ha Hm | tok' v a Hq Hreq Ha Hm].
  - rewrite <- Hm in Hl. eapply pending_later; [done..|by apply Hquiet].
  - eapply pending_later; [done| |intros (r' & x' & Hr' & _); congruence]. congruence.
  - rewrite Hm in Hl. apply lookup_put in Hl as [[-> Heq]|[Hne Hl]].
    + injection Heq as -> ->. exists h, st, []. repeat split; [|constructor]. by exists r, mc, u, i.
    + eapply pending_later; [done..|]. intros (r' & x' & Hr' & _). congruence.
  - rewrite <- Hm in Hl. apply lookup_take in Hl as [Hne Hl]. eapply pending_later; [done..|].
    intros (r' & x' & Hr' & Htok & _). congruence.
  - rewrite <- Hm in Hl. apply lookup_take in Hl as [Hne Hl].
    eapply pending_later; [done..|]. apply Hquiet. congruence.
  - rewrite <- Hm in Hl. apply lookup_put in Hl as [[_ [=]]|[Hne Hl]].
    eapply pending_later; [done..|by apply Hquiet].
  - rewrite <- Hm in Hl. apply lookup_take in Hl as [Hne Hl].
    eapply pending_later; [done..|by apply Hquiet].
Qed.

Lemma history_pending h s : history h s -> pending_from h s.
Proof.
  intros Hh. induction Hh as [s [Hst _] | h s now c hd r fs s' fs' a Hh IH Hr | h s s' Hh IH (t & th & ->)].
  - intros tok ch expiry Hl. by rewrite Hst in Hl.
  - by apply pending_step; [|eapply store_of_serve].
  - exact IH.
Qed.

(** C17. Every session was answered either to a request that knew the name and the
    password of an active account that has no second factor to show (and, where that is
    asked, a confirmed address), or to one that traded a challenge: issued less than ten
    minutes before to a request that knew the password, not traded since, with a factor
    of that account: a fresh code of a confirmed authenticator, a passkey ceremony begun
    over its passkeys, or an unused recovery code. *)
Theorem session_needs_its_factors h1 st h2 s x :
  history (h1 ++ st :: h2) s -> answer st = inl (RSession x) ->
  (exists r u, req st = PostLogin r /\ knew (tables (before st)) r u /\
     is_some (mfa_enrolled_at (account u)) && mfa_enabled (mfa (auth (cfg st))) = false /\
     (require_email_verification (auth (cfg st)) = true ->
        is_some (email_verified_at (account u)) = true) /\
     session_of (at_ st) (cfg st) u x) \/
  (exists r ch u h11 first h12, req st = PostVerify r /\ h1 = h11 ++ first :: h12 /\
     password_step first (challenge_token r) ch /\ at_ st < at_ first + CHALLENGE_TTL /\
     Forall (fun st => ~ traded (challenge_token r) st) h12 /\
     user_of (tables (before st)) (lc_user_id ch) = Some u /\ is_active (person u) = true /\
     shown frozen webauthn (at_ st) (tables (before st)) u ch r /\
     session_of (at_ st) (cfg st) u x).
Proof.
  intros Hh Hx. apply history_at in Hh as (Hh & fs & s' & fs' & Hr & _).
  apply store_of_serve in Hr. rewrite Hx in Hr.
  inversion Hr as [r a Hq | r u x' Hk Ho Hm Hv Hreq | | r x' Hrd Hreq | | l a tok rg Hq | tok v a Hq].
  1, 4, 5: by exfalso; eapply Hq.
  - left. by eexists r, u.
  - right. destruct Hrd as (ch & u & Ht & Hu & Ha & Hs & Ho).
    apply take_found in Ht as (expiry & Hl & Hlt).
    destruct (history_pending _ _ Hh _ _ _ Hl) as (h11 & first & h12 & -> & Hf & -> & Hn).
    by exists r, ch, u, h11, first, h12.
Qed.

End Safety.
End AccountSafety.
