(* ===== verification/AccountOnce.v ===== *)
(** * What works once

    An authenticator's code opens one session, a reset link sets one password, and a
    session lasts as long as the password it began under. *)
From Stdlib Require Import QArith Ascii.
From S2P Require Import Prelude Text Rbac Schedules Access Faults Money AuditLog Database Api Throttle Power Training GuardStore Hooks Trail Alerts Accounts Auth Mfa MfaApi AuthApi UsersApi AccountSurface AccountFrames AccountTables AccountHistory AccountSessions.
Import Text Rbac Faults Money Audit Database Api Power Training GuardStore Hooks Trail Accounts Auth Mfa MfaApi AuthApi UsersApi AccountSurface AccountFrames AccountTables AccountHistory AccountSessions.

Module AccountOnce.

#[local] Open Scope Z_scope.

Section Once.
Context {U : Uuid} {IS : IdSource} {JT : JsonbText} {CF : CaseFold} {PH : PasswordHashUtil}
  {JW : Jwt} {TL : TotpLib} {WL : WebauthnLib} {EN : Entropy} {ML : Mailer} {TH : TokenHash}
  {RC : Recaptcha}.
Context (frozen : AuthMfaConfig) (webauthn : bool) (error_text : ApiError -> string)
  (header_value : string -> bool).

Abbreviation H := (Faults.M Server ApiError).
Abbreviation Store := (gmap string StoredChallenge).
Abbreviation history := (AccountHistory.history frozen webauthn error_text header_value).
Abbreviation serve := (AccountSurface.serve frozen webauthn error_text header_value).

(** ** An authenticator's codes *)

(** Rows under identifiers of their own, all drawn. *)
Definition keyed (ts : list UserMfaTotp) (n : nat) : Prop :=
  NoDup (totp_id <$> ts) /\ (forall t, t ∈ ts -> allotted n (totp_id t)).

(** Confirmed, and past this step. *)
Definition past (tid : uuid) (step : Z) (ts : list UserMfaTotp) (n : nat) : Prop :=
  allotted n tid /\
  forall t, t ∈ ts -> totp_id t = tid ->
    is_confirmed t = true /\ exists last, last_used_step t = Some last /\ step <= last.

Lemma allotted_more n k id : allotted n id -> allotted (k + n) id.
Proof. intros (i & Hi & ->). exists i. split; [lia|done]. Qed.

Lemma allotted_next n id : allotted n id -> id <> gen_random_uuid n.
Proof. intros (i & Hi & ->) Heq%gen_random_uuid_inj. lia. Qed.

Lemma keyed_kept : totp_kept keyed.
Proof.
  split.
  - intros ts n k [H1 H2]. split; [done|]. intros t Ht. by apply allotted_more, H2.
  - intros p ts n [H1 H2]. split; [by apply NoDup_fmap_filter|].
    intros t [Ht _]%elem_of_lfilter. by apply H2.
  - intros t ts n Hid _ [H1 H2]. split.
    + rewrite fmap_app, NoDup_app. split_and!; [done| |apply NoDup_singleton].
      intros id (t' & -> & Ht')%list_elem_of_fmap [Heq|[]%not_elem_of_nil]%elem_of_cons.
      apply (allotted_next n (totp_id t')); [by apply H2 | congruence].
    + intros t' [Ht'|[->|[]%not_elem_of_nil]%elem_of_cons]%elem_of_app.
      * by apply (allotted_more n 1), H2.
      * exists n. split; [lia|done].
Qed.

Lemma past_kept tid step : totp_kept (past tid step).
Proof.
  split.
  - intros ts n k [H1 H2]. split; [by apply allotted_more|done].
  - intros p ts n [H1 H2]. split; [done|]. intros t [Ht _]%elem_of_lfilter. by apply H2.
  - intros t ts n Hid _ [H1 H2]. split; [by apply (allotted_more n 1)|].
    intros t' [Ht'|[->|[]%not_elem_of_nil]%elem_of_cons]%elem_of_app Heq; [by apply H2|].
    by apply allotted_next in H1; congruence.
Qed.

(** The two writes on a row that exists. *)
Lemma ids_update_where p f ts : (forall t, totp_id (f t) = totp_id t) ->
  totp_id <$> update_where p f ts = totp_id <$> ts.
Proof.
  intros Hf. unfold update_where. rewrite <- list_fmap_compose. apply list_fmap_ext.
  intros i t _. simpl. by case_match.
Qed.

Lemma keyed_update p f ts n : (forall t, totp_id (f t) = totp_id t) ->
  keyed ts n -> keyed (update_where p f ts) n.
Proof.
  intros Hf [H1 H2]. split; [by rewrite ids_update_where|].
  intros t (y & Hy & [[_ ->]|[_ ->]])%elem_update_where; [rewrite Hf|]; by apply H2.
Qed.

Lemma keeps_update (K : list UserMfaTotp -> nat -> Prop) p f :
  (forall ts n, K ts n -> K (update_where p f ts) n) -> keeps (on_totps K) (update_totps p f).
Proof.
  intros HK. apply keeps_call. intros db Hdb. cbv beta. case_match; simpl; [|done]. by apply HK.
Qed.

Lemma lift_totps K A (m : Faults.M AccountDb DatabaseError A) :
  keeps (on_totps K) m -> keeps (of_tables (on_totps K)) (lift m).
Proof. intros Hm. by apply keeps_map_err, keeps_within_tables. Qed.

Lemma calm_totps K : totp_kept K -> calm (of_tables (on_totps K)).
Proof. intros HK. apply calm_tables. intros A m Hm. by apply keeps_totps. Qed.

Lemma serve_keyed now c h r : keeps (of_tables (on_totps keyed)) (serve now c h r).
Proof.
  pose proof (calm_totps keyed keyed_kept) as Hc.
  apply (serve_keeps _ _ _ _ _ Hc); [|done|].
  - intros now' c' u w k. apply (confirm_keeps _ _ Hc). intros now2 uid tid.
    apply lift_totps, keeps_update. intros ts n. by apply keyed_update.
  - intros now' u k. apply totp_keeps. intros now2 tid step.
    apply lift_totps, keeps_update. intros ts n. by apply keyed_update.
Qed.

Lemma past_update tid step p f ts n :
  (forall t, totp_id (f t) = totp_id t) ->
  (forall t, t ∈ ts -> totp_id t = tid -> p t = true -> is_confirmed t = true ->
     is_confirmed (f t) = true /\ exists last, last_used_step (f t) = Some last /\ step <= last) ->
  past tid step ts n -> past tid step (update_where p f ts) n.
Proof.
  intros Hf Hp [H1 H2]. split; [done|].
  intros t (y & Hy & [[Hpy ->]|[_ ->]])%elem_update_where Ht; [|by apply H2].
  rewrite Hf in Ht. apply Hp; [done..|]. by apply H2.
Qed.

(** A confirmed authenticator is not confirmed again. *)
Lemma confirm_past tid step now c u w k :
  keeps (of_tables (on_totps (past tid step))) (totp_confirm frozen now c u w k).
Proof.
  pose proof (calm_totps _ (past_kept tid step)) as Hc. unfold totp_confirm.
  apply keeps_bind; [by apply keeps_need|]. intros [].
  eapply triple_bind; [apply triple_reads, lift_reads, reads_select|]. intros rows. cbv beta.
  eapply triple_bind; [apply triple_or_error|]. intros row. cbv beta.
  apply (triple_weaken _ _ (fun _ => True /\ totp_id row <> tid) _ _ (fun _ _ => True)); [|intros s Hs [[_ ->] Hr]|done].
  2: { apply find_first_Some in Hr as [He%elem_totps_of Hf]. split; [done|]. intros Hid.
       destruct Hs as [_ Hs]. destruct (Hs row) as [Hn _]; [apply He|done|].
       unfold in_flight in Hf. by rewrite Hn in Hf. }
  apply triple_pure. intros Hne. change (keeps (of_tables (on_totps (past tid step)))
    (unless (negb (verify_totp frozen now (secret_base32 row) (email (account u)) (trim k)))
       (BadRequest "Invalid code")
       (_ ← lift (finalize_totp_confirmation now (uid_of u) (totp_id row));
        _ ← lift (recompute_user_mfa_enrolled now (uid_of u));
        codes ← (if negb (is_some (mfa_enrolled_at (account u)))
                 then mint_recovery_codes frozen now (uid_of u) else mret []);
        _ ← audit now MfaTotpEnrolled (uid_of u) (enrolled_data row);
        mret codes))).
  unfold unless. case_match; [apply keeps_throw|].
  apply keeps_bind; [|intros []].
  - apply lift_totps, keeps_update. intros ts n. apply past_update; [done|].
    intros t _ Ht Hp. unfold is_totp in Hp. apply andb_true_iff in Hp as [_ Hp%bool_decide_eq_true].
    congruence.
  - apply keeps_bind; [by apply keeps_recompute|]. intros b.
    apply keeps_bind; [case_match; [by apply keeps_mint | apply keeps_ret]|]. intros codes.
    apply keeps_bind; [by apply keeps_logged|]. intros []. apply keeps_ret.
Qed.

(** Answering moves it on. *)
Lemma try_past tid step now u k rows replayed :
  (forall row, row ∈ rows -> totp_id row = tid ->
     exists last, last_used_step row = Some last /\ step <= last) ->
  keeps (of_tables (on_totps (past tid step))) (try_totps frozen now u k replayed rows).
Proof.
  revert replayed. induction rows as [|row rows IH]; intros replayed Hrows; simpl; [apply keeps_throw|].
  destruct verify_totp_step as [n|]; [destruct (is_replay n row) eqn:Hr|].
  1, 3: apply IH; intros row' Hrow'; apply Hrows; by right.
  apply lift_totps, keeps_update. intros ts nx. apply past_update; [done|].
  intros t _ Ht Hp%bool_decide_eq_true Hconf. split; [exact Hconf|]. exists n. split; [done|].
  destruct (Hrows row) as (last & Hl & Hle); [by left | congruence|].
  unfold is_replay in Hr. rewrite Hl in Hr. simpl in Hr. lia.
Qed.

Lemma totp_path_past tid step now u k :
  keeps (of_tables (on_totps (past tid step))) (verify_totp_path frozen now u k).
Proof.
  unfold verify_totp_path.
  apply keeps_bind; [apply keeps_or_error|]. intros c.
  eapply triple_bind; [apply triple_reads, lift_reads, reads_select|]. intros rows. cbv beta.
  apply (triple_weaken _ _ (fun _ => True /\ forall row, row ∈ rows -> totp_id row = tid ->
    is_confirmed row = true -> exists last, last_used_step row = Some last /\ step <= last)
    _ _ (fun _ _ => True)); [|intros s [_ Hs] [_ ->]|done].
  2: { split; [done|]. intros row [He _]%elem_totps_of Hid _. by apply Hs. }
  apply triple_pure. intros Hrows. case_match eqn:Hc; [apply keeps_throw|]. rewrite <- Hc.
  apply try_past. intros row [He Hf]%elem_of_lfilter Hid. by apply Hrows.
Qed.

Lemma serve_past tid step now c h r : keeps (of_tables (on_totps (past tid step))) (serve now c h r).
Proof.
  apply (serve_keeps _ _ _ _ _ (calm_totps _ (past_kept tid step))); [|done|].
  - intros now' c' u w k. apply confirm_past.
  - intros now' u k. apply totp_path_past.
Qed.

Lemma keyed_inj ts n t t' : keyed ts n -> t ∈ ts -> t' ∈ ts -> totp_id t = totp_id t' -> t = t'.
Proof.
  intros [Hn _] (i & Hi)%list_elem_of_lookup_1 (j & Hj)%list_elem_of_lookup_1 Heq.
  assert (i = j) as ->.
  { eapply (NoDup_lookup _ i j); [exact Hn|by rewrite list_lookup_fmap, Hi|].
    by rewrite list_lookup_fmap, Hj, Heq. }
  congruence.
Qed.

Lemma try_spends t now u k rows replayed :
  on_totps keyed t -> (forall row, row ∈ rows -> row ∈ totps (factors t) /\ is_confirmed row = true) ->
  ends (fun s => tables s = t) (try_totps frozen now u k replayed rows) (fun a s => match a with
    | inl _ => exists row n, answering frozen now u k rows = Some (row, n) /\
        of_tables (on_totps (past (totp_id row) n)) s
    | inr _ => True
    end).
Proof.
  intros Hk. revert replayed. induction rows as [|row rows IH]; intros replayed Hrows; simpl.
  { by apply ends_throw. }
  destruct verify_totp_step as [n|]; [destruct (is_replay n row) eqn:Hr|].
  1, 3: apply IH; intros row' Hrow'; apply Hrows; by right.
  destruct (Hrows row) as [He Hc]; [by left|].
  intros s fs Ht.
  assert (triple (on_totps keyed) (fun db => db = t)
    (update_totps (fun t => totp_id t ≟ totp_id row) (used_at_step now n))
    (fun _ db => on_totps (past (totp_id row) n) db)) as Hup.
  { apply triple_call. intros db Hdb ->. cbv beta. case_match; [|done]. cbn [fst snd].
    split; [by apply keyed_update|]. split; [by apply Hk|].
    intros t' (y & Hy & [[Hpy ->]|[Hpy ->]])%elem_update_where Hid.
    - apply bool_decide_eq_true in Hpy. rewrite (keyed_inj _ _ y row Hk Hy He Hpy).
      split; [exact Hc|]. by exists n.
    - by rewrite Hid, bool_decide_true in Hpy. }
  specialize (Hup t fs Hk eq_refl). unfold lift, map_err, within, update_totp_last_used_step.
  cbn [part server_tables]. rewrite Ht. destruct (update_totps _ _ (t, fs)) as [[t' fs'] [[]|e]]; [|done].
  exists row, n. split; [done|]. apply Hup.
Qed.

Definition spent_totp (now : instant) (t : AccountDb) (r : MfaVerifyRequest) (u : AppUser)
    (s : Server) : Prop :=
  if method r ≟ TOTP_METHOD then
    match totp_answer frozen now t u r with
    | Some (row, n) => of_tables (on_totps (past (totp_id row) n)) s
    | None => False
    end
  else True.

Lemma calm_spent now t r u : calm (spent_totp now t r u).
Proof.
  unfold spent_totp. case_match; [|apply calm_pure].
  destruct totp_answer as [[row n]|]; [apply calm_totps, past_kept | apply calm_pure].
Qed.

Lemma factor_spends now t m u ch r : on_totps keyed t ->
  ends (found t m) (verify_factor frozen webauthn now u ch r) (fun a s => match a with
    | inl _ => spent_totp now t r u s
    | inr _ => True
    end).
Proof.
  intros Hk. unfold verify_factor, spent_totp. case_bool_decide.
  2: { apply ends_any. by intros [x|e] s. }
  unfold verify_totp_path, list_user_totp.
  eapply ends_bind; [eapply ends_post; [apply or_error_ends|]|].
  { intros [k|e] s Hs; [exact Hs | done]. }
  intros k. apply ends_pure. intros Hc.
  eapply ends_bind; [eapply ends_post; [apply ends_reads, lift_reads, reads_select|]|].
  { intros [ts|e] s [[Ht Hm] Hs]; [|done].
    assert (tables s = t /\ ts = totps_of t (uid_of u)) as Hf by (rewrite Ht in Hs; done). exact Hf. }
  intros ts. apply ends_pure. intros ->. case_match eqn:He; [by apply ends_throw|]. rewrite <- He.
  eapply ends_post; [apply try_spends|]; [done| |].
  - intros row [Hrow Hconf]%elem_of_lfilter. by apply elem_totps_of in Hrow as [Hrow _].
  - intros [x|e] s; [|done]. intros (row & n & Ha & Hp).
    unfold totp_answer. rewrite Hc. simpl. by rewrite Ha.
Qed.

(** A session that a code opened: the authenticator that answered, and the step. *)
Definition opened (st : Step) (row : UserMfaTotp) (n : Z) : Prop :=
  exists r x ch u, req st = PostVerify r /\ method r = TOTP_METHOD /\ answer st = inl (RSession x) /\
    (take (at_ st) (challenge_token r) (challenges (before st))).2 = Some (Mfa.Login ch) /\
    user_of (tables (before st)) (lc_user_id ch) = Some u /\
    totp_answer frozen (at_ st) (tables (before st)) u r = Some (row, n).

Lemma opened_past st row n fs s' fs' :
  opened st row n -> of_tables (on_totps keyed) (before st) ->
  serve (at_ st) (cfg st) (hdrs st) (req st) (before st, fs) = ((s', fs'), answer st) ->
  of_tables (on_totps (past (totp_id row) n)) s'.
Proof.
  intros (r & x & ch & u & Hreq & Hm & Ha & Htake & Hu & Hans) Hk Hr.
  pose proof (verify_login_walk frozen webauthn error_text header_value (at_ st) (cfg st) r
    (tables (before st)) (challenges (before st)) (fun _ u => spent_totp (at_ st) (tables (before st)) r u)
    (fun _ => True)) as Hw.
  specialize (Hw (fun _ u => calm_spent _ _ _ u) (calm_pure True)).
  assert (ends (found (tables (before st)) (challenges (before st))) (serve (at_ st) (cfg st) (hdrs st) (PostVerify r))
    (fun a s => match a with inl _ => of_tables (on_totps (past (totp_id row) n)) s | inr _ => True end)) as He.
  { apply ends_fmap. eapply ends_post; [apply Hw; [done|done|]|].
    - intros ch' u' _. eapply ends_post; [by apply factor_spends|]. by intros [] s.
    - intros [y|e] s; [|done]. intros (ch' & u' & Ht & Hu' & _ & _ & Hs).
      assert (u' = u) as -> by congruence. unfold spent_totp in Hs.
      rewrite bool_decide_true in Hs by done. by rewrite Hans in Hs. }
  specialize (He (before st) fs (conj eq_refl eq_refl)). rewrite <- Hreq, Hr, Ha in He. exact He.
Qed.

(** C19. Of one authenticator, no code opens two sessions: of any two sessions that it
    opened, the later answered with a code of a later step. *)
Theorem code_opens_once h1 st1 h2 st2 h3 s row1 n1 row2 n2 :
  history (h1 ++ st1 :: h2 ++ st2 :: h3) s -> opened st1 row1 n1 -> opened st2 row2 n2 ->
  totp_id row1 = totp_id row2 -> n1 < n2.
Proof.
  intros Hh H1 H2 Hid.
  assert (forall h s, history h s -> of_tables (on_totps keyed) s) as Hkeyed.
  { intros h s0. apply history_invariant; [by intros s1 (_ & _ & Hs)| |intros; apply serve_keyed].
    by intros s1 s2 (t & th & ->). }
  rewrite app_comm_cons, app_assoc in Hh. apply history_at in Hh as [Hh _].
  assert (of_tables (on_totps (past (totp_id row1) n1)) (before st2)) as Hp.
  { eapply history_from; [| |intros fs s' fs' Hb|exact Hh].
    - by intros s1 s2 (t & th & ->).
    - intros. apply serve_past.
    - intros Hr. eapply opened_past; [done| |exact Hr]. by eapply Hkeyed. }
  destruct H2 as (r & x & ch & u & _ & _ & _ & _ & _ & Ha).
  unfold totp_answer in Ha. destruct (given_code (code r)) as [k|]; simpl in Ha; [|done].
  apply answering_elem in Ha as (He & Hr & _). apply elem_of_lfilter in He as [He%elem_totps_of _].
  destruct Hp as [_ Hp]. destruct (Hp row2) as (_ & last & Hl & Hle); [apply He|done|].
  unfold is_replay in Hr. rewrite Hl in Hr. simpl in Hr. lia.
Qed.

(** ** A password's sessions *)

Lemma update_totps_since uid hash v p f : keeps (since uid hash v) (update_totps p f).
Proof. apply keeps_call. intros db Hdb. cbv beta. by case_match. Qed.

Lemma serve_since uid hash v now c h r : keeps (of_tables (since uid hash v)) (serve now c h r).
Proof.
  assert (calm (of_tables (since uid hash v))) as Hc.
  { apply calm_tables. intros A m. apply keeps_since. }
  apply (serve_keeps _ _ _ _ _ Hc); [|done|].
  - intros now' c' u w k. apply (confirm_keeps _ _ Hc). intros now2 uid' tid.
    apply keeps_map_err, keeps_within_tables, update_totps_since.
  - intros now' u k. apply totp_keeps. intros now2 tid step.
    apply keeps_map_err, keeps_within_tables, update_totps_since.
Qed.

(** The session was answered at this step, to this row of the tables it found. *)
Definition began (st : Step) (u : AppUser) (x : Session) : Prop :=
  answer st = inl (RSession x) /\ session_of (at_ st) (cfg st) u x /\
  user_of (tables (before st)) (uid_of u) = Some u.

Lemma get_user_of now secret tok :
  reads (get_user_from_token now secret tok) (fun db u => exists c,
    decode tok secret now = Some c /\ user_of db (claims_user_id c) = Some u /\
    claims_token_version c = token_version (account u) /\ is_active (person u) = true).
Proof.
  unfold get_user_from_token, verify_token.
  eapply (reads_bind _ _ (fun _ c => decode tok secret now = Some c)).
  { destruct (decode tok secret now); [by apply reads_ret | apply reads_throw]. }
  intros c. eapply reads_bind; [apply reads_map_err, reads_select|]. intros [u|]; simpl; [|apply reads_throw].
  destruct (is_active (person u)) eqn:Ha; simpl; [|apply reads_throw].
  case_bool_decide as Hv; simpl; [|apply reads_throw]. apply reads_ret. intros db Hu Hc. by exists c.
Qed.

(** C18. A session lasts as long as the password it began under: whoever a request is
    taken for on a session's token is the account it began for, active, and with the
    password hash that it had then.  Any change of the password, whoever made it and by
    whatever route, ends every session before it. *)
Theorem session_ends_with_its_password h1 st h2 s u x now c hd fs s' u' :
  history (h1 ++ st :: h2) s -> began st u x ->
  jwt_secret (auth c) = jwt_secret (auth (cfg st)) ->
  select_request_token (cookie hd) (authorization hd) = inr (token (MfaApi.login x)) ->
  auth_user now c hd (tables s, fs) = (s', inl u') ->
  uid_of u' = uid_of u /\ is_active (person u') = true /\
  password_hash (account u') = password_hash (account u) /\
  token_version (account u') = token_version (account u).
Proof.
  intros Hh (Hx & Hsess & Hu) Hsecret Htok Hauth.
  assert (of_tables (since (uid_of u) (password_hash (account u)) (token_version (account u))) s) as Hs.
  { eapply history_from; [| |intros fs0 s0 fs0' Hb Hr|exact Hh].
    - by intros s1 s2 (t & th & ->).
    - intros. apply serve_since.
    - apply user_of_Some in Hu as [_ Ha].
      pose proof (serve_since (uid_of u) (password_hash (account u)) (token_version (account u))
        (at_ st) (cfg st) (hdrs st) (req st) (before st) fs0) as Hk.
      rewrite Hr in Hk. apply Hk; [|done]. exists (password_hash (account u)), (token_version (account u)).
      unfold epoch_of. rewrite Ha. split_and!; [done|lia|done]. }
  unfold auth_user in Hauth. rewrite Htok in Hauth.
  change (get_user_from_token now (jwt_secret (auth c)) (token (MfaApi.login x)) (tables s, fs) = (s', inl u')) in Hauth.
  pose proof (get_user_of now (jwt_secret (auth c)) (token (MfaApi.login x)) (tables s) fs) as Hget.
  rewrite Hauth in Hget. destruct s' as [db' fs']. destruct Hget as [-> (cl & Hd & Hu' & Hv & Ha)].
  unfold session_of in Hsess. rewrite Hsecret in Hd.
  apply (decode_encode _ _ _ _ _ Hsess) in Hd as ->. simpl in Hu', Hv.
  apply user_of_Some in Hu' as [Hid Hacc]. destruct Hs as (hash' & v' & He & Hle & Heq).
  unfold epoch_of in He. rewrite Hacc in He. injection He as <- <-.
  split_and!; try done. by apply Heq.
Qed.

(** ** A reset link *)

Definition digests (ts : list PasswordResetToken) : Prop := NoDup (prt_token_hash <$> ts).

(** The link with this digest is spent. *)
Definition used_up (hash : string) (ts : list PasswordResetToken) : Prop :=
  (exists t, t ∈ ts /\ prt_token_hash t = hash) /\
  forall t, t ∈ ts -> prt_token_hash t = hash -> is_some (prt_used_at t) = true.

Lemma digests_kept : resets_kept digests.
Proof.
  split.
  - intros p now ts Hts. unfold digests, update_where. rewrite <- list_fmap_compose.
    erewrite list_fmap_ext; [exact Hts|]. intros i t _. simpl. by case_match.
  - intros t ts Ht Hts. unfold digests. rewrite fmap_app, NoDup_app.
    split_and!; [done| |apply NoDup_singleton].
    intros id (t' & -> & Ht')%list_elem_of_fmap [Heq|[]%not_elem_of_nil]%elem_of_cons.
    by apply (Ht t').
Qed.

Lemma used_up_kept hash : resets_kept (used_up hash).
Proof.
  split.
  - intros p now ts [(t & Ht & Hh) Hall]. split.
    + exists (if p t then spend_reset now t else t).
      split; [by apply (list_elem_of_fmap_2 (fun x => if p x then spend_reset now x else x))|]. by case_match.
    + intros t' (y & Hy & [[_ ->]|[_ ->]])%elem_update_where; [done|]. by apply Hall.
  - intros t ts Hf [(t0 & Ht0 & Hh) Hall]. split.
    + exists t0. split; [apply elem_of_app; by left | done].
    + intros t' [Ht'|[->|[]%not_elem_of_nil]%elem_of_cons]%elem_of_app Hh'; [by apply Hall|].
      exfalso. apply (Hf t0); congruence.
Qed.

Lemma serve_resets K now c h r : resets_kept K -> keeps (of_tables (on_resets K)) (serve now c h r).
Proof.
  intros HK. assert (calm (of_tables (on_resets K))) as Hc.
  { apply calm_tables. intros A m. by apply keeps_resets. }
  assert (forall p f, keeps (on_resets K) (update_totps p f)) as Hup.
  { intros p f. apply keeps_call. intros db Hdb. cbv beta. by case_match. }
  apply (serve_keeps _ _ _ _ _ Hc); [|done|].
  - intros now' c' u w k. apply (confirm_keeps _ _ Hc). intros now2 uid' tid.
    apply keeps_map_err, keeps_within_tables, Hup.
  - intros now' u k. apply totp_keeps. intros now2 tid step.
    apply keeps_map_err, keeps_within_tables, Hup.
Qed.

Lemma claim_uses now hash :
  triple (on_resets digests) (fun _ => True) (claim_password_reset_token now hash)
    (fun r db => is_some r = true -> on_resets (used_up hash) db).
Proof.
  apply triple_call. intros db Hdb _. cbv beta.
  destruct (find_first _ _) as [t|] eqn:Hf; simpl; [|by split].
  split; [by apply (rk_spent _ digests_kept)|]. intros _. unfold on_resets. simpl.
  apply find_first_Some in Hf as [Ht Hl]. unfold reset_live in Hl.
  apply andb_true_iff in Hl as [Hl Hlive]. apply andb_true_iff in Hl as [Hh Hfree].
  apply bool_decide_eq_true in Hh. split.
  - exists (spend_reset now t). split; [|done]. apply list_elem_of_fmap. exists t. split; [|done].
    unfold reset_live. by rewrite Hfree, Hlive, bool_decide_true.
  - intros t' (y & Hy & [[_ ->]|[Hn ->]])%elem_update_where Hh'; [done|].
    assert (y = t) as ->.
    { apply list_elem_of_lookup_1 in Hy as (i & Hi). apply list_elem_of_lookup_1 in Ht as (k & Hk).
      assert (i = k) as ->; [|congruence]. eapply (NoDup_lookup _ i k); [exact Hdb|by rewrite list_lookup_fmap, Hi|].
      rewrite list_lookup_fmap, Hk. simpl. by rewrite Hh, Hh'. }
    unfold reset_live in Hn. by rewrite Hfree, Hlive, bool_decide_true in Hn.
Qed.

Lemma claim_refuses now hash :
  ends (on_resets (used_up hash)) (claim_password_reset_token now hash)
    (fun r db => match r with inl (Some _) => False | _ => True end).
Proof.
  intros db fs [_ Hu]. unfold claim_password_reset_token, call.
  assert (find_first (reset_live now hash) (reset_tokens db) = None) as Hn.
  { apply find_first_None. intros t Ht. unfold reset_live. case_bool_decide as Hh; [|done].
    simpl. by rewrite (Hu t Ht Hh). }
  rewrite Hn. by destruct fs as [|[] fs].
Qed.

Lemma consume_uses now c tok p :
  ends (of_tables (on_resets digests)) (password_reset_consume now c tok p) (fun a s => match a with
    | inl _ => of_tables (on_resets (used_up (hash_token (trim tok)))) s
    | inr _ => True
    end).
Proof.
  set (hash := hash_token (trim tok)).
  assert (calm (of_tables (on_resets (used_up hash)))) as Hc.
  { apply calm_tables. intros A m. by apply keeps_resets, used_up_kept. }
  unfold password_reset_consume, unless. case_match; [by apply ends_throw|].
  case_match; [by apply ends_throw|]. fold hash.
  apply (ends_bind _ _ _ (fun r s => is_some r = true -> of_tables (on_resets (used_up hash)) s)).
  { intros s fs Hs. unfold lift, map_err, within. cbn [part server_tables].
    pose proof (claim_uses now hash (tables s) fs Hs Logic.I) as Hcl.
    destruct (claim_password_reset_token now hash (tables s, fs)) as [[db fs'] [r|e]]; [|done].
    by destruct Hcl as [_ Hcl]. }
  intros [uid|]; [|by apply ends_bind with (R := fun _ _ => True); [apply ends_any; intros [[]|e] s|intros x; apply ends_throw]].
  apply (ends_pre _ (of_tables (on_resets (used_up hash)))); [|by intros s Hs; apply Hs].
  apply ends_then; [by apply keeps_hash_new | done|]. intros h.
  apply ends_then; [by apply keeps_method; [|constructor] | done|]. intros u.
  apply ends_then; [by apply keeps_logged | done|]. intros []. by apply ends_ret.
Qed.

Lemma consume_refuses now c tok p :
  ends (of_tables (on_resets (used_up (hash_token (trim tok))))) (password_reset_consume now c tok p)
    (fun a s => match a with inl _ => False | inr _ => True end).
Proof.
  set (hash := hash_token (trim tok)). unfold password_reset_consume, unless.
  case_match; [by apply ends_throw|]. case_match; [by apply ends_throw|]. fold hash.
  apply (ends_bind _ _ _ (fun r s => r = None)).
  { intros s fs Hs. unfold lift, map_err, within. cbn [part server_tables].
    pose proof (claim_refuses now hash (tables s) fs Hs) as Hcl.
    destruct (claim_password_reset_token now hash (tables s, fs)) as [[db fs'] [[r|]|e]]; done. }
  intros [uid|]; [by intros s fs|]. apply (ends_bind _ _ _ (fun _ _ => True)); [|intros x; by apply ends_throw].
  apply ends_any. by intros [x|e] s.
Qed.

Lemma serve_consume_uses now c h tok p :
  ends (of_tables (on_resets digests)) (serve now c h (PostResetConsume tok p)) (fun a s => match a with
    | inl _ => of_tables (on_resets (used_up (hash_token (trim tok)))) s
    | inr _ => True
    end).
Proof. apply ends_fmap. eapply ends_post; [apply consume_uses|]. by intros [y|e] s. Qed.

Lemma serve_consume_refuses now c h tok p :
  ends (of_tables (on_resets (used_up (hash_token (trim tok))))) (serve now c h (PostResetConsume tok p))
    (fun a s => match a with inl _ => False | inr _ => True end).
Proof. apply ends_fmap. eapply ends_post; [apply consume_refuses|]. by intros [y|e] s. Qed.

(** C20. A reset link sets one password: once a request with it was answered, every later
    request with it, or with any text of the same digest, is answered an error. *)
Theorem reset_link_sets_one_password h1 st1 h2 st2 h3 s tok1 p1 x tok2 p2 :
  history (h1 ++ st1 :: h2 ++ st2 :: h3) s ->
  req st1 = PostResetConsume tok1 p1 -> answer st1 = inl x ->
  req st2 = PostResetConsume tok2 p2 -> hash_token (trim tok2) = hash_token (trim tok1) ->
  exists e, answer st2 = inr e.
Proof.
  intros Hh Hreq1 Hx Hreq2 Hsame.
  assert (forall h s, history h s -> of_tables (on_resets digests) s) as Hdig.
  { intros h s0. apply history_invariant; [by intros s1 (_ & Hs & _)| |].
    - by intros s1 s2 (t & th & ->).
    - intros. by apply serve_resets, digests_kept. }
  rewrite app_comm_cons, app_assoc in Hh. apply history_at in Hh as (Hh & fs & s' & fs' & Hr & _).
  assert (of_tables (on_resets (used_up (hash_token (trim tok1)))) (before st2)) as Hp.
  { eapply history_from; [| |intros fs0 s0 fs0' Hb|exact Hh].
    - by intros s1 s2 (t & th & ->).
    - intros. by apply serve_resets, used_up_kept.
    - intros Hr1. rewrite Hreq1, Hx in Hr1.
      pose proof (serve_consume_uses (at_ st1) (cfg st1) (hdrs st1) tok1 p1 (before st1) fs0 (Hdig _ _ Hb)) as Hu.
      by rewrite Hr1 in Hu. }
  rewrite Hreq2 in Hr. rewrite <- Hsame in Hp.
  pose proof (serve_consume_refuses (at_ st2) (cfg st2) (hdrs st2) tok2 p2 (before st2) fs Hp) as Hu.
  rewrite Hr in Hu. destruct (answer st2) as [y|e]; [done|by exists e].
Qed.

End Once.
End AccountOnce.
