(* ===== verification/AccountPrivacy.v ===== *)
(** * What an address gives away

    A request for a reset link is answered alike whether or not the address is known. *)
From Stdlib Require Import QArith Ascii.
From S2P Require Import Prelude Text Rbac Schedules Access Faults Money AuditLog Database Api Throttle Power Training GuardStore Hooks Trail Alerts Accounts Auth Mfa MfaApi AuthApi UsersApi AccountSurface AccountFrames AccountTables AccountHistory AccountSessions.
Import Text Rbac Faults Money Audit Database Api Power Training GuardStore Hooks Trail Accounts Auth Mfa MfaApi AuthApi UsersApi AccountSurface AccountFrames AccountTables AccountHistory AccountSessions.

Module AccountPrivacy.

#[local] Open Scope Z_scope.

Section Privacy.
Context {U : Uuid} {IS : IdSource} {JT : JsonbText} {CF : CaseFold} {PH : PasswordHashUtil}
  {JW : Jwt} {TL : TotpLib} {WL : WebauthnLib} {EN : Entropy} {ML : Mailer} {TH : TokenHash}
  {RC : Recaptcha}.

Abbreviation H := (Faults.M Server ApiError).

(** The digest about to be drawn is no other link's. *)
Definition fresh_digest (s : Server) : Prop :=
  forall t, t ∈ reset_tokens (tables s) -> prt_token_hash t <> hash_token (random_token (draws s)).

Lemma log_answers P now event user actor data :
  answers P (log_event now event user actor data) (fun _ _ => True).
Proof. intros s _. by eexists _, tt. Qed.

Lemma select_answers {A} s0 (f : AccountDb -> A) :
  answers (fun s => s = s0) (lift (select f)) (fun x s => s = s0 /\ x = f (tables s0)).
Proof.
  intros s ->. eexists _, _. split; [reflexivity|]. split; [|done]. apply (put_part (D := Server)).
Qed.

(** What is answered past the throttle. *)
Lemma target_answers a s0 :
  answers (fun s => s = s0) (reset_target a) (fun o s => s = s0 /\ match o with
    | Some (u, row) => is_some (accounts (tables s0) !! uid_of u) = true
    | None => True
    end).
Proof.
  unfold reset_target, find_user_email, find_user_by_id.
  eapply answers_bind; [apply select_answers|]. intros row. apply answers_pure. intros _.
  destruct row as [row|]; [|by apply answers_ret; intros s ->].
  case_match; [|by apply answers_ret; intros s ->].
  eapply answers_bind; [apply select_answers|]. intros ou. apply answers_pure. intros ->.
  apply answers_ret. intros s ->. split; [done|].
  destruct (user_of (tables s0) (ue_user_id row)) as [u|] eqn:Hu; simpl; [|done].
  apply user_of_Some in Hu as [-> ->]. done.
Qed.

Lemma request_rest_answers now c address s0 : fresh_digest s0 ->
  answers (fun s => s = s0)
    (target ← reset_target address;
     _ ← match target with
         | Some (u, row) =>
             '(plaintext, digest) ← generate_token;
             _ ← lift (create_password_reset_token now (uid_of u) digest
                         (now + minutes RESET_TOKEN_TTL_MINUTES));
             sent ← send {| mail_to := ue_email row; mail_subject := "Reset your password";
                            mail_body := reset_email_body (site_name c) (reset_link c plaintext) |};
             match sent with
             | None => log_event now PasswordResetRequested (Some (uid_of u)) (Some (uid_of u)) (found_json true)
             | Some e => log_event now EmailSendFailed (Some (uid_of u)) (Some (uid_of u))
                           (failed_mail "password_reset" e)
             end
         | None => log_event now PasswordResetRequested None None (found_json false)
         end;
     mret RESET_REQUESTED_MESSAGE) (fun x _ => x = RESET_REQUESTED_MESSAGE).
Proof.
  intros Hf. eapply answers_bind; [apply target_answers|]. intros target.
  apply answers_bind with (R := fun _ _ => True); [|intros []; by apply answers_ret].
  destruct target as [[u row]|]; [|apply log_answers]. apply answers_pure. intros Hacc.
  unfold generate_token.
  apply (answers_bind _ _ _ (fun pd s => tables s = tables s0 /\ pd.2 = hash_token (random_token (draws s0)))).
  { intros s ->. by eexists _, _. }
  intros [plaintext digest]. simpl. apply answers_pure. intros ->.
  apply (answers_bind _ _ _ (fun _ _ => True)).
  { intros s Hs. unfold lift, map_err, within. cbn [part server_tables]. rewrite Hs.
    unfold create_password_reset_token, call. rewrite Hacc. cbn [negb].
    destruct (existsb _ (reset_tokens (tables s0))) eqn:Hx; [|by eexists _, _].
    apply existsb_exists in Hx as (t & Ht & Heq%bool_decide_eq_true).
    exfalso. apply (Hf t); [by apply list_elem_of_In | done]. }
  intros []. apply (answers_bind _ _ _ (fun _ _ => True)); [intros s _; by eexists _, _|].
  intros [e|]; apply log_answers.
Qed.

(** What the request is answered: a function of the throttles, and of nothing else. *)
Definition reset_answer (now : instant) (c : AppConfig) (given : string) (th : Throttle.Table)
    : string + ApiError :=
  if negb (reset_available c) then inr (Forbidden "Password reset is not available on this instance")
  else match (Throttle.check_attempt ("password-reset:" +:+ to_lowercase (trim given))
                RESET_THROTTLE_ATTEMPTS RESET_THROTTLE_SECONDS now th).2 with
       | inl _ => inl RESET_REQUESTED_MESSAGE
       | inr n => inr (TooManyRequests
           ("Too many password reset requests. Try again in " +:+ pretty n +:+ " seconds"))
       end.

Lemma request_answer now c given s : fresh_digest s ->
  (run (password_reset_request now c given) s).2 = reset_answer now c given (throttles s).
Proof.
  intros Hf. unfold password_reset_request, reset_answer, unless. case_match; [done|].
  cbv zeta. set (id := ("password-reset:" +:+ to_lowercase (trim given))%string).
  set (address := to_lowercase (trim given)).
  destruct (Throttle.check_attempt id RESET_THROTTLE_ATTEMPTS RESET_THROTTLE_SECONDS now (throttles s))
    as [th [[]|n]] eqn:Hc; simpl.
  - set (s1 := with_throttles (Throttle.record_failed_attempt id RESET_THROTTLE_ATTEMPTS RESET_THROTTLE_SECONDS now th) s).
    assert (answers (fun s' => s' = s)
      (counted_request now id (fun n =>
         "Too many password reset requests. Try again in " +:+ pretty n +:+ " seconds")%string)
      (fun _ s' => s' = s1)) as Hcount.
    { intros s' ->. exists s1, tt. split; [|done]. unfold counted_request, throttled, count_failure, on_throttles.
      unfold mbind, M_bind. simpl. by rewrite Hc. }
    destruct (answers_bind _ _ _ _ _ Hcount (fun _ => request_rest_answers now c address s1 Hf) s eq_refl)
      as (s' & x & Hr & ->).
    unfold run. by rewrite Hr.
  - unfold run, counted_request, throttled, on_throttles.
    unfold mbind, M_bind. simpl. by rewrite Hc.
Qed.

(** C21. Asking for a reset link says nothing of who has an account: where nothing fails,
    two servers with the same throttles answer the same request alike, whatever accounts
    and addresses each has. *)
Theorem reset_request_says_nothing now c given s1 s2 :
  throttles s1 = throttles s2 -> fresh_digest s1 -> fresh_digest s2 ->
  (run (password_reset_request now c given) s1).2 = (run (password_reset_request now c given) s2).2.
Proof. intros Hth H1 H2. by rewrite !request_answer, Hth. Qed.

End Privacy.
End AccountPrivacy.
