(* ===== verification/GuardApi.v ===== *)
(** * What a device may ask of the server ([server/src/api/toolguard.rs],
    [server/src/api/resources.rs], [server/src/session_sweep.rs])

    A registered device, bound to the resource it names, presents a badge, stops a
    session, reports usage, power and life; the sweep ends what nothing stopped.
    [activate_tool], [deactivate_tool] and [report_tool_usage] are the one path of
    both route families.  A request to publish goes to the outbox; the payloads it
    stands for are [AllowLists]. *)
From Stdlib Require Import QArith SpecFloat Ascii.
From S2P Require Import Prelude Text Wire Rbac Schedules Access Faults Money Database ToolBilling Api Power Training GuardStore.
Import Text Rbac Faults Money Database Api Power Training GuardStore.

Module GuardApi.

#[local] Open Scope Z_scope.

Section GuardApi.
Context {U : Uuid} {IS : IdSource} {TH : TokenHash} {JT : JsonbText}.
Context {tz : Schedules.TimeZone} {IP : Access.IntervalParser} {D : Decimal}.

(** [DatabaseError]'s and [BigDecimal]'s Display, the latter also of [with_scale(2)]. *)
Context (error_text : DatabaseError -> string) (amps_to_string two_places : Q -> string).

(** The settings the handlers read, and the billing service if it was started. *)
Record GuardConfig := {
  profile_field : string;
  card_cipher : option CardCipher;
  tool_billing : option ToolBilling.ToolBillingConfig;
  (** [draw.to_f64() >= bypass.unauthorized_power_draw_amps]. *)
  drawing : Q -> bool;
  door_enabled : bool;
  default_unlock_duration_ms : Z;
  session_grace_minutes : Z;
  default_max_session_minutes : Z;
}.

Context (cfg : GuardConfig).

Abbreviation H := (Faults.M GuardDb ApiError).

Definition lift {A} (m : Faults.M GuardDb DatabaseError A) : H A := map_err api_error m.

(** [map_err] to an internal error that names the step. *)
Definition internal {A} (what : string) (m : Faults.M GuardDb DatabaseError A) : H A :=
  map_err (fun e => InternalServerError (what +:+ error_text e)) m.

Record ToolGuardResponse := {
  reply_status : string;
  message : option string;
  authorized : option bool;
  strike : option Wire.LocalStrike;
}.

Definition bare (status : string) (m : option string) : ToolGuardResponse := {|
  reply_status := status; message := m; authorized := None; strike := None |}.

Definition ok_with_message (m : string) : ToolGuardResponse := bare "ok" (Some m).
Definition error (m : string) : ToolGuardResponse := bare "error" (Some m).

Definition resource_authorized (s : option Wire.LocalStrike) : ToolGuardResponse := {|
  reply_status := "ok"; message := Some "Authorized"%string; authorized := Some true;
  strike := s |}.

Definition resource_denied (reason : string) : ToolGuardResponse := {|
  reply_status := "error"; message := Some reason; authorized := Some false; strike := None |}.

(** [audit_logger.log_event] and [power_audit]: a failure is logged and forgotten. *)
Definition log_event (event : AuditEventType) (who : option uuid) : H unit :=
  _ ← lift (attempt (money_call (create_audit_log event who))); mret tt.

Definition announce (b : Broadcast) : H unit := lift (broadcast b).

(** ** Who is asking *)

Definition extract_device_auth (header : option (list ascii)) : H uuid :=
  match header ≫= header_to_str with
  | None => throw (Unauthorized "Missing Authorization header")
  | Some h =>
      match strip_prefix "Bearer " h with
      | None => throw (Unauthorized "Invalid Authorization format")
      | Some token =>
          d ← internal "DB error: " (find_device_by_auth_token token);
          match d with
          | None => throw (Unauthorized "Invalid device token")
          | Some (did, _) => mret did
          end
      end
  end.

(** A failed lookup reads as an absent tool. *)
Definition find_tool_by_toolguard_id (name : string) : H (option Tool) :=
  r ← lift (attempt (get_tool_by_external_id name));
  match r with
  | inl (Some t) => mret (Some t)
  | _ =>
      match uuid_parse name with
      | None => mret None
      | Some tid =>
          r ← lift (attempt (get_tool_by_id tid));
          mret match r with inl (Some t) => Some t | _ => None end
      end
  end.

Definition REGISTERED : string := "ToolGuard operations require a registered device token".

(** The caller's own device; a fault of the database stays one. *)
Definition device_or (refusal : string) (keep : ApiError -> bool) (header : option (list ascii))
    : H uuid :=
  r ← attempt (extract_device_auth header);
  match r with
  | inl did => mret did
  | inr e => throw (if keep e then e else Unauthorized refusal)
  end.

Definition is_internal (e : ApiError) : bool :=
  match e with InternalServerError _ => true | _ => false end.

Definition authorize_toolguard (header : option (list ascii)) (name : string) : H uuid :=
  did ← device_or REGISTERED is_internal header;
  if name ≟ String.EmptyString then mret did
  else
    tool ← find_tool_by_toolguard_id name;
    bound ← match tool with
            | Some t => lift (device_is_bound_to_tool did (tool_id t))
            | None => mret false
            end;
    if bound : bool then mret did
    else throw (Unauthorized "This device is not bound to that tool").

Definition authorize_alive (header : option (list ascii)) (subject : option uuid) : H uuid :=
  caller ← device_or REGISTERED is_server_error header;
  match subject with
  | None => mret caller
  | Some subject =>
      if subject ≟ caller then mret caller
      else
        yes ← lift (device_coordinates_device caller subject);
        if yes : bool then mret caller
        else throw (Unauthorized "This device does not coordinate that device")
  end.

(** The device that reports, and the module it relays for. *)
Definition authorize_power_report (header : option (list ascii)) (name : string)
    (subject : option uuid) : H (uuid * option uuid) :=
  r ← attempt (authorize_toolguard header name);
  match r with
  | inl did => mret (did, None)
  | inr e =>
      if is_server_error e then throw e
      else
        did ← extract_device_auth header;
        match subject with
        | None => throw (Unauthorized "This device is not bound to that tool")
        | Some subject =>
            tool ← find_tool_by_toolguard_id name;
            match tool with
            | None => throw (NotFoundError "Tool not found")
            | Some t =>
                is_coordinator ← lift (device_is_bound_to_tool_in_role did (tool_id t) EDGE);
                subject_is_a_module ←
                  lift (device_is_bound_to_tool_in_role subject (tool_id t) POWER);
                if is_coordinator && subject_is_a_module then mret (did, Some subject)
                else throw (Unauthorized (if negb is_coordinator
                  then "This device is not bound to that tool as its edge coordinator"
                  else "The device_id named is not bound to that tool in the power role"))
            end
        end
  end.

Inductive ResourceRow : Type :=
  | ToolRow (t : Tool)
  | DoorRow_ (d : Access.DoorRow).

Definition row_id (r : ResourceRow) : uuid :=
  match r with ToolRow t => tool_id t | DoorRow_ d => Access.door_id d end.

Definition find_resource (name : string) : H (option ResourceRow) :=
  tool ← find_tool_by_toolguard_id name;
  match tool with
  | Some t => mret (Some (ToolRow t))
  | None =>
      match uuid_parse name with
      | None => mret None
      | Some rid =>
          k ← lift (resource_kind rid);
          if k ≟ Some (resource_kind_as_str DoorKind)
          then d ← lift (get_door rid); mret (Some (DoorRow_ d))
          else mret None
      end
  end.

Definition authorize_resource (header : option (list ascii)) (name : string)
    : H (uuid * ResourceRow) :=
  did ← device_or "Resource operations require a registered device token" is_internal header;
  r ← find_resource name;
  match r with
  | None => throw (Unauthorized "This device is not bound to that resource")
  | Some r =>
      bound ← lift (device_is_bound_to_tool did (row_id r));
      if bound : bool then mret (did, r)
      else throw (Unauthorized "This device is not bound to that resource")
  end.

(** ** A badge at a tool *)

Definition resolve_presented (card : string) : H CardResolution :=
  internal "Failed to resolve card: " (resolve_card (profile_field cfg) card (card_cipher cfg)).

Definition deny (who : option uuid) (reason : string) : H ToolGuardResponse :=
  _ ← log_event ToolAccessDenied who; mret (resource_denied reason).

(** Billing applies: the service is there, on, and the tool has a price. *)
Definition billed (tool : Tool) : option ToolBilling.ToolBillingConfig :=
  match tool_billing cfg with
  | Some b => if ToolBilling.tb_enabled b &&
                 ToolBilling.is_metered (usage_flat_fee tool) (usage_rate_per_min tool)
              then Some b else None
  | None => None
  end.

Definition unavailable_reason (st : ToolStatus) : option string :=
  match st with
  | Idle => None
  | InUse => Some "Tool is already in use"
  | Maintenance => Some "Tool is under maintenance"
  | Broken => Some "Tool is broken"
  | Repair => Some "Tool is in repair"
  | Retired => Some "Tool is retired"
  end%string.

Definition denial_text (d : ToolBilling.Denial) : string :=
  match d with
  | ToolBilling.AlreadyOpen => "Tool already has an open session"
  | ToolBilling.MembershipRequired => "Membership required"
  | ToolBilling.InsufficientBalance available required =>
      "Insufficient balance: " +:+ two_places available +:+ " available, " +:+
      two_places required +:+ " required"
  end.

Definition activated_event (now : instant) (tool : Tool) (uid : uuid) : ToolEvent := {|
  event_tool_id := tool_id tool; event_type := "activated"; old_status := Some (tool_status tool);
  new_status := Some InUse; event_user_id := Some uid; event_actor_id := Some uid;
  event_created_at := now |}.

(** What follows a yes: the tool is taken if it is still idle. *)
Definition take_tool (now : instant) (tool : Tool) (uid : uuid) : H ToolGuardResponse :=
  activated ← internal "Failed to activate tool: " (try_activate_tool now (tool_id tool));
  if negb activated then deny (Some uid) "Tool is already in use"
  else
    _ ← internal "Failed to create tool event: " (create_tool_event (activated_event now tool uid));
    _ ← log_event ToolActivated (Some uid);
    _ ← announce (AllowLists (ToolScope (tool_id tool)));
    mret (resource_authorized None).

Definition activate_for (now : instant) (tool : Tool) (user : User) : H ToolGuardResponse :=
  let uid := user_id user in
  match unavailable_reason (tool_status tool) with
  | Some reason => deny (Some uid) reason
  | None =>
      authorized ← internal "Failed to check tool authorization: "
        (training_call (user_is_authorized_for_tool now uid (tool_id tool)
                          (requires_training tool)));
      if negb authorized then deny (Some uid) "Training required"
      else
        match billed tool with
        | None => take_tool now tool uid
        | Some b =>
            outcome ← lift (money_call (ToolBilling.open_session b now uid tool));
            match outcome with
            | ToolBilling.Authorized _ => take_tool now tool uid
            | ToolBilling.Denied reason => deny (Some uid) (denial_text reason)
            end
        end
  end.

(** [tool] is the row as it was when the resource was resolved. *)
Definition activate_tool (now : instant) (tool : option Tool) (card : string)
    : H ToolGuardResponse :=
  r ← resolve_presented card;
  match r with
  | Revoked user _ =>
      _ ← log_event RevokedCardPresented (Some (user_id user));
      _ ← log_event ToolAccessDenied (Some (user_id user));
      mret (resource_denied "Card not authorized")
  | Unknown => deny None "Unknown card"
  | Active user c =>
      _ ← match c with
          | Some c => _ ← lift (attempt (touch_card_last_used now (card_id c))); mret tt
          | None => mret tt
          end;
      if negb (is_active user) then deny (Some (user_id user)) "User is not active"
      else match tool with
           | None => deny (Some (user_id user)) "Tool not found"
           | Some tool => activate_for now tool user
           end
  end.

(** ** Who is signed on *)

(** The member of the open billing session; without one, on a tool in use, of the
    latest activation. *)
Definition signed_on_user (tool : Tool) : H (option User) :=
  s ← lift (money_call (open_tool_session_for_tool (tool_id tool)));
  member ← match s with
           | Some s => mret (Some (ns_user_id (opened s)))
           | None =>
               if tool_in_use tool
               then e ← lift (latest_activation (tool_id tool)); mret (e ≫= event_user_id)
               else mret None
           end;
  match member with
  | Some uid => lift (money_call (find_user_by_id uid))
  | None => mret None
  end.

(** A card that may be revoked by now still names its member; an unknown one nobody. *)
Definition named_by (r : CardResolution) : option User :=
  match r with Active u _ | Revoked u _ => Some u | Unknown => None end.

(** ** A stop *)

Definition deactivated_event (now : instant) (tool : Tool) (who actor : option uuid) : ToolEvent := {|
  event_tool_id := tool_id tool; event_type := "deactivated";
  old_status := Some (tool_status tool); new_status := Some Idle; event_user_id := who;
  event_actor_id := actor; event_created_at := now |}.

(** Closing the billing session of a metered tool: a failure is logged only. *)
Definition settle_billed (now : instant) (tool : Tool) (how : string) : H unit :=
  match billed tool with
  | None => mret tt
  | Some b =>
      _ ← lift (attempt (money_call (ToolBilling.settle_open_session_for_tool b now tool how)));
      mret tt
  end.

Definition stop_tool (now : instant) (tool : Tool) (who : option User) : H ToolGuardResponse :=
  who ← match who with
        | Some u => mret (Some u)
        | None => signed_on_user tool
        end;
  _ ← internal "Failed to update tool status: " (update_tool_status now (tool_id tool) Idle);
  _ ← settle_billed now tool "settled";
  let uid := user_id <$> (who : option User) in
  _ ← internal "Failed to create tool event: "
        (create_tool_event (deactivated_event now tool uid uid));
  _ ← log_event ToolDeactivated uid;
  _ ← announce (AllowLists (ToolScope (tool_id tool)));
  mret (ok_with_message "Tool deactivated").

Definition deactivate_tool (now : instant) (tool : option Tool) (card : option string)
    : H ToolGuardResponse :=
  r ← match card with
      | None => mret None
      | Some card => r ← resolve_presented card; mret (Some r)
      end;
  match r with
  | Some Unknown => mret (error "Unknown card")
  | _ =>
      match tool with
      | None => mret (error "Tool not found")
      | Some tool => stop_tool now tool (r ≫= named_by)
      end
  end.

(** ** A usage report *)

Record UsageBody := {
  usage_card : option string;
  usage_seconds : spec_float;
  usage_active_seconds : option spec_float;
}.

Definition usage_event (now : instant) (tool : Tool) (uid : uuid) : ToolEvent := {|
  event_tool_id := tool_id tool; event_type := "usage_logged"; old_status := None;
  new_status := None; event_user_id := Some uid; event_actor_id := Some uid;
  event_created_at := now |}.

Definition refuse (who : option uuid) (reason : string) : H ToolGuardResponse :=
  _ ← log_event ToolAccessDenied who; mret (error reason).

Definition log_usage (now : instant) (tool : Tool) (uid : uuid) : H ToolGuardResponse :=
  _ ← internal "Failed to create tool event: " (create_tool_event (usage_event now tool uid));
  _ ← log_event ToolUsageLogged (Some uid);
  mret (ok_with_message "Usage logged").

Definition report_for (now : instant) (tool : Tool) (uid : uuid) (req : UsageBody)
    : H ToolGuardResponse :=
  match billed tool with
  | None => log_usage now tool uid
  | Some _ =>
      s ← lift (money_call (open_tool_session_for_tool (tool_id tool)));
      if is_some_and s (fun s => negb (ns_user_id (opened s) ≟ uid))
      then refuse (Some uid) "This card did not activate the tool"
      else
        applied ← lift (money_call (ToolBilling.record_usage (tool_id tool) (usage_seconds req)
                                      (usage_active_seconds req)));
        if negb applied then refuse (Some uid) "No open session for this tool"
        else log_usage now tool uid
  end.

Definition report_tool_usage (now : instant) (tool : option Tool) (req : UsageBody)
    : H ToolGuardResponse :=
  match usage_card req with
  | Some card =>
      r ← resolve_presented card;
      match named_by r, tool with
      | None, _ => mret (error "Unknown card")
      | Some _, None => mret (error "Tool not found")
      | Some u, Some tool => report_for now tool (user_id u) req
      end
  | None =>
      match tool with
      | None => mret (error "Tool not found")
      | Some tool =>
          u ← signed_on_user tool;
          match u with
          | Some u => report_for now tool (user_id u) req
          | None => refuse None "No open session for this tool"
          end
      end
  end.

(** ** The boot of an edge *)

Fixpoint reset_tools (now : instant) (ts : list Tool) : H unit :=
  match ts with
  | [] => mret tt
  | tool :: ts =>
      _ ← internal "Failed to reset tool: " (update_tool_status now (tool_id tool) Idle);
      _ ← internal "Failed to create tool event: "
            (create_tool_event (deactivated_event now tool None None));
      _ ← settle_billed now tool "abandoned";
      reset_tools now ts
  end.

Definition boot_reset (now : instant) (header : option (list ascii)) : H ToolGuardResponse :=
  _ ← extract_device_auth header;
  ts ← internal "Failed to query InUse tools: " get_inuse_tools;
  _ ← reset_tools now ts;
  _ ← match ts with
      | [] => mret tt
      | _ => _ ← log_event ToolDeactivated None; announce (AllowLists All)
      end;
  mret (ok_with_message (pretty (Z.of_nat (length ts)) +:+ " tool(s) reset to idle")).

(** ** Power, and life *)

Record PowerReportRequest := {
  pr_tool_id : option string;
  draw_now : option Q;
  voltage_now : option Q;
  max_voltage : option Q;
  pr_amperage_limit : option Q;
  self_tripped : option bool;
  relay_on : option bool;
  pr_device_id : option uuid;
}.

(** The clock of an unbroken run of being powered. *)
Definition evidence_since (now : instant) (req : PowerReportRequest)
    (previous : option ToolPowerState) : option instant :=
  if default false (relay_on req) || is_some_and (draw_now req) (drawing cfg)
  then option_or (previous ≫= power_evidence_since) (Some now)
  else None.

Definition reading_of (now : instant) (tid : uuid) (req : PowerReportRequest)
    (previous : option ToolPowerState) : NewToolPowerState := {|
  nt_tool_id := tid; nt_last_draw_amps := draw_now req; nt_last_voltage := voltage_now req;
  nt_reported_max_voltage := max_voltage req;
  nt_reported_amperage_limit := pr_amperage_limit req; nt_last_reported_at := now;
  nt_last_relay_on := relay_on req;
  nt_power_evidence_since := evidence_since now req previous |}.

Fixpoint log_tripped (tripped : list (uuid * Q * Q)) : H unit :=
  match tripped with
  | [] => mret tt
  | _ :: tripped =>
      _ ← log_event CircuitOverageShutoff None;
      _ ← log_event EmergencyLockoutEngaged None;
      log_tripped tripped
  end.

(** The report's fault: the tool's own, or the sum of its circuit's. *)
Definition trip_reported (now : instant) (tid : uuid) (req : PowerReportRequest) : H bool :=
  if self_tripped req ≟ Some true then
    _ ← lift (power_call (engage_tool_lockout now tid
          "firmware self-trip: device exceeded its own over-current limit"));
    _ ← log_event FirmwareSelftripReported None;
    _ ← log_event EmergencyLockoutEngaged None;
    mret true
  else
    tripped ← lift (power_call (evaluate_circuit_overages amps_to_string now));
    _ ← log_tripped tripped;
    mret match tripped with [] => false | _ => true end.

Definition announce_lockout : H unit :=
  _ ← announce (AllowLists All); announce PowerSnapshot.

Definition power_report (now : instant) (header : option (list ascii)) (req : PowerReportRequest)
    : H ToolGuardResponse :=
  let name := default String.EmptyString (pr_tool_id req) in
  _ ← authorize_power_report header name (pr_device_id req);
  if name ≟ String.EmptyString then throw (BadRequest "tool_id is required")
  else
    tool ← find_tool_by_toolguard_id name;
    match tool with
    | None => throw (NotFoundError "Tool not found")
    | Some tool =>
        _ ← match pr_device_id req with
            | Some m => _ ← lift (attempt (touch_device_last_seen now m)); mret tt
            | None => mret tt
            end;
        previous ← lift (power_call (get_tool_power_state (tool_id tool)));
        _ ← lift (power_call (upsert_tool_power_state (reading_of now (tool_id tool) req previous)));
        lockout_changed ← trip_reported now (tool_id tool) req;
        _ ← (if lockout_changed : bool then announce_lockout else mret tt);
        mret (ok_with_message "Power reported")
    end.

Definition power_trip (now : instant) (header : option (list ascii)) (cid : option uuid)
    (reason : option string) : H ToolGuardResponse :=
  _ ← authorize_toolguard header String.EmptyString;
  match cid with
  | None => throw (BadRequest "circuit_id is required")
  | Some cid =>
      engaged ← lift (power_call (engage_circuit_lockout now cid "edge_fast_trip"
        (default "edge-reported circuit overload"%string reason)));
      _ ← (if 0 <? engaged then
             _ ← log_event CircuitOverageShutoff None;
             _ ← log_event EmergencyLockoutEngaged None;
             _ ← announce PowerSnapshot; announce (AllowLists All)
           else mret tt);
      mret (ok_with_message "Circuit tripped")
  end.

(** [body] is the request as JSON reads it, if it does. *)
Definition alive (now : instant) (header : option (list ascii)) (body : option (option uuid))
    : H ToolGuardResponse :=
  caller ← authorize_alive header (default None body);
  match body with
  | None => throw (BadRequest "body must be a JSON object")
  | Some subject =>
      seen ← lift (touch_device_last_seen now (default caller subject));
      if seen : bool then mret (ok_with_message "Alive")
      else throw (NotFoundError "Device not found")
  end.

(** ** A badge at a door *)

(** [DoorService::evaluate]: a member at a door. *)
Definition door_decision (now : instant) (door : Access.DoorRow) (user : User)
    (action : Access.Action) : H Access.AccessDecision :=
  rules ← lift (list_rules_for_door (Access.door_id door));
  scheds ← lift list_schedules;
  by_user ← lift (card_digests_by_user [user] (profile_field cfg) (card_cipher cfg));
  g ← lift (money_call rbac_graph);
  lvl ← lift (money_call (user_effective_level (user_id user)));
  mret (Access.evaluate door (user_id user) (is_active user) lvl
          (default [] ((by_user : gmap uuid (list string)) !! user_id user)) rules scheds now g action).

Definition strike_profile (rid : uuid) : H Access.StrikeProfile :=
  s ← lift (door_strike rid);
  mret (default {| Access.sp_pulse_ms := default_unlock_duration_ms cfg;
                   Access.sp_hold_open_access := true |} s).

(** The verdict on a card: whether it opens, and why not. *)
Definition judge_card (now : instant) (door : Access.DoorRow) (r : CardResolution)
    : H (bool * option string) :=
  match r with
  | Unknown => mret (false, Some "Unknown card"%string)
  | Revoked _ _ => mret (false, Some "Card not authorized"%string)
  | Active user _ =>
      d ← door_decision now door user Access.Unlock;
      mret match d with
           | Access.AllowAccess => (true, None)
           | Access.DenyAccess why => (false, Some why)
           end
  end.

Definition presented (r : CardResolution) : option UserCard :=
  match r with Active _ c => c | Revoked _ c => Some c | Unknown => None end.

Definition scan_door (now : instant) (did : uuid) (door : Access.DoorRow) (card : string)
    : H ToolGuardResponse :=
  if negb (door_enabled cfg)
  then mret (resource_denied "Door module is disabled in server configuration")
  else
    r ← resolve_presented card;
    _ ← match r with
        | Active _ (Some c) => _ ← lift (attempt (touch_card_last_used now (card_id c))); mret tt
        | _ => mret tt
        end;
    verdict ← judge_card now door r;
    let '(ok, reason) := verdict in
    let who := user_id <$> named_by r in
    _ ← lift (insert_door_access_event {| dae_door_id := Access.door_id door; dae_user_id := who;
          dae_method := "rfid"; card_id_attempted := (fun c => uuid_show (card_id c)) <$> presented r;
          granted := ok; dae_reason := reason |});
    _ ← match r with
        | Revoked u _ => log_event RevokedCardPresented (Some (user_id u))
        | _ => mret tt
        end;
    _ ← log_event (if ok then DoorUnlockedCard else DoorUnlockDenied) who;
    if negb ok then mret (resource_denied (default "Denied"%string reason))
    else
      res ← lift (get_resource (Access.door_id door));
      _ ← (if default String.EmptyString (session_profile <$> res) ≟ UNTIL_STOPPED then
             _ ← lift (open_resource_session now (Access.door_id door) who (Some did));
             announce ModuleSnapshot
           else mret tt);
      s ← strike_profile (Access.door_id door);
      mret (resource_authorized (Some {| Wire.strike_pulse_ms := Access.sp_pulse_ms s |})).

(** ** The routes of a resource

    [body] is the request as JSON reads it, if it does; it is looked at only after
    the caller is known. *)
Definition with_body {A} (shape : string) (body : option A) : H A :=
  match body with
  | Some b => mret b
  | None => throw (BadRequest ("body must be a JSON object: " +:+ shape))
  end.

Definition scan (now : instant) (header : option (list ascii)) (name : string)
    (body : option string) : H ToolGuardResponse :=
  dr ← authorize_resource header name;
  card ← with_body "{ card }" body;
  match dr.2 with
  | ToolRow tool => activate_tool now (Some tool) card
  | DoorRow_ door => scan_door now dr.1 door card
  end.

Definition stop (now : instant) (header : option (list ascii)) (name : string)
    (body : option (option string)) : H ToolGuardResponse :=
  dr ← authorize_resource header name;
  card ← with_body "{ card? }" body;
  match dr.2 with
  | ToolRow tool => deactivate_tool now (Some tool) card
  | DoorRow_ door =>
      closed ← lift (close_resource_session now (Access.door_id door) BY_STOP);
      match closed with
      | Some _ => _ ← announce ModuleSnapshot; mret (ok_with_message "Session ended")
      | None => mret (ok_with_message "No session to end")
      end
  end.

Definition usage (now : instant) (header : option (list ascii)) (name : string)
    (body : option UsageBody) : H ToolGuardResponse :=
  dr ← authorize_resource header name;
  req ← with_body "{ card?, seconds, active_seconds?, temperature? }" body;
  match dr.2 with
  | ToolRow tool => report_tool_usage now (Some tool) req
  | DoorRow_ _ => mret (error "No open session for this resource")
  end.

(** ** The routes of a device *)
Inductive DeviceRequest : Type :=
  | Scan (name : string) (body : option string)
  | Stop (name : string) (body : option (option string))
  | Usage (name : string) (body : option UsageBody)
  | BootReset
  | PowerReport (req : PowerReportRequest)
  | PowerTrip (cid : option uuid) (reason : option string)
  | Alive (body : option (option uuid)).

Definition serve (now : instant) (header : option (list ascii)) (q : DeviceRequest)
    : H ToolGuardResponse :=
  match q with
  | Scan name body => scan now header name body
  | Stop name body => stop now header name body
  | Usage name body => usage now header name body
  | BootReset => boot_reset now header
  | PowerReport req => power_report now header req
  | PowerTrip cid reason => power_trip now header cid reason
  | Alive body => alive now header body
  end.

(** ** What an administrator may do to one *)

Definition admin_stop (now : instant) (admin : uuid) (name : string) : H (uuid * string * bool) :=
  r ← find_resource name;
  match r with
  | None => throw (NotFoundError "Resource not found")
  | Some r =>
      out ← match r with
            | ToolRow tool =>
                _ ← deactivate_tool now (Some tool) None;
                mret (tool_id tool, "tool"%string, tool_in_use tool)
            | DoorRow_ door =>
                closed ← lift (close_resource_session now (Access.door_id door) BY_ADMIN);
                _ ← (if is_some closed then announce ModuleSnapshot else mret tt);
                mret (Access.door_id door, "door"%string, is_some closed)
            end;
      _ ← log_event ResourceSessionEnded (Some admin);
      mret out
  end.

Definition update_resource (admin rid : uuid) (p : option string) : H Resource :=
  match p with
  | None => throw (BadRequest "nothing to change: send session_profile")
  | Some p =>
      unless (negb (bool_decide (p ∈ PROFILES)))
        (BadRequest "session_profile must be one of: momentary, until_stopped") (
      r ← lift (update_resource_session_profile rid p);
      match r with
      | None => throw (NotFoundError "Resource not found")
      | Some r =>
          _ ← log_event ResourceUpdated (Some admin);
          _ ← announce ModuleSnapshot;
          mret r
      end)
  end.

Record OpenSessionView := {
  view_resource_id : uuid;
  view_kind : string;
  view_user_id : option uuid;
  view_opened_at : instant;
  view_device_id : option uuid;
}.

Definition view_room (s : ResourceSession) : OpenSessionView := {|
  view_resource_id := rs_resource_id s; view_kind := "door"; view_user_id := rs_user_id s;
  view_opened_at := opened_at s; view_device_id := rs_device_id s |}.

Definition view_tool (tool : Tool) (activation : option ToolEvent) : OpenSessionView := {|
  view_resource_id := tool_id tool; view_kind := "tool";
  view_user_id := activation ≫= event_user_id;
  view_opened_at := default (updated_at tool) (event_created_at <$> activation);
  view_device_id := None |}.

Fixpoint view_tools (ts : list Tool) : H (list OpenSessionView) :=
  match ts with
  | [] => mret []
  | tool :: ts =>
      a ← lift (latest_activation (tool_id tool));
      rest ← view_tools ts;
      mret (view_tool tool a :: rest)
  end.

(** Every resource in use, oldest first; the names of who are looked up after. *)
Definition list_open_sessions : H (list OpenSessionView) :=
  rooms ← lift open_resource_sessions;
  ts ← lift get_inuse_tools;
  views ← view_tools ts;
  mret (sort_by (fun a b => view_opened_at a <=? view_opened_at b)
          ((view_room <$> rooms) ++ views)).

(** ** The sweep

    A service on the database, so its errors are the database's. *)
Abbreviation S := (Faults.M GuardDb DatabaseError).

Definition note (event : AuditEventType) (who : option uuid) : S unit :=
  _ ← attempt (money_call (create_audit_log event who)); mret tt.

Definition release (now : instant) (tool : Tool) (member : option uuid) : S unit :=
  _ ← match tool_billing cfg with
      | Some b =>
          _ ← attempt (money_call (ToolBilling.settle_open_session_for_tool b now tool "abandoned"));
          mret tt
      | None => mret tt
      end;
  _ ← update_tool_status now (tool_id tool) Idle;
  _ ← create_tool_event (deactivated_event now tool member None);
  note ToolReleasedBySweep member.

Definition tool_cutoff (now : instant) (tool : Tool) : instant :=
  ToolBilling.abandoned_cutoff
    (ToolBilling.session_cap_minutes (usage_max_session_minutes tool)
       (default_max_session_minutes cfg))
    (session_grace_minutes cfg) now.

Definition in_use_since (tool : Tool) (activation : option ToolEvent) : instant :=
  default (updated_at tool) (event_created_at <$> activation).

Fixpoint sweep_tools (now : instant) (ts : list Tool) (released : nat) : S nat :=
  match ts with
  | [] => mret released
  | tool :: ts =>
      activation ← latest_activation (tool_id tool);
      if tool_cutoff now tool <=? in_use_since tool activation
      then sweep_tools now ts released
      else
        _ ← release now tool (activation ≫= event_user_id);
        sweep_tools now ts (Datatypes.S released)
  end.

Definition rooms_to_release (open_ : list ResourceSession) (kinds : list (uuid * string))
    (cutoff : instant) : list ResourceSession :=
  let rooms := (List.filter (fun k => k.2 ≟ resource_kind_as_str DoorKind) kinds).*1 in
  List.filter (fun s => bool_decide (rs_resource_id s ∈ rooms) && (opened_at s <? cutoff)) open_.

Fixpoint sweep_rooms (now : instant) (rooms : list ResourceSession) (released : nat) : S nat :=
  match rooms with
  | [] => mret released
  | s :: rooms =>
      closed ← close_resource_session now (rs_resource_id s) BY_SWEEP;
      match closed with
      | Some c =>
          _ ← note ResourceSessionReleasedBySweep (rs_user_id c);
          sweep_rooms now rooms (Datatypes.S released)
      | None => sweep_rooms now rooms released
      end
  end.

Definition sweep_once (now : instant) : S nat :=
  ts ← get_inuse_tools;
  released ← sweep_tools now ts 0%nat;
  open_ ← open_resource_sessions;
  kinds ← resource_kinds;
  released ← sweep_rooms now (rooms_to_release open_ kinds
    (ToolBilling.abandoned_cutoff (default_max_session_minutes cfg) (session_grace_minutes cfg) now))
    released;
  _ ← match tool_billing cfg with
      | Some b => _ ← attempt (money_call (ToolBilling.sweep_abandoned b now)); mret tt
      | None => mret tt
      end;
  mret released.

End GuardApi.
End GuardApi.
