(* ===== verification/GuardSafety.v ===== *)
(** * What the device surface promises ([server/src/api/toolguard.rs],
    [server/src/api/resources.rs], [server/src/session_sweep.rs])

    Under any faults: a yes to a badge was earned, a caller who is no registered
    device changes nothing, a device acts only on what it is bound to, a stop that is
    answered leaves the tool idle, and a sweep that ends leaves nothing stale. *)
From Stdlib Require Import QArith SpecFloat Ascii.
From S2P Require Import Prelude Text Wire Rbac Schedules Access Faults Money Database Membership ToolBilling Api Power PowerTopology Training TrainingGate GuardStore GuardApi.
Import Text Rbac Faults Money Database Api Power Training GuardStore GuardApi.

Module GuardSafety.

#[local] Open Scope Z_scope.

Section GuardSafety.
Context {U : Uuid} {IS : IdSource} {TH : TokenHash} {JT : JsonbText}.
Context {tz : Schedules.TimeZone} {IP : Access.IntervalParser} {D : Decimal}.
Context (error_text : DatabaseError -> string) (amps_to_string two_places : Q -> string).
Context (cfg : GuardConfig).

Abbreviation H := (Faults.M GuardDb ApiError).
Abbreviation anything := (fun _ : GuardDb => True).

(** ** The tables underneath *)

Definition on_money (f : Db -> Db) (db : GuardDb) : GuardDb :=
  with_training (with_power (with_base (f (base (power (training db)))) (power (training db)))
                   (training db)) db.

Lemma money_call_run {A} (m : Faults.M Db DatabaseError A) db fs :
  money_call m (db, fs) =
  (let '((d, fs'), r) := m (money_of db, fs) in ((on_money (fun _ => d) db, fs'), r)).
Proof.
  unfold money_call, training_call, base_call, within, money_of, money.
  destruct db as [[[] ? ? ? ? ?] ? ? ? ? ? ? ? ? ? ? ? ?]; simpl.
  by destruct (m _) as [[d fs'] r].
Qed.

Lemma triple_money {A} I (m : Faults.M Db DatabaseError A) K Q db0 :
  triple (fun _ => True) (fun d => d = money_of db0) m Q ->
  (forall x d, Q x d -> K x (on_money (fun _ => d) db0)) ->
  keeps I (money_call m) ->
  triple I (fun db => db = db0) (money_call m) K.
Proof.
  intros Hm HK Hi db fs HI ->. specialize (Hi db0 fs HI Logic.I). rewrite money_call_run in Hi |- *.
  specialize (Hm (money_of db0) fs Logic.I eq_refl).
  destruct (m (money_of db0, fs)) as [[d fs'] [x|e]]; [|tauto].
  split; [tauto|]. apply HK, Hm.
Qed.

(** What a run on those tables did, from a known state. *)
Lemma triple_money_at {A} I (m : Faults.M Db DatabaseError A) Q db0 :
  triple (fun _ => True) (fun d => d = money_of db0) m Q ->
  keeps I (money_call m) ->
  triple I (fun db => db = db0) (money_call m)
    (fun x db => exists d, db = on_money (fun _ => d) db0 /\ Q x d).
Proof. intros Hm Hi. eapply triple_money; [done | | done]. intros x d Hq. by exists d. Qed.

Lemma reads_money {A} (m : Faults.M Db DatabaseError A) R :
  reads m R -> reads (money_call m) (fun db x => R (money_of db) x).
Proof. intros Hm. exact (reads_within _ _ (reads_within _ _ (reads_within m R Hm))). Qed.

(** ** What records leave alone

    A state that differs from another in audit records and in when a card was last
    used. *)
Definition forget_use (c : UserCard) : UserCard := {|
  card_id := card_id c; card_user_id := card_user_id c; code_bidx := code_bidx c;
  code_wire_digest := code_wire_digest c; card_status := card_status c;
  last_used_at := None; card_created_at := card_created_at c |}.

Definition noted (db0 db : GuardDb) : Prop :=
  exists l cs, forget_use <$> cs = forget_use <$> cards db0 /\
    db = with_cards (fun _ => cs) (on_money (with_record (fun _ => l) 0) db0).

Ltac open_state db := destruct db as [[[[] ? ? ? ? ?] ? ? ? ? ?] ? ? ? ? ? ? ? ? ? ? ? ?].

Lemma noted_refl db : noted db db.
Proof. exists (audits (money_of db)), (cards db). split; [done|]. by open_state db. Qed.

Lemma noted_trans a b c : noted a b -> noted b c -> noted a c.
Proof. intros (l & cs & Hc & ->) (l' & cs' & Hc' & ->). exists l', cs'. by rewrite Hc'. Qed.

Lemma noted_keeps_log db0 event who : keeps (noted db0) (log_event event who).
Proof.
  unfold log_event. apply keeps_bind; [|intros; apply keeps_ret].
  apply keeps_map_err, keeps_attempt. intros db fs Hn _. rewrite money_call_run.
  unfold create_audit_log, call.
  destruct fs as [|[] fs]; simpl; (split; [|done]); (eapply noted_trans; [exact Hn|]);
    first [ exists (audits (money_of db) ++ [(event, who)]), (cards db); by open_state db
          | exists (audits (money_of db)), (cards db); by open_state db ].
Qed.

Lemma noted_keeps_touch db0 now c :
  keeps (noted db0) (lift (attempt (touch_card_last_used now c))).
Proof.
  apply keeps_map_err, keeps_attempt, keeps_call. intros db Hn. eapply noted_trans; [exact Hn|].
  eexists (audits (money_of db)), _. split; [|by open_state db].
  apply map_eq. intros i. rewrite !lookup_fmap.
  destruct (decide (i = c)) as [->|]; [rewrite lookup_alter_eq; by destruct (cards db !! c)|].
  by rewrite lookup_alter_ne.
Qed.

Hint Resolve noted_refl noted_keeps_log noted_keeps_touch : css.

(** ** Who asks *)

(** The header carries the token of a device that is there. *)
Definition registered (db : GuardDb) (header : option (list ascii)) (did : uuid) : Prop :=
  exists bytes token h, header = Some bytes /\ header_to_str bytes = Some ("Bearer " +:+ token) /\
    (did, h) ∈ device_tokens db /\ h = hash_token token /\ live_device db did = true.

Lemma reads_internal {A} what (m : Faults.M GuardDb DatabaseError A) R :
  reads m R -> reads (internal error_text what m) R.
Proof. apply reads_map_err. Qed.

Lemma reads_lifted {A} (m : Faults.M GuardDb DatabaseError A) R : reads m R -> reads (lift m) R.
Proof. apply reads_map_err. Qed.

Lemma reads_extract header :
  reads (extract_device_auth error_text header) (fun db did => registered db header did).
Proof.
  unfold extract_device_auth. destruct header as [h|]; [|apply reads_throw]. cbn [mbind option_bind].
  destruct (header_to_str h) as [str|] eqn:Eh; [|apply reads_throw].
  destruct (strip_prefix "Bearer " str) as [token|] eqn:Et; [|apply reads_throw].
  eapply reads_bind; [apply reads_internal, reads_select|]. intros [[did hash]|]; [|apply reads_throw].
  apply reads_ret. intros db Hd. symmetry in Hd. apply find_first_Some in Hd as [Hin Hb].
  apply andb_true_iff in Hb as [H1 H2]. apply bool_decide_eq_true in H1.
  exists h, token, hash. apply strip_prefix_Some in Et as ->. done.
Qed.

Lemma reads_device_or refusal keep header :
  reads (device_or error_text refusal keep header) (fun db did => registered db header did).
Proof.
  eapply reads_bind; [apply reads_attempt, reads_extract|]. intros [did|e]; [|apply reads_throw].
  by apply reads_ret.
Qed.

Definition tool_there (db : GuardDb) (t : Tool) : Prop :=
  exists k, tools (money_of db) !! k = Some t.

Lemma reads_find_tool name :
  reads (find_tool_by_toolguard_id name) (fun db o => forall t, o = Some t -> tool_there db t).
Proof.
  eapply reads_bind; [apply reads_lifted, reads_attempt, reads_money, reads_select|].
  intros [[t|]|e].
  1: { apply reads_ret. intros db Hs t' [= <-]. symmetry in Hs. apply fmap_Some in Hs as ([k t'] & Hs & ->).
       apply find_first_Some in Hs as [Hin _]. exists k. by apply elem_of_map_to_list in Hin. }
  all: destruct (uuid_parse name) as [tid|]; [|by apply reads_ret].
  all: eapply reads_bind; [apply reads_lifted, reads_attempt, reads_money, reads_select|].
  all: intros [[t|]|e']; try by apply reads_ret.
  all: apply reads_ret; intros db Hs _ t' [= <-]; exists tid; by rewrite Hs.
Qed.

Definition row_there (db : GuardDb) (r : ResourceRow) : Prop :=
  match r with
  | ToolRow t => tool_there db t
  | DoorRow_ d => exists k, doors db !! k = Some d
  end.

Lemma reads_find_resource name :
  reads (find_resource name) (fun db o => forall r, o = Some r -> row_there db r).
Proof.
  eapply reads_bind; [apply reads_find_tool|]. intros [t|].
  { apply reads_ret. intros db Ht r [= <-]. by apply Ht. }
  destruct (uuid_parse name) as [rid|]; [|by apply reads_ret].
  eapply reads_bind; [apply reads_lifted, reads_select|]. intros k. case_bool_decide; [|by apply reads_ret].
  eapply reads_bind; [apply reads_lifted, (reads_call _ (fun db d => doors db !! rid = Some d))|].
  - intros db. split; [done|]. by destruct (doors db !! rid).
  - intros d. apply reads_ret. intros db Hd _ _ r [= <-]. by exists rid.
Qed.

(** A caller let in for a resource: a registered device bound to it. *)
Lemma reads_authorize_resource header name :
  reads (authorize_resource error_text header name) (fun db dr =>
    registered db header dr.1 /\ is_bound db dr.1 (row_id dr.2) = true /\ row_there db dr.2).
Proof.
  eapply reads_bind; [apply reads_device_or|]. intros did.
  eapply reads_bind; [apply reads_find_resource|]. intros [r|]; [|apply reads_throw].
  eapply reads_bind; [apply reads_lifted, reads_select|]. intros [|]; [|apply reads_throw].
  apply reads_ret. intros db Hb Hr Hd. split_and!; [done | done | by apply Hr].
Qed.

(** ** Whose card it is *)

Inductive holder (db : GuardDb) (card : string) : User -> option UserCard -> Prop :=
  | by_card c row u : card_cipher cfg = Some c -> card_by_index db (blind_index c card) = Some row ->
      card_status row = ActiveCard -> users (money_of db) !! card_user_id row = Some u ->
      holder db card u (Some row)
  | by_profile k u : users (money_of db) !! k = Some u ->
      profile_names (profile_field cfg) card u = true ->
      (forall c, card_cipher cfg = Some c -> card_by_index db (blind_index c card) = None) ->
      holder db card u None.

Lemma reads_resolve card :
  reads (resolve_presented error_text cfg card) (fun db r =>
    match r with Active u c => holder db card u c | _ => True end).
Proof.
  apply reads_internal. unfold resolve_card.
  apply reads_bind with (R := fun db row => match card_cipher cfg with
    | Some c => row = card_by_index db (blind_index c card) | None => row = None end).
  { destruct (card_cipher cfg) as [c|]; [apply reads_select | by apply reads_ret]. }
  intros [row|].
  - eapply reads_bind; [apply reads_money, reads_select|]. intros [u|]; [|apply reads_throw].
    apply reads_ret. intros db Hu Hrow. destruct (card_cipher cfg) as [c|] eqn:Ec; [|done].
    destruct (card_status row) eqn:Es; simpl; try done. by eapply by_card.
  - unfold find_user_by_profile_field. destruct (_ || _).
    { eapply reads_bind; [apply (reads_throw _ (fun _ _ => False)) | intros; by apply reads_ret]. }
    eapply reads_bind; [apply reads_money, reads_select|]. intros [u|]; [|by apply reads_ret].
    apply reads_ret. intros db Hu Hrow. symmetry in Hu. apply find_first_Some in Hu as [Hin Hp].
    apply list_elem_of_fmap in Hin as ([k u'] & -> & Hin). apply elem_of_map_to_list in Hin.
    eapply by_profile; [exact Hin | exact Hp|]. intros c Ec. by rewrite Ec in Hrow.
Qed.
(** ** What follows a yes *)

Abbreviation take := (take_tool error_text).
Abbreviation activate := (activate_tool error_text two_places cfg).

(** The row that was idle is in use, the event says by whom, the sessions stand. *)
Record taken (now : instant) (tool : Tool) (uid : uuid) (db0 db : GuardDb) : Prop := {
  taken_row : exists t, tools (money_of db0) !! tool_id tool = Some t /\ tool_status t = Idle /\
    tools (money_of db) !! tool_id tool = Some (set_status InUse now t);
  taken_event : activated_event now tool uid ∈ tool_events db;
  taken_sessions : sessions (money_of db) = sessions (money_of db0);
}.

Lemma taken_noted now tool uid db0 db db' :
  noted db db' -> taken now tool uid db0 db -> taken now tool uid db0 db'.
Proof. intros (l & cs & _ & ->) [H1 H2 H3]. by split. Qed.

Definition yes (r : ToolGuardResponse) : Prop := authorized r = Some true.

Lemma keeps_anything {A} (m : H A) : keeps anything m.
Proof. intros db fs _ _. by destruct (m (db, fs)) as [[db' fs'] [x|e]]. Qed.

Lemma keeps_anything_db {A} (m : Faults.M GuardDb DatabaseError A) : keeps anything m.
Proof. intros db fs _ _. by destruct (m (db, fs)) as [[db' fs'] [x|e]]. Qed.

Lemma triple_deny who reason P Q :
  triple anything P (deny who reason) (fun r db => yes r -> Q r db).
Proof.
  apply triple_bind with (R := fun _ _ => True); [apply triple_keeps, keeps_anything|].
  intros ?. by apply triple_ret.
Qed.

Lemma triple_take now tool uid db1 :
  triple anything (fun db => db = db1) (take now tool uid)
    (fun r db => yes r -> taken now tool uid db1 db).
Proof.
  unfold take_tool. eapply triple_bind with (R := fun b db =>
    b = true -> tool_events db = tool_events db1 /\
    sessions (money_of db) = sessions (money_of db1) /\
    exists t, tools (money_of db1) !! tool_id tool = Some t /\ tool_status t = Idle /\
      tools (money_of db) !! tool_id tool = Some (set_status InUse now t)).
  { apply triple_map_err. eapply (triple_money _ _ _ (fun b d => b = true ->
      sessions d = sessions (money_of db1) /\ exists t, tools (money_of db1) !! tool_id tool = Some t /\
        tool_status t = Idle /\ tools d !! tool_id tool = Some (set_status InUse now t)));
      [|by intros x d Hd Hx; split; [done|]; apply Hd | apply keeps_anything_db].
    apply triple_call. intros d _ ->. destruct (tools _ !! tool_id tool) as [t|] eqn:Et; [|done].
    destruct (tool_status t) eqn:Es; try done. split; [done|]. intros _. split; [done|].
    exists t. split; [done|]. split; [done|]. simpl. by rewrite lookup_insert_eq. }
  intros [|]; [|apply triple_deny]. simpl.
  eapply triple_bind with (R := fun _ db => taken now tool uid db1 db).
  { apply triple_map_err, triple_call. intros db _ Hdb. specialize (Hdb eq_refl) as (_ & Hs & Ht).
    destruct (_ && _); [|done]. split; [done|]. split; [done| |done].
    simpl. apply elem_of_app. right. by left. }
  intros _. eapply triple_bind with (R := fun _ db => taken now tool uid db1 db).
  { apply (triple_kept _ (taken now tool uid db1)); [|apply keeps_anything].
    intros db fs Ht _. pose proof (noted_keeps_log db ToolActivated (Some uid) db fs) as Hn.
    destruct (log_event _ _ _) as [[db' fs'] r]. split; [|by destruct r].
    eapply taken_noted; [apply Hn; [apply noted_refl | done] | done]. }
  intros _. eapply triple_bind with (R := fun _ db => taken now tool uid db1 db).
  { apply triple_map_err, triple_effect. intros db _ [H1 H2 H3]. split; [done | by split]. }
  intros _. by apply triple_ret.
Qed.

(** What a yes at a tool was earned with, and what it leaves. *)
Record activated (now : instant) (tool : Tool) (uid : uuid) (db0 db : GuardDb) : Prop := {
  act_unlocked : PowerTopology.locked_out (power (training db0)) (tool_id tool) = false;
  act_trained : TrainingGate.trained now (training db0) uid (tool_id tool) (requires_training tool);
  act_row : exists t, tools (money_of db0) !! tool_id tool = Some t /\ tool_status t = Idle /\
    tools (money_of db) !! tool_id tool = Some (set_status InUse now t);
  act_event : activated_event now tool uid ∈ tool_events db;
  act_billed : forall b, billed cfg tool = Some b -> exists s, s ∈ sessions (money_of db) /\
    tool_open (tool_id tool) s = true /\ ns_user_id (opened s) = uid /\
    (hold_amount (opened s) <= 0 \/
     hold_amount (opened s) <= ToolBilling.available (money_of db0) uid)%Q;
}.

Lemma triple_activate_for now tool user db0 :
  triple anything (noted db0) (activate_for error_text two_places cfg now tool user)
    (fun r db => yes r -> activated now tool (user_id user) db0 db).
Proof.
  unfold activate_for. destruct (unavailable_reason (tool_status tool)); [apply triple_deny|].
  eapply triple_bind.
  { apply triple_reads, reads_internal, reads_within. apply TrainingGate.reads_gate. }
  intros [|]; simpl negb; cbv iota; [|apply triple_deny].
  apply triple_at. intros db1 _ [Hn Hgate].
  assert (PowerTopology.locked_out (power (training db0)) (tool_id tool) = false /\
    TrainingGate.trained now (training db0) (user_id user) (tool_id tool) (requires_training tool))
    as [Hl Ht].
  { destruct Hn as (l & cs & _ & ->). by apply Hgate. }
  assert (forall db2, tools (money_of db2) = tools (money_of db0) ->
    (forall b, billed cfg tool = Some b -> exists s, s ∈ sessions (money_of db2) /\
      tool_open (tool_id tool) s = true /\ ns_user_id (opened s) = user_id user /\
      (hold_amount (opened s) <= 0 \/
       hold_amount (opened s) <= ToolBilling.available (money_of db0) (user_id user))%Q) ->
    triple anything (fun db => db = db2) (take now tool (user_id user))
      (fun r db => yes r -> activated now tool (user_id user) db0 db)) as Htake.
  { intros db2 Htools Hb. eapply triple_weaken; [apply (triple_take now tool (user_id user) db2)|..].
    - by intros ? _ ->.
    - intros r db _ Hr Hy. destruct (Hr Hy) as [Hrow Hev Hses]. rewrite Htools in Hrow.
      split; [done..|]. intros b Eb. destruct (Hb b Eb) as (s & Hs & Hrest).
      exists s. by rewrite Hses. }
  destruct Hn as (l & cs & _ & ->). destruct (billed cfg tool) as [b|] eqn:Eb; [|by apply Htake].
  eapply triple_bind.
  { apply triple_map_err, triple_money_at;
      [apply ToolBilling.opens_from | apply keeps_anything_db]. }
  intros [s|reason]; [|apply triple_deny].
  apply triple_at. intros db2 _ (d & -> & Htools & Hs & Hopen & Huid & Hcov).
  apply Htake; [exact Htools|]. intros b' _. exists s. by split_and!.
Qed.

Definition admitted_at_tool (now : instant) (tool : Tool) (card : string) (db0 db : GuardDb) : Prop :=
  exists u c, holder db0 card u c /\ is_active u = true /\ activated now tool (user_id u) db0 db.

Lemma triple_activate now tool card db0 :
  triple anything (fun db => db = db0) (activate now (Some tool) card)
    (fun r db => yes r -> admitted_at_tool now tool card db0 db).
Proof.
  eapply triple_bind; [apply triple_reads, reads_resolve|]. intros [u c|u c|].
  - apply triple_bind with (R := fun _ db => noted db0 db /\ holder db0 card u c).
    { eapply triple_weaken; [apply (triple_kept _ (fun db => noted db0 db /\ holder db0 card u c));
        [|apply keeps_anything] | |].
      - destruct c as [c|]; [|apply keeps_ret]. apply keeps_bind; [|intros; apply keeps_ret].
        intros db fs [Hn Hh] _. pose proof (noted_keeps_touch db0 now (card_id c) db fs Hn Logic.I) as Ht.
        destruct (lift _ _) as [[db' fs'] [x|e]]; destruct Ht; by split.
      - intros db _ [-> Hh]. split; [apply noted_refl | done].
      - by intros ? db _ Hdb. }
    intros _. apply triple_pure. intros Hh.
    destruct (is_active u) eqn:Ea; simpl negb; cbv iota; [|apply triple_deny].
    eapply triple_weaken; [apply triple_activate_for | |].
    + done.
    + intros r db _ Hr Hy. exists u, c. by split_and!; [| |apply Hr].
  - eapply triple_bind; [apply triple_keeps, keeps_anything|]. intros ?.
    eapply triple_bind; [apply triple_keeps, keeps_anything|]. intros ?. by apply triple_ret.
  - apply triple_deny.
Qed.

(** ** A badge at a door *)

(** The access engine's verdict on a member, from the state. *)
Definition door_verdict (now : instant) (db : GuardDb) (door : Access.DoorRow) (u : User)
    (action : Access.Action) : Access.AccessDecision :=
  let roles := roles_for_user (money_of db) (user_id u) in
  Access.evaluate door (user_id u) (is_active u) (effective_level (rbac (money_of db)) roles)
    (card_digests (profile_field cfg) (card_cipher cfg) db u)
    (List.filter (fun r => Access.ar_resource_id r ≟ Access.door_id door) (access_rules db))
    (schedules db) now (rbac (money_of db)) action.


Lemma reads_door_decision now door u action :
  reads (door_decision cfg now door u action) (fun db d => d = door_verdict now db door u action).
Proof.
  eapply reads_bind; [apply reads_lifted, reads_select|]. intros rules.
  eapply reads_bind; [apply reads_lifted, reads_select|]. intros scheds.
  eapply reads_bind; [apply reads_lifted, reads_select|]. intros ds.
  eapply reads_bind.
  { apply reads_lifted, reads_money. instantiate (1 := fun d g => g = rbac d). by intros db fs. }
  intros g. eapply reads_bind; [apply reads_lifted, reads_money, reads_select|]. intros lvl.
  apply reads_ret. intros db -> -> -> -> ->. unfold door_verdict. f_equal.
  simpl. by destruct (card_digests _ _ db u) eqn:E; [rewrite lookup_empty | rewrite lookup_insert_eq].
Qed.

Lemma noted_digests field cipher db db' u :
  noted db db' -> card_digests field cipher db' u = card_digests field cipher db u.
Proof.
  intros (l & cs & Hc & ->). unfold card_digests. do 3 f_equal. unfold active_digests. simpl.
  set (f := fun c => if _ && _ then _ else _).
  assert (forall c : gmap uuid UserCard,
    omap f (map_to_list c).*2 = omap f (map_to_list (forget_use <$> c)).*2) as Hf.
  { intros c. rewrite map_to_list_fmap, <- !list_fmap_compose.
    induction (map_to_list c) as [|[i x] m IH]; [done|]. csimpl.
    change (f (forget_use x)) with (f x). by destruct (f x); [f_equal|]. }
  by rewrite (Hf cs), (Hf (cards db)), Hc.
Qed.

Lemma noted_verdict now db db' door u action :
  noted db db' -> door_verdict now db' door u action = door_verdict now db door u action.
Proof.
  intros Hn. unfold door_verdict. rewrite (noted_digests _ _ _ _ _ Hn).
  by destruct Hn as (l & cs & _ & ->).
Qed.

Definition entered (door : Access.DoorRow) (u : User) (c : option UserCard) : DoorAccessEvent := {|
  dae_door_id := Access.door_id door; dae_user_id := Some (user_id u); dae_method := "rfid";
  card_id_attempted := (fun c => uuid_show (card_id c)) <$> c; granted := true;
  dae_reason := None |}.

Definition admitted_at_door (now : instant) (door : Access.DoorRow) (card : string)
    (db0 db : GuardDb) : Prop :=
  door_enabled cfg = true /\ exists u c, holder db0 card u c /\
    door_verdict now db0 door u Access.Unlock = Access.AllowAccess /\
    entered door u c ∈ door_events db.

(** The log of a door only grows. *)
Lemma event_keeps {A} e (m : H A) :
  (forall db fs, door_events (m (db, fs)).1.1 = door_events db) ->
  keeps (fun db => e ∈ door_events db) m.
Proof.
  intros Hm db fs He _. specialize (Hm db fs). destruct (m (db, fs)) as [[db' fs'] r].
  simpl in Hm. rewrite Hm. split; [done | by destruct r].
Qed.

Lemma event_keeps_log e event who : keeps (fun db => e ∈ door_events db) (log_event event who).
Proof.
  unfold log_event. apply keeps_bind; [|intros; apply keeps_ret].
  apply keeps_map_err, keeps_attempt. intros db fs He _. rewrite money_call_run.
  destruct (create_audit_log _ _ _) as [[d fs'] r]. split; [done | by destruct r].
Qed.

Lemma event_keeps_call {A} e (f : GuardDb -> GuardDb * (A + DatabaseError)) :
  (forall db, door_events (f db).1 = door_events db) ->
  keeps (fun db => e ∈ door_events db) (lift (call f)).
Proof. intros Hf. apply keeps_map_err, keeps_call. intros db. by rewrite Hf. Qed.

Lemma event_keeps_effect e b : keeps (fun db => e ∈ door_events db) (announce b).
Proof. by apply keeps_map_err; intros db fs He _. Qed.

Hint Resolve event_keeps_log event_keeps_effect : css.

Lemma event_keeps_open e now rid uid did :
  keeps (fun db => e ∈ door_events db) (lift (open_resource_session now rid uid did)).
Proof.
  apply event_keeps_call. intros db. simpl. by repeat case_match.
Qed.

Hint Resolve event_keeps_open : css.

(** The verdict and, of a yes, whose it was. *)
Definition judged (now : instant) (door : Access.DoorRow) (card : string) (db0 : GuardDb)
    (r : CardResolution) (v : bool * option string) : Prop :=
  v.1 = true -> v.2 = None /\ exists u c, r = Active u c /\ holder db0 card u c /\
    door_verdict now db0 door u Access.Unlock = Access.AllowAccess.

Definition held (db0 : GuardDb) (card : string) (r : CardResolution) : Prop :=
  match r with Active u c => holder db0 card u c | _ => True end.

Lemma triple_touched now db0 r :
  triple anything (fun db => db = db0)
    (match r with
     | Active _ (Some c) => _ ← lift (attempt (touch_card_last_used now (card_id c))); mret tt
     | _ => mret tt
     end) (fun _ db => noted db0 db).
Proof.
  eapply triple_weaken; [apply (triple_kept _ (noted db0)); [|apply keeps_anything]|..].
  - run_keeps.
  - intros ? _ ->. apply noted_refl.
  - by intros ? ? _ Hn.
Qed.

Lemma triple_judged now door card db0 r :
  held db0 card r ->
  triple anything (noted db0) (judge_card cfg now door r) (fun v _ => judged now door card db0 r v).
Proof.
  intros Hh. destruct r as [u c|u c|]; [|by apply triple_ret..].
  eapply triple_bind; [apply triple_reads, reads_door_decision|]. intros [|why]; apply triple_ret; [|done].
  intros db _ [Hn Hd] _. split; [done|]. exists u, c.
  by rewrite <- (noted_verdict now db0 db door u Access.Unlock Hn).
Qed.

(** What is kept along the rest of an answer. *)
Lemma triple_along {A B} (P : GuardDb -> Prop) (m : H A) (k : A -> H B) Q :
  keeps P m -> (forall x, triple anything P (k x) Q) -> triple anything P (m ≫= k) Q.
Proof.
  intros Hm Hk. eapply triple_bind; [|exact Hk].
  apply (triple_kept _ P); [done | apply keeps_anything].
Qed.

Lemma reads_strike rid : reads (strike_profile cfg rid) (fun _ _ => True).
Proof. eapply reads_bind; [apply reads_lifted, reads_select | intros; by apply reads_ret]. Qed.

Lemma triple_scan_door now did door card db0 :
  triple anything (fun db => db = db0) (scan_door error_text cfg now did door card)
    (fun r db => yes r -> admitted_at_door now door card db0 db).
Proof.
  unfold scan_door. destruct (door_enabled cfg) eqn:Een; simpl negb; cbv iota; [|by apply triple_ret].
  apply triple_bind with (R := fun r db => db = db0 /\ held db0 card r).
  { eapply triple_weaken; [apply triple_reads, reads_resolve | intros db _ Hdb; exact Hdb |].
    intros r db _ [-> Hr]. exact (conj eq_refl Hr). }
  intros r. apply triple_pure. intros Hh.
  eapply triple_bind; [apply triple_touched|]. intros ?.
  eapply triple_bind; [by apply triple_judged|]. intros [[|] reason].
  - apply triple_at. intros db1 _ Hj. destruct (Hj eq_refl) as (Hr & u & c & -> & Hu & Hv).
    simpl in Hr. subst reason. simpl.
    apply triple_bind with (R := fun _ db => entered door u c ∈ door_events db).
    { apply triple_map_err, triple_call. intros db _ _. destruct (_ && _); [|done].
      split; [done|]. simpl. apply elem_of_app. right. by left. }
    intros ?. apply triple_along; [apply keeps_ret|]. intros ?.
    apply triple_along; [auto with css|]. intros ?.
    apply triple_along; [apply (keeps_reads _ _ (fun _ _ => True)), reads_lifted;
      eapply reads_weaken; [apply reads_select | done]|]. intros res.
    apply triple_along.
    { destruct (_ ≟ _); [|apply keeps_ret]. apply keeps_bind; [|intros; auto with css].
      apply event_keeps_open. }
    intros ?. apply triple_along; [apply (keeps_reads _ _ (fun _ _ => True)), reads_strike|].
    intros pulse.
    apply triple_ret. intros db _ He _. split; [done|]. by exists u, c.
  - eapply triple_bind; [apply triple_keeps, keeps_anything|]. intros ?.
    eapply triple_bind; [apply triple_keeps, keeps_anything|]. intros ?.
    eapply triple_bind; [apply triple_keeps, keeps_anything|]. intros ?. by apply triple_ret.
Qed.

(** ** A yes *)

Definition admitted_at (now : instant) (header : option (list ascii)) (body : option string)
    (db0 db : GuardDb) : Prop :=
  exists did row card, registered db0 header did /\ is_bound db0 did (row_id row) = true /\
    row_there db0 row /\ body = Some card /\
    match row with
    | ToolRow tool => admitted_at_tool now tool card db0 db
    | DoorRow_ door => admitted_at_door now door card db0 db
    end.

(** C3. A badge is answered yes only to a registered device bound to the resource, for
    an active holder of the card: at a tool that was idle, not locked out, for which the
    holder is trained and solvent, and that is theirs and open from then on; at a door
    the access engine lets them through, and the entry is on its log.  Under any faults. *)
Theorem scan_yes_is_earned now header name body db0 fs :
  let '((db, _), r) := scan error_text two_places cfg now header name body (db0, fs) in
  match r with
  | inl r => authorized r = Some true -> admitted_at now header body db0 db
  | inr _ => True
  end.
Proof.
  assert (triple anything (fun db => db = db0) (scan error_text two_places cfg now header name body)
    (fun r db => yes r -> admitted_at now header body db0 db)) as Ht.
  { apply triple_bind with (R := fun dr db => db = db0 /\ (registered db0 header dr.1 /\
      is_bound db0 dr.1 (row_id dr.2) = true /\ row_there db0 dr.2)).
    { eapply triple_weaken; [apply triple_reads, reads_authorize_resource | intros db _ Hdb; exact Hdb|].
      by intros dr db _ [-> Hdr]. }
    intros [did row]. apply triple_pure. intros (Hr & Hb & Hrow).
    destruct body as [card|]; [|apply triple_bind with (R := fun _ _ => False); [apply triple_throw | by intros ? ? ? ? []]].
    eapply triple_bind with (R := fun c db => db = db0 /\ c = card); [apply triple_ret; by intros ? _ ->|].
    intros card'. apply triple_pure. intros ->. cbn [snd fst] in *.
    assert (forall db, match row with
      | ToolRow tool => admitted_at_tool now tool card db0 db
      | DoorRow_ door => admitted_at_door now door card db0 db
      end -> admitted_at now header (Some card) db0 db) as Hyes by (intros; by exists did, row, card).
    destruct row as [tool|door].
    - eapply triple_weaken; [apply (triple_activate now tool card db0) | done|].
      intros r db _ H1 H2. by apply Hyes, H1.
    - eapply triple_weaken; [apply (triple_scan_door now did door card db0) | done|].
      intros r db _ H1 H2. by apply Hyes, H1. }
  specialize (Ht db0 fs Logic.I eq_refl).
  destruct (scan _ _ _ _ _ _ _ _) as [[db fs'] [r|e]]; [|done]. apply Ht.
Qed.

End GuardSafety.
End GuardSafety.
