(* ===== verification/GuardReach.v ===== *)
(** * How far a device reaches ([server/src/api/toolguard.rs],
    [server/src/api/resources.rs])

    Whoever is no registered device changes nothing; a device's badges, stops and
    reports touch the resources it is bound to and no other; and a stop that is
    answered leaves the tool idle. *)
From Stdlib Require Import QArith SpecFloat Ascii.
From S2P Require Import Prelude Text Wire Rbac Schedules Access Faults Money Database Membership ToolBilling Api Power PowerTopology Training TrainingGate GuardStore GuardApi GuardSafety.
Import Text Rbac Faults Money Database Api Power Training GuardStore GuardApi GuardSafety.

Module GuardReach.

#[local] Open Scope Z_scope.

Section GuardReach.
Context {U : Uuid} {IS : IdSource} {TH : TokenHash} {JT : JsonbText}.
Context {tz : Schedules.TimeZone} {IP : Access.IntervalParser} {D : Decimal}.
Context (error_text : DatabaseError -> string) (amps_to_string two_places : Q -> string).
Context (cfg : GuardConfig).

Abbreviation H := (Faults.M GuardDb ApiError).
Abbreviation anything := (fun _ : GuardDb => True).

(** ** What is kept of one resource

    The tool's row, its events and the sessions opened on it as a room. *)
Definition about (rid : uuid) (db : GuardDb)
    : option Tool * list ToolEvent * list ResourceSession :=
  (tools (money_of db) !! rid,
   List.filter (fun e => event_tool_id e ≟ rid) (tool_events db),
   List.filter (fun s => rs_resource_id s ≟ rid) (resource_sessions db)).

Section same.
Context (rid : uuid) (db0 : GuardDb).

Definition same (db : GuardDb) : Prop := about rid db = about rid db0.

Lemma same_money {A} (m : Faults.M Db DatabaseError A) :
  keeps (fun d => tools d !! rid = tools (money_of db0) !! rid) m -> keeps same (money_call m).
Proof.
  intros Hm db fs Hs _. rewrite money_call_run. injection Hs as H1 H2 H3.
  specialize (Hm (money_of db) fs H1 Logic.I).
  destruct (m (money_of db, fs)) as [[d fs'] r]. split; [|by destruct r].
  unfold same, about. destruct Hm as [Hm _]. unfold money_of, money, on_money. simpl.
  by rewrite Hm, H2, H3.
Qed.

(** A call of the layers below that leaves the tools alone. *)
Lemma same_billing {A} (m : Faults.M Db DatabaseError A) :
  (forall I, of_tools I -> keeps I m) -> keeps same (money_call m).
Proof. intros Hm. apply same_money, Hm. intros d d' Hd _. by rewrite Hd. Qed.

Lemma same_money_reads {A} (m : Faults.M Db DatabaseError A) R : reads m R -> keeps same (money_call m).
Proof. intros Hm. eapply keeps_reads, reads_money, Hm. Qed.

Lemma same_log event who : keeps same (log_event event who).
Proof.
  apply keeps_bind; [|intros; apply keeps_ret]. apply keeps_map_err, keeps_attempt, same_billing.
  intros I HI. by apply ToolBilling.tools_call.
Qed.

Lemma same_call {A} (f : GuardDb -> GuardDb * (A + DatabaseError)) :
  (forall db, about rid (f db).1 = about rid db) -> keeps same (call f).
Proof. intros Hf. apply keeps_call. intros db Hs. unfold same. by rewrite Hf. Qed.

Lemma same_announce b : keeps same (announce b).
Proof. apply keeps_map_err. by intros db fs Hs _. Qed.

Lemma same_touch now c : keeps same (touch_card_last_used now c).
Proof. by apply same_call. Qed.

Lemma same_resolve card : keeps same (resolve_presented error_text cfg card).
Proof. eapply keeps_reads, reads_resolve. Qed.

Lemma same_select {A} (f : GuardDb -> A) : keeps same (lift (select f)).
Proof. apply keeps_map_err, keeps_select. Qed.

Lemma same_door_event e : keeps same (insert_door_access_event e).
Proof. apply same_call. intros db. by case_match. Qed.

Hint Resolve same_log same_announce same_touch same_resolve same_select same_door_event
  same_money_reads ToolBilling.tools_open_session ToolBilling.tools_record_usage
  ToolBilling.tools_settle : css.

Lemma same_gate now uid tid requires :
  keeps same (training_call (user_is_authorized_for_tool now uid tid requires)).
Proof. eapply keeps_reads, reads_within, TrainingGate.reads_gate. Qed.

(** ** Writes elsewhere *)

Lemma same_event e : event_tool_id e <> rid -> keeps same (create_tool_event e).
Proof.
  intros Hne. apply same_call. intros db. case_match; [|done]. unfold about. simpl.
  rewrite List.filter_app. simpl. rewrite bool_decide_false by done. by rewrite app_nil_r.
Qed.

Lemma same_write {A} (f : Db -> Db * (A + DatabaseError)) :
  (forall d, tools (f d).1 !! rid = tools d !! rid) -> keeps same (money_call (call f)).
Proof. intros Hf. apply same_money, keeps_call. intros d. by rewrite Hf. Qed.

Lemma same_status now tid st : tid <> rid -> keeps same (update_tool_status now tid st).
Proof.
  intros Hne. apply same_write. intros d. case_match; [|done]. simpl. by rewrite lookup_insert_ne.
Qed.

Lemma same_try now tid : tid <> rid -> keeps same (try_activate_tool now tid).
Proof.
  intros Hne. apply same_write. intros d. repeat case_match; try done.
  simpl. by rewrite lookup_insert_ne.
Qed.

Lemma same_open_room now r uid did : r <> rid -> keeps same (open_resource_session now r uid did).
Proof.
  intros Hne. apply same_call. intros db. repeat case_match; try done.
  unfold about. simpl. rewrite List.filter_app. simpl. rewrite bool_decide_false by done.
  by rewrite app_nil_r.
Qed.

Lemma close_elsewhere now r who l : r <> rid ->
  List.filter (fun s => rs_resource_id s ≟ rid)
    ((fun s => if open_on r s then close_session now who s else s) <$> l) =
  List.filter (fun s => rs_resource_id s ≟ rid) l.
Proof.
  intros Hne. induction l as [|s l IH]; [done|]. csimpl.
  destruct (open_on r s) eqn:Eo; simpl; rewrite IH; [|done].
  apply andb_true_iff in Eo as [Hr%bool_decide_eq_true _].
  by rewrite Hr, bool_decide_false.
Qed.

Lemma same_close_room now r who : r <> rid -> keeps same (close_resource_session now r who).
Proof.
  intros Hne. apply same_call. intros db. case_match; [|done].
  unfold about. simpl. by rewrite close_elsewhere.
Qed.

Hint Resolve same_gate same_event same_status same_try same_open_room same_close_room : css.

(** ** The handlers, at another resource *)

Lemma same_lift {A} (m : Faults.M GuardDb DatabaseError A) : keeps same m -> keeps same (lift m).
Proof. apply keeps_map_err. Qed.

Lemma same_internal {A} what (m : Faults.M GuardDb DatabaseError A) :
  keeps same m -> keeps same (internal error_text what m).
Proof. apply keeps_map_err. Qed.

Lemma same_lift_attempt {A} (m : Faults.M GuardDb DatabaseError A) :
  keeps same m -> keeps same (lift (attempt m)).
Proof. intros Hm. by apply keeps_map_err, keeps_attempt. Qed.

Hint Resolve same_lift same_internal same_lift_attempt same_billing : css.

Lemma same_deny who reason : keeps same (deny who reason).
Proof. unfold deny. run_keeps. Qed.

Hint Resolve same_deny : css.

Lemma same_take now tool uid : tool_id tool <> rid -> keeps same (take_tool error_text now tool uid).
Proof. intros Hne. unfold take_tool. run_keeps. Qed.

Hint Resolve same_take : css.

Lemma same_activate now tool card : tool_id tool <> rid ->
  keeps same (activate_tool error_text two_places cfg now (Some tool) card).
Proof. intros Hne. unfold activate_tool, activate_for. run_keeps. Qed.

Lemma same_signed_on tool : keeps same (signed_on_user tool).
Proof.
  unfold signed_on_user, open_tool_session_for_tool, find_user_by_id. run_keeps;
    apply same_lift; (apply keeps_select || eapply same_money_reads, reads_select).
Qed.

Hint Resolve same_signed_on : css.

Lemma same_settle now tool how : keeps same (settle_billed cfg now tool how).
Proof. unfold settle_billed. run_keeps. Qed.

Hint Resolve same_settle : css.

Lemma same_stop now tool who : tool_id tool <> rid -> keeps same (stop_tool error_text cfg now tool who).
Proof. intros Hne. unfold stop_tool. run_keeps. Qed.

Hint Resolve same_stop : css.

Lemma same_deactivate now tool card : tool_id tool <> rid ->
  keeps same (deactivate_tool error_text cfg now (Some tool) card).
Proof. intros Hne. unfold deactivate_tool. run_keeps. Qed.

Lemma same_log_usage now tool uid : tool_id tool <> rid -> keeps same (log_usage error_text now tool uid).
Proof. intros Hne. unfold log_usage. run_keeps. Qed.

Hint Resolve same_log_usage : css.

Lemma same_report now tool req : tool_id tool <> rid ->
  keeps same (report_tool_usage error_text cfg now (Some tool) req).
Proof.
  intros Hne. unfold report_tool_usage, report_for, refuse, open_tool_session_for_tool. run_keeps;
    apply same_lift; eapply same_money_reads, reads_select.
Qed.

Lemma same_scan_door now did door card : Access.door_id door <> rid ->
  keeps same (scan_door error_text cfg now did door card).
Proof.
  intros Hne. unfold scan_door, judge_card, strike_profile, get_resource, door_strike. run_keeps.
  all: try (eapply keeps_reads, reads_door_decision).
Qed.

Hint Resolve same_activate same_deactivate same_report same_scan_door : css.

(** The routes, once it is known who asks for what. *)
Lemma same_body {A} shape (body : option A) : keeps same (with_body shape body).
Proof. unfold with_body. run_keeps. Qed.

Hint Resolve same_body : css.

Lemma same_routed_scan now did row body : row_id row <> rid ->
  keeps same (card ← with_body "{ card }" body;
    match (did, row).2 with
    | ToolRow tool => activate_tool error_text two_places cfg now (Some tool) card
    | DoorRow_ door => scan_door error_text cfg now (did, row).1 door card
    end).
Proof. intros Hne. destruct row; cbn [row_id fst snd] in *; run_keeps. Qed.

Lemma same_routed_stop now (did : uuid) row body : row_id row <> rid ->
  keeps same (card ← with_body "{ card? }" body;
    match (did, row).2 with
    | ToolRow tool => deactivate_tool error_text cfg now (Some tool) card
    | DoorRow_ door =>
        closed ← lift (close_resource_session now (Access.door_id door) BY_STOP);
        match closed with
        | Some _ => _ ← announce ModuleSnapshot; mret (ok_with_message "Session ended")
        | None => mret (ok_with_message "No session to end")
        end
    end).
Proof. intros Hne. destruct row; cbn [row_id fst snd] in *; run_keeps. Qed.

Lemma same_routed_usage now (did : uuid) row body : row_id row <> rid ->
  keeps same (req ← with_body "{ card?, seconds, active_seconds?, temperature? }" body;
    match (did, row).2 with
    | ToolRow tool => report_tool_usage error_text cfg now (Some tool) req
    | DoorRow_ _ => mret (error "No open session for this resource")
    end).
Proof. intros Hne. destruct row; cbn [row_id fst snd] in *; run_keeps. Qed.

End same.
(** ** Who is let in *)

Lemma reads_is_bound did rid : reads (lift (device_is_bound_to_tool did rid)) (fun db b => b = is_bound db did rid).
Proof. apply reads_lifted, reads_select. Qed.

Lemma reads_authorize_toolguard header name :
  reads (authorize_toolguard error_text header name) (fun db did => registered db header did).
Proof.
  eapply reads_bind; [apply reads_device_or|]. intros did.
  case_bool_decide; [by apply reads_ret|].
  eapply reads_bind; [apply reads_find_tool|]. intros tool.
  eapply reads_bind with (R := fun _ _ => True).
  { destruct tool; [eapply reads_weaken; [apply reads_is_bound | done] | by apply reads_ret]. }
  intros [|]; [by apply reads_ret | apply reads_throw].
Qed.

Lemma reads_authorize_alive header subject :
  reads (authorize_alive error_text header subject) (fun db did => registered db header did).
Proof.
  eapply reads_bind; [apply reads_device_or|]. intros did.
  destruct subject as [subject|]; [|by apply reads_ret]. case_bool_decide; [by apply reads_ret|].
  eapply reads_bind with (R := fun _ _ => True).
  { apply reads_lifted. eapply reads_bind; [apply reads_select|]. intros [|? ?]; [by apply reads_ret|].
    eapply reads_weaken; [apply reads_select | done]. }
  intros [|]; [by apply reads_ret | apply reads_throw].
Qed.

Lemma reads_authorize_power header name subject :
  reads (authorize_power_report error_text header name subject)
    (fun db ds => registered db header ds.1).
Proof.
  eapply reads_bind; [apply reads_attempt, reads_authorize_toolguard|].
  intros [did|e]; [by apply reads_ret|]. destruct (is_server_error e); [apply reads_throw|].
  eapply reads_bind; [apply reads_extract|]. intros did.
  destruct subject as [subject|]; [|apply reads_throw].
  eapply reads_bind; [apply reads_find_tool|]. intros [t|]; [|apply reads_throw].
  eapply reads_bind; [apply reads_lifted, reads_select|]. intros c.
  eapply reads_bind; [apply reads_lifted, reads_select|]. intros m.
  destruct (c && m); [by apply reads_ret | apply reads_throw].
Qed.

(** What is never answered is followed by nothing. *)
Lemma refused_first {A B} (m : H A) (k : A -> H B) R db0 :
  reads m R -> (forall x, ~ R db0 x) -> keeps (fun db => db = db0) (m ≫= k).
Proof.
  intros Hm Hno db fs -> _. specialize (Hm db0 fs). unfold mbind, M_bind.
  destruct (m (db0, fs)) as [[db' fs'] [x|e]]; [|tauto].
  destruct Hm as [_ Hr]. by destruct (Hno x).
Qed.

Lemma strangers_keep now header q db0 : (forall did, ~ registered db0 header did) ->
  keeps (fun db => db = db0) (serve error_text amps_to_string two_places cfg now header q).
Proof.
  intros Hno. destruct q as [name body|name body|name body| |req|cid reason|body]; simpl.
  1-3: eapply refused_first; [apply reads_authorize_resource | intros dr (Hr & _); by eapply Hno].
  - eapply refused_first; [apply reads_extract | done].
  - eapply refused_first; [apply reads_authorize_power | intros ds Hr; by eapply Hno].
  - eapply refused_first; [apply reads_authorize_toolguard | done].
  - eapply refused_first; [apply reads_authorize_alive | done].
Qed.

Definition names_resource (q : DeviceRequest) : bool :=
  match q with Scan _ _ | Stop _ _ | Usage _ _ => true | _ => false end.

(** A request for one resource, by what follows the authorization. *)
Lemma same_resource {A} rid db0 header name (k : uuid * ResourceRow -> H A) :
  (forall did, registered db0 header did -> is_bound db0 did rid = false) ->
  (forall dr, row_id dr.2 <> rid -> keeps (same rid db0) (k dr)) ->
  forall fs, same rid db0 ((dr ← authorize_resource error_text header name; k dr) (db0, fs)).1.1.
Proof.
  intros Hno Hk fs. pose proof (reads_authorize_resource error_text header name db0 fs) as Ha.
  unfold mbind, M_bind. destruct (authorize_resource _ _ _ _) as [[db fs'] [dr|e]];
    [|by destruct Ha as [-> _]].
  destruct Ha as (-> & Hr & Hb & _).
  assert (row_id dr.2 <> rid) as Hne by (intros <-; by rewrite Hno in Hb).
  specialize (Hk dr Hne db0 fs' eq_refl Logic.I).
  destruct (k dr (db0, fs')) as [[db' fs''] r]. by destruct Hk.
Qed.

(** C5. Whatever a device asks and whatever fails: without the token of a registered
    device nothing changes at all, and a badge, a stop or a usage report leaves the
    row, the events and the rooms' sessions of every resource the device is not bound
    to as they were. *)
Theorem device_reaches_its_own now header q db0 fs rid :
  let db := (serve error_text amps_to_string two_places cfg now header q (db0, fs)).1.1 in
  ((forall did, ~ registered db0 header did) -> db = db0) /\
  (names_resource q = true ->
   (forall did, registered db0 header did -> is_bound db0 did rid = false) ->
   about rid db = about rid db0).
Proof.
  split.
  - intros Hno. pose proof (strangers_keep now header q db0 Hno db0 fs eq_refl Logic.I) as Hk.
    destruct (serve _ _ _ _ _ _ _ _) as [[db fs'] r]. by destruct Hk.
  - intros Hq Hno. destruct q as [name body|name body|name body| | | |]; try done.
    all: eapply same_resource; [exact Hno|]; intros [did row] Hne.
    + by apply same_routed_scan.
    + by apply same_routed_stop.
    + by apply same_routed_usage.
Qed.

(** ** A stop *)

(** Users are filed under their ids, the tool's row is [t], and [who] is a user. *)
Definition standing (tid : uuid) (t : Tool) (who : option uuid) (d : Db) : Prop :=
  (forall k u, users d !! k = Some u -> user_id u = k) /\ tools d !! tid = Some t /\
  is_none_or who (fun u => is_some (users d !! u)) = true.

Lemma of_tools_standing tid t who : of_tools (standing tid t who).
Proof. intros d d' Ht Hu. unfold standing. by rewrite Ht, Hu. Qed.

Section standing.
Context (tid : uuid) (t : Tool) (who : option uuid).

Definition stands (db : GuardDb) : Prop := standing tid t who (money_of db).

Lemma stands_money {A} (m : Faults.M Db DatabaseError A) :
  keeps (standing tid t who) m -> keeps stands (money_call m).
Proof.
  intros Hm db fs Hs _. rewrite money_call_run. specialize (Hm _ fs Hs Logic.I).
  destruct (m (money_of db, fs)) as [[d fs'] r]. split; [by destruct Hm | by destruct r].
Qed.

Lemma answers_money {A} (m : Faults.M Db DatabaseError A) P Q :
  answers P m Q ->
  answers (fun db => P (money_of db)) (money_call m) (fun x db => Q x (money_of db)).
Proof.
  intros Hm db Hp. destruct (Hm _ Hp) as (d & x & Hr & Hx).
  exists (on_money (fun _ => d) db), x. by rewrite money_call_run, Hr.
Qed.

Lemma stands_log event by_ e :
  answers (fun db => stands db /\ e ∈ tool_events db) (log_event event by_)
    (fun _ db => stands db /\ e ∈ tool_events db).
Proof.
  eapply answers_bind; [apply answers_map_err, answers_attempt|intros ?; by apply answers_ret].
  - unfold money_call, training_call, base_call, create_audit_log. run_clean.
  - intros db fs [Hs He] _. rewrite money_call_run.
    assert (keeps (standing tid t who) (create_audit_log event by_)) as Hk
      by (apply ToolBilling.tools_call; [apply of_tools_standing | done]).
    specialize (Hk (money_of db) fs Hs Logic.I).
    destruct (create_audit_log _ _ _) as [[d fs'] r]. destruct Hk as [Hk _].
    split; [by split | by destruct r].
Qed.

Lemma stands_settle now tool how : answers stands (settle_billed cfg now tool how) (fun _ => stands).
Proof.
  unfold settle_billed. destruct (billed cfg tool) as [b|]; [|by apply answers_ret].
  eapply answers_bind; [apply answers_map_err, answers_attempt|intros ?; by apply answers_ret].
  - unfold money_call, training_call, base_call, ToolBilling.settle_open_session_for_tool,
      settle_tool_session, insert_ledger_entry, open_tool_session_for_tool, audit, create_audit_log,
      ledger_entry_exists_for_reference. run_clean.
  - apply stands_money, ToolBilling.tools_settle, of_tools_standing.
Qed.

Lemma stands_event e : event_tool_id e = tid -> event_user_id e = who -> event_actor_id e = who ->
  answers stands (create_tool_event e) (fun _ db => stands db /\ e ∈ tool_events db).
Proof.
  intros He Hu Ha. apply answers_call. intros db (Hk & Ht & Hw). rewrite Ha, He, Hu, Hw.
  unfold money_of, money in *. rewrite Ht. eexists _, _. split; [done|]. split; [by split|].
  simpl. apply elem_of_app. right. by left.
Qed.

Lemma stands_status now st : answers stands (update_tool_status now tid st)
  (fun _ db => standing tid (set_status st now t) who (money_of db)).
Proof.
  eapply answers_weaken; [apply (answers_money _ (standing tid t who)
    (fun _ => standing tid (set_status st now t) who)) | done | done].
  apply answers_call. intros d (Hk & Ht & Hw). rewrite Ht. eexists _, _. split; [done|].
  split_and!; [done | simpl; by rewrite lookup_insert_eq | done].
Qed.

End standing.

(** Who is signed on is a user. *)
Lemma stands_signed_on tid t tool : answers (stands tid t None) (signed_on_user tool)
  (fun who => stands tid t (user_id <$> who)).
Proof.
  eapply answers_bind.
  { apply answers_map_err, (answers_money _ (standing tid t None)), answers_select. }
  intros s. eapply answers_bind with (R := fun _ => stands tid t None).
  { destruct s; [by apply answers_ret; intros ? [? _]|].
    destruct (tool_in_use tool); [|by apply answers_ret; intros ? [? _]].
    eapply answers_bind; [apply answers_map_err, answers_select|]. intros e.
    by apply answers_ret; intros ? [[? _] _]. }
  intros [uid|]; [|by apply answers_ret].
  eapply answers_weaken; [apply answers_map_err, (answers_money _ (standing tid t None)),
    answers_select | done|].
  intros [u|] db [(Hk & Ht & _) Hu]; [|by split]. symmetry in Hu.
  split_and!; [done..|]. simpl. by rewrite (Hk _ _ Hu), Hu.
Qed.

(** The stop button works: where nothing fails, a stop without a card at a tool
    that is there is answered, whatever state the tool is in, and leaves it idle with
    the stop on its record. *)
Theorem stop_frees now tool t db0 : stands (tool_id tool) t None db0 ->
  answers (fun db => db = db0) (deactivate_tool error_text cfg now (Some tool) None) (fun r db =>
    r = ok_with_message "Tool deactivated" /\
    tools (money_of db) !! tool_id tool = Some (set_status Idle now t) /\
    exists who, deactivated_event now tool who who ∈ tool_events db).
Proof.
  intros Hs. eapply answers_bind with (R := fun r db => db = db0 /\ r = None); [by apply answers_ret|].
  intros r. apply answers_pure. intros ->. unfold stop_tool. cbn [mbind option_bind].
  eapply answers_bind.
  { eapply answers_weaken; [apply (stands_signed_on (tool_id tool) t) | by intros ? -> |].
    intros who db Hw. exact Hw. }
  intros who. set (uid := user_id <$> who).
  eapply answers_bind; [apply answers_map_err, (stands_status (tool_id tool) t uid)|]. intros ?.
  eapply answers_bind; [apply (stands_settle (tool_id tool) (set_status Idle now t) uid)|]. intros ?.
  eapply answers_bind; [apply answers_map_err, (stands_event (tool_id tool) _ uid); done|].
  intros ?.
  eapply answers_bind; [apply (stands_log (tool_id tool) (set_status Idle now t) uid)|]. intros ?.
  eapply answers_bind with (R := fun _ db => stands (tool_id tool) (set_status Idle now t) uid db /\
    deactivated_event now tool uid uid ∈ tool_events db).
  { by apply answers_map_err, answers_effect. }
  intros ?. apply answers_ret. intros db [(_ & Ht & _) He]. split_and!; [done | done | by exists uid].
Qed.

End GuardReach.
End GuardReach.
