(* ===== verification/GuardSweep.v ===== *)
(** * What a sweep leaves ([server/src/session_sweep.rs])

    A sweep that ends has left no tool in use and no room open past its time, and it
    touched no tool that was not.  A tool's time runs from its latest activation. *)
From Stdlib Require Import QArith SpecFloat Ascii.
From S2P Require Import Prelude Text Wire Rbac Schedules Access Faults Money Database ToolBilling Api Power Training GuardStore GuardApi GuardSafety.
Import Text Rbac Faults Money Database Api Power Training GuardStore GuardApi GuardSafety.

Module GuardSweep.

#[local] Open Scope Z_scope.

Section GuardSweep.
Context {U : Uuid} {IS : IdSource} {TH : TokenHash} {JT : JsonbText}.
Context {tz : Schedules.TimeZone} {IP : Access.IntervalParser} {D : Decimal}.
Context (cfg : GuardConfig) (now : instant).

Abbreviation S := (Faults.M GuardDb DatabaseError).
Abbreviation anything := (fun _ : GuardDb => True).

(** ** Tools *)

(** In use no longer than allowed. *)
Definition in_time (db : GuardDb) (t : Tool) : bool :=
  tool_cutoff cfg now t <=? in_use_since t (latest_activated db (tool_id t)).

Definition filed (db : GuardDb) : Prop :=
  forall k t, tools (money_of db) !! k = Some t -> tool_id t = k.

(** Tools are filed under their ids, and those in use past their time are to come. *)
Definition left_over (ts : list Tool) (db : GuardDb) : Prop :=
  filed db /\ forall k t, tools (money_of db) !! k = Some t -> tool_in_use t = true ->
    in_time db t = false -> t ∈ ts.

(** What both look at. *)
Definition alike (db db' : GuardDb) : Prop :=
  tools (money_of db') = tools (money_of db) /\
  forall tid, latest_activated db' tid = latest_activated db tid.

Lemma left_over_alike ts db db' : alike db db' -> left_over ts db -> left_over ts db'.
Proof.
  intros [Ht Hl] [Hf Hin]. unfold left_over, filed, in_time. rewrite Ht.
  split; [exact Hf|]. intros k t. rewrite Hl. apply Hin.
Qed.

(** A condition on tools and their activations. *)
Definition on_tools (I : GuardDb -> Prop) : Prop := forall db db', alike db db' -> I db -> I db'.

Section kept.
Context (I : GuardDb -> Prop) (HI : on_tools I).

Lemma alike_money {A} (m : Faults.M Db DatabaseError A) :
  (forall J, of_tools J -> keeps J m) -> keeps I (money_call m).
Proof.
  intros Hm db fs Hi _. rewrite money_call_run.
  specialize (Hm (fun d => tools d = tools (money_of db)) ltac:(intros ? ? Hd _; by rewrite Hd)
    (money_of db) fs eq_refl Logic.I).
  destruct (m (money_of db, fs)) as [[d fs'] r]. destruct Hm as [Hd _].
  split; [|by destruct r]. by apply (HI db).
Qed.

Lemma alike_note event who : keeps I (note event who).
Proof.
  apply keeps_bind; [|intros; apply keeps_ret]. apply keeps_attempt, alike_money.
  intros J HJ. by apply ToolBilling.tools_call.
Qed.

Lemma latest_snoc e l tid : event_type e <> "activated"%string ->
  List.filter (fun e => (event_tool_id e ≟ tid) && (event_type e ≟ "activated"%string)) (reverse (l ++ [e])) =
  List.filter (fun e => (event_tool_id e ≟ tid) && (event_type e ≟ "activated"%string)) (reverse l).
Proof. intros He. rewrite reverse_app. simpl. by rewrite (bool_decide_false _ He), andb_false_r. Qed.

Lemma alike_event e : event_type e <> "activated"%string -> keeps I (create_tool_event e).
Proof.
  intros He. apply keeps_call. intros db Hi. case_match; [|done]. apply (HI db); [|done].
  split; [done|]. intros tid. unfold latest_activated. simpl. by rewrite latest_snoc.
Qed.

Lemma alike_settle t : keeps I (match tool_billing cfg with
  | Some b => _ ← attempt (money_call (ToolBilling.settle_open_session_for_tool b now t "abandoned")); mret tt
  | None => mret tt
  end).
Proof.
  destruct (tool_billing cfg); [|apply keeps_ret].
  apply keeps_bind; [|intros; apply keeps_ret]. apply keeps_attempt, alike_money.
  intros J HJ. by apply ToolBilling.tools_settle.
Qed.

Lemma alike_close rid who : keeps I (close_resource_session now rid who).
Proof. apply keeps_call. intros db Hi. case_match; [|done]. by apply (HI db). Qed.

Lemma alike_sweep_rooms rooms n : keeps I (sweep_rooms now rooms n).
Proof.
  revert n. induction rooms as [|s rooms IH]; intros n; simpl; [apply keeps_ret|].
  apply keeps_bind; [apply alike_close|]. intros [c|]; [|apply IH].
  apply keeps_bind; [apply alike_note | intros; apply IH].
Qed.

Lemma alike_abandoned : keeps I (match tool_billing cfg with
  | Some b => _ ← attempt (money_call (ToolBilling.sweep_abandoned b now)); mret tt
  | None => mret tt
  end).
Proof.
  destruct (tool_billing cfg); [|apply keeps_ret].
  apply keeps_bind; [|intros; apply keeps_ret]. apply keeps_attempt, alike_money.
  intros J HJ. by apply ToolBilling.tools_sweep.
Qed.

End kept.

(** A release takes its tool off the list. *)
Lemma triple_status (J K : GuardDb -> Prop) tid st :
  (forall db t, J db -> tools (money_of db) !! tid = Some t ->
    K (on_money (with_tools <[tid := set_status st now t]>) db)) ->
  triple anything J (update_tool_status now tid st) (fun _ db => K db).
Proof.
  intros HK db fs _ HJ. unfold update_tool_status. rewrite money_call_run. unfold call.
  specialize (HK db). fold (money_of db) in *.
  destruct (tools (money_of db) !! tid) as [t|] eqn:Et;
    destruct fs as [|[] fs]; rewrite ?Et; simpl; rewrite ?Et; split; try done; by apply HK.
Qed.

Lemma left_over_release tool ts db t :
  left_over (tool :: ts) db -> tools (money_of db) !! tool_id tool = Some t ->
  left_over ts (on_money (with_tools <[tool_id tool := set_status Idle now t]>) db).
Proof.
  intros [Hf Hin] Ht.
  assert (tools (money_of (on_money (with_tools <[tool_id tool := set_status Idle now t]>) db)) =
    <[tool_id tool := set_status Idle now t]> (tools (money_of db))) as Hw by done.
  split; unfold filed; rewrite Hw; intros k t'.
  - intros [[<- <-]|[_ Hk]]%lookup_insert_Some; [exact (Hf _ _ Ht) | by apply Hf].
  - intros [[<- <-]|[Hne Hk]]%lookup_insert_Some Hu Hs; [done|].
    apply (Hin k t' Hk Hu) in Hs. apply elem_of_cons in Hs as [->|]; [|done].
    by rewrite (Hf _ _ Hk) in Hne.
Qed.

Lemma on_tools_left ts : on_tools (left_over ts).
Proof. intros db db'. apply left_over_alike. Qed.

Lemma triple_release (J K : GuardDb -> Prop) tool member :
  on_tools J -> on_tools K ->
  (forall db t, J db -> tools (money_of db) !! tool_id tool = Some t ->
    K (on_money (with_tools <[tool_id tool := set_status Idle now t]>) db)) ->
  triple anything J (release cfg now tool member) (fun _ db => K db).
Proof.
  intros HJ HK Hst. unfold release.
  apply triple_bind with (R := fun _ db => J db).
  { apply (triple_kept _ J); [by apply alike_settle | apply keeps_anything_db]. }
  intros ?. eapply triple_bind; [by apply triple_status with (K := K)|]. intros ?.
  apply triple_bind with (R := fun _ db => K db).
  { apply (triple_kept _ K); [by apply alike_event | apply keeps_anything_db]. }
  intros ?. apply (triple_kept _ K); [by apply alike_note | apply keeps_anything_db].
Qed.

Lemma triple_sweep_tools ts n :
  triple anything (left_over ts) (sweep_tools cfg now ts n) (fun _ db => left_over [] db).
Proof.
  revert n. induction ts as [|tool ts IH]; intros n; simpl; [by apply triple_ret|].
  eapply triple_bind; [apply triple_select_keep|]. intros a.
  destruct (_ <=? _) eqn:E.
  - eapply triple_weaken; [apply IH | | done].
    intros db _ [[Hf Hin] ->]. split; [done|]. intros k t Ht Hu Hs.
    specialize (Hin k t Ht Hu Hs) as Ho. apply elem_of_cons in Ho as [->|]; [|done].
    unfold in_time in Hs. congruence.
  - apply triple_bind with (R := fun _ db => left_over ts db); [|intros ?; apply IH].
    eapply triple_weaken; [apply (triple_release (left_over (tool :: ts)) (left_over ts));
      [apply on_tools_left..|] | by intros db _ [Hl _] | done].
    intros db t. apply left_over_release.
Qed.

(** What is in time, or not in use at all, is not touched. *)
Definition spared (db0 db : GuardDb) : Prop :=
  (forall tid, latest_activated db tid = latest_activated db0 tid) /\
  forall k t, tools (money_of db0) !! k = Some t -> tool_in_use t = false \/ in_time db0 t = true ->
    tools (money_of db) !! k = Some t.

Lemma on_tools_spared db0 : on_tools (spared db0).
Proof. intros db db' [Ht Hl] [H1 H2]. split; [intros tid; by rewrite Hl | by rewrite Ht]. Qed.

Lemma spared_release db0 tool :
  tools (money_of db0) !! tool_id tool = Some tool -> tool_in_use tool = true -> in_time db0 tool = false ->
  forall db t, spared db0 db -> tools (money_of db) !! tool_id tool = Some t ->
    spared db0 (on_money (with_tools <[tool_id tool := set_status Idle now t]>) db).
Proof.
  intros Hrow Hu Hs db t [H1 H2] Ht. split; [exact H1|]. intros k t' Ht' Hp.
  change (<[tool_id tool := set_status Idle now t]> (tools (money_of db)) !! k = Some t').
  rewrite lookup_insert_ne; [by apply H2|]. intros <-. rewrite Hrow in Ht'.
  injection Ht' as <-. destruct Hp; congruence.
Qed.

Lemma keeps_release I tool member :
  on_tools I ->
  (forall db t, I db -> tools (money_of db) !! tool_id tool = Some t ->
    I (on_money (with_tools <[tool_id tool := set_status Idle now t]>) db)) ->
  keeps I (release cfg now tool member).
Proof.
  intros HI Hst. unfold release. apply keeps_bind; [by apply alike_settle|]. intros ?.
  apply keeps_bind.
  { intros db fs Hi _. unfold update_tool_status. rewrite money_call_run. unfold call.
    specialize (Hst db). fold (money_of db) in *.
    destruct (tools (money_of db) !! tool_id tool) as [t|] eqn:Et;
      destruct fs as [|[] fs]; rewrite ?Et; simpl; rewrite ?Et; split; try done;
      first [by apply Hst | apply (HI db); [|done]; by split]. }
  intros ?. apply keeps_bind; [by apply alike_event|]. intros ?. by apply alike_note.
Qed.

Lemma spared_sweep_tools db0 ts n :
  Forall (fun tool => tools (money_of db0) !! tool_id tool = Some tool /\ tool_in_use tool = true) ts ->
  keeps (spared db0) (sweep_tools cfg now ts n).
Proof.
  intros Hts. revert n. induction Hts as [|tool ts [Hrow Hu] Hts IH]; intros n; simpl; [apply keeps_ret|].
  apply triple_bind with (R := fun a _ => a = latest_activated db0 (tool_id tool)).
  { apply triple_select. intros db [Hl _] _. apply Hl. }
  intros a. destruct (_ <=? _) eqn:E; [by eapply triple_weaken; [apply IH|..]|].
  apply triple_at. intros db1 _ ->.
  assert (keeps (spared db0) (_ ← release cfg now tool (latest_activated db0 (tool_id tool) ≫= event_user_id);
    sweep_tools cfg now ts (Datatypes.S n))) as Hk.
  { apply keeps_bind; [|intros ?; apply IH]. apply keeps_release; [apply on_tools_spared|].
    by apply spared_release. }
  by eapply triple_weaken; [apply Hk|..].
Qed.

(** ** Rooms *)

Definition room (db : GuardDb) (rid : uuid) : bool :=
  (kind <$> resources db !! rid) ≟ Some (resource_kind_as_str DoorKind).

Definition room_cutoff : instant :=
  ToolBilling.abandoned_cutoff (default_max_session_minutes cfg) (session_grace_minutes cfg) now.

(** The rooms open past their time are to come. *)
Definition rooms_left (l : list uuid) (db : GuardDb) : Prop :=
  forall s, s ∈ resource_sessions db -> session_open s = true -> room db (rs_resource_id s) = true ->
    opened_at s < room_cutoff -> rs_resource_id s ∈ l.

Lemma rooms_left_note l event who : keeps (rooms_left l) (note event who).
Proof.
  apply keeps_bind; [|intros; apply keeps_ret]. apply keeps_attempt.
  intros db fs Hl _. rewrite money_call_run. destruct (create_audit_log _ _ _) as [[d fs'] r].
  split; [exact Hl | by destruct r].
Qed.

Lemma rooms_left_abandoned l : keeps (rooms_left l) (match tool_billing cfg with
  | Some b => _ ← attempt (money_call (ToolBilling.sweep_abandoned b now)); mret tt
  | None => mret tt
  end).
Proof.
  destruct (tool_billing cfg) as [b|]; [|apply keeps_ret].
  apply keeps_bind; [|intros; apply keeps_ret]. apply keeps_attempt.
  intros db fs Hl _. rewrite money_call_run. destruct (ToolBilling.sweep_abandoned _ _ _) as [[d fs'] r].
  split; [exact Hl | by destruct r].
Qed.

Lemma triple_close_room s l who :
  triple anything (rooms_left (rs_resource_id s :: l)) (close_resource_session now (rs_resource_id s) who)
    (fun _ db => rooms_left l db).
Proof.
  apply triple_call. intros db _ Hl. split; [done|].
  destruct (find_first (open_on (rs_resource_id s)) (resource_sessions db)) as [c|] eqn:Ef; simpl;
    intros s' Hs' Ho Hr Hold.
  - simpl in Hs'. apply list_elem_of_fmap in Hs' as (s0 & -> & Hs0).
    destruct (open_on (rs_resource_id s) s0) eqn:Eo; [done|].
    specialize (Hl s0 Hs0 Ho Hr Hold). apply elem_of_cons in Hl as [Heq|]; [|done].
    unfold open_on in Eo. by rewrite Heq, bool_decide_true, Ho in Eo.
  - specialize (Hl s' Hs' Ho Hr Hold). apply elem_of_cons in Hl as [Heq|]; [|done].
    pose proof (proj1 (find_first_None _ _) Ef s' Hs') as Hn. unfold open_on in Hn.
    by rewrite Heq, bool_decide_true, Ho in Hn.
Qed.

Lemma triple_sweep_rooms rooms n :
  triple anything (rooms_left (rs_resource_id <$> rooms)) (sweep_rooms now rooms n)
    (fun _ db => rooms_left [] db).
Proof.
  revert n. induction rooms as [|s rooms IH]; intros n; simpl; [by apply triple_ret|].
  eapply triple_bind; [apply triple_close_room|]. intros [c|]; [|apply IH].
  apply triple_bind with (R := fun _ db => rooms_left (rs_resource_id <$> rooms) db); [|intros ?; apply IH].
  apply (triple_kept _ (rooms_left _)); [apply rooms_left_note | apply keeps_anything_db].
Qed.

(** ** The whole sweep *)

Lemma reads_inuse : reads get_inuse_tools (fun db ts =>
  ts = List.filter tool_in_use (map_to_list (tools (money_of db))).*2).
Proof.
  unfold get_inuse_tools.
  exact (reads_money _ _ (reads_select (fun d : Db => List.filter tool_in_use (map_to_list (tools d)).*2))).
Qed.

Lemma inuse_listed db t :
  t ∈ List.filter tool_in_use (map_to_list (tools (money_of db))).*2 <->
  tool_in_use t = true /\ exists k, tools (money_of db) !! k = Some t.
Proof.
  rewrite elem_of_lfilter. split.
  - intros [Ht Hu]. split; [done|]. apply list_elem_of_fmap in Ht as ([k t'] & -> & Ht).
    exists k. by apply elem_of_map_to_list in Ht.
  - intros [Hu [k Hk]]. split; [|done]. apply list_elem_of_fmap. exists (k, t).
    split; [done|]. by apply elem_of_map_to_list.
Qed.

Lemma triple_sweep :
  triple anything filed (sweep_once cfg now) (fun _ db => left_over [] db /\ rooms_left [] db).
Proof.
  unfold sweep_once. eapply triple_bind; [apply triple_reads, reads_inuse|]. intros ts.
  apply triple_bind with (R := fun _ db => left_over [] db).
  { eapply triple_weaken; [apply (triple_sweep_tools ts) | | done].
    intros db _ [Hf ->]. split; [done|]. intros k t Hk Hu _. apply inuse_listed. eauto. }
  intros n. apply triple_bind with (R := fun l db => left_over [] db /\
    l = sort_by (fun a b => opened_at a <=? opened_at b) (List.filter session_open (resource_sessions db))).
  { apply triple_select_keep. }
  intros l. apply triple_bind with (R := fun ks db => left_over [] db /\
    rooms_left (rs_resource_id <$> rooms_to_release l ks room_cutoff) db).
  { apply triple_select. intros db _ [Hl ->]. split; [done|]. intros s Hs Ho Hr Hold.
    apply list_elem_of_fmap_2. unfold rooms_to_release. apply elem_of_lfilter.
    split; [by rewrite sort_by_perm, elem_of_lfilter|].
    apply andb_true_iff. split; [|by apply Z.ltb_lt]. apply bool_decide_eq_true.
    unfold room in Hr. apply bool_decide_eq_true, fmap_Some in Hr as (r & Hr & Hk).
    apply list_elem_of_fmap. exists (rs_resource_id s, kind r). split; [done|].
    rewrite elem_of_lfilter. split; [|apply bool_decide_eq_true; by rewrite Hk].
    apply list_elem_of_fmap. exists (rs_resource_id s, r). split; [done|].
    by apply elem_of_map_to_list. }
  intros ks. apply triple_bind with (R := fun _ db => left_over [] db /\ rooms_left [] db).
  { eapply triple_weaken; [apply triple_and; [apply (triple_kept _ (left_over []));
      [apply alike_sweep_rooms, on_tools_left | apply keeps_anything_db] | apply triple_sweep_rooms]| |];
      done. }
  intros released. apply triple_bind with (R := fun _ db => left_over [] db /\ rooms_left [] db);
    [|intros ?; by apply triple_ret].
  apply (triple_and _ (left_over []) (rooms_left []));
    (apply triple_kept; [|apply keeps_anything_db]).
  - apply alike_abandoned, on_tools_left.
  - apply rooms_left_abandoned.
Qed.

Lemma spared_sweep db0 : filed db0 ->
  triple (spared db0) (fun db => db = db0) (sweep_once cfg now) (fun _ _ => True).
Proof.
  intros Hf. unfold sweep_once.
  apply triple_bind with (R := fun ts _ => Forall (fun tool =>
    tools (money_of db0) !! tool_id tool = Some tool /\ tool_in_use tool = true) ts).
  { eapply triple_weaken; [apply triple_reads, reads_inuse | intros db _ Hdb; exact Hdb |].
    intros ts db _ [-> ->]. apply Forall_forall. intros t [Hu [k Hk]]%inuse_listed.
    split; [|done]. by rewrite (Hf k t Hk). }
  intros ts. apply triple_at. intros db1 _ Hts.
  assert (keeps (spared db0) (released ← sweep_tools cfg now ts 0%nat;
    open_ ← open_resource_sessions;
    kinds ← resource_kinds;
    released ← sweep_rooms now (rooms_to_release open_ kinds room_cutoff) released;
    _ ← match tool_billing cfg with
        | Some b => _ ← attempt (money_call (ToolBilling.sweep_abandoned b now)); mret tt
        | None => mret tt
        end;
    mret released)) as Hk.
  { apply keeps_bind; [by apply spared_sweep_tools|]. intros n.
    apply keeps_bind; [apply keeps_select|]. intros l.
    apply keeps_bind; [apply keeps_select|]. intros ks.
    apply keeps_bind; [apply alike_sweep_rooms, on_tools_spared|]. intros m.
    apply keeps_bind; [apply alike_abandoned, on_tools_spared | intros ?; apply keeps_ret]. }
  by eapply triple_weaken; [apply Hk|..].
Qed.

(** C6. A sweep that ends, whatever it met, leaves no tool in use longer than its own
    limit and grace after its activation and no room open longer than the default ones;
    and whether it ends or not it touches no tool that is idle, out of order or in
    time. *)
Theorem sweep_leaves_nothing_stale db0 fs :
  filed db0 ->
  let '((db, _), r) := sweep_once cfg now (db0, fs) in
  match r with
  | inl _ =>
      (forall k t, tools (money_of db) !! k = Some t -> tool_in_use t = true -> in_time db t = true) /\
      (forall s, s ∈ resource_sessions db -> session_open s = true ->
        room db (rs_resource_id s) = true -> room_cutoff <= opened_at s)
  | inr _ => True
  end /\
  (forall k t, tools (money_of db0) !! k = Some t -> tool_in_use t = false \/ in_time db0 t = true ->
    tools (money_of db) !! k = Some t).
Proof.
  intros Hf. pose proof (triple_sweep db0 fs Logic.I Hf) as Ht.
  pose proof (spared_sweep db0 Hf db0 fs (conj (fun _ => eq_refl) (fun _ _ H _ => H)) eq_refl) as Hs.
  destruct (sweep_once cfg now (db0, fs)) as [[db fs'] r]. destruct Hs as [[_ Hs] _].
  split; [|exact Hs]. destruct r as [n|e]; [|done]. destruct Ht as [_ [[_ Hl] Hr]]. split.
  - intros k t Hk Hu. destruct (in_time db t) eqn:E; [done|].
    by apply (Hl k t Hk Hu), not_elem_of_nil in E.
  - intros s Hs' Ho Hroom. apply Z.nlt_ge. intros Hlt.
    by apply (Hr s Hs' Ho Hroom), not_elem_of_nil in Hlt.
Qed.

End GuardSweep.
End GuardSweep.
