(* ===== verification/AllowLists.v ===== *)
(** * The allow lists of a device ([server/src/database.rs],
    [server/src/api/toolguard.rs], [server/src/doors.rs], [server/src/api/resources.rs])

    What the server tells an edge it may decide alone: for the tools the device is
    bound to, the digests of the members each of the server's gates lets through; for
    the doors it coordinates, their rules compiled to card lists; together, the
    resource policy. *)
From Stdlib Require Import QArith.
From S2P Require Import Prelude Text Wire EdgeToolGuard EdgeResources Rbac Schedules Access Faults Money Database ToolBilling Api Power Training GuardStore GuardApi.
Import Text Rbac Faults Money Database Api Power Training GuardStore GuardApi.

Module AllowLists.

#[local] Open Scope Z_scope.

(** The server's status as the vocabulary of the wire, which is the edge's too. *)
Definition wire_status (st : ToolStatus) : ToolGuard.ToolStatus :=
  match st with
  | Idle => ToolGuard.Idle | InUse => ToolGuard.InUse | Maintenance => ToolGuard.Maintenance
  | Broken => ToolGuard.Broken | Repair => ToolGuard.Repair | Retired => ToolGuard.Retired
  end.

Section AllowLists.
Context {U : Uuid} {IS : IdSource} {TH : TokenHash} {JT : JsonbText}.
Context {tz : Schedules.TimeZone} {IP : Access.IntervalParser} {D : Decimal}.
Context (error_text : DatabaseError -> string) (to_rfc3339 : instant -> string).
Context (cfg : GuardConfig).

Abbreviation S := (Faults.M GuardDb DatabaseError).
Abbreviation H := (Faults.M GuardDb ApiError).

(** ** What one member may use *)

Abbreviation Rates := (gmap (uuid * uuid) (option Q * option Q * option Z)).

Definition all_tier_rates : S Rates :=
  money_call (select (fun db => omap (fun tid =>
    (fun t => (flat_fee t, rate_per_min t, max_session_minutes t)) <$> tiers db !! tid)
    (tier_assignments db))).

(** The tools of the device's bindings, joined to [tools]. *)
Definition bound_tools (did : uuid) : S (list uuid) :=
  select (fun db => remove_dups (List.filter (fun rid => is_some (tools (money_of db) !! rid))
    (binding_resource <$> List.filter (fun b => binding_device b ≟ did) (bindings db)))).

Definition tools_among (bound : list uuid) : S (list Tool) :=
  select (fun db => List.filter (fun t => bool_decide (tool_id t ∈ bound))
    (map_to_list (tools (money_of db))).*2).

Definition all_users : S (list User) :=
  select (fun db => (map_to_list (users (money_of db))).*2).

Definition active_card_rows : S (list (uuid * option string)) :=
  select (fun db => (fun c => (card_user_id c, code_wire_digest c)) <$>
    List.filter (fun c => card_status c ≟ ActiveCard) (map_to_list (cards db)).*2).

(** A member's digests: of the codes in the profile, then of the active cards. *)
Definition identifiers (rows : list (uuid * option string)) (u : User) : list string :=
  foldl push_new [] (legacy_digests (profile_field cfg) (card_cipher cfg) u ++
    omap (fun r => if r.1 ≟ user_id u then r.2 else None) rows).

(** The gate with what it asks of the member: a balance that cannot be read is 0. *)
Definition metered_ctx (g : option ToolBilling.MeteredGate) (levels : gmap uuid Z)
    (active_level : Z) (u : User) : S (option (ToolBilling.MeteredGate * Q * bool)) :=
  match g with
  | None => mret None
  | Some g =>
      r ← attempt (money_call (available_balance (user_id u)));
      mret (Some (g, match r with inl a => a | inr _ => 0%Q end,
                  active_level <=? default 0 (levels !! user_id u)))
  end.

(** The rate of a member at a tool: their tier's, else the tool's own. *)
Definition rate_for (rates : Rates) (u : User) (tool : Tool)
    : option Q * option Q * option Z :=
  match rates !! (user_id u, tool_id tool) with
  | Some (f, r, m) => (f, r, option_or m (usage_max_session_minutes tool))
  | None => (usage_flat_fee tool, usage_rate_per_min tool, usage_max_session_minutes tool)
  end.

Definition affordable (ctx : option (ToolBilling.MeteredGate * Q * bool)) (rates : Rates)
    (u : User) (tool : Tool) : bool :=
  match ctx with
  | None => true
  | Some (g, available, member) =>
      let '(f, r, m) := rate_for rates u tool in
      ToolBilling.authorizes_rate g f r m available member
  end.

Fixpoint authorized_tools (now : instant) (ctx : option (ToolBilling.MeteredGate * Q * bool))
    (rates : Rates) (u : User) (ts : list Tool) : S (list uuid) :=
  match ts with
  | [] => mret []
  | tool :: ts =>
      ok ← training_call (user_is_authorized_for_tool now (user_id u) (tool_id tool)
             (requires_training tool));
      rest ← authorized_tools now ctx rates u ts;
      mret (if ok && affordable ctx rates u tool then tool_id tool :: rest else rest)
  end.

Definition sync_user (u : User) (authorized : list uuid) (digest : string) : ToolGuard.SyncUser := {|
  ToolGuard.su_digest := hex_encode digest; ToolGuard.su_full_name := full_name u;
  ToolGuard.su_is_active := is_active u; ToolGuard.su_authorized := authorized |}.

(** A member with no digest, or with no tool here, is left out. *)
Fixpoint sync_users (now : instant) (g : option ToolBilling.MeteredGate)
    (levels : gmap uuid Z) (active_level : Z) (rows : list (uuid * option string)) (rates : Rates)
    (ts : list Tool) (us : list User) : S (list ToolGuard.SyncUser) :=
  match us with
  | [] => mret []
  | u :: us =>
      mine ← match identifiers rows u with
             | [] => mret []
             | ids =>
                 ctx ← metered_ctx g levels active_level u;
                 authorized ← authorized_tools now ctx rates u ts;
                 mret match authorized with
                      | [] => []
                      | _ => sync_user u authorized <$> ids
                      end
             end;
      rest ← sync_users now g levels active_level rows rates ts us;
      mret (mine ++ rest)
  end.

Definition sync_tool (g : option ToolBilling.MeteredGate) (t : Tool) : ToolGuard.SyncTool := {|
  ToolGuard.st_id := tool_id t; ToolGuard.st_external_id := external_id t;
  ToolGuard.st_name := tool_name t; ToolGuard.st_status := wire_status (tool_status t);
  ToolGuard.st_requires_online := is_some_and g (fun g => ToolBilling.requires_online g t) |}.

(** The tools somebody on the list may use. *)
Definition sync_tools (g : option ToolBilling.MeteredGate) (us : list ToolGuard.SyncUser)
    (ts : list Tool) : list ToolGuard.SyncTool :=
  sync_tool g <$> List.filter
    (fun t => existsb (fun u => bool_decide (tool_id t ∈ ToolGuard.su_authorized u)) us) ts.

Definition get_toolguard_sync_data (now : instant) (did : uuid)
    (g : option ToolBilling.MeteredGate)
    : S (list ToolGuard.SyncUser * list ToolGuard.SyncTool) :=
  us ← all_users;
  bound ← bound_tools did;
  ts ← tools_among bound;
  rows ← active_card_rows;
  rates ← all_tier_rates;
  levels ← effective_levels_for (user_id <$> us);
  graph ← money_call rbac_graph;
  let active_level := default 32767 (level_of_name graph ToolBilling.ACTIVE) in
  sync ← sync_users now g levels active_level rows rates ts us;
  mret (sync, sync_tools g sync ts).

(** ** The schedules of the tools *)

(** A schedule that is not there, or does not read, is closed. *)
Definition closed_now (now : instant) (schedules : list Access.Schedule) (sid : uuid) : bool :=
  match find_first (fun s => Access.sched_id s ≟ sid) schedules with
  | None => true
  | Some s =>
      match Access.parse_intervals (Access.sched_intervals s) with
      | None => true
      | Some ivs => negb (Schedules.matches_at ivs now)
      end
  end.

Definition tool_schedules : S (list (uuid * option uuid)) :=
  select (fun db => (fun t => (tool_id t, schedule_id t)) <$>
    (map_to_list (tools (money_of db))).*2).

Definition closed_tool_ids_now (now : instant) : H (list uuid) :=
  schedules ← internal error_text "list_schedules: " list_schedules;
  match schedules with
  | [] => mret []
  | _ =>
      rows ← internal error_text "load tools: " tool_schedules;
      mret (omap (fun r => if is_some_and r.2 (closed_now now schedules) then Some r.1 else None) rows)
  end.

(** ** The allow-list payload *)

Definition open_only (closed : list uuid) (u : ToolGuard.SyncUser) : ToolGuard.SyncUser := {|
  ToolGuard.su_digest := ToolGuard.su_digest u; ToolGuard.su_full_name := ToolGuard.su_full_name u;
  ToolGuard.su_is_active := ToolGuard.su_is_active u;
  ToolGuard.su_authorized :=
    List.filter (fun t => negb (bool_decide (t ∈ closed))) (ToolGuard.su_authorized u) |}.

Definition metered_gate : option ToolBilling.MeteredGate := ToolBilling.gate <$> tool_billing cfg.

Definition build_sync_payload (now : instant) (did : uuid) : H ToolGuard.SyncPayload :=
  data ← internal error_text "Failed to build sync data: "
           (get_toolguard_sync_data now did metered_gate);
  closed ← closed_tool_ids_now now;
  mret {|
    ToolGuard.sp_device_id := did;
    ToolGuard.sp_profile_field := profile_field cfg;
    ToolGuard.sp_tools :=
      List.filter (fun t => negb (bool_decide (ToolGuard.st_id t ∈ closed))) data.2;
    ToolGuard.sp_users := open_only closed <$> data.1 |}.

(** ** The doors *)

Fixpoint compile_doors (now : instant) (schedules : list Access.Schedule)
    (cards : gmap uuid (list string)) (levels : gmap uuid Z) (ds : list Access.DoorRow)
    : H (list Doors.CompiledDoor) :=
  match ds with
  | [] => mret []
  | door :: ds =>
      rules ← lift (list_rules_for_door (Access.door_id door));
      g ← lift (money_call rbac_graph);
      strike ← strike_profile cfg (Access.door_id door);
      rest ← compile_doors now schedules cards levels ds;
      mret (Access.compile_door door rules strike cards schedules now g levels :: rest)
  end.

Definition compile_state_for (now : instant) (did : uuid) : H Doors.DoorStateSnapshot :=
  doors ← lift (list_doors_for_device did);
  match doors with
  | [] => mret {| Doors.snapshot_at := now; Doors.snap_doors := [] |}
  | _ =>
      us ← lift list_active_users;
      schedules ← lift list_schedules;
      levels ← lift (effective_levels_for (user_id <$> us));
      cards ← lift (card_digests_by_user us (profile_field cfg) (card_cipher cfg));
      compiled ← compile_doors now schedules cards levels doors;
      mret {| Doors.snapshot_at := now; Doors.snap_doors := compiled |}
  end.

(** ** The resource policy *)

Definition tool_policy (profiles : gmap uuid (string * string)) (in_use : list uuid)
    (t : ToolGuard.SyncTool) (pulse : option Z) : Wire.ResourcePolicy :=
  let '(kind, profile) :=
    default (resource_kind_as_str ToolKind, String.EmptyString) (profiles !! ToolGuard.st_id t) in
  {| Wire.rp_id := uuid_show (ToolGuard.st_id t); Wire.rp_external_id := ToolGuard.st_external_id t;
     Wire.rp_name := ToolGuard.st_name t; Wire.rp_kind := kind; Wire.rp_session_profile := profile;
     Wire.rp_status := Resources.status_word (ToolGuard.st_status t);
     Wire.rp_requires_online := ToolGuard.st_requires_online t;
     Wire.rp_in_use := bool_decide (ToolGuard.st_id t ∈ in_use); Wire.rp_enabled := true;
     Wire.rp_pulse_ms := pulse; Wire.rp_allow := []; Wire.rp_deny := [];
     Wire.rp_hold_until := None |}.

Definition door_policy (profiles : gmap uuid (string * string)) (in_use : list uuid)
    (d : Doors.CompiledDoor) : Wire.ResourcePolicy := {|
  Wire.rp_id := uuid_show (Doors.cd_id d); Wire.rp_external_id := None;
  Wire.rp_name := Doors.cd_name d; Wire.rp_kind := resource_kind_as_str DoorKind;
  Wire.rp_session_profile := default String.EmptyString (snd <$> profiles !! Doors.cd_id d);
  Wire.rp_status := String.EmptyString; Wire.rp_requires_online := false;
  Wire.rp_in_use := bool_decide (Doors.cd_id d ∈ in_use); Wire.rp_enabled := Doors.cd_enabled d;
  Wire.rp_pulse_ms := Some (Doors.unlock_duration_ms d); Wire.rp_allow := Doors.allow_cards d;
  Wire.rp_deny := Doors.deny_cards d;
  Wire.rp_hold_until := to_rfc3339 <$> Doors.hold_unlock_until d |}.

Fixpoint tool_policies (profiles : gmap uuid (string * string)) (in_use : list uuid)
    (ts : list ToolGuard.SyncTool) : H (list Wire.ResourcePolicy) :=
  match ts with
  | [] => mret []
  | t :: ts =>
      strike ← lift (door_strike (ToolGuard.st_id t));
      rest ← tool_policies profiles in_use ts;
      mret (tool_policy profiles in_use t (Access.sp_pulse_ms <$> strike) :: rest)
  end.

Definition principal (u : ToolGuard.SyncUser) : Wire.Principal := {|
  Wire.pr_digest := ToolGuard.su_digest u; Wire.pr_full_name := ToolGuard.su_full_name u;
  Wire.pr_is_active := ToolGuard.su_is_active u;
  Wire.pr_authorized := uuid_show <$> ToolGuard.su_authorized u |}.

Definition build_resource_policy (now : instant) (did : uuid) : H Wire.ResourcePolicyPayload :=
  sync ← build_sync_payload now did;
  snap ← compile_state_for now did;
  profiles ← lift resource_profiles;
  busy ← lift get_inuse_tools;
  open_ ← lift open_resource_sessions;
  let in_use := (tool_id <$> busy) ++ (rs_resource_id <$> open_) in
  of_tools ← tool_policies profiles in_use (ToolGuard.sp_tools sync);
  mret {|
    Wire.rpp_device_id := uuid_show did;
    Wire.rpp_as_of := to_rfc3339 now;
    Wire.rpp_profile_field := profile_field cfg;
    Wire.rpp_resources := of_tools ++ (door_policy profiles in_use <$> Doors.snap_doors snap);
    Wire.rpp_principals := principal <$> ToolGuard.sp_users sync |}.

(** [GET /api/toolguard/sync] and [GET /api/resources/policy]. *)
Definition sync (now : instant) (header : option (list Ascii.ascii)) : H ToolGuard.SyncPayload :=
  did ← extract_device_auth error_text header;
  build_sync_payload now did.

Definition policy (now : instant) (header : option (list Ascii.ascii))
    : H Wire.ResourcePolicyPayload :=
  did ← extract_device_auth error_text header;
  build_resource_policy now did.

End AllowLists.
End AllowLists.
