(* ===== verification/Entitlement.v ===== *)
(** * What an edge decides alone, the server entitled

    The policy the server builds for a device, applied at the edge: a badge the edge
    lets in without asking is one that, when the policy was built, every gate of the
    server let through. *)
From Stdlib Require Import QArith Ascii.
From S2P Require Import Prelude Text Wire EdgeModules EdgePower EdgeToolGuard EdgeResources Rbac Schedules Access Faults Money Database Membership ToolBilling Api Power PowerTopology Training TrainingGate GuardStore GuardApi GuardSafety GuardSweep AllowLists.
Import Text Rbac Faults Money Database Api Power Training GuardStore GuardApi GuardSafety GuardSweep AllowLists.

Module Entitlement.

#[local] Open Scope Z_scope.

Section Entitlement.
Context {U : Uuid} {IS : IdSource} {TH : TokenHash} {JT : JsonbText}.
Context {tz : Schedules.TimeZone} {IP : Access.IntervalParser} {D : Decimal}.
Context (error_text : DatabaseError -> string) (to_rfc3339 : instant -> string).
Context (cfg : GuardConfig).

Abbreviation S := (Faults.M GuardDb DatabaseError).
Abbreviation H := (Faults.M GuardDb ApiError).

(** ** The gates, from the state *)

Definition level_in (db : GuardDb) (uid : uuid) : Z :=
  match roles_for_user (money_of db) uid with
  | [] => 0
  | rs => effective_level (rbac (money_of db)) rs
  end.

Definition active_level_in (db : GuardDb) : Z :=
  default 32767 (level_of_name (rbac (money_of db)) ToolBilling.ACTIVE).

(** What money asks of a member at a tool.  A balance is what the ledger and the holds
    come to; only that of a member in [unread], whom a failed read was of, may have been
    taken for 0. *)
Definition balance_seen (unread : list uuid) (db : GuardDb) (uid : uuid) (a : Q) : Prop :=
  a = ToolBilling.available (money_of db) uid \/ (uid ∈ unread /\ a = 0%Q).

Definition money_passes (unread : list uuid) (db : GuardDb) (u : User) (t : Tool) : Prop :=
  forall g, metered_gate cfg = Some g -> exists a, balance_seen unread db (user_id u) a /\
    let e := effective_billing (money_of db) (user_id u) t in
    ToolBilling.authorizes_rate g (eff_flat_fee e) (eff_rate_per_min e) (eff_max_session_minutes e)
      a (active_level_in db <=? level_in db (user_id u)) = true.

Record gates_pass (unread : list uuid) (now : instant) (db : GuardDb) (u : User) (t : Tool) : Prop := {
  pass_power : PowerTopology.locked_out (power (training db)) (tool_id t) = false;
  pass_training : TrainingGate.trained now (training db) (user_id u) (tool_id t) (requires_training t);
  pass_money : money_passes unread db u t;
}.

(** More members whose balance was not read leave more to pass. *)
Lemma gates_pass_more unread unread' now db u t :
  unread ⊆ unread' -> gates_pass unread now db u t -> gates_pass unread' now db u t.
Proof.
  intros Hsub [Hp Ht Hm]. split; [done | done|]. intros g Hg. destruct (Hm g Hg) as (a & Ha & Hpass).
  exists a. split; [|done]. destruct Ha as [->|[Hin ->]]; [by left | right; set_solver].
Qed.

Definition bound_tool (db : GuardDb) (did : uuid) (t : Tool) : Prop :=
  is_bound db did (tool_id t) = true /\ tool_there db t.

Definition card_rows_of (db : GuardDb) : list (uuid * option string) :=
  (fun c => (card_user_id c, code_wire_digest c)) <$>
    List.filter (fun c => card_status c ≟ ActiveCard) (map_to_list (cards db)).*2.

(** The token a member's card has at a device. *)
Definition shown_as (db : GuardDb) (u : User) (token : string) : Prop :=
  exists d, d ∈ identifiers cfg (card_rows_of db) u /\ token = hex_encode d.

(** ** The queries *)

Lemma reads_money_select {A} (f : Db -> A) : reads (money_call (select f)) (fun db x => x = f (money_of db)).
Proof. exact (reads_money _ _ (reads_select f)). Qed.

Definition rates_in (db : GuardDb) : gmap (uuid * uuid) (option Q * option Q * option Z) :=
  omap (fun tid => (fun t => (flat_fee t, rate_per_min t, max_session_minutes t)) <$>
    tiers (money_of db) !! tid) (tier_assignments (money_of db)).

Lemma rate_for_effective db u t :
  let e := effective_billing (money_of db) (user_id u) t in
  rate_for (rates_in db) u t = (eff_flat_fee e, eff_rate_per_min e, eff_max_session_minutes e).
Proof.
  unfold rate_for, rates_in, effective_billing. rewrite lookup_omap.
  destruct (tier_assignments (money_of db) !! (user_id u, tool_id t)) as [tid|]; simpl; [|done].
  by destruct (tiers (money_of db) !! tid).
Qed.

Lemma levels_fold db uids uid : uid ∈ uids ->
  default 0 (levels_of (money_of db) uids !! uid) = level_in db uid.
Proof.
  intros Hin. unfold level_in.
  induction uids as [|v uids IH]; [by apply not_elem_of_nil in Hin|]. simpl.
  destruct (decide (v = uid)) as [->|Hne].
  - destruct (roles_for_user (money_of db) uid) as [|r rs] eqn:Er; [|by rewrite lookup_insert_eq].
    clear IH Hin. induction uids as [|w uids IH]; [done|]. simpl.
    destruct (decide (w = uid)) as [->|Hne]; [by rewrite Er|].
    destruct (roles_for_user (money_of db) w); [done | by rewrite lookup_insert_ne].
  - apply elem_of_cons in Hin as [->|Hin]; [done|]. specialize (IH Hin).
    destruct (roles_for_user (money_of db) v); [done | by rewrite lookup_insert_ne].
Qed.

Lemma reads_available uid :
  reads (money_call (available_balance uid)) (fun db a => a = ToolBilling.available (money_of db) uid).
Proof.
  apply (reads_money _ (fun d a => a = ToolBilling.available d uid)).
  eapply reads_bind; [apply reads_select|]. intros b.
  eapply reads_bind; [apply reads_select|]. intros h. by apply reads_ret; intros db -> ->.
Qed.

(** ** The list of a device *)

Definition ctx_in (unread : list uuid) (db : GuardDb) (g : option ToolBilling.MeteredGate) (u : User)
    (c : option (ToolBilling.MeteredGate * Q * bool)) : Prop :=
  match g with
  | None => c = None
  | Some g => exists a, balance_seen unread db (user_id u) a /\
      c = Some (g, a, active_level_in db <=? level_in db (user_id u))
  end.

Lemma thrifty_available uid : thrifty (money_call (available_balance uid)).
Proof. unfold money_call, available_balance, user_balance, sum_open_tool_holds, select. run_thrifty. Qed.

Lemma blames_available uid : blames (money_call (available_balance uid)).
Proof.
  repeat apply blames_within. unfold available_balance, user_balance, sum_open_tool_holds.
  apply blames_bind; [by apply thrifty_call | apply blames_select|]. intros b.
  apply blames_bind; [by apply thrifty_call | apply blames_select|]. intros h. apply blames_ret.
Qed.

Lemma spends_ctx g levels al u :
  spends (metered_ctx g levels al u) (fun db n c =>
    al = active_level_in db -> default 0 (levels !! user_id u) = level_in db (user_id u) ->
    exists unread, (length unread <= n)%nat /\ ctx_in unread db g u c).
Proof.
  unfold metered_ctx. destruct g as [g|]; [|by apply spends_ret; intros db _ _; exists []].
  eapply spends_bind; [apply spends_attempt; [apply thrifty_available | apply reads_available | apply blames_available]|].
  intros r. apply spends_ret. intros db i Hr -> Hl. rewrite Hl. destruct r as [a|e].
  - destruct Hr as [-> ->]. exists []. split; [simpl; lia|]. eexists. split; [by left | done].
  - subst i. exists [user_id u]. split; [simpl; lia|]. exists 0%Q. split; [right; set_solver | done].
Qed.

Lemma reads_authorized now ctx rates u ts :
  reads (authorized_tools now ctx rates u ts) (fun db l => forall tid, tid ∈ l ->
    exists t, t ∈ ts /\ tool_id t = tid /\
      PowerTopology.locked_out (power (training db)) tid = false /\
      TrainingGate.trained now (training db) (user_id u) tid (requires_training t) /\
      affordable ctx rates u t = true).
Proof.
  induction ts as [|t ts IH]; simpl.
  { apply reads_ret. by intros db tid Hin%not_elem_of_nil. }
  eapply reads_bind; [eapply reads_within, TrainingGate.reads_gate|]. intros ok.
  eapply reads_bind; [apply IH|]. intros rest. apply reads_ret.
  intros db Hrest Hok tid Hin.
  destruct (ok && affordable ctx rates u t) eqn:E.
  - apply andb_true_iff in E as [-> Ha]. destruct (proj1 Hok eq_refl) as [Hl Ht].
    apply elem_of_cons in Hin as [->|Hin].
    + exists t. by split_and!; [left|..].
    + destruct (Hrest tid Hin) as (t' & Ht' & Hrest'). exists t'. split; [by right | done].
  - destruct (Hrest tid Hin) as (t' & Ht' & Hrest'). exists t'. split; [by right | done].
Qed.

Lemma thrifty_all_completed now uid sids : thrifty (all_completed now uid sids).
Proof.
  induction sids as [|sid sids IH]; [apply thrifty_ret|]. cbn [all_completed].
  unfold get_progress_for_step, select in *. run_thrifty.
Qed.
#[local] Hint Resolve thrifty_all_completed : css.

Lemma thrifty_authorized now ctx rates u ts : thrifty (authorized_tools now ctx rates u ts).
Proof.
  induction ts as [|t ts IH]; [apply thrifty_ret|]. simpl. apply thrifty_bind.
  - apply thrifty_within. unfold user_is_authorized_for_tool, tool_is_locked_out, tool_has_training_steps,
      user_has_active_waiver, user_has_completed_all_training_steps, select. run_thrifty.
  - intros ok. apply thrifty_bind; [exact IH | intros rest; apply thrifty_ret].
Qed.

(** One line of the list, of a member in [us] over the tools in [ts]. *)
Definition line_of (unread : list uuid) (now : instant) (db : GuardDb) (us : list User) (ts : list Tool)
    (su : ToolGuard.SyncUser) : Prop :=
  exists u authorized d, u ∈ us /\ su = sync_user u authorized d /\
    d ∈ identifiers cfg (card_rows_of db) u /\
    forall tid, tid ∈ authorized -> exists t, t ∈ ts /\ tool_id t = tid /\ gates_pass unread now db u t.

Lemma line_of_more unread unread' now db us us' ts su :
  unread ⊆ unread' -> us ⊆ us' -> line_of unread now db us ts su -> line_of unread' now db us' ts su.
Proof.
  intros Hun Hus (u & au & d & Hu & -> & Hd & Hau). exists u, au, d. split_and!; [by apply Hus | done..|].
  intros tid Htid. destruct (Hau tid Htid) as (t & Ht & He & Hg). exists t. split_and!; [done..|].
  by eapply gates_pass_more.
Qed.

(** What the lines of one member rest on. *)
Lemma spends_lines now levels al rows rates ts u :
  spends (match identifiers cfg rows u with
          | [] => mret []
          | ids =>
              ctx ← metered_ctx (metered_gate cfg) levels al u;
              authorized ← authorized_tools now ctx rates u ts;
              mret match authorized with [] => [] | _ => sync_user u authorized <$> ids end
          end)
    (fun db n mine => al = active_level_in db -> rows = card_rows_of db -> rates = rates_in db ->
      default 0 (levels !! user_id u) = level_in db (user_id u) ->
      exists unread, (length unread <= n)%nat /\ forall su, su ∈ mine -> line_of unread now db [u] ts su).
Proof.
  destruct (identifiers cfg rows u) as [|d ds] eqn:Ed; [|rewrite <- Ed; clear d ds Ed].
  { apply spends_ret. intros db _ _ _ _. exists []. split; [done|]. intros su Hin. by apply not_elem_of_nil in Hin. }
  eapply spends_bind; [apply spends_ctx|]. intros ctx.
  eapply spends_look; [apply thrifty_authorized | apply reads_authorized|]. intros authorized. apply spends_ret.
  intros db Ha i Hc Hal Hrows Hrates Hl. destruct (Hc Hal Hl) as (unread & Hn & Hctx). exists unread.
  split; [lia|]. intros su Hin.
  destruct authorized as [|a0 al0] eqn:Eauth; [by apply not_elem_of_nil in Hin|].
  rewrite <- Eauth in *. apply list_elem_of_fmap in Hin as (d' & -> & Hd').
  exists u, authorized, d'. split_and!; [by left | done | by rewrite <- Hrows |].
  intros tid Htid. destruct (Ha tid Htid) as (t & Ht & <- & Hp & Htr & Haf).
  exists t. split_and!; [done..|]. split; [done | done|].
  intros g Hg. unfold ctx_in in Hctx. rewrite Hg in Hctx. destruct Hctx as (a & Hav & ->).
  exists a. split; [done|]. unfold affordable in Haf. rewrite Hrates, rate_for_effective in Haf.
  exact Haf.
Qed.

Lemma spends_sync_users now levels al rows rates ts us :
  spends (sync_users cfg now (metered_gate cfg) levels al rows rates ts us) (fun db n l =>
    al = active_level_in db -> rows = card_rows_of db -> rates = rates_in db ->
    (forall u, u ∈ us -> default 0 (levels !! user_id u) = level_in db (user_id u)) ->
    exists unread, (length unread <= n)%nat /\ forall su, su ∈ l -> line_of unread now db us ts su).
Proof.
  induction us as [|u us IH]; cbn [sync_users].
  { apply spends_ret. intros db _ _ _ _. exists []. split; [done|]. intros su Hin. by apply not_elem_of_nil in Hin. }
  eapply spends_bind; [apply spends_lines|]. intros mine.
  eapply spends_bind; [apply IH|]. intros rest. apply spends_ret.
  intros db i Hrest j Hmine Hal Hrows Hrates Hl.
  destruct (Hmine Hal Hrows Hrates) as (un1 & Hn1 & H1); [apply Hl; by left|].
  destruct (Hrest Hal Hrows Hrates) as (un2 & Hn2 & H2); [intros v Hv; apply Hl; by right|].
  exists (un1 ++ un2). split; [rewrite length_app; lia|]. intros su [Hin|Hin]%elem_of_app.
  - eapply line_of_more; [| |by apply H1]; set_solver.
  - eapply line_of_more; [| |by apply H2]; set_solver.
Qed.

(** The members and the tools of the list. *)
Definition listed (db : GuardDb) (us : list User) : Prop :=
  forall u, u ∈ us -> exists k, users (money_of db) !! k = Some u.

Lemma elem_of_rows {A} (m : gmap uuid A) x : x ∈ (map_to_list m).*2 <-> exists k, m !! k = Some x.
Proof.
  rewrite list_elem_of_fmap. split.
  - intros ([k y] & -> & Hin). exists k. by apply elem_of_map_to_list in Hin.
  - intros [k Hk]. exists (k, x). split; [done|]. by apply elem_of_map_to_list.
Qed.

Lemma bound_spec db did rid :
  rid ∈ remove_dups (List.filter (fun rid => is_some (tools (money_of db) !! rid))
    (binding_resource <$> List.filter (fun b => binding_device b ≟ did) (bindings db))) ->
  is_bound db did rid = true.
Proof.
  rewrite elem_of_remove_dups, elem_of_lfilter. intros [Hin _].
  apply list_elem_of_fmap in Hin as (b & -> & Hb). apply elem_of_lfilter in Hb as [Hb Hd].
  unfold is_bound. apply existsb_elem. exists b. split; [done|]. rewrite Hd. simpl.
  by apply bool_decide_eq_true.
Qed.

Definition lines_ok (unread : list uuid) (now : instant) (db : GuardDb) (did : uuid) (us : list ToolGuard.SyncUser) : Prop :=
  forall su, su ∈ us -> exists u k authorized d, users (money_of db) !! k = Some u /\
    su = sync_user u authorized d /\ d ∈ identifiers cfg (card_rows_of db) u /\
    forall tid, tid ∈ authorized -> exists t, bound_tool db did t /\ tool_id t = tid /\ gates_pass unread now db u t.

Definition tools_ok (db : GuardDb) (did : uuid) (sts : list ToolGuard.SyncTool) : Prop :=
  forall st, st ∈ sts -> exists t, bound_tool db did t /\ st = sync_tool (metered_gate cfg) t.

Lemma spends_sync_data now did :
  spends (get_toolguard_sync_data cfg now did (metered_gate cfg)) (fun db n r =>
    exists unread, (length unread <= n)%nat /\ lines_ok unread now db did r.1 /\ tools_ok db did r.2).
Proof.
  eapply spends_look; [by apply thrifty_call | apply reads_select|]. intros us.
  eapply spends_look; [by apply thrifty_call | apply reads_select|]. intros bound.
  eapply spends_look; [by apply thrifty_call | apply reads_select|]. intros ts.
  eapply spends_look; [by apply thrifty_call | apply reads_select|]. intros rows.
  eapply spends_look; [repeat apply thrifty_within; by apply thrifty_call | apply reads_money_select|]. intros rates.
  eapply spends_look; [repeat apply thrifty_within; by apply thrifty_call | apply reads_money_select|]. intros levels.
  eapply spends_look; [repeat apply thrifty_within; by apply thrifty_peek | |].
  { apply reads_money. instantiate (1 := fun d g => g = rbac d). by intros db fs. }
  intros graph. eapply spends_bind; [apply spends_sync_users|]. intros l. apply spends_ret.
  intros db i Hl Hgraph Hlevels Hrates Hrows Hts Hbound Hus. simpl in *.
  assert (forall t, t ∈ ts -> bound_tool db did t) as Hbt.
  { intros t. rewrite Hts, elem_of_lfilter, elem_of_rows. intros [Ht Hb].
    apply bool_decide_eq_true in Hb. rewrite Hbound in Hb. split; [by apply bound_spec | exact Ht]. }
  destruct (Hl ltac:(by rewrite Hgraph) Hrows Hrates) as (unread & Hn & Hline).
  { intros u Hu. rewrite Hlevels. apply levels_fold. by apply list_elem_of_fmap_2. }
  exists unread. split; [lia|]. split.
  - intros su Hin. destruct (Hline su Hin) as (u & au & d & Hu & -> & Hd & Hau).
    rewrite Hus in Hu. apply elem_of_rows in Hu as [k Hk]. exists u, k, au, d.
    split_and!; [done..|]. intros tid Htid. destruct (Hau tid Htid) as (t & Ht & He & Hg).
    exists t. by split_and!; [apply Hbt|..].
  - intros st Hst. apply list_elem_of_fmap in Hst as (t & -> & Ht).
    apply elem_of_lfilter in Ht as [Ht _]. exists t. split; [by apply Hbt | done].
Qed.

(** ** The schedules *)

(** A tool outside its schedule is closed, if there are schedules at all. *)
Definition on_schedule (now : instant) (db : GuardDb) (t : Tool) : Prop :=
  schedules db <> [] -> is_none_or (schedule_id t) (fun sid => negb (closed_now now (schedules db) sid)) = true.

Lemma reads_closed now : reads (closed_tool_ids_now error_text now) (fun db closed =>
  forall t, tool_there db t -> tool_id t ∉ closed -> on_schedule now db t).
Proof.
  eapply reads_bind; [apply reads_internal, reads_select|]. intros [|s scheds].
  { apply reads_ret. intros db Hs t _ _ Hne. by rewrite <- Hs in Hne. }
  eapply reads_bind; [apply reads_internal, reads_select|]. intros rows. apply reads_ret.
  intros db -> Hs t [k Ht] Hno _. rewrite <- Hs.
  destruct (schedule_id t) as [sid|] eqn:Es; [|done]. simpl.
  destruct (closed_now now (s :: scheds) sid) eqn:Ec; [|done]. exfalso. apply Hno.
  apply list_elem_of_omap. exists (tool_id t, schedule_id t). split.
  - apply list_elem_of_fmap. exists t. split; [done|]. apply elem_of_rows. by exists k.
  - simpl. by rewrite Es; simpl; rewrite Ec.
Qed.

Lemma thrifty_closed now : thrifty (closed_tool_ids_now error_text now).
Proof. unfold closed_tool_ids_now, internal, list_schedules, tool_schedules, select. run_thrifty. Qed.

Definition payload_ok (unread : list uuid) (now : instant) (db : GuardDb) (did : uuid) (p : ToolGuard.SyncPayload) : Prop :=
  lines_ok unread now db did (ToolGuard.sp_users p) /\ tools_ok db did (ToolGuard.sp_tools p) /\
  forall st t, st ∈ ToolGuard.sp_tools p -> tool_there db t -> tool_id t = ToolGuard.st_id st -> on_schedule now db t.

Lemma spends_payload now did :
  spends (build_sync_payload error_text cfg now did) (fun db n p =>
    exists unread, (length unread <= n)%nat /\ payload_ok unread now db did p).
Proof.
  eapply spends_bind; [apply spends_map_err, spends_sync_data|]. intros [us sts].
  eapply spends_look; [apply thrifty_closed | apply reads_closed|]. intros closed. apply spends_ret.
  intros db Hc i (unread & Hn & Hu & Ht). exists unread. split; [lia|]. simpl in Hu, Ht. split_and!; simpl.
  - intros su Hin. apply list_elem_of_fmap in Hin as (su0 & -> & Hin).
    destruct (Hu su0 Hin) as (u & k & au & d & Hk & -> & Hd & Hau).
    eexists u, k, _, d. split_and!; [done | reflexivity | done|].
    intros tid [Htid _]%elem_of_lfilter. by apply Hau.
  - intros st [Hin _]%elem_of_lfilter. by apply Ht.
  - intros st t [Hin Hno]%elem_of_lfilter Hthere He.
    apply Hc; [done|]. rewrite He. by apply negb_true_iff, bool_decide_eq_false in Hno.
Qed.

(** ** The doors *)

Definition strike_in (db : GuardDb) (rid : uuid) : Access.StrikeProfile :=
  default {| Access.sp_pulse_ms := default_unlock_duration_ms cfg;
             Access.sp_hold_open_access := true |} (Access.door_strike (strike_rows db rid)).

(** A door's lists, from the state. *)
Definition compiled (now : instant) (db : GuardDb) (door : Access.DoorRow) : Doors.CompiledDoor :=
  let us := active_users (money_of db) in
  Access.compile_door door
    (List.filter (fun r => Access.ar_resource_id r ≟ Access.door_id door) (access_rules db))
    (strike_in db (Access.door_id door))
    (digests_of (profile_field cfg) (card_cipher cfg) db us) (schedules db) now
    (rbac (money_of db)) (levels_of (money_of db) (user_id <$> us)).

Lemma compiled_id now db door : Doors.cd_id (compiled now db door) = Access.door_id door.
Proof. unfold compiled, Access.compile_door. by destruct (Access.expand_rules_at _ _ _ _ _ _). Qed.

Lemma reads_rbac : reads (lift (money_call rbac_graph)) (fun db g => g = rbac (money_of db)).
Proof. apply reads_lifted, (reads_money _ (fun d g => g = rbac d)). by intros db fs. Qed.

Lemma reads_strike_in rid : reads (strike_profile cfg rid) (fun db s => s = strike_in db rid).
Proof.
  eapply reads_bind; [apply reads_lifted, reads_select|]. intros s. by apply reads_ret; intros db ->.
Qed.

Lemma reads_compile_doors now scheds cards levels ds :
  reads (compile_doors cfg now scheds cards levels ds) (fun db l =>
    scheds = schedules db ->
    cards = digests_of (profile_field cfg) (card_cipher cfg) db (active_users (money_of db)) ->
    levels = levels_of (money_of db) (user_id <$> active_users (money_of db)) ->
    l = compiled now db <$> ds).
Proof.
  induction ds as [|door ds IH]; cbn [compile_doors]; [by apply reads_ret|].
  eapply reads_bind; [apply reads_lifted, reads_select|]. intros rules.
  eapply reads_bind; [apply reads_rbac|]. intros g.
  eapply reads_bind; [apply reads_strike_in|]. intros strike.
  eapply reads_bind; [apply IH|]. intros rest. apply reads_ret.
  intros db Hrest -> -> -> Hs Hc Hl. rewrite (Hrest Hs Hc Hl), Hs, Hc, Hl. done.
Qed.

Lemma reads_compile now did :
  reads (compile_state_for cfg now did) (fun db snap =>
    Doors.snap_doors snap = compiled now db <$> coordinated_doors db did).
Proof.
  eapply reads_bind; [apply reads_lifted, reads_select|]. intros [|d ds].
  { apply reads_ret. by intros db <-. }
  eapply reads_bind; [apply reads_lifted, reads_money_select|]. intros us.
  eapply reads_bind; [apply reads_lifted, reads_select|]. intros scheds.
  eapply reads_bind; [apply reads_lifted, reads_money_select|]. intros levels.
  eapply reads_bind; [apply reads_lifted, reads_select|]. intros cards.
  eapply reads_bind; [apply reads_compile_doors|]. intros l. apply reads_ret.
  intros db Hl Hc Hlv Hs Hus Hds. cbn [Doors.snap_doors]. rewrite <- Hds. by apply Hl; [|rewrite <- Hus..].
Qed.

(** ** The policy *)

Lemma reads_tool_policies profiles busy ts :
  reads (tool_policies profiles busy ts) (fun _ l => forall r, r ∈ l ->
    exists st pulse, st ∈ ts /\ r = tool_policy profiles busy st pulse).
Proof.
  induction ts as [|t ts IH]; cbn [tool_policies].
  { apply reads_ret. intros db r Hr. by apply not_elem_of_nil in Hr. }
  eapply reads_bind; [apply reads_lifted, reads_select|]. intros strike.
  eapply reads_bind; [apply IH|]. intros rest. apply reads_ret.
  intros db Hrest _ r [->|Hr]%elem_of_cons; [eexists t, _; split; [by left | done]|].
  destruct (Hrest r Hr) as (st & pulse & Hst & ->). exists st, pulse. split; [by right | done].
Qed.

Definition policy_ok (unread : list uuid) (now : instant) (db : GuardDb) (did : uuid) (p : Wire.ResourcePolicyPayload) : Prop :=
  exists sync profiles busy, payload_ok unread now db did sync /\
    Wire.rpp_as_of p = to_rfc3339 now /\
    Wire.rpp_principals p = principal <$> ToolGuard.sp_users sync /\
    forall r, r ∈ Wire.rpp_resources p ->
      (exists st pulse, st ∈ ToolGuard.sp_tools sync /\ r = tool_policy profiles busy st pulse) \/
      (exists door, door ∈ coordinated_doors db did /\
         r = door_policy to_rfc3339 profiles busy (compiled now db door)).

Lemma thrifty_compile now did : thrifty (compile_state_for cfg now did).
Proof.
  unfold compile_state_for. apply thrifty_bind; [by apply thrifty_map_err, thrifty_call|].
  intros [|d ds]; [apply thrifty_ret|]. generalize (d :: ds). clear d ds. intros ds.
  unfold list_active_users, list_schedules, effective_levels_for, card_digests_by_user, select.
  do 4 (apply thrifty_bind; [run_thrifty|]; intros ?).
  apply thrifty_bind; [|intros; apply thrifty_ret].
  induction ds as [|door ds IH]; [apply thrifty_ret|]. cbn [compile_doors].
  unfold list_rules_for_door, strike_profile, door_strike, rbac_graph, select.
  do 3 (apply thrifty_bind; [run_thrifty|]; intros ?).
  apply thrifty_bind; [exact IH | intros; apply thrifty_ret].
Qed.

Lemma thrifty_tool_policies profiles busy ts : thrifty (tool_policies profiles busy ts).
Proof.
  induction ts as [|t ts IH]; [apply thrifty_ret|]. cbn [tool_policies]. unfold door_strike, select.
  apply thrifty_bind; [run_thrifty|]. intros strike. apply thrifty_bind; [exact IH | intros; apply thrifty_ret].
Qed.

Lemma spends_policy now did :
  spends (build_resource_policy error_text to_rfc3339 cfg now did) (fun db n p =>
    exists unread, (length unread <= n)%nat /\ policy_ok unread now db did p).
Proof.
  eapply spends_bind; [apply spends_payload|]. intros sync.
  eapply spends_look; [apply thrifty_compile | apply reads_compile|]. intros snap.
  eapply spends_look; [by apply thrifty_map_err, thrifty_call | apply reads_lifted, reads_select|]. intros profiles.
  eapply spends_look; [apply thrifty_map_err; unfold get_inuse_tools, select; run_thrifty | apply reads_lifted, reads_inuse|].
  intros busy.
  eapply spends_look; [by apply thrifty_map_err, thrifty_call | apply reads_lifted, reads_select|]. intros rooms.
  eapply spends_look; [apply thrifty_tool_policies | apply reads_tool_policies|]. intros l. apply spends_ret.
  intros db Hl _ _ _ Hsnap i (unread & Hn & Hsync). exists unread. split; [lia|].
  eexists sync, profiles, _. split_and!; [done..|].
  simpl. intros r [Hr|Hr]%elem_of_app; [left; apply Hl, Hr|]. right.
  rewrite Hsnap in Hr. apply list_elem_of_fmap in Hr as (cd & -> & Hr).
  apply list_elem_of_fmap in Hr as (door & -> & Hd). by exists door.
Qed.

(** ** At the edge *)

(** What entitled a badge at a tool, when the policy was built. *)
Definition tool_entitled (unread : list uuid) (now : instant) (db : GuardDb) (did : uuid) (t : Tool) (token : string) : Prop :=
  bound_tool db did t /\ tool_status t = Idle /\ on_schedule now db t /\
  (forall g, metered_gate cfg = Some g -> ToolBilling.requires_online g t = false) /\
  exists k u, users (money_of db) !! k = Some u /\ is_active u = true /\ shown_as db u token /\
    gates_pass unread now db u t.

(** And at a door, at the instant of the badge. *)
Definition door_entitled (now later : instant) (db : GuardDb) (did : uuid) (door : Access.DoorRow)
    (token : string) : Prop :=
  door ∈ coordinated_doors db did /\
  let d := compiled now db door in
  Doors.cd_enabled d = true /\ token ∉ Doors.deny_cards d /\
  (token ∈ Doors.allow_cards d \/ exists until, Doors.hold_unlock_until d = Some until /\ later < until).

Section edge.
Context (parse_rfc3339 : Resources.timestamp_parser).
Context (parse_to : forall t, parse_rfc3339 (to_rfc3339 t) = Some t).

Lemma from_tool_policy profiles busy st pulse :
  exists e, Resources.from_policy parse_rfc3339 (tool_policy profiles busy st pulse) = Some e /\
    Resources.e_id e = ToolGuard.st_id st /\ Resources.e_external_id e = ToolGuard.st_external_id st /\
    Resources.e_allow e = [] /\ Resources.e_hold_until e = None /\
    Resources.e_status e = Resources.status_word (ToolGuard.st_status st) /\
    Resources.e_requires_online e = ToolGuard.st_requires_online st.
Proof.
  unfold Resources.from_policy, tool_policy. destruct (default _ _) as [kind profile]. simpl.
  rewrite uuid_parse_show. by eexists.
Qed.

Lemma from_door_policy profiles busy d :
  exists e, Resources.from_policy parse_rfc3339 (door_policy to_rfc3339 profiles busy d) = Some e /\
    Resources.e_id e = Doors.cd_id d /\ Resources.e_external_id e = None /\
    Resources.e_enabled e = Doors.cd_enabled d /\ Resources.e_allow e = Doors.allow_cards d /\
    Resources.e_deny e = Doors.deny_cards d /\ Resources.e_hold_until e = Doors.hold_unlock_until d.
Proof.
  unfold Resources.from_policy, door_policy. simpl. rewrite uuid_parse_show. eexists.
  split; [done|]. split_and!; try done. simpl. by destruct (Doors.hold_unlock_until d); simpl; rewrite ?parse_to.
Qed.

(** An entry of a policy applied to a cache that takes it. *)
Lemma applied unread now did db p requested c :
  policy_ok unread now db did p -> Resources.is_stale (Resources.policy c) now = false ->
  exists sync profiles busy, payload_ok unread now db did sync /\
    Resources.members (Resources.policy (Resources.apply_policy parse_rfc3339 p requested c)) =
      Resources.from_principal <$> (principal <$> ToolGuard.sp_users sync) /\
    forall e, e ∈ Resources.entries (Resources.policy (Resources.apply_policy parse_rfc3339 p requested c)) ->
      (exists st pulse, st ∈ ToolGuard.sp_tools sync /\
         Resources.from_policy parse_rfc3339 (tool_policy profiles busy st pulse) = Some e) \/
      (exists door, door ∈ coordinated_doors db did /\
         Resources.from_policy parse_rfc3339
           (door_policy to_rfc3339 profiles busy (compiled now db door)) = Some e).
Proof.
  intros (sync & profiles & busy & Hs & Hof & Hp & Hr) Hst. exists sync, profiles, busy.
  unfold Resources.apply_policy, Resources.policy_of. rewrite Hof, parse_to. cbn [is_some_and].
  rewrite Hst. simpl. split; [done|]. split; [by rewrite Hp|].
  intros e He. apply list_elem_of_fmap in He as ([e' n] & -> & He).
  apply list_elem_of_omap in He as (r & Hin & He). simpl.
  destruct (Resources.from_policy parse_rfc3339 r) as [e0|] eqn:Er; [|done].
  injection He as -> _. destruct (Hr r Hin) as [(st & pulse & Hst' & ->)|(door & Hd & ->)].
  - left. by exists st, pulse.
  - right. by exists door.
Qed.

Lemma parse_shown (l : list uuid) : omap uuid_parse (uuid_show <$> l) = l.
Proof. induction l as [|x l IH]; csimpl; [done|]. by rewrite uuid_parse_show, IH. Qed.

(** A principal of the list: the member behind it. *)
Lemma admitted_member unread now db did sync e token :
  payload_ok unread now db did sync ->
  Resources.principal_admits (Resources.from_principal <$> (principal <$> ToolGuard.sp_users sync)) e token ->
  exists k u t, users (money_of db) !! k = Some u /\ is_active u = true /\ shown_as db u token /\
    bound_tool db did t /\ tool_id t = Resources.e_id e /\ gates_pass unread now db u t.
Proof.
  intros [Hu _] (m & Hm & Ha & Hin & _). apply find_first_Some in Hm as [Hm Hd].
  apply bool_decide_eq_true in Hd. rewrite <- list_fmap_compose in Hm.
  apply list_elem_of_fmap in Hm as (su & -> & Hsu). simpl in *. rewrite parse_shown in Hin.
  destruct (Hu su Hsu) as (u & k & au & d & Hk & -> & Hid & Hau). simpl in *.
  destruct (Hau _ Hin) as (t & Hb & He & Hg). exists k, u, t. split_and!; try done. by exists d.
Qed.

Lemma one_tool db t t' :
  filed db -> tool_there db t -> tool_there db t' -> tool_id t = tool_id t' -> t = t'.
Proof.
  intros Hf [k Hk] [k' Hk'] He. pose proof (Hf _ _ Hk) as E. pose proof (Hf _ _ Hk') as E'.
  subst k k'. congruence.
Qed.

Lemma coordinated_there db did door :
  door ∈ coordinated_doors db did -> exists i, doors db !! i = Some door.
Proof.
  intros Hd. apply list_elem_of_omap in Hd as (b & _ & Hb). destruct (_ && _); [|done].
  by exists (binding_resource b).
Qed.

Lemma tool_from_status t : Resources.status_word (wire_status (tool_status t)) = String.EmptyString \/
  Resources.status_word (wire_status (tool_status t)) = "idle"%string -> tool_status t = Idle.
Proof. by destruct (tool_status t); intros [?|?]. Qed.

(** C4. A policy the server built, under whatever faults, from rows filed under their
    identifiers and doors that share none with a tool, and an edge that took it in, while
    it is not stale:
    every badge the edge lets in without asking is at a tool bound to it that was idle
    and on its schedule, from an active member whose card it is and whom power,
    training and money let through, or at a door it coordinates that is enabled and
    whose rules let the card in or hold it open -- all as the server had it when the
    policy was built.  Money is the member's balance less the holds, as the tables had
    it, but for no more members than the build met faults: a balance whose read failed is
    taken for 0. *)
Theorem offline_yes_is_entitled now did db fs st p :
  filed db ->
  (forall t door i, tool_there db t -> doors db !! i = Some door -> tool_id t <> Access.door_id door) ->
  build_resource_policy error_text to_rfc3339 cfg now did (db, fs) = (st, inl p) ->
  exists unread, (length unread <= faulty fs)%nat /\
  forall requested c name card later k,
  Resources.is_stale (Resources.policy c) now = false ->
  let c' := Resources.apply_policy parse_rfc3339 p requested c in
  Resources.decide c' name card later = Resources.Allow k ->
  (exists t, (external_id t = Some name \/ uuid_show (tool_id t) = name) /\
     tool_entitled unread now db did t (Resources.token_of c' card)) \/
  (exists door, uuid_show (Access.door_id door) = name /\
     door_entitled now later db did door (Resources.token_of c' card)).
Proof.
  intros Hf Hkinds Hb. pose proof (spends_policy now did db fs) as Hp. rewrite Hb in Hp.
  destruct st as [db' fs']. destruct Hp as (_ & n & Hle & unread & Hun & Hp). exists unread. split; [lia|].
  intros requested c name card later k Hst c'.
  destruct (applied unread now did db p requested c Hp Hst) as (sync & profiles & busy & Hs & Hm & He).
  fold c' in Hm, He. rewrite Resources.decide_allow.
  intros (_ & _ & e & Hfind & Hen & Hdeny & Hway). apply find_first_Some in Hfind as [Hin Hname].
  unfold Resources.named in Hname. apply orb_true_iff in Hname.
  pose proof (fun Hadm => admitted_member unread now db did sync e (Resources.token_of c' card) Hs Hadm) as Hmem.
  rewrite Hm in Hway.
  destruct (He e Hin) as [(st & pulse & Hst' & Hfrom)|(door & Hd & Hfrom)].
  - left. destruct (from_tool_policy profiles busy st pulse) as (e' & Hfrom' & Hid & Hext & Hal & Hho & Hstat & Hon).
    rewrite Hfrom' in Hfrom. injection Hfrom as ->.
    destruct Hway as [[(until & Hu & _)|Hin']|[Honl Hadm]]; [congruence | rewrite Hal in Hin'; by apply not_elem_of_nil in Hin'|].
    destruct (Hmem Hadm) as (i & u & t & Hu & Ha & Hsh & Hbt & Hti & Hg).
    destruct (proj1 (proj2 Hs) st Hst') as (t' & Hbt' & ->).
    assert (t' = t) as -> by (apply (one_tool db t' t Hf (proj2 Hbt') (proj2 Hbt)); by rewrite Hti, Hid).
    exists t. split.
    + destruct Hname as [Hn|Hn]; apply bool_decide_eq_true in Hn; [left | right]; simpl in *; congruence.
    + split_and!; [done | | by apply (proj2 (proj2 Hs) _ t Hst'); [apply Hbt|] | | by exists i, u].
      * apply tool_from_status. destruct Hadm as (m & _ & _ & _ & Hw). by rewrite Hstat in Hw.
      * intros g Hgate. rewrite Hon in Honl. simpl in Honl. by rewrite Hgate in Honl.
  - right. destruct (from_door_policy profiles busy (compiled now db door)) as (e' & Hfrom' & Hid & Hext & Hen' & Hal & Hde & Hho).
    rewrite Hfrom' in Hfrom. injection Hfrom as ->. exists door. split.
    + destruct Hname as [Hn|Hn]; apply bool_decide_eq_true in Hn; [congruence|]. by rewrite Hid, compiled_id in Hn.
    + split; [done|]. split; [by rewrite <- Hen'|]. split; [by rewrite <- Hde|].
      destruct Hway as [[(until & Hu & Hlt)|Hin']|[_ Hadm]].
      * right. exists until. by rewrite <- Hho.
      * left. by rewrite <- Hal.
      * exfalso. destruct (Hmem Hadm) as (i & u & t & _ & _ & _ & [_ Hthere] & Hti & _).
        apply coordinated_there in Hd as [j Hd]. apply (Hkinds t door j Hthere Hd).
        by rewrite Hti, Hid, compiled_id.
Qed.

End edge.

End Entitlement.
End Entitlement.
