(* ===== verification/Cmi5Manifest.v ===== *)
(** * The course-structure manifest ([cmi5/src/manifest.rs])

    The tree of blocks and assignable units a [cmi5.xml] describes, its parser
    and its writer.  Both work on the events of the quick-xml crate: the bytes are
    that crate's side, what a writer's events read back as is a relation here. *)
From S2P Require Import Prelude Text Wire.
From Stdlib Require Import SpecFloat.
Import Wire F64Parse F64Display.

Module Manifest.

(** ** Errors *)

Inductive ManifestError : Type :=
  | Xml (message : string)
  | MissingElement (element : string)
  | MissingAttribute (element attribute : string)
  | BadMoveOn (value : string)
  | BadLaunchMethod (value : string)
  | BadMasteryScore (value : string)
  | UnexpectedEof (element : string).

(** ** The course *)

Inductive MoveOn : Type :=
  | Passed | Completed | CompletedAndPassed | CompletedOrPassed | NotApplicable.

#[global] Instance MoveOn_eq_dec : EqDecision MoveOn.
Proof. solve_decision. Defined.

Definition move_on_as_str (m : MoveOn) : string :=
  match m with
  | Passed => "Passed"
  | Completed => "Completed"
  | CompletedAndPassed => "CompletedAndPassed"
  | CompletedOrPassed => "CompletedOrPassed"
  | NotApplicable => "NotApplicable"
  end.

Definition move_on_parse (s : string) : MoveOn + ManifestError :=
  if s ≟ "Passed" then inl Passed
  else if s ≟ "Completed" then inl Completed
  else if s ≟ "CompletedAndPassed" then inl CompletedAndPassed
  else if s ≟ "CompletedOrPassed" then inl CompletedOrPassed
  else if s ≟ "NotApplicable" then inl NotApplicable
  else inr (BadMoveOn s).

Inductive LaunchMethod : Type := AnyWindow | OwnWindow.

Definition launch_method_as_str (m : LaunchMethod) : string :=
  match m with AnyWindow => "AnyWindow" | OwnWindow => "OwnWindow" end.

Definition launch_method_parse (s : string) : LaunchMethod + ManifestError :=
  if s ≟ "AnyWindow" then inl AnyWindow
  else if s ≟ "OwnWindow" then inl OwnWindow
  else inr (BadLaunchMethod s).

Record LangString := { lang : string; value : string }.

Record Course := {
  course_id : string;
  course_title : list LangString;
  course_description : list LangString;
}.

Record Objective := {
  objective_id : string;
  objective_title : list LangString;
  objective_description : list LangString;
}.

Record AssignableUnit := {
  au_id : string;
  au_move_on : MoveOn;
  mastery_score : option f64;
  launch_method : option LaunchMethod;
  au_title : list LangString;
  au_description : list LangString;
  au_objective_ids : list string;
  au_url : string;
  launch_parameters : option string;
  entitlement_key : option string;
}.

(** A block, over the type of its children. *)
Record BlockOf (N : Type) := {
  block_id : string;
  block_title : list LangString;
  block_description : list LangString;
  block_objective_ids : list string;
  children : list N;
}.
#[global] Arguments Build_BlockOf {_}.
#[global] Arguments block_id {_}.
#[global] Arguments block_title {_}.
#[global] Arguments block_description {_}.
#[global] Arguments block_objective_ids {_}.
#[global] Arguments children {_}.

Inductive Node : Type :=
  | NodeBlock (b : BlockOf Node)
  | NodeAu (au : AssignableUnit).

Abbreviation Block := (BlockOf Node).

Record CourseStructure := {
  course : Course;
  objectives : list Objective;
  nodes : list Node;
}.

(** [collect_aus]: in document order, whatever the depth. *)
Fixpoint node_aus (n : Node) : list AssignableUnit :=
  match n with
  | NodeAu au => [au]
  | NodeBlock b => mjoin (node_aus <$> children b)
  end.

Definition collect_aus (ns : list Node) : list AssignableUnit := mjoin (node_aus <$> ns).
Definition assignable_units (cs : CourseStructure) : list AssignableUnit := collect_aus (nodes cs).

(** ** quick-xml's events

    Names are local names.  Reading an attribute list or a value can fail with
    the crate's message; so can reading the next event. *)

Inductive Attribute : Type :=
  | Attr (key : string) (value : string + string)
  | BadAttr (message : string).

Inductive Event : Type :=
  | Start (name : string) (attrs : list Attribute)
  | Empty (name : string) (attrs : list Attribute)
  | End_ (name : string)
  | Text (s : string)
  | CData (s : string)
  | GeneralRef (name : string)
  | OtherEvent.

Abbreviation stream := (list (Event + string)).

(** What the crate makes of a reference: of a numeric one, a character. *)
Class QuickXml := {
  resolve_char_ref : string -> option string + string;
  resolve_predefined_entity : string -> option string;
}.

(** ** Reading

    A parser takes events off the reader. *)

Inductive outcome (A : Type) : Type :=
  | Ok (a : A) (rest : stream)
  | Err (e : ManifestError)
  | OutOfFuel.
#[global] Arguments Ok {_}.
#[global] Arguments Err {_}.
#[global] Arguments OutOfFuel {_}.

Definition Parser (A : Type) : Type := stream -> outcome A.

#[global] Instance Parser_ret : MRet Parser := fun A a evs => Ok a evs.
#[global] Instance Parser_bind : MBind Parser := fun A B k p evs =>
  match p evs with
  | Ok a rest => k a rest
  | Err e => Err e
  | OutOfFuel => OutOfFuel
  end.

(** [?] on a computation that reads nothing. *)
Definition lift {A} (r : A + ManifestError) : Parser A := fun evs =>
  match r with inl a => Ok a evs | inr e => Err e end.

(** [loop { match reader.read_event()? { ... } }]: the body goes round again with
    [inl], breaks with [inr]; the end of the document is the loop's own error. *)
Fixpoint read_loop {T A} (fuel : nat) (eof : ManifestError) (body : T -> Event -> Parser (T + A))
    (s : T) : Parser A := fun evs =>
  match fuel with
  | O => OutOfFuel
  | S fuel =>
      match evs with
      | [] => Err eof
      | inr message :: _ => Err (Xml message)
      | inl ev :: rest =>
          match body s ev rest with
          | Ok (inl s) rest => read_loop fuel eof body s rest
          | Ok (inr a) rest => Ok a rest
          | Err e => Err e
          | OutOfFuel => OutOfFuel
          end
      end
  end.

(** Every turn takes an event, so as many turns as there are events suffice. *)
Definition loop {T A} (eof : ManifestError) (body : T -> Event -> Parser (T + A)) (s : T)
    : Parser A := fun evs => read_loop (S (length evs)) eof body s evs.

Definition continue {T A} (s : T) : Parser (T + A) := mret (inl s).
Definition break {T A} (a : A) : Parser (T + A) := mret (inr a).

(** The value of the first attribute of that local name. *)
Fixpoint attr (attrs : list Attribute) (want : string) : option string + ManifestError :=
  match attrs with
  | [] => inl None
  | BadAttr message :: _ => inr (Xml message)
  | Attr key v :: attrs =>
      if key ≟ want then
        match v with inl v => inl (Some v) | inr message => inr (Xml message) end
      else attr attrs want
  end.

Definition required (element attribute : string) (v : option string) : Parser string :=
  lift (match v with Some v => inl v | None => inr (MissingAttribute element attribute) end).

Section parse.
Context {X : QuickXml}.

(** One event of a text: literal runs, and references put back as characters. *)
Definition text_step (end_tag text : string) (ev : Event) : Parser (string + string) :=
  match ev with
  | Text s | CData s => continue (text +:+ s)
  | GeneralRef name =>
      match resolve_char_ref name with
      | inr message => lift (inr (Xml message))
      | inl (Some c) => continue (text +:+ c)
      | inl None =>
          match resolve_predefined_entity name with
          | Some replacement => continue (text +:+ replacement)
          | None => lift (inr (Xml ("unknown entity &" +:+ name +:+ ";")))
          end
      end
  | End_ n => if n ≟ end_tag then break text else continue text
  | _ => continue text
  end.

Definition parse_text (end_tag : string) : Parser string :=
  loop (UnexpectedEof "text") (text_step end_tag) EmptyString.

(** Up to the end tag matching [name], through nested elements of that name. *)
Definition skip_to_end (name : string) : Parser unit :=
  loop (UnexpectedEof "element") (fun (depth : nat) ev =>
    match ev with
    | Start n _ => continue (if n ≟ name then S depth else depth)
    | End_ n =>
        if n ≟ name then
          match (depth - 1)%nat with O => break tt | depth => continue depth end
        else continue depth
    | _ => continue depth
    end) 1%nat.

Definition parse_langstrings (end_tag : string) : Parser (list LangString) :=
  loop (UnexpectedEof "langstring") (fun out ev =>
    match ev with
    | Start n attrs =>
        if n ≟ "langstring" then
          l ← lift (attr attrs "lang");
          v ← parse_text "langstring";
          continue (out ++ [{| lang := default EmptyString l; value := v |}])
        else continue out
    | Empty n attrs =>
        if n ≟ "langstring" then
          l ← lift (attr attrs "lang");
          continue (out ++ [{| lang := default EmptyString l; value := EmptyString |}])
        else continue out
    | End_ n => if n ≟ end_tag then break out else continue out
    | _ => continue out
    end) [].

(** The references of an element, each by [idref] or else by [id]. *)
Definition parse_objective_refs : Parser (list string) :=
  loop (UnexpectedEof "objectives") (fun refs ev =>
    match ev with
    | Start n attrs | Empty n attrs =>
        if n ≟ "objective" then
          idref ← lift (attr attrs "idref");
          id ← lift (attr attrs "id");
          continue (refs ++ option_list (option_or idref id))
        else continue refs
    | End_ n => if n ≟ "objectives" then break refs else continue refs
    | _ => continue refs
    end) [].

(** The labels of a course and of an objective are read alike. *)
Definition parse_labels (end_tag : string) : Parser (list LangString * list LangString) :=
  loop (UnexpectedEof end_tag) (fun '(title, description) ev =>
    match ev with
    | Start n _ =>
        if n ≟ "title" then t ← parse_langstrings "title"; continue (t, description)
        else if n ≟ "description" then d ← parse_langstrings "description"; continue (title, d)
        else _ ← skip_to_end n; continue (title, description)
    | End_ n => if n ≟ end_tag then break (title, description) else continue (title, description)
    | _ => continue (title, description)
    end) ([], []).

Definition parse_course (attrs : list Attribute) (empty : bool) : Parser Course :=
  id ← lift (attr attrs "id");
  id ← required "course" "id" id;
  if empty then mret {| course_id := id; course_title := []; course_description := [] |}
  else
    td ← parse_labels "course";
    mret {| course_id := id; course_title := td.1; course_description := td.2 |}.

Definition parse_objectives : Parser (list Objective) :=
  loop (UnexpectedEof "objectives") (fun out ev =>
    match ev with
    | Start n attrs =>
        if n ≟ "objective" then
          id ← lift (attr attrs "id");
          id ← required "objective" "id" id;
          td ← parse_labels "objective";
          continue (out ++ [{| objective_id := id; objective_title := td.1;
                               objective_description := td.2 |}])
        else continue out
    | End_ n => if n ≟ "objectives" then break out else continue out
    | _ => continue out
    end) [].

(** The parts of a unit, as far as they have been read. *)
Record AuParts := {
  ap_title : list LangString;
  ap_description : list LangString;
  ap_objective_ids : list string;
  ap_url : option string;
  ap_launch_parameters : option string;
  ap_entitlement_key : option string;
}.

Definition no_parts : AuParts := {| ap_title := []; ap_description := []; ap_objective_ids := [];
  ap_url := None; ap_launch_parameters := None; ap_entitlement_key := None |}.
Definition set_title (v : list LangString) (p : AuParts) : AuParts := {| ap_title := v;
  ap_description := ap_description p; ap_objective_ids := ap_objective_ids p; ap_url := ap_url p;
  ap_launch_parameters := ap_launch_parameters p; ap_entitlement_key := ap_entitlement_key p |}.
Definition set_description (v : list LangString) (p : AuParts) : AuParts := {|
  ap_title := ap_title p; ap_description := v; ap_objective_ids := ap_objective_ids p;
  ap_url := ap_url p; ap_launch_parameters := ap_launch_parameters p;
  ap_entitlement_key := ap_entitlement_key p |}.
Definition set_objective_ids (v : list string) (p : AuParts) : AuParts := {|
  ap_title := ap_title p; ap_description := ap_description p; ap_objective_ids := v;
  ap_url := ap_url p; ap_launch_parameters := ap_launch_parameters p;
  ap_entitlement_key := ap_entitlement_key p |}.
Definition set_url (v : string) (p : AuParts) : AuParts := {| ap_title := ap_title p;
  ap_description := ap_description p; ap_objective_ids := ap_objective_ids p; ap_url := Some v;
  ap_launch_parameters := ap_launch_parameters p; ap_entitlement_key := ap_entitlement_key p |}.
Definition set_launch_parameters (v : string) (p : AuParts) : AuParts := {|
  ap_title := ap_title p; ap_description := ap_description p;
  ap_objective_ids := ap_objective_ids p; ap_url := ap_url p; ap_launch_parameters := Some v;
  ap_entitlement_key := ap_entitlement_key p |}.
Definition set_entitlement_key (v : string) (p : AuParts) : AuParts := {|
  ap_title := ap_title p; ap_description := ap_description p;
  ap_objective_ids := ap_objective_ids p; ap_url := ap_url p;
  ap_launch_parameters := ap_launch_parameters p; ap_entitlement_key := Some v |}.

(** [s.parse::<f64>()] within [0.0..=1.0]. *)
Definition parse_mastery_score (s : string) : f64 + ManifestError :=
  match parse_f64 s with
  | Some v => if SFleb (S754_zero false) v && SFleb v (SFone 53 1024) then inl v
              else inr (BadMasteryScore s)
  | None => inr (BadMasteryScore s)
  end.

Definition optional {A} (parse : string -> A + ManifestError) (v : option string)
    : Parser (option A) :=
  match v with
  | Some s => a ← lift (parse s); mret (Some a)
  | None => mret None
  end.

Definition parse_au_parts : Parser AuParts :=
  loop (UnexpectedEof "au") (fun p ev =>
    match ev with
    | Start n _ =>
        if n ≟ "title" then t ← parse_langstrings "title"; continue (set_title t p)
        else if n ≟ "description" then
          d ← parse_langstrings "description"; continue (set_description d p)
        else if n ≟ "objectives" then
          ids ← parse_objective_refs; continue (set_objective_ids ids p)
        else if n ≟ "url" then u ← parse_text "url"; continue (set_url u p)
        else if n ≟ "launchParameters" then
          v ← parse_text "launchParameters"; continue (set_launch_parameters v p)
        else if n ≟ "entitlementKey" then
          v ← parse_text "entitlementKey"; continue (set_entitlement_key v p)
        else _ ← skip_to_end n; continue p
    | Empty n _ =>
        continue (if n ≟ "url" then set_url EmptyString p
                  else if n ≟ "launchParameters" then set_launch_parameters EmptyString p
                  else if n ≟ "entitlementKey" then set_entitlement_key EmptyString p else p)
    | End_ n => if n ≟ "au" then break p else continue p
    | _ => continue p
    end) no_parts.

Definition parse_au (attrs : list Attribute) (empty : bool) : Parser AssignableUnit :=
  id ← lift (attr attrs "id");
  id ← required "au" "id" id;
  move_on ← lift (attr attrs "moveOn");
  move_on ← optional move_on_parse move_on;
  mastery ← lift (attr attrs "masteryScore");
  mastery ← optional parse_mastery_score mastery;
  method ← lift (attr attrs "launchMethod");
  method ← optional launch_method_parse method;
  if empty then lift (inr (MissingElement "url"))
  else
    p ← parse_au_parts;
    url ← lift (match ap_url p with Some u => inl u | None => inr (MissingElement "url") end);
    mret {| au_id := id; au_move_on := default NotApplicable move_on; mastery_score := mastery;
            launch_method := method; au_title := ap_title p; au_description := ap_description p;
            au_objective_ids := ap_objective_ids p; au_url := url;
            launch_parameters := ap_launch_parameters p;
            entitlement_key := ap_entitlement_key p |}.

(** What has been read of a block, the identifier apart. *)
Definition add_child (n : Node) (b : Block) : Block := {| block_id := block_id b;
  block_title := block_title b; block_description := block_description b;
  block_objective_ids := block_objective_ids b; children := children b ++ [n] |}.

Definition set_block_title (v : list LangString) (b : Block) : Block := {|
  block_id := block_id b; block_title := v; block_description := block_description b;
  block_objective_ids := block_objective_ids b; children := children b |}.
Definition set_block_description (v : list LangString) (b : Block) : Block := {|
  block_id := block_id b; block_title := block_title b; block_description := v;
  block_objective_ids := block_objective_ids b; children := children b |}.
Definition set_block_objective_ids (v : list string) (b : Block) : Block := {|
  block_id := block_id b; block_title := block_title b;
  block_description := block_description b; block_objective_ids := v; children := children b |}.

(** Blocks nest, so the recursion is on fuel. *)
Fixpoint parse_block (fuel : nat) (attrs : list Attribute) (empty : bool) : Parser Block :=
  match fuel with
  | O => fun _ => OutOfFuel
  | S fuel =>
      id ← lift (attr attrs "id");
      id ← required "block" "id" id;
      let b := {| block_id := id; block_title := []; block_description := [];
                  block_objective_ids := []; children := [] |} in
      if empty then mret b
      else loop (UnexpectedEof "block") (fun b ev =>
        match ev with
        | Start n attrs =>
            if n ≟ "title" then t ← parse_langstrings "title"; continue (set_block_title t b)
            else if n ≟ "description" then
              d ← parse_langstrings "description"; continue (set_block_description d b)
            else if n ≟ "objectives" then
              ids ← parse_objective_refs; continue (set_block_objective_ids ids b)
            else if n ≟ "block" then
              c ← parse_block fuel attrs false; continue (add_child (NodeBlock c) b)
            else if n ≟ "au" then
              au ← parse_au attrs false; continue (add_child (NodeAu au) b)
            else _ ← skip_to_end n; continue b
        | Empty n attrs =>
            if n ≟ "block" then
              c ← parse_block fuel attrs true; continue (add_child (NodeBlock c) b)
            else if n ≟ "au" then
              au ← parse_au attrs true; continue (add_child (NodeAu au) b)
            else continue b
        | End_ n => if n ≟ "block" then break b else continue b
        | _ => continue b
        end) b
  end.

Record Draft := {
  draft_course : option Course;
  draft_objectives : list Objective;
  draft_nodes : list Node;
}.

Definition draft_with_course (c : Course) (d : Draft) : Draft := {| draft_course := Some c;
  draft_objectives := draft_objectives d; draft_nodes := draft_nodes d |}.
Definition draft_with_objectives (os : list Objective) (d : Draft) : Draft := {|
  draft_course := draft_course d; draft_objectives := os; draft_nodes := draft_nodes d |}.
Definition draft_add (n : Node) (d : Draft) : Draft := {| draft_course := draft_course d;
  draft_objectives := draft_objectives d; draft_nodes := draft_nodes d ++ [n] |}.

Definition parse_course_structure (fuel : nat) : Parser CourseStructure :=
  d ← loop (UnexpectedEof "courseStructure") (fun d ev =>
    match ev with
    | Start n attrs =>
        if n ≟ "course" then c ← parse_course attrs false; continue (draft_with_course c d)
        else if n ≟ "objectives" then os ← parse_objectives; continue (draft_with_objectives os d)
        else if n ≟ "block" then
          b ← parse_block fuel attrs false; continue (draft_add (NodeBlock b) d)
        else if n ≟ "au" then au ← parse_au attrs false; continue (draft_add (NodeAu au) d)
        else _ ← skip_to_end n; continue d
    | Empty n attrs =>
        if n ≟ "course" then c ← parse_course attrs true; continue (draft_with_course c d)
        else if n ≟ "block" then
          b ← parse_block fuel attrs true; continue (draft_add (NodeBlock b) d)
        else if n ≟ "au" then au ← parse_au attrs true; continue (draft_add (NodeAu au) d)
        else continue d
    | End_ n => if n ≟ "courseStructure" then break d else continue d
    | _ => continue d
    end) {| draft_course := None; draft_objectives := []; draft_nodes := [] |};
  match draft_course d with
  | Some c => mret {| course := c; objectives := draft_objectives d; nodes := draft_nodes d |}
  | None => lift (inr (MissingElement "course"))
  end.

(** Everything up to the root is skipped; nothing after it is read. *)
Definition parse_with (fuel : nat) : Parser CourseStructure :=
  loop (MissingElement "courseStructure") (fun (_ : unit) ev =>
    match ev with
    | Start n _ =>
        if n ≟ "courseStructure" then cs ← parse_course_structure fuel; break cs else continue tt
    | _ => continue tt
    end) tt.

(** A block's start is an event, so blocks nest no deeper than there are events. *)
Definition parse_manifest (xml : stream) : outcome CourseStructure :=
  parse_with (S (length xml)) xml.

End parse.

(** ** Writing *)

Inductive Written : Type :=
  | WStart (name : string) (attrs : list (string * string))
  | WEmpty (name : string) (attrs : list (string * string))
  | WEnd (name : string)
  | WText (s : string).

Definition COURSE_STRUCTURE_NS : string :=
  "https://w3id.org/xapi/profiles/cmi5/v1/CourseStructure.xsd".

Definition write_langstring (s : LangString) : list Written :=
  [WStart "langstring" [("lang"%string, lang s)]; WText (value s); WEnd "langstring"].

Definition write_langstrings (wrapper : string) (strings : list LangString) : list Written :=
  match strings with
  | [] => []
  | _ => WStart wrapper [] :: mjoin (write_langstring <$> strings) ++ [WEnd wrapper]
  end.

Definition write_objective_ref (id : string) : list Written :=
  [WEmpty "objective" [("idref"%string, id)]].

Definition write_objective_refs (ids : list string) : list Written :=
  match ids with
  | [] => []
  | _ => WStart "objectives" [] :: mjoin (write_objective_ref <$> ids) ++ [WEnd "objectives"]
  end.

Definition write_text_element (name text : string) : list Written :=
  [WStart name []; WText text; WEnd name].

Definition write_labels (title description : list LangString) : list Written :=
  write_langstrings "title" title ++ write_langstrings "description" description.

Definition write_course (c : Course) : list Written :=
  WStart "course" [("id"%string, course_id c)] ::
  write_labels (course_title c) (course_description c) ++ [WEnd "course"].

Definition write_objective (o : Objective) : list Written :=
  WStart "objective" [("id"%string, objective_id o)] ::
  write_labels (objective_title o) (objective_description o) ++ [WEnd "objective"].

Definition write_objectives (objs : list Objective) : list Written :=
  WStart "objectives" [] :: mjoin (write_objective <$> objs) ++ [WEnd "objectives"].

Definition write_optional (name : string) (v : option string) : list Written :=
  match v with Some v => write_text_element name v | None => [] end.

Definition au_attributes (au : AssignableUnit) : list (string * string) :=
  [("id", au_id au); ("moveOn", move_on_as_str (au_move_on au))]%string ++
  match mastery_score au with
  | Some m => [("masteryScore"%string, display_f64 m)]
  | None => []
  end ++
  match launch_method au with
  | Some m => [("launchMethod"%string, launch_method_as_str m)]
  | None => []
  end.

Definition write_au (au : AssignableUnit) : list Written :=
  WStart "au" (au_attributes au) ::
  write_labels (au_title au) (au_description au) ++
  write_objective_refs (au_objective_ids au) ++
  write_text_element "url" (au_url au) ++
  write_optional "launchParameters" (launch_parameters au) ++
  write_optional "entitlementKey" (entitlement_key au) ++ [WEnd "au"].

Fixpoint write_node (n : Node) : list Written :=
  match n with
  | NodeAu au => write_au au
  | NodeBlock b =>
      WStart "block" [("id"%string, block_id b)] ::
      write_labels (block_title b) (block_description b) ++
      write_objective_refs (block_objective_ids b) ++
      mjoin (write_node <$> children b) ++ [WEnd "block"]
  end.

Definition to_manifest_xml (cs : CourseStructure) : list Written :=
  WStart "courseStructure" [("xmlns"%string, COURSE_STRUCTURE_NS)] ::
  write_course (course cs) ++
  match objectives cs with [] => [] | _ => write_objectives (objectives cs) end ++
  mjoin (write_node <$> nodes cs) ++ [WEnd "courseStructure"].

(** ** What is read back of what was written

    Tags and their attributes come back as they were written (an attribute that
    holds a tab or a line break is normalized by the crate, and does not).  A text
    comes back in pieces, literal runs and references, that spell it; an empty one
    comes back as nothing. *)

Definition written_attr (kv : string * string) : Attribute := Attr kv.1 (inl kv.2).

Section reads_back.
Context {X : QuickXml}.

Inductive spells : string -> stream -> Prop :=
  | spells_nothing : spells EmptyString []
  | spells_run s t ps : spells t ps -> spells (s +:+ t) (inl (Text s) :: ps)
  | spells_char name c t ps :
      resolve_char_ref name = inl (Some c) -> spells t ps ->
      spells (c +:+ t) (inl (GeneralRef name) :: ps)
  | spells_entity name c t ps :
      resolve_char_ref name = inl None -> resolve_predefined_entity name = Some c ->
      spells t ps -> spells (c +:+ t) (inl (GeneralRef name) :: ps).

Inductive reads_back : list Written -> stream -> Prop :=
  | rb_end : reads_back [] []
  | rb_start n kvs ws evs : reads_back ws evs ->
      reads_back (WStart n kvs :: ws) (inl (Start n (written_attr <$> kvs)) :: evs)
  | rb_empty n kvs ws evs : reads_back ws evs ->
      reads_back (WEmpty n kvs :: ws) (inl (Empty n (written_attr <$> kvs)) :: evs)
  | rb_close n ws evs : reads_back ws evs ->
      reads_back (WEnd n :: ws) (inl (End_ n) :: evs)
  | rb_text s ps ws evs : spells s ps -> reads_back ws evs ->
      reads_back (WText s :: ws) (ps ++ evs).

End reads_back.
(** ** Lemmas *)

Lemma Node_nested_ind (P : Node -> Prop) :
  (forall au, P (NodeAu au)) -> (forall b, Forall P (children b) -> P (NodeBlock b)) ->
  forall n, P n.
Proof.
  intros Hau Hb. fix IH 1. intros [[id t d o cs]|au]; [|apply Hau]. apply Hb. simpl.
  induction cs as [|c cs IHcs]; constructor; [apply IH | apply IHcs].
Qed.

(** ** Reading terminates

    On at most [n] events the parser answers, and leaves no more than it got. *)

Definition fine {A} (n : nat) (p : Parser A) : Prop :=
  forall evs, (length evs <= n)%nat ->
    match p evs with
    | Ok _ rest => (length rest <= length evs)%nat
    | Err _ => True
    | OutOfFuel => False
    end.

Lemma fine_ret {A} n (a : A) : fine n (mret a).
Proof. intros evs _. simpl. lia. Qed.

Lemma fine_lift {A} n (r : A + ManifestError) : fine n (lift r).
Proof. intros evs _. unfold lift. by destruct r; simpl. Qed.

Lemma fine_bind {A B} n (p : Parser A) (k : A -> Parser B) :
  fine n p -> (forall a, fine n (k a)) -> fine n (p ≫= k).
Proof.
  intros Hp Hk evs Hn. specialize (Hp evs Hn). unfold mbind, Parser_bind.
  destruct (p evs) as [a rest|e|]; [|done|done].
  specialize (Hk a rest ltac:(lia)). destruct (k a rest); [lia|done|done].
Qed.

Lemma fine_loop {T A} n eof (body : T -> Event -> Parser (T + A)) s :
  (forall m s ev, (m < n)%nat -> fine m (body s ev)) -> fine n (loop eof body s).
Proof.
  intros Hb evs Hn. unfold loop.
  enough (forall fuel evs s, (length evs <= n)%nat -> (length evs < fuel)%nat ->
    match read_loop fuel eof body s evs with
    | Ok _ rest => (length rest <= length evs)%nat | Err _ => True | OutOfFuel => False
    end) as H by (apply H; lia).
  clear evs s Hn. induction fuel as [|fuel IH]; intros evs s Hn Hf; [lia|].
  cbn [read_loop]. destruct evs as [|[ev|message] rest]; [done| |done]. simpl in Hn, Hf.
  specialize (Hb (length rest) s ev ltac:(lia) rest ltac:(lia)).
  destruct (body s ev rest) as [[s'|a] rest'|e|]; [|simpl in *; lia|done|done].
  specialize (IH rest' s' ltac:(lia) ltac:(lia)).
  destruct (read_loop fuel eof body s' rest'); [simpl in *; lia|done|done].
Qed.

Lemma fine_continue {T A} n (s : T) : fine n (continue (A := A) s).
Proof. apply fine_ret. Qed.
Lemma fine_break {T A} n (a : A) : fine n (break (T := T) a).
Proof. apply fine_ret. Qed.
Lemma fine_required n element attribute v : fine n (required element attribute v).
Proof. apply fine_lift. Qed.
Lemma fine_optional {A} n (parse : string -> A + ManifestError) v : fine n (optional parse v).
Proof. destruct v; [apply fine_bind; [apply fine_lift | intros; apply fine_ret] | apply fine_ret]. Qed.

#[local] Hint Resolve fine_ret fine_lift fine_continue fine_break fine_required fine_optional : css.

(** Take a parser apart down to the parts the hints know. *)
Ltac run_fine :=
  repeat first
    [ progress cbv beta zeta
    | solve [auto with css]
    | apply fine_loop; intros ? ? ? ?
    | apply fine_bind; [|intros ?]
    | case_match ].

Section fine.
Context {X : QuickXml}.

Lemma fine_parse_text n e : fine n (parse_text e).
Proof. unfold parse_text, text_step. run_fine. Qed.
#[local] Hint Resolve fine_parse_text : css.

Lemma fine_skip_to_end n e : fine n (skip_to_end e).
Proof. unfold skip_to_end. run_fine. Qed.
#[local] Hint Resolve fine_skip_to_end : css.

Lemma fine_parse_langstrings n e : fine n (parse_langstrings e).
Proof. unfold parse_langstrings. run_fine. Qed.
#[local] Hint Resolve fine_parse_langstrings : css.

Lemma fine_parse_objective_refs n : fine n parse_objective_refs.
Proof. unfold parse_objective_refs. run_fine. Qed.
#[local] Hint Resolve fine_parse_objective_refs : css.

Lemma fine_parse_labels n e : fine n (parse_labels e).
Proof. unfold parse_labels. run_fine. Qed.
#[local] Hint Resolve fine_parse_labels : css.

Lemma fine_parse_course n attrs empty : fine n (parse_course attrs empty).
Proof. unfold parse_course. run_fine. Qed.

Lemma fine_parse_objectives n : fine n parse_objectives.
Proof. unfold parse_objectives. run_fine. Qed.

Lemma fine_parse_au_parts n : fine n parse_au_parts.
Proof. unfold parse_au_parts. run_fine. Qed.
#[local] Hint Resolve fine_parse_au_parts : css.

Lemma fine_parse_au n attrs empty : fine n (parse_au attrs empty).
Proof. unfold parse_au. run_fine. Qed.
#[local] Hint Resolve fine_parse_au fine_parse_course fine_parse_objectives : css.

Lemma fine_parse_block fuel : forall n attrs empty,
  (n < fuel)%nat -> fine n (parse_block fuel attrs empty).
Proof.
  induction fuel as [|fuel IH]; intros n attrs empty Hn; [lia|]. cbn [parse_block].
  run_fine; apply IH; lia.
Qed.

Lemma fine_parse_with fuel n : (n <= fuel)%nat -> fine n (parse_with fuel).
Proof.
  intros Hn. unfold parse_with, parse_course_structure. run_fine; apply fine_parse_block; lia.
Qed.

(** Reading a manifest always ends: on any events whatever, with errors among
    them or cut off anywhere, the parser returns a course or names an error. *)
Theorem parse_manifest_returns xml :
  (exists cs rest, parse_manifest xml = Ok cs rest /\ (length rest <= length xml)%nat) \/
  (exists e, parse_manifest xml = Err e).
Proof.
  unfold parse_manifest.
  pose proof (fine_parse_with (S (length xml)) (length xml) ltac:(lia) xml ltac:(lia)) as H.
  destruct (parse_with _ xml); naive_solver.
Qed.

End fine.
End Manifest.
