(* ===== verification/Cmi5RoundTrip.v ===== *)
(** * A manifest written is the manifest read ([cmi5/src/manifest.rs])

    The parser against the writer: whatever [to_manifest_xml] wrote of a course
    reads back as that course, part by part. *)
From Stdlib Require Import SpecFloat.
From Stdlib Require Import Ascii.
From S2P Require Import Prelude Text Wire Cmi5Manifest.

Import Text Wire F64Parse F64Display Manifest.

Module RoundTrip.
Section RoundTrip.
Context {X : QuickXml}.

(** ** Parsers and what they read

    On at most [n] events that begin with what was written as [w], the parser
    answers [x] and leaves what the rest of the document reads back as. *)
Definition parses {A} (n : nat) (p : Parser A) (w : list Written) (x : A) : Prop :=
  forall tail evs, reads_back (w ++ tail) evs -> (length evs <= n)%nat ->
    exists rest, reads_back tail rest /\ (length rest <= length evs)%nat /\ p evs = Ok x rest.

(** The turns of a loop over [w] take it from [s] to [s']. *)
Definition steps {T A} (n : nat) (eof : ManifestError) (body : T -> Event -> Parser (T + A))
    (w : list Written) (s s' : T) : Prop :=
  forall tail evs fuel, reads_back (w ++ tail) evs -> (length evs <= n)%nat ->
    (length evs < fuel)%nat ->
    exists rest fuel', reads_back tail rest /\ (length rest <= length evs)%nat /\
      (length rest < fuel')%nat /\
      read_loop fuel eof body s evs = read_loop fuel' eof body s' rest.

(** A course whose scores are numbers in range that print without loss. *)
Definition score_ok (m : f64) : Prop :=
  lossless m /\ SFleb (S754_zero false) m && SFleb m (SFone 53 1024) = true.

Definition scores_ok (cs : CourseStructure) : Prop :=
  forall au m, au ∈ assignable_units cs -> mastery_score au = Some m -> score_ok m.

(** ** Composition *)

Lemma parses_ret {A} n (x : A) : parses n (mret x) [] x.
Proof. intros tail evs H Hn. by exists evs. Qed.

Lemma parses_bind {A B} n (p : Parser A) (k : A -> Parser B) w1 w2 x y :
  parses n p w1 x -> parses n (k x) w2 y -> parses n (p ≫= k) (w1 ++ w2) y.
Proof.
  intros Hp Hk tail evs H Hn. rewrite <- app_assoc in H.
  destruct (Hp _ _ H Hn) as (rest & H1 & Hl & E).
  destruct (Hk _ _ H1 ltac:(lia)) as (rest' & H2 & Hl' & E').
  exists rest'. split; [done|]. split; [lia|]. unfold mbind, Parser_bind. by rewrite E.
Qed.

(** A last step that reads nothing. *)
Lemma parses_then {A B} n (p : Parser A) (k : A -> Parser B) w x y :
  parses n p w x -> k x = mret y -> parses n (p ≫= k) w y.
Proof.
  intros Hp Hk. rewrite <- (app_nil_r w). eapply parses_bind; [done|]. rewrite Hk.
  apply parses_ret.
Qed.

Section loop.
Context {T A : Type} (eof : ManifestError) (body : T -> Event -> Parser (T + A)).

Lemma steps_nil n s : steps n eof body [] s s.
Proof. intros tail evs fuel H Hn Hf. by exists evs, fuel. Qed.

Lemma steps_to n w s s' s'' : steps n eof body w s s' -> s' = s'' -> steps n eof body w s s''.
Proof. by intros H <-. Qed.

Lemma steps_app n w1 w2 s s' s'' :
  steps n eof body w1 s s' -> steps n eof body w2 s' s'' -> steps n eof body (w1 ++ w2) s s''.
Proof.
  intros H1 H2 tail evs fuel H Hn Hf. rewrite <- app_assoc in H.
  destruct (H1 _ _ _ H Hn Hf) as (r1 & f1 & Hr1 & Hl1 & Hf1 & ->).
  destruct (H2 _ _ _ Hr1 ltac:(lia) Hf1) as (r2 & f2 & Hr2 & Hl2 & Hf2 & ->).
  exists r2, f2. repeat split; [done | lia | done].
Qed.

Lemma steps_list {B} n (f : B -> list Written) (g : T -> B -> T) l : forall s,
  (forall x s, x ∈ l -> steps n eof body (f x) s (g s x)) ->
  steps n eof body (mjoin (f <$> l)) s (foldl g s l).
Proof.
  induction l as [|x l IH]; intros s H; [apply steps_nil|]. cbn [fmap list_fmap mjoin list_join].
  eapply steps_app; [apply H; left | apply IH]. intros y s' Hy. apply H. by right.
Qed.

(** A start tag whose content one parser reads. *)
Lemma steps_start {B} n name kvs w (p : Parser B) x (g : B -> T) s :
  body s (Start name (written_attr <$> kvs)) = (p ≫= fun x => continue (g x)) ->
  (forall m, (m < n)%nat -> parses m p w x) -> steps n eof body (WStart name kvs :: w) s (g x).
Proof.
  intros Hb Hp tail evs fuel H Hn Hf. inversion H as [|? ? ? evs' H'| | |]; subst.
  simpl in *. destruct fuel as [|fuel]; [lia|].
  destruct (Hp (length evs') ltac:(lia) _ _ H' ltac:(lia)) as (rest & Hr & Hl & E).
  exists rest, fuel. repeat split; [done | lia | lia |]. cbn [read_loop]. rewrite Hb.
  unfold mbind, Parser_bind. by rewrite E.
Qed.

Lemma steps_empty n name kvs s s' :
  body s (Empty name (written_attr <$> kvs)) = continue s' ->
  steps n eof body [WEmpty name kvs] s s'.
Proof.
  intros Hb tail evs fuel H Hn Hf. inversion H as [| |? ? ? evs' H'| |]; subst. simpl in *.
  destruct fuel as [|fuel]; [lia|]. exists evs', fuel. repeat split; [done | lia | lia |].
  cbn [read_loop]. by rewrite Hb.
Qed.

Lemma parses_loop n w name s s' a :
  steps n eof body w s s' -> body s' (End_ name) = break a ->
  parses n (loop eof body s) (w ++ [WEnd name]) a.
Proof.
  intros Hw Hb tail evs H Hn. rewrite <- app_assoc in H. unfold loop.
  destruct (Hw _ _ (S (length evs)) H Hn ltac:(lia)) as (rest & f & Hr & Hl & Hf & ->).
  inversion Hr as [| | |? ? evs' H'|]; subst. destruct f as [|f]; [lia|]. simpl in *.
  exists evs'. split; [done|]. split; [lia|]. by rewrite Hb.
Qed.

End loop.

(** ** The parts *)

Lemma foldl_snoc_list {B} (l : list B) : foldl (fun out x => out ++ [x]) [] l = l.
Proof.
  enough (forall acc, foldl (fun out x => out ++ [x]) acc l = acc ++ l) as -> by done.
  induction l as [|x l IH]; intros acc; simpl; [by rewrite app_nil_r|].
  by rewrite IH, <- app_assoc.
Qed.

(** The pieces of a text go on the end of what has been read. *)
Lemma steps_text n eof end_tag t s :
  steps n eof (text_step end_tag) [WText t] s (s +:+ t).
Proof.
  intros tail evs fuel H Hn Hf. inversion H as [| | | |? ps ? evs' Hps H']; subst.
  clear H Hn. revert s fuel Hf.
  assert (forall c t ev ps,
    (forall s rest, text_step end_tag s ev rest = Ok (inl (s +:+ c)) rest) ->
    (forall s fuel, (length (ps ++ evs') < fuel)%nat -> exists rest fuel',
      reads_back tail rest /\ (length rest <= length (ps ++ evs'))%nat /\
      (length rest < fuel')%nat /\ read_loop fuel eof (text_step end_tag) s (ps ++ evs') =
        read_loop fuel' eof (text_step end_tag) (s +:+ t) rest) ->
    forall s fuel, (length ((inl ev :: ps) ++ evs') < fuel)%nat -> exists rest fuel',
      reads_back tail rest /\ (length rest <= length ((inl ev :: ps) ++ evs'))%nat /\
      (length rest < fuel')%nat /\
      read_loop fuel eof (text_step end_tag) s ((inl ev :: ps) ++ evs') =
        read_loop fuel' eof (text_step end_tag) (s +:+ (c +:+ t)) rest) as Hone.
  { intros c u ev qs Hev IH s fuel Hf. simpl in Hf. destruct fuel as [|fuel]; [lia|].
    destruct (IH (s +:+ c) fuel ltac:(lia)) as (rest & f & Hr & Hl & Hf' & E).
    exists rest, f. simpl. rewrite Hev, <- string_app_assoc. repeat split; [done | lia | done..]. }
  induction Hps as [|u t ps Hps IH|name c t ps E Hps IH|name c t ps E E' Hps IH].
  - intros s fuel Hf. exists evs', fuel. by rewrite string_app_nil.
  - by apply Hone.
  - apply Hone; [|done]. intros. simpl. by rewrite E.
  - apply Hone; [|done]. intros. simpl. by rewrite E, E'.
Qed.

Lemma parses_text n name t : parses n (parse_text name) [WText t; WEnd name] t.
Proof.
  change [WText t; WEnd name] with ([WText t] ++ [WEnd name]).
  eapply parses_loop; [apply steps_text|]. simpl. by rewrite bool_decide_eq_true_2.
Qed.

Lemma parses_langstrings n wrapper l :
  parses n (parse_langstrings wrapper) (mjoin (write_langstring <$> l) ++ [WEnd wrapper]) l.
Proof.
  eapply (parses_loop _ _ _ _ _ [] (foldl (fun out x => out ++ [x]) [] l)).
  - apply steps_list. intros [lg v] s _. unfold write_langstring.
    eapply (steps_start _ _ _ _ _ _ (parse_text "langstring") v
      (fun v => s ++ [{| lang := lg; value := v |}])); [reflexivity|].
    intros m _. apply parses_text.
  - simpl. rewrite bool_decide_eq_true_2 by done. f_equal.
    apply foldl_snoc_list.
Qed.

Lemma parses_objective_refs n ids :
  parses n parse_objective_refs (mjoin (write_objective_ref <$> ids) ++ [WEnd "objectives"]) ids.
Proof.
  eapply (parses_loop _ _ _ _ _ [] (foldl (fun out x => out ++ [x]) [] ids)).
  - apply steps_list. intros id s _. by apply steps_empty.
  - simpl. f_equal. rewrite foldl_snoc_list. done.
Qed.

(** A wrapped list is only written when there is something in it. *)
Lemma steps_langstrings {T A} n eof (body : T -> Event -> Parser (T + A)) wrapper l s g :
  body s (Start wrapper []) = (parse_langstrings wrapper ≫= fun t => continue (g t s)) ->
  g [] s = s -> steps n eof body (write_langstrings wrapper l) s (g l s).
Proof.
  intros Hb Hg. destruct l as [|x l]; [rewrite Hg; apply steps_nil|].
  apply (steps_start _ _ _ _ [] _ (parse_langstrings wrapper) (x :: l) (fun t => g t s) s Hb).
  intros m _. apply parses_langstrings.
Qed.

Lemma steps_objective_refs {T A} n eof (body : T -> Event -> Parser (T + A)) ids s g :
  body s (Start "objectives" []) = (parse_objective_refs ≫= fun t => continue (g t s)) ->
  g [] s = s -> steps n eof body (write_objective_refs ids) s (g ids s).
Proof.
  intros Hb Hg. destruct ids as [|x l]; [rewrite Hg; apply steps_nil|].
  apply (steps_start _ _ _ _ [] _ parse_objective_refs (x :: l) (fun t => g t s) s Hb).
  intros m _. apply parses_objective_refs.
Qed.

Lemma steps_text_element {T A} n eof (body : T -> Event -> Parser (T + A)) name t s g :
  body s (Start name []) = (parse_text name ≫= fun t => continue (g t s)) ->
  steps n eof body (write_text_element name t) s (g t s).
Proof.
  intros Hb. apply (steps_start _ _ _ _ [] _ (parse_text name) t (fun t => g t s) s Hb).
  intros m _. apply parses_text.
Qed.

Lemma steps_optional {T A} n eof (body : T -> Event -> Parser (T + A)) name v s g :
  body s (Start name []) = (parse_text name ≫= fun t => continue (g t s)) ->
  steps n eof body (write_optional name v) s (match v with Some t => g t s | None => s end).
Proof. intros Hb. destruct v; [by apply steps_text_element | apply steps_nil]. Qed.

Lemma parses_labels n name t d :
  name <> "title"%string -> name <> "description"%string ->
  parses n (parse_labels name) (write_labels t d ++ [WEnd name]) (t, d).
Proof.
  intros H1 H2. eapply parses_loop.
  - eapply steps_app.
    + by apply (steps_langstrings _ _ _ _ _ _ (fun t (s : list LangString * list LangString) => (t, s.2))).
    + by apply (steps_langstrings _ _ _ _ _ _ (fun d (s : list LangString * list LangString) => (s.1, d))).
  - simpl. by rewrite bool_decide_eq_true_2.
Qed.

Lemma parses_course n c :
  parses n (parse_course (written_attr <$> [("id"%string, course_id c)]) false)
    (write_labels (course_title c) (course_description c) ++ [WEnd "course"]) c.
Proof.
  intros tail evs H Hn. destruct (parses_labels n "course" _ _ ltac:(done) ltac:(done) _ _ H Hn)
    as (rest & Hr & Hl & E).
  exists rest. repeat split; [done | lia |]. unfold parse_course. simpl.
  unfold mbind, Parser_bind. simpl. rewrite E. by destruct c.
Qed.

Lemma parses_objectives n l :
  parses n parse_objectives (mjoin (write_objective <$> l) ++ [WEnd "objectives"]) l.
Proof.
  eapply (parses_loop _ _ _ _ _ [] (foldl (fun out x => out ++ [x]) [] l)).
  - apply steps_list. intros [id t d] s _. unfold write_objective.
    eapply (steps_start _ _ _ _ _ _ (parse_labels "objective") (t, d)
      (fun td => s ++ [{| objective_id := id; objective_title := td.1;
                          objective_description := td.2 |}])); [reflexivity|].
    intros m _. by apply parses_labels.
  - simpl. f_equal. apply foldl_snoc_list.
Qed.

Lemma parses_au_parts n au :
  parses n parse_au_parts
    (write_labels (au_title au) (au_description au) ++
     write_objective_refs (au_objective_ids au) ++ write_text_element "url" (au_url au) ++
     write_optional "launchParameters" (launch_parameters au) ++
     write_optional "entitlementKey" (entitlement_key au) ++ [WEnd "au"])
    {| ap_title := au_title au; ap_description := au_description au;
       ap_objective_ids := au_objective_ids au; ap_url := Some (au_url au);
       ap_launch_parameters := launch_parameters au; ap_entitlement_key := entitlement_key au |}.
Proof.
  unfold write_labels. rewrite !(assoc_L (++)). eapply parses_loop; [|reflexivity].
  rewrite <- !(assoc_L (++)).
  eapply steps_app; [by apply (steps_langstrings _ _ _ _ _ _ set_title)|].
  eapply steps_app; [by apply (steps_langstrings _ _ _ _ _ _ set_description)|].
  eapply steps_app; [by apply (steps_objective_refs _ _ _ _ _ set_objective_ids)|].
  eapply steps_app; [by apply (steps_text_element _ _ _ _ _ _ set_url)|].
  eapply steps_app; [by apply (steps_optional _ _ _ _ _ _ set_launch_parameters)|].
  eapply steps_to; [by apply (steps_optional _ _ _ _ _ _ set_entitlement_key)|].
  by destruct (launch_parameters au), (entitlement_key au).
Qed.

Lemma parses_au n au :
  (forall m, mastery_score au = Some m -> score_ok m) ->
  parses n (parse_au (written_attr <$> au_attributes au) false) (drop 1 (write_au au)) au.
Proof.
  intros Hm tail evs H Hn. cbn [drop write_au] in H.
  destruct (parses_au_parts n au _ _ H Hn) as (rest & Hr & Hl & E).
  exists rest. split; [done|]. split; [done|].
  assert (attr (written_attr <$> au_attributes au) "id" = inl (Some (au_id au)) /\
    attr (written_attr <$> au_attributes au) "moveOn" = inl (Some (move_on_as_str (au_move_on au))) /\
    attr (written_attr <$> au_attributes au) "masteryScore" = inl (display_f64 <$> mastery_score au) /\
    attr (written_attr <$> au_attributes au) "launchMethod" =
      inl (launch_method_as_str <$> launch_method au)) as (Ha & Hb & Hc & Hd).
  { unfold au_attributes. by destruct (mastery_score au), (launch_method au). }
  unfold parse_au. rewrite Ha, Hb, Hc, Hd. unfold mbind, Parser_bind. cbn [lift required].
  assert (forall evs, optional move_on_parse (Some (move_on_as_str (au_move_on au))) evs =
    Ok (Some (au_move_on au)) evs) as -> by (intros; by destruct (au_move_on au)).
  assert (forall evs, optional parse_mastery_score (display_f64 <$> mastery_score au) evs =
    Ok (mastery_score au) evs) as ->.
  { intros evs'. destruct (mastery_score au) as [m|]; [|done].
    destruct (Hm m eq_refl) as [Hl' Hr']. cbn [optional fmap option_fmap option_map].
    unfold parse_mastery_score, lossless in *. rewrite Hl', Hr'. done. }
  assert (forall evs, optional launch_method_parse (launch_method_as_str <$> launch_method au) evs =
    Ok (launch_method au) evs) as -> by (intros; by destruct (launch_method au) as [[]|]).
  cbn -[parse_au_parts]. rewrite E. by destruct au.
Qed.

(** A node inside a loop that reads the two kinds of nodes with these parsers. *)
Definition node_reads (fuel : nat) (nd : Node) : Prop :=
  forall T A n eof (body : T -> Event -> Parser (T + A)) s g,
  (n <= fuel)%nat ->
  (forall attrs, body s (Start "block" attrs) =
    (parse_block fuel attrs false ≫= fun b => continue (g (NodeBlock b) s))) ->
  (forall attrs, body s (Start "au" attrs) =
    (parse_au attrs false ≫= fun au => continue (g (NodeAu au) s))) ->
  steps n eof body (write_node nd) s (g nd s).

Definition node_ok (nd : Node) : Prop :=
  forall au m, au ∈ node_aus nd -> mastery_score au = Some m -> score_ok m.

Lemma steps_nodes {T A} fuel n eof (body : T -> Event -> Parser (T + A)) g l : forall s,
  (n <= fuel)%nat ->
  (forall s attrs, body s (Start "block" attrs) =
    (parse_block fuel attrs false ≫= fun b => continue (g (NodeBlock b) s))) ->
  (forall s attrs, body s (Start "au" attrs) =
    (parse_au attrs false ≫= fun au => continue (g (NodeAu au) s))) ->
  (forall nd, nd ∈ l -> node_reads fuel nd) ->
  steps n eof body (mjoin (write_node <$> l)) s (foldl (fun s nd => g nd s) s l).
Proof.
  intros s Hn Hb Ha Hl. apply steps_list. intros nd s' Hnd. by apply Hl.
Qed.

Lemma foldl_add_child l b :
  foldl (fun b nd => add_child nd b) b l =
  {| block_id := block_id b; block_title := block_title b;
     block_description := block_description b; block_objective_ids := block_objective_ids b;
     children := children b ++ l |}.
Proof.
  revert b. induction l as [|x l IH]; intros b; simpl; [rewrite app_nil_r; by destruct b|].
  rewrite IH. simpl. by rewrite <- app_assoc.
Qed.

Lemma parses_block fuel n b :
  (n < fuel)%nat -> (forall nd, nd ∈ children b -> node_reads (pred fuel) nd) ->
  parses n (parse_block fuel (written_attr <$> [("id"%string, block_id b)]) false)
    (drop 1 (write_node (NodeBlock b))) b.
Proof.
  intros Hf Hc. destruct fuel as [|fuel]; [lia|]. cbn [drop write_node parse_block].
  intros tail evs H Hn. cbn -[loop parse_langstrings parse_objective_refs skip_to_end parse_au].
  unfold mbind, Parser_bind. cbn -[loop parse_langstrings parse_objective_refs skip_to_end parse_au].
  revert tail evs H Hn. unfold write_labels. rewrite !(assoc_L (++)).
  eapply parses_loop; [|reflexivity]. rewrite <- !(assoc_L (++)).
  eapply steps_app; [by apply (steps_langstrings _ _ _ _ _ _ set_block_title)|].
  eapply steps_app; [by apply (steps_langstrings _ _ _ _ _ _ set_block_description)|].
  eapply steps_app; [by apply (steps_objective_refs _ _ _ _ _ set_block_objective_ids)|].
  eapply steps_to.
  - by apply (steps_nodes fuel _ _ _ add_child); [lia|..].
  - rewrite foldl_add_child. by destruct b.
Qed.

Lemma node_ok_reads nd : node_ok nd -> forall fuel, node_reads fuel nd.
Proof.
  induction nd as [au|b IH] using Node_nested_ind; intros Hok fuel T A n eof body s g Hn Hb Ha.
  - apply (steps_start _ _ _ _ (au_attributes au) (drop 1 (write_au au)) (parse_au _ false) au
      (fun au => g (NodeAu au) s) s (Ha _)).
    intros m _. apply parses_au. intros sc. by apply Hok; left.
  - apply (steps_start _ _ _ _ [("id"%string, block_id b)] (drop 1 (write_node (NodeBlock b)))
      (parse_block fuel _ false) b (fun b => g (NodeBlock b) s) s (Hb _)).
    intros m Hm. apply parses_block; [lia|]. intros nd Hnd. rewrite Forall_forall in IH.
    apply IH; [done|]. intros au sc Hau. apply Hok. cbn [node_aus].
    apply list_elem_of_join. exists (node_aus nd). split; [done|]. by apply list_elem_of_fmap_2.
Qed.

Definition drafted (c : Course) (os : list Objective) (ns : list Node) : Draft :=
  {| draft_course := Some c; draft_objectives := os; draft_nodes := ns |}.

Lemma parses_course_structure fuel n cs :
  scores_ok cs -> (n <= fuel)%nat ->
  parses n (parse_course_structure fuel) (drop 1 (to_manifest_xml cs)) cs.
Proof.
  intros Hok Hn. unfold parse_course_structure. cbn [drop to_manifest_xml].
  eapply parses_then; [|by instantiate (1 := drafted (course cs) (objectives cs) (nodes cs));
                         destruct cs].
  rewrite !(assoc_L (++)). eapply parses_loop; [|reflexivity]. rewrite <- !(assoc_L (++)).
  eapply steps_app.
  { eapply (steps_start _ _ _ _ [("id"%string, course_id (course cs))] _ (parse_course _ false)
      (course cs) (fun c => draft_with_course c _)); [reflexivity|].
    intros m _. apply parses_course. }
  eapply steps_app.
  { instantiate (1 := drafted (course cs) (objectives cs) []).
    destruct (objectives cs) as [|o os] eqn:Ho; [apply steps_nil|].
    eapply (steps_start _ _ _ _ [] _ parse_objectives (o :: os)
      (fun os => draft_with_objectives os (drafted (course cs) [] []))); [reflexivity|].
    intros m _. apply parses_objectives. }
  eapply steps_to.
  - apply (steps_nodes fuel _ _ _ draft_add); [lia|done|done|]. intros nd Hnd.
    apply node_ok_reads. intros au sc Hau. apply Hok. apply list_elem_of_join.
    exists (node_aus nd). split; [done|]. by apply list_elem_of_fmap_2.
  - enough (forall l acc, foldl (fun s nd => draft_add nd s) (drafted (course cs) (objectives cs) acc) l
      = drafted (course cs) (objectives cs) (acc ++ l)) as -> by done.
    induction l as [|x l IH]; intros acc; simpl; [by rewrite app_nil_r|].
    unfold draft_add at 2. simpl. unfold drafted in *. by rewrite IH, <- app_assoc.
Qed.

(** C28. Parsing undoes writing: any course whose scores print without loss, nested
    and ordered as it may be, is read back whole from what [to_manifest_xml] wrote
    of it, however its texts were cut into runs and references. *)
Theorem manifest_roundtrip cs evs :
  scores_ok cs -> reads_back (to_manifest_xml cs) evs -> parse_manifest evs = Ok cs [].
Proof.
  intros Hok H. inversion H as [|? ? ? evs' H'| | |]; subst. unfold parse_manifest.
  rewrite <- (app_nil_r (_ ++ _)) in H'. simpl length.
  destruct (parses_course_structure (S (S (length evs'))) (length evs') cs Hok ltac:(lia) _ _ H'
    ltac:(lia)) as (rest & Hr & _ & E).
  inversion Hr; subst. unfold parse_with, loop. cbn [read_loop].
  unfold mbind, Parser_bind. cbn -[parse_course_structure].
  rewrite (bool_decide_eq_true_2 (_ = _)) by done. by rewrite E.
Qed.

End RoundTrip.
End RoundTrip.

(** * Conformance of a course ([cmi5/src/conformance.rs])

    The semantic rules a parsed manifest is held to before anything is stored. *)
Import Text Manifest.

Module Conformance.

Inductive ConformanceError : Type :=
  | CourseIdNotIri (id : string)
  | NoAssignableUnits
  | AuIdNotIri (id : string)
  | BlockIdNotIri (id : string)
  | DuplicateAuId (id : string)
  | DuplicateBlockId (id : string)
  | EmptyAuUrl (id : string)
  | DanglingObjectiveRef (owner reference : string).

(** Something other than white space around it, a colon, no white space within. *)
Definition is_iri (s : string) : bool :=
  let s := trim s in
  negb (s ≟ EmptyString) && contains_byte ":"%char s && negb (existsb is_whitespace (chars s)).

Definition dangling (declared : gset string) (owner : string) (refs : list string)
    : list ConformanceError :=
  DanglingObjectiveRef owner <$> List.filter (fun r => negb (bool_decide (r ∈ declared))) refs.

(** [HashSet::insert] of an identifier, if it is one. *)
Definition note_id (not_iri duplicate : string -> ConformanceError) (id : string)
    (seen : gset string) : gset string * list ConformanceError :=
  if negb (is_iri id) then (seen, [not_iri id])
  else if bool_decide (id ∈ seen) then (seen, [duplicate id])
  else ({[ id ]} ∪ seen, []).

Definition validate_au (declared : gset string) (acc : gset string * list ConformanceError)
    (au : AssignableUnit) : gset string * list ConformanceError :=
  let '(seen, errors) := acc in
  let '(seen, e) := note_id AuIdNotIri DuplicateAuId (au_id au) seen in
  (seen, errors ++ e ++ (if trim (au_url au) ≟ EmptyString then [EmptyAuUrl (au_id au)] else []) ++
         dangling declared (au_id au) (au_objective_ids au)).

Definition validate_block (declared : gset string) (acc : gset string * list ConformanceError)
    (b : Block) : gset string * list ConformanceError :=
  let '(seen, errors) := acc in
  let '(seen, e) := note_id BlockIdNotIri DuplicateBlockId (block_id b) seen in
  (seen, errors ++ e ++ dangling declared (block_id b) (block_objective_ids b)).

Fixpoint check_node (declared : gset string) (acc : gset string * list ConformanceError) (n : Node)
    : gset string * list ConformanceError :=
  match n with
  | NodeAu _ => acc
  | NodeBlock b => foldl (check_node declared) (validate_block declared acc b) (children b)
  end.

Definition check_blocks (declared : gset string) (acc : gset string * list ConformanceError)
    (ns : list Node) : gset string * list ConformanceError :=
  foldl (check_node declared) acc ns.

Definition declared_objectives (cs : CourseStructure) : gset string :=
  list_to_set (objective_id <$> objectives cs).

Definition validate_course_structure (cs : CourseStructure) : list ConformanceError :=
  let declared := declared_objectives cs in
  let aus := assignable_units cs in
  (if is_iri (course_id (course cs)) then [] else [CourseIdNotIri (course_id (course cs))]) ++
  (match aus with [] => [NoAssignableUnits] | _ => [] end) ++
  (foldl (validate_au declared) (∅, []) aus).2 ++
  (check_blocks declared (∅, []) (nodes cs)).2.

(** ** What conformance means *)

(** The blocks of a tree, each before what it holds. *)
Fixpoint node_blocks (n : Node) : list Block :=
  match n with
  | NodeAu _ => []
  | NodeBlock b => b :: mjoin (node_blocks <$> children b)
  end.

Definition blocks (cs : CourseStructure) : list Block := mjoin (node_blocks <$> nodes cs).

Record conformant (cs : CourseStructure) : Prop := {
  conf_course : is_iri (course_id (course cs)) = true;
  conf_units : assignable_units cs <> [];
  conf_au_ids : forall au, au ∈ assignable_units cs -> is_iri (au_id au) = true;
  conf_au_distinct : NoDup (au_id <$> assignable_units cs);
  conf_au_urls : forall au, au ∈ assignable_units cs -> trim (au_url au) <> EmptyString;
  conf_au_refs : forall au r, au ∈ assignable_units cs -> r ∈ au_objective_ids au ->
    r ∈ declared_objectives cs;
  conf_block_ids : forall b, b ∈ blocks cs -> is_iri (block_id b) = true;
  conf_block_distinct : NoDup (block_id <$> blocks cs);
  conf_block_refs : forall b r, b ∈ blocks cs -> r ∈ block_objective_ids b ->
    r ∈ declared_objectives cs;
}.

(** ** Lemmas *)

Lemma dangling_nil declared owner refs :
  dangling declared owner refs = [] <-> forall r, r ∈ refs -> r ∈ declared.
Proof.
  unfold dangling. induction refs as [|r refs IH]; cbn [List.filter].
  - split; [intros _ r Hr; inversion Hr | done].
  - setoid_rewrite elem_of_cons. case_bool_decide as Hr; cbn [negb fmap list_fmap].
    + rewrite IH. naive_solver.
    + split; [done|]. intros H. by destruct Hr; apply H; left.
Qed.

(** A pass over items with identifiers: no error is added exactly when the
    identifiers are new, distinct IRIs and each item's other checks find nothing. *)
Section pass.
Context {I : Type} (id : I -> string) (others : I -> list ConformanceError).
Context (not_iri duplicate : string -> ConformanceError).

Definition pass (acc : gset string * list ConformanceError) (x : I) :=
  let '(seen, errors) := acc in
  let '(seen, e) := note_id not_iri duplicate (id x) seen in (seen, errors ++ e ++ others x).

Lemma pass_nil l : forall seen errors,
  (foldl pass (seen, errors) l).2 = [] <->
  errors = [] /\ NoDup (id <$> l) /\
  forall x, x ∈ l -> is_iri (id x) = true /\ id x ∉ seen /\ others x = [].
Proof.
  induction l as [|x l IH]; intros seen errors; simpl.
  - split; [|naive_solver]. intros ->. repeat split; [constructor|..]; by match goal with
      H : _ ∈ [] |- _ => inversion H end.
  - unfold note_id. destruct (is_iri (id x)) eqn:Hi; simpl.
    + case_bool_decide as Hs; rewrite IH.
      * split; [intros [He _]; by apply app_nil in He as [_ [=]] | intros (-> & _ & H)].
        by destruct (H x ltac:(left)) as (_ & [] & _).
      * rewrite NoDup_cons, list_elem_of_fmap. setoid_rewrite elem_of_cons.
        setoid_rewrite not_elem_of_union. setoid_rewrite not_elem_of_singleton.
        split.
        -- intros (He & Hn & H). apply app_nil in He as [-> Ho]. simpl in Ho.
           split; [done|]. split.
           ++ split; [|done]. intros (y & Hy & Hin). by destruct (H y Hin) as (_ & [? _] & _).
           ++ intros y [->|Hy]; [done|]. destruct (H y Hy) as (? & [_ ?] & ?). done.
        -- intros (-> & [Hn Hd] & H). rewrite (proj2 (proj2 (H x (or_introl eq_refl)))).
           split; [done|]. split; [done|]. intros y Hy.
           destruct (H y (or_intror Hy)) as (? & ? & ?). repeat split; try done.
           intros Heq. apply Hn. by exists y.
    + rewrite IH. split; [intros [He _]; apply app_nil in He as [_ He]; done |].
      intros (_ & _ & H). destruct (H x ltac:(left)) as [? _]. congruence.
Qed.
End pass.

Lemma foldl_ext2 {A B} (f g : A -> B -> A) l : (forall a b, f a b = g a b) ->
  forall a, foldl f a l = foldl g a l.
Proof. intros H. induction l as [|b l IH]; intros a; simpl; [done|]. by rewrite H, IH. Qed.

(** The walk over the tree is a pass over its blocks, outer ones first. *)
Lemma check_node_blocks declared n : forall acc,
  check_node declared acc n = foldl (validate_block declared) acc (node_blocks n).
Proof.
  induction n as [au|b IH] using Node_nested_ind; intros acc; [done|]. simpl.
  generalize (validate_block declared acc b). clear acc. revert IH.
  generalize (children b). intros l IH. induction IH as [|c l Hc _ IH]; intros acc; [done|].
  cbn [foldl fmap list_fmap mjoin list_join]. by rewrite foldl_app, Hc, IH.
Qed.

Lemma check_blocks_pass declared ns : forall acc,
  check_blocks declared acc ns =
  foldl (pass block_id (fun b => dangling declared (block_id b) (block_objective_ids b))
    BlockIdNotIri DuplicateBlockId) acc (mjoin (node_blocks <$> ns)).
Proof.
  unfold check_blocks. induction ns as [|n ns IH]; intros acc; [done|].
  cbn [foldl fmap list_fmap mjoin list_join]. rewrite foldl_app, <- IH, check_node_blocks.
  by apply foldl_ext2; intros [].
Qed.

(** The validator finds nothing exactly when the course is conformant: its
    identifiers are IRIs, those of the units and those of the blocks are distinct,
    there is a unit, every unit has a launch url, and every reference to an
    objective is to one that is declared, at any depth of nesting. *)
Theorem validate_course_structure_iff cs :
  validate_course_structure cs = [] <-> conformant cs.
Proof.
  unfold validate_course_structure. rewrite !app_nil, check_blocks_pass.
  set (other := fun au => (if trim (au_url au) ≟ EmptyString then [EmptyAuUrl (au_id au)] else []) ++
    dangling (declared_objectives cs) (au_id au) (au_objective_ids au)).
  rewrite (foldl_ext2 _ (pass au_id other AuIdNotIri DuplicateAuId)) by (by intros []).
  rewrite !pass_nil. fold (blocks cs). subst other. cbv beta.
  setoid_rewrite app_nil. setoid_rewrite dangling_nil.
  assert (forall au, (if trim (au_url au) ≟ EmptyString then [EmptyAuUrl (au_id au)] else []) = []
    <-> trim (au_url au) <> EmptyString) as Hurl by (intros; case_bool_decide; naive_solver).
  setoid_rewrite Hurl.
  split.
  - intros (H1 & H2 & (_ & H3 & H4) & (_ & H5 & H6)). split; [| |..|done|].
    + by destruct (is_iri _).
    + by destruct (assignable_units cs).
    + intros au Hau. apply (H4 au Hau).
    + done.
    + intros au Hau. apply (H4 au Hau).
    + intros au r Hau. apply (H4 au Hau).
    + intros b Hb. apply (H6 b Hb).
    + intros b r Hb. apply (H6 b Hb).
  - intros [H1 H2 H3 H4 H5 H6 H7 H8 H9]. rewrite H1. split; [done|].
    split; [by destruct (assignable_units cs)|].
    split; (split; [done|]); (split; [done|]); intros x Hx;
      (split; [by auto|]); (split; [apply not_elem_of_empty|]); eauto.
Qed.

End Conformance.
