(* ===== verification/Cmi5Session.v ===== *)
(** * Statements of a session ([cmi5/src/statement.rs], [cmi5/src/validation.rs])

    The xAPI statements content sends, what each is checked against, and the
    machine that holds a session to its order and collects its outcome. *)
From S2P Require Import Prelude Text Wire Cmi5Manifest.
From Stdlib Require Import SpecFloat.
Import Wire Manifest.

Module Session.

(** ** Verbs and categories *)

Definition LAUNCHED : string := "http://adlnet.gov/expapi/verbs/launched".
Definition INITIALIZED : string := "http://adlnet.gov/expapi/verbs/initialized".
Definition COMPLETED : string := "http://adlnet.gov/expapi/verbs/completed".
Definition PASSED : string := "http://adlnet.gov/expapi/verbs/passed".
Definition FAILED : string := "http://adlnet.gov/expapi/verbs/failed".
Definition TERMINATED : string := "http://adlnet.gov/expapi/verbs/terminated".

Definition CMI5 : string := "https://w3id.org/xapi/cmi5/context/categories/cmi5".
Definition MOVEON : string := "https://w3id.org/xapi/cmi5/context/categories/moveon".

Section Session.
Context {U : Uuid}.

(** ** Statements *)

Record Account := { home_page : string; account_name : string }.

Record Agent := {
  agent_object_type : option string;
  agent_name : option string;
  mbox : option string;
  account : option Account;
}.

Record Verb := { verb_iri : string; display : option (list (string * string)) }.

Record Activity := {
  activity_object_type : option string;
  activity_iri : string;
  definition : option json;
}.

Inductive StatementObject : Type := ActivityObject (a : Activity).

Definition activity_id (o : StatementObject) : string :=
  match o with ActivityObject a => activity_iri a end.

Record Score := {
  scaled : option f64;
  raw : option f64;
  score_min : option f64;
  score_max : option f64;
}.

Record XResult := {
  score : option Score;
  success : option bool;
  completion : option bool;
  result_duration : option string;
}.

Record ContextActivities := {
  category : option (list Activity);
  parent : option (list Activity);
  grouping : option (list Activity);
  other : option (list Activity);
}.

Record Context_ := {
  context_registration : option uuid;
  context_activities : option ContextActivities;
  extensions : option json;
}.

Record Statement := {
  statement_id : option uuid;
  actor : Agent;
  verb : Verb;
  object : StatementObject;
  result : option XResult;
  context : option Context_;
  timestamp : option instant;
}.

Definition ca_has_category (ca : ContextActivities) (iri : string) : bool :=
  is_some_and (category ca) (existsb (fun a => activity_iri a ≟ iri)).

Definition verb_id (s : Statement) : string := verb_iri (verb s).
Definition object_activity_id (s : Statement) : string := activity_id (object s).
Definition registration (s : Statement) : option uuid := c ← context s; context_registration c.

Definition has_category (s : Statement) (iri : string) : bool :=
  is_some_and (c ← context s; context_activities c) (fun ca => ca_has_category ca iri).

Definition is_moveon (s : Statement) : bool := has_category s MOVEON.

(** ** Validation *)

Record SessionExpectation := {
  actor_home_page : string;
  actor_account_name : string;
  expect_registration : uuid;
  expect_activity_id : string;
  expect_mastery_score : option f64;
}.

Inductive Violation : Type :=
  | NotAnAccountActor
  | ActorMismatch
  | RegistrationMismatch
  | ActivityMismatch
  | MissingCmi5Category
  | UnknownVerb (verb : string)
  | MissingResult
  | NotPassedSuccess
  | NotFailedSuccess
  | NotCompleted
  | BelowMasteryScore (scaled : option f64) (required : f64)
  | NotInitialized
  | AlreadyInitialized
  | AfterTerminated
  | BothPassedAndFailed.

Definition is_au_verb (v : string) : bool :=
  (v ≟ INITIALIZED) || (v ≟ COMPLETED) || (v ≟ PASSED) || (v ≟ FAILED) || (v ≟ TERMINATED).

Definition scaled_score (r : XResult) : option f64 := s ← score r; scaled s.

(** The result its verb requires, the mastery score included. *)
Definition check_result (s : Statement) (required : option f64) : unit + Violation :=
  let v := verb_id s in
  if v ≟ PASSED then
    match result s with
    | None => inr MissingResult
    | Some r =>
        if negb (success r ≟ Some true) then inr NotPassedSuccess
        else match required with
        | None => inl tt
        | Some required =>
            if is_none_or (scaled_score r) (fun v => SFltb v required)
            then inr (BelowMasteryScore (scaled_score r) required) else inl tt
        end
    end
  else if v ≟ FAILED then
    match result s with
    | None => inr MissingResult
    | Some r => if success r ≟ Some false then inl tt else inr NotFailedSuccess
    end
  else if v ≟ COMPLETED then
    match result s with
    | None => inr MissingResult
    | Some r => if completion r ≟ Some true then inl tt else inr NotCompleted
    end
  else inl tt.

Definition validate_cmi5_statement (s : Statement) (e : SessionExpectation) : unit + Violation :=
  match account (actor s) with
  | None => inr NotAnAccountActor
  | Some a =>
      if negb ((home_page a ≟ actor_home_page e) && (account_name a ≟ actor_account_name e))
      then inr ActorMismatch
      else if negb (registration s ≟ Some (expect_registration e)) then inr RegistrationMismatch
      else if negb (object_activity_id s ≟ expect_activity_id e) then inr ActivityMismatch
      else if negb (has_category s CMI5) then inr MissingCmi5Category
      else if negb (is_au_verb (verb_id s)) then inr (UnknownVerb (verb_id s))
      else check_result s (expect_mastery_score e)
  end.

(** ** The sequence machine *)

Record SessionOutcome := { passed : bool; completed : bool; failed : bool }.

Record SessionState := {
  initialized : bool;
  terminated : bool;
  outcome : SessionOutcome;
}.

Definition new : SessionState :=
  {| initialized := false; terminated := false;
     outcome := {| passed := false; completed := false; failed := false |} |}.

Definition with_outcome (o : SessionOutcome) (st : SessionState) : SessionState :=
  {| initialized := initialized st; terminated := terminated st; outcome := o |}.

Definition apply (st : SessionState) (s : Statement) : SessionState + Violation :=
  if terminated st then inr AfterTerminated
  else
    let v := verb_id s in
    let counts := is_moveon s in
    let o := outcome st in
    if v ≟ INITIALIZED then
      if initialized st then inr AlreadyInitialized
      else inl {| initialized := true; terminated := terminated st; outcome := o |}
    else if v ≟ PASSED then
      if negb (initialized st) then inr NotInitialized
      else if counts then
        if failed o then inr BothPassedAndFailed
        else inl (with_outcome {| passed := true; completed := completed o; failed := failed o |} st)
      else inl st
    else if v ≟ FAILED then
      if negb (initialized st) then inr NotInitialized
      else if counts then
        if passed o then inr BothPassedAndFailed
        else inl (with_outcome {| passed := passed o; completed := completed o; failed := true |} st)
      else inl st
    else if v ≟ COMPLETED then
      if negb (initialized st) then inr NotInitialized
      else if counts then
        inl (with_outcome {| passed := passed o; completed := true; failed := failed o |} st)
      else inl st
    else if v ≟ TERMINATED then
      if negb (initialized st) then inr NotInitialized
      else inl {| initialized := initialized st; terminated := true; outcome := o |}
    else inr (UnknownVerb v).

Definition evaluate_move_on (m : MoveOn) (o : SessionOutcome) : bool :=
  match m with
  | Passed => passed o
  | Completed => completed o
  | CompletedAndPassed => completed o && passed o
  | CompletedOrPassed => completed o || passed o
  | NotApplicable => false
  end.

(** ** What the rules say

    A statement bound to the session: its actor, registration and activity are
    those of the launch, and it is a cmi5 statement. *)
Record bound (s : Statement) (e : SessionExpectation) : Prop := {
  bound_actor : exists a, account (actor s) = Some a /\
    home_page a = actor_home_page e /\ account_name a = actor_account_name e;
  bound_registration : registration s = Some (expect_registration e);
  bound_activity : object_activity_id s = expect_activity_id e;
  bound_category : has_category s CMI5 = true;
}.

(** A statement that says what its verb must. *)
Inductive consistent (required : option f64) (s : Statement) : Prop :=
  | says_passed r : verb_id s = PASSED -> result s = Some r -> success r = Some true ->
      (forall m, required = Some m -> exists v, scaled_score r = Some v /\ SFltb v m = false) ->
      consistent required s
  | says_failed r : verb_id s = FAILED -> result s = Some r -> success r = Some false ->
      consistent required s
  | says_completed r : verb_id s = COMPLETED -> result s = Some r -> completion r = Some true ->
      consistent required s
  | says_initialized : verb_id s = INITIALIZED -> consistent required s
  | says_terminated : verb_id s = TERMINATED -> consistent required s.

(** The statements of a session, all accepted in this order. *)
Fixpoint accepted (st : SessionState) (ss : list Statement) : SessionState + Violation :=
  match ss with
  | [] => inl st
  | s :: ss => match apply st s with inl st => accepted st ss | inr v => inr v end
  end.

Definition says (ss : list Statement) (v : string) : bool :=
  existsb (fun s => (verb_id s ≟ v) && is_moveon s) ss.

(** What the order demands: initialized first and once, terminated last if at
    all, and never both a pass and a failure that count. *)
Record ordered (ss : list Statement) : Prop := {
  ordered_first : match ss with [] => True | s :: _ => verb_id s = INITIALIZED end;
  ordered_middle : forall i s, (0 < i)%nat -> ss !! i = Some s ->
    verb_id s ∈ [PASSED; FAILED; COMPLETED] \/
    (verb_id s = TERMINATED /\ S i = length ss);
  ordered_outcome : says ss PASSED && says ss FAILED = false;
}.

(** ** Validation *)

Lemma check_result_iff s required :
  is_au_verb (verb_id s) = true ->
  check_result s required = inl tt <-> consistent required s.
Proof.
  intros Hv. unfold check_result. unfold is_au_verb in Hv. rewrite !orb_true_iff in Hv.
  rewrite !bool_decide_eq_true in Hv. split.
  - case_bool_decide as H1; [|case_bool_decide as H2; [|case_bool_decide as H3]].
    + destruct (result s) as [r|] eqn:Hr; [|done]. case_bool_decide as Hs; [|done]. simpl.
      intros H. apply (says_passed _ _ r); try done. intros m ->.
      destruct (scaled_score r) as [v|]; [|done]. exists v. simpl in H.
      by destruct (SFltb v m).
    + destruct (result s) as [r|] eqn:Hr; [|done]. case_bool_decide; [|done]. intros _.
      by eapply says_failed.
    + destruct (result s) as [r|] eqn:Hr; [|done]. case_bool_decide; [|done]. intros _.
      by eapply says_completed.
    + intros _. destruct Hv as [[[[]|]|]|]; try done; by constructor.
  - intros [r Hs Hr Hsu Hm|r Hs Hr Hsu|r Hs Hr Hsu|Hs|Hs]; rewrite Hs; cbn;
      rewrite ?Hr, ?Hsu; try done. cbn.
    destruct required as [m|]; [|done]. destruct (Hm m eq_refl) as (v & -> & Hlt). simpl.
    by rewrite Hlt.
Qed.

Lemma validate_sound s e :
  validate_cmi5_statement s e = inl tt ->
  bound s e /\ is_au_verb (verb_id s) = true /\ consistent (expect_mastery_score e) s.
Proof.
  unfold validate_cmi5_statement.
  destruct (account (actor s)) as [a|] eqn:Ha; [|done].
  destruct (_ && _) eqn:H1; [|done]. destruct (bool_decide (registration s = _)) eqn:H2; [|done].
  destruct (bool_decide (object_activity_id s = _)) eqn:H3; [|done].
  destruct (has_category s CMI5) eqn:H4; [|done]. destruct (is_au_verb _) eqn:H5; [|done].
  cbn [negb]. intros H. split_andb. split; [|split; [done | by apply check_result_iff]].
  split; try done. by exists a.
Qed.

(** A statement is taken exactly when it is bound to the session it came in on
    -- the launched learner's account, registration and unit, as the server knows
    them -- its verb is one a unit may send, and it carries the result the verb
    requires, for a pass one that reaches the mastery score. *)
Theorem validate_cmi5_statement_iff s e :
  validate_cmi5_statement s e = inl tt <->
  bound s e /\ is_au_verb (verb_id s) = true /\ consistent (expect_mastery_score e) s.
Proof.
  split; [apply validate_sound|]. unfold validate_cmi5_statement.
  intros ([(a & Ha & H1 & H1') H2 H3 H4] & H5 & H6). rewrite Ha, H4, H5.
  rewrite !bool_decide_eq_true_2 by done. simpl. by apply check_result_iff.
Qed.

(** ** The order of a session *)

Lemma says_snoc ss s v :
  says (ss ++ [s]) v = says ss v || ((verb_id s ≟ v) && is_moveon s).
Proof. unfold says. rewrite existsb_app. simpl. by rewrite orb_false_r. Qed.

(** What the machine knows of the statements it took. *)
Record knows (ss : list Statement) (st : SessionState) : Prop := {
  knows_initialized : initialized st = match ss with [] => false | _ => true end;
  knows_terminated : terminated st = is_some_and (last ss) (fun s => verb_id s ≟ TERMINATED);
  knows_passed : passed (outcome st) = says ss PASSED;
  knows_failed : failed (outcome st) = says ss FAILED;
  knows_completed : completed (outcome st) = says ss COMPLETED;
}.

(** A statement the machine may take after [ss]. *)
Definition may_follow (ss : list Statement) (s : Statement) : Prop :=
  is_some_and (last ss) (fun s => verb_id s ≟ TERMINATED) = false /\
  match ss with
  | [] => verb_id s = INITIALIZED
  | _ => verb_id s ∈ [PASSED; FAILED; COMPLETED; TERMINATED]
  end /\
  says (ss ++ [s]) PASSED && says (ss ++ [s]) FAILED = false.

(** Comparisons of two fixed verbs. *)
Ltac eval_verbs :=
  repeat match goal with
  | |- context [bool_decide (?a = ?b)] =>
      first [ rewrite (bool_decide_eq_true_2 (a = b)) by reflexivity
            | rewrite (bool_decide_eq_false_2 (a = b)) by (by vm_compute) ]
  | H : context [bool_decide (?a = ?b)] |- _ =>
      first [ rewrite (bool_decide_eq_true_2 (a = b)) in H by reflexivity
            | rewrite (bool_decide_eq_false_2 (a = b)) in H by (by vm_compute) ]
  end.

Ltac verb_in := first [reflexivity | repeat first [left; reflexivity | right]].

Lemma apply_step ss st s :
  knows ss st -> says ss PASSED && says ss FAILED = false ->
  (forall st', apply st s = inl st' -> may_follow ss s /\ knows (ss ++ [s]) st') /\
  (may_follow ss s -> exists st', apply st s = inl st').
Proof.
  intros [Hi Ht Hp Hf Hc] Hno. unfold apply, may_follow. rewrite Ht, Hi, Hp, Hf.
  destruct (is_some_and (last ss) _) eqn:Hl; [split; [done | naive_solver]|].
  rewrite !says_snoc.
  assert (forall st', (initialized st' = true /\ terminated st' = (verb_id s ≟ TERMINATED) /\
      passed (outcome st') = says ss PASSED || ((verb_id s ≟ PASSED) && is_moveon s) /\
      failed (outcome st') = says ss FAILED || ((verb_id s ≟ FAILED) && is_moveon s) /\
      completed (outcome st') = says ss COMPLETED || ((verb_id s ≟ COMPLETED) && is_moveon s)) ->
    knows (ss ++ [s]) st') as Hk.
  { intros st' (H1 & H2 & H3 & H4 & H5). split; rewrite ?says_snoc, ?last_snoc; try done.
    rewrite H1. by destruct ss. }
  assert (initialized st = true -> ss <> []) as Hss by (rewrite Hi; by destruct ss).
  destruct (decide (verb_id s = INITIALIZED)) as [Hv|H1]; [|destruct (decide (verb_id s = PASSED))
    as [Hv|H2]; [|destruct (decide (verb_id s = FAILED)) as [Hv|H3]; [|destruct (decide (verb_id s
    = COMPLETED)) as [Hv|H4]; [|destruct (decide (verb_id s = TERMINATED)) as [Hv|H5]]]]].
  all: try (rewrite Hv in *; eval_verbs; rewrite ?andb_false_l, ?andb_true_l, ?orb_false_r in *).
  6: { repeat (rewrite (bool_decide_eq_false_2 (verb_id s = _)) by done).
       split; [done|]. intros (_ & H & _). destruct ss; [done|].
       rewrite !elem_of_cons in H. by destruct H as [|[|[|[|H]]]]; try inversion H. }
  all: clear Hss; destruct ss as [|s0 ss0]; cbn [negb];
    [ try (split; [done | by intros (_ & H & _)]) | try (split; [done | naive_solver]) ].
  2: { split; [done|]. intros (_ & H & _). rewrite !elem_of_cons in H.
       by destruct H as [|[|[|[|H]]]]; try inversion H. }
  all: destruct (is_moveon s) eqn:Em, (says _ PASSED) eqn:E1, (says _ FAILED) eqn:E2; try done;
    simpl;
    (split; [intros st' E; first [ discriminate | injection E as <-; split;
               [ split; [done | split; [verb_in | done]]
               | apply Hk; rewrite ?Em, ?E1, ?E2; simpl; rewrite ?Em, ?orb_true_r, ?orb_false_r;
                 repeat split; first [exact Hc | congruence] ]]
            | intros (_ & _ & Hx); try done; by eexists]).
Qed.

Lemma ordered_snoc ss s : ordered (ss ++ [s]) <-> ordered ss /\ may_follow ss s.
Proof.
  assert (forall i x, ss !! i = Some x -> (i < length ss)%nat) as Hlt
    by (intros i x H; by eapply lookup_lt_Some).
  split.
  - intros [H1 H2 H3]. rewrite !says_snoc in H3. split; [split|split; [|split]].
    + destruct ss; [done|]. by simpl in H1.
    + intros i x Hi Hx. pose proof (Hlt i x Hx).
      destruct (H2 i x Hi ltac:(by rewrite lookup_app_l)) as [|[_ Hl]]; [by left|].
      rewrite length_app in Hl. simpl in Hl. lia.
    + by destruct (says ss PASSED), (says ss FAILED).
    + destruct ss as [|x ss _] using rev_ind; [done|]. rewrite last_snoc. simpl.
      apply bool_decide_eq_false_2. intros Hx. destruct ss as [|y ss].
      * simpl in H1. rewrite H1 in Hx. by vm_compute in Hx.
      * destruct (H2 (length (y :: ss)) x ltac:(simpl; lia)) as [Hin|[_ Hl]].
        -- by rewrite <- app_assoc, lookup_app_r, Nat.sub_diag.
        -- rewrite Hx, !elem_of_cons in Hin. by destruct Hin as [|[|[|Hin]]]; try inversion Hin.
        -- rewrite !length_app in Hl. simpl in Hl. lia.
    + destruct ss as [|x ss]; [done|]. destruct (H2 (length (x :: ss)) s ltac:(simpl; lia)) as [Hin|[-> _]].
      * by rewrite lookup_app_r, Nat.sub_diag.
      * rewrite !elem_of_cons in *. tauto.
      * verb_in.
    + by rewrite !says_snoc.
  - intros ([H1 H2 H3] & Hl & Hv & Ho). split; [|intros i x Hi Hx|done].
    + destruct ss; [done|]. by simpl.
    + apply lookup_snoc_Some in Hx as [[Hlt' Hx]|[-> ->]].
      * destruct (H2 i x Hi Hx) as [|[Ht Hi']]; [by left|]. exfalso.
        assert (last ss = Some x) as E by (rewrite last_lookup, <- Hi'; done).
        rewrite E in Hl. simpl in Hl. by apply bool_decide_eq_false in Hl.
      * destruct ss; [simpl in Hi; lia|]. rewrite !elem_of_cons in *.
        destruct Hv as [|[|[|[|Hv]]]]; [tauto..| |inversion Hv].
        right. split; [done|]. rewrite length_app. simpl. lia.
Qed.

Lemma accepted_snoc st ss s :
  accepted st (ss ++ [s]) = match accepted st ss with inl st => apply st s | inr v => inr v end.
Proof.
  revert st. induction ss as [|x ss IH]; intros st; simpl; [by destruct (apply st s)|].
  by destruct (apply st x).
Qed.

(** The machine and the order agree, whatever it was that was accepted. *)
Lemma accepted_ordered ss :
  (forall st, accepted new ss = inl st -> ordered ss /\ knows ss st) /\
  (ordered ss -> exists st, accepted new ss = inl st).
Proof.
  induction ss as [|s ss [IH1 IH2]] using rev_ind.
  - split; [|intros _; by eexists]. intros st [= <-].
    split; split; try done; intros i s Hi H; by rewrite lookup_nil in H.
  - rewrite accepted_snoc, ordered_snoc. destruct (accepted new ss) as [st|v].
    + destruct (IH1 st eq_refl) as [Ho Hk].
      destruct (apply_step ss st s Hk (ordered_outcome _ Ho)) as [H1 H2]. split.
      * intros st' Hst. destruct (H1 st' Hst). split; [by apply ordered_snoc | done].
      * intros [_ Hm]. by apply H2.
    + split; [done|]. intros [Ho _]. by destruct (IH2 Ho).
Qed.

(** The machine takes exactly the sequences the rules order: [initialized] first
    and once, nothing after [terminated], no counting pass beside a counting
    failure; and its outcome is exactly what the counting statements said. *)
Theorem session_order ss :
  match accepted new ss with
  | inl st => ordered ss /\ knows ss st
  | inr _ => ~ ordered ss
  end.
Proof.
  destruct (accepted_ordered ss) as [H1 H2]. destruct (accepted new ss) as [st|v]; [by apply H1|].
  intros Ho. by destruct (H2 Ho).
Qed.

End Session.
End Session.
