(* ===== verification/Cmi5Launch.v ===== *)
(** * Launching a unit ([cmi5/src/launch.rs])

    The launch modes, the query the LMS appends to a unit's url, and the data the
    content reads back.  JSON text is serde_json's: an argument. *)
From S2P Require Import Prelude Text Wire Cmi5Manifest Cmi5Session.
From Stdlib Require Import Ascii.
Import Text Wire Manifest Session.

Module Launch.

Inductive LaunchMode : Type := Normal | Browse | Review.

Definition launch_mode_as_str (m : LaunchMode) : string :=
  match m with Normal => "Normal" | Browse => "Browse" | Review => "Review" end.

Definition is_creditable (m : LaunchMode) : bool :=
  match m with Normal => true | _ => false end.

(** ** Percent-encoding *)

Definition in_range (lo hi : ascii) (c : ascii) : bool :=
  (byte lo <=? byte c) && (byte c <=? byte hi).

(** The characters that need no escape. *)
Definition unreserved (c : ascii) : bool :=
  in_range "A" "Z" c || in_range "a" "z" c || in_range "0" "9" c ||
  bool_decide (c ∈ ["-"; "."; "_"; "~"]%char).

Definition hex_digit (n : Z) : ascii :=
  let n := Z.land n 15 in
  ascii_of_nat (Z.to_nat (if n <=? 9 then byte "0" + n else byte "A" + (n - 10))).

Definition encode_byte (b : ascii) : list ascii :=
  if unreserved b then [b]
  else ["%"%char; hex_digit (Z.shiftr (byte b) 4); hex_digit (Z.land (byte b) 15)].

Definition encode_bytes (l : list ascii) : list ascii := mjoin (encode_byte <$> l).
Definition encode_component (s : string) : string := of_bytes (encode_bytes (bytes s)).

Section Launch.
Context {U : Uuid}.

Record LaunchParams := {
  lp_endpoint : string;
  lp_fetch : string;
  lp_actor : Agent;
  lp_registration : uuid;
  lp_activity_id : string;
}.

Definition build_launch_query (agent_json : Agent -> string + string) (p : LaunchParams)
    : string + string :=
  match agent_json (lp_actor p) with
  | inr e => inr e
  | inl actor_json => inl
      ("endpoint=" +:+ encode_component (lp_endpoint p) +:+
       "&fetch=" +:+ encode_component (lp_fetch p) +:+
       "&actor=" +:+ encode_component actor_json +:+
       "&activityId=" +:+ encode_component (lp_activity_id p) +:+
       "&registration=" +:+ encode_component (uuid_show (lp_registration p)))
  end.

Definition append_query (au_url query : string) : string :=
  au_url +:+ (if contains_byte "?" au_url then "&" else "?") +:+ query.

Record LaunchData := {
  context_template : json;
  ld_launch_mode : LaunchMode;
  ld_move_on : MoveOn;
  ld_mastery_score : option f64;
  return_url : option string;
  ld_entitlement_key : option string;
}.

Definition launch_data (registration : uuid) (mode : LaunchMode) (move_on : MoveOn)
    (mastery : option f64) : LaunchData := {|
  context_template := JObj [
    ("registration"%string, JStr (uuid_show registration));
    ("contextActivities"%string,
      JObj [("category"%string, JArr [JObj [("id"%string, JStr CMI5)]])])];
  ld_launch_mode := mode; ld_move_on := move_on; ld_mastery_score := mastery;
  return_url := None; ld_entitlement_key := None |}.

(** ** How a query is read

    What any reader of a query does: cut at the ampersands, cut each piece at its
    first equals sign, undo the escapes. *)

Definition hex_value (c : ascii) : Z :=
  if in_range "0" "9" c then byte c - 48
  else if in_range "A" "F" c then byte c - 55 else byte c - 87.

Fixpoint decode_bytes (l : list ascii) : list ascii :=
  match l with
  | c :: ((hi :: lo :: rest) as t) =>
      if c ≟ "%"%char
      then ascii_of_nat (Z.to_nat (hex_value hi * 16 + hex_value lo)) :: decode_bytes rest
      else c :: decode_bytes t
  | c :: t => c :: t
  | [] => []
  end.

Definition query_pairs (q : string) : list (string * string) :=
  (fun piece => let '(k, v) := split_once "=" piece in (of_bytes k, of_bytes (decode_bytes v))) <$>
    split_on "&" (bytes q).

(** The query of a url: from its first question mark to its fragment. *)
Definition url_query (url : string) : option string :=
  let before_fragment := (split_once "#" (bytes url)).1 in
  if bool_decide ("?"%char ∈ before_fragment)
  then Some (of_bytes (split_once "?" before_fragment).2) else None.

(** ** Lemmas *)

(** What a byte becomes: only unreserved characters and the percent sign, and it
    is read back. *)
Lemma encode_byte_ok b :
  forallb (fun c => unreserved c || (c ≟ "%"%char)) (encode_byte b) = true /\
  (length (encode_byte b) = 1%nat -> encode_byte b = [b] /\ b <> "%"%char).
Proof. destruct b as [[] [] [] [] [] [] [] []]; by vm_compute. Qed.

Lemma decode_encode_byte b rest :
  decode_bytes (encode_byte b ++ rest) = b :: decode_bytes rest.
Proof.
  assert (decode_bytes (encode_byte b) = [b] /\
    match encode_byte b with
    | [c] => c = b /\ c <> "%"%char
    | [c; h; l] => c = "%"%char /\ ascii_of_nat (Z.to_nat (hex_value h * 16 + hex_value l)) = b
    | _ => False
    end) as [_ H] by (destruct b as [[] [] [] [] [] [] [] []]; by vm_compute).
  destruct (encode_byte b) as [|c [|h [|l [|]]]]; try done.
  - destruct H as [-> Hb]. destruct rest as [|x [|y rest]]; try done. cbn [app decode_bytes].
    by rewrite bool_decide_eq_false_2.
  - destruct H as [-> Hb]. cbn [app decode_bytes]. by rewrite Hb.
Qed.

Lemma decode_encode l : decode_bytes (encode_bytes l) = l.
Proof.
  induction l as [|b l IH]; [done|].
  change (encode_bytes (b :: l)) with (encode_byte b ++ encode_bytes l).
  by rewrite decode_encode_byte, IH.
Qed.

Lemma encode_bytes_clean l c :
  c ∈ encode_bytes l -> unreserved c || (c ≟ "%"%char) = true.
Proof.
  unfold encode_bytes. rewrite list_elem_of_join. intros (p & Hc & Hp).
  apply list_elem_of_fmap in Hp as (b & -> & _).
  destruct (encode_byte_ok b) as [H _]. rewrite forallb_forall in H. apply H.
  by apply list_elem_of_In.
Qed.

(** A fixed character outside a fixed text. *)
Ltac not_in := apply (bool_decide_unpack _); vm_compute; exact Logic.I.

Lemma encoded_free c l :
  unreserved c || (c ≟ "%"%char) = false -> c ∉ encode_bytes l.
Proof. intros Hc H. apply encode_bytes_clean in H. congruence. Qed.

(** One parameter: its name, an equals sign, its value escaped. *)
Definition parameter (k v : string) : list ascii :=
  bytes k ++ "="%char :: encode_bytes (bytes v).

Lemma parameter_no_amp k v : "&"%char ∉ bytes k -> "&"%char ∉ parameter k v.
Proof.
  intros Hk. unfold parameter. rewrite elem_of_app, elem_of_cons.
  intros [H|[H|H]]; [done..|]. by apply encoded_free in H.
Qed.

Lemma read_parameter k v :
  "="%char ∉ bytes k ->
  (let '(k, v) := split_once "=" (parameter k v) in (of_bytes k, of_bytes (decode_bytes v))) = (k, v).
Proof.
  intros Hk. unfold parameter. rewrite split_once_clean by done.
  by rewrite decode_encode, !of_bytes_bytes.
Qed.

Lemma build_bytes agent_json p j :
  agent_json (lp_actor p) = inl j ->
  exists q, build_launch_query agent_json p = inl q /\ bytes q =
    parameter "endpoint" (lp_endpoint p) ++ "&"%char :: parameter "fetch" (lp_fetch p) ++
    "&"%char :: parameter "actor" j ++ "&"%char :: parameter "activityId" (lp_activity_id p) ++
    "&"%char :: parameter "registration" (uuid_show (lp_registration p)).
Proof.
  intros Hj. unfold build_launch_query. rewrite Hj. eexists. split; [done|].
  rewrite !bytes_app. unfold encode_component, parameter. rewrite !bytes_of_bytes.
  cbn [bytes String.list_ascii_of_string app]. reflexivity.
Qed.

(** The launch query carries the launch: cut at its ampersands and with the
    escapes undone it is the five parameters cmi5 mandates, in order, each with
    exactly its value, whatever bytes the values hold. *)
Theorem launch_query_roundtrip agent_json p :
  match agent_json (lp_actor p) with
  | inl j => exists q, build_launch_query agent_json p = inl q /\
      query_pairs q = [("endpoint", lp_endpoint p); ("fetch", lp_fetch p); ("actor", j);
        ("activityId", lp_activity_id p);
        ("registration", uuid_show (lp_registration p))]%string
  | inr e => build_launch_query agent_json p = inr e
  end.
Proof.
  destruct (agent_json (lp_actor p)) as [j|e] eqn:Hj; [|by unfold build_launch_query; rewrite Hj].
  destruct (build_bytes _ _ _ Hj) as (q & Hq & Hb). exists q. split; [done|].
  unfold query_pairs. rewrite Hb.
  rewrite !split_on_clean by (apply parameter_no_amp; not_in).
  rewrite split_on_last by (apply parameter_no_amp; not_in).
  cbn [fmap list_fmap]. by rewrite !read_parameter by not_in.
Qed.

Lemma split_once_app c a b :
  c ∈ a -> split_once c (a ++ b) = ((split_once c a).1, (split_once c a).2 ++ b).
Proof.
  induction a as [|x a IH]; intros H; [inversion H|]. simpl. case_bool_decide; [done|].
  apply elem_of_cons in H as [|H]; [congruence|]. rewrite IH by done. by destruct (split_once c a).
Qed.

(** A url without a fragment keeps what it had and gains the query. *)
Lemma append_query_read url q :
  "#"%char ∉ bytes url -> "#"%char ∉ bytes q ->
  url_query (append_query url q) =
  Some (match url_query url with
        | Some old => old +:+ "&" +:+ q
        | None => q
        end).
Proof.
  intros Hu Hq. unfold url_query, append_query, contains_byte.
  rewrite (split_once_none _ (bytes url)) by done. cbn [fst].
  rewrite !bytes_app, split_once_none.
  - cbn [fst]. destruct (decide ("?"%char ∈ bytes url)) as [H|H].
    + rewrite !bool_decide_eq_true_2 by (try done; rewrite elem_of_app; by left).
      rewrite split_once_app by done. cbn [snd]. f_equal. apply bytes_inj.
      by rewrite !bytes_app, !bytes_of_bytes.
    + rewrite (bool_decide_eq_false_2 ("?"%char ∈ bytes url)) by done.
      change (bytes "?") with ["?"%char]. cbn [app].
      rewrite bool_decide_eq_true_2 by (rewrite elem_of_app; right; left).
      rewrite split_once_clean by done. f_equal. apply of_bytes_bytes.
  - rewrite !elem_of_app. intros [H|[H|H]]; [done| |done].
    revert H. case_match; not_in.
Qed.

(** A url with a fragment loses it: what is appended lands in the fragment, and the
    content finds no query. *)
Lemma append_query_fragment path fragment q :
  "?"%char ∉ bytes path -> "#"%char ∉ bytes path ->
  url_query (append_query (path +:+ "#" +:+ fragment) q) = None.
Proof.
  intros H1 H2. unfold url_query, append_query. rewrite !bytes_app.
  change (bytes "#") with ["#"%char]. rewrite <- app_assoc. cbn [app].
  rewrite split_once_clean by done. cbn [fst]. by rewrite bool_decide_eq_false_2.
Qed.

End Launch.
End Launch.
