(* ===== verification/Cmi5Store.v ===== *)
(** * Courses and their content ([server/src/cmi5.rs], packages)

    A package is unpacked into the content store and its tree into rows; courses are
    listed, deleted, repackaged, and their units bound to training steps.  The zip
    crate is an argument: what an archive holds, entry by entry. *)
From Stdlib Require Import Ascii.
From S2P Require Import Prelude Text Wire Faults Database Power Training Cmi5Manifest Cmi5RoundTrip Cmi5Session.
Import Text Wire Faults Database Training Manifest Conformance Session.

Module Store.

#[local] Open Scope Z_scope.

Inductive Cmi5Error : Type :=
  | Disabled
  | TooLarge (size max : Z)
  | Zip (message : string)
  | NoManifest
  | BadManifest (e : ManifestError)
  | NonConformant (errors : list ConformanceError)
  | ZipSlip (name : string)
  | Io (message : string)
  | Pool
  | DbError (e : DatabaseError)
  | CourseNotFound
  | AuNotFound
  | StepNotFound
  | StepRequiresAssessment
  | MoveOnNotApplicable
  | FetchTokenInvalid
  | JsonError (message : string)
  | BadStatement (message : string)
  | Rejected (v : Violation).

(** [From<DatabaseError>]: what diesel reports, or else a fault of the server. *)
Definition cmi5_error (e : DatabaseError) : Cmi5Error :=
  match e with
  | Connection | OtherError _ => Pool
  | e => DbError e
  end.

#[export] Instance Cmi5Error_fault : FaultError Cmi5Error := Pool.

Section Store.
Context {U : Uuid} {IS : IdSource}.

(** ** Rows *)

Record Cmi5Course := {
  course_row_id : uuid;
  course_iri : string;
  row_title : option string;
  row_description : option string;
  content_path : string;
  manifest_xml : string;
  imported_by : option uuid;
  course_created_at : instant;
  deleted_at : option instant;
}.

Record Cmi5Block := {
  block_row_id : uuid;
  block_course_id : uuid;
  parent_block_id : option uuid;
  block_iri : option string;
  block_row_title : option string;
  block_position : Z;
}.

Record Cmi5AssignableUnit := {
  au_row_id : uuid;
  au_course_id : uuid;
  au_block_id : option uuid;
  au_iri : string;
  au_row_title : option string;
  launch_url : string;
  au_launch_parameters : option string;
  au_launch_method : option string;
  au_row_move_on : string;
  au_mastery_score : option f64;
  au_position : Z;
  training_step_id : option uuid;
}.

Record Cmi5Registration := {
  registration_user_id : uuid;
  registration_au_id : uuid;
  actor_account : string;
  registration_mode : string;
  satisfied_at : option instant;
  passed_at : option instant;
  reg_completed_at : option instant;
}.

Record Cmi5LaunchToken := {
  token_registration_id : uuid;
  fetch_token_hash : string;
  session_token_hash : option string;
  fetch_consumed_at : option instant;
  token_expires_at : instant;
  session_expires_at : instant;
}.

Record Cmi5Statement := {
  statement_registration_id : uuid;
  row_statement_id : uuid;
  statement_verb_iri : string;
  statement_json : json;
}.

Record Cmi5StateDocument := {
  document : json;
  etag : string;
}.

(** The tables, statements in the order they were stored, and the content store:
    the files under a course's directory. *)
Record Cmi5Db := {
  training : TrainingDb;
  courses : gmap uuid Cmi5Course;
  blocks : gmap uuid Cmi5Block;
  aus : gmap uuid Cmi5AssignableUnit;
  registrations : gmap uuid Cmi5Registration;
  launch_tokens : list Cmi5LaunchToken;
  statements : list Cmi5Statement;
  state_documents : gmap (uuid * string * string * string) Cmi5StateDocument;
  files : gmap (string * string) (list ascii);
}.

Definition with_training (t : TrainingDb) (db : Cmi5Db) : Cmi5Db := {|
  training := t; courses := courses db; blocks := blocks db; aus := aus db;
  registrations := registrations db; launch_tokens := launch_tokens db;
  statements := statements db; state_documents := state_documents db; files := files db |}.

#[export] Instance cmi5_training : Part Cmi5Db TrainingDb :=
  {| part := training; put := with_training; part_put := ltac:(done);
     put_part := ltac:(by intros []); put_put := ltac:(done) |}.

Definition with_tree (c : gmap uuid Cmi5Course) (b : gmap uuid Cmi5Block)
    (a : gmap uuid Cmi5AssignableUnit) (db : Cmi5Db) : Cmi5Db := {|
  training := training db; courses := c; blocks := b; aus := a;
  registrations := registrations db; launch_tokens := launch_tokens db;
  statements := statements db; state_documents := state_documents db; files := files db |}.

Definition with_sessions_of (r : gmap uuid Cmi5Registration) (t : list Cmi5LaunchToken)
    (s : list Cmi5Statement) (d : gmap (uuid * string * string * string) Cmi5StateDocument)
    (db : Cmi5Db) : Cmi5Db := {|
  training := training db; courses := courses db; blocks := blocks db; aus := aus db;
  registrations := r; launch_tokens := t; statements := s; state_documents := d;
  files := files db |}.

Definition with_files (f : gmap (string * string) (list ascii) -> gmap (string * string) (list ascii))
    (db : Cmi5Db) : Cmi5Db := {|
  training := training db; courses := courses db; blocks := blocks db; aus := aus db;
  registrations := registrations db; launch_tokens := launch_tokens db;
  statements := statements db; state_documents := state_documents db; files := f (files db) |}.

Abbreviation M := (Faults.M Cmi5Db Cmi5Error).

Definition diesel {A} (r : A + DatabaseError) : A + Cmi5Error :=
  match r with inl x => inl x | inr e => inr (DbError e) end.

(** ** Unpacking *)

(** An entry of an archive as the crate gives it: [enclosed] is [enclosed_name],
    nothing for a path that leaves the directory it is joined to. *)
Record ZipEntry := {
  entry_name : string;
  is_dir : bool;
  enclosed : option string;
  inflated : list ascii;
}.

Record ZipArchive := {
  by_index : list (ZipEntry + string);
  by_name : string -> option (list ascii);
}.

Definition u64_max : Z := 2 ^ 64 - 1.
Definition saturating_add (a b : Z) : Z := Z.min (a + b) u64_max.
Definition saturating_sub (a b : Z) : Z := Z.max (a - b) 0.
Definition saturating_mul (a b : Z) : Z := Z.min (a * b) u64_max.

Definition MAX_DECOMPRESSION_RATIO : Z := 100.
Definition MIN_INFLATED_BUDGET : Z := 10 * 1024 * 1024.
Definition MAX_MANIFEST_BYTES : Z := 5 * 1024 * 1024.

(** [Read::take]. *)
Fixpoint take_bytes (n : Z) (l : list ascii) : list ascii :=
  match l with
  | [] => []
  | b :: l => if n <=? 0 then [] else b :: take_bytes (n - 1) l
  end.

Definition write_file (dest rel : string) (data : list ascii) : M unit :=
  effect (with_files <[(dest, rel) := data]>).

(** One entry after another, each copied as far as the budget and one byte more.
    The file system is taken not to fail. *)
Fixpoint extract_entries (dest : string) (max_inflated_bytes total : Z)
    (entries : list (ZipEntry + string)) : M unit :=
  match entries with
  | [] => mret tt
  | inr message :: _ => throw (Zip message)
  | inl entry :: entries =>
      if is_dir entry then extract_entries dest max_inflated_bytes total entries
      else match enclosed entry with
      | None => throw (ZipSlip (entry_name entry))
      | Some rel =>
          let remaining := saturating_sub max_inflated_bytes total in
          let written := take_bytes (saturating_add remaining 1) (inflated entry) in
          _ ← write_file dest rel written;
          let total := saturating_add total (Z.of_nat (length written)) in
          if max_inflated_bytes <? total then throw (TooLarge total max_inflated_bytes)
          else extract_entries dest max_inflated_bytes total entries
      end
  end.

Definition extract_all (archive : ZipArchive) (dest : string) (max_inflated_bytes : Z) : M unit :=
  extract_entries dest max_inflated_bytes 0 (by_index archive).

Definition remove_dir_all (dest : string) : M unit :=
  effect (with_files (filter (fun kf => kf.1.1 <> dest))).

(** ** The tree *)

Definition first_lang (strings : list LangString) : option string := value <$> head strings.

(** A row of the tree; the unit's identifier is unique in its course. *)
Definition row_id (db : Cmi5Db) : uuid := fresh (training db).
Definition spend_id (db : Cmi5Db) : Cmi5Db := with_training (spend (training db)) db.

Definition insert_au (cid : uuid) (bid : option uuid) (position : nat) (au : AssignableUnit)
    (db : Cmi5Db) : Cmi5Db * (unit + DatabaseError) :=
  let db' := spend_id db in
  if existsb (fun ka => (au_course_id ka.2 ≟ cid) && (au_iri ka.2 ≟ au_id au)) (map_to_list (aus db)) ||
     is_some (aus db !! row_id db)
  then (db', inr UniqueViolation)
  else (with_tree (courses db') (blocks db') (<[row_id db := {|
    au_row_id := row_id db; au_course_id := cid; au_block_id := bid; au_iri := au_id au;
    au_row_title := first_lang (au_title au); launch_url := au_url au;
    au_launch_parameters := launch_parameters au;
    au_launch_method := launch_method_as_str <$> launch_method au;
    au_row_move_on := move_on_as_str (au_move_on au); au_mastery_score := mastery_score au;
    au_position := as_i32 (Z.of_nat position); training_step_id := None |}]> (aus db')) db', inl tt).

Definition insert_block (cid : uuid) (bid : option uuid) (position : nat) (b : Block) (db : Cmi5Db)
    : Cmi5Db * (uuid + DatabaseError) :=
  let db' := spend_id db in
  if is_some (blocks db !! row_id db) then (db', inr UniqueViolation)
  else (with_tree (courses db') (<[row_id db := {|
    block_row_id := row_id db; block_course_id := cid; parent_block_id := bid;
    block_iri := Some (block_id b); block_row_title := first_lang (block_title b);
    block_position := as_i32 (Z.of_nat position) |}]> (blocks db')) (aus db') db', inl (row_id db)).

(** [enumerate] over siblings, stopping at the first error. *)
Fixpoint each {N} (f : nat -> N -> Cmi5Db -> Cmi5Db * (unit + DatabaseError)) (i : nat) (ns : list N)
    (db : Cmi5Db) : Cmi5Db * (unit + DatabaseError) :=
  match ns with
  | [] => (db, inl tt)
  | n :: ns =>
      match f i n db with
      | (db, inl _) => each f (S i) ns db
      | (db, inr e) => (db, inr e)
      end
  end.

Fixpoint insert_node (cid : uuid) (bid : option uuid) (i : nat) (n : Node) (db : Cmi5Db)
    : Cmi5Db * (unit + DatabaseError) :=
  match n with
  | NodeAu au => insert_au cid bid i au db
  | NodeBlock b =>
      match insert_block cid bid i b db with
      | (db, inl id) => each (insert_node cid (Some id)) O (children b) db
      | (db, inr e) => (db, inr e)
      end
  end.

Definition insert_nodes (cid : uuid) (bid : option uuid) (ns : list Node) (db : Cmi5Db)
    : Cmi5Db * (unit + DatabaseError) := each (insert_node cid bid) O ns db.

(** ** The service *)

Record Cmi5Service := {
  max_package_bytes : Z;
  fetch_ttl : duration;
  session_ttl : duration;
  content_origin : option string;
}.

(** A connection, then the statements: what a refusal stands for is the pool. *)
Definition get_course (id : uuid) : M Cmi5Course :=
  call (fun db => (db,
    match courses db !! id with
    | Some c => if is_some (deleted_at c) then inr CourseNotFound else inl c
    | None => inr CourseNotFound
    end)).

Definition insert_course (now : instant) (cid : uuid) (xml : string) (by_ : uuid)
    (structure : CourseStructure) (db : Cmi5Db) : Cmi5Db * (Cmi5Course + DatabaseError) :=
  let row := {| course_row_id := cid; course_iri := course_id (course structure);
    row_title := first_lang (course_title (course structure));
    row_description := first_lang (course_description (course structure));
    content_path := uuid_show cid; manifest_xml := xml; imported_by := Some by_;
    course_created_at := now; deleted_at := None |} in
  if is_some (courses db !! cid) then (db, inr UniqueViolation)
  else if negb (is_some (users (money (training db)) !! by_)) then (db, inr ForeignKeyViolation)
  else match insert_nodes cid None (nodes structure)
               (with_tree (<[cid := row]> (courses db)) (blocks db) (aus db) db) with
  | (db', inl _) => (db', inl row)
  | (_, inr e) => (db, inr e)
  end.

Section Import.
Context {X : QuickXml} (events_of : string -> stream).

(** Checked and parsed before anything is written; [zip] is what opening the bytes
    gave, [cid] the identifier minted for the row and the directory. *)
Definition import_package (cfg : Cmi5Service) (now : instant) (zip_len : Z)
    (zip : ZipArchive + string) (cid by_ : uuid) : M Cmi5Course :=
  if max_package_bytes cfg <? zip_len then throw (TooLarge zip_len (max_package_bytes cfg))
  else match zip with
  | inr message => throw (Zip message)
  | inl archive =>
      match by_name archive "cmi5.xml" with
      | None => throw NoManifest
      | Some bytes =>
          let head := take_bytes MAX_MANIFEST_BYTES bytes in
          if negb (valid_utf8 head) then throw (Io "stream did not contain valid UTF-8")
          else match parse_manifest (events_of (of_bytes head)) with
          | Err e => throw (BadManifest e)
          | OutOfFuel => throw (Io EmptyString)
          | Ok structure _ =>
              match validate_course_structure structure with
              | (_ :: _) as issues => throw (NonConformant issues)
              | [] =>
                  let dest := uuid_show cid in
                  let max_inflated := Z.max (saturating_mul zip_len MAX_DECOMPRESSION_RATIO)
                                            MIN_INFLATED_BUDGET in
                  _ ← extract_all archive dest max_inflated;
                  result ← attempt (call (fun db =>
                    let '(db, r) := insert_course now cid (of_bytes head) by_ structure db in
                    (db, diesel r)));
                  match result with
                  | inl row => mret row
                  | inr e => _ ← remove_dir_all dest; throw e
                  end
              end
          end
      end
  end.
End Import.

Definition list_courses : M (list Cmi5Course) :=
  select (fun db => sort_by (fun a b => course_created_at b <=? course_created_at a)
    (List.filter (fun c => negb (is_some (deleted_at c))) (map_to_list (courses db)).*2)).

(** By [position], which counts from zero again inside every block. *)
Definition list_aus (cid : uuid) : M (list Cmi5AssignableUnit) :=
  select (fun db => sort_by (fun a b => au_position a <=? au_position b)
    (List.filter (fun a => au_course_id a ≟ cid) (map_to_list (aus db)).*2)).

Definition mark_deleted (now : instant) (c : Cmi5Course) : Cmi5Course := {|
  course_row_id := course_row_id c; course_iri := course_iri c; row_title := row_title c;
  row_description := row_description c; content_path := content_path c;
  manifest_xml := manifest_xml c; imported_by := imported_by c;
  course_created_at := course_created_at c; deleted_at := Some now |}.

(** The row stays; the files go, after it. *)
Definition delete_course (now : instant) (id : uuid) : M unit :=
  c ← get_course id;
  affected ← call (fun db =>
    match courses db !! id with
    | Some c =>
        if is_some (deleted_at c) then (db, inl 0)
        else (with_tree (<[id := mark_deleted now c]> (courses db)) (blocks db) (aus db) db, inl 1)
    | None => (db, inl 0)
    end);
  if affected =? 0 then throw CourseNotFound else remove_dir_all (content_path c).

(** What goes into the archive: every file under the course's directory. *)
Definition export_package (cid : uuid) : M (list (string * list ascii)) :=
  c ← get_course cid;
  peek (fun db => (fun kf => (kf.1.2, kf.2)) <$>
    List.filter (fun kf => kf.1.1 ≟ content_path c) (map_to_list (files db))).

(** ** Binding a unit to a step *)

Definition find_au (aid : uuid) : M Cmi5AssignableUnit :=
  call (fun db => (db, match aus db !! aid with Some a => inl a | None => inr AuNotFound end)).

Definition bind_au (step : option uuid) (a : Cmi5AssignableUnit) : Cmi5AssignableUnit := {|
  au_row_id := au_row_id a; au_course_id := au_course_id a; au_block_id := au_block_id a;
  au_iri := au_iri a; au_row_title := au_row_title a; launch_url := launch_url a;
  au_launch_parameters := au_launch_parameters a; au_launch_method := au_launch_method a;
  au_row_move_on := au_row_move_on a; au_mastery_score := au_mastery_score a;
  au_position := au_position a; training_step_id := step |}.

Definition assign_au_step (aid : uuid) (step_id : option uuid) : M Cmi5AssignableUnit :=
  au ← find_au aid;
  _ ← match step_id with
      | None => mret tt
      | Some sid =>
          step ← call (fun db => (db, match steps (training db) !! sid with
                                      | Some s => inl s | None => inr StepNotFound end));
          if requires_assessment step then throw StepRequiresAssessment
          else if au_row_move_on au ≟ move_on_as_str NotApplicable then throw MoveOnNotApplicable
          else mret tt
      end;
  call (fun db =>
    match aus db !! aid with
    | None => (db, inr (DbError NotFound))
    | Some a =>
        if is_none_or step_id (fun sid => is_some (steps (training db) !! sid))
        then (with_tree (courses db) (blocks db) (<[aid := bind_au step_id a]> (aus db)) db,
              inl (bind_au step_id a))
        else (db, inr (DbError ForeignKeyViolation))
    end).

(** ** What a learner is shown *)

Record LearnerModule := {
  module_au_id : uuid;
  module_au_title : option string;
  module_course_id : uuid;
  module_course_title : option string;
  module_tool_id : uuid;
  module_step_id : uuid;
  module_completed : bool;
}.

Definition list_learner_modules (now : instant) (uid : uuid) : M (list LearnerModule) :=
  bound ← select (fun db => List.filter (fun a => is_some (training_step_id a)) (map_to_list (aus db)).*2);
  match bound with
  | [] => mret []
  | _ =>
      titles ← select (fun db => omap (fun a =>
        c ← courses db !! au_course_id a;
        if is_some (deleted_at c) then None else Some (au_course_id a, row_title c)) bound);
      tools ← select (fun db => omap (fun a =>
        sid ← training_step_id a; s ← steps (training db) !! sid;
        Some (sid, step_tool_id s)) bound);
      done ← select (fun db => omap (fun kp : (uuid * uuid) * UserTrainingProgress =>
        if (kp.1.1 ≟ uid) && (progress_status kp.2 ≟ Training.Completed) &&
           is_none_or (expires_at kp.2) (fun e => now <? e)
        then Some kp.1.2 else None) (map_to_list (progress (training db))));
      let course_titles : gmap uuid (option string) := list_to_map titles in
      let step_tools : gmap uuid uuid := list_to_map tools in
      mret (omap (fun a =>
        sid ← training_step_id a;
        course_title ← course_titles !! au_course_id a;
        tool ← step_tools !! sid;
        Some {| module_au_id := au_row_id a; module_au_title := au_row_title a;
                module_course_id := au_course_id a; module_course_title := course_title;
                module_tool_id := tool; module_step_id := sid;
                module_completed := bool_decide (sid ∈ done) |}) bound)
  end.

End Store.
End Store.
