(* ===== verification/Cmi5Courses.v ===== *)
(** * Packages in and out

    Unpacking stays within its directory and its budget, a failed import leaves no
    rows, an imported package exports as it came, and no unit that cannot be
    satisfied is ever bound to a step. *)
From Stdlib Require Import Ascii.
From S2P Require Import Prelude Text Wire Faults Database Power Training Cmi5Manifest Cmi5RoundTrip Cmi5Session Cmi5Store.
Import Text Wire Faults Database Training Manifest Conformance Session Store.

Module Courses.

#[local] Open Scope Z_scope.

Section Courses.
Context {U : Uuid} {IS : IdSource}.

(** ** The bytes under a directory *)

Definition weight (dest : string) (kf : (string * string) * list ascii) : nat :=
  if kf.1.1 ≟ dest then length kf.2 else O.

Definition size (dest : string) (fs : gmap (string * string) (list ascii)) : Z :=
  Z.of_nat (sum_list_with (weight dest) (map_to_list fs)).

Lemma size_insert dest k data fs :
  size dest (<[k := data]> fs) <= size dest fs + Z.of_nat (length data).
Proof.
  unfold size. assert (weight dest (k, data) <= length data)%nat as Hw.
  { unfold weight. case_match; simpl; lia. }
  destruct (fs !! k) as [old|] eqn:E.
  - rewrite <- insert_delete_eq, map_to_list_insert by apply lookup_delete_eq.
    rewrite <- (map_to_list_delete fs k old) by done. simpl. lia.
  - rewrite map_to_list_insert by done. simpl. lia.
Qed.

Lemma size_none dest fs : (forall rel, fs !! (dest, rel) = None) -> size dest fs = 0.
Proof.
  intros H. unfold size. assert (forall l, (forall kf, kf ∈ l -> weight dest kf = O) ->
    sum_list_with (weight dest) l = O) as Hz.
  { induction l as [|x l IH]; intros Hl; simpl; [done|]. rewrite (Hl x) by left.
    rewrite IH; [done|]. intros y Hy. apply Hl. by right. }
  rewrite Hz; [done|]. intros [[d rel] f] Hin. apply elem_of_map_to_list in Hin. unfold weight. simpl.
  case_bool_decide; [|done]. subst. by rewrite H in Hin.
Qed.

Lemma length_take_bytes n l : 0 <= n -> Z.of_nat (length (take_bytes n l)) <= n.
Proof.
  revert n. induction l as [|b l IH]; intros n Hn; simpl; [lia|].
  destruct (Z.leb_spec n 0); simpl; [lia|]. specialize (IH (n - 1) ltac:(lia)). lia.
Qed.

Lemma take_bytes_all n l : Z.of_nat (length (take_bytes n l)) < n -> take_bytes n l = l.
Proof.
  revert n. induction l as [|b l IH]; intros n Hn; simpl; [done|].
  simpl in Hn. destruct (Z.leb_spec n 0); simpl in *; [lia|]. rewrite IH; [done|lia].
Qed.

(** ** Unpacking *)

(** What the entries of an archive hold, a later one over an earlier of its name. *)
Fixpoint unpack (m : gmap string (list ascii)) (es : list (ZipEntry + string))
    : gmap string (list ascii) :=
  match es with
  | [] => m
  | inl e :: es =>
      if is_dir e then unpack m es
      else match enclosed e with Some rel => unpack (<[rel := inflated e]> m) es | None => m end
  | inr _ :: _ => m
  end.

(** Only files under one directory differ. *)
Definition under (dest : string) (db db' : Cmi5Db) : Prop :=
  with_files (fun _ => files db) db' = db /\
  forall k, k.1 <> dest -> files db' !! k = files db !! k.

Lemma under_refl dest db : under dest db db.
Proof. split; [by destruct db | done]. Qed.

Lemma under_trans dest a b c : under dest a b -> under dest b c -> under dest a c.
Proof.
  intros [H1 H2] [G1 G2]. split; [|intros k Hk; by rewrite G2, H2].
  transitivity (with_files (fun _ => files a) b); [|done]. rewrite <- G1. by destruct c.
Qed.

Lemma under_write dest rel data db : under dest db (with_files <[(dest, rel) := data]> db).
Proof.
  split; [by destruct db|]. intros k Hk. simpl. rewrite lookup_insert_ne; [done|]. by intros <-.
Qed.

Lemma extract_spec dest max fs es : forall total db, 0 <= total <= max -> max < u64_max ->
  let '((db', fs'), r) := extract_entries dest max total es (db, fs) in
  fs' = fs /\ under dest db db' /\
  size dest (files db') <= size dest (files db) + (max - total) + 1 /\
  match r with
  | inl _ => size dest (files db') <= size dest (files db) + (max - total) /\
      forall m, (forall rel, files db !! (dest, rel) = m !! rel) ->
        forall rel, files db' !! (dest, rel) = unpack m es !! rel
  | inr _ => True
  end.
Proof.
  induction es as [|[e|x] es IH]; intros total db Ht Hm; cbn [extract_entries].
  - split_and!; [done | apply under_refl | lia | lia | done].
  - destruct (is_dir e) eqn:Ed.
    { specialize (IH total db Ht Hm). destruct (extract_entries _ _ _ _ _) as [[db' fs'] r].
      destruct IH as (H1 & H2 & H3 & H4). split_and!; [done..|]. destruct r; [|done]. simpl. by rewrite Ed. }
    destruct (enclosed e) as [rel|] eqn:Er; [|split_and!; [done | apply under_refl | lia | done]].
    unfold mbind, M_bind, write_file, effect. cbn beta iota.
    set (n := saturating_add _ 1). set (written := take_bytes n (inflated e)).
    set (db1 := with_files _ db). set (w := Z.of_nat (length written)).
    assert (saturating_sub max total = max - total) as Esub by (unfold saturating_sub; lia).
    assert (n = max - total + 1) as En by (unfold n, saturating_add; rewrite Esub; lia).
    assert (0 <= w <= n) as Hw by (unfold w, written; pose proof (length_take_bytes n (inflated e)); lia).
    assert (saturating_add total w = total + w) as Eadd by (unfold saturating_add; lia).
    assert (size dest (files db1) <= size dest (files db) + w) as Hs by apply size_insert.
    rewrite Eadd. destruct (Z.ltb_spec max (total + w)).
    { split_and!; [done | apply under_write | lia | done]. }
    specialize (IH (total + w) db1 ltac:(lia) Hm).
    destruct (extract_entries _ _ _ _ _) as [[db' fs'] r]. destruct IH as (H1 & H2 & H3 & H4).
    split_and!; [done | by eapply under_trans; [apply under_write|] | lia|].
    destruct r; [|done]. destruct H4 as [H4 H5]. split; [lia|]. intros m Hmap. simpl. rewrite Ed, Er.
    apply H5. intros rel'. simpl. assert (written = inflated e) as -> by (apply take_bytes_all; fold written w; lia).
    destruct (decide (rel' = rel)) as [->|]; [by rewrite !lookup_insert_eq|].
    rewrite !lookup_insert_ne; [apply Hmap | done | congruence].
  - split_and!; [done | apply under_refl | lia | done].
Qed.

(** Unpacking an archive, whatever is in it, writes under its own directory only
    and never more than one byte over its budget; when it succeeds it is within the
    budget, and the directory holds what the archive's entries do, byte for byte. *)
Theorem extraction_bounded archive dest max db fs :
  0 <= max < u64_max -> (forall rel, files db !! (dest, rel) = None) ->
  let '((db', _), r) := extract_all archive dest max (db, fs) in
  under dest db db' /\ size dest (files db') <= max + 1 /\
  match r with
  | inl _ => size dest (files db') <= max /\
      forall rel, files db' !! (dest, rel) = unpack ∅ (by_index archive) !! rel
  | inr _ => True
  end.
Proof.
  intros Hm Hnone. pose proof (size_none dest (files db) Hnone) as H0. pose proof (extract_spec dest max fs (by_index archive) 0 db ltac:(lia) ltac:(lia)) as H.
  unfold extract_all. destruct (extract_entries _ _ _ _ _) as [[db' fs'] r].
  destruct H as (_ & H2 & H3 & H4). split_and!; [done|lia|]. destruct r; [|done].
  destruct H4 as [H4 H5]. split; [lia|]. apply H5. intros rel. by rewrite Hnone, lookup_empty.
Qed.

(** ** Rows of a tree *)

(** What one row's insertion keeps, a whole tree's does. *)
Lemma insert_nodes_rel (R : Cmi5Db -> Cmi5Db -> Prop) cid :
  (forall db, R db db) -> (forall a b c, R a b -> R b c -> R a c) ->
  (forall bid i au db, R db (insert_au cid bid i au db).1) ->
  (forall bid i b db, R db (insert_block cid bid i b db).1) ->
  forall ns bid db, R db (insert_nodes cid bid ns db).1.
Proof.
  intros Hrefl Htrans Hau Hblock.
  assert (forall ns bid, Forall (fun n => forall i db, R db (insert_node cid bid i n db).1) ns ->
    forall i db, R db (each (insert_node cid bid) i ns db).1) as Heach.
  { intros ns bid. induction 1 as [|n ns Hn _ IH]; intros i db; [apply Hrefl|]. cbn [each].
    specialize (Hn i db). destruct (insert_node _ _ i n db) as [db1 [x|e]]; [|done].
    by eapply Htrans; [|apply IH]. }
  assert (forall n bid i db, R db (insert_node cid bid i n db).1) as Hnode.
  { fix IH 1. intros [b|au] bid i db; [|apply Hau]. cbn [insert_node].
    pose proof (Hblock bid i b db) as Hb. destruct (insert_block _ _ _ _ _) as [db1 [id|e]]; [|done].
    eapply Htrans; [exact Hb|]. apply Heach. clear -IH. destruct b as [x ti de ob ch]. simpl.
    induction ch as [|n ch IHch]; constructor; [|done]. intros. apply IH. }
  intros ns bid db. apply Heach, Forall_forall. intros n _. apply Hnode.
Qed.

(** The rows of a tree are blocks and units. *)
Definition only_tree (db db' : Cmi5Db) : Prop := courses db' = courses db /\ files db' = files db.

Lemma insert_nodes_tree cid bid ns db : only_tree db (insert_nodes cid bid ns db).1.
Proof.
  apply insert_nodes_rel; try done.
  - intros a b c [H1 H2] [G1 G2]. split; congruence.
  - intros b i au d. unfold insert_au. by case_match.
  - intros b i bl d. unfold insert_block. by case_match.
Qed.

(** ** In and out *)

Lemma export_run cid db c :
  courses db !! cid = Some c -> deleted_at c = None ->
  run (export_package cid) db = (db, inl ((fun kf => (kf.1.2, kf.2)) <$>
    List.filter (fun kf => kf.1.1 ≟ content_path c) (map_to_list (files db)))).
Proof.
  intros Hc Hd. unfold run, export_package, get_course, mbind, M_bind, call.
  by rewrite Hc, Hd.
Qed.

(** The files under a directory, by name. *)
Lemma listed_files (dest : string) (fs : gmap (string * string) (list ascii))
    (m : gmap string (list ascii)) :
  (forall rel, fs !! (dest, rel) = m !! rel) ->
  ((fun kf => (kf.1.2, kf.2)) <$> List.filter (fun kf => kf.1.1 ≟ dest) (map_to_list fs))
    ≡ₚ map_to_list m.
Proof.
  intros H. apply NoDup_Permutation.
  - apply NoDup_fmap_2_strong.
    + intros [[d1 r1] f1] [[d2 r2] f2] H1 H2 Heq. apply elem_of_lfilter in H1 as [_ H1].
      apply elem_of_lfilter in H2 as [_ H2]. apply bool_decide_eq_true in H1, H2.
      simpl in *. by simplify_eq.
    + apply NoDup_ListNoDup, List.NoDup_filter, NoDup_ListNoDup, NoDup_map_to_list.
  - apply NoDup_map_to_list.
  - intros [rel f]. rewrite elem_of_map_to_list, <- H, list_elem_of_fmap. split.
    + intros ([[d r] f'] & Heq & Hin). apply elem_of_lfilter in Hin as [Hin Hd].
      apply bool_decide_eq_true in Hd. apply elem_of_map_to_list in Hin. simpl in *. by simplify_eq.
    + intros Hf. exists ((dest, rel), f). split; [done|]. apply elem_of_lfilter.
      rewrite elem_of_map_to_list. split; [done|]. by apply bool_decide_eq_true.
Qed.

Definition budget (zip_len : Z) : Z :=
  Z.max (saturating_mul zip_len MAX_DECOMPRESSION_RATIO) MIN_INFLATED_BUDGET.

Section Import.
Context {X : QuickXml} (events_of : string -> stream).

(** A package goes in and comes out whole: when an import is answered, exporting
    the course lists exactly the files of the archive, each with its bytes; and an
    import that is refused leaves no course, block or unit behind. *)
Theorem imported_exports_as_it_came cfg now len archive cid by_ db :
  budget len < u64_max -> (forall rel, files db !! (uuid_show cid, rel) = None) ->
  match run (import_package events_of cfg now len (inl archive) cid by_) db with
  | (db', inl row) => exists l, run (export_package (course_row_id row)) db' = (db', inl l) /\
      l ≡ₚ map_to_list (unpack ∅ (by_index archive))
  | (db', inr _) => courses db' = courses db /\ blocks db' = blocks db /\ aus db' = aus db
  end.
Proof.
  intros Hb Hnone. unfold run, import_package. destruct (Z.ltb_spec (max_package_bytes cfg) len); [done|].
  destruct (by_name archive "cmi5.xml") as [xml|]; [|done].
  destruct (negb _); [done|]. destruct (parse_manifest _) as [structure ?|e|]; [|done..].
  destruct (validate_course_structure structure); [|done]. fold (budget len).
  unfold mbind at 1, M_bind at 1, extract_all.
  pose proof (extract_spec (uuid_show cid) (budget len) [] (by_index archive) 0 db) as Hx.
  destruct (extract_entries _ _ _ _ _) as [[db1 fs1] r].
  destruct Hx as (-> & [Hu _] & _ & Hr); [unfold budget, MIN_INFLATED_BUDGET; lia|done|].
  destruct r as [?|e]; [|by rewrite <- Hu].
  destruct Hr as [_ Hr]. specialize (Hr ∅ ltac:(intros; by rewrite Hnone, lookup_empty)).
  unfold mbind, M_bind, attempt, call. unfold insert_course.
  destruct (is_some (courses db1 !! cid)); [simpl; by rewrite <- Hu|].
  destruct (negb _); [simpl; by rewrite <- Hu|].
  match goal with |- context [insert_nodes ?c ?b ?ns ?d] =>
    pose proof (insert_nodes_tree c b ns d) as [Hc Hf] end.
  destruct (insert_nodes _ _ _ _) as [db2 [?|e]]; simpl; [|by rewrite <- Hu].
  simpl in Hc, Hf. eexists. split.
  - apply export_run; [rewrite Hc; apply lookup_insert_eq | done].
  - simpl. apply listed_files. intros rel. by rewrite Hf.
Qed.
End Import.

(** ** Bindings *)

(** A unit bound to a step is one that can be satisfied. *)
Definition satisfiable (db : Cmi5Db) : Prop :=
  forall k a, aus db !! k = Some a -> is_Some (training_step_id a) ->
    au_row_move_on a <> move_on_as_str NotApplicable.

(** Binding a unit to a step keeps every bound unit one whose criterion can be
    met, under any faults; and a binding that is answered is in place, to a step that
    exists and asks for no assessment. *)
Theorem bindings_stay_satisfiable aid step db fs :
  let '((db', _), r) := assign_au_step aid step (db, fs) in
  (satisfiable db -> satisfiable db') /\
  match r with
  | inl a => aus db' !! aid = Some a /\ training_step_id a = step /\
      forall sid, step = Some sid -> exists s, steps (training db) !! sid = Some s /\
        requires_assessment s = false
  | inr _ => True
  end.
Proof.
  set (ok := fun a => forall sid, step = Some sid -> au_row_move_on a <> move_on_as_str NotApplicable /\
    exists s, steps (training db) !! sid = Some s /\ requires_assessment s = false).
  enough (triple (fun d => satisfiable db -> satisfiable d) (fun d => d = db) (assign_au_step aid step)
    (fun a d => aus d !! aid = Some a /\ training_step_id a = step /\ ok a)) as Ht.
  { specialize (Ht db fs (fun H => H) eq_refl). destruct (assign_au_step _ _ _) as [[db' fs'] r].
    destruct Ht as [H1 H2]. split; [done|]. destruct r; [|done]. destruct H2 as (H2 & H3 & H4).
    split_and!; [done..|]. intros sid Hs. by apply H4. }
  unfold assign_au_step.
  apply triple_bind with (R := fun a d => d = db /\ aus db !! aid = Some a).
  { apply triple_call. intros d _ ->. by destruct (aus db !! aid). }
  intros au. apply triple_pure. intros Hau.
  apply triple_bind with (R := fun _ d => d = db /\ ok au).
  { destruct step as [sid|]; [|by apply triple_ret].
    apply triple_bind with (R := fun s d => d = db /\ steps (training db) !! sid = Some s).
    { apply triple_call. intros d _ ->. by destruct (steps (training db) !! sid). }
    intros s. apply triple_pure. intros Hs. destruct (requires_assessment s) eqn:Ereq; [apply triple_throw|].
    case_bool_decide; [apply triple_throw|]. apply triple_ret. intros d _ ->. split; [done|].
    intros ? [= <-]. split; [done|]. by exists s. }
  intros ?. apply triple_pure. intros Hok. apply triple_call. intros d Hsat ->. rewrite Hau.
  destruct (is_none_or _ _); [|done]. simpl. split; [|by rewrite lookup_insert_eq].
  intros Hdb k a. simpl. rewrite lookup_insert_Some. intros [[<- <-]|[_ Ha]]; [|by eapply Hdb].
  simpl. intros [sid Hs]. by apply (Hok sid).
Qed.

End Courses.
End Courses.
