(* ===== verification/Cmi5Lrs.v ===== *)
(** * Launching a unit and what its content may report ([server/src/cmi5.rs],
    sessions; [server/src/api/cmi5.rs])

    A launch mints a registration and a one-time fetch token; the token buys a
    session; the session's statements are checked, put in order and stored, and the
    one that satisfies the unit writes the training step it is bound to. *)
From S2P Require Import Prelude Text Wire Faults Database Api Power Training Cmi5Manifest Cmi5Session Cmi5Launch Cmi5Store.
From Stdlib Require Import SpecFloat Ascii.
Import Text Wire Faults Database Api Training Manifest Session Launch Store.

Module Lrs.

#[local] Open Scope Z_scope.

(** What serde_json makes of the crate's types. *)
Class Cmi5Json {U : Uuid} := {
  agent_to_string : Agent -> string + string;
  launch_data_to_value : LaunchData -> json + string;
  statement_to_value : Statement -> json + string;
  statement_from_value : json -> Statement + string;
}.

Section Lrs.
Context {U : Uuid} {IS : IdSource} {J : Cmi5Json} {TH : TokenHash}.

Abbreviation M := (Faults.M Cmi5Db Cmi5Error).

(** ** Launch *)

Record Cmi5SessionContext := {
  session_registration_id : uuid;
  session_user_id : uuid;
  session_au_id : uuid;
  session_activity_id : string;
  session_launch_mode : string;
}.

Record LaunchResult := { result_url : string; result_registration_id : uuid }.

Fixpoint trim_start (c : ascii) (l : list ascii) : list ascii :=
  match l with
  | [] => []
  | x :: l' => if x ≟ c then trim_start c l' else l
  end.

Definition launch_content_base (content_origin : option string) (site_url content_path au_launch_url : string)
    : string :=
  let root := default site_url content_origin in
  root +:+ "/cmi5-content/" +:+ content_path +:+ "/" +:+ of_bytes (trim_start "/" (bytes au_launch_url)).

Definition learner (site_url : string) (uid : uuid) : Agent := {|
  agent_object_type := Some "Agent"%string; agent_name := None; mbox := None;
  account := Some {| home_page := site_url; account_name := uuid_show uid |} |}.

Definition launched_statement (now : instant) (sid reg : uuid) (actor : Agent) (iri : string)
    : Statement := {|
  statement_id := Some sid; actor := actor; verb := {| verb_iri := LAUNCHED; display := None |};
  object := ActivityObject {| activity_object_type := Some "Activity"%string;
    activity_iri := iri; definition := None |};
  result := None;
  context := Some {| context_registration := Some reg;
    context_activities := Some {| category := Some [{| activity_object_type := None;
      activity_iri := CMI5; definition := None |}]; parent := None; grouping := None;
      other := None |}; extensions := None |};
  timestamp := Some now |}.

Definition json_result {A} (r : A + string) : M A :=
  match r with inl x => mret x | inr m => throw (JsonError m) end.

(** The identifiers and the token a launch draws. *)
Record Drawn := {
  drawn_registration : uuid;
  drawn_statement : uuid;
  drawn_token : string;
  drawn_etag : string;
}.

Definition document_key (reg : uuid) (activity agent state : string) : uuid * string * string * string :=
  (reg, activity, agent, state).

(** The four rows of a launch, or none of them. *)
Definition insert_launch (cfg : Cmi5Service) (now : instant) (d : Drawn) (aid uid : uuid)
    (au : Cmi5AssignableUnit) (launch_data launched : json) (db : Cmi5Db)
    : Cmi5Db * (unit + DatabaseError) :=
  let reg := drawn_registration d in
  let agent := uuid_show uid in
  let key := document_key reg (au_iri au) agent "LMS.LaunchData" in
  if is_some (registrations db !! reg) ||
     existsb (fun t => fetch_token_hash t ≟ hash_token (drawn_token d)) (launch_tokens db) ||
     is_some (state_documents db !! key) ||
     existsb (fun s => row_statement_id s ≟ drawn_statement d) (statements db)
  then (db, inr UniqueViolation)
  else if negb (is_some (users (money (training db)) !! uid) && is_some (aus db !! aid))
  then (db, inr ForeignKeyViolation)
  else (with_sessions_of
    (<[reg := {| registration_user_id := uid; registration_au_id := aid;
                 actor_account := agent; registration_mode := launch_mode_as_str Normal;
                 satisfied_at := None; passed_at := None; reg_completed_at := None |}]> (registrations db))
    (launch_tokens db ++ [{| token_registration_id := reg;
       fetch_token_hash := hash_token (drawn_token d); session_token_hash := None;
       fetch_consumed_at := None; token_expires_at := now + fetch_ttl cfg;
       session_expires_at := now + session_ttl cfg |}])
    (statements db ++ [{| statement_registration_id := reg; row_statement_id := drawn_statement d;
       statement_verb_iri := LAUNCHED; statement_json := launched |}])
    (<[key := {| document := launch_data; etag := drawn_etag d |}]> (state_documents db)) db, inl tt).

Definition create_launch (cfg : Cmi5Service) (now : instant) (d : Drawn) (aid uid : uuid)
    (site_url : string) : M LaunchResult :=
  au ← find_au aid;
  course ← get_course (au_course_id au);
  let reg := drawn_registration d in
  let actor := learner site_url uid in
  let endpoint := site_url +:+ "/api/cmi5/lrs" in
  let fetch := site_url +:+ "/api/cmi5/fetch?token=" +:+ drawn_token d in
  move_on ← match move_on_parse (au_row_move_on au) with
            | inl m => mret m | inr e => throw (BadManifest e) end;
  launch_data_json ← json_result (launch_data_to_value
    (launch_data reg Normal move_on (au_mastery_score au)));
  launched_json ← json_result (statement_to_value
    (launched_statement now (drawn_statement d) reg actor (au_iri au)));
  query ← json_result (build_launch_query agent_to_string {|
    lp_endpoint := endpoint; lp_fetch := fetch; lp_actor := actor; lp_registration := reg;
    lp_activity_id := au_iri au |});
  let content_base := launch_content_base (content_origin cfg) site_url (content_path course)
                        (launch_url au) in
  let with_params := match au_launch_parameters au with
    | Some p => if p ≟ EmptyString then content_base else append_query content_base p
    | None => content_base
    end in
  _ ← call (fun db =>
    let '(db, r) := insert_launch cfg now d aid uid au launch_data_json launched_json db in (db, diesel r));
  mret {| result_url := append_query with_params query; result_registration_id := reg |}.

(** ** The token and the session *)

Definition fetch_open (now : instant) (hash : string) (t : Cmi5LaunchToken) : bool :=
  (fetch_token_hash t ≟ hash) && negb (is_some (fetch_consumed_at t)) && (now <? token_expires_at t).

Definition consume (now : instant) (session_hash : string) (t : Cmi5LaunchToken) : Cmi5LaunchToken := {|
  token_registration_id := token_registration_id t; fetch_token_hash := fetch_token_hash t;
  session_token_hash := Some session_hash; fetch_consumed_at := Some now;
  token_expires_at := token_expires_at t; session_expires_at := session_expires_at t |}.

(** One statement claims the token; [session] is the credential drawn for it, and its
    hash is unique in the table. *)
Definition consume_fetch (now : instant) (session fetch_plaintext : string) : M string :=
  let hash := hash_token fetch_plaintext in
  affected ← call (fun db =>
    let n := length (List.filter (fetch_open now hash) (launch_tokens db)) in
    if (0 <? n)%nat && existsb (fun t => session_token_hash t ≟ Some (hash_token session)) (launch_tokens db)
    then (db, inr (DbError UniqueViolation))
    else (with_sessions_of (registrations db)
      ((fun t => if fetch_open now hash t then consume now (hash_token session) t else t)
         <$> launch_tokens db) (statements db) (state_documents db) db, inl n));
  if (affected =? 1)%nat then mret session else throw FetchTokenInvalid.

(** The join of a live session with its registration and unit. *)
Definition session_of (now : instant) (hash : string) (db : Cmi5Db) : option Cmi5SessionContext :=
  t ← find_first (fun t => (session_token_hash t ≟ Some hash) && (now <? session_expires_at t) &&
        is_some (r ← registrations db !! token_registration_id t; aus db !! registration_au_id r))
      (launch_tokens db);
  r ← registrations db !! token_registration_id t;
  a ← aus db !! registration_au_id r;
  Some {| session_registration_id := token_registration_id t;
          session_user_id := registration_user_id r; session_au_id := registration_au_id r;
          session_activity_id := au_iri a; session_launch_mode := registration_mode r |}.

Definition resolve_session (now : instant) (session_plaintext : string) : M (option Cmi5SessionContext) :=
  select (session_of now (hash_token session_plaintext)).

(** ** Statements *)

Record GrantInfo := {
  grant_user_id : uuid;
  grant_au_id : uuid;
  grant_registration_id : uuid;
  grant_step_id : uuid;
  grant_tool_id : uuid;
  grant_score : option Z;
}.

(** [(scaled * 100.0).round().clamp(0.0, 100.0) as i32]: rounded half away from zero,
    a NaN becoming zero. *)
Definition f64_mul (x y : f64) : f64 := SFmul 53 1024 x y.

Definition round_half_away (x : f64) : Z :=
  match x with
  | S754_finite neg m e =>
      let mag := if 0 <=? e then Z.shiftl (Z.pos m) e
                 else Z.shiftr (Z.pos m + Z.shiftl 1 (- e - 1)) (- e) in
      if neg then - mag else mag
  | _ => 0
  end.

Definition score_percent (scaled : f64) : Z :=
  match f64_mul scaled (S754_finite false 7036874417766400 (-46)) with
  | S754_infinity false => 100
  | x => Z.max 0 (Z.min 100 (round_half_away x))
  end.

Definition statement_score (s : Statement) : option Z :=
  score_percent <$> (r ← result s; c ← score r; scaled c).

(** The machine over what is stored; what it refuses is passed over. *)
Definition replay (prior : list json) : SessionState :=
  foldl (fun machine v =>
    match statement_from_value v with
    | inl s => match apply machine s with inl machine => machine | inr _ => machine end
    | inr _ => machine
    end) new prior.

Definition stored (db : Cmi5Db) (reg : uuid) : list json :=
  statement_json <$> List.filter (fun s => statement_registration_id s ≟ reg) (statements db).

Definition insert_statement (reg sid : uuid) (verb : string) (raw : json) : M unit :=
  call (fun db =>
    if existsb (fun s => row_statement_id s ≟ sid) (statements db) then (db, inr (DbError UniqueViolation))
    else if negb (is_some (registrations db !! reg)) then (db, inr (DbError ForeignKeyViolation))
    else (with_sessions_of (registrations db) (launch_tokens db)
      (statements db ++ [{| statement_registration_id := reg; row_statement_id := sid;
                            statement_verb_iri := verb; statement_json := raw |}])
      (state_documents db) db, inl tt)).

Definition grant_step (now : instant) (step : uuid) (session : Cmi5SessionContext)
    (au : Cmi5AssignableUnit) (score : option Z) : M GrantInfo :=
  s ← map_err cmi5_error (within (get_training_step_by_id step));
  match s with
  | None => throw StepNotFound
  | Some s =>
      _ ← map_err cmi5_error (within (record_step_completion now (session_user_id session) step
            (session_user_id session) "completed"
            (Some ("Completed via cmi5 module " +:+ au_iri au))));
      mret {| grant_user_id := session_user_id session; grant_au_id := au_row_id au;
              grant_registration_id := session_registration_id session; grant_step_id := step;
              grant_tool_id := step_tool_id s; grant_score := score |}
  end.

Definition satisfy (now : instant) (o : SessionOutcome) (r : Cmi5Registration) : Cmi5Registration := {|
  registration_user_id := registration_user_id r; registration_au_id := registration_au_id r;
  actor_account := actor_account r; registration_mode := registration_mode r;
  satisfied_at := Some now; passed_at := if passed o then Some now else None;
  reg_completed_at := if completed o then Some now else None |}.

Definition expectation (session : Cmi5SessionContext) (site_url : string) (au : Cmi5AssignableUnit)
    : SessionExpectation := {|
  actor_home_page := site_url; actor_account_name := uuid_show (session_user_id session);
  expect_registration := session_registration_id session;
  expect_activity_id := session_activity_id session; expect_mastery_score := au_mastery_score au |}.

(** [fresh_id] is the identifier a statement without one is given. *)
Definition record_statement (now : instant) (session : Cmi5SessionContext) (site_url : string)
    (hint : option uuid) (fresh_id : uuid) (raw : json) : M (option GrantInfo) :=
  match statement_from_value raw with
  | inr m => throw (BadStatement m)
  | inl stmt =>
      au ← find_au (session_au_id session);
      match validate_cmi5_statement stmt (expectation session site_url au) with
      | inr v => throw (Rejected v)
      | inl _ =>
          let sid := default fresh_id (option_or hint (statement_id stmt)) in
          already ← select (fun db => existsb (fun s => row_statement_id s ≟ sid) (statements db));
          if already : bool then mret None
          else
            prior ← select (fun db => stored db (session_registration_id session));
            match apply (replay prior) stmt with
            | inr v => throw (Rejected v)
            | inl machine =>
                _ ← insert_statement (session_registration_id session) sid (verb_id stmt) raw;
                match move_on_parse (au_row_move_on au) with
                | inr e => throw (BadManifest e)
                | inl move_on =>
                    let creditable := session_launch_mode session ≟ launch_mode_as_str Normal in
                    if negb creditable || negb (evaluate_move_on move_on (outcome machine))
                    then mret None
                    else match training_step_id au with
                    | None => mret None
                    | Some step =>
                        registration ← call (fun db => (db,
                          match registrations db !! session_registration_id session with
                          | Some r => inl r | None => inr (DbError NotFound) end));
                        if is_some (satisfied_at registration) then mret None
                        else
                          grant ← grant_step now step session au (statement_score stmt);
                          _ ← call (fun db => (with_sessions_of
                            (alter (satisfy now (outcome machine)) (session_registration_id session)
                              (registrations db))
                            (launch_tokens db) (statements db) (state_documents db) db, inl tt));
                          mret (Some grant)
                    end
                end
            end
      end
  end.

(** ** State documents *)

Definition get_state_document (reg : uuid) (activity agent state : string) : M (option json) :=
  select (fun db => document <$> state_documents db !! document_key reg activity agent state).

Definition put_state_document (etag : string) (reg : uuid) (activity agent state : string)
    (doc : json) : M unit :=
  call (fun db =>
    if negb (is_some (registrations db !! reg)) then (db, inr (DbError ForeignKeyViolation))
    else (with_sessions_of (registrations db) (launch_tokens db) (statements db)
      (<[document_key reg activity agent state := {| document := doc; etag := etag |}]>
        (state_documents db)) db, inl tt)).

Definition delete_state_document (reg : uuid) (activity agent state : string) : M unit :=
  call (fun db => (with_sessions_of (registrations db) (launch_tokens db) (statements db)
    (delete (document_key reg activity agent state) (state_documents db)) db, inl tt)).

Definition get_statement (reg sid : uuid) : M (option json) :=
  select (fun db => statement_json <$>
    find_first (fun s => (statement_registration_id s ≟ reg) && (row_statement_id s ≟ sid)) (statements db)).

End Lrs.
End Lrs.
