(* ===== verification/Cmi5Api.v ===== *)
(** * The cmi5 surface ([server/src/api/cmi5.rs], the session extractor of
    [server/src/auth.rs])

    What each error of the service answers with, the handlers of courses, launches
    and statements, and the extractor their session credential goes through. *)
From Stdlib Require Import Ascii SpecFloat.
From S2P Require Import Prelude Text Wire Faults Database Api Power Training Cmi5Manifest Cmi5RoundTrip Cmi5Session Cmi5Launch Cmi5Store Cmi5Lrs.
Import Wire Text F64Display Faults Database Api Training Manifest Conformance Session Launch Store Lrs.

Module Cmi5Api.

#[local] Open Scope Z_scope.

(** [{:?}] of a string and of an [f64], as the standard library prints them. *)
Class Fmt := {
  debug_str : string -> string;
  debug_f64 : f64 -> string;
}.

Section Cmi5Api.
Context {U : Uuid} {IS : IdSource} {J : Cmi5Json} {TH : TokenHash} {FM : Fmt}.

(** ** What the errors say *)

Definition manifest_error_to_string (e : ManifestError) : string :=
  match e with
  | Xml m => "malformed XML: " +:+ m
  | MissingElement e => "manifest is missing the required <" +:+ e +:+ "> element"
  | MissingAttribute e a => "<" +:+ e +:+ "> is missing the required '" +:+ a +:+ "' attribute"
  | BadMoveOn v => "'" +:+ v +:+ "' is not a valid moveOn value"
  | BadLaunchMethod v => "'" +:+ v +:+ "' is not a valid launchMethod value"
  | BadMasteryScore v => "masteryScore '" +:+ v +:+ "' is not a number in 0.0..=1.0"
  | UnexpectedEof e => "unexpected end of document inside <" +:+ e +:+ ">"
  end.

Definition conformance_error_to_string (e : ConformanceError) : string :=
  match e with
  | CourseIdNotIri s => "the course id is missing or is not an IRI: " +:+ debug_str s
  | NoAssignableUnits => "the course has no assignable units"
  | AuIdNotIri s => "assignable unit id is missing or is not an IRI: " +:+ debug_str s
  | BlockIdNotIri s => "block id is missing or is not an IRI: " +:+ debug_str s
  | DuplicateAuId s => "duplicate assignable unit id: " +:+ s
  | DuplicateBlockId s => "duplicate block id: " +:+ s
  | EmptyAuUrl s => "assignable unit " +:+ s +:+ " has an empty launch url"
  | DanglingObjectiveRef owner reference =>
      "objective reference '" +:+ reference +:+ "' on " +:+ owner +:+
      " resolves to no declared objective"
  end.

Definition debug_option_f64 (o : option f64) : string :=
  match o with Some x => "Some(" +:+ debug_f64 x +:+ ")" | None => "None" end.

Definition violation_to_string (v : Violation) : string :=
  match v with
  | NotAnAccountActor => "actor is not an account-based agent"
  | ActorMismatch => "actor does not match the launched learner"
  | RegistrationMismatch => "statement registration does not match the session"
  | ActivityMismatch => "statement is about a different activity than the launched AU"
  | MissingCmi5Category => "statement is missing the cmi5 context category"
  | UnknownVerb v => "'" +:+ v +:+ "' is not a verb an AU may issue"
  | MissingResult => "statement is missing the result its verb requires"
  | NotPassedSuccess => "a 'passed' statement must have result.success = true"
  | NotFailedSuccess => "a 'failed' statement must have result.success = false"
  | NotCompleted => "a 'completed' statement must have result.completion = true"
  | BelowMasteryScore scaled required =>
      "score.scaled " +:+ debug_option_f64 scaled +:+ " is below the required masteryScore " +:+
      display_f64 required
  | NotInitialized => "a statement arrived before 'initialized'"
  | AlreadyInitialized => "'initialized' arrived more than once"
  | AfterTerminated => "a statement arrived after 'terminated'"
  | BothPassedAndFailed => "the session recorded both 'passed' and 'failed'"
  end.

(** [Vec::join]. *)
Fixpoint join (sep : string) (l : list string) : string :=
  match l with
  | [] => EmptyString
  | [s] => s
  | s :: l => s +:+ sep +:+ join sep l
  end.

(** [From<Cmi5Error>].  A violation of identity or scope is forbidden, any other a
    bad request.  The pool's own message is not kept here. *)
Definition cmi5_api_error (e : Cmi5Error) : ApiError :=
  match e with
  | Disabled => NotFoundError "cmi5 support is not enabled on this instance"
  | TooLarge size max => BadRequest
      ("package is " +:+ pretty size +:+ " bytes, over the " +:+ pretty max +:+ "-byte limit")
  | Zip m => BadRequest ("not a readable zip archive: " +:+ m)
  | NoManifest => BadRequest "package has no cmi5.xml at its root"
  | BadManifest m => BadRequest ("invalid cmi5.xml: " +:+ manifest_error_to_string m)
  | NonConformant es => BadRequest
      ("package is not cmi5-conformant: " +:+ join "; " (conformance_error_to_string <$> es))
  | ZipSlip name => BadRequest ("package entry '" +:+ name +:+ "' escapes the content directory")
  | Io m => InternalServerError ("filesystem error: " +:+ m)
  | Pool => InternalServerError "database pool error"
  | DbError e => api_error e
  | CourseNotFound => NotFoundError "no such cmi5 course"
  | AuNotFound => NotFoundError "no such assignable unit"
  | StepNotFound => NotFoundError "no such training step"
  | StepRequiresAssessment =>
      BadRequest "a cmi5 module cannot satisfy a step that requires an assessment"
  | MoveOnNotApplicable =>
      BadRequest "an AU with moveOn=NotApplicable can never satisfy, so it cannot gate a tool"
  | FetchTokenInvalid => Unauthorized "the fetch token is unknown, already used, or expired"
  | JsonError m => InternalServerError ("serialization error: " +:+ m)
  | BadStatement m => BadRequest ("malformed xAPI statement: " +:+ m)
  | Rejected v =>
      match v with
      | NotAnAccountActor | ActorMismatch | RegistrationMismatch | ActivityMismatch =>
          Forbidden (violation_to_string v)
      | _ => BadRequest (violation_to_string v)
      end
  end.

(** ** Courses *)

Abbreviation H := (Faults.M Cmi5Db ApiError).

Definition lift {A} (m : Faults.M Cmi5Db Cmi5Error A) : H A := map_err cmi5_api_error m.

(** Not best-effort here: a record that cannot be written fails the request, after
    what it records has happened. *)
Definition log_event (event : AuditEventType) (uid : uuid) : H unit :=
  map_err api_error (within (P := TrainingDb) (base_call (create_audit_log event (Some uid)))).

(** The live settings the handlers read. *)
Record Settings := {
  cmi5_enabled : bool;
  service : Cmi5Service;
  site_url : string;
}.

Definition ensure_enabled (cfg : Settings) : H unit :=
  if cmi5_enabled cfg then mret tt
  else throw (NotFoundError "cmi5 support is not enabled on this instance").

Record CourseWithAus := { the_course : Cmi5Course; its_aus : list Cmi5AssignableUnit }.

(** [upload] is the first field of the form, with what opening its bytes as an
    archive gives: a form without a field, or one that cannot be read, is refused. *)
Definition import_course {X : QuickXml} (events_of : string -> stream) (cfg : Settings)
    (now : instant) (upload : option (Z * (ZipArchive + string)) + string) (cid staff : uuid)
    : H CourseWithAus :=
  _ ← ensure_enabled cfg;
  match upload with
  | inr m => throw (BadRequest m)
  | inl None => throw (BadRequest "no file in upload")
  | inl (Some (len, zip)) =>
      course ← lift (import_package events_of (service cfg) now len zip cid staff);
      _ ← log_event Cmi5CoursePublished staff;
      aus ← lift (list_aus (course_row_id course));
      mret {| the_course := course; its_aus := aus |}
  end.

Definition list_courses_handler (cfg : Settings) : H (list Cmi5Course) :=
  _ ← ensure_enabled cfg;
  lift list_courses.

Definition get_course_handler (cfg : Settings) (cid : uuid) : H CourseWithAus :=
  _ ← ensure_enabled cfg;
  course ← lift (get_course cid);
  aus ← lift (list_aus (course_row_id course));
  mret {| the_course := course; its_aus := aus |}.

Definition delete_course_handler (cfg : Settings) (now : instant) (staff cid : uuid) : H unit :=
  _ ← ensure_enabled cfg;
  _ ← lift (delete_course now cid);
  log_event Cmi5CourseDeleted staff.

Definition assign_au_step_handler (cfg : Settings) (admin aid : uuid) (step : option uuid)
    : H Cmi5AssignableUnit :=
  _ ← ensure_enabled cfg;
  au ← lift (assign_au_step aid step);
  _ ← log_event Cmi5AuAssignedToTool admin;
  mret au.

Definition export_course (cfg : Settings) (staff cid : uuid) : H (list (string * list ascii)) :=
  _ ← ensure_enabled cfg;
  archive ← lift (export_package cid);
  _ ← log_event Cmi5CourseExported staff;
  mret archive.

(** ** Launching *)

Definition list_my_modules (cfg : Settings) (now : instant) (member : uuid) : H (list LearnerModule) :=
  _ ← ensure_enabled cfg;
  lift (list_learner_modules now member).

Definition launch_au (cfg : Settings) (now : instant) (d : Drawn) (member aid : uuid) : H LaunchResult :=
  _ ← ensure_enabled cfg;
  result ← lift (create_launch (service cfg) now d aid member (site_url cfg));
  _ ← log_event Cmi5Launched member;
  mret result.

(** Answers in cmi5's own shapes: a status, and the credential or the error's text. *)
Definition fetch_credential (cfg : Settings) (now : instant) (session : string)
    (token : option string) : H (Z * (string + string)) :=
  if negb (cmi5_enabled cfg) then mret (404, inr "cmi5 support is not enabled"%string)
  else match token with
  | None | Some EmptyString => mret (400, inr "missing fetch token"%string)
  | Some token =>
      r ← attempt (lift (consume_fetch now session token));
      match r with
      | inl session => mret (200, inl session)
      | inr _ => mret (401, inr "the fetch token is unknown, already used, or expired"%string)
      end
  end.

(** ** The session extractor *)

Definition session_auth (now : instant) (authorization : option (list ascii))
    : H Cmi5SessionContext :=
  match authorization with
  | None => throw (auth_api_error MissingCredentials)
  | Some h =>
      match header_to_str h ≫= strip_prefix "Bearer " with
      | None => throw (auth_api_error InvalidToken)
      | Some token =>
          r ← attempt (lift (resolve_session now token));
          match r with
          | inl (Some ctx) => mret ctx
          | inl None => throw (auth_api_error InvalidToken)
          | inr _ => throw (auth_api_error InternalError)
          end
      end
  end.

(** ** Statements and state documents *)

(** The broadcast to the devices is left out; the audit record is not. *)
Definition apply_grant (g : GrantInfo) : H unit := log_event Cmi5AuSatisfied (grant_user_id g).

Definition record_and_apply (cfg : Settings) (now : instant) (s : Cmi5SessionContext)
    (hint : option uuid) (fresh_id : uuid) (body : json) : H unit :=
  g ← lift (record_statement now s (site_url cfg) hint fresh_id body);
  match g with Some g => apply_grant g | None => mret tt end.

Definition lrs_put_statement (cfg : Settings) (now : instant) (s : Cmi5SessionContext)
    (hint : option uuid) (fresh_id : uuid) (body : json) : H unit :=
  _ ← ensure_enabled cfg;
  record_and_apply cfg now s hint fresh_id body.

(** The identifier an item of a batch carries. *)
Definition item_id (item : json) : option uuid :=
  v ← json_get item "id"; s ← json_as_str v; uuid_parse s.

(** One after another: what was stored before a refusal stays.  [fresh_id] draws the
    identifiers, one per item. *)
Fixpoint post_items (cfg : Settings) (now : instant) (s : Cmi5SessionContext)
    (fresh_id : nat -> uuid) (i : nat) (items : list json) : H (list string) :=
  match items with
  | [] => mret []
  | item :: items =>
      let sid := item_id item in
      _ ← record_and_apply cfg now s sid (fresh_id i) item;
      ids ← post_items cfg now s fresh_id (S i) items;
      mret (match sid with Some sid => uuid_show sid :: ids | None => ids end)
  end.

Definition lrs_post_statement (cfg : Settings) (now : instant) (s : Cmi5SessionContext)
    (fresh_id : nat -> uuid) (body : json) : H (list string) :=
  _ ← ensure_enabled cfg;
  post_items cfg now s fresh_id 0 (match body with JArr items => items | other => [other] end).

Definition lrs_get_statements (cfg : Settings) (s : Cmi5SessionContext) (sid : option uuid)
    : H (Z * option json) :=
  _ ← ensure_enabled cfg;
  match sid with
  | Some sid =>
      doc ← lift (get_statement (session_registration_id s) sid);
      mret (match doc with Some doc => (200, Some doc) | None => (404, None) end)
  | None => mret (200, Some (JObj [("statements", JArr []); ("more", JStr EmptyString)]%string))
  end.

(** Registration, activity and agent are the session's; only the state's name is the
    request's. *)
Definition with_state_id {A} (state : option string) (k : string -> H A) : H A :=
  match state with Some state => k state | None => throw (BadRequest "missing stateId") end.

Definition lrs_get_state (cfg : Settings) (s : Cmi5SessionContext) (state : option string)
    : H (Z * option json) :=
  _ ← ensure_enabled cfg;
  with_state_id state (fun state =>
    doc ← lift (get_state_document (session_registration_id s) (session_activity_id s)
                  (uuid_show (session_user_id s)) state);
    mret (match doc with Some doc => (200, Some doc) | None => (404, None) end)).

Definition lrs_put_state (cfg : Settings) (s : Cmi5SessionContext) (etag : string)
    (state : option string) (body : json) : H unit :=
  _ ← ensure_enabled cfg;
  with_state_id state (fun state =>
    lift (put_state_document etag (session_registration_id s) (session_activity_id s)
            (uuid_show (session_user_id s)) state body)).

Definition lrs_delete_state (cfg : Settings) (s : Cmi5SessionContext) (state : option string) : H unit :=
  _ ← ensure_enabled cfg;
  with_state_id state (fun state =>
    lift (delete_state_document (session_registration_id s) (session_activity_id s)
            (uuid_show (session_user_id s)) state)).

(** ** One request *)

Inductive request : Type :=
  | ImportCourse (upload : option (Z * (ZipArchive + string)) + string) (cid staff : uuid)
  | DeleteCourse (staff cid : uuid)
  | AssignStep (admin aid : uuid) (step : option uuid)
  | Launch (d : Drawn) (member aid : uuid)
  | Fetch (session : string) (token : option string)
  | PutStatement (authorization : option (list ascii)) (hint : option uuid) (fresh_id : uuid) (body : json)
  | PostStatement (authorization : option (list ascii)) (fresh_id : nat -> uuid) (body : json)
  | PutState (authorization : option (list ascii)) (tag : string) (state : option string) (body : json)
  | DeleteState (authorization : option (list ascii)) (state : option string).

Definition handle {X : QuickXml} (events_of : string -> stream) (cfg : Settings) (now : instant)
    (r : request) : H unit :=
  match r with
  | ImportCourse upload cid staff => _ ← import_course events_of cfg now upload cid staff; mret tt
  | DeleteCourse staff cid => delete_course_handler cfg now staff cid
  | AssignStep admin aid step => _ ← assign_au_step_handler cfg admin aid step; mret tt
  | Launch d member aid => _ ← launch_au cfg now d member aid; mret tt
  | Fetch session token => _ ← fetch_credential cfg now session token; mret tt
  | PutStatement auth hint id body =>
      s ← session_auth now auth; lrs_put_statement cfg now s hint id body
  | PostStatement auth id body =>
      s ← session_auth now auth; _ ← lrs_post_statement cfg now s id body; mret tt
  | PutState auth etag state body =>
      s ← session_auth now auth; lrs_put_state cfg s etag state body
  | DeleteState auth state => s ← session_auth now auth; lrs_delete_state cfg s state
  end.

End Cmi5Api.
End Cmi5Api.
