(* ===== verification/Cmi5Grants.v ===== *)
(** * What a session's statements earn

    The service's promise about [record_statement]: a unit is satisfied, and
    anybody's training touched, only by an ordered, bound and consistent history of
    statements that meets the unit's criterion; and the rest of the surface keeps it. *)
From S2P Require Import Prelude Text Wire Faults Database Api Power Training TrainingGate Cmi5Manifest Cmi5Session Cmi5Launch Cmi5Store Cmi5Lrs Cmi5Api.
Import Text Wire Faults Database Training Manifest Session Launch Store Lrs.

Module Grants.

#[local] Open Scope Z_scope.

Section Grants.
Context {U : Uuid} {IS : IdSource} {J : Cmi5Json} {TH : TokenHash}.

(** ** What a registration has said *)

Definition hear (v : json) : option Statement :=
  match statement_from_value v with
  | inl s => if is_au_verb (verb_id s) then Some s else None
  | inr _ => None
  end.

(** The statements of a unit among what is stored, in order. *)
Definition heard (db : Cmi5Db) (reg : uuid) : list Statement := omap hear (stored db reg).

(** A criterion, met by what was said. *)
Definition met (m : MoveOn) (ss : list Statement) : bool :=
  match m with
  | Passed => says ss PASSED
  | Completed => says ss COMPLETED
  | CompletedAndPassed => says ss COMPLETED && says ss PASSED
  | CompletedOrPassed => says ss COMPLETED || says ss PASSED
  | NotApplicable => false
  end.

Lemma met_outcome ss st m : knows ss st -> evaluate_move_on m (outcome st) = met m ss.
Proof. intros [_ _ Hp _ Hc]. by destruct m; simpl; rewrite ?Hp, ?Hc. Qed.

Lemma met_snoc ss s m : met m ss = true -> met m (ss ++ [s]) = true.
Proof.
  unfold met. destruct m; rewrite ?says_snoc; rewrite ?andb_true_iff, ?orb_true_iff; tauto.
Qed.

Lemma apply_not_au st s : is_au_verb (verb_id s) = false -> exists v, apply st s = inr v.
Proof.
  intros H. unfold is_au_verb in H. rewrite !orb_false_iff in H.
  destruct H as [[[[H1 H2] H3] H4] H5]. unfold apply. rewrite H1, H2, H3, H4, H5.
  destruct (terminated st); by eexists.
Qed.

(** The replay passes over exactly what is not a unit's. *)
Lemma replay_heard prior : forall st st',
  accepted st (omap hear prior) = inl st' ->
  foldl (fun machine v =>
    match statement_from_value v with
    | inl s => match apply machine s with inl machine => machine | inr _ => machine end
    | inr _ => machine
    end) st prior = st'.
Proof.
  induction prior as [|v prior IH]; intros st st' H; [by injection H|].
  rewrite omap_cons in H. cbn [foldl]. unfold hear at 1 in H.
  destruct (statement_from_value v) as [s|m]; [|by apply IH].
  destruct (is_au_verb (verb_id s)) eqn:E.
  - cbn [accepted] in H. destruct (apply st s); [by apply IH|done].
  - destruct (apply_not_au st s E) as [x ->]. by apply IH.
Qed.

(** ** What is promised *)

(** What the statements of a registration are checked against. *)
Definition claim (site : string) (reg : uuid) (r : Cmi5Registration) (a : Cmi5AssignableUnit)
    : SessionExpectation := {|
  actor_home_page := site; actor_account_name := uuid_show (registration_user_id r);
  expect_registration := reg; expect_activity_id := au_iri a;
  expect_mastery_score := au_mastery_score a |}.

(** A registration whose history is its own learner's, in order, and that is marked
    satisfied only if that history meets the unit's criterion in a normal launch. *)
Record earned_by (db : Cmi5Db) (reg : uuid) (r : Cmi5Registration) (a : Cmi5AssignableUnit)
    : Prop := {
  earned_own : forall s, s ∈ heard db reg -> exists site,
    bound s (claim site reg r a) /\ consistent (au_mastery_score a) s;
  earned_order : ordered (heard db reg);
  earned_met : is_Some (satisfied_at r) -> registration_mode r = launch_mode_as_str Normal /\
    exists m, move_on_parse (au_row_move_on a) = inl m /\ met m (heard db reg) = true;
}.

Record earned (db : Cmi5Db) : Prop := {
  earned_rows : forall s, s ∈ statements db ->
    is_Some (registrations db !! statement_registration_id s);
  earned_each : forall reg r, registrations db !! reg = Some r ->
    exists a, aus db !! registration_au_id r = Some a /\ earned_by db reg r a;
}.

(** A session as the server resolves it. *)
Definition genuine (s : Cmi5SessionContext) (db : Cmi5Db) : Prop :=
  exists r a, registrations db !! session_registration_id s = Some r /\
    aus db !! registration_au_id r = Some a /\ session_user_id s = registration_user_id r /\
    session_au_id s = registration_au_id r /\ session_activity_id s = au_iri a /\
    session_launch_mode s = registration_mode r.

(** ** Changes that are no concern of it *)

(** The columns of a unit that never change. *)
Definition same_unit (a a' : Cmi5AssignableUnit) : Prop :=
  au_iri a' = au_iri a /\ au_mastery_score a' = au_mastery_score a /\
  au_row_move_on a' = au_row_move_on a.

Definition same_units (db db' : Cmi5Db) : Prop :=
  forall k a, aus db !! k = Some a -> exists a', aus db' !! k = Some a' /\ same_unit a a'.

Lemma same_units_refl db db' : aus db' = aus db -> same_units db db'.
Proof. intros H k a Ha. exists a. by rewrite H. Qed.

Lemma heard_same db db' reg : statements db' = statements db -> heard db' reg = heard db reg.
Proof. unfold heard, stored. by intros ->. Qed.

Lemma earned_by_unit db db' reg r a a' :
  heard db' reg = heard db reg -> same_unit a a' -> earned_by db reg r a -> earned_by db' reg r a'.
Proof.
  intros Hh (Hi & Hm & Ho) [H1 H2 H3]. split; rewrite ?Hh, ?Hm, ?Ho; [|done..].
  intros s Hs. destruct (H1 s Hs) as (site & Hb & Hc). exists site. split; [|done].
  unfold claim. rewrite Hi, Hm. done.
Qed.

Lemma earned_same db db' :
  registrations db' = registrations db -> statements db' = statements db -> same_units db db' ->
  earned db -> earned db'.
Proof.
  intros Hr Hs Hu [H1 H2]. split; [by rewrite Hr, Hs|]. rewrite Hr. intros reg r Hreg.
  destruct (H2 reg r Hreg) as (a & Ha & He). destruct (Hu _ _ Ha) as (a' & Ha' & Hsame).
  exists a'. split; [done|]. eapply earned_by_unit; [by apply heard_same | done..].
Qed.

Lemma genuine_same s db db' :
  registrations db' = registrations db -> same_units db db' -> genuine s db -> genuine s db'.
Proof.
  intros Hr Hu (r & a & H1 & H2 & H3). destruct (Hu _ _ H2) as (a' & Ha' & Hi & _).
  exists r, a'. rewrite Hr, Hi. tauto.
Qed.

(** Tables other than the sessions', and the parts of them that identity rests on. *)
Definition frame (I : Cmi5Db -> Prop) : Prop := forall db db',
  registrations db' = registrations db -> statements db' = statements db -> same_units db db' ->
  I db -> I db'.

Lemma frame_earned : frame earned.
Proof. intros db db'. apply earned_same. Qed.

Lemma frame_genuine s : frame (genuine s).
Proof. intros db db' Hr _. by apply genuine_same. Qed.

Lemma frame_and I I' : frame I -> frame I' -> frame (fun db => I db /\ I' db).
Proof. intros H H' db db' H1 H2 H3 [Hi Hi']. split; [by eapply H | by eapply H']. Qed.

Lemma keeps_frame_within {A E} I (m : Faults.M TrainingDb E A) : frame I -> keeps I (within m).
Proof.
  intros H. apply keeps_within_frame. intros db p. apply H; try done. by apply same_units_refl.
Qed.

(** ** Recording a statement *)

Definition with_statement (reg sid : uuid) (verb : string) (raw : json) (db : Cmi5Db) : Cmi5Db :=
  with_sessions_of (registrations db) (launch_tokens db)
    (statements db ++ [{| statement_registration_id := reg; row_statement_id := sid;
                          statement_verb_iri := verb; statement_json := raw |}])
    (state_documents db) db.

Lemma stored_with_statement db reg sid verb raw k :
  stored (with_statement reg sid verb raw db) k = stored db k ++ (if reg ≟ k then [raw] else []).
Proof.
  unfold stored, with_statement. simpl. rewrite List.filter_app, fmap_app. simpl.
  by destruct (bool_decide (reg = k)).
Qed.

Lemma heard_with_statement db reg sid verb raw k :
  heard (with_statement reg sid verb raw db) k =
  heard db k ++ (if reg ≟ k then option_list (hear raw) else []).
Proof.
  unfold heard. rewrite stored_with_statement, omap_app. f_equal. case_bool_decide; [|done].
  rewrite omap_cons. by destruct (hear raw).
Qed.

(** A statement appended to an ordered history that it may follow. *)
Lemma earned_with_statement db sid verb raw stmt s r a site :
  let reg := session_registration_id s in
  earned db -> registrations db !! reg = Some r -> aus db !! registration_au_id r = Some a ->
  hear raw = Some stmt -> bound stmt (claim site reg r a) ->
  consistent (au_mastery_score a) stmt -> ordered (heard db reg ++ [stmt]) ->
  earned (with_statement reg sid verb raw db).
Proof.
  intros reg [H1 H2] Hr Ha Hh Hb Hc Ho. split.
  - simpl. intros x. rewrite elem_of_app, list_elem_of_singleton. intros [Hx| ->]; [by apply H1|by eexists].
  - simpl. intros k rk Hk. destruct (H2 k rk Hk) as (ak & Hak & [E1 E2 E3]). exists ak. split; [done|].
    assert (heard (with_statement reg sid verb raw db) k = heard db k \/
      k = reg /\ rk = r /\ ak = a /\ heard (with_statement reg sid verb raw db) k = heard db k ++ [stmt])
      as [E|(-> & -> & -> & E)].
    { rewrite heard_with_statement, Hh. case_bool_decide as Ek; [|left; by rewrite app_nil_r].
      subst k. right. split_and!; [done|congruence|congruence|done]. }
    { split; by rewrite E. }
    split; rewrite ?E; [|done|].
    + intros x. rewrite elem_of_app, list_elem_of_singleton. intros [Hx| ->]; [by apply E1|]. by exists site.
    + intros Hs. destruct (E3 Hs) as (Hm & m & Hp & Hmet). split; [done|]. exists m. split; [done|].
      by apply met_snoc.
Qed.

Lemma satisfied_earned db reg r a o now :
  earned db -> registrations db !! reg = Some r -> aus db !! registration_au_id r = Some a ->
  registration_mode r = launch_mode_as_str Normal ->
  (exists m, move_on_parse (au_row_move_on a) = inl m /\ met m (heard db reg) = true) ->
  earned (with_sessions_of (alter (satisfy now o) reg (registrations db)) (launch_tokens db)
            (statements db) (state_documents db) db).
Proof.
  intros [H1 H2] Hr Ha Hm Hmet. split; simpl.
  - intros x Hx. destruct (H1 x Hx) as [y Hy]. rewrite lookup_alter.
    case_decide; [|by exists y]. subst. rewrite Hy. by eexists.
  - intros k rk. rewrite lookup_alter. case_decide as Hk; [subst k|].
    + rewrite Hr. intros [= <-]. destruct (H2 reg r Hr) as (a' & Ha' & [E1 E2 _]). simpl.
      exists a. split; [done|]. assert (a' = a) as -> by congruence. split; simpl; try done.
    + intros Hrk. destruct (H2 k rk Hrk) as (ak & Hak & [E1 E2 E3]). by exists ak.
Qed.

(** ** The training a grant writes *)

(** Only one trainee's progress through one step may differ. *)
Record only_progress (uid sid : uuid) (t t' : TrainingDb) : Prop := {
  only_steps : steps t' = steps t;
  only_instructors : instructors t' = instructors t;
  only_waivers : waivers t' = waivers t;
  only_prerequisites : prerequisites t' = prerequisites t;
  only_rows : forall k, k <> (uid, sid) -> progress t' !! k = progress t !! k;
}.

Lemma only_refl uid sid t : only_progress uid sid t t.
Proof. done. Qed.

Lemma only_put uid sid t0 t p :
  only_progress uid sid t0 t -> only_progress uid sid t0 (put_progress uid sid p t).1.
Proof.
  unfold put_progress. case_match; [|done]. intros [H1 H2 H3 H4 H5]. split; try done.
  intros k Hk. simpl. rewrite lookup_insert_ne by done. by apply H5.
Qed.

Lemma completion_spec now uid sid ins notes t0 :
  triple (only_progress uid sid t0) (fun _ => True)
    (record_step_completion now uid sid ins "completed" notes)
    (fun _ t => exists p, progress t !! (uid, sid) = Some p /\ progress_status p = Training.Completed).
Proof.
  unfold record_step_completion, parse_completion. rewrite !bool_decide_eq_true_2 by done.
  apply triple_bind with (R := fun _ _ => True).
  { apply triple_keeps, keeps_bind; [apply keeps_select | intros; apply keeps_ret]. }
  intros e. apply triple_call. intros t Ht _.
  assert (forall p t1, only_progress uid sid t0 t1 -> progress_status p = Training.Completed ->
    only_progress uid sid t0 (put_progress uid sid p t1).1 /\
    match (put_progress uid sid p t1).2 with
    | inl _ => exists q, progress (put_progress uid sid p t1).1 !! (uid, sid) = Some q /\
        progress_status q = Training.Completed
    | inr _ => True end) as Hput.
  { intros p t1 H1 Hp. split; [by apply only_put|]. unfold put_progress.
    destruct (progress_ok p); [|done]. simpl. rewrite lookup_insert_eq. by exists p. }
  destruct (progress t !! (uid, sid)) as [p|] eqn:E.
  - match goal with |- context [put_progress uid sid ?q t] => specialize (Hput q t Ht eq_refl) end.
    destruct (put_progress _ _ _ _) as [t' [q|x]]; simpl in *; tauto.
  - unfold insert_progress. destruct (_ && _); [|done].
    match goal with |- context [put_progress uid sid ?q ?t1] =>
      specialize (Hput q t1 ltac:(by destruct Ht) eq_refl) end.
    destruct (put_progress _ _ _ _) as [t' [q|x]]; simpl in *; tauto.
Qed.

(** What a step takes: a statement of this session's own, saying what its verb must,
    in its place in the order, with which the history meets the criterion of a unit
    bound to the step, in a normal launch not satisfied before. *)
Inductive deserved (db : Cmi5Db) (s : Cmi5SessionContext) (site : string) (raw : json)
    (step : uuid) : Prop :=
  | Deserved stmt r a m :
      statement_from_value raw = inl stmt ->
      registrations db !! session_registration_id s = Some r ->
      aus db !! registration_au_id r = Some a ->
      registration_user_id r = session_user_id s ->
      bound stmt (claim site (session_registration_id s) r a) ->
      consistent (au_mastery_score a) stmt ->
      ordered (heard db (session_registration_id s) ++ [stmt]) ->
      move_on_parse (au_row_move_on a) = inl m ->
      met m (heard db (session_registration_id s) ++ [stmt]) = true ->
      registration_mode r = launch_mode_as_str Normal ->
      satisfied_at r = None ->
      training_step_id a = Some step ->
      deserved db s site raw step.

Definition touched (db : Cmi5Db) (s : Cmi5SessionContext) (site : string) (raw : json)
    (db' : Cmi5Db) : Prop :=
  training db' = training db \/
  exists step, deserved db s site raw step /\
    only_progress (session_user_id s) step (training db) (training db').

Definition granted (now : instant) (db : Cmi5Db) (s : Cmi5SessionContext) (site : string)
    (raw : json) (g : option GrantInfo) (db' : Cmi5Db) : Prop :=
  match g with
  | None => training db' = training db
  | Some g => deserved db s site raw (grant_step_id g) /\ grant_user_id g = session_user_id s /\
      (exists p, progress (training db') !! (session_user_id s, grant_step_id g) = Some p /\
        progress_status p = Training.Completed) /\
      exists r, registrations db' !! session_registration_id s = Some r /\ satisfied_at r = Some now
  end.

Section Record.
Context (now : instant) (s : Cmi5SessionContext) (site : string) (raw : json) (db0 : Cmi5Db).

(** What holds all through the recording. *)
Definition safe (db : Cmi5Db) : Prop :=
  (earned db /\ genuine s db) /\ touched db0 s site raw db.

(** Writing the grant, from a state that differs from the first in its sessions only. *)
Lemma grant_spec d1 a score step :
  training d1 = training db0 -> deserved db0 s site raw step ->
  triple safe (fun d => d = d1) (grant_step now step s a score)
    (fun g d => (exists t, d = put t d1) /\ grant_step_id g = step /\
       grant_user_id g = session_user_id s /\
       exists p, progress (training d) !! (session_user_id s, step) = Some p /\
         progress_status p = Training.Completed).
Proof.
  intros Ht Hd. unfold grant_step.
  eapply triple_bind.
  { eapply triple_weaken; [eapply triple_reads, reads_map_err, reads_within, reads_select |
      exact (fun _ _ H => H) | exact (fun _ d _ H => proj1 H)]. }
  intros [st|]; [|apply triple_throw].
  eapply triple_bind.
  - apply triple_map_err. eapply triple_within_from.
    + apply completion_spec with (t0 := training db0).
    + intros d _ ->. simpl. by rewrite Ht.
    + intros d p [Hf _] -> Hj. split.
      * revert Hf. apply (frame_and _ _ frame_earned (frame_genuine s)); try done.
        by apply same_units_refl.
      * right. by exists step.
  - intros ?. apply triple_ret. intros d _ (d0 & p & -> & -> & _ & Hq). split_and!; try done.
    by exists p.
Qed.

(** The whole of it, from any state the promise holds of. *)
Lemma record_statement_spec hint fresh_id :
  earned db0 -> genuine s db0 ->
  triple safe (fun d => d = db0) (record_statement now s site hint fresh_id raw)
    (granted now db0 s site raw).
Proof.
  intros He (r & a & Hr & Ha & Hu & Hau & Hiri & Hmode). set (reg := session_registration_id s) in *.
  unfold record_statement. destruct (statement_from_value raw) as [stmt|x] eqn:Eraw; [|apply triple_throw].
  apply triple_bind with (R := fun au d => d = db0 /\ au = a).
  { apply triple_call. intros d Hi ->. rewrite Hau, Ha. done. }
  intros au. apply triple_pure. intros ->.
  destruct (validate_cmi5_statement _ _) as [[]|v] eqn:Ev; [|apply triple_throw].
  apply validate_sound in Ev as (Hb & Hverb & Hc). unfold expectation in *. simpl in Hc.
  rewrite Hu, Hiri in Hb. fold (claim site reg r a) in Hb.
  set (sid := default fresh_id _).
  eapply triple_bind; [apply triple_select_at|]. intros already. apply triple_pure.
  intros _. destruct already; [apply triple_ret; by intros d _ ->|].
  eapply triple_bind; [apply triple_select_at|]. intros prior. apply triple_pure. intros ->.
  fold reg. destruct (apply (replay _) stmt) as [machine|v] eqn:Em; [|apply triple_throw].
  assert (hear raw = Some stmt) as Hh by (unfold hear; by rewrite Eraw, Hverb).
  destruct (earned_each _ He reg r Hr) as (a' & Ha' & Eby). assert (a' = a) as -> by congruence.
  destruct (proj2 (accepted_ordered _) (earned_order _ _ _ _ Eby)) as [st Hst].
  unfold replay in Em. rewrite (replay_heard _ _ _ Hst) in Em.
  assert (accepted new (heard db0 reg ++ [stmt]) = inl machine) as Hacc.
  { rewrite accepted_snoc, Hst. exact Em. }
  destruct (proj1 (accepted_ordered _) machine Hacc) as [Hord Hknows].
  set (db1 := with_statement reg sid (verb_id stmt) raw db0).
  assert (earned db1) as He1 by by eapply earned_with_statement.
  assert (genuine s db1) as Hg1 by by exists r, a.
  apply triple_bind with (R := fun _ d => d = db1).
  { apply triple_call. intros d Hi ->. destruct (existsb _ _); [by split|].
    destruct (is_some _); [|by split]. split; [|done]. split; [done|]. by left. }
  intros ?. destruct (move_on_parse _) as [m|e] eqn:Emo; [|apply triple_throw].
  rewrite (met_outcome _ _ m Hknows).
  destruct (negb _ || negb _) eqn:Ecred; [apply triple_ret; by intros d _ ->|]. split_andb.
  destruct (training_step_id a) as [step|] eqn:Estep; [|apply triple_ret; by intros d _ ->].
  apply triple_bind with (R := fun r' d => d = db1 /\ r' = r).
  { apply triple_call. intros d Hi ->. simpl. fold reg. by rewrite Hr. }
  intros r'. apply triple_pure. intros ->.
  destruct (satisfied_at r) as [t|] eqn:Esat; [apply triple_ret; by intros d _ ->|]. cbn [is_some].
  assert (deserved db0 s site raw step) as Hdes.
  { eapply (Deserved _ _ _ _ _ stmt r a m); fold reg; try congruence; done. }
  eapply triple_bind; [by apply (grant_spec db1)|]. intros g. cbv beta.
  eapply triple_bind with (R := fun _ d => granted now db0 s site raw (Some g) d);
    [|intros ?; by apply triple_ret].
  apply triple_call. intros d [[Hed _] Ht] ([t ->] & Hgs & Hgu & p & Hp & Hcomp).
  split; [split; [split|]|split_and!].
  - eapply satisfied_earned; [done | exact Hr | exact Ha | congruence|]. exists m. split; [done|].
    change (met m (heard db1 reg) = true). unfold db1.
    rewrite heard_with_statement, bool_decide_eq_true_2, Hh by done. exact H0.
  - exists (satisfy now (outcome machine) r), a. simpl. fold reg. rewrite lookup_alter_eq, Hr. done.
  - destruct Ht as [Ht|Ht]; [by left | by right].
  - by rewrite Hgs.
  - done.
  - rewrite Hgs. by exists p.
  - simpl. fold reg. rewrite lookup_alter_eq, Hr. by eexists.
Qed.
End Record.

(** C25. Nothing a session sends touches anybody's training unless it has earned it.
    Whatever is sent and whatever faults the request meets, either the training
    tables stay as they were, or one step of the session's own learner is written,
    and then this statement completes an ordered history of that learner's own
    statements which meets the criterion of the unit bound to the step, in a normal
    launch not satisfied before.  A grant that is answered stands: the step is
    completed and the registration satisfied, so it grants no second time. *)
Theorem grant_is_deserved now s site raw hint fresh_id db fs :
  earned db -> genuine s db ->
  let '((db', _), r) := record_statement now s site hint fresh_id raw (db, fs) in
  touched db s site raw db' /\
  match r with inl g => granted now db s site raw g db' | inr _ => True end.
Proof.
  intros He Hg. pose proof (record_statement_spec now s site raw db hint fresh_id He Hg db fs) as H.
  destruct (record_statement _ _ _ _ _ _ _) as [[db' fs'] r].
  destruct H as [[_ Ht] Hr]; [split; [done | by left] | done|]. by split.
Qed.

End Grants.
End Grants.
