(* ===== verification/Cmi5Surface.v ===== *)
(** * The promises of the cmi5 surface

    Over every request, under any faults: registrations marked satisfied have earned
    earned it, a fetch token buys one session, and a session reaches what is its own
    only. *)
From S2P Require Import Prelude Text Wire Faults Database Api Power Training TrainingGate Cmi5Manifest Cmi5RoundTrip Cmi5Session Cmi5Launch Cmi5Store Cmi5Courses Cmi5Lrs Cmi5Api Cmi5Grants.
From Stdlib Require Import Ascii.
Import Text Wire Faults Database Power Training Manifest Session Launch Store Lrs Cmi5Api Grants Courses.

Module Surface.

#[local] Open Scope Z_scope.

(** A statement written as JSON reads back, when it does, with its verb. *)
Class Cmi5JsonReads {U : Uuid} (J : Cmi5Json) :=
  statement_verb_reads : forall s v s', statement_to_value s = inl v ->
    statement_from_value v = inl s' -> verb_id s' = verb_id s.

Section Surface.
Context {U : Uuid} {IS : IdSource} {J : Cmi5Json} {TH : TokenHash} {FM : Fmt} {JR : Cmi5JsonReads J}.
Context {X : QuickXml} (events_of : string -> stream) (cfg : Settings) (now : instant).

(** ** Operations that leave the sessions alone *)

(** Courses come, units are bound: registrations and statements stay. *)
Record grows (db db' : Cmi5Db) : Prop := {
  grows_registrations : registrations db' = registrations db;
  grows_tokens : launch_tokens db' = launch_tokens db;
  grows_statements : statements db' = statements db;
  grows_documents : state_documents db' = state_documents db;
  grows_units : same_units db db';
}.

Lemma grows_same db db' :
  registrations db' = registrations db -> launch_tokens db' = launch_tokens db ->
  statements db' = statements db -> state_documents db' = state_documents db ->
  aus db' = aus db -> grows db db'.
Proof. intros. split; try done. by apply same_units_refl. Qed.

Lemma grows_refl db : grows db db.
Proof. by apply grows_same. Qed.

Lemma grows_trans a b c : grows a b -> grows b c -> grows a c.
Proof.
  intros [H1 H2 H3 H4 H5] [G1 G2 G3 G4 G5]. split; try congruence.
  intros k x Hx. destruct (H5 k x Hx) as (y & Hy & S1 & S2 & S3).
  destruct (G5 k y Hy) as (z & Hz & T1 & T2 & T3). exists z. split; [done|].
  split_and!; congruence.
Qed.

(** An invariant of the sessions' tables. *)
Definition of_sessions (I : Cmi5Db -> Prop) : Prop := forall db db', grows db db' -> I db -> I db'.

Lemma frame_of_sessions I : frame I -> of_sessions I.
Proof. intros H db db' [H1 _ H3 _ H5]. by apply H. Qed.

Lemma keeps_within_sessions {A E} I (m : Faults.M TrainingDb E A) : of_sessions I -> keeps I (within m).
Proof. intros H. apply keeps_within_frame. intros db p. apply H. by apply grows_same. Qed.

Lemma keeps_surface_log I event uid : of_sessions I -> keeps I (log_event event uid).
Proof. intros H. by apply keeps_map_err, keeps_within_sessions. Qed.

Lemma keeps_enabled I : keeps I (ensure_enabled cfg).
Proof. unfold ensure_enabled. run_keeps. Qed.
Hint Resolve keeps_surface_log keeps_enabled : css.

(** ** Importing *)

Lemma grows_insert_au cid bid i au db : grows db (insert_au cid bid i au db).1.
Proof.
  unfold insert_au. destruct (_ || _) eqn:E; [by apply grows_same|].
  apply orb_false_iff in E as [_ E]. split; try done. intros k a Ha. simpl. exists a. split; [|done].
  rewrite lookup_insert_ne; [done|]. intros Hk. by rewrite Hk, Ha in E.
Qed.

Lemma grows_insert_block cid bid i b db : grows db (insert_block cid bid i b db).1.
Proof. unfold insert_block. case_match; by apply grows_same. Qed.

Lemma grows_insert_course now' cid xml by_ st db :
  grows db (insert_course now' cid xml by_ st db).1.
Proof.
  unfold insert_course. destruct (is_some _); [by apply grows_same|].
  destruct (negb _); [by apply grows_same|].
  match goal with |- context [insert_nodes ?c ?b ?ns ?d] =>
    pose proof (insert_nodes_rel grows c grows_refl
      grows_trans (grows_insert_au c) (grows_insert_block c) ns b d) as H end.
  destruct (insert_nodes _ _ _ _) as [db' [x|e]]; [|by apply grows_same].
  eapply grows_trans; [|exact H]. by apply grows_same.
Qed.

Lemma keeps_of_sessions_call {A} (I : Cmi5Db -> Prop) (f : Cmi5Db -> Cmi5Db * (A + Cmi5Error)) :
  of_sessions I -> (forall db, grows db (f db).1) -> keeps I (call f).
Proof. intros H Hf. apply keeps_call. intros db. by apply H. Qed.

Lemma keeps_with_files (I : Cmi5Db -> Prop) f : of_sessions I -> keeps (E := Cmi5Error) I (effect (with_files f)).
Proof. intros H db fs Hi _. split; [|done]. revert Hi. apply H. by apply grows_same. Qed.

Lemma keeps_extract (I : Cmi5Db -> Prop) dest m : of_sessions I ->
  forall es total, keeps I (extract_entries dest m total es).
Proof.
  intros H. induction es as [|[e|x] es IH]; intros total; cbn [extract_entries]; [auto with css| |auto with css].
  run_keeps; first [by apply keeps_with_files | by apply IH].
Qed.

Lemma keeps_get_course (I : Cmi5Db -> Prop) id : keeps I (get_course id).
Proof. by apply keeps_call. Qed.

Lemma keeps_import_course I now' upload cid staff :
  of_sessions I -> keeps I (import_course events_of cfg now' upload cid staff).
Proof.
  intros H. unfold import_course, import_package. run_keeps; apply keeps_map_err; run_keeps.
  - by apply keeps_extract.
  - apply keeps_attempt, keeps_of_sessions_call; [done|]. intros db.
    match goal with |- context [insert_course ?n ?i ?x ?b ?st db] =>
      pose proof (grows_insert_course n i x b st db) as Hg end.
    by destruct (insert_course _ _ _ _ _ _).
  - by apply keeps_with_files.
Qed.

Lemma keeps_delete_course I staff cid : of_sessions I -> keeps I (delete_course_handler cfg now staff cid).
Proof.
  intros H. unfold delete_course_handler, delete_course. run_keeps. apply keeps_map_err. run_keeps.
  - apply keeps_get_course.
  - apply keeps_of_sessions_call; [done|]. intros db. repeat case_match; by apply grows_same.
  - by apply keeps_with_files.
Qed.

Lemma grows_bind db aid a step :
  aus db !! aid = Some a ->
  grows db (with_tree (courses db) (blocks db) (<[aid := bind_au step a]> (aus db)) db).
Proof.
  intros Ha. split; try done. intros k x Hx. simpl. destruct (decide (k = aid)) as [->|Hk].
  - rewrite lookup_insert_eq. eexists. split; [done|]. assert (x = a) as -> by congruence. done.
  - rewrite lookup_insert_ne by done. by exists x.
Qed.

Lemma keeps_assign I admin aid step : of_sessions I -> keeps I (assign_au_step_handler cfg admin aid step).
Proof.
  intros H. unfold assign_au_step_handler. run_keeps. apply keeps_map_err. unfold assign_au_step.
  apply keeps_bind; [by apply keeps_call|]. intros au. apply keeps_bind.
  { run_keeps. by apply keeps_call. }
  intros ?. apply keeps_of_sessions_call; [done|]. intros db.
  destruct (aus db !! aid) as [a|] eqn:Ha; [|by apply grows_same].
  destruct (is_none_or _ _); [by apply grows_bind | by apply grows_same].
Qed.

(** ** The session extractor *)

Lemma session_of_genuine hash db s : session_of now hash db = Some s -> genuine s db.
Proof.
  unfold session_of. destruct (find_first _ _) as [t|]; [|done]. simpl.
  destruct (registrations db !! token_registration_id t) as [r|] eqn:Hr; [|done]. simpl.
  destruct (aus db !! registration_au_id r) as [a|] eqn:Ha; [|done]. simpl. intros [= <-].
  by exists r, a.
Qed.

Lemma reads_session_auth h : reads (session_auth now h) (fun db s => genuine s db).
Proof.
  unfold session_auth. destruct h as [h|]; [|apply reads_throw].
  destruct (header_to_str h ≫= _) as [token|]; [|apply reads_throw].
  eapply reads_bind; [eapply reads_attempt, reads_map_err, reads_select|].
  intros [[s|]|e]; [|apply reads_throw..]. apply reads_ret. intros db H.
  by eapply session_of_genuine.
Qed.

(** ** Satisfied registrations have earned it *)

Definition sound (s : Cmi5SessionContext) (db : Cmi5Db) : Prop := earned db /\ genuine s db.

Lemma sound_sessions s : of_sessions (sound s).
Proof. apply frame_of_sessions, frame_and; [apply frame_earned | apply frame_genuine]. Qed.

Lemma keeps_record s hint id body : keeps (sound s) (record_and_apply cfg now s hint id body).
Proof.
  unfold record_and_apply. apply keeps_bind.
  - apply keeps_map_err. intros db fs [He Hg] _.
    pose proof (record_statement_spec now s (site_url cfg) body db hint id He Hg db fs) as H.
    destruct (record_statement _ _ _ _ _ _ _) as [[db' fs'] r].
    destruct H as [[H _] _]; [split; [done | by left] | done|]. split; [done|]. by destruct r.
  - intros [g|]; [apply keeps_surface_log, sound_sessions | apply keeps_ret].
Qed.

Lemma keeps_post s ids items : forall i, keeps (sound s) (post_items cfg now s ids i items).
Proof.
  induction items as [|item items IH]; intros i; cbn [post_items]; [apply keeps_ret|].
  apply keeps_bind; [apply keeps_record | intros ?].
  apply keeps_bind; [apply IH | intros; apply keeps_ret].
Qed.

(** A launch starts a registration with nothing said. *)
Lemma earned_insert_launch d aid uid au ld actor launched db :
  let v := launched_statement now (drawn_statement d) (drawn_registration d) actor (au_iri au) in
  statement_to_value v = inl launched ->
  earned db -> earned (insert_launch (service cfg) now d aid uid au ld launched db).1.
Proof.
  intros v Hv [H1 H2]. unfold insert_launch. destruct (_ || _) eqn:E; [done|].
  destruct (negb _) eqn:Ef; [done|]. split_andb. set (reg := drawn_registration d) in *.
  destruct (registrations db !! reg) as [r0|] eqn:Hreg; [done|].
  destruct (aus db !! aid) as [a|] eqn:Ha; [|done].
  assert (hear launched = None) as Hl.
  { unfold hear. destruct (statement_from_value launched) as [s|] eqn:Es; [|done].
    by rewrite (statement_verb_reads _ _ _ Hv Es). }
  set (db' := _.1). assert (forall k, heard db' k = heard db k) as Hh.
  { intros k. unfold heard, stored, db', with_sessions_of. cbn [fst statements].
    rewrite List.filter_app, fmap_app, omap_app. cbn [List.filter statement_registration_id].
    rewrite <- (app_nil_r (omap _ _)) at 2. f_equal. case_bool_decide; [|done].
    rewrite fmap_cons, omap_cons. cbn [statement_json]. by rewrite Hl. }
  split.
  - intros x. simpl. rewrite elem_of_app, list_elem_of_singleton. intros [Hx| ->].
    + destruct (H1 x Hx) as [r Hr]. exists r. rewrite lookup_insert_ne; [done|]. intros Hk. congruence.
    + rewrite lookup_insert_eq. by eexists.
  - intros k r. simpl. rewrite lookup_insert_Some. intros [[<- <-]|[Hk Hr]].
    + simpl. exists a. split; [done|].
      assert (heard db reg = []) as E0.
      { unfold heard, stored. replace (List.filter _ _) with (@nil Cmi5Statement); [done|].
        symmetry. apply elem_of_nil_inv. intros x Hx. apply elem_of_lfilter in Hx as [Hx Hr].
        apply bool_decide_eq_true in Hr. destruct (H1 x Hx) as [r Hr']. congruence. }
      split; rewrite ?Hh, ?E0; simpl.
      * intros s Hs. inversion Hs.
      * by split.
      * intros [t Ht]. done.
    + destruct (H2 k r Hr) as (a' & Ha' & [E1 E2 E3]). exists a'. split; [done|].
      split; by rewrite ?Hh.
Qed.

Lemma triple_json_result {A} I (r : A + string) :
  triple I (fun _ => True) (json_result r) (fun x _ => True /\ r = inl x).
Proof. destruct r; [by apply triple_ret | apply triple_throw]. Qed.

Lemma keeps_launch d member aid : keeps earned (launch_au cfg now d member aid).
Proof.
  unfold launch_au. apply keeps_bind; [apply keeps_enabled|]. intros _.
  apply keeps_bind; [|intros; apply keeps_bind; [|intros; apply keeps_ret];
    apply keeps_surface_log, frame_of_sessions, frame_earned].
  apply keeps_map_err. unfold create_launch.
  apply keeps_bind; [by apply keeps_call|]. intros au. apply keeps_bind; [apply keeps_get_course|].
  intros c. cbv zeta. apply keeps_bind; [run_keeps|]. intros m.
  apply keeps_bind; [unfold json_result; run_keeps|]. intros ld.
  eapply triple_bind; [apply triple_json_result|]. intros launched. apply triple_pure. intros Hl.
  apply keeps_bind; [unfold json_result; run_keeps|]. intros query.
  apply keeps_bind; [|intros; apply keeps_ret]. apply keeps_call. intros db He.
  pose proof (earned_insert_launch d aid member au ld _ launched db Hl He) as H.
  by destruct (insert_launch _ _ _ _ _ _ _ _ _).
Qed.

(** A run that needs a condition and keeps it. *)
Lemma keeps_needing {A E} (I P : Cmi5Db -> Prop) (m : Faults.M Cmi5Db E A) :
  keeps (fun db => I db /\ P db) m -> triple I P m (fun _ _ => True).
Proof.
  intros H db fs Hi Hp. specialize (H db fs (conj Hi Hp) Logic.I).
  destruct (m (db, fs)) as [[db' fs'] r]. destruct H as [[H _] _]. split; [done | by destruct r].
Qed.

Lemma triple_session {A} h (k : Cmi5SessionContext -> Faults.M Cmi5Db Api.ApiError A) :
  (forall s, keeps (sound s) (k s)) -> keeps earned (s ← session_auth now h; k s).
Proof.
  intros H. eapply triple_bind; [eapply triple_reads, reads_session_auth|]. intros s.
  eapply triple_weaken; [apply keeps_needing, H | by intros db _ [_ Hg] | done].
Qed.

(** Tables of the sessions other than registrations and statements. *)
Lemma keeps_frame_call {A} (I : Cmi5Db -> Prop) (f : Cmi5Db -> Cmi5Db * (A + Cmi5Error)) :
  frame I -> (forall db, (f db).1 = db \/ exists t d,
    (f db).1 = with_sessions_of (registrations db) t (statements db) d db) -> keeps I (call f).
Proof.
  intros H Hf. apply keeps_call. intros db Hi. destruct (Hf db) as [->|(t & d & ->)]; [done|].
  revert Hi. apply H; try done. by apply same_units_refl.
Qed.

Lemma keeps_fetch I session token : frame I -> keeps I (fetch_credential cfg now session token).
Proof.
  intros H. unfold fetch_credential, consume_fetch. run_keeps. apply keeps_attempt, keeps_map_err. run_keeps.
  apply keeps_frame_call; [done|]. intros db. case_match; [by left|]. right. by eexists _, _.
Qed.

Lemma keeps_put_state I s etag state body : frame I -> keeps I (lrs_put_state cfg s etag state body).
Proof.
  intros H. unfold lrs_put_state, with_state_id. run_keeps. apply keeps_map_err, keeps_frame_call; [done|].
  intros db. case_match; [by left|]. right. by eexists _, _.
Qed.

Lemma keeps_delete_state I s state : frame I -> keeps I (lrs_delete_state cfg s state).
Proof.
  intros H. unfold lrs_delete_state, with_state_id. run_keeps. apply keeps_map_err, keeps_frame_call; [done|].
  intros db. right. by eexists _, _.
Qed.

Lemma frame_sound s : frame (sound s).
Proof. apply frame_and; [apply frame_earned | apply frame_genuine]. Qed.

(** Through every request to the surface and under any faults: a registration is
    marked satisfied only if it was launched normally and the unit's statements
    stored for it are its own learner's, about its own unit, each saying what its
    verb must, in the order cmi5 demands, and meet the unit's criterion. *)
Theorem satisfied_is_earned r : keeps earned (handle events_of cfg now r).
Proof.
  assert (of_sessions earned) as Hs by (apply frame_of_sessions, frame_earned).
  destruct r; cbn [handle].
  - apply keeps_bind; [by apply keeps_import_course | intros; apply keeps_ret].
  - by apply keeps_delete_course.
  - apply keeps_bind; [by apply keeps_assign | intros; apply keeps_ret].
  - apply keeps_bind; [apply keeps_launch | intros; apply keeps_ret].
  - apply keeps_bind; [apply keeps_fetch, frame_earned | intros; apply keeps_ret].
  - apply triple_session. intros s. apply keeps_bind; [apply keeps_enabled | intros; apply keeps_record].
  - apply triple_session. intros s. apply keeps_bind; [|intros; apply keeps_ret].
    apply keeps_bind; [apply keeps_enabled | intros; apply keeps_post].
  - apply triple_session. intros s. apply keeps_put_state, frame_sound.
  - apply triple_session. intros s. apply keeps_delete_state, frame_sound.
Qed.

(** ** A fetch token buys one session *)

Definition of_tokens (I : Cmi5Db -> Prop) : Prop :=
  forall db db', launch_tokens db' = launch_tokens db -> I db -> I db'.

Lemma of_tokens_sessions I : of_tokens I -> of_sessions I.
Proof. intros H db db' [_ Ht _ _ _]. by apply H. Qed.

Lemma keeps_tokens_call {A} (I : Cmi5Db -> Prop) (f : Cmi5Db -> Cmi5Db * (A + Cmi5Error)) :
  of_tokens I -> (forall db, launch_tokens (f db).1 = launch_tokens db) -> keeps I (call f).
Proof. intros H Hf. apply keeps_call. intros db. by apply H. Qed.

Lemma keeps_record_tokens I s hint id body :
  of_tokens I -> keeps I (record_and_apply cfg now s hint id body).
Proof.
  intros H. pose proof (of_tokens_sessions I H) as Hs. unfold record_and_apply, record_statement, grant_step.
  run_keeps; try apply keeps_map_err; run_keeps; try by apply keeps_within_sessions.
  all: try (apply keeps_tokens_call; [done|]; intros db; repeat case_match; done).
  all: repeat first [by apply keeps_surface_log | progress run_keeps | apply keeps_map_err
    | by apply keeps_within_sessions | by (apply keeps_tokens_call; [done|]; intros db; repeat case_match)].
Qed.

Lemma keeps_post_tokens I s ids items : of_tokens I -> forall i, keeps I (post_items cfg now s ids i items).
Proof.
  intros H. induction items as [|item items IH]; intros i; cbn [post_items]; [apply keeps_ret|].
  apply keeps_bind; [by apply keeps_record_tokens | intros ?].
  apply keeps_bind; [apply IH | intros; apply keeps_ret].
Qed.

(** No two launches share a fetch token. *)
Definition distinct_tokens (db : Cmi5Db) : Prop := NoDup (fetch_token_hash <$> launch_tokens db).

(** A token that has been exchanged. *)
Definition spent (hash : string) (db : Cmi5Db) : Prop :=
  exists t, t ∈ launch_tokens db /\ fetch_token_hash t = hash /\ is_Some (fetch_consumed_at t).

Definition gone (hash : string) (db : Cmi5Db) : Prop := distinct_tokens db /\ spent hash db.

Lemma gone_tokens hash : of_tokens (gone hash).
Proof. intros db db' H. unfold gone, distinct_tokens, spent. by rewrite H. Qed.

(** The update a fetch makes. *)
Definition exchange (hash session_hash : string) (t : Cmi5LaunchToken) : Cmi5LaunchToken :=
  if fetch_open now hash t then consume now session_hash t else t.

Lemma exchange_hash h sh (l : list Cmi5LaunchToken) : fetch_token_hash <$> (exchange h sh <$> l) = fetch_token_hash <$> l.
Proof.
  rewrite <- list_fmap_compose. apply list_fmap_ext. intros i t _. simpl. unfold exchange. by case_match.
Qed.

Lemma gone_exchange hash h sh db r s d :
  gone hash db -> gone hash (with_sessions_of r (exchange h sh <$> launch_tokens db) s d db).
Proof.
  intros [Hn (t & Ht & Hh & Hc)]. unfold gone, distinct_tokens, spent. simpl. rewrite exchange_hash.
  split; [done|]. exists t. split_and!; [|done..]. apply list_elem_of_fmap. exists t. split; [|done].
  unfold exchange, fetch_open. destruct Hc as [c ->]. by rewrite andb_false_r.
Qed.

Lemma keeps_gone_fetch hash session token : keeps (gone hash) (fetch_credential cfg now session token).
Proof.
  unfold fetch_credential, consume_fetch. run_keeps. apply keeps_attempt, keeps_map_err. run_keeps.
  apply keeps_call. intros db Hg. case_match; [done|]. by apply gone_exchange.
Qed.

Lemma gone_insert_launch hash d aid uid au ld launched db :
  gone hash db -> gone hash (insert_launch (service cfg) now d aid uid au ld launched db).1.
Proof.
  intros [Hn (t & Ht & H)]. unfold insert_launch. destruct (_ || _) eqn:E; [by split; [|exists t]|].
  destruct (negb _); [by split; [|exists t]|]. rewrite !orb_false_iff in E. destruct E as [[[_ E] _] _].
  unfold gone, distinct_tokens, spent. simpl. split.
  - rewrite fmap_app. apply NoDup_app. split_and!; [done| |by apply NoDup_singleton].
    intros x Hx Hin. apply list_elem_of_fmap in Hin as (t0 & -> & Hin).
    apply list_elem_of_singleton in Hin as ->. apply list_elem_of_fmap in Hx as (t' & Heq & Ht'). apply not_true_iff_false in E. apply E.
    apply existsb_elem. exists t'. split; [done|]. by apply bool_decide_eq_true.
  - exists t. rewrite elem_of_app. split; [by left | done].
Qed.

Lemma keeps_gone_launch hash d member aid : keeps (gone hash) (launch_au cfg now d member aid).
Proof.
  pose proof (of_tokens_sessions _ (gone_tokens hash)) as Hs.
  unfold launch_au, create_launch, json_result. run_keeps; try apply keeps_map_err; run_keeps.
  all: try by apply keeps_call.
  apply keeps_call. intros db Hg.
  match goal with |- context [insert_launch ?c ?n ?dr ?i ?u ?a ?ld ?l db] =>
    pose proof (gone_insert_launch hash dr i u a ld l db Hg) as H end.
  by destruct (insert_launch _ _ _ _ _ _ _ _ _).
Qed.

Lemma keeps_session_auth {A} I h (k : Cmi5SessionContext -> Faults.M Cmi5Db Api.ApiError A) :
  (forall s, keeps I (k s)) -> keeps I (s ← session_auth now h; k s).
Proof. intros H. apply keeps_bind; [|done]. eapply keeps_reads, reads_session_auth. Qed.

Lemma keeps_gone hash r : keeps (gone hash) (handle events_of cfg now r).
Proof.
  pose proof (gone_tokens hash) as Ht. pose proof (of_tokens_sessions _ Ht) as Hs.
  destruct r; cbn [handle].
  - apply keeps_bind; [by apply keeps_import_course | intros; apply keeps_ret].
  - by apply keeps_delete_course.
  - apply keeps_bind; [by apply keeps_assign | intros; apply keeps_ret].
  - apply keeps_bind; [apply keeps_gone_launch | intros; apply keeps_ret].
  - apply keeps_bind; [apply keeps_gone_fetch | intros; apply keeps_ret].
  - apply keeps_session_auth. intros s. apply keeps_bind; [apply keeps_enabled | intros].
    by apply keeps_record_tokens.
  - apply keeps_session_auth. intros s. apply keeps_bind; [|intros; apply keeps_ret].
    apply keeps_bind; [apply keeps_enabled | intros; by apply keeps_post_tokens].
  - apply keeps_session_auth. intros s. unfold lrs_put_state, with_state_id. run_keeps.
    apply keeps_map_err, keeps_tokens_call; [done|]. intros db. by case_match.
  - apply keeps_session_auth. intros s. unfold lrs_delete_state, with_state_id. run_keeps.
    by apply keeps_map_err, keeps_tokens_call.
Qed.

(** An exchange that was answered has spent its token. *)
Lemma fetched_gone session token c db fs db' fs' :
  distinct_tokens db ->
  fetch_credential cfg now session (Some token) (db, fs) = ((db', fs'), inl (200, inl c)) ->
  gone (hash_token token) db'.
Proof.
  intros Hn H. set (h := hash_token token). 
  assert (triple distinct_tokens (fun _ => True) (fetch_credential cfg now session (Some token))
    (fun r d => r = (200, inl c) -> gone h d)) as Ht.
  { unfold fetch_credential. destruct (negb _); [by apply triple_ret|].
    destruct token as [|a token]; [by apply triple_ret|].
    eapply triple_bind; [apply triple_attempt, triple_map_err|].
    - unfold consume_fetch. fold h.
      apply triple_bind with (R := fun n d => n = 1%nat -> spent h d).
      + apply triple_call. intros d Hd _. unfold distinct_tokens.
        destruct (_ && _); simpl; [done|]. fold (exchange h (hash_token session)).
        rewrite exchange_hash. split; [done|]. intros Hl.
        destruct (List.filter (fetch_open now h) (launch_tokens d)) as [|t l] eqn:El; [done|].
        assert (t ∈ List.filter (fetch_open now h) (launch_tokens d)) as Hin by (rewrite El; left).
        apply elem_of_lfilter in Hin as [Hin Ho]. exists (consume now (hash_token session) t).
        simpl. split_and!; [|by unfold fetch_open in Ho; split_andb | by eexists].
        apply list_elem_of_fmap. exists t. split; [|done]. unfold exchange. by rewrite Ho.
      + intros n. destruct (Nat.eqb_spec n 1) as [->|]; [|apply triple_throw].
        apply (triple_ret _ _ _ (fun _ d => spent h d)). intros d _ Hs. by apply Hs.
    - intros [x|e]; apply triple_ret; [|done]. intros d Hd Hs _. by split. }
  specialize (Ht db fs Hn Logic.I). rewrite H in Ht. destruct Ht as [_ Ht]. by apply Ht.
Qed.

(** ** A session reaches its own registration *)

(** What a session may do to the training tables: its learner's progress through the
    step its unit is bound to, if it is bound to one, and audit rows that say the
    learner satisfied it.  Identifiers may have been drawn; all else is as it was. *)
Record scoped (uid : uuid) (bound_to : option uuid) (t0 t : TrainingDb) : Prop := {
  scoped_steps : steps t = steps t0;
  scoped_instructors : instructors t = instructors t0;
  scoped_waivers : waivers t = waivers t0;
  scoped_prerequisites : prerequisites t = prerequisites t0;
  scoped_progress : forall who step, ~ (who = uid /\ bound_to = Some step) ->
    progress t !! (who, step) = progress t0 !! (who, step);
  scoped_others : exists rows n, Forall (eq (Cmi5AuSatisfied, Some uid)) rows /\
    power t = with_base (with_record (fun l => l ++ rows) 0 (with_sessions n id (money t0))) (power t0);
}.

(** What a credential reaches, and nothing else: its own registration, the statements
    and the documents under it, and of the training what [scoped] says. *)
Record apart (s : Cmi5SessionContext) (db0 db : Cmi5Db) : Prop := {
  apart_registration : forall k, k <> session_registration_id s ->
    registrations db !! k = registrations db0 !! k;
  apart_statements : forall k, k <> session_registration_id s -> stored db k = stored db0 k;
  apart_documents : forall reg activity agent name,
    (reg, activity, agent) <>
      (session_registration_id s, session_activity_id s, uuid_show (session_user_id s)) ->
    state_documents db !! (reg, activity, agent, name) = state_documents db0 !! (reg, activity, agent, name);
  apart_courses : courses db = courses db0 /\ blocks db = blocks db0 /\ aus db = aus db0;
  apart_tokens : launch_tokens db = launch_tokens db0;
  apart_files : files db = files db0;
  apart_training :
    scoped (session_user_id s) (aus db0 !! session_au_id s ≫= training_step_id)
      (training db0) (training db);
}.

Lemma scoped_refl uid o t : scoped uid o t t.
Proof.
  split; try done. exists [], 0%nat. split; [done|]. unfold with_record. rewrite app_nil_r.
  by destruct t as [[[] ? ? ? ? ?] ? ? ? ? ?].
Qed.

Lemma apart_refl s db : apart s db db.
Proof. split; try done. apply scoped_refl. Qed.

Lemma scoped_put uid step t0 t p :
  scoped uid (Some step) t0 t -> scoped uid (Some step) t0 (put_progress uid step p t).1.
Proof.
  unfold put_progress. case_match; [|done]. intros [H1 H2 H3 H4 H5 H6]. split; try done.
  intros who k Hk. simpl. rewrite lookup_insert_ne; [by apply H5|]. intros [= -> ->]. by apply Hk.
Qed.

(** Further rows and identifiers, on the money tables. *)
Lemma scoped_more uid o t0 t rows n :
  Forall (eq (Cmi5AuSatisfied, Some uid)) rows -> scoped uid o t0 t ->
  scoped uid o t0 (with_power
    (with_base (with_record (fun l => l ++ rows) 0 (with_sessions n id (money t))) (power t)) t).
Proof.
  intros Hr [H1 H2 H3 H4 H5 (rows0 & n0 & Hr0 & Hp)]. split; try done.
  exists (rows0 ++ rows), (n + n0)%nat. split; [by apply Forall_app|]. unfold money at 1. simpl.
  rewrite Hp. unfold with_base, with_record, with_sessions, id. simpl.
  by rewrite (assoc_L (++)), Nat.add_assoc.
Qed.

Lemma scoped_spend uid o t0 t : scoped uid o t0 t -> scoped uid o t0 (spend t).
Proof.
  intros H. apply (scoped_more _ _ _ _ [] 1) in H; [|done]. revert H.
  by unfold with_record; rewrite app_nil_r.
Qed.

Lemma scoped_completion uid step t0 now' ins st notes :
  keeps (scoped uid (Some step) t0) (record_step_completion now' uid step ins st notes).
Proof.
  unfold record_step_completion. apply keeps_bind; [run_keeps|]. intros e. apply keeps_call.
  intros t Ht. destruct (progress t !! (uid, step)) as [p|].
  - match goal with |- context [put_progress uid step ?q t] => pose proof (scoped_put _ _ _ _ q Ht) as H end.
    by destruct (put_progress _ _ _ _) as [t' [q|x]].
  - unfold insert_progress. destruct (_ && _); [|done].
    match goal with |- context [put_progress uid step ?q ?t1] =>
      pose proof (scoped_put _ _ _ t1 q (scoped_spend _ _ _ _ Ht)) as H end.
    by destruct (put_progress _ _ _ _) as [t' [q|x]].
Qed.

Lemma scoped_log uid o t0 : keeps (scoped uid o t0) (base_call (create_audit_log Cmi5AuSatisfied (Some uid))).
Proof.
  intros t fs Ht _. unfold base_call, within, create_audit_log, call.
  destruct fs as [|[] fs]; cbn; (split; [|done]).
  3: by destruct t as [[] ? ? ? ? ?].
  all: apply (scoped_more _ _ _ _ [(Cmi5AuSatisfied, Some uid)] 0); [by repeat constructor|done].
Qed.

(** What stays within [scoped] on the training tables keeps the whole apart. *)
Lemma apart_within {A E} s db0 o (m : Faults.M TrainingDb E A) :
  (aus db0 !! session_au_id s ≫= training_step_id) = o ->
  keeps (scoped (session_user_id s) o (training db0)) m -> keeps (apart s db0) (within m).
Proof.
  intros <- Hm. eapply keeps_within; [exact Hm| |].
  - by intros db [].
  - by intros db p [] Hp.
Qed.

Lemma apart_log s db0 : keeps (apart s db0) (log_event Cmi5AuSatisfied (session_user_id s)).
Proof. eapply keeps_map_err, apart_within; [done|]. apply scoped_log. Qed.

Lemma apart_with_statement s db0 db sid verb raw :
  apart s db0 db -> apart s db0 (with_statement (session_registration_id s) sid verb raw db).
Proof.
  intros [H1 H2 H3 H4 H5 H6 H7]. split; try done. intros k Hk. rewrite stored_with_statement.
  rewrite bool_decide_eq_false_2 by done. rewrite app_nil_r. by apply H2.
Qed.

Lemma apart_satisfy s db0 db o :
  apart s db0 db ->
  apart s db0 (with_sessions_of (alter (satisfy now o) (session_registration_id s) (registrations db))
                 (launch_tokens db) (statements db) (state_documents db) db).
Proof.
  intros [H1 H2 H3 H4 H5 H6 H7]. split; try done. intros k Hk. simpl.
  rewrite lookup_alter_ne by done. by apply H1.
Qed.

Lemma apart_grant s db0 a score step :
  (aus db0 !! session_au_id s ≫= training_step_id) = Some step ->
  triple (apart s db0) (fun _ => True) (grant_step now step s a score)
    (fun g _ => grant_user_id g = session_user_id s).
Proof.
  intros Hs. unfold grant_step.
  eapply triple_bind with (R := fun _ _ => True).
  { eapply triple_keeps, keeps_reads, reads_map_err, reads_within, reads_select. }
  intros [st|]; [|apply triple_throw]. eapply triple_bind with (R := fun _ _ => True).
  { eapply triple_keeps, keeps_map_err, apart_within; [exact Hs|]. apply scoped_completion. }
  intros ?. by apply triple_ret.
Qed.

Lemma triple_fact {A E} I (phi : Prop) (m : Faults.M Cmi5Db E A) Q :
  (phi -> triple I (fun _ => True) m Q) -> triple I (fun _ => phi) m Q.
Proof. intros H db fs Hi Hp. by apply H. Qed.

(** A statement writes nothing else, and what it grants it grants to its learner. *)
Lemma apart_statement db0 s site hint id body :
  triple (apart s db0) (fun _ => True) (record_statement now s site hint id body)
    (fun g _ => is_none_or g (fun g => bool_decide (grant_user_id g = session_user_id s)) = true).
Proof.
  unfold record_statement. destruct (statement_from_value _) as [stmt|]; [|apply triple_throw].
  apply triple_bind with (R := fun au _ => aus db0 !! session_au_id s = Some au).
  { apply triple_call. intros db Hd _. split; [done|]. destruct Hd as [? ? ? (_ & _ & <-) ? ? ?].
    cbn [snd]. by destruct (aus db !! session_au_id s). }
  intros au. apply triple_fact; intros Hau.
  destruct (validate_cmi5_statement _ _) as [[]|]; [|apply triple_throw].
  eapply triple_bind; [apply triple_keeps, keeps_select|]. intros []; [by apply triple_ret|].
  eapply triple_bind; [apply triple_keeps, keeps_select|]. intros prior.
  destruct (apply _ _) as [machine|]; [|apply triple_throw].
  eapply triple_bind with (R := fun _ _ => True).
  { apply triple_keeps, keeps_call. intros db Hd. repeat case_match; try done. by apply apart_with_statement. }
  intros ?. destruct (move_on_parse _) as [m|]; [|apply triple_throw].
  destruct (_ || _); [by apply triple_ret|].
  destruct (training_step_id au) as [step|] eqn:Estep; [|by apply triple_ret].
  eapply triple_bind with (R := fun _ _ => True).
  { apply triple_keeps, keeps_call. intros db Hd. by case_match. }
  intros r. destruct (is_some _); [by apply triple_ret|].
  eapply triple_bind; [apply apart_grant; by rewrite Hau|]. intros g. cbv beta. apply triple_fact; intros Hg.
  eapply triple_bind with (R := fun _ _ => True).
  { apply triple_keeps, keeps_call. intros db Hd. by apply apart_satisfy. }
  intros ?. apply triple_ret. intros db _ _. by apply bool_decide_eq_true.
Qed.

Lemma apart_record db0 s hint id body :
  keeps (apart s db0) (record_and_apply cfg now s hint id body).
Proof.
  unfold record_and_apply, lift.
  eapply triple_bind; [apply triple_map_err, apart_statement|]. intros [g|]; [|by apply triple_ret].
  cbv beta. apply triple_fact; intros Hg%bool_decide_eq_true. unfold apply_grant. rewrite Hg. apply triple_keeps, apart_log.
Qed.

Lemma apart_post db0 s ids items : forall i,
  keeps (apart s db0) (post_items cfg now s ids i items).
Proof.
  induction items as [|item items IH]; intros i; cbn [post_items]; [apply keeps_ret|].
  apply keeps_bind; [apply apart_record | intros ?].
  apply keeps_bind; [apply IH | intros; apply keeps_ret].
Qed.

Lemma apart_put_state db0 s etag state body :
  keeps (apart s db0) (lrs_put_state cfg s etag state body).
Proof.
  unfold lrs_put_state, with_state_id. run_keeps. apply keeps_map_err, keeps_call.
  intros db [H1 H2 H3 H4 H5 H6 H7]. case_match; [done|]. split; try done. intros reg activity agent name Hk. simpl.
  rewrite lookup_insert_ne; [by apply H3|]. unfold document_key. congruence.
Qed.

Lemma apart_delete_state db0 s state :
  keeps (apart s db0) (lrs_delete_state cfg s state).
Proof.
  unfold lrs_delete_state, with_state_id. run_keeps. apply keeps_map_err, keeps_call.
  intros db [H1 H2 H3 H4 H5 H6 H7]. split; try done. intros reg activity agent name Hk. simpl.
  rewrite lookup_delete_ne; [by apply H3|]. unfold document_key. congruence.
Qed.

(** The bearer of a credential, as the server has it. *)
Definition resolves (db : Cmi5Db) (h : option (list ascii)) (s : Cmi5SessionContext) : Prop :=
  exists bytes token, h = Some bytes /\ header_to_str bytes = Some ("Bearer " +:+ token) /\
    session_of now (hash_token token) db = Some s.

Lemma reads_resolves h : reads (session_auth now h) (fun db s => resolves db h s).
Proof.
  unfold session_auth. destruct h as [h|]; [|apply reads_throw].
  destruct (header_to_str h ≫= _) as [token|] eqn:E; [|apply reads_throw].
  destruct (header_to_str h) as [str|] eqn:Eh; [|done]. apply strip_prefix_Some in E.
  eapply reads_bind; [eapply reads_attempt, reads_map_err, reads_select|].
  intros [[s|]|e]; [|apply reads_throw..]. apply reads_ret. intros db H.
  exists h, token. by subst.
Qed.

Definition caller (r : request) : option (option (list ascii)) :=
  match r with
  | PutStatement h _ _ _ | PostStatement h _ _ | PutState h _ _ _ | DeleteState h _ => Some h
  | _ => None
  end.

Lemma scope_of {A} db0 h (k : Cmi5SessionContext -> Faults.M Cmi5Db Api.ApiError A) :
  (forall s, keeps (apart s db0) (k s)) ->
  forall fs, let '((db, _), _) := (s ← session_auth now h; k s) (db0, fs) in
    db = db0 \/ exists s, resolves db0 h s /\ apart s db0 db.
Proof.
  intros Hk fs. pose proof (reads_resolves h db0 fs) as H. unfold mbind, M_bind.
  destruct (session_auth now h (db0, fs)) as [[db1 fs1] [s|e]]; destruct H as [-> H]; [|by left].
  specialize (Hk s db0 fs1 (apart_refl s db0) Logic.I). destruct (k s (db0, fs1)) as [[db2 fs2] r].
  right. exists s. split; [done|]. by destruct Hk.
Qed.

(** C30. What content sends with its credential reaches nothing but what the
    credential was bought for.  Without a live credential the tables stay as they
    were.  With one, of the rows of cmi5 only its registration, the statements under
    it and its learner's documents for its activity may differ; of the training only
    that learner's progress through the step the unit is bound to; and the audit log
    gains only rows that say the learner satisfied it.  Every other registration,
    statement, document, course, unit, token and file, every step, waiver, account,
    tool, session of use and ledger row, stays as it was. *)
Theorem session_reaches_its_own r db fs :
  match caller r with
  | Some h =>
      let '((db', _), _) := handle events_of cfg now r (db, fs) in
      db' = db \/ exists s, resolves db h s /\ apart s db db'
  | None => True
  end.
Proof.
  destruct r; cbn [caller handle]; try done.
  - apply (scope_of db authorization (fun s => lrs_put_statement cfg now s hint fresh_id body)).
    intros s. apply keeps_bind; [apply keeps_enabled | intros; apply apart_record].
  - apply (scope_of db authorization (fun s => _ ← lrs_post_statement cfg now s fresh_id body; mret tt)).
    intros s. apply keeps_bind; [|intros; apply keeps_ret].
    apply keeps_bind; [apply keeps_enabled | intros; apply apart_post].
  - apply (scope_of db authorization (fun s => lrs_put_state cfg s tag state body)).
    intros s. apply apart_put_state.
  - apply (scope_of db authorization (fun s => lrs_delete_state cfg s state)).
    intros s. apply apart_delete_state.
Qed.

End Surface.

(** ** Over whole histories *)

Section History.
Context {U : Uuid} {IS : IdSource} {J : Cmi5Json} {TH : TokenHash} {FM : Fmt}.
Context {X : QuickXml} (events_of : string -> stream).

(** Requests one after another, each at its time under its settings. *)
Fixpoint serve (trace : list (Settings * instant * request)) (st : State Cmi5Db) : State Cmi5Db :=
  match trace with
  | [] => st
  | (cfg, now, r) :: trace => serve trace (handle events_of cfg now r st).1
  end.

Lemma serve_gone hash trace : forall db fs, gone hash db -> gone hash (serve trace (db, fs)).1.
Proof.
  induction trace as [|[[cfg now] r] trace IH]; intros db fs H; [done|]. cbn [serve].
  pose proof (keeps_gone events_of cfg now hash r db fs H Logic.I) as Hk.
  destruct (handle _ _ _ _ _) as [[db' fs'] x]. apply IH. by destruct Hk.
Qed.

(** C29. A fetch token buys one session: once an exchange is answered, no later
    exchange of the same token is, whatever requests came in between. *)
Theorem token_buys_one_session cfg now session token c db fs db1 fs1 trace cfg' now' session' :
  distinct_tokens db ->
  fetch_credential cfg now session (Some token) (db, fs) = ((db1, fs1), inl (200, inl c)) ->
  forall c', (fetch_credential cfg' now' session' (Some token) (serve trace (db1, fs1))).2
    <> inl (200, inl c').
Proof.
  intros Hn H c' Hc. apply fetched_gone in H; [|done].
  apply (serve_gone _ trace db1 fs1) in H. destruct (serve trace (db1, fs1)) as [db2 fs2].
  destruct (fetch_credential cfg' now' session' (Some token) (db2, fs2)) as [[db3 fs3] r] eqn:E.
  simpl in H, Hc. subst r. destruct H as [Hd (t & Ht & Hh & Hs)].
  assert (forall t', t' ∈ launch_tokens db2 -> fetch_open now' (hash_token token) t' = false) as Hno.
  { intros t' Ht'. unfold fetch_open. destruct (bool_decide (fetch_token_hash t' = _)) eqn:Eq; [|done].
    apply bool_decide_eq_true in Eq. apply list_elem_of_lookup in Ht as [i Hi].
    apply list_elem_of_lookup in Ht' as [j Hj]. assert (i = j) as ->.
    { eapply (NoDup_lookup (fetch_token_hash <$> launch_tokens db2)); [exact Hd| |].
      - by rewrite list_lookup_fmap, Hi.
      - rewrite list_lookup_fmap, Hj. simpl. by rewrite Eq, Hh. }
    assert (t' = t) as -> by congruence. by destruct Hs as [? ->]. }
  assert (List.filter (fetch_open now' (hash_token token)) (launch_tokens db2) = []) as Hf.
  { apply elem_of_nil_inv. intros x Hx. apply elem_of_lfilter in Hx as [Hx Hxo]. by rewrite Hno in Hxo. }
  revert E. unfold fetch_credential. destruct (negb _); [done|]. destruct token as [|a token]; [done|].
  unfold mbind, M_bind, attempt, lift, map_err, consume_fetch, mbind, M_bind, call.
  rewrite Hf. cbn [length Nat.ltb Nat.leb andb]. by destruct fs2 as [|[] fs2].
Qed.

End History.
End Surface.
