(* ===== verification/ServerWitnesses.v ===== *)
(** * A small space: the server's theorems at concrete inputs

    A calendar of alternating long and short months, money rounded half up, four
    roles, three members, one laser with a rate tier, and a time zone that is UTC. *)
From Stdlib Require Import QArith Qround Lqa SpecFloat.
From stdpp Require Import relations.
From S2P Require Import Prelude Rbac Schedules Access Faults Money Database Membership ToolBilling.
Import Rbac Schedules Access Money Faults Database Membership ToolBilling.

Module SpaceExample.

#[local] Open Scope Z_scope.
#[local] Existing Instance string_uuid.

(** ** The interfaces, instantiated *)

(** Rounding half up, and exact quotients. *)
Definition half_up (n : nat) (a : Q) : Q := Qfloor (a * (Z.pos (ten n) # 1) + (1 # 2)) # ten n.

Lemma Qmake_le m k d : m <= k -> (m # d <= k # d)%Q.
Proof. intros H. unfold Qle. simpl. nia. Qed.

#[local] Instance decimal : Decimal.
Proof.
  refine {| dec_round := half_up; dec_div := Qdiv |}.
  - intros n a b H. apply Qmake_le, Qfloor_resp_le.
    apply Qplus_le_compat; [|apply Qle_refl]. apply Qmult_le_compat_r; [done|]. unfold Qle, Qnum, Qden. lia.
  - intros n a. by eexists.
  - intros n m. unfold half_up.
    assert (Qfloor ((m # ten n) * (Z.pos (ten n) # 1) + (1 # 2)) = m) as ->; [|done].
    transitivity (Qfloor (inject_Z m + (1 # 2))).
    { apply Qfloor_comp, Qplus_inj_r. unfold Qeq, Qmult, inject_Z, Qnum, Qden.
      rewrite Pos.mul_1_r. ring. }
    unfold Qfloor, Qplus, inject_Z. simpl. symmetry. apply (Z.div_unique _ _ _ 1); lia.
  - intros a d c _ Hd H. by apply Qle_shift_div_r.
  - intros a d c _ Hd H. by apply Qle_shift_div_l.
Defined.

(** Months of 31 and 28 days in turn, counted from the epoch. *)
Definition day_number (t : instant) : Z := t / days 1.
Definition month_of (n : Z) : Z := 2 * (n / 59) + (if n mod 59 <? 31 then 0 else 1).
Definition day_of (n : Z) : Z := 1 + (if n mod 59 <? 31 then n mod 59 else n mod 59 - 31).
Definition length_of (m : Z) : Z := if Z.even m then 31 else 28.
Definition first_of (m : Z) : Z := 59 * (m / 2) + (if Z.even m then 0 else 31).

Definition add_months (t : instant) (n : Z) : option instant :=
  let d := day_number t in
  let m := month_of d + n in
  Some (days (first_of m + Z.min (day_of d) (length_of m) - 1) + t mod days 1).

Lemma day_number_days n r : 0 <= r < days 1 -> day_number (days n + r) = n.
Proof. intros H. unfold day_number, days, seconds in *. symmetry. apply (Z.div_unique _ _ _ r); lia. Qed.

Lemma even_cases m : Z.even m = true /\ m = 2 * (m / 2) \/ Z.even m = false /\ m = 2 * (m / 2) + 1.
Proof.
  rewrite <- Z.div2_div. pose proof (Z.div2_odd m) as H. rewrite <- Z.negb_odd.
  destruct (Z.odd m); simpl in *; [right | left]; split; done || lia.
Qed.

Lemma civil_first m k : 0 <= k < length_of m ->
  month_of (first_of m + k) = m /\ day_of (first_of m + k) = 1 + k.
Proof.
  unfold length_of, first_of, month_of, day_of. intros Hk.
  destruct (even_cases m) as [[E Hm] | [E Hm]]; rewrite E in *; rewrite ?Z.add_0_r.
  - replace ((59 * (m / 2) + k) / 59) with (m / 2) by (apply (Z.div_unique _ _ _ k); lia).
    replace ((59 * (m / 2) + k) mod 59) with k by (apply (Z.mod_unique _ _ (m / 2)); lia).
    rewrite (proj2 (Z.ltb_lt k 31)) by lia. lia.
  - replace ((59 * (m / 2) + 31 + k) / 59) with (m / 2) by (apply (Z.div_unique _ _ _ (31 + k)); lia).
    replace ((59 * (m / 2) + 31 + k) mod 59) with (31 + k) by (apply (Z.mod_unique _ _ (m / 2)); lia).
    rewrite (proj2 (Z.ltb_ge (31 + k) 31)) by lia. lia.
Qed.

Lemma civil_inverse n : first_of (month_of n) + day_of n - 1 = n /\ 1 <= day_of n <= length_of (month_of n).
Proof.
  pose proof (Z.div_mod n 59 ltac:(lia)) as Hn. pose proof (Z.mod_pos_bound n 59 ltac:(lia)).
  unfold first_of, month_of, day_of, length_of.
  destruct (Z.ltb_spec (n mod 59) 31).
  - replace (Z.even (2 * (n / 59) + 0)) with true.
    2: { rewrite Z.add_0_r. symmetry. by rewrite Z.even_mul. }
    replace ((2 * (n / 59) + 0) / 2) with (n / 59) by (apply (Z.div_unique _ _ _ 0); lia). lia.
  - replace (Z.even (2 * (n / 59) + 1)) with false.
    2: { symmetry. by rewrite Z.add_comm, Z.even_add_mul_2. }
    replace ((2 * (n / 59) + 1) / 2) with (n / 59) by (apply (Z.div_unique _ _ _ 1); lia). lia.
Qed.

Lemma first_of_later m n : 0 <= n -> first_of m + 28 * n <= first_of (m + n) /\
  (0 < n -> first_of m + length_of m + 28 * (n - 1) <= first_of (m + n)).
Proof.
  intros Hn. unfold first_of, length_of.
  destruct (even_cases m) as [[-> ?] | [-> ?]], (even_cases (m + n)) as [[-> ?] | [-> ?]]; lia.
Qed.

#[local] Instance calendar : Calendar.
Proof.
  refine {| month := fun t => month_of (day_number t); day := fun t => day_of (day_number t);
    days_in := length_of; checked_add_months := add_months |}.
  - intros t. apply civil_inverse.
  - intros m. unfold length_of. destruct (Z.even m); lia.
  - intros t n t' Hn [= <-]. set (d := day_number t).
    assert (0 <= t mod days 1 < days 1) as Hr by (apply Z.mod_pos_bound; reflexivity).
    rewrite day_number_days by done.
    destruct (civil_inverse d) as [Hd Hrange].
    assert (28 <= length_of (month_of d + n)) as H28 by (unfold length_of; destruct (Z.even _); lia).
    destruct (civil_first (month_of d + n) (Z.min (day_of d) (length_of (month_of d + n)) - 1))
      as [Hm Hday]; [lia|].
    rewrite Z.add_sub_assoc in Hm, Hday. rewrite Hm, Hday. split; [done|]. split; [lia|].
    assert (t = days d + t mod days 1) as Ht.
    { pose proof (Z.div_mod t (days 1) ltac:(discriminate)) as Hdm.
      assert (forall n, days n = days 1 * n) as Hdays by (intros; unfold days, seconds; lia).
      by rewrite (Hdays d). }
    destruct (first_of_later (month_of d) n ltac:(lia)) as [H1 H2]. specialize (H2 Hn).
    split.
    + rewrite Ht at 1. unfold days, seconds. unfold days, seconds in Hr. lia.
    + assert (forall n, days n = n * days 1) as Hdays by (intros; unfold days, seconds; lia).
      by rewrite Hdays, Z.add_comm, Z_mod_plus_full, Z.mod_mod.
  - intros t. set (d := day_number t).
    assert (day_number (t + days 1) = d + 1) as ->.
    { subst d. unfold day_number, days, seconds. rewrite Z.mul_1_r.
      replace (t + 86400 * 1000000000) with (t + 1 * (86400 * 1000000000)) by lia.
      by rewrite Z.div_add by lia. }
    destruct (civil_inverse d) as [Hd Hrange].
    destruct (Z.ltb_spec (day_of d) (length_of (month_of d))).
    + destruct (civil_first (month_of d) (day_of d)) as [Hm Hday]; [lia|].
      replace (d + 1) with (first_of (month_of d) + day_of d) by lia. rewrite Hm, Hday. lia.
    + assert (first_of (month_of d + 1) = first_of (month_of d) + length_of (month_of d)) as Hnext.
      { unfold first_of, length_of.
        destruct (even_cases (month_of d)) as [[-> ?] | [-> ?]],
          (even_cases (month_of d + 1)) as [[-> ?] | [-> ?]]; lia. }
      destruct (civil_first (month_of d + 1) 0) as [Hm Hday].
      { unfold length_of. destruct (Z.even _); lia. }
      replace (d + 1) with (first_of (month_of d + 1) + 0) by lia. rewrite Hm, Hday. lia.
Defined.

(** UTC, every day a Monday. *)
#[local] Instance utc : TimeZone := {|
  local_date := fun ts => ts / days 1;
  local_time := fun ts => ts mod days 1;
  weekday := fun _ => Mon;
  from_local := fun d t => Single (days d + t);
|}.

#[local] Instance no_intervals : IntervalParser := fun _ => Some [].

(** Identifiers in unary. *)
Fixpoint ticks (n : nat) : string :=
  match n with 0%nat => EmptyString | S n => "x" +:+ ticks n end.

Lemma ticks_inj i j : ticks i = ticks j -> i = j.
Proof.
  revert j. induction i as [|i IH]; intros [|j]; simpl; try done. intros [= H]. f_equal. by apply IH.
Qed.

#[local] Instance ids : IdSource := {| gen_random_uuid := ticks; gen_random_uuid_inj := ticks_inj |}.

(** ** The space *)

Definition graph : RoleGraph := from_rows
  [("guest", "guest", 1); ("historical", "historical", 2); ("active", "active", 3);
   ("admin", "admin", 5)]%string
  [("active", "member.access"); ("admin", "admin.access")]%string
  [("admin", "active"); ("active", "historical")]%string.

Definition role (name : string) (lvl : Z) : Role := {|
  role_id := name; role_name := name; role_level := lvl |}.

Definition user (name : string) (due : option instant) : User := {|
  user_id := name; full_name := name; is_active := true; membership_next_due_at := due;
  profile := JNull |}.

Definition ann : User := user "ann" (Some (days 100)).
Definition bob : User := user "bob" (Some (days 9)).
Definition cy : User := user "cy" None.

Definition laser : Tool := {| tool_id := "laser"; tool_name := "Laser";
  tool_status := Idle; requires_training := false; external_id := Some "laser-1"%string;
  receptacle_id := None; usage_flat_fee := None;
  usage_rate_per_min := Some (1 # 2)%Q; usage_max_session_minutes := Some 60;
  usage_basis := "occupancy"; schedule_id := None; updated_at := 0 |}.

Definition promo : ToolRateTier := {| tier_id := "promo"; flat_fee := None;
  rate_per_min := Some (1 # 2)%Q; max_session_minutes := Some 10 |}.

Definition empty_space : Db := {|
  users := <["ann" := ann]> (<["bob" := bob]> (<["cy" := cy]> ∅));
  roles := [role "guest" 1; role "historical" 2; role "active" 3; role "admin" 5];
  user_roles := [("ann", "admin"); ("bob", "active"); ("cy", "historical")]%string;
  rbac := graph; ledger := []; tools := {[ "laser" := laser ]}; tiers := {[ "promo" := promo ]};
  tier_assignments := {[ ("bob", "laser")%string := "promo" ]}; sessions := [];
  stripe_customers := [("cus_a", "ann")]%string; sync_runs := []; next_id := 0; audits := [];
  republished := 0 |}.

Definition dues : MembershipConfig := {| enabled := true; due_amount_parsed := Some (25 # 1)%Q;
  due_period := Monthly; grace_days := 1; member_role := "active"; lapsed_role := "historical";
  currency := "USD" |}.

Definition metering : ToolBillingConfig := {| tb_enabled := true; billing_mode := Prepaid;
  actuation_mode := EdgeLocal; require_membership := true; min_balance_parsed := None;
  default_max_session_minutes := 120; tb_currency := "USD"; session_grace_minutes := 5 |}.

Definition noon : instant := days 40 + seconds 43200.

Definition pays (uid : string) (n : Z) (reference : string) : op * list fault :=
  (Credit noon uid CashPayment (n # 1)%Q (Some reference) None None, []).

Definition space : Db := history dues metering [pays "ann" 40 "in_1"; pays "bob" 40 "in_2"] empty_space.

Definition starts (uid : string) : op * list fault := (Start noon uid laser, []).
Definition cutting : Db := history dues metering [starts "ann"] space.
Definition promo_cutting : Db := history dues metering [starts "bob"] space.

(** The session at the laser. *)
Definition idle : ToolUsageSession := {| session_id := "none"; opened := {| ns_tool_id := "laser";
  ns_user_id := "none"; started_at := 0; hold_amount := 0%Q; rate_flat_fee := None;
  rate_per_min_locked := None; session_tier_id := None |}; ended_at := None;
  reported_seconds := None; charged_amount := None; status := "open"; ledger_entry_id := None;
  reported_active_seconds := None; reported_sensed_seconds := None;
  reported_unsensed_seconds := None |}.
Definition at_laser (db : Db) : ToolUsageSession :=
  default idle (find_first (tool_open "laser") (sessions db)).

(** Ninety seconds, sensed or not. *)
Definition ninety : spec_float := S754_finite false 11796480 (-17).

(** ** What the space does *)

Example ninety_reported : three_places ninety = (90000 # 1000)%Q.
Proof. reflexivity. Qed.

Example ann_may_cut : (run (metered_authorized metering "ann" laser) space).2 = inl true.
Proof. vm_compute. reflexivity. Qed.

Example a_hold_is_placed : hold_amount (opened (at_laser cutting)) = (3000 # 100)%Q.
Proof. vm_compute. reflexivity. Qed.

Example a_minute_and_a_half_costs :
  charge_of metering (noon + seconds 600) laser (at_laser (report_all "laser" [(ninety, None)] cutting)) =
  (75 # 100)%Q.
Proof. vm_compute. reflexivity. Qed.

Example bob_renews :
  dues_charged (match (run_cycle dues noon None (space, [])).2 with inl o => o | _ => outcome_default end) = 1.
Proof. vm_compute. reflexivity. Qed.

(** ** Witnesses *)

Lemma accounted_space : accounted space.
Proof. apply accounted_requests, accounted_empty; reflexivity. Qed.

Lemma wf_cutting : wf cutting.
Proof. apply (accounted_requests _ _ _ space), accounted_space. Qed.

Lemma nonneg_covered db : Forall (fun e => (0 <= nle_amount (le_entry e))%Q) (ledger db) -> covered db.
Proof.
  intros H uid. apply total_nonneg. unfold amounts. rewrite Forall_fmap. rewrite Forall_forall in *.
  intros e He. apply elem_of_lfilter in He as [He _]. by apply H.
Qed.

Lemma covered_space : covered space.
Proof. apply nonneg_covered. vm_compute. repeat (constructor; [discriminate|]). constructor. Qed.

(** Unification leaves the tables folded. *)
#[local] Strategy opaque [space cutting promo_cutting].

Lemma has_cycle_iff_witness :
  has_cycle_in graph (elements (dom (inherits graph))) = true <-> exists x, tc (edge graph) x x.
Proof. apply (has_cycle_iff graph). intros n. apply elem_of_elements. Defined.

(** Two members, one of whom is named in either case. *)
Definition pair_uuid : Uuid.
Proof.
  refine {| uuid := bool; uuid_nil := false; uuid_show := fun b => if b then "bob" else "cy";
    uuid_parse := fun s => if (s ≟ "bob") || (s ≟ "BOB") then Some true else if s ≟ "cy" then Some false else None |}%string.
  by intros [].
Defined.

Definition a_rule (kind value effect : string) : AccessRule (U := pair_uuid) := {| ar_id := false : @uuid pair_uuid; ar_resource_id := false : @uuid pair_uuid;
  ar_kind := kind; ar_value := value; ar_effect := effect; ar_schedule_id := None |}.

Definition two_roles : RoleGraph (U := pair_uuid) :=
  from_rows [(false : @uuid pair_uuid, "active", 3)]%string [] [].

(** Members may enter, but not Bo, whom a rule names in capitals. *)
Definition front_rules : list (AccessRule (U := pair_uuid)) :=
  [a_rule "role" "active" "allow"; a_rule "user" "BOB" "deny"; a_rule "user" "cy" "allow"]%string.

Definition two_cards : gmap (@uuid pair_uuid) (list string) := {[ true := ["card-b"]; false := ["card-c"] ]}%string.
Definition two_levels : gmap (@uuid pair_uuid) Z := {[ true := 3 ]}.

Definition lets_in (who : bool) (lvl : Z) (card : string) (rules : list (AccessRule (U := pair_uuid))) : Prop :=
  may (U := pair_uuid) (card_holder (U := pair_uuid) who lvl card) (door_policy true) rules [] noon two_roles Unlock = Allow.

Lemma lists_agree_with_engine_witness :
  let lists := expand_rules_at (U := pair_uuid) front_rules two_cards [] noon two_roles two_levels in
  ("card-b"%string ∈ lists.1 /\ "card-b"%string ∉ lists.2 <-> lets_in true 3 "card-b" (respelled (U := pair_uuid) <$> front_rules)) /\
  ("card-c"%string ∈ lists.1 /\ "card-c"%string ∉ lists.2 <-> lets_in false 0 "card-c" (respelled (U := pair_uuid) <$> front_rules)) /\
  ~ lets_in true 3 "card-b" (respelled (U := pair_uuid) <$> front_rules) /\ lets_in true 3 "card-b" front_rules.
Proof.
  assert (forall who lvl card, sole_card (U := pair_uuid) two_cards two_levels who lvl card ->
    let lists := expand_rules_at (U := pair_uuid) front_rules two_cards [] noon two_roles two_levels in
    card ∈ lists.1 /\ card ∉ lists.2 <-> lets_in who lvl card (respelled (U := pair_uuid) <$> front_rules)) as H.
  { intros who lvl card Hs. exact (proj1 (lists_agree_with_engine (U := pair_uuid) front_rules two_cards [] noon two_roles two_levels
      who lvl card Unlock Hs)). }
  assert (forall (v : bool) (cs : list string) card, two_cards !! (v : @uuid pair_uuid) = Some cs -> card ∈ cs ->
    card = if v then "card-b" else "card-c")%string as Hone.
  { intros [] cs card [= <-] Hin; by apply list_elem_of_singleton in Hin. }
  split; [|split; [|split; [by vm_compute | by vm_compute]]]; apply H;
    (split; [reflexivity|]; split; [reflexivity|]); intros [] cs Hcs Hin; try done;
    by specialize (Hone _ _ _ Hcs Hin).
Defined.

Lemma dues_never_overdraw_witness :
  let fs := [Fine; LostReply; Refused] in
  covered (record_credit dues noon "cy" CashPayment (30 # 1)%Q None None None (space, fs)).1.1 /\
  covered (run_cycle dues noon None (space, fs)).1.1.
Proof.
  intros fs.
  apply (dues_never_overdraw (U := string_uuid) dues noon "cy" CashPayment (30 # 1)%Q None None None
    None space fs); [apply covered_space | vm_compute; discriminate | intros; discriminate].
Defined.

Lemma redelivery_changes_nothing_witness :
  let res := record_credit dues noon "ann" StripePayment (40 # 1)%Q (Some "in_1"%string) None None
    (space, [LostReply]) in
  res.1.1 = space /\ res.2 <> inl true.
Proof.
  apply (redelivery_changes_nothing (U := string_uuid) dues noon "ann" StripePayment (40 # 1)%Q "in_1" None None space).
  apply (bool_decide_unpack _). vm_compute. exact I.
Defined.

Lemma failed_start_is_final_witness :
  let '((db', _), res) := record_credit dues noon "cy" CashPayment (30 # 1)%Q (Some "in_3"%string) None None
    (space, [Fine; Fine; Refused]) in
  res = inr Connection /\ users db' !! "cy" = Some cy /\
  (due_amount dues <= balance db' "cy")%Q /\
  forall now' fs',
    (record_credit dues now' "cy" CashPayment (30 # 1)%Q (Some "in_3"%string) None None (db', fs')).1.1 = db'.
Proof.
  apply (failed_start_is_final (U := string_uuid) dues noon "cy" cy CashPayment (30 # 1)%Q "in_3" None None space []).
  - vm_compute. reflexivity.
  - reflexivity.
  - apply (bool_decide_unpack _). vm_compute. exact Logic.I.
  - vm_compute. discriminate.
  - vm_compute. discriminate.
Defined.

Lemma advance_period_civil_witness :
  let next := advance_period (days 30) Monthly in
  (month next = 2 /\ day next = 1) /\ next mod days 1 = days 30 mod days 1.
Proof.
  pose proof (advance_period_civil (days 30) Monthly ltac:(by eexists)) as H.
  vm_compute in H. vm_compute. exact H.
Defined.

Lemma renewal_settles_witness : exists k due db' o',
  settle_renewal dues noon "bob" outcome_default (space, []) = ((db', []), inl (o', inl tt)) /\
  settled dues noon "bob" bob (days 9) space outcome_default k due db' o' /\
  forall n, due = Some n -> dues_due n noon (grace_days dues) = false.
Proof.
  apply (renewal_settles (U := string_uuid) dues noon "bob" bob (days 9) space outcome_default).
  - vm_compute. reflexivity.
  - reflexivity.
  - discriminate.
  - intros t _. by eexists.
  - reflexivity.
Defined.

Lemma admins_rank_graph : admins_rank dues graph.
Proof.
  intros roles H. apply has_permission_spec in H as (r0 & r & perms & Hr0 & Hreach & Hp & Hkey).
  assert (map_Forall (fun r perms => "admin.access" ∈ perms -> level graph !! r = Some 5) (own_perms graph))
    as Hall by (apply (bool_decide_unpack _); vm_compute; exact Logic.I).
  specialize (Hall r perms Hp Hkey).
  assert (r ∈ closure graph roles) as Hr by (apply closure_iff; eauto).
  pose proof (effective_level_ge graph roles r 5 Hr Hall).
  change (default 0 _) with 3. lia.
Qed.

Lemma last_admin_survives_witness :
  has_admin (run_cycle dues noon None (space, [Fine; LostReply])).1.1.
Proof.
  apply (last_admin_survives (U := string_uuid) dues noon None space).
  - exists "ann"%string. split; vm_compute; reflexivity.
  - apply admins_rank_graph.
Defined.

Definition refund_of (n : Z) : json := JObj [("id", JStr "ch_1"); ("customer", JStr "cus_a");
  ("amount_refunded", JInt n)]%string.

Lemma second_partial_refund_is_dropped_witness :
  let db1 := (handle_charge_refunded dues noon (refund_of 500) (space, [])).1.1 in
  let db2 := (handle_charge_refunded dues noon (refund_of 1500) (db1, [])).1.1 in
  (balance db2 (user_id ann) == balance space (user_id ann) - minor_units_to_decimal 500)%Q.
Proof.
  apply (second_partial_refund_is_dropped (U := string_uuid) dues noon noon (refund_of 500)
    (refund_of 1500) "cus_a" "ch_1" 500 1500 ann space).
  - repeat split.
  - repeat split.
  - split; [reflexivity|]. split; [vm_compute; reflexivity | by eexists].
  - lia.
  - apply (bool_decide_unpack _). vm_compute. exact Logic.I.
Defined.

Lemma half_rate_fits : fits (default 0 (Some (1 # 2)) * inject_Z 60)%Q.
Proof. exists 30, 0%nat. split; vm_compute; reflexivity. Qed.

Lemma charge_within_cost_witness :
  (dec_round 2 (default 0 None) <= session_charge None (Some (1 # 2)) (5000 # 1) 60
    <= max_session_cost None (Some (1 # 2)) 60)%Q.
Proof.
  apply (charge_within_cost None (Some (1 # 2)%Q) (5000 # 1)%Q 60).
  - lia.
  - vm_compute. discriminate.
  - apply half_rate_fits.
Defined.

Lemma open_session_keeps_solvent_witness :
  solvent (open_session metering noon "ann" laser (space, [Fine; Fine; LostReply])).1.1.
Proof.
  apply (open_session_keeps_solvent (U := string_uuid)). intros uid. unfold available.
  pose proof (covered_space uid). assert (open_holds space uid == 0)%Q as -> by reflexivity. lra.
Defined.

Lemma usage_is_by_source_witness : exists s',
  find_first (tool_open "laser")
    (sessions (report_all "laser" [(ninety, None); (ninety, Some ninety)] cutting)) = Some s' /\
  reported_seconds s' = option_or (total_opt (sensed [(ninety, None); (ninety, Some ninety)]))
    (total_opt (unsensed [(ninety, None); (ninety, Some ninety)])) /\
  reported_active_seconds s' = total_opt (working [(ninety, None); (ninety, Some ninety)]).
Proof.
  apply (usage_is_by_source (U := string_uuid) "laser" [(ninety, None); (ninety, Some ninety)]
    (at_laser cutting) cutting); vm_compute; reflexivity.
Defined.

Lemma the_gates_agree_witness :
  (run (metered_authorized metering "ann" laser) space).2 = inl (gate_answer metering space "ann" laser) /\
  ((exists s, (run (open_session metering noon "ann" laser) space).2 = inl (Authorized s)) <->
   gate_answer metering space "ann" laser = true).
Proof.
  apply (the_gates_agree (U := string_uuid) metering noon "ann" laser space).
  - vm_compute. reflexivity.
  - exists ann. vm_compute. reflexivity.
  - exists laser. vm_compute. reflexivity.
Defined.

Definition busy_day : list (op * list fault) :=
  [pays "ann" 40 "in_1"; (Credit noon "ann" StripePayment (40 # 1)%Q (Some "in_1"%string) None None, [Fine]);
   (Start noon "ann" laser, [Fine; LostReply]); starts "ann"; starts "bob";
   (Stop (noon + seconds 60) laser, [Fine; Fine; Fine; LostReply]);
   (Stop (noon + seconds 90) laser, [])].

Lemma charged_exactly_once_witness : exactly_once dues metering (history dues metering busy_day empty_space).
Proof. apply (charged_exactly_once (U := string_uuid) dues metering busy_day empty_space); reflexivity. Defined.

(** The busy day ends with one payment and one charged session. *)
Example busy_day_end :
  let db := history dues metering busy_day empty_space in
  length (ledger db) = 2%nat /\ (is_open <$> sessions db) = [false].
Proof. by vm_compute. Qed.

Definition later (n : Z) : instant := noon + seconds n.

Lemma settle_frees_the_hold_witness :
  let s := at_laser cutting in
  let '(db', r) := run (settle_open_session_for_tool metering (later 600) laser "settled") cutting in
  r = inl (Some (charge_of metering (later 600) laser s)) /\
  (balance db' (ns_user_id (opened s)) ==
     balance cutting (ns_user_id (opened s)) - charge_of metering (later 600) laser s)%Q /\
  (open_holds db' (ns_user_id (opened s)) ==
     open_holds cutting (ns_user_id (opened s)) - hold_amount (opened s))%Q /\
  forall v, (available cutting v <= available db' v)%Q.
Proof.
  intros s. apply (settle_frees_the_hold (U := string_uuid) metering (later 600) laser s "settled" 60 cutting).
  - apply wf_cutting.
  - vm_compute. reflexivity.
  - exists ann. vm_compute. reflexivity.
  - apply (bool_decide_unpack _). vm_compute. exact Logic.I.
  - discriminate.
  - unfold hold_covers.
    assert (charge_rates laser s = (None, Some (1 # 2)%Q)) as -> by (vm_compute; reflexivity).
    split; [vm_compute; reflexivity|]. split; [vm_compute; split; discriminate|].
    split; [vm_compute; discriminate | apply half_rate_fits].
Defined.

(** An hour of it, on a tier whose cap is ten minutes. *)
Definition an_hour : spec_float := S754_finite false 14745600 (-12).
Definition used : ToolUsageSession := at_laser (report_all "laser" [(an_hour, None)] promo_cutting).

Lemma tier_cap_bounds_the_hold_only_witness :
  let eff := effective_billing space "bob" laser in
  (hold_amount (opened used) == max_session_cost (eff_flat_fee eff) (eff_rate_per_min eff) 10)%Q /\
  (charge_of metering (later 3600) laser used ==
     max_session_cost (eff_flat_fee eff) (eff_rate_per_min eff) (max_minutes metering laser))%Q.
Proof.
  apply (tier_cap_bounds_the_hold_only (U := string_uuid) metering noon (later 3600) "bob" laser space
    (at_laser promo_cutting) 10 used).
  - reflexivity.
  - vm_compute. reflexivity.
  - vm_compute. reflexivity.
  - vm_compute. by eexists.
  - vm_compute. reflexivity.
  - vm_compute. reflexivity.
  - vm_compute. discriminate.
  - vm_compute. discriminate.
  - apply half_rate_fits.
  - vm_compute. discriminate.
Defined.

Example the_hold_was_five_the_charge_is_thirty :
  hold_amount (opened used) = (500 # 100)%Q /\
  charge_of metering (later 3600) laser used = (3000 # 100)%Q.
Proof. vm_compute. done. Qed.

Lemma renewal_spends_held_money_witness :
  (available (settle_renewal dues (days 102) "ann" outcome_default (cutting, [])).1.1 "ann" < 0)%Q.
Proof.
  apply (renewal_spends_held_money (U := string_uuid) dues (days 102) "ann" ann (days 100) cutting
    outcome_default).
  - vm_compute. reflexivity.
  - reflexivity.
  - discriminate.
  - intros t _. by eexists.
  - reflexivity.
  - reflexivity.
  - vm_compute. split; discriminate.
  - vm_compute. reflexivity.
Defined.

End SpaceExample.
