(* ===== verification/PlantWitnesses.v ===== *)
(** * A small plant: the power topology's theorems at concrete inputs

    A trunk of 20 A at the panel, a branch of 10 A under it, one outlet with one
    receptacle, and a laser plugged in that draws 12 A. *)
From Stdlib Require Import QArith.
From S2P Require Import Prelude Wire Rbac Faults Database Power PowerTopology.
Import Rbac Faults Database Power PowerTopology.

Module PlantExample.

#[local] Open Scope Z_scope.
#[local] Existing Instance string_uuid.

(** Identifiers in unary. *)
Fixpoint ticks (n : nat) : string :=
  match n with 0%nat => EmptyString | S n => "x" +:+ ticks n end.

Lemma plant_ticks_inj i j : ticks i = ticks j -> i = j.
Proof.
  revert j. induction i as [|i IH]; intros [|j]; simpl; try done. intros [= H]. f_equal. by apply IH.
Qed.

#[local] Instance ids : IdSource := {| gen_random_uuid := ticks; gen_random_uuid_inj := plant_ticks_inj |}.

Definition laser : Tool := {| tool_id := "laser"; tool_name := "Laser"; tool_status := Idle;
  requires_training := false; external_id := None; receptacle_id := Some "left"%string;
  usage_flat_fee := None; usage_rate_per_min := None; usage_max_session_minutes := None;
  usage_basis := "occupancy"; schedule_id := None; updated_at := 0 |}.

Definition shop : Db := {|
  users := ∅; roles := []; user_roles := []; rbac := from_rows [] [] []; ledger := [];
  tools := {[ "laser" := laser ]}; tiers := ∅; tier_assignments := ∅; sessions := [];
  stripe_customers := []; sync_runs := []; next_id := 0; audits := []; republished := 0 |}.

Definition circuit (k : string) (amps : Q) (trunk : option string) : PowerCircuit := {|
  circuit_row_id := k; breaker_label := k; voltage_rating := 230; amperage_limit := amps;
  parent_circuit_id := trunk; circuit_locked_out := false; circuit_lockout_reason := None;
  lockout_source := None; circuit_locked_out_at := None; locked_out_by := None |}.

Definition reading (amps : Q) : ToolPowerState := {|
  tps_tool_id := "laser"; last_draw_amps := Some amps; last_voltage := None;
  reported_max_voltage := None; reported_amperage_limit := None; last_reported_at := 0;
  tool_locked_out := false; tool_lockout_reason := None; tool_locked_out_at := None;
  last_relay_on := None; power_evidence_since := None |}.

Definition plant : PowerDb := {|
  base := shop;
  circuits := <["panel" := circuit "panel" 20 None]>
              {[ "branch" := circuit "branch" 10 (Some "panel"%string) ]};
  outlets := {[ "wall" := {| outlet_row_id := "wall"; circuit_id := "branch"; place_id := "room";
                             outlet_label := "W1"; location := None |} ]};
  receptacles := {[ "left" := {| receptacle_row_id := "left"; outlet_id := "wall";
                                 receptacle_label := "L" |} ]};
  power_states := {[ "laser" := reading 12 ]};
  places := {[ "room"%string ]} |}.

Lemma chain_panel : chain (circuits plant) (Some "panel"%string) ["panel"%string].
Proof. exact (chain_up (circuits plant) "panel" (circuit "panel" 20 None) [] eq_refl (chain_top (circuits plant))). Qed.

Lemma chain_branch : chain (circuits plant) (Some "branch"%string) ["branch"; "panel"]%string.
Proof.
  exact (chain_up (circuits plant) "branch" (circuit "branch" 10 (Some "panel"%string)) _ eq_refl chain_panel).
Qed.

Lemma circuits_plant k c : circuits plant !! k = Some c ->
  (k = "panel"%string /\ c = circuit "panel" 20 None) \/
  (k = "branch"%string /\ c = circuit "branch" 10 (Some "panel"%string)).
Proof.
  simpl. rewrite lookup_insert_Some, lookup_singleton_Some.
  intros [[<- <-]|[_ [<- <-]]]; [by left | by right].
Qed.

Lemma sound_plant : sound plant.
Proof.
  split.
  - intros k c H. apply circuits_plant in H as [[-> ->]|[-> ->]]; split; done.
  - intros k [c H]. apply circuits_plant in H as [[-> _]|[-> _]];
      eexists; [apply chain_panel | apply chain_branch].
  - intros k o H. simpl in H. apply lookup_singleton_Some in H as [<- <-].
    split; [done|]. split; [by eexists|]. by vm_compute.
  - intros k r H. simpl in H. apply lookup_singleton_Some in H as [<- <-]. split; [done | by eexists].
  - intros k s H. simpl in H. by apply lookup_singleton_Some in H as [<- <-].
  - intros k t rid H. simpl in H. apply lookup_singleton_Some in H as [<- <-]. intros [= <-].
    by eexists.
  - intros k k' t t' rid H H'. simpl in H, H'. apply lookup_singleton_Some in H as [<- _].
    by apply lookup_singleton_Some in H' as [<- _].
Qed.

Definition amps (q : Q) : string := pretty (Qnum q / Z.pos (Qden q)).

(** The branch is drawn 12 A of its 10: it trips, and the trunk does not. *)
Example the_branch_trips :
  match (run (evaluate_circuit_overages amps 7) plant).2 with
  | inl tripped => (fun x => x.1.1) <$> tripped = ["branch"%string]
  | inr _ => False
  end.
Proof. vm_compute. reflexivity. Qed.

Lemma power_circuit_ancestors_complete_witness :
  exists up, chain (circuits plant) (Some "branch"%string) ("branch"%string :: (circuit_row_id <$> up)) /\
    run (power_circuit_ancestors "branch") plant =
      (plant, if (length up <=? 32)%nat then inl (reverse up)
              else inr (OtherError "power circuit ancestor chain exceeded 32 levels")).
Proof.
  eapply (power_circuit_ancestors_complete plant); [apply sound_plant | reflexivity].
Defined.

Lemma overages_trip_witness :
  exists tripped db', run (evaluate_circuit_overages amps 7) plant = (db', inl tripped) /\
    forall k c, circuits plant !! k = Some c -> exists c', circuits db' !! k = Some c' /\
      (k ∈ ((fun x => x.1.1) <$> tripped) <->
        circuit_locked_out c = false /\ (amperage_limit c < draw plant k)%Q) /\
      circuit_locked_out c' =
        circuit_locked_out c || negb (Qle_bool (draw plant k) (amperage_limit c)).
Proof. apply (overages_trip amps plant 7), sound_plant. Defined.

Definition tripped_plant : PowerDb := (run (evaluate_circuit_overages amps 7) plant).1.

(** The branch tripped.  Somebody re-enables the trunk above it, and that does not
    re-enable the branch. *)
Lemma lockout_latches_witness :
  latched (inl "branch"%string) tripped_plant /\
  latched (inl "branch"%string) (run (handle amps (ReenableCircuit true "ann" "panel")) tripped_plant).1.
Proof.
  assert (latched (inl "branch"%string) tripped_plant) as Hl.
  { exists (default (circuit "branch" 10 None) (circuits tripped_plant !! "branch"%string)).
    by vm_compute. }
  split; [exact Hl|].
  assert (~ releases (inl "branch"%string) (ReenableCircuit true "ann" "panel")) as Hr by by vm_compute.
  pose proof (lockout_latches amps _ _ Hr tripped_plant [] Hl I) as Hk. revert Hk. unfold run.
  destruct (handle amps _ (tripped_plant, [])) as [[db' fs'] r]. by intros [H _].
Defined.

Lemma snapshot_agrees_with_gate_witness :
  exists p, run (power_state_snapshot amps (fun t => pretty t) 7) plant = (plant, inl p) /\
    forall tid, is_Some (tools (base plant) !! tid) ->
      exists b, run (tool_is_locked_out tid) plant = (plant, inl b) /\
        (uuid_show tid ∈ Wire.locked_tool_ids p <-> b = true).
Proof. apply (snapshot_agrees_with_gate amps (fun t => pretty t) plant 7), sound_plant. Defined.

End PlantExample.
