(* ===== verification/GuardWitnesses.v ===== *)
(** * A reader and an edge at work: the device surface's theorems at concrete inputs

    The laser of the small plant and the front door, an edge bound to both, a reader
    bound to nothing, and Bo, who holds a card. *)
From Stdlib Require Import QArith Ascii SpecFloat.
From S2P Require Import Prelude Text Wire EdgeModules EdgePower EdgeToolGuard EdgeResources Rbac Schedules Access Faults Money Database ToolBilling Api Power PowerTopology Training TrainingGate GuardStore GuardApi GuardSafety GuardReach GuardSweep AllowLists Entitlement ServerWitnesses PlantWitnesses.
Import Text Rbac Faults Money Database Api Power Training GuardStore GuardApi GuardSafety GuardReach GuardSweep AllowLists Entitlement PlantExample.

Module GuardExample.

#[local] Open Scope Z_scope.
#[local] Existing Instances string_uuid ids SpaceExample.decimal SpaceExample.utc SpaceExample.no_intervals.

#[local] Instance hash : TokenHash := fun s => "h" +:+ s.
#[local] Instance jtext : JsonbText := json_as_str.

(** ** Timestamps that read back: a sign and bits *)

Fixpoint bits (p : positive) : string :=
  match p with
  | xI p => String.String "1" (bits p)
  | xO p => String.String "0" (bits p)
  | xH => EmptyString
  end.

Fixpoint of_bits (s : string) : option positive :=
  match s with
  | String.String "1" s => xI <$> of_bits s
  | String.String "0" s => xO <$> of_bits s
  | EmptyString => Some xH
  | _ => None
  end.

Lemma of_bits_bits p : of_bits (bits p) = Some p.
Proof. induction p as [p IH|p IH|]; simpl; by rewrite ?IH. Qed.

Definition stamp (t : instant) : string :=
  match t with
  | 0 => "0"
  | Z.pos p => String.String "+" (bits p)
  | Z.neg p => String.String "-" (bits p)
  end.

Definition read_stamp (s : string) : option instant :=
  match s with
  | String.String "+" s => Z.pos <$> of_bits s
  | String.String "-" s => Z.neg <$> of_bits s
  | String.String "0" EmptyString => Some 0
  | _ => None
  end.

Lemma read_stamp_stamp t : read_stamp (stamp t) = Some t.
Proof. destruct t; simpl; by rewrite ?of_bits_bits. Qed.

(** ** The tables *)

Definition bo : User := {| user_id := "bo"; full_name := "Bo"; is_active := true;
  membership_next_due_at := None; profile := JNull |}.

Definition cipher : CardCipher := {|
  blind_index := fun code => "i" +:+ code; wire_digest := fun code => Some ("d" +:+ code) |}.

Definition card_7 : UserCard := {| card_id := "c7"; card_user_id := "bo"; code_bidx := Some "i7"%string;
  code_wire_digest := Some "d7"%string; card_status := ActiveCard; last_used_at := None;
  card_created_at := 0 |}.

Definition front : Access.DoorRow := {| Access.door_id := "front"; Access.door_name := "Front";
  Access.door_enabled := true |}.

Definition members_in : Access.AccessRule := {| Access.ar_id := "r1"; Access.ar_resource_id := "front";
  Access.ar_kind := "user"; Access.ar_value := "bo"; Access.ar_effect := "allow";
  Access.ar_schedule_id := None |}.

Definition bind (resource role : string) : DeviceBinding := {|
  binding_id := (resource +:+ role : uuid); binding_name := role; binding_resource := resource;
  binding_device := "edge"%string : uuid; binding_role := role; binding_pulse_ms := 4000;
  hold_open_access := true |}.

Definition live : SpaceDevice := {| device_name := "device"; deleted_at := None; last_seen_at := None |}.

Definition row (k : string) (profile : string) : Resource := {|
  resource_row_id := k; kind := if k ≟ "front" then "door" else "tool"; session_profile := profile |}.

Definition hall : GuardDb := {|
  training := {| power := with_base (with_users <["bo" := bo]> shop) plant; steps := ∅;
    progress := ∅; instructors := ∅; waivers := ∅; prerequisites := ∅ |};
  devices := <["edge" := live]> {[ "reader" := live ]};
  device_tokens := [("edge", "htok"); ("reader", "hother")]%string;
  bindings := [bind "laser" "edge"; bind "front" "edge"; bind "front" "strike"];
  cards := {[ "c7" := card_7 ]}; tool_events := [];
  resources := <["laser" := row "laser" "until_stopped"]> {[ "front" := row "front" "momentary" ]};
  resource_sessions := []; doors := {[ "front" := front ]}; access_rules := [members_in];
  schedules := []; door_events := []; outbox := [] |}.

Definition settings : GuardConfig := {| profile_field := "card"; card_cipher := Some cipher;
  tool_billing := None; drawing := fun _ => false; door_enabled := true;
  default_unlock_duration_ms := 5000; session_grace_minutes := 15;
  default_max_session_minutes := 60 |}.

Definition text_of (e : DatabaseError) : string := EmptyString.
Definition money (q : Q) : string := EmptyString.

Definition bearer (token : string) : option (list ascii) :=
  Some (String.list_ascii_of_string ("Bearer " +:+ token)).

(** The edge's badge is let in, the reader's refused, and then the laser is taken. *)
Example a_badge_at_the_laser :
  match run (scan text_of money settings 5 (bearer "tok") "laser" (Some "7"%string)) hall with
  | (db, inl r) => authorized r = Some true /\
      tool_status <$> tools (money_of db) !! "laser" = Some InUse /\
      match (run (scan text_of money settings 6 (bearer "tok") "laser" (Some "7"%string)) db).2 with
      | inl r => authorized r = Some false
      | inr _ => False
      end
  | _ => False
  end.
Proof. vm_compute. done. Qed.

Example a_badge_at_the_door :
  match run (scan text_of money settings 5 (bearer "tok") "front" (Some "7"%string)) hall with
  | (db, inl r) => authorized r = Some true /\ strike r = Some {| Wire.strike_pulse_ms := 4000 |} /\
      length (door_events db) = 1%nat
  | _ => False
  end.
Proof. vm_compute. done. Qed.

Example the_reader_is_bound_to_nothing :
  match run (scan text_of money settings 5 (bearer "other") "laser" (Some "7"%string)) hall with
  | (_, inr (Unauthorized _)) => True
  | _ => False
  end.
Proof. vm_compute. done. Qed.

(** ** Witnesses *)

Definition taken_hall : GuardDb :=
  (run (scan text_of money settings 5 (bearer "tok") "laser" (Some "7"%string)) hall).1.

Lemma filed_hall : filed hall.
Proof. intros k t H. simpl in H. by apply lookup_singleton_Some in H as [<- <-]. Qed.

(** The laser broke down; a stop makes it idle again. *)
Definition broken : Tool := set_status Broken 0 laser.
Definition broken_hall : GuardDb := on_money (with_tools <["laser" := broken]>) hall.

Lemma stop_frees_witness :
  match deactivate_tool text_of settings 9 (Some broken) None (broken_hall, []) with
  | ((db, _), inl r) => r = ok_with_message "Tool deactivated" /\
      tool_status <$> tools (money_of db) !! "laser" = Some Idle
  | _ => False
  end.
Proof.
  assert (stands "laser" broken None broken_hall) as Hs.
  { split_and!; [|done|done]. intros k u H. simpl in H.
    apply lookup_insert_Some in H as [[<- <-]|[_ H]]; [done|]. by rewrite lookup_empty in H. }
  destruct (stop_frees text_of settings 9 broken broken broken_hall Hs broken_hall eq_refl)
    as (db & r & -> & -> & Ht & _).
  split; [done|]. exact (f_equal (fmap tool_status) Ht).
Defined.

(** Two hours later the sweep lets the laser go. *)
Lemma sweep_leaves_nothing_stale_witness :
  match sweep_once settings (seconds 7200) (taken_hall, []) with
  | ((db, _), inl n) => n = 1%nat /\
      (forall k t, tools (money_of db) !! k = Some t -> tool_in_use t = true ->
        in_time settings (seconds 7200) db t = true)
  | _ => False
  end.
Proof.
  assert (filed taken_hall) as Hf.
  { intros k t. change (tools (money_of taken_hall)) with ({[ "laser" := set_status InUse 5 laser ]} : gmap string Tool).
    intros H. by apply lookup_singleton_Some in H as [<- <-]. }
  pose proof (sweep_leaves_nothing_stale settings (seconds 7200) taken_hall [] Hf) as Hs.
  assert (match sweep_once settings (seconds 7200) (taken_hall, []) with
    | (_, inl n) => n = 1%nat | _ => False end) as Hn by (vm_compute; done).
  destruct (sweep_once settings (seconds 7200) (taken_hall, [])) as [[db fs] [n|e]]; [|done].
  split; [exact Hn|]. apply Hs.
Defined.

(** ** An edge without its server *)

Definition cache : Resources.ResourceCache :=
  Resources.new ModuleState.new
    (ToolGuard.new_with_notify (Some (fun code => Some (hex_encode ("d" +:+ code))))) PowerState.new.

Definition built : (GuardDb * list fault) * (Wire.ResourcePolicyPayload + ApiError) :=
  build_resource_policy text_of stamp settings 5 "edge" (hall, []).

Definition aware : Resources.ResourceCache :=
  match built.2 with
  | inl p => Resources.apply_policy read_stamp p None cache
  | inr _ => cache
  end.

Example the_edge_decides_alone :
  Resources.decide aware "laser" "7" 6 = Resources.Allow None /\
  Resources.decide aware "front" "7" 6 = Resources.Allow (Some 4000) /\
  Resources.decide aware "laser" "8" 6 = Resources.Deny Resources.UNKNOWN_CARD.
Proof. vm_compute. done. Qed.

Lemma offline_yes_is_entitled_witness :
  exists t, tool_id t = "laser"%string /\
    tool_entitled settings [] 5 hall "edge" t (Resources.token_of aware "7").
Proof.
  assert (match built.2 with inl _ => True | inr _ => False end) as Hok by (vm_compute; exact Logic.I).
  assert (exists st p, built = (st, inl p)) as (st & p & Hb).
  { destruct built as [st [p|e]]; [by exists st, p | done]. }
  assert (aware = Resources.apply_policy read_stamp p None cache) as Haw.
  { unfold aware. rewrite Hb. reflexivity. }
  assert (Resources.decide (Resources.apply_policy read_stamp p None cache) "laser" "7" 6 = Resources.Allow None) as Hd
    by (rewrite <- Haw; vm_compute; reflexivity).
  destruct (offline_yes_is_entitled (U := string_uuid) text_of stamp settings read_stamp read_stamp_stamp 5 "edge" hall []
    st p filed_hall) as (unread & Hun & Hth); [|exact Hb|].
  { intros t door i [k Hk] Hdoor. simpl in Hk, Hdoor. apply lookup_singleton_Some in Hk as [<- <-].
    by apply lookup_singleton_Some in Hdoor as [<- <-]. }
  apply Nat.le_0_r, nil_length_inv in Hun as ->.
  specialize (Hth None cache "laser"%string "7"%string 6 None eq_refl Hd).
  rewrite <- Haw in *. destruct Hth as [(t & Hname & Ht)|(door & Hname & Hdoor)].
  - exists t. split; [|exact Ht]. destruct Ht as [[_ [k Hk]] _]. simpl in Hk.
    by apply lookup_singleton_Some in Hk as [<- <-].
  - exfalso. destruct Hdoor as [Hin _]. vm_compute in Hin. apply list_elem_of_singleton in Hin as ->.
    discriminate Hname.
Defined.

End GuardExample.
