(* ===== verification/TrailWitnesses.v ===== *)
(** * A trail being written: watchers, alerts and webhooks at concrete inputs

    The hall of the device surface with a log beside it: an edge that goes silent, a
    laser whose plug is slow to open, Bo on duty, and a chat room that is told. *)
From Stdlib Require Import QArith Ascii SpecFloat.
From S2P Require Import Prelude Text Wire Rbac Schedules Access Faults Money AuditLog Database ToolBilling Api Power Training GuardStore Hooks Trail Bypass Alerts Webhooks WebhookApi GuardApi GuardSafety ServerWitnesses PlantWitnesses GuardWitnesses.
Import Text Rbac Faults Money Audit Database Api Power Training GuardStore GuardApi GuardSafety Hooks Trail PlantExample GuardExample.

Module TrailExample.

#[local] Open Scope Z_scope.
#[local] Existing Instances string_uuid ids SpaceExample.decimal SpaceExample.utc SpaceExample.no_intervals GuardExample.hash GuardExample.jtext.

#[local] Instance libraries : Webhooks.Libraries := {|
  Webhooks.to_vec := fun _ => Some []; Webhooks.json_to_string := fun _ => EmptyString;
  Webhooks.hmac := fun _ body => body; Webhooks.header_name_of := Some;
  Webhooks.header_value_ok := fun _ => true;
  Webhooks.parse_url := fun u => inl (Some u, Some 443);
  Webhooks.from_utf8_lossy := of_bytes; Webhooks.ip_to_string := fun _ => "address"%string;
  Webhooks.to_rfc3339 := GuardExample.stamp |}.

(** Bo holds the alert permissions. *)
Definition staffed : Db := {|
  users := <["bo" := bo]> (users shop); roles := []; user_roles := [("bo", "duty")]%string;
  rbac := from_rows [("duty", "duty", 50)]%string
    [("duty", "alerts.view"); ("duty", "alerts.acknowledge")]%string [];
  ledger := []; tools := tools shop; tiers := ∅; tier_assignments := ∅; sessions := [];
  stripe_customers := []; sync_runs := []; next_id := 0; audits := []; republished := 0 |}.

Definition no_hooks : HookDb := {| webhooks := []; event_subscriptions := [];
  class_subscriptions := []; auth_headers := []; auth_links := []; deliveries := []; next_hook := 0 |}.

Definition logbook : TrailDb := {| guard := on_money (fun _ => staffed) hall; audit_logs := [];
  next_log := 0; acknowledgements := ∅; heartbeat_runs := []; hooks := no_hooks;
  webhook_tx := Some []; groupsio_tx := None |}.

Definition duty : uuid := "bo"%string.

(** ** Watching *)

Definition amps (q : Q) : string := EmptyString.

Definition watch : Bypass.BypassConfig := {| Bypass.module_silence_secs := 90;
  Bypass.unauthorized_power_debounce_secs := 5; Bypass.drawing := fun _ => false;
  Bypass.draw_threshold := JInt 1 |}.

Lemma logbook_keyed : Bypass.keyed_well logbook.
Proof.
  split; [by apply (bool_decide_unpack _); vm_compute|].
  intros k s H. change (({[ ("laser"%string : uuid) := reading 12 ]} : gmap uuid ToolPowerState) !! k = Some s) in H.
  apply lookup_singleton_Some in H as [<- <-]. done.
Qed.

(** The edge has never reported: its three bindings, and the reader bound to nothing,
    are each said silent once. *)
Definition watched : TrailDb := (Bypass.tick amps watch (seconds 100) (logbook, [])).1.1.

Example silence_is_said_once :
  length (audit_logs watched) = 4%nat /\
  length (audit_logs (Bypass.tick amps watch (seconds 130) (watched, [])).1.1) = 4%nat.
Proof. by vm_compute. Qed.

Lemma trail_records_changes_witness :
  Bypass.episodes (audit_logs watched) /\ length (audit_logs watched) = 4%nat.
Proof.
  split; [|by vm_compute].
  apply (Bypass.trail_records_changes amps watch (seconds 100) watched).
  apply (Bypass.ticked amps watch (seconds 100) logbook []), Bypass.started; [done|exact logbook_keyed].
Defined.

Lemma sweep_says_how_it_is_witness :
  exists db n, run (Bypass.sweep_once watch (seconds 100)) logbook = (db, inl n) /\
    run (Bypass.sweep_once watch (seconds 100)) db = (db, inl 0%nat).
Proof.
  destruct (Bypass.sweep_says_how_it_is watch (seconds 100) logbook) as (db & n & Hr & _ & Hq).
  - by split_and!.
  - exact logbook_keyed.
  - by exists db, n.
Defined.

(** The laser runs for an hour with leave, and is switched off: a second later, before its
    plug has reported again, the trail says its power was never authorized.  The debounce
    counts from when the power came on, not from when the leave ended. *)
Definition worked : GuardDb :=
  let db := (run (scan text_of GuardExample.money settings (seconds 5) (bearer "tok") "laser" (Some "7"%string)) hall).1 in
  let db := (run (power_report text_of amps settings (seconds 10) (bearer "tok")
    {| pr_tool_id := Some "laser"%string; draw_now := None; voltage_now := None; max_voltage := None;
       pr_amperage_limit := None; self_tripped := None; relay_on := Some true; pr_device_id := None |}) db).1 in
  (run (deactivate_tool text_of settings (seconds 3600) (tools (money_of db) !! "laser") (Some "7"%string)) db).1.

Example the_debounce_does_not_wait :
  tool_status <$> tools (money_of worked) !! "laser" = Some Idle /\
  match run (Bypass.check_unauthorized_power amps watch (seconds 3601)) (with_guard worked logbook) with
  | (db, inl n) => n = 1%nat /\ (log_event_type <$> audit_logs db) = ["unauthorized_power_detected"%string]
  | _ => False
  end.
Proof. by vm_compute. Qed.

(** ** Alerts *)

Definition first_alert : option AuditLog := head (audit_logs watched).

Definition newest_two : Alerts.AlertQuery := {| Alerts.page := None; Alerts.per_page := None;
  Alerts.category := Some "bypass"%string; Alerts.q_min_severity := None; Alerts.acknowledged := None |}.

(** Four alerts on two pages of three. *)
Example two_pages :
  (fun p => match run (Alerts.list_alerts (fun s => s) duty (Alerts.page_of newest_two p 3)) watched with
            | (_, inl r) => (length (Alerts.items r), Alerts.total_pages r) | _ => (0%nat, 0) end) <$> [1; 2] =
  [(3%nat, 2); (1%nat, 2)].
Proof. by vm_compute. Qed.

Lemma pages_are_the_feed_witness :
  exists pages : list (Alerts.PaginatedResponse Alerts.AlertResponse),
    length (mjoin (Alerts.items <$> pages)) = 4%nat.
Proof.
  assert (Z.of_nat (length (Alerts.feed (Alerts.filter_of newest_two
    (AuditClass.Severity.Notice, Some AuditClass.Category.Bypass)) watched)) = 4) as Hlen by (vm_compute; done).
  destruct (Alerts.pages_are_the_feed (fun s => s) duty newest_two
    (AuditClass.Severity.Notice, Some AuditClass.Category.Bypass) 3 watched) as (pages & _ & _ & Hl).
  - vm_compute. done.
  - done.
  - lia.
  - rewrite Hlen. lia.
  - exists pages. rewrite Hl. lia.
Defined.

Lemma heartbeats_are_spaced_witness :
  exists db r, run (Alerts.ticker_tick stamp text_of 604800 (seconds 700000)) watched = (db, inl tt) /\
    head (heartbeat_runs db) = Some r.
Proof.
  destruct (Alerts.heartbeats_are_spaced stamp text_of 604800 ltac:(lia) 0 watched) as [_ Ht].
  - by apply Alerts.beat_start.
  - destruct (Ht (seconds 700000)) as (db & Hr & r & Hh & _); [lia|]. exists db, r. exact (conj Hr Hh).
Defined.

(** ** Webhooks *)

Definition parse (u : string) : option (string * option WebhookApi.Host) :=
  Some ("https"%string, Some (WebhookApi.Domain u)).

Definition chat : WebhookApi.CreateWebhookRequest := {| WebhookApi.cr_name := "Chat";
  WebhookApi.cr_url := "chat.example"; WebhookApi.cr_enabled := None;
  WebhookApi.cr_event_types := ["tool_module_silent"%string];
  WebhookApi.cr_class_subscriptions := [{| WebhookApi.cs_category := Some "bypass"%string;
                                           WebhookApi.cs_min_severity := "notice" |}];
  WebhookApi.cr_auth_header_ids := []; WebhookApi.cr_format := Some "discord"%string |}.

(** The first attempt is turned away, the second is taken. *)
Definition busy (n : Z) (req : Webhooks.Request) : Webhooks.HttpResult :=
  if n =? 1 then Webhooks.Reply 503 [] else Webhooks.Reply 204 [].

Definition json_hook : Webhook := {| webhook_id := "j"; webhook_name := "Log"; url := "log.example";
  enabled := true; signing_secret := "t"; format := "json" |}.

Definition lan (host : string) (port : Z) : list (Webhooks.IpAddr * Z) + string :=
  inl [(Webhooks.V4 10 0 0 9, port)].

Definition connected : TrailDb :=
  (WebhookApi.serve (fun s => s) parse false lan busy (seconds 200) duty
     (WebhookApi.CreateHook "secret" chat) (watched, [])).1.1.

Lemma connected_registered : WebhookApi.registered (fun s => s) parse connected.
Proof.
  apply (WebhookApi.served (fun s => s) parse false lan busy (seconds 200) duty
    (WebhookApi.CreateHook "secret" chat) watched []). by apply WebhookApi.none_yet.
Qed.

Lemma whatever_is_registered_can_fire_witness :
  length (webhooks (hooks connected)) = 1%nat /\
  forall s, s ∈ event_subscriptions (hooks connected) -> exists kind, AuditClass.parse s.2 = Some kind.
Proof.
  split; [by vm_compute|]. intros s Hs.
  by apply (WebhookApi.whatever_is_registered_can_fire (fun s => s) parse connected connected_registered).
Defined.

Definition silent_row : AuditLog := logged "r" (seconds 300)
  (Bypass.entry ToolModuleSilent (JObj [])).

(** Subscribed both ways, and told once: a refusal and then a success. *)
Example told_once :
  match run (Webhooks.handle_event false lan busy (seconds 300) silent_row) connected with
  | (db, inl _) => ((fun d => (delivery_attempt d.1, success d.1)) <$> deliveries (hooks db)) = [(2, true); (1, false)]
  | _ => False
  end.
Proof. by vm_compute. Qed.

Lemma each_subscriber_is_told_witness :
  exists rows, run (Webhooks.handle_event false lan busy (seconds 300) silent_row) connected =
    (Webhooks.added rows (seconds 300) connected, inl tt) /\
    forall w, w ∈ webhooks (hooks connected) -> enabled w = true ->
      (webhook_id w, "tool_module_silent"%string) ∈ event_subscriptions (hooks connected) ->
      Webhooks.first_attempts (Webhooks.rows_to (webhook_id w) rows) = 1%nat.
Proof.
  destruct (Webhooks.each_subscriber_is_told false lan busy (seconds 300) silent_row connected) as (rows & Hr & _ & Hw).
  - exact (WebhookApi.fire_referential _ _ (WebhookApi.registered_ok _ _ _ connected_registered)).
  - intros w. by exists [].
  - exists rows. split; [exact Hr|]. intros w Hin Hen Hs. apply (Hw w Hin). split; [exact Hen|]. left. exact Hs.
Defined.

(** A network that answers whatever is asked of it elsewhere: it is not asked. *)
Lemma only_screened_requests_witness :
  Webhooks.deliver false lan busy (seconds 300) json_hook JNull "e" None (connected, []) =
  Webhooks.deliver false lan
    (fun n req => if Webhooks.req_url req ≟ url json_hook then busy n req else Webhooks.Reply 200 [])
    (seconds 300) json_hook JNull "e" None (connected, []).
Proof.
  apply Webhooks.only_screened_requests. intros n req (Hu & _). by rewrite bool_decide_true.
Defined.

(** A name that resolves to the metadata service, and a literal that hides it: the form
    refuses the one it can see, the dispatcher both. *)
Example metadata_is_refused :
  Webhooks.ip_is_forbidden (Webhooks.V4 169 254 169 254) = true /\
  Webhooks.ip_is_forbidden (Webhooks.V6 [0; 0; 0; 0; 0; 0xffff; 0xa9fe; 0xa9fe]) = true /\
  WebhookApi.is_link_local (WebhookApi.Literal (Webhooks.V4 169 254 169 254)) = true /\
  WebhookApi.is_link_local (WebhookApi.Literal (Webhooks.V6 [0; 0; 0; 0; 0; 0xffff; 0xa9fe; 0xa9fe])) = false.
Proof. by vm_compute. Qed.

Lemma truncate_cuts_between_characters_witness :
  exists n, Webhooks.truncate "aéé" 4 = of_bytes (take n (bytes "aéé")) +:+ "…[truncated]" /\ n = 3%nat.
Proof.
  destruct (Webhooks.truncate_cuts_between_characters "aéé" 4) as [_ Ht]; [done|].
  destruct Ht as (n & Hn & Hb & Hv); [vm_compute; lia|]. exists n. split; [exact Hn|].
  destruct n as [|[|[|[|[|n]]]]]; [lia|discriminate Hn|discriminate Hn|done|discriminate Hv|lia].
Defined.

End TrailExample.
