(* ===== verification/AccountWitnesses.v ===== *)
(** * A history of logging in, at concrete inputs

    Bo, with an authenticator, logs in twice, resets the password, and finds the old
    session over. *)
From Stdlib Require Import QArith Ascii.
From S2P Require Import Prelude Text Rbac Schedules Access Faults Money AuditLog Database Api Throttle Power Training GuardStore Hooks Trail Alerts Accounts Auth Mfa MfaApi AuthApi UsersApi AccountSurface AccountFrames AccountTables AccountHistory AccountSessions AccountSafety AccountOnce AccountPrivacy ServerWitnesses PlantWitnesses GuardWitnesses TrailWitnesses.
Import Text Rbac Faults Money Audit Database Api Power Training GuardStore Hooks Trail Accounts Auth Mfa MfaApi AuthApi UsersApi AccountSurface AccountHistory AccountSessions PlantExample GuardExample.

Module AccountExample.

#[local] Open Scope Z_scope.
#[local] Existing Instances string_uuid ids GuardExample.hash GuardExample.jtext.

(** ** Libraries *)

#[local] Instance fold_case : CaseFold := {| to_lowercase := fun s => s; lower := fun s => s |}.

#[local] Instance argon : PasswordHashUtil := {|
  hash_password := fun salt p => inr ("$" +:+ p);
  verify_password := fun p h => inr (bool_decide (h = "$" +:+ p)) |}.

(** A token is its claims in binary digits. *)
Fixpoint digits (p : positive) : string :=
  match p with
  | xH => EmptyString
  | xO p => String "0" (digits p)
  | xI p => String "1" (digits p)
  end.

Fixpoint of_digits (s : string) : positive :=
  match s with
  | EmptyString => xH
  | String c s => if bool_decide (c = "1"%char) then xI (of_digits s) else xO (of_digits s)
  end.

Lemma of_digits_digits p : of_digits (digits p) = p.
Proof. induction p as [p IH|p IH|]; simpl; by rewrite ?IH. Qed.

Definition fields (c : Claims) (s : string) : string * Z * Z * string * string * Z * string :=
  (sub c, exp c, iat c, claims_user_id c, claims_username c, claims_token_version c, s).

#[local] Instance jwt : Jwt.
Proof.
  refine {|
    encode := fun c s => Some (digits (countable.encode (fields c s)));
    decode := fun t s now =>
      match countable.decode (A := string * Z * Z * string * string * Z * string) (of_digits t) with
      | Some (a, b, d, e, f, g, s') =>
          if bool_decide (s' = s) && (timestamp now <? b)
          then Some {| sub := a; exp := b; iat := d; claims_user_id := e; claims_username := f;
                       claims_token_version := g |} else None
      | None => None
      end |}.
  intros c s t now c' [= <-]. rewrite of_digits_digits, countable.decode_encode. unfold fields.
  case_match; [|done]. intros [= <-]. by destruct c.
Defined.

#[local] Instance totp_lib : TotpLib := {|
  TOTP := string; secret_to_bytes := inr; totp_new := fun b _ _ => inr b;
  generate := fun t time => t +:+ pretty (time / 30);
  check_current := fun t now code => bool_decide (code = t +:+ pretty (timestamp now / 30));
  get_url := fun t => t |}.

#[local] Instance webauthn_lib : WebauthnLib := {|
  Passkey := unit; PasskeyAuthentication := unit; PasskeyRegistration := unit;
  PublicKeyCredential := unit; RegisterPublicKeyCredential := unit;
  passkey_from_value := fun _ => Some tt; passkey_to_value := fun _ => JNull;
  cred_id := fun _ => "key"%string; parse_credential := fun _ => inr tt;
  parse_registration := fun _ => inr tt; start_passkey_registration := fun _ _ _ _ _ => Some (JNull, tt);
  finish_passkey_registration := fun _ _ => inr tt;
  start_passkey_authentication := fun _ _ => Some (JNull, tt);
  finish_passkey_authentication := fun _ _ => Some "key"%string |}.

#[local] Instance entropy : Entropy.
Proof.
  refine {| alphanumeric := fun i => pretty i; random_token := fun i => pretty i;
    random_base32 := fun i => pretty i; gen_range := fun n i => i mod n |}.
  - intros i j H. by apply (inj pretty).
  - intros i j H. by apply (inj pretty).
  - intros n i Hn. by apply Z.mod_pos_bound.
Defined.

#[local] Instance mailer : Mailer := fun _ _ => None.
#[local] Instance recaptcha : Recaptcha := fun _ _ => inr true.

(** ** Bo *)

Definition mfa_on : AuthMfaConfig := {| mfa_enabled := true; enforcement := OptIn;
  allow_totp := true; allow_webauthn := true; issuer := "space"; recovery_code_count := 2 |}.

Definition config : AppConfig := {|
  auth := {| jwt_secret := "secret"; jwt_expiration_hours := 24; allow_registration := true;
    require_email_verification := false; password_min_length := 8; password_reset_enabled := true;
    login_throttle_enabled := true; login_throttle_attempts := 5; login_throttle_seconds := 300;
    cookie_secure := false; mfa := mfa_on |};
  registration_challenge := {| challenge_enabled := false; phrase := EmptyString;
    throttle_enabled := false; throttle_attempts := 3; throttle_seconds := 300;
    terms_of_service_checkbox := false; recaptcha_enabled := false |};
  initial_setup := {| setup_enabled := false; setup_admin_email := EmptyString |};
  email_enabled := true; site_url := "https://space/"; site_name := "Space" |}.

Definition bos : Account := {| username := "bo"; email := "bo@space"; password_hash := "$opensesame";
  created_at := 0; account_updated_at := 0; meta := JObj []; mfa_enrolled_at := Some 0;
  email_verified_at := Some 0; token_version := 0 |}.

Definition phone : UserMfaTotp := {| totp_id := ticks 0; totp_user_id := "bo"%string; secret_base32 := "S";
  confirmed_at := Some 0; totp_created_at := 0; totp_updated_at := 0; last_used_step := None;
  totp_label := "phone" |}.

Definition office : AccountDb := {| trail := TrailExample.logbook;
  accounts := {[ "bo"%string := bos ]};
  addresses := [{| ue_id := ticks 1; ue_user_id := "bo"%string; ue_email := "bo@space"; is_primary := true;
                   verified_at := Some 0; ue_created_at := 0 |}];
  factors := {| totps := [phone]; webauthns := []; recovery_codes := [] |};
  reset_tokens := []; verification_tokens := []; next_row := 2 |}.

Definition open_for_business : Server := {| tables := office; throttles := ∅; challenges := ∅;
  Mfa.outbox := []; draws := 100 |}.

(** Requests answered in turn, each made of what was answered before; nothing fails. *)
Definition Client : Type := list Step -> instant * Headers * Request.

Abbreviation serving := (serve mfa_on true (fun _ => "error"%string) (fun _ => true)).
Abbreviation history := (AccountHistory.history mfa_on true (fun _ => "error"%string) (fun _ => true)).

Fixpoint play (h : list Step) (s : Server) (clients : list Client) : list Step * Server :=
  match clients with
  | [] => (h, s)
  | k :: clients =>
      let '(now, hd, r) := k h in
      let '((s', _), a) := serving now config hd r (s, []) in
      play (h ++ [{| at_ := now; cfg := config; hdrs := hd; req := r; before := s; answer := a |}]) s' clients
  end.

Lemma play_history h s clients : history h s -> history (play h s clients).1 (play h s clients).2.
Proof.
  revert h s. induction clients as [|k clients IH]; intros h s Hh; simpl; [done|].
  destruct (k h) as [[now hd] r]. destruct (serving now config hd r (s, [])) as [[s' fs'] a] eqn:Hr.
  apply IH. by econstructor.
Qed.

Definition nobody : Headers := {| cookie := None; authorization := None |}.

Definition token_at (n : nat) (h : list Step) : string :=
  match answer <$> h !! n with Some (inl (RSession x)) => token (MfaApi.login x) | _ => EmptyString end.

Definition challenge_at (n : nat) (h : list Step) : string :=
  match answer <$> h !! n with Some (inl (RChallenge m)) => mc_token m | _ => EmptyString end.

Definition with_token (t : string) : Headers := {| cookie := None; authorization := Some ("Bearer " +:+ t) |}.

Definition log_in (now : instant) (p : string) : Client := fun _ =>
  (now, nobody, PostLogin {| username_or_email := "bo"; password := p |}).
Definition answer_code (now : instant) (n : nat) (k : string) : Client := fun h =>
  (now, nobody, PostVerify {| challenge_token := challenge_at n h; method := "totp"; code := Some k;
                              response := None |}).

(** The link is the only one mailed, so its token is the draw's. *)
Definition day : list Client := [
  log_in (seconds 1000) "opensesame"; answer_code (seconds 1010) 0 "S33";
  log_in (seconds 1020) "opensesame"; answer_code (seconds 1040) 2 "S34";
  (fun h => (seconds 1050, with_token (token_at 1 h), GetMe));
  (fun _ => (seconds 1060, nobody, PostResetRequest "bo@space"));
  (fun _ => (seconds 1070, nobody, PostResetConsume (random_token 104) "tuppence-a-bag"));
  (fun _ => (seconds 1080, nobody, PostResetConsume (random_token 104) "something-else"));
  (fun h => (seconds 1090, with_token (token_at 1 h), GetMe));
  log_in (seconds 1100) "tuppence-a-bag"].

Definition the_day : list Step * Server := play [] open_for_business day.

(** What each request of the day was answered. *)
Example how_it_went :
  (fun st => match answer st with
             | inl (RSession _) => "session" | inl (RChallenge m) => mc_token m | inl (RText t) => t
             | inl (RMe _) => "me" | inl _ => "other" | inr (BadRequest e) => e
             | inr (Unauthorized e) => e | inr _ => "refused" end)%string <$> the_day.1 =
  ["101"; "session"; "103"; "session"; "me"; RESET_REQUESTED_MESSAGE;
   "Your password has been changed. You can now sign in with it.";
   "This password reset link is invalid or has expired. Request a new one.";
   "Invalid authentication token"; "108"]%string.
Proof. by vm_compute. Qed.

Lemma office_starts : starts open_for_business.
Proof.
  split; [done|]. split; [constructor|]. split; [apply NoDup_singleton|].
  intros t [->|[]%not_elem_of_nil]%elem_of_cons. exists 0%nat. split; [simpl; lia | done].
Qed.

Lemma the_history : history the_day.1 the_day.2.
Proof. apply play_history. constructor. exact office_starts. Qed.

Definition step (n : nat) : Step := nth n the_day.1
  {| at_ := 0; cfg := config; hdrs := nobody; req := GetMe; before := open_for_business; answer := inl ROk |}.

Lemma day_length : length the_day.1 = 10%nat.
Proof. vm_compute. reflexivity. Qed.

Lemma prefix_at n m : (n < m <= 10)%nat ->
  list.take m the_day.1 = list.take n the_day.1 ++ step n :: list.drop (S n) (list.take m the_day.1).
Proof.
  intros Hn. pose proof day_length as Hl. destruct (lookup_lt_is_Some_2 the_day.1 n) as [x Hx]; [lia|].
  rewrite <- (take_drop_middle (list.take m the_day.1) n x) at 1.
  - unfold step. rewrite (nth_lookup_Some _ _ _ _ Hx), take_take. by replace (n `min` m)%nat with n by lia.
  - by rewrite lookup_take_lt by lia.
Qed.

Lemma day_at n : (n < 10)%nat ->
  the_day.1 = list.take n the_day.1 ++ step n :: list.drop (S n) the_day.1.
Proof.
  intros Hn. pose proof (prefix_at n 10) as Hp. rewrite take_ge in Hp by (rewrite day_length; lia).
  apply Hp. lia.
Qed.

Lemma history_of n : (n < 10)%nat ->
  history (list.take n the_day.1 ++ step n :: list.drop (S n) the_day.1) the_day.2.
Proof. intros Hn. rewrite <- day_at by done. exact the_history. Qed.

Lemma history_two n m : (n < m < 10)%nat ->
  history (list.take n the_day.1 ++ step n :: list.drop (S n) (list.take m the_day.1) ++
           step m :: list.drop (S m) the_day.1) the_day.2.
Proof.
  intros Hn. rewrite app_comm_cons, app_assoc, <- prefix_at by lia. apply history_of. lia.
Qed.

Definition session_at (n : nat) : option Session :=
  match answer (step n) with inl (RSession x) => Some x | _ => None end.

Definition second_session : Session :=
  default {| MfaApi.login := {| token := EmptyString; login_user := from_user
    {| person := bo; account := bos |} EmptyString; expires_in := 0; must_enroll_mfa := None |};
    set_cookie := None |} (session_at 3).

Lemma second_answer : answer (step 3) = inl (RSession second_session).
Proof. vm_compute. reflexivity. Qed.

Lemma session_needs_its_factors_witness :
  exists r ch u h11 first h12, req (step 3) = PostVerify r /\
    list.take 3 the_day.1 = h11 ++ first :: h12 /\
    AccountSafety.password_step true first (challenge_token r) ch /\
    shown mfa_on true (seconds 1040) (tables (before (step 3))) u ch r.
Proof.
  destruct (AccountSafety.session_needs_its_factors mfa_on true _ _ _ _ _ _ _ (history_of 3 ltac:(lia)) second_answer)
    as [(r & u & Hr & _)|(r & ch & u & h11 & first & h12 & Hr & Hh & Hf & _ & _ & _ & _ & Hs & _)].
  - exfalso. assert (match req (step 3) with PostLogin _ => False | _ => True end) as Hq
      by (vm_compute; exact Logic.I). rewrite Hr in Hq. exact Hq.
  - exists r, ch, u, h11, first, h12. exact (conj Hr (conj Hh (conj Hf Hs))).
Defined.

(** Who answered the code of a step. *)
Definition opened_at (st : Step) : option (UserMfaTotp * Z) :=
  match req st, answer st with
  | PostVerify r, inl (RSession _) =>
      if method r ≟ TOTP_METHOD then
        match (Mfa.take (at_ st) (challenge_token r) (challenges (before st))).2 with
        | Some (Mfa.Login ch) =>
            match user_of (tables (before st)) (lc_user_id ch) with
            | Some u => totp_answer mfa_on (at_ st) (tables (before st)) u r
            | None => None
            end
        | _ => None
        end
      else None
  | _, _ => None
  end.

Lemma opened_at_opened st row n : opened_at st = Some (row, n) -> AccountOnce.opened mfa_on st row n.
Proof.
  unfold opened_at, AccountOnce.opened. destruct (req st) eqn:Hr; try done.
  destruct (answer st) as [[x| | | | | | | | | | | | | | |]|] eqn:Ha; try done.
  case_bool_decide as Hm; [|done].
  destruct (Mfa.take _ _ _).2 as [[ch|]|] eqn:Ht; try done.
  destruct (user_of _ _) as [u|] eqn:Hu; [|done]. intros H. by exists r, x, ch, u.
Qed.

Lemma code_opens_once_witness :
  exists row1 n1 row2 n2, opened_at (step 1) = Some (row1, n1) /\ opened_at (step 3) = Some (row2, n2) /\
    n1 < n2 /\ (n1, n2) = (33, 34).
Proof.
  destruct (opened_at (step 1)) as [[row1 n1]|] eqn:H1; [|by vm_compute in H1].
  destruct (opened_at (step 3)) as [[row2 n2]|] eqn:H2; [|by vm_compute in H2].
  assert (totp_id row1 = totp_id row2) as Hid by (vm_compute in H1, H2; injection H1 as <- _; injection H2 as <- _; reflexivity).
  assert ((n1, n2) = (33, 34)) as Hn by (vm_compute in H1, H2; injection H1 as _ <-; injection H2 as _ <-; reflexivity).
  exists row1, n1, row2, n2. split; [done|]. split; [done|]. split; [|exact Hn].
  exact (AccountOnce.code_opens_once mfa_on true _ _ _ _ _ _ _ _ _ _ _ _ (history_two 1 3 ltac:(lia))
    (opened_at_opened _ _ _ H1) (opened_at_opened _ _ _ H2) Hid).
Defined.

(** The first session, at the fifth request. *)
Definition still_in : Server := before (step 4).
Definition bo_then : AppUser := {| person := bo; account := bos |}.
Definition first_session : Session :=
  default second_session (session_at 1).

Lemma first_began : AccountOnce.began (step 1) bo_then first_session.
Proof. split_and!; vm_compute; reflexivity. Qed.

Lemma history_to_me :
  history (list.take 1 the_day.1 ++ step 1 :: list.drop 2 (list.take 4 the_day.1)) still_in.
Proof.
  rewrite <- prefix_at by lia. exact (proj1 (history_at _ _ _ _ _ _ _ _ (history_of 4 ltac:(lia)))).
Qed.

Lemma me_token : select_request_token (cookie (hdrs (step 4))) (authorization (hdrs (step 4))) =
  inr (token (MfaApi.login first_session)).
Proof. vm_compute. reflexivity. Qed.

Lemma session_config : jwt_secret (auth config) = jwt_secret (auth (cfg (step 1))).
Proof. vm_compute. reflexivity. Qed.

Lemma me_is_known : match (auth_user (seconds 1050) config (hdrs (step 4)) (tables still_in, [])).2 with
  | inl _ => True | inr _ => False end.
Proof. vm_compute. exact Logic.I. Qed.

Lemma session_ends_with_its_password_witness :
  exists u', (auth_user (seconds 1050) config (hdrs (step 4)) (tables still_in, [])).2 = inl u' /\
    password_hash (account u') = password_hash (account bo_then).
Proof.
  pose proof me_is_known as Hk.
  destruct (auth_user (seconds 1050) config (hdrs (step 4)) (tables still_in, [])) as [s' [u'|e]] eqn:Hr;
    [|destruct Hk].
  exists u'. split; [reflexivity|].
  exact (proj1 (proj2 (proj2 (AccountOnce.session_ends_with_its_password mfa_on true
    (fun _ => "error"%string) (fun _ => true) _ _ _ still_in bo_then first_session (seconds 1050) config
    (hdrs (step 4)) [] s' u' history_to_me first_began session_config me_token Hr)))).
Defined.

Lemma reset_link_sets_one_password_witness : exists e, answer (step 7) = inr e.
Proof.
  refine (AccountOnce.reset_link_sets_one_password mfa_on true _ _ _ _ _ _ _ _
    (random_token 104) "tuppence-a-bag" (RText "Your password has been changed. You can now sign in with it.")
    (random_token 104) "something-else" (history_two 6 7 ltac:(lia)) _ _ _ eq_refl); vm_compute; reflexivity.
Defined.

(** A stranger's address, and Bo's. *)
Definition empty_office : Server := {| tables := {| trail := TrailExample.logbook; accounts := ∅;
  addresses := []; factors := {| totps := []; webauthns := []; recovery_codes := [] |};
  reset_tokens := []; verification_tokens := []; next_row := 0 |}; throttles := ∅; challenges := ∅;
  Mfa.outbox := []; draws := 0 |}.

Lemma reset_request_says_nothing_witness :
  (run (password_reset_request (seconds 5) config "bo@space") open_for_business).2 =
  (run (password_reset_request (seconds 5) config "bo@space") empty_office).2.
Proof.
  apply (AccountPrivacy.reset_request_says_nothing (seconds 5) config "bo@space" open_for_business empty_office eq_refl);
    intros t Ht; by apply not_elem_of_nil in Ht.
Defined.

End AccountExample.
