(* ===== verification/Merge.v ===== *)
(** * One account folded into another ([server/src/user_merge.rs])

    The plan of a merge with its warnings, the transaction that carries it out and the
    routes of [server/src/api/admin.rs] in front of it.  A merge touches forty tables by
    name, so the tables here are rows of named cells; [references] are the foreign keys
    to [users] the migrations declare, with what deleting the user does to each.  The
    triggers that stamp [updated_at] are left out. *)
From Stdlib Require Import QArith.
From S2P Require Import Prelude Text Rbac Faults AuditLog Database Api Accounts.
Import Rbac Faults Audit Database Api Accounts.

Module Merge.

#[local] Open Scope string_scope.
#[local] Open Scope list_scope.
#[local] Open Scope Z_scope.

(** How texts are quoted ([{:?}]) and instants printed by chrono, by PostgreSQL and by
    serde. *)
Class MergeText := {
  quoted : string -> string;
  utc_display : instant -> string;
  timestamptz_text : instant -> string;
  utc_json : instant -> string;
  naive_json : instant -> string;
}.

(** ** The references a merge knows about *)

Definition PLAIN : list (string * string) := [
  ("alert_acknowledgements", "user_id");
  ("audit_logs", "user_id");
  ("audit_logs", "actor_id");
  ("cmi5_courses", "imported_by");
  ("cmi5_registrations", "user_id");
  ("door_access_events", "user_id");
  ("door_checkins", "user_id");
  ("doors", "created_by");
  ("home_links", "created_by");
  ("membership_ledger", "user_id");
  ("membership_ledger", "created_by");
  ("power_circuits", "locked_out_by");
  ("profile_config_versions", "created_by");
  ("schedules", "created_by");
  ("resource_sessions", "user_id");
  ("space_device_auth_requests", "created_by");
  ("tool_events", "user_id");
  ("tool_events", "actor_id");
  ("tool_tier_assignments", "assigned_by");
  ("tool_training_types", "created_by");
  ("tool_usage_sessions", "user_id");
  ("tools", "created_by");
  ("training_instructors", "certified_by");
  ("training_steps", "created_by");
  ("training_waivers", "waived_by");
  ("user_cards", "user_id");
  ("user_merges", "survivor_id");
  ("user_merges", "actor_id");
  ("user_mfa_recovery_codes", "user_id");
  ("user_mfa_totp", "user_id");
  ("user_mfa_webauthn", "user_id");
  ("user_stripe_customers", "user_id");
  ("user_tool_training", "trainer_id");
  ("user_training_progress", "instructor_id");
  ("webhook_auth_headers", "created_by");
  ("webhooks", "created_by")].

Definition UNIQUE_PAIRS : list (string * string) := [
  ("tool_tier_assignments", "tool_id");
  ("training_instructors", "training_step_id");
  ("training_waivers", "tool_id");
  ("user_tool_training", "training_type_id");
  ("user_training_progress", "training_step_id")].

(** The reasons are left out. *)
Definition SPECIAL : list (string * string) := [
  ("user_roles", "user_id"); ("user_emails", "user_id")].

Definition DROPPED : list (string * string) := [
  ("password_reset_tokens", "user_id"); ("email_verification_tokens", "user_id")].

Definition TEXT_REFS : list (string * string) := [
  ("cmi5_registrations", "actor_account_name"); ("cmi5_state_documents", "agent_account_name")].

(** ** Tables *)

(** What deleting the user does to a row that references them. *)
Inductive OnDelete : Type := Restrict | SetNull | Cascade.

Section Merge.
Context {U : Uuid} {IS : IdSource} {MT : MergeText}.
Context (references : list (string * string * OnDelete)).

Inductive cell : Type :=
  | CNull
  | CUuid (u : uuid)
  | CText (s : string)
  | CBool (b : bool)
  | CInt (z : Z)
  | CNum (q : Q)
  | CTime (t : instant)
  | CJson (j : json).

Definition Row : Type := gmap string cell.

Definition col (r : Row) (c : string) : cell := default CNull (r !! c).

(** SQL's [=] being true: never of a NULL. *)
Definition same (x y : cell) : bool :=
  match x, y with
  | CUuid a, CUuid b => a ≟ b
  | CText a, CText b => a ≟ b
  | CBool a, CBool b => Bool.eqb a b
  | CInt a, CInt b => a =? b
  | CNum a, CNum b => Qeq_bool a b
  | CTime a, CTime b => a =? b
  | _, _ => false
  end.

(** SQL's [<>] being true. *)
Definition differ (x y : cell) : bool :=
  match x, y with
  | CNull, _ | _, CNull => false
  | _, _ => negb (same x y)
  end.

Definition is_null (x : cell) : bool := match x with CNull => true | _ => false end.

(** [mailing_list_opt_out_at] beside the columns of [users] that the accounts know. *)
Record Member := { app : AppUser; opted_out_at : option instant }.

Definition mid (m : Member) : uuid := uid_of (app m).

Record MergeDb := {
  members : gmap uuid Member;
  tables : gmap string (list Row);
  merge_clock : instant;
  merge_ids : nat;
}.

Definition rows (db : MergeDb) (t : string) : list Row := default [] (tables db !! t).

Definition set_rows (t : string) (rs : list Row) (db : MergeDb) : MergeDb := {|
  members := members db; tables := <[t := rs]> (tables db); merge_clock := merge_clock db;
  merge_ids := merge_ids db |}.

Definition set_members (f : gmap uuid Member -> gmap uuid Member) (db : MergeDb) : MergeDb := {|
  members := f (members db); tables := tables db; merge_clock := merge_clock db;
  merge_ids := merge_ids db |}.

(** A [SELECT count] with one or two ids, an [UPDATE] with the rows it touched, a [DELETE]. *)
Definition count (db : MergeDb) (t : string) (f : Row -> bool) : Z :=
  Z.of_nat (length (List.filter f (rows db t))).

Definition update (t : string) (f : Row -> bool) (g : Row -> Row) (db : MergeDb) : MergeDb * Z :=
  (set_rows t ((fun r => if f r then g r else r) <$> rows db t) db, count db t f).

Definition delete_where (t : string) (f : Row -> bool) (db : MergeDb) : MergeDb :=
  set_rows t (List.filter (fun r => negb (f r)) (rows db t)) db.

(** [WHERE c = $1], for an id and for an id as text. *)
Definition names (c : string) (u : uuid) (r : Row) : bool := same (col r c) (CUuid u).
Definition names_text (c : string) (u : uuid) (r : Row) : bool :=
  same (col r c) (CText (uuid_show u)).

Definition points (c : string) (u : uuid) (r : Row) : Row := <[c := CUuid u]> r.
Definition points_text (c : string) (u : uuid) (r : Row) : Row := <[c := CText (uuid_show u)]> r.

(** The survivor holds the key of this row. *)
Definition held (db : MergeDb) (t key : string) (s : uuid) (r : Row) : bool :=
  existsb (fun r' => names "user_id" s r' && same (col r' key) (col r key)) (rows db t).

Definition pair_movable (db : MergeDb) (t key : string) (s a : uuid) (r : Row) : bool :=
  names "user_id" a r && negb (held db t key s r).
Definition pair_colliding (db : MergeDb) (t key : string) (s a : uuid) (r : Row) : bool :=
  names "user_id" a r && held db t key s r.

Definition roles_for (db : MergeDb) (u : uuid) : list uuid :=
  omap (fun r => match col r "role_id" with CUuid x => Some x | _ => None end)
    (List.filter (names "user_id" u) (rows db "user_roles")).

(** ** The plan *)

Record MergeWarning := { code : string; detail : string }.

Record MergeParty := {
  party_id : uuid;
  party_username : string;
  party_email : string;
  party_full_name : string;
}.

Definition party (m : Member) : MergeParty := {|
  party_id := mid m; party_username := username (account (app m));
  party_email := email (account (app m)); party_full_name := full_name (person (app m)) |}.

Record MergePlan := {
  plan_survivor : MergeParty;
  plan_absorbed : MergeParty;
  moves : gmap string Z;
  warnings : list MergeWarning;
}.

Definition warning_codes (p : MergePlan) : gset string := list_to_set (code <$> warnings p).

Record MergeOutcome := {
  merge_id : uuid;
  survivor_id : uuid;
  absorbed_id : uuid;
  moved : gmap string Z;
  outcome_warnings : list MergeWarning;
}.

Inductive MergeError : Type :=
  | Unacknowledged (p : MergePlan)
  | Diesel (e : DatabaseError).

(** Counts are noted when they are not zero. *)
Definition note (k : string) (n : Z) (m : gmap string Z) : gmap string Z :=
  if 0 <? n then <[k := n]> m else m.

Definition dotted (t c : string) : string := t +:+ "." +:+ c.

Definition warn (yes : bool) (c d : string) : list MergeWarning :=
  if yes then [{| code := c; detail := d |}] else [].

Definition plain_moves (db : MergeDb) (a : uuid) (m : gmap string Z) : gmap string Z :=
  foldl (fun m tc => note (dotted tc.1 tc.2) (count db tc.1 (names tc.2 a)) m) m PLAIN.

Definition pair_moves (db : MergeDb) (s a : uuid) (m : gmap string Z) : gmap string Z :=
  foldl (fun m tk => note (dotted tk.1 "user_id") (count db tk.1 (pair_movable db tk.1 tk.2 s a)) m)
    m UNIQUE_PAIRS.

Definition pair_warnings (db : MergeDb) (s a : uuid) : list MergeWarning :=
  mjoin ((fun tk =>
    let n := count db tk.1 (pair_colliding db tk.1 tk.2 s a) in
    warn (0 <? n) ("duplicate_" +:+ tk.1)
      (pretty n +:+ " row(s) in " +:+ tk.1 +:+ " exist for the same " +:+ tk.2 +:+
       " on both accounts; the survivor's are kept and the absorbed account's are discarded"))
    <$> UNIQUE_PAIRS).

Definition text_moves (db : MergeDb) (a : uuid) (m : gmap string Z) : gmap string Z :=
  foldl (fun m tc => note (dotted tc.1 tc.2) (count db tc.1 (names_text tc.2 a)) m) m TEXT_REFS.

Definition new_roles (db : MergeDb) (s a : uuid) : list uuid :=
  List.filter (fun r => negb (bool_decide (r ∈ roles_for db s))) (roles_for db a).

Definition role_warnings (db : MergeDb) (rbac : RoleGraph) (s a : uuid) : list MergeWarning :=
  let before := effective_level rbac (roles_for db s) in
  let after := effective_level rbac (roles_for db s ++ roles_for db a) in
  warn (before <? after) "roles_raise_level"
    ("the absorbed account's roles raise the survivor's effective level from " +:+ pretty before +:+
     " to " +:+ pretty after).

(** A rule that names the user. *)
Definition user_rule (u : uuid) (r : Row) : bool :=
  same (col r "kind") (CText "user") && names_text "value" u r.

(** How many pairs of rows a [JOIN] finds. *)
Definition joined (db : MergeDb) (t : string) (f g : Row -> bool) (on : Row -> Row -> bool) : Z :=
  Z.of_nat (length (mjoin ((fun x => List.filter (on x) (List.filter g (rows db t)))
    <$> List.filter f (rows db t)))).

Definition rule_conflicts (db : MergeDb) (s a : uuid) : Z :=
  joined db "access_rules" (user_rule a) (user_rule s) (fun x y =>
    same (col y "resource_id") (col x "resource_id") && differ (col x "effect") (col y "effect")).

Definition rule_warnings (db : MergeDb) (s a : uuid) : list MergeWarning :=
  let n := rule_conflicts db s a in
  warn (0 <? n) "access_rule_conflict"
    (pretty n +:+ " resource(s) allow one account and deny the other; both rules are kept and deny wins").

(** Equality of [serde_json::Value]s; the keys of an object are kept in order. *)
Fixpoint json_eqb (x y : json) : bool :=
  match x, y with
  | JNull, JNull => true
  | JBool a, JBool b => Bool.eqb a b
  | JInt a, JInt b => a =? b
  | JStr a, JStr b => a ≟ b
  | JArr l, JArr l' =>
      (fix go l l' := match l, l' with
        | [], [] => true
        | v :: l, v' :: l' => json_eqb v v' && go l l'
        | _, _ => false
        end) l l'
  | JObj l, JObj l' =>
      (fix go l l' := match l, l' with
        | [], [] => true
        | (k, v) :: l, (k', v') :: l' => (k ≟ k') && json_eqb v v' && go l l'
        | _, _ => false
        end) l l'
  | _, _ => false
  end.

Definition profile_conflicts (survivor absorbed : json) : list string :=
  match survivor, absorbed with
  | JObj _, JObj fs =>
      (List.filter (fun kv =>
        is_some_and (json_get survivor kv.1) (fun sv => negb (json_eqb sv kv.2))) fs).*1
  | _, _ => []
  end.

(** [entry(k).or_insert(v)] on the ordered map of an object. *)
Fixpoint entry_or_insert (k : string) (v : json) (fs : list (string * json)) : list (string * json) :=
  match fs with
  | [] => [(k, v)]
  | (k', v') :: fs' =>
      if k ≟ k' then fs
      else if String.leb k k' then (k, v) :: fs
      else (k', v') :: entry_or_insert k v fs'
  end.

Definition merged_profile (survivor absorbed : json) : json :=
  match survivor, absorbed with
  | JObj o, JObj a => JObj (foldl (fun o kv => entry_or_insert kv.1 kv.2 o) o a)
  | _, _ => survivor
  end.

Definition next_due (m : Member) : option instant := membership_next_due_at (person (app m)).

(** What is warned of the two rows of [users]. *)
Definition person_warnings (survivor absorbed : Member) : list MergeWarning :=
  let s := person (app survivor) in let a := person (app absorbed) in
  warn true "absorbed_login_lost"
    ("the username " +:+ quoted (username (account (app absorbed))) +:+
     " and its password stop working; the survivor's credentials remain") ++
  warn (negb (full_name s ≟ full_name a)) "full_name_differs"
    ("names differ (" +:+ quoted (full_name s) +:+ " vs " +:+ quoted (full_name a) +:+
     "); the survivor's is kept") ++
  warn (negb (is_active a) && is_active s) "absorbed_inactive"
    "the absorbed account is deactivated; its history joins an active account" ++
  warn (is_active a && negb (is_active s)) "survivor_inactive"
    "the survivor is deactivated; the active account's history joins an account that cannot sign in" ++
  (let conflicts := profile_conflicts (profile s) (profile a) in
   warn (negb (bool_decide (conflicts = []))) "profile_conflicts"
    ("profile fields differ and the survivor's are kept: " +:+ String.concat ", " conflicts)) ++
  warn (negb (Bool.eqb (is_some (opted_out_at survivor)) (is_some (opted_out_at absorbed))))
    "opt_out_mismatch"
    "one account opted out of the mailing list and the other did not; the survivor's choice is kept" ++
  match next_due survivor, next_due absorbed with
  | Some sd, Some ad =>
      warn (negb (sd =? ad)) "next_due_mismatch"
        ("both accounts are enrolled with different renewal dates (" +:+ utc_display sd +:+ " vs " +:+
         utc_display ad +:+ "); the survivor's is kept")
  | None, Some ad =>
      warn true "next_due_adopted"
        ("only the absorbed account is enrolled in dues; its renewal date (" +:+ utc_display ad +:+
         ") is adopted")
  | _, None => []
  end.

(** [coalesce(max(created_at)::text, '')] of the logins of a user. *)
Definition last_login (db : MergeDb) (u : uuid) : string :=
  let times := omap (fun r => match col r "created_at" with CTime t => Some t | _ => None end)
    (List.filter (fun r => same (col r "event_type") (CText "user_login") && names "user_id" u r)
      (rows db "audit_logs")) in
  match times with
  | [] => EmptyString
  | t :: ts => timestamptz_text (foldl Z.max t ts)
  end.

Definition open_for (db : MergeDb) (u : uuid) : Z :=
  count db "tool_usage_sessions" (fun r => same (col r "status") (CText "open") && names "user_id" u r) +
  count db "resource_sessions" (fun r => is_null (col r "closed_at") && names "user_id" u r).

Definition tier_conflicts (db : MergeDb) (s a : uuid) : Z :=
  joined db "tool_tier_assignments" (names "user_id" a) (names "user_id" s) (fun x y =>
    same (col y "tool_id") (col x "tool_id") && differ (col x "tier_id") (col y "tier_id")).

Definition subscriptions (db : MergeDb) (u : uuid) : Z :=
  count db "user_stripe_customers" (fun r => negb (is_null (col r "subscription_id")) && names "user_id" u r).

Definition unused_codes_of (db : MergeDb) (u : uuid) : Z :=
  count db "user_mfa_recovery_codes" (fun r => is_null (col r "used_at") && names "user_id" u r).

(** What is warned of after a query. *)
Definition query_warnings (db : MergeDb) (s a : uuid) : list MergeWarning :=
  let sl := last_login db s in let al := last_login db a in
  warn (negb (al ≟ EmptyString) && String.ltb sl al) "absorbed_logged_in_more_recently"
    ("the absorbed account signed in more recently (" +:+ al +:+ ") than the survivor (" +:+
     (if sl ≟ EmptyString then "never" else sl) +:+ "); check the survivor is the right way round") ++
  warn ((0 <? open_for db s) && (0 <? open_for db a)) "open_sessions_both"
    "both accounts have a tool or room session open right now; both move to the survivor" ++
  warn (0 <? tier_conflicts db s a) "tier_differs"
    (pretty (tier_conflicts db s a) +:+
     " tool(s) have a different rate tier on each account; the survivor's tier is kept") ++
  warn (0 <? subscriptions db a) "absorbed_active_subscription"
    "the absorbed account has a live Stripe subscription; it moves to the survivor, who may then be billed twice" ++
  warn ((0 <? unused_codes_of db s) && (0 <? unused_codes_of db a)) "recovery_codes_union"
    "both accounts hold unused recovery codes; both sheets will open the survivor until regenerated".

Definition plan_moves (db : MergeDb) (s a : uuid) : gmap string Z :=
  note "access_rules.value" (count db "access_rules" (user_rule a))
   (note "user_emails.user_id" (count db "user_emails" (names "user_id" a))
    (note "user_roles.user_id" (Z.of_nat (length (new_roles db s a)))
     (text_moves db a (pair_moves db s a (plain_moves db a ∅))))).

Definition plan (db : MergeDb) (rbac : RoleGraph) (survivor absorbed : Member) : MergePlan :=
  let s := mid survivor in let a := mid absorbed in {|
  plan_survivor := party survivor;
  plan_absorbed := party absorbed;
  moves := plan_moves db s a;
  warnings := pair_warnings db s a ++ role_warnings db rbac s a ++ rule_warnings db s a ++
    person_warnings survivor absorbed ++ query_warnings db s a |}.

(** ** Carrying it out *)

(** The tables and what was noted as moved so far. *)
Definition Work : Type := MergeDb * gmap string Z.

Definition counted (k : string) (x : MergeDb * Z) (m : gmap string Z) : Work := (x.1, note k x.2 m).

(** [INSERT ... SELECT ... ON CONFLICT DO NOTHING], a row at a time. *)
Definition insert_role (s : uuid) (x : MergeDb * Z) (role : uuid) : MergeDb * Z :=
  let '(db, n) := x in
  if bool_decide (role ∈ roles_for db s) then (db, n)
  else (set_rows "user_roles" (rows db "user_roles" ++
          [<["user_id" := CUuid s]> (<["role_id" := CUuid role]> ∅)]) db, n + 1).

Definition merge_roles (s a : uuid) (w : Work) : Work :=
  let '(db, m) := counted "user_roles.user_id" (foldl (insert_role s) (w.1, 0) (roles_for w.1 a)) w.2 in
  (delete_where "user_roles" (names "user_id" a) db, m).

Definition merge_pair (s a : uuid) (w : Work) (tk : string * string) : Work :=
  let '(t, key) := tk in
  let '(db, m) := counted (dotted t "user_id")
    (update t (pair_movable w.1 t key s a) (points "user_id" s) w.1) w.2 in
  (delete_where t (names "user_id" a) db, m).

Definition merge_plain (s a : uuid) (w : Work) (tc : string * string) : Work :=
  counted (dotted tc.1 tc.2) (update tc.1 (names tc.2 a) (points tc.2 s) w.1) w.2.

Definition merge_text (s a : uuid) (w : Work) (tc : string * string) : Work :=
  counted (dotted tc.1 tc.2) (update tc.1 (names_text tc.2 a) (points_text tc.2 s) w.1) w.2.

(** The survivor has a rule that says the same. *)
Definition rule_held (db : MergeDb) (s : uuid) (r : Row) : bool :=
  existsb (fun r' => same (col r' "resource_id") (col r "resource_id") && user_rule s r' &&
    same (col r' "effect") (col r "effect")) (rows db "access_rules").

Definition merge_rules (s a : uuid) (w : Work) : Work :=
  let '(db, m) := counted "access_rules.value"
    (update "access_rules" (fun r => user_rule a r && negb (rule_held w.1 s r)) (points_text "value" s) w.1)
    w.2 in
  (delete_where "access_rules" (user_rule a) db, m).

(** Both columns in one statement: a user never has two primaries. *)
Definition merge_addresses (s a : uuid) (w : Work) : Work :=
  counted "user_emails.user_id"
    (update "user_emails" (names "user_id" a)
      (fun r => <["is_primary" := CBool false]> (points "user_id" s r)) w.1) w.2.

(** Everything that referred to the absorbed account. *)
Definition repoint (s a : uuid) (db : MergeDb) : Work :=
  let w := merge_roles s a (db, ∅) in
  let w := foldl (merge_pair s a) w UNIQUE_PAIRS in
  let w := foldl (merge_plain s a) w PLAIN in
  let w := foldl (merge_text s a) w TEXT_REFS in
  merge_addresses s a (merge_rules s a w).

(** The survivor's row after the [UPDATE]; [profile] was merged from the rows the caller read. *)
Definition surviving (now : instant) (profile : json) (due : option instant) (m : Member) : Member :=
  let u := person (app m) in let acc := account (app m) in {|
  app := {|
    person := {| user_id := user_id u; full_name := full_name u; is_active := is_active u;
      membership_next_due_at := option_or (membership_next_due_at u) due; profile := profile |};
    account := {| username := username acc; email := email acc; password_hash := password_hash acc;
      created_at := created_at acc; account_updated_at := now; meta := meta acc;
      mfa_enrolled_at := mfa_enrolled_at acc; email_verified_at := email_verified_at acc;
      token_version := token_version acc + 1 |} |};
  opted_out_at := opted_out_at m |}.

Definition I32_MAX : Z := 2 ^ 31 - 1.

Definition update_survivor (survivor absorbed : Member) (db : MergeDb) : MergeDb + DatabaseError :=
  let s := mid survivor in
  let profile := merged_profile (profile (person (app survivor))) (profile (person (app absorbed))) in
  match members db !! s with
  | Some m =>
      if token_version (account (app m)) <? I32_MAX
      then inl (set_members (<[s := surviving (merge_clock db) profile (next_due absorbed) m]>) db)
      else inr UnknownFault
  | None => inl db
  end.

(** [DELETE FROM users] and its foreign keys.  What is left to cascade over are the
    links of [DROPPED], which nothing refers to. *)
Definition on_delete (a : uuid) (db : MergeDb) (ref : string * string * OnDelete) : MergeDb :=
  let '(t, c, action) := ref in
  match action with
  | Restrict => db
  | SetNull => set_rows t ((fun r => if names c a r then <[c := CNull]> r else r) <$> rows db t) db
  | Cascade => delete_where t (names c a) db
  end.

Definition restricted (a : uuid) (db : MergeDb) (ref : string * string * OnDelete) : bool :=
  match ref with
  | (t, c, Restrict) => existsb (names c a) (rows db t)
  | _ => false
  end.

Definition delete_absorbed (a : uuid) (db : MergeDb) : MergeDb + DatabaseError :=
  match members db !! a with
  | None => inr NotFound
  | Some _ =>
      if existsb (restricted a db) references then inr ForeignKeyViolation
      else inl (set_members (base.delete a) (foldl (on_delete a) db references))
  end.

Definition opt_json {A} (f : A -> json) (o : option A) : json :=
  match o with Some x => f x | None => JNull end.

(** [serde_json::to_value(absorbed)]: [User] does not serialize its hash.  The keys of a
    map come in order. *)
Definition snapshot (m : Member) : json :=
  let u := person (app m) in let acc := account (app m) in
  let time t := JStr (utc_json t) in
  JObj [
    ("created_at", JStr (naive_json (created_at acc)));
    ("email", JStr (email acc));
    ("email_verified_at", opt_json time (email_verified_at acc));
    ("full_name", JStr (full_name u));
    ("id", JStr (uuid_show (user_id u)));
    ("is_active", JBool (is_active u));
    ("mailing_list_opt_out_at", opt_json time (opted_out_at m));
    ("membership_next_due_at", opt_json time (membership_next_due_at u));
    ("meta", meta acc);
    ("mfa_enrolled_at", opt_json time (mfa_enrolled_at acc));
    ("profile", profile u);
    ("token_version", JInt (token_version acc));
    ("updated_at", JStr (naive_json (account_updated_at acc)));
    ("username", JStr (username acc))].

Definition warning_json (w : MergeWarning) : json :=
  JObj [("code", JStr (code w)); ("detail", JStr (detail w))].

Definition counts_json (m : gmap string Z) : json :=
  JObj (sort_by (fun x y => String.leb x.1 y.1) ((fun kv => (kv.1, JInt kv.2)) <$> map_to_list m)).

(** [NewUserMerge]: what is kept of the absorbed account. *)
Definition merge_row (survivor absorbed : Member) (actor id : uuid) (now : instant)
    (moved : gmap string Z) (ws : list MergeWarning) : Row :=
  list_to_map [
    ("id", CUuid id);
    ("survivor_id", CUuid (mid survivor));
    ("absorbed_id", CUuid (mid absorbed));
    ("absorbed_username", CText (username (account (app absorbed))));
    ("absorbed_email", CText (email (account (app absorbed))));
    ("absorbed_snapshot", CJson (snapshot absorbed));
    ("moved", CJson (counts_json moved));
    ("warnings", CJson (JArr (warning_json <$> ws)));
    ("actor_id", CUuid actor);
    ("created_at", CTime now)].

Definition used_id (db : MergeDb) : MergeDb := {|
  members := members db; tables := tables db; merge_clock := merge_clock db;
  merge_ids := S (merge_ids db) |}.

(** The row names two users who must still be there. *)
Definition record_merge (survivor absorbed : Member) (actor : uuid)
    (moved : gmap string Z) (ws : list MergeWarning) (db : MergeDb) : (MergeDb * uuid) + DatabaseError :=
  if bool_decide (is_Some (members db !! mid survivor)) && bool_decide (is_Some (members db !! actor)) then
    let id := gen_random_uuid (merge_ids db) in
    let row := merge_row survivor absorbed actor id (merge_clock db) moved ws in
    inl (used_id (set_rows "user_merges" (rows db "user_merges" ++ [row]) db), id)
  else inr ForeignKeyViolation.

(** The transaction: what it answers, and the tables after it. *)
Definition execute (db : MergeDb) (rbac : RoleGraph) (survivor absorbed : Member)
    (acknowledged : gset string) (actor : uuid) : MergeDb * (MergeOutcome + MergeError) :=
  let p := plan db rbac survivor absorbed in
  if bool_decide (warning_codes p = acknowledged) then
    let s := mid survivor in let a := mid absorbed in
    let '(db1, m) := repoint s a db in
    match update_survivor survivor absorbed db1 with
    | inr e => (db, inr (Diesel e))
    | inl db2 =>
        match delete_absorbed a db2 with
        | inr e => (db, inr (Diesel e))
        | inl db3 =>
            match record_merge survivor absorbed actor m (warnings p) db3 with
            | inr e => (db, inr (Diesel e))
            | inl (db4, id) =>
                (db4, inl {| merge_id := id; survivor_id := s; absorbed_id := a; moved := m;
                             outcome_warnings := warnings p |})
            end
        end
    end
  else (db, inr (Unacknowledged p)).

(** ** The routes *)

(** What the routes tell the rest of the server: an audit row with who and what, and a
    push of the allow lists. *)
Inductive Announcement : Type :=
  | UserMerged (about actor : uuid) (data : json)
  | AllowListsPushed.

Record Merging := {
  merge_db : MergeDb;
  graph : RoleGraph;
  announced : list Announcement;
}.

Abbreviation M := (Faults.M Merging DatabaseError).
Abbreviation H := (Faults.M Merging ApiError).

Definition with_db (db : MergeDb) (st : Merging) : Merging := {|
  merge_db := db; graph := graph st; announced := announced st |}.

Definition announce (x : Announcement) (st : Merging) : Merging := {|
  merge_db := merge_db st; graph := graph st; announced := announced st ++ [x] |}.

(** The queries of a preview are not one transaction; each only looks. *)
Definition preview_user_merge (survivor absorbed : Member) : M MergePlan :=
  select (fun st => plan (merge_db st) (graph st) survivor absorbed).

Definition merge_users (survivor absorbed : Member) (acknowledged : gset string) (actor : uuid) :
    M (MergeOutcome + MergePlan) :=
  call (fun st =>
    let '(db, r) := execute (merge_db st) (graph st) survivor absorbed acknowledged actor in
    match r with
    | inl o => (with_db db st, inl (inl o))
    | inr (Unacknowledged p) => (with_db db st, inl (inr p))
    | inr (Diesel e) => (with_db db st, inr e)
    end).

Definition find_member (u : uuid) : M (option Member) := select (fun st => members (merge_db st) !! u).

Definition member_level (u : uuid) : M Z :=
  select (fun st => effective_level (graph st) (roles_for (merge_db st) u)).

#[local] Instance MergeApi_fault : FaultError ApiError := api_error Connection.

(** [map_err(ApiError::from)?]. *)
Definition db_call {A} (m : M A) : H A := map_err api_error m.

Definition load (u : uuid) (message : string) : H Member :=
  o ← db_call (find_member u);
  match o with Some m => mret m | None => throw (NotFoundError message) end.

Definition below (caller_level : Z) (who : string) (u : uuid) : H unit :=
  level ← db_call (member_level u);
  if caller_level <=? level
  then throw (Forbidden ("the " +:+ who +:+ " is at or above your own access level"))
  else mret tt.

Definition merge_parties (actor survivor absorbed : uuid) : H (Member * Member) :=
  if survivor ≟ absorbed then throw (BadRequest "an account cannot be merged into itself")
  else if (actor ≟ survivor) || (actor ≟ absorbed)
  then throw (BadRequest "you cannot merge your own account; ask another administrator")
  else
    s ← load survivor "survivor not found";
    a ← load absorbed "absorbed user not found";
    caller_level ← db_call (member_level actor);
    _ ← below caller_level "survivor" survivor;
    _ ← below caller_level "absorbed user" absorbed;
    mret (s, a).

Definition merge_preview (actor user absorbed : uuid) : H MergePlan :=
  '(s, a) ← merge_parties actor user absorbed;
  db_call (preview_user_merge s a).

Definition codes_in_order (p : MergePlan) : list string :=
  sort_by String.leb (elements (warning_codes p)).

Definition merged_data (o : MergeOutcome) (absorbed : Member) : json :=
  JObj [
    ("absorbed_email", JStr (email (account (app absorbed))));
    ("absorbed_id", JStr (uuid_show (mid absorbed)));
    ("absorbed_username", JStr (username (account (app absorbed))));
    ("acknowledged", JArr (JStr ∘ code <$> outcome_warnings o));
    ("merge_id", JStr (uuid_show (merge_id o)));
    ("moved", counts_json (moved o))].

(** The log may fail without the merge failing: it is an effect here. *)
Definition merge_route (actor user absorbed : uuid) (acknowledged : list string) : H (MergeOutcome * string) :=
  '(s, a) ← merge_parties actor user absorbed;
  r ← db_call (merge_users s a (list_to_set acknowledged) actor);
  match r with
  | inr p =>
      throw (Conflict ("every warning must be acknowledged before merging; the current set is: " +:+
        String.concat ", " (codes_in_order p)))
  | inl o =>
      _ ← effect (announce (UserMerged (mid s) actor (merged_data o a)));
      _ ← effect (announce AllowListsPushed);
      mret (o, username (account (app a)) +:+ " merged into " +:+ username (account (app s)))
  end.
End Merge.
End Merge.
