(* ===== verification/MergeSafety.v ===== *)
(** * What a merge leaves behind

    After a merge nothing that refers to a user refers to the absorbed account, every
    row of the history is still there under the survivor, and what was kept unique still
    is.  Refused or failed, a merge changes nothing. *)
From Stdlib Require Import QArith.
From S2P Require Import Prelude Text Rbac Faults Money AuditLog Database Api Accounts Merge.
Import Rbac Faults Money Audit Database Api Accounts Merge.

Module MergeSafety.

#[local] Open Scope string_scope.
#[local] Open Scope list_scope.
#[local] Open Scope Z_scope.

Section MergeSafety.
Context {U : Uuid} {IS : IdSource} {MT : MergeText}.
Context (references : list (string * string * OnDelete)).

Implicit Types (s a : uuid) (r : Row) (db : MergeDb) (w : Work).

(** ** Rows and columns *)

Lemma rows_set t t' rs db : rows (set_rows t rs db) t' = if decide (t = t') then rs else rows db t'.
Proof.
  unfold rows, set_rows. cbn [tables]. case_decide as E.
  - subst. by rewrite lookup_insert_eq.
  - by rewrite lookup_insert_ne.
Qed.

Lemma col_insert c c' v r : col (<[c := v]> r) c' = if decide (c = c') then v else col r c'.
Proof.
  unfold col, Row. case_decide as E.
  - subst. by rewrite lookup_insert_eq.
  - by rewrite lookup_insert_ne.
Qed.

Lemma names_iff c u r : names c u r = true <-> col r c = CUuid u.
Proof.
  unfold names, same. destruct (col r c); split; intros H; try done.
  - apply bool_decide_eq_true in H. by subst.
  - injection H as ->. by apply bool_decide_eq_true.
Qed.

Lemma uuid_show_inj x y : uuid_show x = uuid_show y -> x = y.
Proof. intros H. apply (f_equal uuid_parse) in H. rewrite !uuid_parse_show in H. by injection H. Qed.

Lemma names_text_iff c u r : names_text c u r = true <-> col r c = CText (uuid_show u).
Proof.
  unfold names_text, same. destruct (col r c); split; intros H; try done.
  - apply bool_decide_eq_true in H. by subst.
  - injection H as ->. by apply bool_decide_eq_true.
Qed.

Lemma names_same c u v r r' : col r c = col r' v -> names c u r = names v u r'.
Proof. unfold names. by intros ->. Qed.

(** ** Every mention of one user in some columns becomes the other *)

Definition sub (s a : uuid) (r : Row) (c : string) : Row := if names c a r then points c s r else r.
Definition sub_text (s a : uuid) (r : Row) (c : string) : Row :=
  if names_text c a r then points_text c s r else r.

(** The columns of a table that a list of references names. *)
Definition cols (l : list (string * string)) (t : string) : list string :=
  (List.filter (fun tc => tc.1 ≟ t) l).*2.

(** A row as the merge leaves it. *)
Definition followed (s a : uuid) (t : string) (r : Row) : Row :=
  foldl (sub_text s a) (foldl (sub s a) r (cols PLAIN t)) (cols TEXT_REFS t).

Lemma col_sub s a r c c' :
  col (sub s a r c) c' = if bool_decide (c' = c) && names c a r then CUuid s else col r c'.
Proof.
  unfold sub. destruct (names c a r).
  - unfold points. rewrite col_insert. rewrite andb_true_r. by repeat case_decide; simplify_eq.
  - by rewrite andb_false_r.
Qed.

Lemma col_subs s a cs : s <> a -> forall r c,
  col (foldl (sub s a) r cs) c = if bool_decide (c ∈ cs) && names c a r then CUuid s else col r c.
Proof.
  intros Hne. induction cs as [|c0 cs IH]; intros r c; [by rewrite bool_decide_eq_false_2 by set_solver|].
  simpl. rewrite IH. unfold names at 1. rewrite col_sub.
  destruct (bool_decide (c = c0) && names c0 a r) eqn:E.
  - apply andb_true_iff in E as [->%bool_decide_eq_true E]. rewrite E.
    rewrite (bool_decide_eq_true_2 (c0 ∈ c0 :: cs)) by set_solver. simpl.
    by destruct (_ && _).
  - fold (names c a r). destruct (names c a r) eqn:En; [|by rewrite !andb_false_r].
    rewrite !andb_true_r. assert (c <> c0) as Hc.
    { intros ->. rewrite En, bool_decide_eq_true_2 in E; done. }
    replace (bool_decide (c ∈ c0 :: cs)) with (bool_decide (c ∈ cs)); [done|].
    apply bool_decide_ext. set_solver.
Qed.

Lemma col_sub_text s a r c c' :
  col (sub_text s a r c) c' =
    if bool_decide (c' = c) && names_text c a r then CText (uuid_show s) else col r c'.
Proof.
  unfold sub_text. destruct (names_text c a r).
  - unfold points_text. rewrite col_insert. rewrite andb_true_r. by repeat case_decide; simplify_eq.
  - by rewrite andb_false_r.
Qed.

Lemma col_subs_text s a cs : s <> a -> forall r c,
  col (foldl (sub_text s a) r cs) c =
    if bool_decide (c ∈ cs) && names_text c a r then CText (uuid_show s) else col r c.
Proof.
  intros Hne. induction cs as [|c0 cs IH]; intros r c; [by rewrite bool_decide_eq_false_2 by set_solver|].
  simpl. rewrite IH. unfold names_text at 1. rewrite col_sub_text.
  destruct (bool_decide (c = c0) && names_text c0 a r) eqn:E.
  - apply andb_true_iff in E as [->%bool_decide_eq_true E]. rewrite E.
    rewrite (bool_decide_eq_true_2 (c0 ∈ c0 :: cs)) by set_solver. simpl.
    by destruct (_ && _).
  - fold (names_text c a r). destruct (names_text c a r) eqn:En; [|by rewrite !andb_false_r].
    rewrite !andb_true_r. assert (c <> c0) as Hc.
    { intros ->. rewrite En, bool_decide_eq_true_2 in E; done. }
    replace (bool_decide (c ∈ c0 :: cs)) with (bool_decide (c ∈ cs)); [done|].
    apply bool_decide_ext. set_solver.
Qed.

(** ** The steps, table by table *)

Lemma rows_update t f g db t' :
  rows (update t f g db).1 t' =
    (fun r => if decide (t = t') then if f r then g r else r else r) <$> rows db t'.
Proof.
  unfold update. cbn [fst]. rewrite rows_set. case_decide; subst; [done | symmetry; apply list_fmap_id].
Qed.

Lemma rows_update_ne t f g db t' : t <> t' -> rows (update t f g db).1 t' = rows db t'.
Proof. intros H. unfold update. cbn [fst]. by rewrite rows_set, decide_False. Qed.

Lemma rows_update_eq t f g db :
  rows (update t f g db).1 t = (fun r => if f r then g r else r) <$> rows db t.
Proof. unfold update. cbn [fst]. by rewrite rows_set, decide_True. Qed.

Lemma rows_delete t f db t' :
  rows (delete_where t f db) t' =
    if decide (t = t') then List.filter (fun r => negb (f r)) (rows db t') else rows db t'.
Proof. unfold delete_where. rewrite rows_set. by case_decide; subst. Qed.

Lemma cols_cons tc l t : cols (tc :: l) t = if decide (tc.1 = t) then tc.2 :: cols l t else cols l t.
Proof.
  unfold cols. cbn [List.filter]. case_decide as E.
  - by rewrite (bool_decide_eq_true_2 _ E).
  - by rewrite (bool_decide_eq_false_2 _ E).
Qed.

Lemma rows_plain s a l w t :
  rows (foldl (merge_plain s a) w l).1 t = (fun r => foldl (sub s a) r (cols l t)) <$> rows w.1 t.
Proof.
  revert w. induction l as [|tc l IH]; intros w; [symmetry; apply list_fmap_id|].
  cbn [foldl]. rewrite IH. unfold merge_plain at 1, counted. rewrite cols_cons.
  cbn [fst]. rewrite rows_update, <- list_fmap_compose. apply list_fmap_ext. intros i r _.
  unfold compose, sub. by case_decide.
Qed.

Lemma rows_texts s a l w t :
  rows (foldl (merge_text s a) w l).1 t = (fun r => foldl (sub_text s a) r (cols l t)) <$> rows w.1 t.
Proof.
  revert w. induction l as [|tc l IH]; intros w; [symmetry; apply list_fmap_id|].
  cbn [foldl]. rewrite IH. unfold merge_text at 1, counted. rewrite cols_cons.
  cbn [fst]. rewrite rows_update, <- list_fmap_compose. apply list_fmap_ext. intros i r _.
  unfold compose, sub_text. by case_decide.
Qed.

(** A pair's table: what collides is gone, the rest is the survivor's. *)
Definition settled (s a : uuid) (t key : string) (db : MergeDb) : list Row :=
  (fun r => sub s a r "user_id") <$>
    List.filter (fun r => negb (pair_colliding db t key s a r)) (rows db t).

Lemma rows_pair s a w t key t' : s <> a ->
  rows (merge_pair s a w (t, key)).1 t' = if decide (t = t') then settled s a t key w.1 else rows w.1 t'.
Proof.
  intros Hne. unfold merge_pair, counted. cbn [fst]. rewrite rows_delete.
  rewrite rows_update. case_decide; [subst t'|apply list_fmap_id].
  unfold settled. generalize (rows w.1 t). intros l. induction l as [|r l IH]; [done|].
  cbn [fmap list_fmap List.filter]. unfold pair_movable at 1 2, pair_colliding at 1.
  destruct (names "user_id" a r) eqn:En; destruct (held w.1 t key s r) eqn:Eh; cbn [andb negb].
  - rewrite En. cbn [negb]. exact IH.
  - unfold points at 1. replace (names "user_id" a _) with false.
    2:{ symmetry. apply not_true_iff_false. rewrite names_iff, col_insert, decide_True by done. congruence. }
    cbn [negb fmap list_fmap]. f_equal; [|exact IH]. unfold sub. by rewrite En.
  - rewrite En. cbn [negb fmap list_fmap]. f_equal; [|exact IH]. unfold sub. by rewrite En.
  - rewrite En. cbn [negb fmap list_fmap]. f_equal; [|exact IH]. unfold sub. by rewrite En.
Qed.

Lemma filter_app_b {A} (f : A -> bool) l l' : List.filter f (l ++ l') = List.filter f l ++ List.filter f l'.
Proof. induction l as [|x l IH]; [done|]. simpl. rewrite IH. by destruct (f x). Qed.

(** ** Roles *)

Lemma roles_for_add db s role u :
  roles_for (set_rows "user_roles" (rows db "user_roles" ++
    [<["user_id" := CUuid s]> (<["role_id" := CUuid role]> ∅)]) db) u =
  roles_for db u ++ (if decide (s = u) then [role] else []).
Proof.
  unfold roles_for. rewrite rows_set, decide_True by done. rewrite filter_app_b, omap_app. f_equal.
  cbn [List.filter]. unfold names at 1. rewrite col_insert, decide_True by done. simpl.
  case_decide as E; [|by rewrite bool_decide_eq_false_2].
  rewrite bool_decide_eq_true_2 by done. simpl.
  rewrite !col_insert. by rewrite decide_False, decide_True by done.
Qed.

Lemma roles_inserted s l : forall x,
  (forall t, t <> "user_roles" -> rows (foldl (insert_role s) x l).1 t = rows x.1 t) /\
  members (foldl (insert_role s) x l).1 = members x.1 /\
  (forall role, role ∈ roles_for (foldl (insert_role s) x l).1 s <-> role ∈ roles_for x.1 s \/ role ∈ l) /\
  (forall u, u <> s -> roles_for (foldl (insert_role s) x l).1 u = roles_for x.1 u).
Proof.
  induction l as [|role l IH]; intros [db n]; [simpl; set_solver|].
  cbn [foldl]. destruct (IH (insert_role s (db, n) role)) as (H1 & H2 & H3 & H4).
  unfold insert_role in H1, H2, H3, H4 |- *. case_bool_decide as E.
  - repeat split; [exact H1 | exact H2 | | | exact H4].
    + intros [H|H]%H3; [by left | right; by right].
    + intros [H|[->|H]%elem_of_cons]; apply H3; [by left | by left | by right].
  - cbn [fst] in *. repeat split.
    + intros t Ht. by rewrite (H1 t Ht), rows_set, decide_False.
    + by rewrite H2.
    + intros H%H3. rewrite roles_for_add, decide_True in H by done. set_solver.
    + intros H. apply H3. rewrite roles_for_add, decide_True by done. set_solver.
    + intros u Hu. rewrite (H4 u Hu), roles_for_add, decide_False by done. apply app_nil_r.
Qed.

Lemma roles_deleted db a u : u <> a ->
  roles_for (delete_where "user_roles" (names "user_id" a) db) u = roles_for db u.
Proof.
  intros Hu. unfold roles_for. f_equal. rewrite rows_delete, decide_True by done.
  induction (rows db "user_roles") as [|r l IH]; [done|]. cbn [List.filter].
  destruct (names "user_id" a r) eqn:E; cbn [negb List.filter].
  - destruct (names "user_id" u r) eqn:E'; [|exact IH].
    apply names_iff in E, E'. congruence.
  - destruct (names "user_id" u r); [f_equal|]; exact IH.
Qed.

Lemma merge_roles_spec s a w : s <> a ->
  (forall t, t <> "user_roles" -> rows (merge_roles s a w).1 t = rows w.1 t) /\
  members (merge_roles s a w).1 = members w.1 /\
  (forall role, role ∈ roles_for (merge_roles s a w).1 s <-> role ∈ roles_for w.1 s \/ role ∈ roles_for w.1 a) /\
  (forall u, u <> s -> u <> a -> roles_for (merge_roles s a w).1 u = roles_for w.1 u) /\
  (forall r, r ∈ rows (merge_roles s a w).1 "user_roles" -> names "user_id" a r = false).
Proof.
  intros Hne. unfold merge_roles, counted. cbn [fst].
  destruct (roles_inserted s (roles_for w.1 a) (w.1, 0)) as (H1 & H2 & H3 & H4).
  repeat split.
  - intros t Ht. rewrite rows_delete, decide_False by congruence. by apply H1.
  - exact H2.
  - intros H. rewrite roles_deleted in H by done. by apply H3.
  - intros H. rewrite roles_deleted by done. by apply H3.
  - intros u Hs Ha. rewrite roles_deleted by done. by apply H4.
  - intros r Hr. rewrite rows_delete, decide_True in Hr by done.
    apply elem_of_lfilter in Hr as [_ Hr]. by apply negb_true_iff in Hr.
Qed.

(** ** What each step leaves alone *)

Lemma members_pairs s a l : forall w, members (foldl (merge_pair s a) w l).1 = members w.1.
Proof. induction l as [|[t k] l IH]; intros w; [done|]. cbn [foldl]. by rewrite IH. Qed.

Lemma members_plain s a l : forall w, members (foldl (merge_plain s a) w l).1 = members w.1.
Proof. induction l as [|tc l IH]; intros w; [done|]. cbn [foldl]. by rewrite IH. Qed.

Lemma members_texts s a l : forall w, members (foldl (merge_text s a) w l).1 = members w.1.
Proof. induction l as [|tc l IH]; intros w; [done|]. cbn [foldl]. by rewrite IH. Qed.

Lemma members_rules s a w : members (merge_rules s a w).1 = members w.1.
Proof. done. Qed.

Lemma members_addresses s a w : members (merge_addresses s a w).1 = members w.1.
Proof. done. Qed.

(** The five tables of [UNIQUE_PAIRS] are five, and none of those handled by hand. *)
Lemma pairs_nodup : NoDup UNIQUE_PAIRS.*1.
Proof. by apply (bool_decide_unpack _). Qed.

Lemma pair_found (t key : string) : (t, key) ∈ UNIQUE_PAIRS ->
  find_first (fun tk => tk.1 ≟ t) UNIQUE_PAIRS = Some (t, key) /\
  t <> "user_roles" /\ t <> "access_rules" /\ t <> "user_emails".
Proof.
  intros Ht. unfold UNIQUE_PAIRS in Ht. rewrite !elem_of_cons, elem_of_nil in Ht.
  destruct_or! Ht; simplify_eq; done.
Qed.

Lemma cols_roles : cols PLAIN "user_roles" = [] /\ cols TEXT_REFS "user_roles" = [].
Proof. done. Qed.

Lemma cols_merges : cols PLAIN "user_merges" = ["survivor_id"; "actor_id"].
Proof. done. Qed.

Lemma cols_emails : cols PLAIN "user_emails" = [] /\ cols TEXT_REFS "user_emails" = [].
Proof. done. Qed.

Lemma text_refs_are : TEXT_REFS =
  [("cmi5_registrations", "actor_account_name"); ("cmi5_state_documents", "agent_account_name")].
Proof. done. Qed.

(** The owner and the key of a pair are re-pointed by nothing else. *)
Lemma pair_columns : Forall (fun tk => forall c, c = "user_id" \/ c = tk.2 ->
    c ∉ cols PLAIN tk.1 /\ c ∉ cols TEXT_REFS tk.1) UNIQUE_PAIRS.
Proof.
  unfold UNIQUE_PAIRS. rewrite !Forall_cons, Forall_nil.
  split_and!; try done; intros c [-> | ->]; split; by apply (bool_decide_unpack _).
Qed.

Lemma pairs_kept : Forall (fun tk => tk.1 ∉ DROPPED.*1 /\ tk.1 <> "user_merges") UNIQUE_PAIRS.
Proof. by apply (bool_decide_unpack _). Qed.

Lemma ledger_columns :
  ("membership_ledger", "amount") ∉ PLAIN /\ ("membership_ledger", "amount") ∉ TEXT_REFS /\
  ("membership_ledger", "user_id") ∈ PLAIN /\ ("membership_ledger", "user_id") ∉ TEXT_REFS.
Proof. split_and!; by apply (bool_decide_unpack _). Qed.

Lemma emails_unpaired : find_first (fun tk => tk.1 ≟ "user_emails") UNIQUE_PAIRS = None.
Proof. done. Qed.

Lemma pairs_are : UNIQUE_PAIRS = [
  ("tool_tier_assignments", "tool_id");
  ("training_instructors", "training_step_id");
  ("training_waivers", "tool_id");
  ("user_tool_training", "training_type_id");
  ("user_training_progress", "training_step_id")].
Proof. done. Qed.

#[local] Opaque PLAIN UNIQUE_PAIRS TEXT_REFS.

Lemma members_repoint s a db : s <> a -> members (repoint s a db).1 = members db.
Proof.
  intros Hne. unfold repoint.
  rewrite members_addresses, members_rules, members_texts, members_plain, members_pairs.
  destruct (merge_roles_spec s a (db, ∅) Hne) as (_ & H & _). exact H.
Qed.

Lemma rows_pairs s a l t : s <> a -> NoDup l.*1 -> forall w,
  rows (foldl (merge_pair s a) w l).1 t =
    match find_first (fun tk => tk.1 ≟ t) l with
    | Some tk => settled s a t tk.2 w.1
    | None => rows w.1 t
    end.
Proof.
  intros Hne. induction l as [|[t0 k] l IH]; intros Hn w; [done|].
  cbn [foldl fmap list_fmap fst] in *. apply NoDup_cons in Hn as [Hnot Hn]. rewrite (IH Hn).
  cbn [find_first fst]. destruct (decide (t0 = t)) as [->|Ht].
  - rewrite bool_decide_eq_true_2 by done. cbn [snd].
    destruct (find_first _ l) as [tk|] eqn:E.
    + apply find_first_Some in E as [Hin Ht]. apply bool_decide_eq_true in Ht.
      exfalso. apply Hnot. subst t. by apply list_elem_of_fmap_2.
    + by rewrite rows_pair, decide_True.
  - rewrite bool_decide_eq_false_2 by done. destruct (find_first _ l) as [tk|] eqn:E.
    + unfold settled, pair_colliding, held. by rewrite !rows_pair, !decide_False by done.
    + by rewrite rows_pair, decide_False.
Qed.

(** The columns a merge cleans, and the tables it takes rows from. *)
Definition listed (t c : string) : Prop :=
  (t, c) ∈ PLAIN \/ (c = "user_id" /\ t ∈ UNIQUE_PAIRS.*1) \/ (t, c) ∈ SPECIAL.

Definition thinned : list string := ["user_roles"; "access_rules"; "user_emails"] ++ UNIQUE_PAIRS.*1.

Lemma rows_last s a w t : t <> "access_rules" -> t <> "user_emails" ->
  rows (merge_addresses s a (merge_rules s a w)).1 t = rows w.1 t.
Proof.
  intros H1 H2. unfold merge_addresses, merge_rules, counted. cbn [fst].
  rewrite rows_update_ne, rows_delete, decide_False, rows_update_ne by congruence. done.
Qed.

(** ** The whole of the re-pointing, table by table *)

Lemma repoint_rest s a db t : s <> a ->
  t <> "access_rules" -> t <> "user_emails" -> t ∉ UNIQUE_PAIRS.*1 ->
  rows (repoint s a db).1 t = followed s a t <$> rows (merge_roles s a (db, ∅)).1 t.
Proof.
  intros Hne N1 N2 Ht. unfold repoint. rewrite rows_last by done.
  rewrite rows_texts, rows_plain, <- list_fmap_compose.
  rewrite rows_pairs by (done || apply pairs_nodup).
  destruct (find_first _ _) as [tk|] eqn:E; [|done].
  apply find_first_Some in E as [Hin Heq]. apply bool_decide_eq_true in Heq.
  exfalso. apply Ht. subst t. by apply list_elem_of_fmap_2.
Qed.

Lemma repoint_history s a db t : s <> a -> t ∉ thinned ->
  rows (repoint s a db).1 t = followed s a t <$> rows db t.
Proof.
  intros Hne Ht. unfold thinned in Ht. rewrite repoint_rest by set_solver.
  destruct (merge_roles_spec s a (db, ∅) Hne) as (H & _). by rewrite H by set_solver.
Qed.

Lemma repoint_pair s a db t key : s <> a -> (t, key) ∈ UNIQUE_PAIRS ->
  rows (repoint s a db).1 t = followed s a t <$> settled s a t key db.
Proof.
  intros Hne Ht. unfold repoint.
  destruct (pair_found t key Ht) as (Hf & N1 & N2 & N3).
  rewrite rows_last by done. rewrite rows_texts, rows_plain, <- list_fmap_compose.
  rewrite rows_pairs by (done || apply pairs_nodup). rewrite Hf.
  cbn [snd]. destruct (merge_roles_spec s a (db, ∅) Hne) as (H & _).
  unfold settled, pair_colliding, held. by rewrite !H by done.
Qed.

(** ** Nothing names the absorbed account *)

Definition clean (a : uuid) (db : MergeDb) (t c : string) : Prop :=
  forall r, r ∈ rows db t -> names c a r = false.

Lemma in_cols l t c : c ∈ cols l t <-> (t, c) ∈ l.
Proof.
  unfold cols. rewrite list_elem_of_fmap. setoid_rewrite elem_of_lfilter.
  setoid_rewrite bool_decide_eq_true. split.
  - intros ([t' c'] & -> & Hin & <-). exact Hin.
  - intros H. by exists (t, c).
Qed.

(** A row as the merge leaves it, column by column. *)
Definition same_but (s a : uuid) (t : string) (r r' : Row) : Prop := forall c,
  col r' c =
    if bool_decide ((t, c) ∈ PLAIN) && names c a r then CUuid s
    else if bool_decide ((t, c) ∈ TEXT_REFS) && names_text c a r then CText (uuid_show s)
    else col r c.

Lemma followed_spec s a t r : s <> a -> same_but s a t r (followed s a t r).
Proof.
  intros Hne c. unfold followed. rewrite col_subs_text by done. unfold names_text at 1.
  rewrite col_subs by done.
  rewrite (bool_decide_ext _ _ (in_cols PLAIN t c)), (bool_decide_ext _ _ (in_cols TEXT_REFS t c)).
  destruct (bool_decide ((t, c) ∈ PLAIN) && names c a r); [by rewrite andb_false_r | done].
Qed.

Lemma followed_names s a t r c : s <> a -> names c a (followed s a t r) = true ->
  names c a r = true /\ (t, c) ∉ PLAIN.
Proof.
  intros Hne H. apply names_iff in H. rewrite (followed_spec s a t r Hne c) in H.
  case_bool_decide as E1; cbn [andb] in H.
  - destruct (names c a r) eqn:E; [congruence|]. rewrite andb_comm in H.
    destruct (names_text c a r && _); [done|]. apply names_iff in H. congruence.
  - rewrite andb_comm in H. destruct (names_text c a r && _); [done|].
    split; [by apply names_iff | done].
Qed.

Lemma followed_clean s a db t t' c l : s <> a -> rows db t = followed s a t' <$> l ->
  ((t', c) ∈ PLAIN \/ forall r, r ∈ l -> names c a r = false) -> clean a db t c.
Proof.
  intros Hne E H r Hr. rewrite E in Hr. apply list_elem_of_fmap in Hr as (r0 & -> & Hr).
  apply not_true_iff_false. intros (H1 & H2)%(followed_names s a); [|done].
  destruct H as [H|H]; [done|]. by rewrite H in H1.
Qed.

Lemma settled_clean s a t key db r : s <> a -> r ∈ settled s a t key db -> names "user_id" a r = false.
Proof.
  intros Hne Hr. unfold settled in Hr. apply list_elem_of_fmap in Hr as (r0 & -> & _).
  apply not_true_iff_false. rewrite names_iff, col_sub.
  rewrite bool_decide_eq_true_2 by done. cbn [andb].
  destruct (names "user_id" a r0) eqn:E; [congruence|]. rewrite <- names_iff. congruence.
Qed.

Lemma addresses_rows s a w : rows (merge_addresses s a w).1 "user_emails" =
  (fun r => if names "user_id" a r then <["is_primary" := CBool false]> (points "user_id" s r) else r)
    <$> rows w.1 "user_emails".
Proof. unfold merge_addresses, counted. cbn [fst]. apply rows_update_eq. Qed.

Lemma addresses_clean s a w : s <> a -> clean a (merge_addresses s a w).1 "user_emails" "user_id".
Proof.
  intros Hne r Hr. rewrite addresses_rows in Hr. apply list_elem_of_fmap in Hr as (r0 & -> & _).
  destruct (names "user_id" a r0) eqn:E; [|done].
  apply not_true_iff_false. rewrite names_iff, col_insert, decide_False by done.
  unfold points. rewrite col_insert, decide_True by done. congruence.
Qed.

Lemma special_cases t c : (t, c) ∈ SPECIAL -> c = "user_id" /\ (t = "user_roles" \/ t = "user_emails").
Proof. unfold SPECIAL. rewrite !elem_of_cons, elem_of_nil. intros. destruct_or! H; naive_solver. Qed.

Lemma plain_apart t c : (t, c) ∈ PLAIN ->
  t <> "user_roles" /\ t <> "access_rules" /\ t <> "user_emails".
Proof.
  intros H. repeat split; intros ->; apply (bool_decide_eq_true_2 _) in H; vm_compute in H;
    by destruct c; try done.
Qed.

(** No column the merge re-points names the absorbed account any more. *)
Lemma repoint_clean s a db t c : s <> a -> listed t c -> clean a (repoint s a db).1 t c.
Proof.
  intros Hne Hl.
  destruct (decide (t ∈ UNIQUE_PAIRS.*1)) as [Hp|Hp].
  - apply list_elem_of_fmap in Hp as ([t' key] & -> & Hp). cbn [fst] in *.
    eapply followed_clean; [done | by apply repoint_pair|].
    destruct Hl as [Hl|Hl]; [by left|]. right. intros r Hr.
    assert (c = "user_id") as -> by (destruct Hl as [[-> _]|H%special_cases]; naive_solver).
    by eapply settled_clean.
  - destruct Hl as [Hl|[[_ Hl]|Hl]]; [|done|].
    + destruct (plain_apart t c Hl) as (N1 & N2 & N3).
      eapply followed_clean; [done | by apply repoint_rest|]. by left.
    + apply special_cases in Hl as [-> [-> | ->]].
      * eapply followed_clean; [done | by apply repoint_rest|]. right.
        by apply merge_roles_spec.
      * unfold repoint. by apply addresses_clean.
Qed.

Lemma rules_gone s a w r : s <> a -> r ∈ rows (merge_addresses s a (merge_rules s a w)).1 "access_rules" ->
  user_rule a r = false.
Proof.
  intros Hne Hr. unfold merge_addresses, merge_rules, counted in Hr. cbn [fst] in Hr.
  rewrite rows_update_ne, rows_delete, decide_True in Hr by done.
  apply elem_of_lfilter in Hr as [_ Hr]. by apply negb_true_iff in Hr.
Qed.

Lemma texts_gone s a db t c r : s <> a -> (t, c) ∈ TEXT_REFS -> t ∉ thinned ->
  r ∈ rows (repoint s a db).1 t -> names_text c a r = false.
Proof.
  intros Hne Hc Ht Hr. rewrite repoint_history in Hr by done.
  apply list_elem_of_fmap in Hr as (r0 & -> & _). apply not_true_iff_false.
  rewrite names_text_iff, (followed_spec s a t r0 Hne c), (bool_decide_eq_true_2 _ Hc). cbn [andb].
  destruct (_ && names c a r0); [done|].
  destruct (names_text c a r0) eqn:E; [intros [= H]; by apply uuid_show_inj in H|].
  rewrite <- names_text_iff. congruence.
Qed.

(** ** Deleting the row *)

(** Every reference is handled: re-pointed, or meant to go with the account. *)
Definition covers : Prop := forall t c act, (t, c, act) ∈ references ->
  listed t c \/ ((t, c) ∈ DROPPED /\ act = Cascade).

Lemma fmap_unchanged {A} (f : A -> A) (l : list A) : (forall x, x ∈ l -> f x = x) -> f <$> l = l.
Proof.
  induction l as [|x l IH]; intros H; [done|]. cbn. rewrite (H x) by left. f_equal.
  apply IH. intros y Hy. apply H. by right.
Qed.

Lemma filter_all {A} (f : A -> bool) (l : list A) : (forall x, x ∈ l -> f x = true) -> List.filter f l = l.
Proof.
  induction l as [|x l IH]; intros H; [done|]. cbn. rewrite (H x) by left. f_equal.
  apply IH. intros y Hy. apply H. by right.
Qed.

Lemma on_delete_clean a db t c act t' : clean a db t c -> rows (on_delete a db (t, c, act)) t' = rows db t'.
Proof.
  intros H. destruct act; cbn [on_delete]; [done| |].
  - rewrite rows_set. case_decide; [subst t'|done]. apply fmap_unchanged. intros r Hr. by rewrite H.
  - rewrite rows_delete. case_decide; [subst t'|done]. apply filter_all. intros r Hr. by rewrite H.
Qed.

(** Deleting takes the links of the account and leaves every other table as it is. *)
Lemma deleted_rows a l : forall db,
  (forall t c act, (t, c, act) ∈ l -> clean a db t c \/ ((t, c) ∈ DROPPED /\ act = Cascade)) ->
  let db' := foldl (on_delete a) db l in
  (forall t, t ∉ DROPPED.*1 -> rows db' t = rows db t) /\
  (forall t r, r ∈ rows db' t -> r ∈ rows db t) /\
  (forall t c act, (t, c, act) ∈ l -> clean a db' t c) /\ members db' = members db /\
  merge_ids db' = merge_ids db /\ merge_clock db' = merge_clock db.
Proof.
  induction l as [|[[t c] act] l IH]; intros db H; [cbn [foldl]; set_solver|].
  cbn [foldl]. set (db0 := on_delete a db (t, c, act)).
  assert (forall t r, r ∈ rows db0 t -> r ∈ rows db t) as Hsub.
  { intros t' r Hr. destruct (H t c act) as [Hc|[Hd ->]]; [by left | |].
    - unfold db0 in Hr. by rewrite on_delete_clean in Hr.
    - unfold db0 in Hr. cbn [on_delete] in Hr. rewrite rows_delete in Hr.
      case_decide; [by apply elem_of_lfilter in Hr as [Hr _] | done]. }
  assert (clean a db0 t c) as Hcl.
  { destruct (H t c act) as [Hc|[Hd ->]]; [by left | |].
    - intros r Hr. apply Hc. by apply Hsub.
    - intros r Hr. unfold db0 in Hr. cbn [on_delete] in Hr.
      rewrite rows_delete, decide_True in Hr by done.
      apply elem_of_lfilter in Hr as [_ Hr]. by apply negb_true_iff in Hr. }
  destruct (IH db0) as (H1 & H2 & H3 & H4 & H5 & H6).
  { intros t' c' act' Hin. destruct (H t' c' act') as [Hc|Hd]; [by right| |by right].
    left. intros r Hr. apply Hc. by apply Hsub. }
  repeat split.
  - intros t' Ht'. rewrite H1 by done. destruct (H t c act) as [Hc|[Hd ->]]; [by left | |].
    + by apply on_delete_clean.
    + unfold db0. cbn [on_delete]. rewrite rows_delete, decide_False; [done|].
      intros ->. apply Ht'. by apply (list_elem_of_fmap_2 fst DROPPED (t', c)).
  - intros t' r Hr. by apply Hsub, H2.
  - intros t' c' act' [[= -> -> ->]|Hin]%elem_of_cons; [|by eapply H3].
    intros r Hr. apply Hcl. by apply H2.
  - rewrite H4. by destruct act.
  - rewrite H5. by destruct act.
  - rewrite H6. by destruct act.
Qed.

(** ** The transaction, opened *)

Lemma execute_error db g sv ab ack actor db' e :
  execute references db g sv ab ack actor = (db', inr e) -> db' = db.
Proof.
  unfold execute. case_match; [|by intros [= <- _]].
  cbv zeta. destruct (repoint _ _ db) as [db1 m]. intros Hx. case_in Hx; done.
Qed.

Lemma update_survivor_spec sv ab db db' : update_survivor sv ab db = inl db' ->
  (forall t, rows db' t = rows db t) /\ merge_clock db' = merge_clock db /\
  (forall u, is_Some (members db' !! u) <-> is_Some (members db !! u)).
Proof.
  unfold update_survivor. destruct (members db !! mid sv) as [m|] eqn:E; [|intros [= <-]; split_and!; intros; done || reflexivity].
  case_match; [|done]. intros [= <-]. split_and!; [done|done|]. intros u. cbn [set_members members].
  split; destruct (decide (u = mid sv)) as [->|Hu].
  - intros _. rewrite E. by eexists.
  - by rewrite lookup_insert_ne.
  - intros _. rewrite lookup_insert_eq. by eexists.
  - by rewrite lookup_insert_ne.
Qed.

Lemma update_survivor_clock sv ab db db' : update_survivor sv ab db = inl db' ->
  merge_clock db' = merge_clock db.
Proof. intros H. by apply update_survivor_spec in H as (_ & H & _). Qed.

(** The record of the merge itself names two others. *)
Lemma merge_row_clean sv ab actor id now m ws c act :
  mid sv <> mid ab -> actor <> mid ab ->
  listed "user_merges" c \/ (("user_merges", c) ∈ DROPPED /\ act = Cascade) ->
  names c (mid ab) (merge_row sv ab actor id now m ws) = false.
Proof.
  intros Hne Hact Hl. assert (c = "survivor_id" \/ c = "actor_id") as Hc.
  { destruct Hl as [[Hl|[[_ Hl]|Hl]]|[Hl _]].
    - apply in_cols in Hl. rewrite cols_merges in Hl. set_solver.
    - apply (bool_decide_eq_true_2 _) in Hl. by vm_compute in Hl.
    - by apply special_cases in Hl as [_ [? | ?]].
    - unfold DROPPED in Hl. rewrite !elem_of_cons, elem_of_nil in Hl. by destruct_or! Hl. }
  apply not_true_iff_false. rewrite names_iff. unfold col, merge_row.
  destruct Hc as [-> | ->]; cbn [list_to_map foldr fst snd]; simplify_map_eq; congruence.
Qed.

Lemma rows_used db t : rows (used_id db) t = rows db t.
Proof. done. Qed.

Lemma rows_members f db t : rows (set_members f db) t = rows db t.
Proof. done. Qed.

Lemma execute_done db g sv ab ack actor db' o :
  covers -> mid sv <> mid ab -> execute references db g sv ab ack actor = (db', inl o) ->
  let db1 := (repoint (mid sv) (mid ab) db).1 in
  warning_codes (plan db g sv ab) = ack /\
  (moved o = (repoint (mid sv) (mid ab) db).2 /\ outcome_warnings o = warnings (plan db g sv ab)) /\
  (members db' !! mid ab = None /\ is_Some (members db' !! mid sv) /\ actor <> mid ab) /\
  (forall t c act, (t, c, act) ∈ references -> clean (mid ab) db' t c) /\
  (forall t, t ∉ DROPPED.*1 -> t <> "user_merges" -> rows db' t = rows db1 t) /\
  rows db' "user_merges" = rows db1 "user_merges" ++
    [merge_row sv ab actor (merge_id o) (merge_clock db') (moved o) (outcome_warnings o)].
Proof.
  intros Hcov Hne. unfold execute. generalize (plan db g sv ab) as p. intros p.
  case_bool_decide as Hack; [|done]. cbv zeta.
  destruct (repoint (mid sv) (mid ab) db) as [db1 m] eqn:Er.
  pose proof (fun t c => repoint_clean (mid sv) (mid ab) db t c Hne) as Hclean. rewrite Er in Hclean.
  cbn [fst snd] in *. destruct (update_survivor sv ab db1) as [db2|] eqn:Eu; [|done].
  apply update_survivor_spec in Eu as (Hr2 & _ & _).
  unfold delete_absorbed. destruct (members db2 !! mid ab) eqn:Ea; [|done].
  destruct (existsb (restricted (mid ab) db2) references); [done|].
  unfold record_merge. cbn [set_members members].
  destruct (deleted_rows (mid ab) references db2) as (H1 & H2 & H3 & H4 & H5 & H6).
  { intros t c act Hin. destruct (Hcov t c act Hin) as [Hl|Hd]; [left | by right].
    intros r Hin'. rewrite Hr2 in Hin'. by eapply Hclean. }
  rewrite H4. destruct (bool_decide _ && bool_decide _) eqn:Eb; [|done].
  apply andb_true_iff in Eb as [Es Eb]. apply bool_decide_eq_true in Es, Eb.
  assert (actor <> mid ab) as Hact.
  { intros ->. rewrite lookup_delete_eq in Eb. by destruct Eb. }
  assert (rows (foldl (on_delete (mid ab)) db2 references) "user_merges" = rows db1 "user_merges") as Hum.
  { rewrite H1; [apply Hr2|]. by apply (bool_decide_unpack _). }
  generalize dependent (foldl (on_delete (mid ab)) db2 references). intros db3 H1 H2 H3 H4 H5 H6 Hum.
  intros [= <- <-]. cbn [moved outcome_warnings merge_id merge_clock].
  split; [done|]. split; [done|]. split.
  { cbn [used_id set_rows set_members members]. by rewrite H4, lookup_delete_eq. }
  split; [|split].
  - intros t c act Hin r Hr. rewrite rows_used, rows_set in Hr. case_decide as Et.
    + subst t. apply elem_of_app in Hr as [Hr|Hr%list_elem_of_singleton]; [by eapply H3|]. subst r.
      by eapply merge_row_clean, Hcov.
    + by eapply H3.
  - intros t Ht Hm. rewrite rows_used, rows_set, decide_False, rows_members by congruence.
    rewrite H1 by done. apply Hr2.
  - rewrite rows_used, rows_set, decide_True, !rows_members by done. by rewrite Hum.
Qed.

(** ** What holds after a merge *)

Lemma texts_apart t c : (t, c) ∈ TEXT_REFS -> t ∉ thinned /\ t ∉ DROPPED.*1 /\ t <> "user_merges".
Proof.
  intros H. rewrite text_refs_are, !elem_of_cons, elem_of_nil in H.
  destruct_or! H; simplify_eq; (split; [|split; [|done]]); by apply (bool_decide_unpack _).
Qed.

Lemma pairs_apart (t key : string) : (t, key) ∈ UNIQUE_PAIRS ->
  t ∉ DROPPED.*1 /\ t <> "user_merges" /\
  (forall c, c = "user_id" \/ c = key -> (t, c) ∉ PLAIN /\ (t, c) ∉ TEXT_REFS).
Proof.
  intros H. pose proof pairs_kept as Hk. pose proof pair_columns as Hc.
  rewrite Forall_forall in Hk, Hc. specialize (Hk _ H). specialize (Hc _ H). cbn [fst snd] in *.
  split_and!; [apply Hk | apply Hk |]. intros c Hcc. rewrite <- !in_cols. by apply Hc.
Qed.

(** C22. A merge moves every mention of the absorbed account before it deletes it, provided
    every foreign key to users is on one of the lists: in the tables as the statements of
    the merge leave them no foreign key names it but those of the single-use links, so
    that the deletion changes no other table; and afterwards the account is gone, the
    survivor is there, and no foreign key, no account name of a course and no access rule
    that spells its identifier as identifiers print names it. *)
Theorem merge_leaves_no_mention db g sv ab ack actor db' o :
  covers -> mid sv <> mid ab -> execute references db g sv ab ack actor = (db', inl o) ->
  let moved := (repoint (mid sv) (mid ab) db).1 in
  (forall t c act r, (t, c, act) ∈ references -> (t, c) ∉ DROPPED -> r ∈ rows moved t -> names c (mid ab) r = false) /\
  (forall t, t ∉ DROPPED.*1 -> t <> "user_merges" -> rows db' t = rows moved t) /\
  members db' !! mid ab = None /\ is_Some (members db' !! mid sv) /\
  (forall t c act r, (t, c, act) ∈ references -> r ∈ rows db' t -> names c (mid ab) r = false) /\
  (forall t c r, (t, c) ∈ TEXT_REFS -> r ∈ rows db' t -> names_text c (mid ab) r = false) /\
  (forall r, r ∈ rows db' "access_rules" -> user_rule (mid ab) r = false).
Proof.
  intros Hcov Hne He moved. destruct (execute_done _ _ _ _ _ _ _ _ Hcov Hne He)
    as (_ & _ & (Ha & Hs & _) & Hclean & Hrows & _).
  split; [|split; [done|split; [done|split; [done|split; [|split]]]]].
  - intros t c act r Hin Hd Hr. destruct (Hcov t c act Hin) as [Hl|[Hl _]]; [|done].
    by eapply (repoint_clean (mid sv) (mid ab) db t c).
  - intros t c act r Hin Hr. by eapply Hclean.
  - intros t c r Hin Hr. destruct (texts_apart t c Hin) as (H1 & H2 & H3).
    rewrite Hrows in Hr by done. by eapply texts_gone.
  - intros r Hr. rewrite Hrows in Hr by (done || by apply (bool_decide_unpack _)).
    unfold repoint in Hr. by eapply rules_gone.
Qed.

(** C23. A merge keeps the history: in every table but the ones it thins by hand and the
    single-use links, each row is still there, in its place, with every column as it was
    save that the columns of the lists name the survivor where they named the absorbed
    account; the record of merges gains one row, which says what was moved. *)
Theorem merge_keeps_history db g sv ab ack actor db' o :
  covers -> mid sv <> mid ab -> execute references db g sv ab ack actor = (db', inl o) ->
  (forall t, t ∉ thinned -> t ∉ DROPPED.*1 -> t <> "user_merges" ->
    Forall2 (same_but (mid sv) (mid ab) t) (rows db t) (rows db' t)) /\
  exists l, Forall2 (same_but (mid sv) (mid ab) "user_merges") (rows db "user_merges") l /\
    rows db' "user_merges" =
      l ++ [merge_row sv ab actor (merge_id o) (merge_clock db') (moved o) (outcome_warnings o)].
Proof.
  intros Hcov Hne He. destruct (execute_done _ _ _ _ _ _ _ _ Hcov Hne He)
    as (_ & _ & _ & _ & Hrows & Hm).
  assert (forall t, t ∉ thinned ->
    Forall2 (same_but (mid sv) (mid ab) t) (rows db t) (rows (repoint (mid sv) (mid ab) db).1 t)) as H.
  { intros t Ht. rewrite repoint_history by done. apply Forall2_fmap_r, Forall_Forall2_diag, Forall_forall.
    intros r _. by apply followed_spec. }
  split.
  - intros t Ht Hd Hu. rewrite Hrows by done. by apply H.
  - eexists. split; [|exact Hm]. apply H. by apply (bool_decide_unpack _).
Qed.

(** A merge that is refused or fails leaves everything as it was; it is refused
    unless exactly the warnings of the moment were acknowledged, and then answers them. *)
Theorem merge_is_acknowledged db g sv ab ack actor db' res :
  execute references db g sv ab ack actor = (db', res) ->
  match res with
  | inl o => warning_codes (plan db g sv ab) = ack /\ outcome_warnings o = warnings (plan db g sv ab)
  | inr (Unacknowledged p) => db' = db /\ p = plan db g sv ab /\ warning_codes p <> ack
  | inr (Diesel e) => db' = db /\ warning_codes (plan db g sv ab) = ack
  end.
Proof.
  unfold execute. generalize (plan db g sv ab) as p. intros p.
  case_bool_decide as Hack; [|by intros [= <- <-]].
  cbv zeta. destruct (repoint _ _ db) as [db1 m]. intros Hx. case_in Hx; done.
Qed.

(** ** The ledger *)

Definition amount (r : Row) : Q := match col r "amount" with CNum q => q | _ => 0%Q end.

(** [user_balance] ([server/src/database.rs]) over these rows. *)
Definition balance_of (db : MergeDb) (u : uuid) : Q :=
  total (amount <$> List.filter (names "user_id" u) (rows db "membership_ledger")).

Lemma ledger_row s a r r' : s <> a -> same_but s a "membership_ledger" r r' ->
  amount r' = amount r /\ forall u, names "user_id" u r' =
    if decide (u = s) then names "user_id" s r || names "user_id" a r
    else if decide (u = a) then false else names "user_id" u r.
Proof.
  intros Hne H. destruct (ledger_columns) as (L1 & L2 & L3 & L4). split.
  - unfold amount. rewrite (H "amount"). rewrite (bool_decide_eq_false_2 _ L1), (bool_decide_eq_false_2 _ L2).
    done.
  - intros u. specialize (H "user_id").
    rewrite (bool_decide_eq_true_2 _ L3), (bool_decide_eq_false_2 _ L4) in H. cbn [andb] in H.
    unfold names at 1. rewrite H. destruct (names "user_id" a r) eqn:Ea.
    + apply names_iff in Ea. cbn [same]. case_decide as E1; [subst; rewrite bool_decide_eq_true_2 by done; by rewrite orb_true_r|].
      rewrite bool_decide_eq_false_2 by congruence. case_decide as E2; [done|].
      symmetry. apply not_true_iff_false. rewrite names_iff. congruence.
    + fold (names "user_id" u r). case_decide as E1; [subst; by rewrite orb_false_r|].
      case_decide as E2; [by subst|done].
Qed.

Lemma balances_follow s a l l' : s <> a -> Forall2 (same_but s a "membership_ledger") l l' ->
  let bal u l := total (amount <$> List.filter (names "user_id" u) l) in
  (bal s l' == bal s l + bal a l)%Q /\ (forall u, u <> s -> u <> a -> bal u l' == bal u l)%Q.
Proof.
  intros Hne HF. cbn zeta. induction HF as [|r r' l l' Hr HF IH]; [by split|].
  destruct IH as [IH1 IH2]. destruct (ledger_row s a r r' Hne Hr) as [Ham Hn].
  cbn [List.filter]. split.
  - rewrite Hn, decide_True by done. destruct (names "user_id" s r) eqn:Es; cbn [orb].
    + assert (names "user_id" a r = false) as ->.
      { apply not_true_iff_false. intros Ha%names_iff. apply names_iff in Es. congruence. }
      rewrite !fmap_cons, !total_cons, IH1, Ham. ring.
    + destruct (names "user_id" a r); [|exact IH1]. rewrite !fmap_cons, !total_cons, IH1, Ham. ring.
  - intros u Hs Ha. rewrite Hn, !decide_False by done. destruct (names "user_id" u r); [|by apply IH2].
    rewrite !fmap_cons, !total_cons, Ham, (IH2 u Hs Ha). ring.
Qed.

(** A merge adds the balances: what the survivor has after it is what the two had,
    and nobody else's balance changes. *)
Theorem merge_adds_balances db g sv ab ack actor db' o :
  covers -> mid sv <> mid ab -> execute references db g sv ab ack actor = (db', inl o) ->
  (balance_of db' (mid sv) == balance_of db (mid sv) + balance_of db (mid ab))%Q /\
  (forall u, u <> mid sv -> u <> mid ab -> balance_of db' u == balance_of db u)%Q.
Proof.
  intros Hcov Hne He. destruct (execute_done _ _ _ _ _ _ _ _ Hcov Hne He)
    as (_ & _ & _ & _ & Hrows & _).
  unfold balance_of. apply balances_follow; [done|].
  rewrite Hrows by (done || by apply (bool_decide_unpack _)).
  rewrite repoint_history by (done || by apply (bool_decide_unpack _)).
  apply Forall2_fmap_r, Forall_Forall2_diag, Forall_forall. intros r _. by apply followed_spec.
Qed.

(** ** The pairs kept unique *)

Definition holds (key : string) (u k : uuid) (r : Row) : bool := names "user_id" u r && names key k r.

(** [UNIQUE (user_id, key)]. *)
Definition one_each (key : string) (l : list Row) : Prop :=
  forall u k, (length (List.filter (holds key u k) l) <= 1)%nat.

Lemma filter_fmap_length {A B} (f : B -> bool) (h : A -> B) l :
  length (List.filter f (h <$> l)) = length (List.filter (fun x => f (h x)) l).
Proof. induction l as [|x l IH]; [done|]. cbn. destruct (f (h x)); cbn; by rewrite IH. Qed.

Lemma filter_filter_length {A} (f h : A -> bool) l :
  length (List.filter f (List.filter h l)) = length (List.filter (fun x => h x && f x) l).
Proof. induction l as [|x l IH]; [done|]. cbn. destruct (h x); cbn; [|done]. destruct (f x); cbn; by rewrite IH. Qed.

Lemma filter_length_le {A} (f h : A -> bool) l : (forall x, x ∈ l -> f x = true -> h x = true) ->
  (length (List.filter f l) <= length (List.filter h l))%nat.
Proof.
  induction l as [|x l IH]; intros H; [done|]. cbn.
  assert (length (List.filter f l) <= length (List.filter h l))%nat as Hl.
  { apply IH. intros y Hy. apply H. by right. }
  destruct (f x) eqn:Ef; [rewrite (H x) by (done || by left); cbn; lia|].
  destruct (h x); cbn; lia.
Qed.

Lemma followed_pair (s a : uuid) (t key : string) (r : Row) : s <> a -> (t, key) ∈ UNIQUE_PAIRS ->
  let r' := followed s a t (sub s a r "user_id") in
  (col r' "user_id" = if names "user_id" a r then CUuid s else col r "user_id") /\
  (key <> "user_id" -> col r' key = col r key).
Proof.
  intros Hne Ht. destruct (pairs_apart t key Ht) as (_ & _ & Hc). split.
  - rewrite (followed_spec s a t _ Hne "user_id"). destruct (Hc "user_id") as [C1 C2]; [by left|].
    rewrite (bool_decide_eq_false_2 _ C1), (bool_decide_eq_false_2 _ C2). cbn [andb]. by rewrite col_sub.
  - intros Hk. rewrite (followed_spec s a t _ Hne key). destruct (Hc key) as [C1 C2]; [by right|].
    rewrite (bool_decide_eq_false_2 _ C1), (bool_decide_eq_false_2 _ C2). cbn [andb].
    by rewrite col_sub, bool_decide_eq_false_2.
Qed.

Lemma one_each_settled (s a : uuid) (t key : string) db : s <> a -> (t, key) ∈ UNIQUE_PAIRS ->
  key <> "user_id" -> one_each key (rows db t) -> one_each key (followed s a t <$> settled s a t key db).
Proof.
  intros Hne Ht Hk H u k. unfold settled. rewrite <- list_fmap_compose, filter_fmap_length, filter_filter_length.
  assert (forall r, holds key u k ((followed s a t ∘ (fun r => sub s a r "user_id")) r) =
    (if names "user_id" a r then bool_decide (u = s) else names "user_id" u r) && names key k r) as Hh.
  { intros r. unfold compose. destruct (followed_pair s a t key r Hne Ht) as [H1 H2]. specialize (H2 Hk).
    unfold holds, names in *. rewrite H1, H2. destruct (same (col r "user_id") (CUuid a)); [|done].
    cbn [same]. f_equal. apply bool_decide_ext. by split. }
  destruct (decide (u = s)) as [->|Hu].
  - destruct (existsb (holds key s k) (rows db t)) eqn:Ex.
    + apply existsb_elem in Ex as (r0 & Hr0 & Hs). etrans; [|apply (H s k)]. apply filter_length_le. intros r Hr E. rewrite Hh in E.
      apply andb_true_iff in E as [Hc E]. apply andb_true_iff in E as [E Hkk].
      unfold holds. rewrite Hkk, andb_true_r. destruct (names "user_id" a r) eqn:Ea; [|done].
      exfalso. apply negb_true_iff in Hc. unfold pair_colliding in Hc. rewrite Ea in Hc. cbn [andb] in Hc.
      apply not_true_iff_false in Hc. apply Hc. apply existsb_elem. exists r0. split; [done|].
      apply andb_true_iff in Hs as [Hs Hk0]. rewrite Hs. cbn [andb]. apply names_iff in Hk0, Hkk.
      rewrite Hk0, Hkk. cbn [same]. by apply bool_decide_eq_true.
    + etrans; [|apply (H a k)]. apply filter_length_le. intros r Hr E. rewrite Hh in E.
      apply andb_true_iff in E as [_ E]. apply andb_true_iff in E as [E Hkk].
      unfold holds. rewrite Hkk, andb_true_r. destruct (names "user_id" a r) eqn:Ea; [done|].
      exfalso. apply not_true_iff_false in Ex. apply Ex. apply existsb_elem. exists r. split; [done|]. unfold holds. by rewrite E, Hkk.
  - etrans; [|apply (H u k)]. apply filter_length_le. intros r Hr E. rewrite Hh in E.
    apply andb_true_iff in E as [_ E]. apply andb_true_iff in E as [E Hkk].
    unfold holds. rewrite Hkk, andb_true_r. destruct (names "user_id" a r) eqn:Ea; [|done].
    by rewrite bool_decide_eq_false_2 in E.
Qed.

(** A merge keeps the five (user, key) pairs unique, and where the two accounts hold
    different keys nothing is lost: each row of somebody else or of the survivor stays
    theirs, and each of the absorbed account's becomes the survivor's unless the survivor
    already holds its key. *)
Theorem merge_keeps_pairs db g sv ab ack actor db' o (t key : string) :
  covers -> mid sv <> mid ab -> execute references db g sv ab ack actor = (db', inl o) ->
  (t, key) ∈ UNIQUE_PAIRS ->
  (one_each key (rows db t) -> one_each key (rows db' t)) /\
  forall r, r ∈ rows db t -> pair_colliding db t key (mid sv) (mid ab) r = false ->
    exists r', r' ∈ rows db' t /\ col r' key = col r key /\
      col r' "user_id" = if names "user_id" (mid ab) r then CUuid (mid sv) else col r "user_id".
Proof.
  intros Hcov Hne He Ht. destruct (execute_done _ _ _ _ _ _ _ _ Hcov Hne He)
    as (_ & _ & _ & _ & Hrows & _).
  destruct (pairs_apart t key Ht) as (Hd & Hu & _).
  assert (key <> "user_id") as Hk.
  { rewrite pairs_are, !elem_of_cons, elem_of_nil in Ht. by destruct_or! Ht; simplify_eq. }
  rewrite Hrows, (repoint_pair _ _ _ _ key) by done. split.
  - intros H. by apply one_each_settled.
  - intros r Hr Hc. exists (followed (mid sv) (mid ab) t (sub (mid sv) (mid ab) r "user_id")).
    destruct (followed_pair (mid sv) (mid ab) t key r Hne Ht) as [H1 H2]. split_and!; [|by apply H2|done].
    apply list_elem_of_fmap. eexists. split; [done|]. apply list_elem_of_fmap.
    exists r. split; [done|]. apply elem_of_lfilter. by rewrite Hc.
Qed.

(** ** Roles and addresses *)

Lemma roles_for_rows db db' u : rows db' "user_roles" = rows db "user_roles" ->
  roles_for db' u = roles_for db u.
Proof. unfold roles_for. by intros ->. Qed.

Lemma repoint_roles s a db : s <> a ->
  rows (repoint s a db).1 "user_roles" = rows (merge_roles s a (db, ∅)).1 "user_roles".
Proof.
  intros Hne. rewrite repoint_rest; [|done..|by apply (bool_decide_unpack _)].
  apply fmap_unchanged. intros r _. unfold followed. destruct cols_roles as [-> ->]. done.
Qed.

Lemma effective_level_ext g (l l' : list uuid) : (forall x, x ∈ l <-> x ∈ l') ->
  effective_level g l = effective_level g l'.
Proof.
  intros H. unfold effective_level. replace (closure g l') with (closure g l); [done|].
  apply set_eq. intros x. rewrite !closure_iff. by setoid_rewrite H.
Qed.

(** A merge gives the survivor the roles of both, and never raises their level
    unless that was acknowledged. *)
Theorem merge_grants_knowingly db g sv ab ack actor db' o :
  covers -> mid sv <> mid ab -> execute references db g sv ab ack actor = (db', inl o) ->
  (forall role, role ∈ roles_for db' (mid sv) <-> role ∈ roles_for db (mid sv) \/ role ∈ roles_for db (mid ab)) /\
  (effective_level g (roles_for db (mid sv)) < effective_level g (roles_for db' (mid sv)) ->
    "roles_raise_level" ∈ ack).
Proof.
  intros Hcov Hne He. destruct (execute_done _ _ _ _ _ _ _ _ Hcov Hne He)
    as (<- & _ & _ & _ & Hrows & _).
  assert (forall role, role ∈ roles_for db' (mid sv) <->
    role ∈ roles_for db (mid sv) \/ role ∈ roles_for db (mid ab)) as Hr.
  { rewrite (roles_for_rows (merge_roles (mid sv) (mid ab) (db, ∅)).1 db').
    - by apply merge_roles_spec.
    - rewrite Hrows by (done || by apply (bool_decide_unpack _)). by apply repoint_roles. }
  split; [exact Hr|].
  rewrite (effective_level_ext g (roles_for db' (mid sv)) (roles_for db (mid sv) ++ roles_for db (mid ab))).
  2:{ intros x. rewrite Hr, elem_of_app. done. }
  intros Hl. unfold warning_codes. apply elem_of_list_to_set. cbn [plan warnings].
  rewrite !fmap_app, !elem_of_app. right. left. unfold role_warnings, warn.
  apply Z.ltb_lt in Hl. rewrite Hl. by left.
Qed.

(** The primary address of a user. *)
Definition primary_of (u : uuid) (r : Row) : bool :=
  names "user_id" u r && same (col r "is_primary") (CBool true).

Lemma repoint_addresses s a db : s <> a -> rows (repoint s a db).1 "user_emails" =
  (fun r => if names "user_id" a r then <["is_primary" := CBool false]> (points "user_id" s r) else r)
    <$> rows db "user_emails".
Proof.
  intros Hne. unfold repoint. rewrite addresses_rows. f_equal.
  unfold merge_rules, counted. cbn [fst]. rewrite rows_delete, decide_False, rows_update_ne by done.
  rewrite rows_texts, rows_plain. destruct cols_emails as [-> ->]. cbn [foldl].
  rewrite rows_pairs by (done || apply pairs_nodup). rewrite emails_unpaired.
  destruct (merge_roles_spec s a (db, ∅) Hne) as (H & _). rewrite H by done.
  etrans; [apply list_fmap_id|]. apply list_fmap_id.
Qed.

(** A merge leaves nobody with two primary addresses, the survivor's own is still
    theirs, and each address of the absorbed account is a secondary of the survivor. *)
Theorem merge_keeps_one_primary db g sv ab ack actor db' o :
  covers -> mid sv <> mid ab -> execute references db g sv ab ack actor = (db', inl o) ->
  (forall u, (length (List.filter (primary_of u) (rows db' "user_emails")) <=
              length (List.filter (primary_of u) (rows db "user_emails")))%nat) /\
  (forall r, r ∈ rows db "user_emails" -> names "user_id" (mid ab) r = false -> r ∈ rows db' "user_emails") /\
  (forall r, r ∈ rows db "user_emails" -> names "user_id" (mid ab) r = true ->
    exists r', r' ∈ rows db' "user_emails" /\ col r' "email" = col r "email" /\
      names "user_id" (mid sv) r' = true /\ primary_of (mid sv) r' = false).
Proof.
  intros Hcov Hne He. destruct (execute_done _ _ _ _ _ _ _ _ Hcov Hne He)
    as (_ & _ & _ & _ & Hrows & _).
  rewrite Hrows, repoint_addresses by (done || by apply (bool_decide_unpack _)). split_and!.
  - intros u. rewrite filter_fmap_length. apply filter_length_le. intros r _.
    destruct (names "user_id" (mid ab) r); [|done]. unfold primary_of.
    rewrite col_insert, decide_True by done. cbn [same Bool.eqb]. by rewrite andb_false_r.
  - intros r Hr Hn. apply list_elem_of_fmap. exists r. by rewrite Hn.
  - intros r Hr Hn. eexists. split; [apply list_elem_of_fmap; exists r; rewrite Hn; by split|].
    unfold points. rewrite !col_insert, !decide_False by done. split_and!; [done| |].
    + apply names_iff. by rewrite !col_insert, decide_False, decide_True.
    + unfold primary_of. rewrite col_insert, decide_True by done. apply andb_false_r.
Qed.

(** ** Who may merge whom *)

Definition level_in (st : Merging) (u : uuid) : Z :=
  effective_level (graph st) (roles_for (merge_db st) u).

Definition vetted (actor user absorbed : uuid) (st : Merging) (p : Member * Member) : Prop :=
  user <> absorbed /\ actor <> user /\ actor <> absorbed /\
  members (merge_db st) !! user = Some p.1 /\ members (merge_db st) !! absorbed = Some p.2 /\
  level_in st user < level_in st actor /\ level_in st absorbed < level_in st actor.

#[local] Existing Instance MergeApi_fault.

Lemma reads_load u message : reads (load u message) (fun st m => members (merge_db st) !! u = Some m).
Proof.
  unfold load. eapply reads_bind; [apply reads_map_err, reads_select|].
  intros [m|]; [by apply reads_ret | apply reads_throw].
Qed.

Lemma reads_below l who u : reads (below l who u) (fun st _ => level_in st u < l).
Proof.
  unfold below. eapply reads_bind; [apply reads_map_err, reads_select|].
  intros v. destruct (l <=? v) eqn:E; [apply reads_throw|]. apply reads_ret.
  intros st ->. by apply Z.leb_gt.
Qed.

Lemma reads_parties actor user absorbed : reads (merge_parties actor user absorbed) (vetted actor user absorbed).
Proof.
  unfold merge_parties. case_bool_decide as E1; [apply reads_throw|].
  destruct (_ || _) eqn:E2; [apply reads_throw|]. split_andb.
  eapply reads_bind; [apply reads_load|]. intros s. eapply reads_bind; [apply reads_load|]. intros a.
  eapply reads_bind; [apply reads_map_err, reads_select|]. intros l.
  eapply reads_bind; [apply reads_below|]. intros u1. eapply reads_bind; [apply reads_below|]. intros u2.
  apply reads_ret. intros st H4 H3 -> H2 H1. by split_and!.
Qed.

(** Whatever fails on the way, the tables are as they were after the route of a merge
    unless one was carried out: then it was of two accounts that are not each other nor
    the caller, both strictly below the caller, with exactly its warnings acknowledged;
    and an answer means that it was. *)
Theorem merge_needs_rank actor user absorbed ack st fs :
  let '((st', _), res) := merge_route references actor user absorbed ack (st, fs) in
  (merge_db st' = merge_db st /\ forall x, res <> inl x) \/
  exists p o, vetted actor user absorbed st p /\
    execute references (merge_db st) (graph st) p.1 p.2 (list_to_set ack) actor = (merge_db st', inl o).
Proof.
  set (Q := fun (res : (MergeOutcome * string) + ApiError) (st' : Merging) =>
    (merge_db st' = merge_db st /\ forall x, res <> inl x) \/
    exists p o, vetted actor user absorbed st p /\
      execute references (merge_db st) (graph st) p.1 p.2 (list_to_set ack) actor = (merge_db st', inl o)).
  enough (ends (fun st0 => st0 = st) (merge_route references actor user absorbed ack) Q) as H
    by exact (H st fs eq_refl).
  unfold merge_route. eapply (ends_bind _ _ _ (fun p st0 => st0 = st /\ vetted actor user absorbed st p)).
  { eapply ends_post; [apply ends_reads, reads_parties|]. intros [p|e] db [Hst Hp]; subst db.
    - exact (conj eq_refl Hp).
    - left. split; [done | by intros x]. }
  intros [s a]. cbv beta iota. intros db fs0 [Hst Hv]; subst db.
  unfold db_call, map_err, merge_users, call, mbind, M_bind.
  destruct (execute references (merge_db st) (graph st) s a (list_to_set ack) actor) as [db' r] eqn:Ex.
  destruct r as [o|[p|e]]; [|assert (db' = merge_db st) as Hdb by (by eapply execute_error); clear Ex; subst db'..].
  - destruct fs0 as [|[] fs0]; cbn; [right|right|left|right]; try (by exists (s, a), o).
    by split.
  - destruct fs0 as [|[] fs0]; cbn; left; by split.
  - destruct fs0 as [|[] fs0]; cbn; left; by split.
Qed.
End MergeSafety.
End MergeSafety.
