(* ===== verification/Duplicates.v ===== *)
(** * Accounts that may be one person ([server/src/duplicates.rs])

    The report an administrator reads before a merge: which pairs of accounts are
    proposed, and why.  What is proved is that the report misses nothing its rules say
    and invents nothing. *)
From Stdlib Require Import QArith Ascii.
From S2P Require Import Prelude Text Rbac Faults Money AuditLog Database Api Accounts Merge.
Import Text Rbac Faults Audit Database Api Accounts Merge.

Module Duplicates.

#[local] Open Scope string_scope.
#[local] Open Scope list_scope.
#[local] Open Scope Z_scope.

Definition SAME_NAME : string := "same_name".
Definition EMAIL_ALIAS : string := "email_alias".
Definition SHARED_CARD : string := "shared_card".

(** [str::split_whitespace]. *)
Fixpoint words_of (cur : list (list ascii)) (l : list (list ascii)) : list string :=
  match l with
  | [] => match cur with [] => [] | _ => [of_bytes (mjoin (rev cur))] end
  | c :: l =>
      if is_whitespace c
      then match cur with [] => words_of [] l | _ => of_bytes (mjoin (rev cur)) :: words_of [] l end
      else words_of (c :: cur) l
  end.

Definition split_whitespace (s : string) : list string := words_of [] (chars s).

(** [str::rsplit_once] of one byte. *)
Definition rsplit_once (c : ascii) (s : string) : option (string * string) :=
  if contains_byte c s then
    let '(after, before) := split_once c (rev (bytes s)) in
    Some (of_bytes (rev before), of_bytes (rev after))
  else None.

Section Duplicates.
Context {U : Uuid} {IS : IdSource} {CF : CaseFold}.

Definition fold_name (name : string) : string :=
  String.concat " " (to_lowercase <$> split_whitespace name).

Definition fold_email (email : string) : string :=
  let lower := to_lowercase (trim email) in
  match rsplit_once "@"%char lower with
  | None => lower
  | Some (local, domain) =>
      let local := List.filter (fun c => negb (c ≟ "."%char)) (split_once "+"%char (bytes local)).1 in
      of_bytes local +:+ "@" +:+ domain
  end.

Record DuplicateCandidate := {
  cand_a : MergeParty;
  cand_b : MergeParty;
  reasons : list string;
}.

(** [(x.created_at, x.id) <= (y.created_at, y.id)]. *)
Definition no_younger (x y : Member) : bool :=
  let cx := created_at (account (app x)) in let cy := created_at (account (app y)) in
  (cx <? cy) || ((cx =? cy) && uuid_leb (mid x) (mid y)).

Abbreviation Pairs := (gmap (uuid * uuid) (list string)).

Definition older_first (x y : Member) : uuid * uuid :=
  if no_younger x y then (mid x, mid y) else (mid y, mid x).

Definition add_reason (why : string) (rs : list string) : list string :=
  if existsb (fun r => r ≟ why) rs then rs else rs ++ [why].

Definition propose (why : string) (pairs : Pairs) (xy : Member * Member) : Pairs :=
  let '(x, y) := xy in
  if mid x ≟ mid y then pairs
  else let key := older_first x y in <[key := add_reason why (default [] (pairs !! key))]> pairs.

(** Every pair of a group, the earlier first. *)
Fixpoint pairs_of (group : list Member) : list (Member * Member) :=
  match group with
  | [] => []
  | x :: group' => ((fun y => (x, y)) <$> group') ++ pairs_of group'
  end.

(** [BTreeMap<String, Vec<&User>>], and its values in the order of the keys. *)
Definition push (m : gmap string (list Member)) (kv : string * Member) : gmap string (list Member) :=
  <[kv.1 := default [] (m !! kv.1) ++ [kv.2]]> m.

Definition group (kvs : list (string * Member)) : gmap string (list Member) := foldl push ∅ kvs.

Definition values (m : gmap string (list Member)) : list (list Member) :=
  (sort_by (fun x y => String.leb x.1 y.1) (map_to_list m)).*2.

Context (users : list Member) (profile_field : string) (emails_of : uuid -> list string)
  (card_owner : string -> option uuid).

Definition by_id (u : uuid) : option Member := find_first (fun m => mid m ≟ u) (rev users).

Definition by_name : gmap string (list Member) :=
  group (List.filter (fun kv => negb (kv.1 ≟ EmptyString))
    ((fun u => (fold_name (full_name (person (app u))), u)) <$> users)).

Definition by_email : gmap string (list Member) :=
  group (mjoin ((fun u => (fun addr => (fold_email addr, u)) <$> emails_of (mid u)) <$> users)).

(** The card values a profile names. *)
Definition card_values (u : Member) : list string :=
  match json_get (profile (person (app u))) profile_field with
  | Some (JStr s) => [s]
  | Some (JArr items) => omap json_as_str items
  | _ => []
  end.

(** Whoever holds a card this account's profile names. *)
Definition card_holders (u : Member) : list Member :=
  omap (fun v =>
    let v := trim v in
    if v ≟ EmptyString then None
    else match card_owner v with Some owner => by_id owner | None => None end) (card_values u).

Definition proposed : Pairs :=
  let pairs := foldl (propose SAME_NAME) ∅ (mjoin (pairs_of <$> values by_name)) in
  let pairs := foldl (propose EMAIL_ALIAS) pairs (mjoin (pairs_of <$> values by_email)) in
  foldl (propose SHARED_CARD) pairs (mjoin ((fun u => (fun o => (u, o)) <$> card_holders u) <$> users)).

Definition pair_leb (x y : (uuid * uuid) * list string) : bool :=
  if x.1.1 ≟ y.1.1 then uuid_leb x.1.2 y.1.2 else uuid_leb x.1.1 y.1.1.

Definition candidate (kv : (uuid * uuid) * list string) : option DuplicateCandidate :=
  match by_id kv.1.1, by_id kv.1.2 with
  | Some a, Some b => Some {| cand_a := party a; cand_b := party b; reasons := kv.2 |}
  | _, _ => None
  end.

Definition has_card (c : DuplicateCandidate) : bool := existsb (fun r => r ≟ SHARED_CARD) (reasons c).

(** More reasons first, then a shared card, then the name. *)
Definition stronger (x y : DuplicateCandidate) : bool :=
  match Nat.compare (length (reasons y)) (length (reasons x)) with
  | Lt => true
  | Gt => false
  | Eq =>
      match has_card y, has_card x with
      | false, true => true
      | true, false => false
      | _, _ => String.leb (party_full_name (cand_a x)) (party_full_name (cand_a y))
      end
  end.

Definition candidates : list DuplicateCandidate :=
  sort_by stronger (omap candidate (sort_by pair_leb (map_to_list proposed))).

(** ** Lemmas *)

Lemma pairs_of_in (l : list Member) x y : (x, y) ∈ pairs_of l -> x ∈ l /\ y ∈ l.
Proof.
  induction l as [|z l IH]; cbn [pairs_of]; [by intros H%elem_of_nil|].
  rewrite elem_of_app. intros [H|H].
  - apply list_elem_of_fmap in H as (w & [= -> ->] & H). split; [left | by right].
  - destruct (IH H). split; by right.
Qed.

Lemma pairs_of_both (l : list Member) x y : x <> y -> x ∈ l -> y ∈ l ->
  (x, y) ∈ pairs_of l \/ (y, x) ∈ pairs_of l.
Proof.
  intros Hne. induction l as [|z l IH]; [by intros H%elem_of_nil|]. cbn [pairs_of].
  rewrite !elem_of_app, !elem_of_cons. intros [->|Hx] [->|Hy]; [done| | |].
  - left. left. apply list_elem_of_fmap. by exists y.
  - right. left. apply list_elem_of_fmap. by exists x.
  - destruct (IH Hx Hy); [left | right]; by right.
Qed.

Lemma group_lookup (kvs : list (string * Member)) (k : string) : forall m,
  default [] (foldl push m kvs !! k) =
  default [] (m !! k) ++ (List.filter (fun kv => kv.1 ≟ k) kvs).*2.
Proof.
  induction kvs as [|[k0 u] kvs IH]; intros m; [cbn; by rewrite app_nil_r|].
  cbn [foldl List.filter fst snd]. rewrite IH. unfold push at 1. cbn [fst snd]. destruct (decide (k0 = k)) as [->|Hk].
  - rewrite lookup_insert_eq, bool_decide_eq_true_2 by done. cbn. by rewrite <- app_assoc.
  - by rewrite lookup_insert_ne, bool_decide_eq_false_2.
Qed.

Lemma in_values kvs l u : l ∈ values (group kvs) -> u ∈ l -> exists k, (k, u) ∈ kvs /\
  forall v, v ∈ l <-> (k, v) ∈ kvs.
Proof.
  unfold values. intros Hl Hu. apply list_elem_of_fmap in Hl as ([k l'] & -> & Hl). cbn [snd] in *.
  apply elem_of_sort_by, elem_of_map_to_list in Hl. pose proof (group_lookup kvs k ∅) as Hg.
  unfold group in Hl. rewrite Hl, lookup_empty in Hg. cbn in Hg. subst l'.
  assert (forall v, v ∈ (List.filter (fun kv => kv.1 ≟ k) kvs).*2 <-> (k, v) ∈ kvs) as Hv.
  { intros v. rewrite list_elem_of_fmap. setoid_rewrite elem_of_lfilter.
    setoid_rewrite bool_decide_eq_true. split.
    - intros ([k' v'] & -> & Hin & <-). exact Hin.
    - intros H. by exists (k, v). }
  exists k. split; [by apply Hv | exact Hv].
Qed.

(** Two different accounts are a pair of some group exactly when they share a key. *)
Lemma grouped kvs x y : x <> y ->
  ((x, y) ∈ mjoin (pairs_of <$> values (group kvs)) \/ (y, x) ∈ mjoin (pairs_of <$> values (group kvs))) <->
  exists k, (k, x) ∈ kvs /\ (k, y) ∈ kvs.
Proof.
  intros Hne.
  assert (forall x y, (x, y) ∈ mjoin (pairs_of <$> values (group kvs)) ->
    exists k, (k, x) ∈ kvs /\ (k, y) ∈ kvs) as Hl.
  { clear x y Hne. intros x y H. apply list_elem_of_join in H as (l' & Hxy & Hl).
    apply list_elem_of_fmap in Hl as (l & -> & Hl). apply pairs_of_in in Hxy as [Hx Hy].
    destruct (in_values kvs l x Hl Hx) as (k & Hk & Hv). exists k. split; [done | by apply Hv]. }
  split.
  - intros [H|H]; apply Hl in H; naive_solver.
  - intros (k & Hx & Hy). pose proof (group_lookup kvs k ∅) as Hg. rewrite lookup_empty in Hg. cbn in Hg.
    fold (group kvs) in Hg.
    assert (forall v, (k, v) ∈ kvs -> v ∈ default [] (group kvs !! k)) as Hin.
    { intros v Hv. rewrite Hg. apply (list_elem_of_fmap_2 snd _ (k, v)). apply elem_of_lfilter.
      split; [done|]. by apply bool_decide_eq_true. }
    apply Hin in Hx, Hy. destruct (group kvs !! k) as [l|] eqn:El; cbn in *; [|by apply elem_of_nil in Hx].
    assert (pairs_of l ∈ pairs_of <$> values (group kvs)) as Hp.
    { apply list_elem_of_fmap_2. unfold values. apply (list_elem_of_fmap_2 snd _ (k, l)).
      by apply elem_of_sort_by, elem_of_map_to_list. }
    destruct (pairs_of_both l x y Hne Hx Hy) as [H|H]; [left|right];
      apply list_elem_of_join; by exists (pairs_of l).
Qed.

Lemma in_add_reason why r rs : r ∈ add_reason why rs <-> r ∈ rs \/ r = why.
Proof.
  unfold add_reason. destruct (existsb _ rs) eqn:E.
  - apply existsb_elem in E as (w & Hw & E). apply bool_decide_eq_true in E. set_solver.
  - set_solver.
Qed.

(** What a run of proposals adds. *)
Lemma proposals_reasons why l key r : forall pairs,
  r ∈ default [] (foldl (propose why) pairs l !! key) <->
  r ∈ default [] (pairs !! key) \/
    (r = why /\ exists x y, (x, y) ∈ l /\ mid x <> mid y /\ older_first x y = key).
Proof.
  induction l as [|[x y] l IH]; intros pairs; cbn [foldl].
  - split; [by left | intros [H|(_ & x & y & H%elem_of_nil & _)]; done].
  - rewrite IH. unfold propose. case_bool_decide as E.
    + split; (intros [H|(-> & x' & y' & H & Hr)]; [by left | right; split; [done|]; exists x', y'; set_solver]).
    + destruct (decide (older_first x y = key)) as [<-|Hk].
      * rewrite lookup_insert_eq. cbn [default from_option id]. rewrite in_add_reason. split.
        -- intros [[H| ->]|(-> & x' & y' & H & Hr)]; [by left| |]; right; (split; [done|]).
           ++ exists x, y. split; [left | done].
           ++ exists x', y'. split; [by right | done].
        -- intros [H|(-> & x' & y' & H & Hr)]; [by left; left|]. left. by right.
      * rewrite lookup_insert_ne by done. split.
        -- intros [H|(-> & x' & y' & H & Hr)]; [by left|]. right. split; [done|]. exists x', y'. set_solver.
        -- intros [H|(-> & x' & y' & [[= -> ->]|H]%elem_of_cons & Hn & Hr)]; [by left|done|].
           right. split; [done|]. by exists x', y'.
Qed.

Lemma by_id_found (u : Member) : NoDup (mid <$> users) -> u ∈ users -> by_id (mid u) = Some u.
Proof.
  intros Hn Hu. unfold by_id. assert (u ∈ rev users) as Hr by (rewrite list_elem_of_In, <- in_rev, <- list_elem_of_In; done).
  destruct (find_first_is_Some (fun m => mid m ≟ mid u) (rev users) u Hr) as [v Hv]; [by apply bool_decide_eq_true|].
  rewrite Hv. f_equal. apply find_first_Some in Hv as [Hv E]. apply bool_decide_eq_true in E.
  rewrite list_elem_of_In, <- in_rev, <- list_elem_of_In in Hv.
  apply list_elem_of_lookup in Hu as [i Hi], Hv as [j Hj].
  assert (j = i) as ->; [|congruence]. eapply (NoDup_lookup (mid <$> users)); [done| |].
  - rewrite list_lookup_fmap, Hj. cbn. by rewrite E.
  - by rewrite list_lookup_fmap, Hi.
Qed.

Lemma by_id_Some u m : by_id u = Some m -> m ∈ users /\ mid m = u.
Proof.
  intros H. apply find_first_Some in H as [H E]. apply bool_decide_eq_true in E.
  by rewrite list_elem_of_In, <- in_rev, <- list_elem_of_In in H.
Qed.

Lemma uuid_leb_antisym x y : uuid_leb x y = true -> uuid_leb y x = true -> x = y.
Proof.
  intros H1 H2. pose proof (String.leb_antisym _ _ H1 H2) as E.
  apply (f_equal uuid_parse) in E. rewrite !uuid_parse_show in E. by injection E.
Qed.

Lemma no_younger_total x y : no_younger x y = false -> no_younger y x = true.
Proof.
  unfold no_younger, uuid_leb. intros H. apply orb_false_iff in H as [H1 H2].
  apply Z.ltb_ge in H1. apply orb_true_iff.
  destruct (Z.eqb_spec (created_at (account (app x))) (created_at (account (app y)))) as [E|E].
  - right. rewrite E, Z.eqb_refl. cbn [andb] in *. destruct (String.leb_total (uuid_show (mid x)) (uuid_show (mid y))) as [H|H];
      [congruence|done].
  - left. apply Z.ltb_lt. lia.
Qed.

(** The key of two accounts does not depend on who proposes whom. *)
Lemma older_first_sym x y : mid x <> mid y -> older_first y x = older_first x y.
Proof.
  intros Hne. unfold older_first. destruct (no_younger x y) eqn:E1, (no_younger y x) eqn:E2; try done.
  - exfalso. apply Hne. unfold no_younger in *. apply orb_true_iff in E1, E2.
    rewrite !andb_true_iff, !Z.ltb_lt, !Z.eqb_eq in *. apply uuid_leb_antisym; destruct E1, E2; open_all; try lia; tauto.
  - apply no_younger_total in E1. congruence.
Qed.

Lemma in_candidates (x y : Member) why : NoDup (mid <$> users) -> x ∈ users -> y ∈ users ->
  (exists c, c ∈ candidates /\ cand_a c = party x /\ cand_b c = party y /\ why ∈ reasons c) <->
  why ∈ default [] (proposed !! (mid x, mid y)).
Proof.
  intros Hn Hx Hy. unfold candidates. split.
  - intros (c & Hc & Ha & Hb & Hr). apply elem_of_sort_by in Hc.
    apply list_elem_of_omap in Hc as ([[a b] rs] & Hkv & Hc). apply elem_of_sort_by, elem_of_map_to_list in Hkv.
    unfold candidate in Hc. cbn [fst snd] in Hc.
    destruct (by_id a) as [ma|] eqn:Ea; [|done]. destruct (by_id b) as [mb|] eqn:Eb; [|done].
    injection Hc as <-. cbn [cand_a cand_b reasons] in *.
    apply by_id_Some in Ea as [_ Ea], Eb as [_ Eb].
    apply (f_equal party_id) in Ha, Hb. cbn in Ha, Hb. rewrite <- Ha, <- Hb, Ea, Eb, Hkv. exact Hr.
  - intros Hw. destruct (proposed !! (mid x, mid y)) as [rs|] eqn:E; [|by apply elem_of_nil in Hw].
    exists {| cand_a := party x; cand_b := party y; reasons := rs |}. split_and!; try done.
    apply elem_of_sort_by, list_elem_of_omap. exists ((mid x, mid y), rs). split.
    + by apply elem_of_sort_by, elem_of_map_to_list.
    + unfold candidate. cbn [fst snd]. by rewrite !by_id_found by done.
Qed.

(** A list of proposals about users proposes two of them when it holds them either way. *)
Lemma proposes (l : list (Member * Member)) (x y : Member) :
  NoDup (mid <$> users) -> x ∈ users -> y ∈ users -> mid x <> mid y -> no_younger x y = true ->
  (forall x' y', (x', y') ∈ l -> x' ∈ users /\ y' ∈ users) ->
  (exists x' y', (x', y') ∈ l /\ mid x' <> mid y' /\ older_first x' y' = (mid x, mid y)) <->
  ((x, y) ∈ l \/ (y, x) ∈ l).
Proof.
  intros Hn Hx Hy Hne Hold Hl.
  assert (forall x' y', x' ∈ users -> y' ∈ users -> mid x' = mid x -> mid y' = mid y -> x' = x /\ y' = y) as Hid.
  { intros x' y' H1 H2 E1 E2. apply (by_id_found _ Hn) in H1, H2. rewrite E1, (by_id_found x Hn Hx) in H1.
    rewrite E2, (by_id_found y Hn Hy) in H2. naive_solver. }
  split.
  - intros (x' & y' & Hin & Hne' & Ho). destruct (Hl x' y' Hin) as [H1 H2]. unfold older_first in Ho.
    destruct (no_younger x' y'); injection Ho as E1 E2.
    + destruct (Hid x' y') as [-> ->]; try done. by left.
    + destruct (Hid y' x') as [-> ->]; try done. by right.
  - intros [H|H]; [exists x, y | exists y, x]; split_and!; try done.
    + unfold older_first. by rewrite Hold.
    + rewrite older_first_sym by done. unfold older_first. by rewrite Hold.
Qed.

Lemma grouped_users kvs (x y : Member) : (forall k u, (k, u) ∈ kvs -> u ∈ users) ->
  (x, y) ∈ mjoin (pairs_of <$> values (group kvs)) -> x ∈ users /\ y ∈ users.
Proof.
  intros Hk H. apply list_elem_of_join in H as (l' & Hxy & Hl).
  apply list_elem_of_fmap in Hl as (l & -> & Hl). apply pairs_of_in in Hxy as [Hx Hy].
  destruct (in_values kvs l x Hl Hx) as (k & _ & Hv). apply Hv in Hx, Hy. split; by eapply Hk.
Qed.

Lemma in_named k (u : Member) :
  (k, u) ∈ List.filter (fun kv => negb (kv.1 ≟ EmptyString))
    ((fun u => (fold_name (full_name (person (app u))), u)) <$> users) <->
  u ∈ users /\ k = fold_name (full_name (person (app u))) /\ k <> EmptyString.
Proof.
  rewrite elem_of_lfilter, list_elem_of_fmap, negb_true_iff, bool_decide_eq_false. naive_solver.
Qed.

Lemma in_mailed k (u : Member) :
  (k, u) ∈ mjoin ((fun u => (fun addr => (fold_email addr, u)) <$> emails_of (mid u)) <$> users) <->
  u ∈ users /\ exists e, e ∈ emails_of (mid u) /\ k = fold_email e.
Proof.
  rewrite list_elem_of_join. setoid_rewrite list_elem_of_fmap. split.
  - intros (l & H & v & -> & Hv). apply list_elem_of_fmap in H as (e & [= -> ->] & He). split; [done|]. by exists e.
  - intros (Hu & e & He & ->). eexists. split; [|by exists u]. apply list_elem_of_fmap. by exists e.
Qed.

Lemma in_carded (x y : Member) :
  (x, y) ∈ mjoin ((fun u => (fun o => (u, o)) <$> card_holders u) <$> users) <-> x ∈ users /\ y ∈ card_holders x.
Proof.
  rewrite list_elem_of_join. setoid_rewrite list_elem_of_fmap. split.
  - intros (l & H & v & -> & Hv). by apply list_elem_of_fmap in H as (e & [= -> ->] & He).
  - intros (Hu & H). eexists. split; [|by exists x]. apply list_elem_of_fmap. by exists y.
Qed.

Lemma holders_users (x y : Member) : y ∈ card_holders x -> y ∈ users.
Proof.
  unfold card_holders. intros H. apply list_elem_of_omap in H as (v & _ & Hv). cbv zeta in Hv.
  case_in Hv. by apply by_id_Some in Hv as [Hv _].
Qed.

(** The report proposes exactly what its rules say: two accounts, the older first,
    for their name when the folded names are equal and not empty, for an alias when an
    address of each folds to the same, for a card when the profile of one names a card
    the other holds, and for nothing else. *)
Theorem candidates_iff (x y : Member) why :
  NoDup (mid <$> users) -> x ∈ users -> y ∈ users -> mid x <> mid y -> no_younger x y = true ->
  (exists c, c ∈ candidates /\ cand_a c = party x /\ cand_b c = party y /\ why ∈ reasons c) <->
  (why = SAME_NAME /\ fold_name (full_name (person (app x))) = fold_name (full_name (person (app y))) /\
    fold_name (full_name (person (app x))) <> EmptyString) \/
  (why = EMAIL_ALIAS /\ exists e e', e ∈ emails_of (mid x) /\ e' ∈ emails_of (mid y) /\ fold_email e = fold_email e') \/
  (why = SHARED_CARD /\ (y ∈ card_holders x \/ x ∈ card_holders y)).
Proof.
  intros Hn Hx Hy Hne Hold. rewrite in_candidates by done.
  assert (x <> y) as Hxy by (intros ->; done).
  unfold proposed. rewrite !proposals_reasons, lookup_empty. cbn [default from_option].
  rewrite (proposes (mjoin (pairs_of <$> values by_name))); [|done..|].
  2:{ intros x' y'. apply grouped_users. intros k u. rewrite in_named. tauto. }
  rewrite (proposes (mjoin (pairs_of <$> values by_email))); [|done..|].
  2:{ intros x' y'. apply grouped_users. intros k u. rewrite in_mailed. tauto. }
  rewrite (proposes (mjoin ((fun u => (fun o => (u, o)) <$> card_holders u) <$> users))); [|done..|].
  2:{ intros x' y'. rewrite in_carded. intros [H1 H2]. split; [done | by eapply holders_users]. }
  unfold by_name, by_email. rewrite !grouped, !in_carded by done.
  setoid_rewrite in_named. setoid_rewrite in_mailed. split.
  - intros [[[H|(-> & k & (_ & -> & H) & _ & E & _)]|(-> & k & (_ & e & He & ->) & _ & e' & He' & E)]|(-> & H)].
    + by apply elem_of_nil in H.
    + by left.
    + right. left. split; [done|]. by exists e, e'.
    + right. right. split; [done|]. tauto.
  - intros [(-> & E & H)|[(-> & e & e' & He & He' & E)|(-> & H)]].
    + left. left. right. split; [done|].
      exists (fold_name (full_name (person (app x)))). by split_and!.
    + left. right. split; [done|]. exists (fold_email e). split; (split; [done|]); [by exists e | by exists e'].
    + right. split; [done|]. tauto.
Qed.
End Duplicates.
End Duplicates.
