(* ===== verification/MergeWitnesses.v ===== *)
(** * Two accounts of one member, merged

    Ann signed up twice.  The second account is folded into the first. *)
From Stdlib Require Import QArith.
From S2P Require Import Prelude Text Rbac Faults Money AuditLog Database Api Accounts ServerWitnesses Merge MergeSafety Duplicates.
Import Rbac Faults Money Audit Database Api Accounts Merge MergeSafety Duplicates.

Module MergeExample.

#[local] Open Scope string_scope.
#[local] Open Scope list_scope.
#[local] Open Scope Z_scope.
#[local] Existing Instances string_uuid SpaceExample.ids.

#[local] Instance texts : MergeText := {|
  quoted := fun s => "'" +:+ s +:+ "'"; utc_display := pretty; timestamptz_text := pretty;
  utc_json := pretty; naive_json := pretty |}.

(** The foreign keys to [users] that the migrations leave in place, with what deleting
    the user does. *)
Definition USER_REFERENCES : list (string * string * OnDelete) := [
  ("alert_acknowledgements", "user_id", SetNull);
  ("audit_logs", "user_id", SetNull);
  ("audit_logs", "actor_id", SetNull);
  ("cmi5_courses", "imported_by", SetNull);
  ("cmi5_registrations", "user_id", Cascade);
  ("door_access_events", "user_id", SetNull);
  ("door_checkins", "user_id", Cascade);
  ("doors", "created_by", SetNull);
  ("email_verification_tokens", "user_id", Cascade);
  ("home_links", "created_by", SetNull);
  ("membership_ledger", "user_id", Cascade);
  ("membership_ledger", "created_by", SetNull);
  ("password_reset_tokens", "user_id", Cascade);
  ("power_circuits", "locked_out_by", SetNull);
  ("profile_config_versions", "created_by", SetNull);
  ("resource_sessions", "user_id", SetNull);
  ("schedules", "created_by", SetNull);
  ("space_device_auth_requests", "created_by", SetNull);
  ("tool_events", "user_id", Restrict);
  ("tool_events", "actor_id", Restrict);
  ("tool_tier_assignments", "user_id", Cascade);
  ("tool_tier_assignments", "assigned_by", SetNull);
  ("tool_training_types", "created_by", Restrict);
  ("tool_usage_sessions", "user_id", Cascade);
  ("tools", "created_by", Restrict);
  ("training_instructors", "user_id", Cascade);
  ("training_instructors", "certified_by", Restrict);
  ("training_steps", "created_by", Restrict);
  ("training_waivers", "user_id", Cascade);
  ("training_waivers", "waived_by", SetNull);
  ("user_cards", "user_id", Cascade);
  ("user_emails", "user_id", Cascade);
  ("user_merges", "survivor_id", SetNull);
  ("user_merges", "actor_id", SetNull);
  ("user_mfa_recovery_codes", "user_id", Cascade);
  ("user_mfa_totp", "user_id", Cascade);
  ("user_mfa_webauthn", "user_id", Cascade);
  ("user_roles", "user_id", Cascade);
  ("user_stripe_customers", "user_id", Cascade);
  ("user_tool_training", "user_id", Cascade);
  ("user_tool_training", "trainer_id", Restrict);
  ("user_training_progress", "user_id", Cascade);
  ("user_training_progress", "instructor_id", Restrict);
  ("webhook_auth_headers", "created_by", SetNull);
  ("webhooks", "created_by", SetNull)].

(** As [checks/tests/user_merge_covers_every_user_reference.rs] holds the lists to the
    migrations. *)
Lemma lists_cover : covers USER_REFERENCES.
Proof.
  intros t c act Hin.
  assert (Forall (fun ref => match ref with (t, c, act) =>
      ((t, c) ∈ PLAIN \/ (c = "user_id" /\ t ∈ UNIQUE_PAIRS.*1) \/ (t, c) ∈ SPECIAL) \/
      ((t, c) ∈ DROPPED /\ match act with Cascade => True | _ => False end) end) USER_REFERENCES) as H.
  { unfold USER_REFERENCES.
    repeat (apply Forall_cons; split; [first
      [ left; left; by apply (bool_decide_unpack _)
      | left; right; left; split; [done | by apply (bool_decide_unpack _)]
      | left; right; right; by apply (bool_decide_unpack _)
      | right; split; [by apply (bool_decide_unpack _) | done] ] |]).
    by apply Forall_nil. }
  rewrite Forall_forall in H. specialize (H _ Hin). cbn in H. destruct H as [H|[H1 H2]]; [by left|].
  right. split; [done|]. by destruct act.
Qed.

(** ** The space *)

Definition ladder : RoleGraph :=
  from_rows [("member", "member", 2); ("staff", "staff", 3); ("admin", "admin", 4)] [] [].

Definition member_row (u name mail : string) (due : option instant) (p : json) : Member := {|
  app := {|
    person := {| user_id := u : @uuid string_uuid; full_name := "Ann"; is_active := true;
      membership_next_due_at := due; profile := p |};
    account := {| username := name; email := mail; password_hash := "$"; created_at := 0;
      account_updated_at := 0; meta := JObj []; mfa_enrolled_at := None; email_verified_at := None;
      token_version := 0 |} |};
  opted_out_at := None |}.

Definition ann : Member := member_row "ann" "ann" "ann@x" None (JObj [("card", JStr "1")]).
Definition ann2 : Member := member_row "ann2" "annie" "a.nn@x" (Some 5) (JObj [("bio", JStr "hi"); ("card", JStr "2")]).
Definition root : Member := member_row "root" "root" "root@x" None (JObj []).

Definition row (l : list (string * cell)) : Row := list_to_map l.
Definition id (s : string) : cell := CUuid (s : @uuid string_uuid).

Definition tier1 : Row :=
  row [("user_id", id "ann"); ("tool_id", id "laser"); ("tier_id", id "cheap"); ("assigned_by", id "root")].
Definition tier2 : Row :=
  row [("user_id", id "ann2"); ("tool_id", id "laser"); ("tier_id", id "cheap"); ("assigned_by", id "ann2")].
Definition tier3 : Row :=
  row [("user_id", id "ann2"); ("tool_id", id "mill"); ("tier_id", id "dear"); ("assigned_by", id "root")].

Definition space : MergeDb := {|
  members := list_to_map [("ann" : @uuid string_uuid, ann); ("ann2" : @uuid string_uuid, ann2);
    ("root" : @uuid string_uuid, root)];
  tables := list_to_map [
    ("user_roles", [row [("user_id", id "ann"); ("role_id", id "member")];
                    row [("user_id", id "ann2"); ("role_id", id "staff")];
                    row [("user_id", id "root"); ("role_id", id "admin")]]);
    ("user_emails", [row [("user_id", id "ann"); ("email", CText "ann@x"); ("is_primary", CBool true)];
                     row [("user_id", id "ann2"); ("email", CText "a.nn@x"); ("is_primary", CBool true)]]);
    ("membership_ledger", [row [("user_id", id "ann"); ("amount", CNum 30)];
                           row [("user_id", id "ann2"); ("amount", CNum 12)];
                           row [("user_id", id "root"); ("amount", CNum 7); ("created_by", id "ann2")]]);
    ("tool_tier_assignments", [tier1; tier2; tier3]);
    ("access_rules", [row [("resource_id", id "door"); ("kind", CText "user"); ("value", CText "ann2"); ("effect", CText "deny")]]);
    ("cmi5_registrations", [row [("user_id", id "ann2"); ("actor_account_name", CText "ann2")]]);
    ("password_reset_tokens", [row [("user_id", id "ann2"); ("token_hash", CText "h")]])];
  merge_clock := 100; merge_ids := 0 |}.

Definition acknowledged : gset string := list_to_set [
  "duplicate_tool_tier_assignments"; "roles_raise_level"; "absorbed_login_lost"; "profile_conflicts";
  "next_due_adopted"].

Definition result := execute USER_REFERENCES space ladder ann ann2 acknowledged "root".
Definition after : MergeDb := result.1.

Definition outcome : MergeOutcome :=
  match result.2 with
  | inl o => o
  | inr _ => {| merge_id := EmptyString : @uuid string_uuid; survivor_id := EmptyString : @uuid string_uuid;
                absorbed_id := EmptyString : @uuid string_uuid; moved := ∅; outcome_warnings := [] |}
  end.

Lemma merges : (match result.2 with inl _ => true | inr _ => false end) = true.
Proof. vm_compute. reflexivity. Qed.

Lemma merged : execute USER_REFERENCES space ladder ann ann2 acknowledged "root" = (after, inl outcome).
Proof.
  unfold after, outcome. pose proof merges as H. fold result. destruct result as [db' [o|e]]; [done|].
  discriminate H.
Qed.

Lemma two : mid ann <> mid ann2.
Proof. done. Qed.

(** The plan counts a reference in a row that the merge then drops. *)
Lemma preview_overcounts :
  moves (plan space ladder ann ann2) !! "tool_tier_assignments.assigned_by" = Some 1 /\
  moved outcome !! "tool_tier_assignments.assigned_by" = None.
Proof. vm_compute. split; reflexivity. Qed.

Lemma merge_leaves_no_mention_witness :
  members after !! mid ann2 = None /\ forall r, r ∈ rows after "access_rules" -> user_rule (mid ann2) r = false.
Proof.
  destruct (merge_leaves_no_mention USER_REFERENCES space ladder ann ann2 acknowledged "root" after outcome
    lists_cover two merged) as (_ & _ & H1 & _ & _ & _ & H2).
  exact (conj H1 H2).
Defined.

Lemma merge_keeps_history_witness :
  Forall2 (same_but (mid ann) (mid ann2) "membership_ledger")
    (rows space "membership_ledger") (rows after "membership_ledger").
Proof.
  destruct (merge_keeps_history USER_REFERENCES space ladder ann ann2 acknowledged "root" after outcome
    lists_cover two merged) as [H _].
  apply H; [by apply (bool_decide_unpack _) | by apply (bool_decide_unpack _) | done].
Defined.

Lemma merge_is_acknowledged_witness : warning_codes (plan space ladder ann ann2) = acknowledged.
Proof.
  exact (proj1 (merge_is_acknowledged USER_REFERENCES space ladder ann ann2 acknowledged "root" after
    (inl outcome) merged)).
Defined.

Lemma merge_adds_balances_witness :
  (balance_of after (mid ann) == balance_of space (mid ann) + balance_of space (mid ann2))%Q.
Proof.
  exact (proj1 (merge_adds_balances USER_REFERENCES space ladder ann ann2 acknowledged "root" after outcome
    lists_cover two merged)).
Defined.

Lemma holds_row (u k x y : @uuid string_uuid) (r : Row) :
  col r "user_id" = CUuid x -> col r "tool_id" = CUuid y ->
  holds "tool_id" u k r = bool_decide (x = u) && bool_decide (y = k).
Proof. intros H1 H2. unfold holds, names. by rewrite H1, H2. Qed.

Lemma once : one_each "tool_id" (rows space "tool_tier_assignments").
Proof.
  intros u k. change (rows space "tool_tier_assignments") with [tier1; tier2; tier3]. cbn [List.filter].
  rewrite (holds_row u k "ann" "laser" tier1 eq_refl eq_refl),
    (holds_row u k "ann2" "laser" tier2 eq_refl eq_refl),
    (holds_row u k "ann2" "mill" tier3 eq_refl eq_refl).
  repeat case_bool_decide; subst; cbn; try lia; discriminate.
Qed.

Lemma merge_keeps_pairs_witness :
  one_each "tool_id" (rows after "tool_tier_assignments") /\
  exists r', r' ∈ rows after "tool_tier_assignments" /\ col r' "tool_id" = id "mill" /\
    col r' "user_id" = id "ann".
Proof.
  destruct (merge_keeps_pairs USER_REFERENCES space ladder ann ann2 acknowledged "root" after outcome
    "tool_tier_assignments" "tool_id" lists_cover two merged ltac:(left)) as [H1 H2].
  exact (conj (H1 once) (H2 tier3 ltac:(right; right; left) eq_refl)).
Defined.

Lemma merge_grants_knowingly_witness : "roles_raise_level" ∈ acknowledged.
Proof.
  refine (proj2 (merge_grants_knowingly USER_REFERENCES space ladder ann ann2 acknowledged "root" after outcome
    lists_cover two merged) _).
  vm_compute. reflexivity.
Defined.

Lemma merge_keeps_one_primary_witness :
  exists r', r' ∈ rows after "user_emails" /\ col r' "email" = CText "a.nn@x" /\
    names "user_id" (mid ann) r' = true /\ primary_of (mid ann) r' = false.
Proof.
  destruct (merge_keeps_one_primary USER_REFERENCES space ladder ann ann2 acknowledged "root" after outcome
    lists_cover two merged) as (_ & _ & H).
  exact (H (row [("user_id", id "ann2"); ("email", CText "a.nn@x"); ("is_primary", CBool true)])
    ltac:(right; left) eq_refl).
Defined.

(** ** The report that proposed them *)

#[local] Instance fold_case : CaseFold := {| to_lowercase := fun s => s; lower := fun s => s |}.

Definition addresses (u : @uuid string_uuid) : list string :=
  if bool_decide (u = "ann") then ["ann@x"] else if bool_decide (u = "ann2") then ["a.nn@x"] else [].
Definition nobody (v : string) : option (@uuid string_uuid) := None.

Lemma candidates_iff_witness : exists c, c ∈ candidates [ann; ann2] "card" addresses nobody /\
  cand_a c = party ann /\ cand_b c = party ann2 /\ EMAIL_ALIAS ∈ reasons c.
Proof.
  refine (proj2 (candidates_iff [ann; ann2] "card" addresses nobody ann ann2 EMAIL_ALIAS _ _ _ two eq_refl) _).
  - by apply (bool_decide_unpack _).
  - left.
  - right. left.
  - right. left. split; [reflexivity|]. exists "ann@x", "a.nn@x".
    split; [left|]. split; [left|]. vm_compute. reflexivity.
Defined.

End MergeExample.
