(* ===== verification/Broadcast.v ===== *)
(** * Republishing the allow lists ([server/src/toolguard_broadcast.rs])

    Requests to republish are gathered into batches and sent by one task; which devices
    a batch concerns; and the task itself, [Broadcaster] of
    [server/src/api/toolguard.rs], as a run over what happens to it: requests, wake-ups
    and the end.  What the payload of a device is, is in [AllowLists]. *)
From S2P Require Import Prelude.

Module Broadcast.

#[local] Open Scope Z_scope.

Section Broadcast.
Context {U : Uuid}.

(** ** The coalescer *)

Inductive Scope : Type :=
  | All
  | Tool (t : uuid).

Inductive Batch : Type :=
  | AllDevices
  | Tools (ts : gset uuid).

Record Coalescer := {
  window : duration;
  all : bool;
  tools : gset uuid;
  since : option instant;
}.

Definition new (w : duration) : Coalescer := {| window := w; all := false; tools := ∅; since := None |}.

Definition note (scope : Scope) (now : instant) (c : Coalescer) : Coalescer := {|
  window := window c;
  all := match scope with All => true | Tool _ => all c end;
  tools := match scope with All => tools c | Tool t => {[t]} ∪ tools c end;
  since := match since c with None => Some now | Some s => Some s end |}.

Definition due_at (c : Coalescer) : option instant := (fun s => s + window c) <$> since c.

Definition take_now (c : Coalescer) : option Batch * Coalescer :=
  match since c with
  | None => (None, c)
  | Some _ =>
      (Some (if all c then AllDevices else Tools (tools c)),
       {| window := window c; all := false; tools := ∅; since := None |})
  end.

Definition take (now : instant) (c : Coalescer) : option Batch * Coalescer :=
  if is_some_and (due_at c) (fun due => due <=? now) then take_now c else (None, c).

(** [BTreeSet] iterates in order. *)
Definition in_order (s : gset uuid) : list uuid := sort_by uuid_leb (elements s).

Definition devices_for (batch : Batch) (all_devices : list uuid) (bindings : list (uuid * uuid)) : list uuid :=
  match batch with
  | AllDevices => in_order (list_to_set all_devices)
  | Tools ts => in_order (list_to_set (List.filter (fun dr => bool_decide (dr.2 ∈ ts)) bindings).*1)
  end.

(** ** The task *)

Definition BROADCAST_WINDOW : duration := millis 250.

(** The devices a batch is published to: none without MQTT, or when a query fails. *)
Definition publish_batch (mqtt : bool) (approved : option (list uuid)) (pairs : option (list (uuid * uuid)))
    (batch : Batch) : list uuid :=
  if negb mqtt then []
  else match approved with
  | None => []
  | Some all =>
      match batch with
      | AllDevices => devices_for batch all []
      | Tools _ => match pairs with None => [] | Some bs => devices_for batch all bs end
      end
  end.

Record Broadcaster := {
  pending : Coalescer;
  published : list (instant * Batch);
  returned : bool;
}.

Definition broadcaster : Broadcaster := {| pending := new BROADCAST_WINDOW; published := []; returned := false |}.

(** A handler files a request. *)
Definition request (scope : Scope) (now : instant) (b : Broadcaster) : Broadcaster := {|
  pending := note scope now (pending b); published := published b; returned := returned b |}.

Definition publishing (now : instant) (taken : option Batch * Coalescer) (stop : bool) (b : Broadcaster) :
    Broadcaster := {|
  pending := taken.2;
  published := published b ++ match taken.1 with Some batch => [(now, batch)] | None => [] end;
  returned := stop |}.

(** A turn of [run]: woken by a request or because a batch is due. *)
Definition turn (now : instant) (b : Broadcaster) : Broadcaster :=
  if returned b then b else publishing now (take now (pending b)) false b.

(** The last turn of [run]. *)
Definition shut_down (now : instant) (b : Broadcaster) : Broadcaster :=
  if returned b then b else publishing now (take_now (pending b)) true b.

Inductive Event : Type :=
  | Requested (scope : Scope) (now : instant)
  | Woken (now : instant)
  | Cancelled (now : instant).

Definition time (e : Event) : instant :=
  match e with Requested _ t | Woken t | Cancelled t => t end.

Definition happen (b : Broadcaster) (e : Event) : Broadcaster :=
  match e with
  | Requested scope now => request scope now b
  | Woken now => turn now b
  | Cancelled now => shut_down now b
  end.

Definition run (l : list Event) : Broadcaster := foldl happen broadcaster l.

(** ** What a batch serves *)

Definition serves (batch : Batch) (scope : Scope) : Prop :=
  match batch, scope with
  | AllDevices, _ => True
  | Tools ts, Tool t => t ∈ ts
  | Tools _, All => False
  end.

(** Waiting in the coalescer. *)
Definition waits (c : Coalescer) (scope : Scope) : Prop :=
  is_Some (since c) /\ match scope with All => all c = true | Tool t => all c = true \/ t ∈ tools c end.

(** One event after another. *)
Fixpoint ordered (now : instant) (l : list Event) : Prop :=
  match l with
  | [] => True
  | e :: l => now <= time e /\ ordered (time e) l
  end.

(** When the last of them was. *)
Definition last_time (now : instant) (l : list Event) : instant := foldl (fun _ e => time e) now l.

(** At least a window between any two that follow each other. *)
Fixpoint spaced (l : list (instant * Batch)) : Prop :=
  match l with
  | (t, _) :: ((t', _) :: _) as l' => t + BROADCAST_WINDOW <= t' /\ spaced l'
  | _ => True
  end.

Lemma devices_for_iff batch all_devices bindings d :
  d ∈ devices_for batch all_devices bindings <->
  match batch with
  | AllDevices => d ∈ all_devices
  | Tools ts => exists r, (d, r) ∈ bindings /\ r ∈ ts
  end.
Proof.
  unfold devices_for, in_order. destruct batch as [|ts];
    rewrite elem_of_sort_by, elem_of_elements, elem_of_list_to_set; [done|].
  rewrite list_elem_of_fmap. setoid_rewrite elem_of_lfilter. setoid_rewrite bool_decide_eq_true. split.
  - intros ([d' r] & -> & H1 & H2). by exists r.
  - intros (r & H1 & H2). by exists (d, r).
Qed.

Lemma note_waits scope now c : waits (note scope now c) scope.
Proof.
  split; cbn; [by destruct (since c)|]. destruct scope; [done|]. right. set_solver.
Qed.

Lemma note_keeps scope now c s : waits c s -> waits (note scope now c) s.
Proof.
  intros [[t Ht] Hw]. split; cbn; [rewrite Ht; by eexists|]. destruct s, scope; set_solver.
Qed.

Lemma take_now_serves c s : waits c s ->
  exists batch, (take_now c).1 = Some batch /\ serves batch s.
Proof.
  intros [[t Ht] Hw]. unfold take_now. rewrite Ht. eexists. split; [done|].
  destruct (all c), s; cbn; naive_solver.
Qed.

(** What is known after a history [l] that ended at [now]. *)
Record accounted (l : list Event) (now : instant) (b : Broadcaster) : Prop := {
  acc_window : window (pending b) = BROADCAST_WINDOW;
  acc_served : forall scope t, Requested scope t ∈ l -> t <= now /\
    ((exists t' batch, (t', batch) ∈ published b /\ t <= t' /\ serves batch scope) \/
     (waits (pending b) scope /\ exists s, since (pending b) = Some s /\ s <= t));
  acc_since : forall s, since (pending b) = Some s -> s <= now /\
    forall t' batch, (t', batch) ∈ published b -> t' <= s;
  acc_idle : since (pending b) = None -> all (pending b) = false /\ tools (pending b) = ∅;
  acc_all : all (pending b) = true -> exists t, Requested All t ∈ l;
  acc_tools : forall x, x ∈ tools (pending b) -> exists t, Requested (Tool x) t ∈ l;
  acc_some : is_Some (since (pending b)) -> all (pending b) = true \/ tools (pending b) <> ∅;
  acc_published : forall t' batch, (t', batch) ∈ published b -> t' <= now /\
    match batch with
    | AllDevices => exists t, Requested All t ∈ l
    | Tools ts => ts <> ∅ /\ forall x, x ∈ ts -> exists t, Requested (Tool x) t ∈ l
    end;
  acc_spaced : returned b = false -> spaced (published b);
}.

Lemma spaced_snoc l t batch : spaced l -> (forall t' b, (t', b) ∈ l -> t' + BROADCAST_WINDOW <= t) ->
  spaced (l ++ [(t, batch)]).
Proof.
  induction l as [|[t1 b1] l IH]; [done|]. intros Hs H. destruct l as [|[t2 b2] l].
  - cbn. split; [|done]. apply (H t1 b1). left.
  - destruct Hs as [H1 H2]. cbn [app]. split; [done|]. apply IH; [done|]. intros t' b Hin. apply (H t' b). by right.
Qed.

Lemma accounted_request l now b scope t : accounted l now b -> now <= t ->
  accounted (l ++ [Requested scope t]) t (request scope t b).
Proof.
  intros A Ht. constructor; cbn [request pending published returned].
  - apply (acc_window _ _ _ A).
  - intros sc t0 [Hin|Hin%list_elem_of_singleton]%elem_of_app.
    + destruct (acc_served _ _ _ A _ _ Hin) as [H1 [H2|[H2 (s & Hs & H3)]]]; (split; [lia|]); [by left|right].
      split; [by apply note_keeps|]. exists s. cbn. by rewrite Hs.
    + injection Hin as -> ->. split; [lia|]. right. split; [apply note_waits|]. cbn.
      destruct (since (pending b)) as [s|] eqn:E; [|by exists t].
      exists s. split; [done|]. apply (acc_since _ _ _ A) in E as [E _]. lia.
  - intros s. cbn. destruct (since (pending b)) as [s0|] eqn:E; intros [= <-].
    + destruct (acc_since _ _ _ A s0 E) as [H1 H2]. split; [lia | exact H2].
    + split; [lia|]. intros t' batch Hin. apply (acc_published _ _ _ A) in Hin as [Hin _]. lia.
  - cbn. by destruct (since (pending b)).
  - cbn. intros H. destruct scope; [exists t; set_solver|].
    destruct (acc_all _ _ _ A H) as [u0 H0]. exists u0. set_solver.
  - cbn. intros x Hx. assert (x ∈ tools (pending b) \/ scope = Tool x) as [H| ->].
    { destruct scope; [by left|]. apply elem_of_union in Hx as [->%elem_of_singleton|Hx]; [by right | by left]. }
    + destruct (acc_tools _ _ _ A x H) as [u0 H0]. exists u0. set_solver.
    + exists t. set_solver.
  - intros _. cbn. destruct scope; [by left|]. right. set_solver.
  - intros t' batch Hin. apply (acc_published _ _ _ A) in Hin as [H1 H2]. split; [lia|].
    destruct batch.
    + destruct H2 as [u0 H0]. exists u0. set_solver.
    + destruct H2 as [H2 H3]. split; [done|]. intros x Hx. destruct (H3 x Hx) as [u0 H0]. exists u0. set_solver.
  - apply (acc_spaced _ _ _ A).
Qed.

(** A wake-up or the end adds no request. *)
Lemma accounted_later l now b e : accounted l now b -> now <= time e ->
  (forall scope t, e <> Requested scope t) -> accounted (l ++ [e]) (time e) b.
Proof.
  intros A Ht He. assert (forall scope t, Requested scope t ∈ l ++ [e] <-> Requested scope t ∈ l) as Hin.
  { intros scope t. rewrite elem_of_app, list_elem_of_singleton. split; [|by left].
    intros [H|H]; [done|]. by destruct (He scope t). }
  destruct A as [A1 A2 A3 A4 A5 A6 A7 A8 A9]. constructor; try setoid_rewrite Hin; try done.
  - intros scope t H. destruct (A2 scope t H). split; [lia | done].
  - intros s H. destruct (A3 s H). split; [lia | done].
  - intros t' batch H. destruct (A8 t' batch H) as [H1 H2]. split; [lia|].
    destruct batch; setoid_rewrite Hin; done.
Qed.

(** Handing the batch over. *)
Lemma accounted_taken l now b t s stop : accounted l now b -> now <= t -> since (pending b) = Some s ->
  (stop = false -> s + BROADCAST_WINDOW <= t) -> returned b = false ->
  accounted l t (publishing t (take_now (pending b)) stop b).
Proof.
  intros A Ht Hs Hdue Hret. unfold take_now. rewrite Hs. unfold publishing. cbn [fst snd].
  destruct A as [A1 A2 A3 A4 A5 A6 A7 A8 A9]. destruct (A3 s Hs) as [Hs1 Hs2].
  constructor; cbn [pending published returned window all tools since]; try done.
  - intros scope t0 H. destruct (A2 scope t0 H) as [H1 H2]. split; [lia|]. left.
    destruct H2 as [(t' & batch & Hin & Hr)|[Hw _]].
    + exists t', batch. split; [set_solver|done].
    + destruct (take_now_serves _ _ Hw) as (batch & Hb & Hr). unfold take_now in Hb. rewrite Hs in Hb.
      injection Hb as <-. eexists t, _. split; [apply elem_of_app; right; left|]. split; [lia | exact Hr].
  - intros t' batch [Hin|Hin%list_elem_of_singleton]%elem_of_app.
    + destruct (A8 t' batch Hin). split; [lia | done].
    + injection Hin as -> ->. split; [lia|]. destruct (all (pending b)) eqn:Ea; [by apply A5|].
      split; [|exact A6]. destruct (A7 ltac:(rewrite Hs; by eexists)); [congruence | done].
  - intros ->. apply spaced_snoc; [by apply A9|]. intros t' b' Hin. specialize (Hs2 t' b' Hin).
    specialize (Hdue eq_refl). lia.
Qed.

Lemma accounted_idle l now b t stop : accounted l now b -> returned b = false ->
  accounted l now (publishing t (None, pending b) stop b).
Proof.
  intros [A1 A2 A3 A4 A5 A6 A7 A8 A9] Hr. unfold publishing. cbn [fst snd]. rewrite app_nil_r.
  constructor; cbn [pending published returned]; try done. intros _. by apply A9.
Qed.

Lemma accounted_event l now b e : accounted l now b -> now <= time e ->
  accounted (l ++ [e]) (time e) (happen b e).
Proof.
  intros A Ht. destruct e as [scope t|t|t]; cbn [time happen] in *; [by eapply accounted_request|..].
  - assert (accounted (l ++ [Woken t]) t b) as A' by (eapply (accounted_later _ _ _ (Woken t)); done).
    unfold turn. destruct (returned b) eqn:Er; [done|]. unfold take, due_at.
    destruct (since (pending b)) as [s|] eqn:Es; cbn [fmap option_fmap option_map is_some_and];
      [|by apply accounted_idle].
    rewrite (acc_window _ _ _ A). destruct (s + BROADCAST_WINDOW <=? t) eqn:Ed; [|by apply accounted_idle].
    eapply accounted_taken; [done|lia|done| |done]. intros _. by apply Z.leb_le.
  - assert (accounted (l ++ [Cancelled t]) t b) as A' by (eapply (accounted_later _ _ _ (Cancelled t)); done).
    unfold shut_down. destruct (returned b) eqn:Er; [done|].
    destruct (since (pending b)) as [s|] eqn:Es.
    + eapply accounted_taken; [done|lia|done|done|done].
    + replace (take_now (pending b)) with (@None Batch, pending b) by (unfold take_now; by rewrite Es).
      by apply accounted_idle.
Qed.

Lemma accounted_run l0 l now b : accounted l0 now b -> ordered now l ->
  accounted (l0 ++ l) (last_time now l) (foldl happen b l).
Proof.
  revert l0 now b. induction l as [|e l IH]; intros l0 now b A Ho; [by rewrite app_nil_r|].
  destruct Ho as [H1 H2]. cbn [foldl last_time]. replace (l0 ++ e :: l) with ((l0 ++ [e]) ++ l) by (by rewrite <- app_assoc).
  apply (IH (l0 ++ [e]) (time e)); [by eapply accounted_event | done].
Qed.

Lemma accounted_start now : accounted [] now broadcaster.
Proof. constructor; cbn; try done; intros; set_solver. Qed.

Lemma accounted_history start l : ordered start l -> accounted l (last_time start l) (run l).
Proof. intros H. exact (accounted_run [] l start broadcaster (accounted_start start) H). Qed.

Lemma ordered_last start l e : ordered start (l ++ [e]) -> ordered start l /\ last_time start l <= time e.
Proof.
  revert start. induction l as [|e0 l IH]; intros start; [cbn; tauto|].
  intros [H1 H2]. destruct (IH _ H2) as [H3 H4]. by split.
Qed.

(** No request is forgotten: by the first wake-up a window or more after it, or by
    the end if that comes first, a batch that serves it was published after it was filed. *)
Theorem requests_are_served start l e scope t :
  ordered start (l ++ [e]) -> returned (run l) = false -> Requested scope t ∈ l ->
  match e with Woken now => t + BROADCAST_WINDOW <= now | Cancelled _ => True | Requested _ _ => False end ->
  exists t' batch, (t', batch) ∈ published (run (l ++ [e])) /\ t <= t' <= time e /\ serves batch scope.
Proof.
  intros Ho Hr Hin He. destruct (ordered_last _ _ _ Ho) as [Hl Ht].
  pose proof (accounted_history _ _ Hl) as A. pose proof (accounted_history _ _ Ho) as A'.
  assert (forall t' batch, (t', batch) ∈ published (run (l ++ [e])) -> t' <= time e) as Hlate.
  { intros t' batch H. apply (acc_published _ _ _ A') in H as [H _].
    unfold last_time in H. by rewrite foldl_app in H. }
  assert (exists t' batch, (t', batch) ∈ published (run (l ++ [e])) /\ t <= t' /\ serves batch scope) as H.
  2:{ destruct H as (t' & batch & H1 & H2 & H3). exists t', batch. split_and!; try done. by eapply Hlate. }
  destruct (acc_served _ _ _ A' scope t) as [_ [H|[Hw (s & Hs & Hst)]]]; [set_solver|exact H|]. exfalso.
  unfold run in Hw, Hs. rewrite foldl_app in Hw, Hs. fold (run l) in Hw, Hs. cbn [foldl] in Hw, Hs.
  destruct e as [|now|now]; [done| |]; cbn [happen] in Hs; unfold turn, shut_down in Hs; rewrite Hr in Hs;
    unfold publishing in Hs; cbn [pending] in Hs.
  - unfold take, due_at in Hs. destruct (since (pending (run l))) as [s0|] eqn:Es; [|cbn in Hs; congruence].
    cbn [fmap option_fmap option_map is_some_and] in Hs. rewrite (acc_window _ _ _ A) in Hs.
    destruct (s0 + BROADCAST_WINDOW <=? now) eqn:Ed.
    + unfold take_now in Hs. rewrite Es in Hs. discriminate Hs.
    + cbn [snd] in Hs. rewrite Es in Hs. injection Hs as ->. apply Z.leb_gt in Ed. lia.
  - unfold take_now in Hs. destruct (since (pending (run l))) eqn:Es; cbn [snd since] in Hs; congruence.
Qed.

(** Nothing is published that was not asked for, no batch is empty, and two batches
    are a window or more apart until the end. *)
Theorem batches_are_asked_for start l :
  ordered start l ->
  (forall t' batch, (t', batch) ∈ published (run l) ->
    match batch with
    | AllDevices => exists t, Requested All t ∈ l
    | Tools ts => ts <> ∅ /\ forall x, x ∈ ts -> exists t, Requested (Tool x) t ∈ l
    end) /\
  (returned (run l) = false -> spaced (published (run l))).
Proof.
  intros Ho. pose proof (accounted_history _ _ Ho) as A. split; [|exact (acc_spaced _ _ _ A)].
  intros t' batch H. by apply (acc_published _ _ _ A) in H as [_ H].
Qed.
End Broadcast.
End Broadcast.

(** ** Two requests, one publish *)

Module BroadcastExample.
Import Broadcast.
#[local] Existing Instance string_uuid.
#[local] Open Scope Z_scope.

Definition burst : list (@Event string_uuid) :=
  [Requested (Tool ("laser" : @uuid string_uuid)) 0; Woken 0; Requested (Tool ("mill" : @uuid string_uuid)) (millis 100)].

Lemma requests_are_served_witness :
  exists t' batch, (t', batch) ∈ published (run (burst ++ [Woken (millis 400)])) /\
    millis 100 <= t' <= millis 400 /\ serves batch (Tool ("mill" : @uuid string_uuid)).
Proof.
  refine (requests_are_served 0 burst (Woken (millis 400)) (Tool ("mill" : @uuid string_uuid)) (millis 100) _ eq_refl _ _).
  - vm_compute. repeat split; discriminate.
  - right. right. left.
  - vm_compute. discriminate.
Defined.

Lemma batches_are_asked_for_witness :
  returned (run burst) = false /\ spaced (published (run (burst ++ [Woken (millis 400)]))).
Proof.
  split; [reflexivity|].
  refine (proj2 (batches_are_asked_for 0 (burst ++ [Woken (millis 400)]) _) eq_refl).
  vm_compute. repeat split; discriminate.
Defined.

End BroadcastExample.
