(* ===== verification/Calendar.v ===== *)
(** * The calendar ([server/src/calendar.rs], [calendar/ics.rs], [calendar/window.rs])

    What a member sees of the space's iCalendar feeds: which components of a feed count,
    when their events are, which occurrences of a series were moved or called off, and
    the window that was asked for.  The parser of feeds (icalendar), the expansion of
    recurrence rules (rrule), dates as text (chrono), the time zone database and the
    rendering of descriptions are interfaces. *)
From Stdlib Require Import Ascii Sorted.
From S2P Require Import Prelude Text Schedules.
Import Text Schedules.

Module Calendar.

#[local] Open Scope string_scope.
#[local] Open Scope list_scope.
#[local] Open Scope Z_scope.

(** ** The libraries *)

(** A wall clock: nanoseconds since 1970 where there is no zone; a date: days since. *)
Abbreviation naive := Z (only parsing).
Abbreviation date := Z (only parsing).

Class Zones := {
  Tz : Type;
  UTC : Tz;
  tz_parse : string -> option Tz;
  tz_name : Tz -> string;
  from_local_datetime : Tz -> naive -> LocalResult;
}.

(** Parsing answers a reason on failure. *)
Class Chrono := {
  parse_date : string -> string -> date + string;
  parse_datetime : string -> string -> naive + string;
  format_date : date -> string -> string;
  format_datetime : naive -> string -> string;
}.

(** [properties] is the single-valued map, [multi_properties] the repeated one. *)
Class ICalendar := {
  Property : Type;
  prop_value : Property -> string;
  tzid_param : Property -> option string;
  IcalEvent : Type;
  properties : IcalEvent -> string -> option Property;
  multi_properties : IcalEvent -> string -> option (list Property);
  get_uid : IcalEvent -> option string;
  get_summary : IcalEvent -> option string;
  get_description : IcalEvent -> option string;
  property_value : IcalEvent -> string -> option string;
  (** The events among the components of a body. *)
  parse_calendar : string -> list IcalEvent + string;
}.

(** [all limit]: the occurrences between two bounds, and whether the limit cut them. *)
Class RRules := {
  RRuleSet : Type;
  parse_rules : string -> RRuleSet + string;
  all_between : RRuleSet -> instant -> instant -> Z -> list instant * bool;
}.

Section Calendar.
Context {ZO : Zones} {CH : Chrono} {IC : ICalendar} {RR : RRules}.
Context (to_html : string -> option string) (quote : string -> string).

(** ** Events *)

Record CalendarEvent := {
  title : string;
  description : option string;
  description_html : option string;
  start : instant;
  end_ : option instant;
  location : option string;
  calendar_name : string;
  calendar_color : string;
  all_day : bool;
}.

Record FeedContext := {
  ctx_name : string;
  ctx_color : string;
  site_tz : Tz;
  from : instant;
  to : instant;
}.

Record ParseOutcome := { events : list CalendarEvent; warnings : list string }.

Definition MAX_OCCURRENCES_PER_RULE : Z := 1000.

Inductive Anchor : Type :=
  | Date (d : date)
  | Timed (n : naive) (tz : Tz).

Definition hour : duration := seconds 3600.
Definition day : duration := 24 * hour.

Definition earliest (r : LocalResult) : option instant :=
  match r with LNone => None | Single t => Some t | Ambiguous a _ => Some a end.

(** The earlier of two; past a gap, an hour at a time, at most three. *)
Definition to_utc (n : naive) (tz : Tz) : instant :=
  match earliest (from_local_datetime tz n) with
  | Some t => t
  | None =>
      match find_first is_some
        ((fun h => earliest (from_local_datetime tz (n + h * hour))) <$> [1; 2; 3]) with
      | Some (Some t) => t
      | _ => n
      end
  end.

Definition local_midnight (d : date) (tz : Tz) : instant := to_utc (d * day) tz.

Definition start_utc (a : Anchor) (ctx : FeedContext) : instant :=
  match a with
  | Date d => local_midnight d (site_tz ctx)
  | Timed n tz => to_utc n tz
  end.

Definition strip_suffix_byte (c : ascii) (s : string) : option string :=
  match rev (bytes s) with
  | x :: l => if x ≟ c then Some (of_bytes (rev l)) else None
  | [] => None
  end.

Definition anchor_of (p : Property) (ctx : FeedContext) : Anchor + string :=
  let value := of_bytes (split_once ","%char (bytes (trim (prop_value p)))).1 in
  if Nat.eqb (String.length value) 8 && negb (contains_byte "T"%char value) then
    match parse_date value "%Y%m%d" with
    | inl d => inl (Date d)
    | inr e => inr ("bad date " +:+ quote value +:+ ": " +:+ e)
    end
  else match strip_suffix_byte "Z"%char value with
  | Some utc =>
      match parse_datetime utc "%Y%m%dT%H%M%S" with
      | inl n => inl (Timed n UTC)
      | inr e => inr ("bad UTC date-time " +:+ quote value +:+ ": " +:+ e)
      end
  | None =>
      match parse_datetime value "%Y%m%dT%H%M%S" with
      | inl n =>
          inl (Timed n (match tzid_param p with
            | Some tzid => default (site_tz ctx) (tz_parse tzid)
            | None => site_tz ctx
            end))
      | inr e => inr ("bad date-time " +:+ quote value +:+ ": " +:+ e)
      end
  end.

Definition title_of (e : IcalEvent) : string := default "Untitled Event" (get_summary e).

Definition eq_ignore_ascii_case (a b : string) : bool :=
  bool_decide (ascii_lower <$> bytes a = ascii_lower <$> bytes b).

Definition is_cancelled (e : IcalEvent) : bool :=
  is_some_and (property_value e "STATUS") (fun s => eq_ignore_ascii_case s "CANCELLED").

(** A stated end is exclusive. *)
Definition overlaps (s : instant) (e : option instant) (ctx : FeedContext) : bool :=
  if to ctx <=? s then false
  else match e with
  | Some e => if s <? e then from ctx <? e else from ctx <=? s
  | None => from ctx <=? s
  end.

Definition build (e : IcalEvent) (ctx : FeedContext) (s : instant) (en : option instant) (a : Anchor) :
    CalendarEvent := {|
  title := title_of e;
  description := get_description e;
  description_html := match get_description e with Some d => to_html d | None => None end;
  start := s; end_ := en;
  location := property_value e "LOCATION";
  calendar_name := ctx_name ctx; calendar_color := ctx_color ctx;
  all_day := match a with Date _ => true | Timed _ _ => false end |}.

Definition properties_named (e : IcalEvent) (key : string) : list Property :=
  match default [] (multi_properties e key) with
  | [] => match properties e key with Some p => [p] | None => [] end
  | found => found
  end.

Definition dated_line (key : string) (p : Property) : string :=
  match tzid_param p with
  | Some tzid => key +:+ ";TZID=" +:+ tzid +:+ ":" +:+ prop_value p
  | None => key +:+ ":" +:+ prop_value p
  end.

Definition recurrence_lines (e : IcalEvent) (a : Anchor) (ctx : FeedContext) : list string :=
  if is_some (properties e "RECURRENCE-ID") then []
  else
    let rrules := properties_named e "RRULE" in
    let rdates := properties_named e "RDATE" in
    match rrules, rdates with
    | [], [] => []
    | _, _ =>
        let '(tz, stamp) := match a with
          | Date d => (site_tz ctx, format_date d "%Y%m%dT000000")
          | Timed n tz => (tz, format_datetime n "%Y%m%dT%H%M%S")
          end in
        ("DTSTART;TZID=" +:+ tz_name tz +:+ ":" +:+ stamp) ::
        ((fun p => "RRULE:" +:+ prop_value p) <$> rrules) ++
        (dated_line "EXDATE" <$> properties_named e "EXDATE") ++
        (dated_line "RDATE" <$> properties_named e "RDATE")
    end.

(** The stated end; without one, an all-day event ends at the next local midnight. *)
Definition end_of (e : IcalEvent) (a : Anchor) (ctx : FeedContext) : option instant + string :=
  match properties e "DTEND" with
  | Some p => match anchor_of p ctx with inl x => inl (Some (start_utc x ctx)) | inr w => inr w end
  | None =>
      match a with
      | Date d => inl (Some (local_midnight (d + 1) (site_tz ctx)))
      | Timed _ _ => inl None
      end
  end.

Abbreviation Overridden := (gset (string * instant)).

(** The occurrences of a series that stay, as events. *)
Definition expanded (e : IcalEvent) (ctx : FeedContext) (overridden : Overridden) (a : Anchor)
    (duration : option Z) (dates : list instant) : list CalendarEvent :=
  omap (fun t =>
    if bool_decide ((default EmptyString (get_uid e), t) ∈ overridden) then None
    else
      let en := (fun d => t + d) <$> duration in
      if overlaps t en ctx then Some (build e ctx t en a) else None) dates.

(** How far before the window an occurrence may have begun. *)
Definition slack (duration : option Z) : Z := Z.max (default 0 duration) 0.

(** What a component adds: events and warnings, or the reason it is skipped. *)
Definition push_event (e : IcalEvent) (ctx : FeedContext) (overridden : Overridden) :
    (list CalendarEvent * list string) + string :=
  match properties e "DTSTART" with
  | None => inr "no DTSTART"
  | Some p =>
      match anchor_of p ctx with
      | inr w => inr w
      | inl a =>
          let s := start_utc a ctx in
          match end_of e a ctx with
          | inr w => inr w
          | inl en =>
              let duration := (fun x => x - s) <$> en in
              match recurrence_lines e a ctx with
              | [] => inl (if overlaps s en ctx then [build e ctx s en a] else [], [])
              | rules =>
                  match parse_rules (String.concat (String (ascii_of_nat 10) EmptyString) rules) with
                  | inr w => inr ("unusable recurrence rule: " +:+ w)
                  | inl set =>
                      let after := from ctx - slack duration - seconds 1 in
                      let before := to ctx + seconds 1 in
                      let '(dates, limited) := all_between set after before MAX_OCCURRENCES_PER_RULE in
                      inl (expanded e ctx overridden a duration dates,
                           if limited : bool
                           then [title_of e +:+ ": recurrence stopped at " +:+
                                 pretty MAX_OCCURRENCES_PER_RULE +:+ " occurrences"]
                           else [])
                  end
              end
          end
      end
  end.

(** The instant a component replaces in the series of its identifier. *)
Definition override_of (ctx : FeedContext) (e : IcalEvent) : option ((string * instant) + string) :=
  match get_uid e, properties e "RECURRENCE-ID" with
  | Some uid, Some p =>
      Some (match anchor_of p ctx with inl a => inl (uid, start_utc a ctx) | inr w => inr w end)
  | _, _ => None
  end.

Definition note_override (ctx : FeedContext) (acc : Overridden * list string) (e : IcalEvent) :
    Overridden * list string :=
  match override_of ctx e with
  | Some (inl k) => ({[k]} ∪ acc.1, acc.2)
  | Some (inr w) => (acc.1, acc.2 ++ [title_of e +:+ ": unusable RECURRENCE-ID: " +:+ w])
  | None => acc
  end.

(** The first pass. *)
Definition override_pass (ctx : FeedContext) (es : list IcalEvent) : Overridden * list string :=
  foldl (note_override ctx) (∅, []) es.

Definition add_component (ctx : FeedContext) (overridden : Overridden) (out : ParseOutcome) (e : IcalEvent) :
    ParseOutcome :=
  if is_cancelled e then out
  else match push_event e ctx overridden with
  | inl (evs, ws) => {| events := events out ++ evs; warnings := warnings out ++ ws |}
  | inr w => {| events := events out; warnings := warnings out ++ [title_of e +:+ ": skipped: " +:+ w] |}
  end.

(** Both passes. *)
Definition read_events (ctx : FeedContext) (es : list IcalEvent) : ParseOutcome :=
  let '(overridden, ws) := override_pass ctx es in
  foldl (add_component ctx overridden) {| events := []; warnings := ws |} es.

(** [str::trim_end]. *)
Definition trim_end (s : string) : string :=
  of_bytes (mjoin (rev (drop_while is_whitespace (rev (chars s))))).

Definition has_header (body : string) : bool :=
  existsb (fun l => eq_ignore_ascii_case (trim_end (of_bytes l)) "BEGIN:VCALENDAR")
    (split_on (ascii_of_nat 10) (bytes body)).

Definition parse_feed (body : string) (ctx : FeedContext) : ParseOutcome + string :=
  if negb (has_header body) then inr "no BEGIN:VCALENDAR line; not an iCalendar body"
  else match parse_calendar body with
  | inr e => inr ("not parseable as iCalendar: " +:+ e)
  | inl es => inl (read_events ctx es)
  end.

(** ** The service *)

Record CachedFeed := { cached_body : string; fetched_at : instant }.

Record CalendarSource := { ical_link : string; name : string; color : string; source_enabled : bool }.

Record CalendarConfig := {
  enabled : bool;
  calendars : list CalendarSource;
  cache_duration_minutes : Z;
  max_events_display : nat;
  lookahead_days : Z;
}.

Abbreviation Cache := (gmap string CachedFeed).

(** What an HTTP GET ends in. *)
Inductive Response : Type :=
  | SendFailed
  | Answered (status : Z) (body : option string).

Definition MAX_EVENTS_IN_WINDOW : nat := 1000.

Definition num_minutes (d : duration) : Z := Z.quot d (seconds 60).

Definition is_success (status : Z) : bool := (200 <=? status) && (status <? 300).

Definition resolve_tz (nm : string) : Tz := default UTC (tz_parse nm).

Definition fetch (http : string -> Response) (now : instant) (link : string) (cache : Cache) :
    option (string * bool) * Cache :=
  match http link with
  | Answered status (Some body) =>
      if is_success status
      then (Some (body, true), <[link := {| cached_body := body; fetched_at := now |}]> cache)
      else (None, cache)
  | _ => (None, cache)
  end.

(** The body, and whether it was just fetched; [None] is the error that is logged. *)
Definition feed_body (http : string -> Response) (now : instant) (source : CalendarSource)
    (cfg : CalendarConfig) (cache : Cache) : option (string * bool) * Cache :=
  match cache !! ical_link source with
  | Some c =>
      if num_minutes (now - fetched_at c) <? cache_duration_minutes cfg
      then (Some (cached_body c, false), cache)
      else fetch http now (ical_link source) cache
  | None => fetch http now (ical_link source) cache
  end.

Definition source_events (http : string -> Response) (now : instant) (cfg : CalendarConfig) (tz : Tz)
    (f t : instant) (acc : list CalendarEvent * Cache) (source : CalendarSource) : list CalendarEvent * Cache :=
  if negb (source_enabled source) then acc
  else match feed_body http now source cfg acc.2 with
  | (None, cache) => (acc.1, cache)
  | (Some (body, _), cache) =>
      match parse_feed body {| ctx_name := name source; ctx_color := color source; site_tz := tz;
                               from := f; to := t |} with
      | inl out => (acc.1 ++ events out, cache)
      | inr _ => (acc.1, cache)
      end
  end.

Definition no_later (a b : CalendarEvent) : bool :=
  (start a <? start b) || ((start a =? start b) && String.leb (title a) (title b)).

Definition events_between (http : string -> Response) (now : instant) (cfg : CalendarConfig) (tz : Tz)
    (f t : instant) (cache : Cache) : list CalendarEvent * Cache :=
  if negb (enabled cfg) then ([], cache)
  else
    let '(evs, cache) := foldl (source_events http now cfg tz f t) ([], cache) (calendars cfg) in
    (sort_by no_later evs, cache).

Definition get_events (http : string -> Response) (now : instant) (cfg : CalendarConfig) (tz : Tz)
    (cache : Cache) : list CalendarEvent * Cache :=
  let '(evs, cache) := events_between http now cfg tz now (now + lookahead_days cfg * day) cache in
  (take (max_events_display cfg) evs, cache).

Definition get_events_between (http : string -> Response) (now : instant) (cfg : CalendarConfig) (tz : Tz)
    (f t : instant) (cache : Cache) : list CalendarEvent * Cache :=
  let '(evs, cache) := events_between http now cfg tz f t cache in
  (take MAX_EVENTS_IN_WINDOW evs, cache).

(** ** The window *)

Inductive WindowError : Type := Unparseable | Inverted.

Definition message (e : WindowError) : string :=
  match e with
  | Unparseable => "dates must be YYYY-MM-DD"
  | Inverted => "`to` must be after `from`"
  end.

Definition start_of_day (text : string) (tz : Tz) : instant + WindowError :=
  match parse_date text "%Y-%m-%d" with
  | inr _ => inr Unparseable
  | inl d => inl (default (d * day + hour) (earliest (from_local_datetime tz (d * day))))
  end.

Definition bounds (f t : option string) (tz : Tz) (lookahead : Z) (now : instant) :
    option (instant * instant) + WindowError :=
  match f, t with
  | None, None => inl None
  | _, _ =>
      match match f with Some x => start_of_day x tz | None => inl now end with
      | inr e => inr e
      | inl s =>
          match match t with
                | Some x => match start_of_day x tz with inl u => inl (u + day) | inr e => inr e end
                | None => inl (now + lookahead * day)
                end with
          | inr e => inr e
          | inl e => if e <=? s then inr Inverted else inl (Some (s, e))
          end
      end
  end.

(** The routes: a bad window is a 400, and a refresh is refused before the cache is
    cleared. *)
Definition get_calendar_events (http : string -> Response) (now : instant) (cfg : CalendarConfig) (tz : Tz)
    (f t : option string) (cache : Cache) : (list CalendarEvent + WindowError) * Cache :=
  match bounds f t tz (lookahead_days cfg) now with
  | inr e => (inr e, cache)
  | inl (Some (a, b)) => let '(evs, cache) := get_events_between http now cfg tz a b cache in (inl evs, cache)
  | inl None => let '(evs, cache) := get_events http now cfg tz cache in (inl evs, cache)
  end.

Definition clear_cache (link : string) (cache : Cache) : Cache := base.delete link cache.
Definition clear_all_cache (cache : Cache) : Cache := ∅.

Definition refresh_calendar_events (http : string -> Response) (now : instant) (cfg : CalendarConfig) (tz : Tz)
    (f t : option string) (cache : Cache) : (list CalendarEvent + WindowError) * Cache :=
  match bounds f t tz (lookahead_days cfg) now with
  | inr e => (inr e, cache)
  | inl _ => get_calendar_events http now cfg tz f t (clear_all_cache cache)
  end.

(** ** What the parts promise *)

(** rrule: what a set of rules stands for, and what [all] gives of it. *)
Class RRuleLaws := {
  occurs : RRuleSet -> instant -> Prop;
  all_sound : forall set a b n t, t ∈ (all_between set a b n).1 -> occurs set t;
  all_complete : forall set a b n t,
    (all_between set a b n).2 = false -> occurs set t -> a < t < b -> t ∈ (all_between set a b n).1;
}.

Context {RL : RRuleLaws}.

(** The occurrences that components of a feed replace. *)
Definition replaced (ctx : FeedContext) (es : list IcalEvent) (k : string * instant) : Prop :=
  exists e, e ∈ es /\ override_of ctx e = Some (inl k).

(** An event touches the window: it begins before the window ends, and it begins within
    the window or ends after the window begins. *)
Definition touches (ctx : FeedContext) (s : instant) (en : option instant) : Prop :=
  s < to ctx /\ (from ctx <= s \/ exists x, en = Some x /\ from ctx < x).

(** What a member should see of a feed: the one instant of a component without a rule,
    and the occurrences of a series that no component of the feed replaces, when they
    touch the window and the component is not cancelled. *)
Inductive shown (ctx : FeedContext) (es : list IcalEvent) (e : IcalEvent) (a : Anchor)
    (en : option instant) : CalendarEvent -> Prop :=
  | shown_once : recurrence_lines e a ctx = [] -> touches ctx (start_utc a ctx) en ->
      shown ctx es e a en (build e ctx (start_utc a ctx) en a)
  | shown_series set t : recurrence_lines e a ctx <> [] ->
      parse_rules (String.concat (String (ascii_of_nat 10) EmptyString) (recurrence_lines e a ctx)) = inl set ->
      occurs set t -> ~ replaced ctx es (default EmptyString (get_uid e), t) ->
      touches ctx t ((fun x => t + (x - start_utc a ctx)) <$> en) ->
      shown ctx es e a en (build e ctx t ((fun x => t + (x - start_utc a ctx)) <$> en) a).

(** A component that counts, with its beginning and its end. *)
Definition counts (ctx : FeedContext) (es : list IcalEvent) (e : IcalEvent) (a : Anchor)
    (en : option instant) : Prop :=
  e ∈ es /\ is_cancelled e = false /\
  (exists p, properties e "DTSTART" = Some p /\ anchor_of p ctx = inl a) /\ end_of e a ctx = inl en.

Lemma override_pass_spec ctx es k : k ∈ (override_pass ctx es).1 <-> replaced ctx es k.
Proof.
  unfold override_pass, replaced.
  assert (forall acc, k ∈ (foldl (note_override ctx) acc es).1 <->
    k ∈ acc.1 \/ exists e, e ∈ es /\ override_of ctx e = Some (inl k)) as H.
  { induction es as [|e es IH]; intros acc; cbn [foldl]; [set_solver|]. rewrite IH.
    unfold note_override.
    destruct (override_of ctx e) as [[k'|w]|] eqn:E; cbn [fst]; set_solver. }
  rewrite H. set_solver.
Qed.

(** What one component adds. *)
Definition added (ctx : FeedContext) (overridden : Overridden) (e : IcalEvent) : list CalendarEvent :=
  if is_cancelled e then []
  else match push_event e ctx overridden with inl (evs, _) => evs | inr _ => [] end.

Lemma read_events_added ctx es :
  events (read_events ctx es) = mjoin (added ctx (override_pass ctx es).1 <$> es).
Proof.
  unfold read_events. destruct (override_pass ctx es) as [o ws]. cbn [fst].
  assert (forall out, events (foldl (add_component ctx o) out es) =
    events out ++ mjoin (added ctx o <$> es)) as H.
  { induction es as [|e es IH]; intros out; [cbn; by rewrite app_nil_r|].
    cbn [foldl fmap list_fmap mjoin list_join]. rewrite IH. unfold add_component, added at 2.
    destruct (is_cancelled e); [done|].
    destruct (push_event e ctx o) as [[evs w]|w]; cbn [events]; [by rewrite <- app_assoc | done]. }
  apply H.
Qed.

Lemma in_expanded e ctx o a d dates ev : ev ∈ expanded e ctx o a d dates <->
  exists t, t ∈ dates /\ (default EmptyString (get_uid e), t) ∉ o /\
    overlaps t ((fun d => t + d) <$> d) ctx = true /\ ev = build e ctx t ((fun d => t + d) <$> d) a.
Proof.
  unfold expanded. rewrite list_elem_of_omap. split.
  - intros (t & Ht & H). exists t. case_bool_decide; [done|]. cbv zeta in H.
    destruct (overlaps _ _ _) eqn:E; [|done]. injection H as <-. done.
  - intros (t & Ht & Ho & Hov & ->). exists t. split; [done|].
    rewrite bool_decide_eq_false_2 by done. cbv zeta. by rewrite Hov.
Qed.

Lemma duration_eq (t s : Z) (en : option Z) :
  (fun d => t + d) <$> ((fun x => x - s) <$> en) = (fun x => t + (x - s)) <$> en.
Proof. by destruct en. Qed.

(** The code's test of the window, written by cases of the end, is that. *)
Lemma overlaps_touches s en ctx : overlaps s en ctx = true <-> touches ctx s en.
Proof.
  unfold overlaps, touches. destruct (to ctx <=? s) eqn:E1.
  { apply Z.leb_le in E1. split; [done|lia]. }
  apply Z.leb_gt in E1. destruct en as [x|].
  - destruct (s <? x) eqn:E2; [apply Z.ltb_lt in E2; rewrite Z.ltb_lt | apply Z.ltb_ge in E2; rewrite Z.leb_le].
    + split; [intros H; split; [done|]; right; by exists x|]. intros [_ [H|(y & [= <-] & H)]]; lia.
    + split; [by auto|]. intros [_ [H|(y & [= <-] & H)]]; lia.
  - rewrite Z.leb_le. split; [by auto|]. by intros [_ [H|(y & ? & _)]].
Qed.

(** What one component adds is what should be shown of it. *)
Lemma added_shown ctx es e ev : e ∈ es -> ev ∈ added ctx (override_pass ctx es).1 e ->
  exists a en, counts ctx es e a en /\ shown ctx es e a en ev.
Proof.
  intros He Hev. unfold added in Hev.
  destruct (is_cancelled e) eqn:Ec; [by apply elem_of_nil in Hev|].
  unfold push_event in Hev. destruct (properties e "DTSTART") as [p|] eqn:Ep; [|by apply elem_of_nil in Hev].
  destruct (anchor_of p ctx) as [a|] eqn:Ea; [|by apply elem_of_nil in Hev].
  destruct (end_of e a ctx) as [en|] eqn:Ee; [|by apply elem_of_nil in Hev]. cbv zeta in Hev.
  exists a, en. split; [by split_and!; try done; exists p|].
  destruct (recurrence_lines e a ctx) as [|l ls] eqn:El.
  - destruct (overlaps (start_utc a ctx) en ctx) eqn:Eo; [|by apply elem_of_nil in Hev].
    apply list_elem_of_singleton in Hev as ->. by apply shown_once, overlaps_touches.
  - destruct (parse_rules _) as [set|] eqn:Er; [|by apply elem_of_nil in Hev].
    destruct (all_between set _ _ _) as [dates limited] eqn:Ed.
    apply in_expanded in Hev as (t & Ht & Ho & Hov & ->). rewrite duration_eq in *.
    apply (shown_series ctx es e a en set t).
    + by rewrite El.
    + by rewrite El.
    + eapply all_sound. by rewrite Ed.
    + by rewrite <- override_pass_spec.
    + by apply overlaps_touches.
Qed.

(** C32. Every event a feed shows is of a component that counts: its one instant, or an
    occurrence of its rule that no component of the feed replaces; it begins before the
    window ends and is not over before the window begins. *)
Theorem feed_shows_only body ctx out ev : parse_feed body ctx = inl out -> ev ∈ events out ->
  exists es e a en, parse_calendar body = inl es /\ counts ctx es e a en /\ shown ctx es e a en ev /\
    start ev < to ctx /\ (from ctx <= start ev \/ exists x, end_ ev = Some x /\ from ctx < x).
Proof.
  unfold parse_feed. destruct (negb (has_header body)); [done|].
  destruct (parse_calendar body) as [es|]; [|done]. intros [= <-] Hev.
  rewrite read_events_added in Hev. apply list_elem_of_join in Hev as (l & Hev & Hl).
  apply list_elem_of_fmap in Hl as (e & -> & He). destruct (added_shown ctx es e ev He Hev) as (a & en & Hc & Hs).
  exists es, e, a, en. split_and!; try done; destruct Hs as [_ [? ?]|set t _ _ _ _ [? ?]]; assumption.
Qed.

(** The rule of a component is not cut at the limit. *)
Definition unlimited (ctx : FeedContext) (e : IcalEvent) (a : Anchor) (en : option instant) : Prop :=
  forall set, parse_rules (String.concat (String (ascii_of_nat 10) EmptyString) (recurrence_lines e a ctx)) = inl set ->
    (all_between set (from ctx - slack ((fun x => x - start_utc a ctx) <$> en) - seconds 1)
      (to ctx + seconds 1) MAX_OCCURRENCES_PER_RULE).2 = false.

(** C33. A feed shows everything it should: whatever counts and touches the window is
    there.  It touches the window when it begins before the window ends and either begins
    within it or, having begun before it, ends after the window begins.  Only a series
    whose rule was cut at the limit of occurrences is let off. *)
Theorem feed_shows_all body ctx es e a en ev :
  has_header body = true -> parse_calendar body = inl es -> counts ctx es e a en ->
  unlimited ctx e a en -> shown ctx es e a en ev ->
  exists out, parse_feed body ctx = inl out /\ ev ∈ events out.
Proof.
  intros Hb Hes (He & Hc & (p & Hp & Ha) & Hen) Hl Hs. unfold parse_feed. rewrite Hb, Hes.
  eexists. split; [done|]. rewrite read_events_added. apply list_elem_of_join.
  eexists. split; [|by apply list_elem_of_fmap_2]. unfold added, push_event. rewrite Hc, Hp, Ha, Hen. cbv zeta.
  destruct Hs as [Hr Hov|set t Hr Hset Ht Ho Hov].
  - apply overlaps_touches in Hov. rewrite Hr, Hov. by left.
  - specialize (Hl set Hset). destruct (recurrence_lines e a ctx) as [|l ls] eqn:El; [done|].
    rewrite Hset. destruct (all_between set _ _ _) as [dates limited] eqn:Ed. cbn [snd] in Hl.
    apply in_expanded. exists t. rewrite duration_eq, override_pass_spec, overlaps_touches. split_and!; try done.
    replace dates with (dates, limited).1 by done. rewrite <- Ed. apply all_complete; [by rewrite Ed | done|].
    destruct Hov as [H1 H2]. unfold slack, seconds. split; [|lia].
    destruct H2 as [H2|(x & Hx & H2)]; [lia|]. destruct en as [y|]; [|done]. cbn in Hx |- *.
    injection Hx as <-. lia.
Qed.

(** A component that cannot be used costs itself only: the feed shows the same with
    it and without it. *)
Theorem bad_component_is_alone ctx l1 bad l2 :
  (forall k, override_of ctx bad <> Some (inl k)) ->
  (is_cancelled bad = true \/ forall o, exists w, push_event bad ctx o = inr w) ->
  events (read_events ctx (l1 ++ bad :: l2)) = events (read_events ctx (l1 ++ l2)).
Proof.
  intros Hk Hbad. rewrite !read_events_added.
  assert ((override_pass ctx (l1 ++ bad :: l2)).1 = (override_pass ctx (l1 ++ l2)).1) as ->.
  { apply set_eq. intros k. rewrite !override_pass_spec. unfold replaced.
    setoid_rewrite elem_of_app. setoid_rewrite elem_of_cons. split.
    - intros (e & [H|[->|H]] & E); [exists e; tauto | by destruct (Hk k) | exists e; tauto].
    - intros (e & H & E). exists e. tauto. }
  rewrite !fmap_app, !join_app. f_equal. cbn [fmap list_fmap mjoin list_join].
  replace (added ctx _ bad) with (@nil CalendarEvent); [done|]. unfold added.
  destruct Hbad as [->|Hbad]; [done|]. destruct (Hbad (override_pass ctx (l1 ++ l2)).1) as [w ->].
  by destruct (is_cancelled bad).
Qed.

(** ** The service *)

(** The body a link has now, wherever it comes from. *)
Definition body_of (http : string -> Response) (now : instant) (cfg : CalendarConfig) (cache : Cache)
    (link : string) : option string :=
  match cache !! link with
  | Some c =>
      if num_minutes (now - fetched_at c) <? cache_duration_minutes cfg then Some (cached_body c)
      else fst <$> (fetch http now link cache).1
  | None => fst <$> (fetch http now link cache).1
  end.

Lemma feed_body_is http now source cfg cache :
  fst <$> (feed_body http now source cfg cache).1 = body_of http now cfg cache (ical_link source).
Proof. unfold feed_body, body_of. destruct (_ !! _) as [c|]; [|done]. by destruct (_ <? _). Qed.

Lemma fetch_same http now link cache cache' : (fetch http now link cache).1 = (fetch http now link cache').1.
Proof.
  unfold fetch. destruct (http link) as [|status [body|]]; [done| |done]. by destruct (is_success status).
Qed.

Lemma feed_body_keeps http now source cfg cache link :
  body_of http now cfg (feed_body http now source cfg cache).2 link = body_of http now cfg cache link.
Proof.
  assert (body_of http now cfg (fetch http now (ical_link source) cache).2 link = body_of http now cfg cache link \/
    exists c, cache !! ical_link source = Some c /\
      num_minutes (now - fetched_at c) <? cache_duration_minutes cfg = true) as H.
  { unfold fetch. destruct (http (ical_link source)) as [|status [body|]] eqn:Eh; [by left| |by left].
    destruct (is_success status) eqn:Es; [|by left]. cbn [snd].
    destruct (decide (ical_link source = link)) as [<-|Hne].
    - destruct (cache !! ical_link source) as [c|] eqn:Ec.
      + destruct (num_minutes (now - fetched_at c) <? cache_duration_minutes cfg) eqn:Ef; [right; by exists c|left].
        unfold body_of. rewrite lookup_insert_eq, Ec, Ef. cbn [fetched_at cached_body].
        unfold fetch. rewrite Eh, Es. destruct (num_minutes (now - now) <? _); reflexivity.
      + left. unfold body_of. rewrite lookup_insert_eq, Ec. cbn [fetched_at cached_body].
        unfold fetch. rewrite Eh, Es. destruct (num_minutes (now - now) <? _); reflexivity.
    - left. unfold body_of. rewrite lookup_insert_ne by done. destruct (cache !! link) as [c|].
      + by rewrite (fetch_same http now link _ cache).
      + by rewrite (fetch_same http now link _ cache). }
  unfold feed_body. destruct (cache !! ical_link source) as [c|] eqn:Ec.
  - destruct (_ <? _) eqn:Ef; [done|]. destruct H as [H|(c' & [= <-] & H)]; [done|congruence].
  - by destruct H as [H|(c' & H & _)].
Qed.

(** What one source shows on its own. *)
Definition source_alone (http : string -> Response) (now : instant) (cfg : CalendarConfig) (tz : Tz)
    (f t : instant) (cache : Cache) (source : CalendarSource) : list CalendarEvent :=
  if source_enabled source then
    match body_of http now cfg cache (ical_link source) with
    | Some body =>
        match parse_feed body {| ctx_name := name source; ctx_color := color source; site_tz := tz;
                                 from := f; to := t |} with
        | inl out => events out
        | inr _ => []
        end
    | None => []
    end
  else [].

Lemma sources_events http now cfg tz f t cache0 sources : forall acc,
  (forall link, body_of http now cfg acc.2 link = body_of http now cfg cache0 link) ->
  (foldl (source_events http now cfg tz f t) acc sources).1 =
    acc.1 ++ mjoin (source_alone http now cfg tz f t cache0 <$> sources).
Proof.
  induction sources as [|src l IH]; intros acc H; [cbn; by rewrite app_nil_r|].
  cbn [foldl fmap list_fmap mjoin list_join]. unfold source_events at 2, source_alone at 1.
  destruct (source_enabled src); cbn [negb]; [|by rewrite IH].
  rewrite <- (H (ical_link src)), <- feed_body_is.
  pose proof (feed_body_keeps http now src cfg acc.2) as Hk.
  destruct (feed_body http now src cfg acc.2) as [[[body fresh]|] cache'] eqn:Ef; cbn [fst snd fmap option_fmap option_map] in *.
  - destruct (parse_feed body _) as [out|w]; rewrite IH; cbn [fst snd];
      try (intros link; by rewrite Hk); [by rewrite <- app_assoc | done].
  - rewrite IH; [done|]. intros link. cbn [snd]. by rewrite Hk.
Qed.

Lemma sort_by_sorted (l : list CalendarEvent) : Sorted (fun a b => start a <= start b) (sort_by no_later l).
Proof.
  induction l as [|x l IH]; [constructor|]. cbn [sort_by foldr]. fold (sort_by no_later l).
  induction IH as [|y l' Hs IH' Hh]; cbn [insert_by]; [by repeat constructor|].
  assert (forall a b, no_later a b = false -> start b <= start a) as Hf.
  { intros a b. unfold no_later. intros H. apply orb_false_iff in H as [H _]. by apply Z.ltb_ge in H. }
  assert (forall a b, no_later a b = true -> start a <= start b) as Ht.
  { intros a b. unfold no_later. intros H. apply orb_true_iff in H as [H%Z.ltb_lt|[H%Z.eqb_eq _]%andb_true_iff]; lia. }
  destruct (no_later x y) eqn:E.
  - constructor; [by constructor|]. constructor. by apply Ht.
  - constructor; [done|]. destruct l' as [|z l']; cbn [insert_by] in *; [constructor; by apply Hf|].
    destruct (no_later x z); constructor; [by apply Hf|]. by inversion Hh.
Qed.

(** A window of the calendar is the first thousand, in order of their beginnings, of
    what each enabled source shows on its own: a source that cannot be fetched or read
    takes nothing from the others. *)
Theorem window_is_the_sum http now cfg tz f t cache : enabled cfg = true ->
  exists evs, (get_events_between http now cfg tz f t cache).1 = take MAX_EVENTS_IN_WINDOW evs /\
    evs ≡ₚ mjoin (source_alone http now cfg tz f t cache <$> calendars cfg) /\
    Sorted (fun a b => start a <= start b) evs.
Proof.
  intros He. unfold get_events_between, events_between. rewrite He. cbn [negb].
  pose proof (sources_events http now cfg tz f t cache (calendars cfg) ([], cache) (fun _ => eq_refl)) as H.
  destruct (foldl _ _ _) as [evs cache']. cbn [fst] in *. subst evs. cbn [app].
  eexists. split; [done|]. split; [apply sort_by_perm | apply sort_by_sorted].
Qed.

(** ** The window *)

(** A window that was asked for runs from the first instant of its first day; where that
    day begins at midnight and the last day is of twenty-four hours, to the end of it. *)
Lemma window_runs_to_the_midnight f t tz lookahead now d d' a b :
  parse_date f "%Y-%m-%d" = inl d -> parse_date t "%Y-%m-%d" = inl d' ->
  earliest (from_local_datetime tz (d * day)) = Some a ->
  earliest (from_local_datetime tz (d' * day)) = Some b -> a < b + day ->
  bounds (Some f) (Some t) tz lookahead now = inl (Some (a, b + day)).
Proof.
  intros H1 H2 H3 H4 Hab. unfold bounds, start_of_day. rewrite H1, H2, H3, H4. cbn [default from_option id].
  destruct (b + day <=? a) eqn:E; [apply Z.leb_le in E; lia|]. done.
Qed.

(** A last day of twenty-five hours, as at the end of summer time, loses its last: the
    bound is not the next midnight. *)
Lemma last_hour_is_lost f t tz lookahead now d d' a b c :
  parse_date f "%Y-%m-%d" = inl d -> parse_date t "%Y-%m-%d" = inl d' ->
  earliest (from_local_datetime tz (d * day)) = Some a ->
  earliest (from_local_datetime tz (d' * day)) = Some b -> a < b + day ->
  local_midnight (d' + 1) tz = c -> c = b + 25 * hour ->
  bounds (Some f) (Some t) tz lookahead now = inl (Some (a, c - hour)).
Proof.
  intros H1 H2 H3 H4 Hab _ ->. rewrite (window_runs_to_the_midnight f t tz lookahead now d d' a b) by done.
  do 3 f_equal. unfold day, hour, seconds. lia.
Qed.

(** Where midnight is skipped, the first instant of the day is taken an hour past
    midnight in UTC, not in the zone; the feeds read the same midnight rightly. *)
Lemma skipped_midnight x tz d b : parse_date x "%Y-%m-%d" = inl d ->
  from_local_datetime tz (d * day) = LNone -> from_local_datetime tz (d * day + 1 * hour) = Single b ->
  start_of_day x tz = inl (d * day + hour) /\ local_midnight d tz = b.
Proof.
  intros H1 H2 H3. unfold start_of_day, local_midnight, to_utc. rewrite H1, H2. cbn [earliest default from_option].
  split; [done|]. cbn [fmap list_fmap find_first]. by rewrite H3.
Qed.

(** In a gap the clock is walked on by whole hours: what is 2:30 where 2:00 to 3:00 are
    skipped is 3:30, half an hour past the instant the gap begins. *)
Lemma gap_is_walked n tz b : from_local_datetime tz n = LNone ->
  from_local_datetime tz (n + 1 * hour) = Single b -> to_utc n tz = b.
Proof. intros H1 H2. unfold to_utc. rewrite H1. cbn [earliest fmap list_fmap find_first]. by rewrite H2. Qed.
End Calendar.
End Calendar.
