(* ===== verification/CalendarWitnesses.v ===== *)
(** * A feed with a moved evening

    An evening at six every day; the second one was moved to eight. *)
From Stdlib Require Import Ascii Sorted.
From S2P Require Import Prelude Text Schedules Calendar.
Import Text Schedules Calendar.

Module CalendarExample.

#[local] Open Scope string_scope.
#[local] Open Scope list_scope.
#[local] Open Scope Z_scope.

(** One zone, hours as texts, properties in lists, rules that are their occurrences. *)
#[local] Instance zones : Zones := {|
  Tz := unit; UTC := tt; tz_parse := fun _ => Some tt; tz_name := fun _ => "UTC";
  from_local_datetime := fun _ n => Single n |}.

Definition hours : list (string * Z) := [("T18", 18); ("T42", 42); ("T44", 44)].

#[local] Instance chrono : Chrono := {|
  parse_date := fun _ _ => inr "no date";
  parse_datetime := fun s _ =>
    match find_first (fun kv => kv.1 ≟ s) hours with Some kv => inl (kv.2 * hour) | None => inr "no time" end;
  format_date := fun d _ => pretty d; format_datetime := fun n _ => pretty n |}.

Definition look (l : list (string * string)) (k : string) : option string :=
  snd <$> find_first (fun kv => kv.1 ≟ k) l.

Definition evening : list (string * string) :=
  [("UID", "open"); ("SUMMARY", "Open night"); ("DTSTART", "T18"); ("RRULE", "daily")].
Definition moved : list (string * string) :=
  [("UID", "open"); ("SUMMARY", "Open night, late"); ("DTSTART", "T44"); ("RECURRENCE-ID", "T42")].
Definition broken : list (string * string) := [("SUMMARY", "Party")].

#[local] Instance icalendar : ICalendar := {|
  Property := string; prop_value := fun s => s; tzid_param := fun _ => None;
  IcalEvent := list (string * string);
  properties := look; multi_properties := fun _ _ => None;
  get_uid := fun e => look e "UID"; get_summary := fun e => look e "SUMMARY";
  get_description := fun e => look e "DESCRIPTION"; property_value := look;
  parse_calendar := fun _ => inl [evening; moved; broken] |}.

Definition evenings : list instant := (fun h => h * hour) <$> [18; 42; 66; 90].

#[local] Instance rrules : RRules := {|
  RRuleSet := list instant; parse_rules := fun _ => inl evenings;
  all_between := fun set a b n => (List.filter (fun t => (a <=? t) && (t <=? b)) set, false) |}.

#[local] Instance rrule_laws : RRuleLaws.
Proof.
  refine {| occurs := fun set t => t ∈ (set : list instant) |}.
  - intros set a b n t H. by apply elem_of_lfilter in H as [H _].
  - intros set a b n t _ H Hab. apply elem_of_lfilter. split; [done|]. apply andb_true_iff.
    split; apply Z.leb_le; lia.
Defined.

Definition html (s : string) : option string := Some s.
Definition here : Tz := tt.

Definition ctx : FeedContext := {|
  ctx_name := "Space"; ctx_color := "#428bca"; site_tz := tt; from := 0; to := 72 * hour |}.

Definition body : string := "BEGIN:VCALENDAR".
Definition quote (s : string) : string := s.
Definition out : ParseOutcome := read_events html quote ctx [evening; moved; broken].

Lemma reads : parse_feed html quote body ctx = inl out.
Proof. reflexivity. Qed.

(** The first and the third evening, and the second at its new time. *)
Lemma starts : (start <$> events out) = [18 * hour; 66 * hour; 44 * hour] /\
  warnings out = ["Party: skipped: no DTSTART"].
Proof. vm_compute. split; reflexivity. Qed.

Definition late : CalendarEvent := {|
  title := "Open night, late"; description := None; description_html := None; start := 44 * hour;
  end_ := None; location := None; calendar_name := "Space"; calendar_color := "#428bca"; all_day := false |}.

Lemma feed_shows_only_witness : late ∈ events out /\ start late < to ctx.
Proof.
  assert (late ∈ events out) as H by (right; right; left).
  destruct (feed_shows_only html quote body ctx out late reads H) as (es & e & a & en & _ & _ & _ & Hs & _).
  exact (conj H Hs).
Defined.

Definition third : CalendarEvent := {|
  title := "Open night"; description := None; description_html := None; start := 66 * hour;
  end_ := None; location := None; calendar_name := "Space"; calendar_color := "#428bca"; all_day := false |}.

Lemma evening_counts : counts quote ctx [evening; moved; broken] evening (Timed (18 * hour) tt) None.
Proof. split; [left|]. split; [reflexivity|]. split; [by exists "T18"|reflexivity]. Qed.

Lemma third_not_replaced : ~ replaced quote ctx [evening; moved; broken] ("open", 66 * hour).
Proof.
  intros (e & He & H). rewrite !elem_of_cons, elem_of_nil in He.
  destruct_or! He; subst; vm_compute in H; done.
Qed.

Lemma third_touches : touches ctx (66 * hour) None.
Proof. split; [reflexivity|]. left. discriminate. Qed.

Lemma feed_shows_all_witness : exists out, parse_feed html quote body ctx = inl out /\ third ∈ events out.
Proof.
  refine (feed_shows_all html quote body ctx [evening; moved; broken] evening (Timed (18 * hour) tt) None third
    eq_refl eq_refl evening_counts _ _).
  - intros set _. reflexivity.
  - refine (shown_series html quote ctx [evening; moved; broken] evening (Timed (18 * hour) tt) None evenings
      (66 * hour) _ eq_refl _ third_not_replaced third_touches).
    + discriminate.
    + right. right. left.
Defined.

Lemma bad_component_is_alone_witness :
  events (read_events html quote ctx ([evening; moved] ++ broken :: [])) =
  events (read_events html quote ctx ([evening; moved] ++ [])).
Proof.
  refine (bad_component_is_alone html quote ctx [evening; moved] broken [] _ _).
  - intros k. discriminate.
  - right. intros o. exists "no DTSTART". reflexivity.
Defined.

Definition source : CalendarSource := {|
  ical_link := "https://a"; name := "Space"; color := "#428bca"; source_enabled := true |}.
Definition down : CalendarSource := {|
  ical_link := "https://b"; name := "Other"; color := "#fff"; source_enabled := true |}.
Definition config : CalendarConfig := {|
  enabled := true; calendars := [down; source]; cache_duration_minutes := 15; max_events_display := 10;
  lookahead_days := 30 |}.
Definition http (link : string) : Response := if link ≟ "https://a" then Answered 200 (Some body) else SendFailed.

Lemma window_is_the_sum_witness : exists evs,
  (get_events_between html quote http 0 config here 0 (72 * hour) ∅).1 = take MAX_EVENTS_IN_WINDOW evs /\
  Sorted (fun a b => start a <= start b) evs.
Proof.
  destruct (window_is_the_sum html quote http 0 config here 0 (72 * hour) ∅ eq_refl) as (evs & H1 & _ & H2).
  exact (ex_intro _ evs (conj H1 H2)).
Defined.

End CalendarExample.
