(* ===== verification/GroupsIo.v ===== *)
(** * The mailing list ([server/src/groupsio_sync.rs], [groupsio.rs], [api/groupsio.rs])

    A group at Groups.io mirrors the membership: events push single changes, a periodic
    pass compares the whole roster, and a signed webhook tells of members who left by
    themselves. *)
From Stdlib Require Import Ascii QArith.
From S2P Require Import Prelude Text Wire Faults Money AuditLog Database Api Accounts Webhooks.
Import Text Faults Audit Database Api Accounts.

Module GroupsIo.

#[local] Open Scope string_scope.
#[local] Open Scope list_scope.
#[local] Open Scope Z_scope.

(** ** Addresses *)

Definition normalize_email (email : string) : string := to_ascii_lowercase (trim email).

Definition intended_subscribed (is_active email_verified opted_out : bool) : bool :=
  is_active && email_verified && negb opted_out.

(** ** The plan of a pass *)

Record ReconcilePlan := {
  to_add : list string;
  to_remove : list string;
  to_opt_out : list string;
}.

(** A [BTreeSet] of normalized addresses, in the order it is walked. *)
Definition address_set (l : list string) : list string := sort_by String.leb (remove_dups (normalize_email <$> l)).

Definition member (e : string) (l : list string) : bool := bool_decide (e ∈ l).

Definition reconcile_plan (intended current past protected : list string) : ReconcilePlan :=
  let intended := address_set intended in
  let current := address_set current in
  let past := address_set past in
  let protected := address_set protected in
  {| to_add := List.filter (fun e => negb (member e current) && negb (member e past)) intended;
     to_remove := List.filter (fun e => negb (member e intended) && negb (member e protected)) current;
     to_opt_out := List.filter (fun e => member e past && negb (member e current)) intended |}.

Record ReconcileOutcome := {
  added : nat;
  removed : nat;
  opted_out : nat;
  ok : bool;
  error : option string;
}.

(** ** The client *)

(** One attempt: an answer with its status, or no answer. *)
Inductive Attempt : Type :=
  | Answered (status : Z) (body : string)
  | Unreachable (what : string).

Inductive GroupsioError : Type :=
  | Disabled
  | Configuration (what : string)
  | Network (what : string)
  | ApiStatus (status : Z) (body : string)
  | Parse (what : string).

(** [Display]. *)
Definition groupsio_error_text (e : GroupsioError) : string :=
  match e with
  | Disabled => "Groups.io integration is disabled"
  | Configuration w => "Groups.io configuration error: " +:+ w
  | Network w => "Network error talking to Groups.io: " +:+ w
  | ApiStatus status body => "Groups.io returned status " +:+ pretty status +:+ ": " +:+ body
  | Parse w => "Failed to parse Groups.io response: " +:+ w
  end.

Definition MAX_ATTEMPTS : nat := 3.
Definition PAGE_LIMIT : Z := 100.

Definition is_success (status : Z) : bool := (200 <=? status) && (status <? 300).
Definition retryable (status : Z) : bool := (status =? 429) || ((500 <=? status) && (status <? 600)).

(** [attempts] are what the tries would meet, in turn; with what is left after the
    request is done. *)
Fixpoint send_from (left : nat) (attempts : list Attempt) : (string + GroupsioError) * list Attempt :=
  match left, attempts with
  | S n, a :: rest =>
      match a with
      | Answered status body =>
          if is_success status then (inl body, rest)
          else if negb (retryable status) || (n =? 0)%nat then (inr (ApiStatus status body), rest)
          else send_from n rest
      | Unreachable what => if (n =? 0)%nat then (inr (Network what), rest) else send_from n rest
      end
  | _, _ => (inr (Network "no attempts made"), attempts)
  end.

Definition send_retrying (attempts : list Attempt) : (string + GroupsioError) * list Attempt :=
  send_from MAX_ATTEMPTS attempts.

(** [1 << (attempt - 1)] seconds. *)
Definition backoff (attempt : nat) : duration := seconds (2 ^ (Z.of_nat attempt - 1)).

(** A page of a listing, as serde reads it. *)
Record MemberListResponse := {
  data : list (string * option string);
  has_more : bool;
  next_page_token : Z;
}.

(** The addresses a listing gives: a member without one is passed over. *)
Definition addressed (l : list string) : list string := List.filter (fun e => negb (e ≟ EmptyString)) l.

(** The addresses of the pages up to the last; [pages] is what each request for one
    gave. *)
Fixpoint list_pages (pages : list (MemberListResponse + GroupsioError)) (out : list string) :
    option (list string + GroupsioError) :=
  match pages with
  | [] => None
  | inr e :: _ => Some (inr e)
  | inl page :: rest =>
      let out := out ++ addressed (data page).*1 in
      if negb (has_more page) || (next_page_token page =? 0) then Some (inl out) else list_pages rest out
  end.

Definition list_query (group_id : string) (limit : Z) (page_token : option Z) : list (string * string) :=
  [("group_id", group_id); ("limit", pretty limit)] ++
  match page_token with Some t => [("page_token", pretty t)] | None => [] end.

Definition address_lines (emails : list string) : string :=
  match emails with
  | [] => EmptyString
  | e :: es => foldl (fun acc x => acc +:+ String.String (Ascii.ascii_of_nat 10) x) e es
  end.

Definition direct_add_form (group_id : string) (emails : list string) : list (string * string) :=
  [("group_id", group_id); ("emails", address_lines emails)].

Definition remove_form (group_id : string) (emails : list string) : list (string * string) :=
  [("group_id", group_id); ("emails", address_lines emails)].

(** The group on the other side, by what the API documents of its calls: a direct add
    makes members, a bulk removal unmakes them. *)
Class Service := {
  group : Type;
  group_members : group -> list string;
  past_members : group -> list string;
  direct_add : list string -> group -> group;
  remove_members : list string -> group -> group;
  direct_add_members : forall es g e,
    e ∈ normalize_email <$> group_members (direct_add es g) <->
    e ∈ normalize_email <$> group_members g \/ e ∈ normalize_email <$> es;
  remove_members_members : forall es g e,
    e ∈ normalize_email <$> group_members (remove_members es g) <->
    e ∈ normalize_email <$> group_members g /\ e ∉ normalize_email <$> es;
}.

Section GroupsIo.
Context {U : Uuid} {CF : CaseFold} {SV : Service} {LB : Webhooks.Libraries}.

(** ** Tables *)

(** The columns of a user the list looks at. *)
Record Member := {
  gm_id : uuid;
  gm_email : string;
  gm_is_active : bool;
  gm_email_verified_at : option instant;
  gm_opt_out_at : option instant;
}.

Record NewGroupsioSyncRun := {
  run_started_at : instant;
  run_finished_at : instant;
  run_added : Z;
  run_removed : Z;
  run_opted_out : Z;
  run_ok : bool;
  run_error : option string;
}.

(** A row of the audit log: what, of whom, by whom, with what. *)
Definition audit_row : Type := AuditEventType * option uuid * option uuid * json.

Record ListDb := {
  list_members : list Member;
  (** [user_emails]: every address of every account. *)
  list_addresses : list (uuid * string);
  sync_runs : list NewGroupsioSyncRun;
  sync_audit : list audit_row;
  the_group : group;
}.

Definition with_list_members (f : list Member -> list Member) (db : ListDb) : ListDb := {|
  list_members := f (list_members db); list_addresses := list_addresses db; sync_runs := sync_runs db;
  sync_audit := sync_audit db; the_group := the_group db |}.

Definition with_sync_runs (f : list NewGroupsioSyncRun -> list NewGroupsioSyncRun) (db : ListDb) : ListDb := {|
  list_members := list_members db; list_addresses := list_addresses db; sync_runs := f (sync_runs db);
  sync_audit := sync_audit db; the_group := the_group db |}.

Definition with_sync_audit (f : list audit_row -> list audit_row) (db : ListDb) : ListDb := {|
  list_members := list_members db; list_addresses := list_addresses db; sync_runs := sync_runs db;
  sync_audit := f (sync_audit db); the_group := the_group db |}.

Definition with_group (f : group -> group) (db : ListDb) : ListDb := {|
  list_members := list_members db; list_addresses := list_addresses db; sync_runs := sync_runs db;
  sync_audit := sync_audit db; the_group := f (the_group db) |}.

Abbreviation M := (Faults.M ListDb DatabaseError).

Record GroupsioConfig := {
  enabled : bool;
  api_key : string;
  group_id : string;
  webhook_secret : string;
  protected_addresses : list string;
}.

(** The settings; how an error of the database reads; what a call to the group that does
    not get through reports. *)
Context (cfg : GroupsioConfig) (error_text : DatabaseError -> string) (unsent : GroupsioError).

Definition is_member (uid : uuid) (m : Member) : bool := gm_id m ≟ uid.

Definition find_user_by_id (uid : uuid) : M (option Member) :=
  select (fun db => find_first (is_member uid) (list_members db)).

Definition owns_address (db : ListDb) (address : string) : option uuid :=
  fst <$> find_first (fun a => lower a.2 ≟ to_lowercase (trim address)) (list_addresses db).

Definition find_user_by_email (address : string) : M (option Member) :=
  select (fun db => uid ← owns_address db address; find_first (is_member uid) (list_members db)).

Definition opt_out_at (t : option instant) (m : Member) : Member := {|
  gm_id := gm_id m; gm_email := gm_email m; gm_is_active := gm_is_active m;
  gm_email_verified_at := gm_email_verified_at m; gm_opt_out_at := t |}.

Definition set_mailing_list_opt_out (uid : uuid) (t : option instant) : M unit :=
  call (fun db =>
    if existsb (is_member uid) (list_members db)
    then (with_list_members (fmap (fun m => if is_member uid m then opt_out_at t m else m)) db, inl tt)
    else (db, inr NotFound)).

(** [WHERE is_active AND email_verified_at IS NOT NULL AND mailing_list_opt_out_at IS NULL]. *)
Definition intended_emails (db : ListDb) : list string :=
  gm_email <$> List.filter (fun m => gm_is_active m && is_some (gm_email_verified_at m) &&
    negb (is_some (gm_opt_out_at m))) (list_members db).

Definition list_mailing_list_intended : M (list string) := select intended_emails.

Definition record_groupsio_sync_run (r : NewGroupsioSyncRun) : M unit :=
  call (fun db => (with_sync_runs (fun l => l ++ [r]) db, inl tt)).

(** Newest first. *)
Definition latest_groupsio_sync_runs (n : nat) : M (list NewGroupsioSyncRun) :=
  select (fun db => take n (sort_by (fun a b => run_started_at b <=? run_started_at a) (sync_runs db))).

Definition create_audit_log (row : audit_row) : M unit :=
  call (fun db => (with_sync_audit (fun l => l ++ [row]) db, inl tt)).

(** ** Calls to the group *)

(** What is refused before anything is sent. *)
Definition settings : option GroupsioError :=
  if negb (enabled cfg) then Some Disabled
  else if trim (api_key cfg) ≟ EmptyString then Some (Configuration "api_key is empty")
  else if trim (group_id cfg) ≟ EmptyString then Some (Configuration "group_id is empty")
  else None.

Definition sent {A} (m : M A) : M (A + GroupsioError) :=
  match settings with
  | Some e => mret (inr e)
  | None => r ← attempt m; mret (match r with inl x => inl x | inr _ => inr unsent end)
  end.

Definition client_add (emails : list string) : M (unit + GroupsioError) :=
  if bool_decide (emails = []) then mret (inl tt)
  else sent (call (fun db => (with_group (direct_add emails) db, inl tt))).

Definition client_remove (emails : list string) : M (unit + GroupsioError) :=
  if bool_decide (emails = []) then mret (inl tt)
  else sent (call (fun db => (with_group (remove_members emails) db, inl tt))).

Definition get_members : M (list string + GroupsioError) :=
  sent (select (fun db => addressed (group_members (the_group db)))).

Definition get_past_members : M (list string + GroupsioError) :=
  sent (select (fun db => addressed (past_members (the_group db)))).

(** A failure to log is logged and forgotten. *)
Definition log_row (row : audit_row) : M unit := _ ← attempt (create_audit_log row); mret tt.

Definition record (event : AuditEventType) (uid : option uuid) (emails : list string) : M unit :=
  log_row (event, uid, None, JObj [("emails", JArr (JStr <$> emails))]).

Definition record_reason (event : AuditEventType) (uid : option uuid) (email reason : string) : M unit :=
  log_row (event, uid, None, JObj [("email", JStr email); ("reason", JStr reason)]).

(** ** Events *)

Definition intended (m : Member) : bool :=
  intended_subscribed (gm_is_active m) (is_some (gm_email_verified_at m)) (is_some (gm_opt_out_at m)).

(** Add a user if they belong on the list now. *)
Definition add_if_intended (uid : uuid) : M unit :=
  r ← attempt (find_user_by_id uid);
  match r with
  | inl (Some u) =>
      if negb (intended u) then mret tt
      else
        r ← client_add [gm_email u];
        match r with
        | inl _ => record MailingListSyncAdd (Some uid) [gm_email u]
        | inr _ => mret tt
        end
  | _ => mret tt
  end.

Definition remove (emails : list string) : M unit :=
  r ← client_remove emails;
  match r with
  | inl _ => record MailingListSyncRemove None emails
  | inr _ => mret tt
  end.

Definition email_of (uid : uuid) : M (option string) :=
  r ← attempt (find_user_by_id uid);
  mret match r with inl (Some u) => Some (gm_email u) | _ => None end.

Record AuditLog := {
  ev_type : string;
  ev_user_id : option uuid;
  ev_data : json;
}.

Definition when_some {A} (o : option A) (k : A -> M unit) : M unit :=
  match o with Some x => k x | None => mret tt end.

Definition handle_event (event : AuditLog) : M unit :=
  if negb (enabled cfg) then mret tt
  else match find_first (fun k => AuditClass.as_str k ≟ ev_type event) AuditClass.all with
  | Some (MailingListSubscribe | EmailVerified | UserActivation) => when_some (ev_user_id event) add_if_intended
  | Some (MailingListUnsubscribe | UserDeactivation) =>
      when_some (ev_user_id event) (fun uid =>
        e ← email_of uid; when_some e (fun e => remove [e]))
  | Some UserDeletion =>
      when_some (json_get (ev_data event) "deleted_email" ≫= json_as_str) (fun e => remove [e])
  | Some UserEmailChange =>
      _ ← when_some (json_get (ev_data event) "old_email" ≫= json_as_str) (fun e => remove [e]);
      when_some (ev_user_id event) add_if_intended
  | _ => mret tt
  end.

(** ** A pass *)

Definition failed (o : ReconcileOutcome) (what : string) : ReconcileOutcome := {|
  added := added o; removed := removed o; opted_out := opted_out o; ok := ok o; error := Some what |}.

Definition nothing_done : ReconcileOutcome := {| added := 0; removed := 0; opted_out := 0; ok := false; error := None |}.

(** One address that left by itself: whether an opt-out was recorded. *)
Definition opt_out_one (now : instant) (email : string) : M bool :=
  r ← attempt (find_user_by_email email);
  match r with
  | inl (Some u) =>
      r ← attempt (set_mailing_list_opt_out (gm_id u) (Some now));
      match r with
      | inl _ => _ ← record_reason MailingListSyncRemove (Some (gm_id u)) email "external_unsubscribe"; mret true
      | inr _ => mret false
      end
  | _ => mret false
  end.

Fixpoint opt_out_each (now : instant) (emails : list string) (n : nat) : M nat :=
  match emails with
  | [] => mret n
  | e :: es => done ← opt_out_one now e; opt_out_each now es (if done : bool then S n else n)
  end.

(** An empty batch sends nothing and records nothing. *)
Definition batch (emails : list string) (send : list string -> M (unit + GroupsioError)) (event : AuditEventType) :
    M (nat + GroupsioError) :=
  if bool_decide (emails = []) then mret (inl 0%nat)
  else
    r ← send emails;
    match r with
    | inl _ => _ ← record event None emails; mret (inl (length emails))
    | inr e => mret (inr e)
    end.

Definition apply_plan (now : instant) (plan : ReconcilePlan) : M ReconcileOutcome :=
  a ← batch (to_add plan) client_add MailingListSyncAdd;
  match a with
  | inr e => mret (failed nothing_done ("direct_add: " +:+ groupsio_error_text e))
  | inl a =>
      r ← batch (to_remove plan) client_remove MailingListSyncRemove;
      match r with
      | inr e => mret (failed {| added := a; removed := 0; opted_out := 0; ok := false; error := None |}
                         ("remove_members: " +:+ groupsio_error_text e))
      | inl r =>
          n ← opt_out_each now (to_opt_out plan) 0;
          mret {| added := a; removed := r; opted_out := n; ok := true; error := None |}
      end
  end.

Definition reconcile_apply (now : instant) : M ReconcileOutcome :=
  if negb (enabled cfg) then mret (failed nothing_done "Groups.io integration is disabled")
  else
    i ← attempt list_mailing_list_intended;
    match i with
    | inr e => mret (failed nothing_done ("load intended roster: " +:+ error_text e))
    | inl i =>
        c ← get_members;
        match c with
        | inr e => mret (failed nothing_done ("get_members: " +:+ groupsio_error_text e))
        | inl c =>
            p ← get_past_members;
            match p with
            | inr e => mret (failed nothing_done ("get_past_members: " +:+ groupsio_error_text e))
            | inl p => apply_plan now (reconcile_plan i c p (protected_addresses cfg))
            end
        end
    end.

Definition reconcile_once (started finished : instant) : M ReconcileOutcome :=
  o ← reconcile_apply started;
  _ ← attempt (record_groupsio_sync_run {|
        run_started_at := started; run_finished_at := finished; run_added := as_i32 (Z.of_nat (added o));
        run_removed := as_i32 (Z.of_nat (removed o)); run_opted_out := as_i32 (Z.of_nat (opted_out o));
        run_ok := ok o; run_error := error o |});
  mret o.

(** ** The routes *)

Abbreviation R := (Faults.M ListDb ApiError).

Definition lift {A} (m : M A) : R A := map_err api_error m.

Definition require_enabled : R unit :=
  if enabled cfg then mret tt else throw (Forbidden "Groups.io integration is disabled in server configuration").

Record SubscriptionStatus := { subscribed : bool; status_email_verified : bool }.

Record GroupsioStatus := {
  status_enabled : bool;
  intended_count : nat;
  recent_runs : list NewGroupsioSyncRun;
}.

Definition admin_status : R GroupsioStatus :=
  _ ← require_enabled;
  i ← lift list_mailing_list_intended;
  runs ← lift (latest_groupsio_sync_runs 20);
  mret {| status_enabled := true; intended_count := length i; recent_runs := runs |}.

(** [running]: the service was started at boot. *)
Definition admin_reconcile (running : bool) (started finished : instant) : R ReconcileOutcome :=
  _ ← require_enabled;
  if running then lift (reconcile_once started finished)
  else throw (InternalServerError "Groups.io sync service is not running").

(** [u]: the member as authentication read the row. *)
Definition get_subscription (u : Member) : R SubscriptionStatus :=
  _ ← require_enabled;
  mret {| subscribed := negb (is_some (gm_opt_out_at u)); status_email_verified := is_some (gm_email_verified_at u) |}.

Definition set_subscription (now : instant) (u : Member) (want : bool) : R SubscriptionStatus :=
  _ ← require_enabled;
  let currently_subscribed := negb (is_some (gm_opt_out_at u)) in
  _ ← (if Bool.eqb want currently_subscribed then mret tt
       else
         _ ← lift (set_mailing_list_opt_out (gm_id u) (if want then None else Some now));
         lift (log_row (if want then MailingListSubscribe else MailingListUnsubscribe, Some (gm_id u), Some (gm_id u),
                        JObj [("email", JStr (gm_email u)); ("subscribed", JBool want)])));
  mret {| subscribed := want; status_email_verified := is_some (gm_email_verified_at u) |}.

(** ** The inbound webhook *)

Definition sign_body (secret : string) (body : list ascii) : string := Webhooks.sign secret body.

Definition verify_signature (secret : string) (body : list ascii) (provided : string) : bool :=
  if secret ≟ EmptyString then false
  else Wire.constant_time_str_eq (sign_body secret body) (default provided (strip_prefix "sha256=" provided)).

Definition str_contains (s needle : string) : bool := is_some (String.index 0 needle s).

Definition event_indicates_removal (body : json) : bool :=
  existsb (fun key =>
    is_some_and (json_get body key ≫= json_as_str) (fun s =>
      existsb (str_contains (to_ascii_lowercase s)) ["leav"; "remov"; "unsub"; "ban"; "delete"]))
    ["action"; "type"; "event"].

Definition extract_email (body : json) : option string :=
  match json_get body "email" ≫= json_as_str with
  | Some e => Some e
  | None =>
      match omap (fun parent => p ← json_get body parent; e ← json_get p "email"; json_as_str e)
              ["member"; "sub"; "member_info"; "extra"] with
      | e :: _ => Some e
      | [] => None
      end
  end.

Definition parse_membership_removal (body : json) : option string :=
  if event_indicates_removal body then extract_email body else None.

(** [from_slice] is serde_json's; [signature] the header's value where it is text. *)
Definition receive_webhook (from_slice : list ascii -> option json) (now : instant)
    (signature : option string) (body : list ascii) : R bool :=
  if negb (enabled cfg) then throw (NotFoundError "Groups.io integration is not enabled")
  else if trim (webhook_secret cfg) ≟ EmptyString
  then throw (Forbidden "Groups.io inbound webhook is not configured (no webhook_secret)")
  else if negb (verify_signature (webhook_secret cfg) body (default EmptyString signature))
  then throw (Unauthorized "Invalid Groups.io webhook signature")
  else match from_slice body with
  | None => throw (BadRequest "Webhook body is not JSON")
  | Some parsed =>
      match parse_membership_removal parsed with
      | None => mret false
      | Some email =>
          u ← lift (find_user_by_email email);
          match u with
          | Some u =>
              _ ← lift (set_mailing_list_opt_out (gm_id u) (Some now));
              _ ← lift (log_row (MailingListSyncRemove, Some (gm_id u), None,
                    JObj [("email", JStr (gm_email u)); ("reason", JStr "webhook_unsubscribe")]));
              mret true
          | None => mret false
          end
      end
  end.

End GroupsIo.

(** ** Addresses compared *)

Lemma normalize_chars s : valid_utf8 (bytes s) = true ->
  chars (normalize_email s) = fmap (M := list) ascii_lower <$> trim_chars s.
Proof.
  intros Hs. apply chars_whole in Hs. unfold normalize_email, to_ascii_lowercase, trim. rewrite bytes_of_bytes.
  replace (ascii_lower <$> mjoin (trim_chars s)) with (mjoin (fmap (M := list) ascii_lower <$> trim_chars s))
    by (induction (trim_chars s) as [|c cs IH]; [done|]; csimpl; by rewrite fmap_app, IH).
  apply chars_of_wholes. apply Forall_fmap. eapply Forall_impl; [|apply lower_whole].
  by apply strip_Forall.
Qed.

Lemma normalize_twice s : valid_utf8 (bytes s) = true -> normalize_email (normalize_email s) = normalize_email s.
Proof.
  intros Hs. assert (Forall whole (trim_chars s)) as Hw by by apply strip_Forall, chars_whole.
  assert (trim (normalize_email s) = normalize_email s) as Ht.
  { rewrite <- (of_bytes_bytes (normalize_email s)) at 2. rewrite <- chars_join. unfold trim.
    f_equal. f_equal. apply strip_id. rewrite normalize_chars by done.
    destruct (strip_bare is_whitespace (chars s)) as [Hh Hl]. change (strip is_whitespace (chars s)) with (trim_chars s) in Hh, Hl.
    split; intros x Hx.
    - destruct (trim_chars s) as [|c cs]; [done|]. simplify_eq/=. inversion_clear Hw.
      rewrite lower_whitespace by done. exact (Hh c eq_refl).
    - rewrite fmap_last in Hx. destruct (last (trim_chars s)) as [c|] eqn:E; [|done]. simplify_eq/=.
      rewrite lower_whitespace; [exact (Hl c eq_refl)|]. rewrite Forall_forall in Hw. by apply Hw, last_Some_elem_of. }
  unfold normalize_email at 1. rewrite Ht. unfold normalize_email, to_ascii_lowercase. rewrite bytes_of_bytes.
  f_equal. rewrite <- list_fmap_compose. apply list_fmap_ext. intros _ c _. apply ascii_lower_idem.
Qed.

(** The text of a [str]. *)
Definition str (s : string) : Prop := valid_utf8 (bytes s) = true.

Lemma elem_of_address_set e l : e ∈ address_set l <-> e ∈ normalize_email <$> l.
Proof. unfold address_set. by rewrite elem_of_sort_by, elem_of_remove_dups. Qed.

(** Normalized addresses are as they are. *)
Lemma normalize_settled l l' e :
  Forall str l -> l' ⊆ normalize_email <$> l -> e ∈ normalize_email <$> l' <-> e ∈ l'.
Proof.
  intros Hl Hsub. rewrite Forall_forall in Hl.
  assert (forall x, x ∈ l' -> normalize_email x = x) as Hid.
  { intros x (y & -> & Hy)%Hsub%list_elem_of_fmap. by apply normalize_twice, Hl. }
  rewrite list_elem_of_fmap. split; [intros (x & -> & Hx); by rewrite Hid|].
  intros He. exists e. by rewrite Hid.
Qed.

Lemma addressed_same l e : e <> EmptyString ->
  e ∈ normalize_email <$> addressed l <-> e ∈ normalize_email <$> l.
Proof.
  intros He. rewrite !list_elem_of_fmap. unfold addressed. setoid_rewrite elem_of_lfilter.
  split; intros (x & -> & Hx); exists x; [naive_solver|]. repeat split; [done|].
  rewrite negb_true_iff. apply bool_decide_eq_false_2. by intros ->.
Qed.

Section Plan.
Context (i c p q : list string).

Lemma elem_of_to_add e : e ∈ to_add (reconcile_plan i c p q) <->
  e ∈ normalize_email <$> i /\ e ∉ normalize_email <$> c /\ e ∉ normalize_email <$> p.
Proof.
  simpl. rewrite elem_of_lfilter, elem_of_address_set. unfold member.
  rewrite andb_true_iff, !negb_true_iff, !bool_decide_eq_false, !elem_of_address_set. done.
Qed.

Lemma elem_of_to_remove e : e ∈ to_remove (reconcile_plan i c p q) <->
  e ∈ normalize_email <$> c /\ e ∉ normalize_email <$> i /\ e ∉ normalize_email <$> q.
Proof.
  simpl. rewrite elem_of_lfilter, elem_of_address_set. unfold member.
  rewrite andb_true_iff, !negb_true_iff, !bool_decide_eq_false, !elem_of_address_set. done.
Qed.
End Plan.

(** Each address has one fate. *)
Lemma plan_disjoint i c p q e :
  let plan := reconcile_plan i c p q in
  ~ (e ∈ to_add plan /\ e ∈ to_remove plan) /\ ~ (e ∈ to_add plan /\ e ∈ to_opt_out plan) /\
  ~ (e ∈ to_remove plan /\ e ∈ to_opt_out plan).
Proof.
  intros plan. unfold plan. rewrite elem_of_to_add, elem_of_to_remove. cbn [to_opt_out reconcile_plan].
  rewrite elem_of_lfilter, elem_of_address_set. unfold member.
  rewrite andb_true_iff, !negb_true_iff, bool_decide_eq_true, bool_decide_eq_false, !elem_of_address_set. tauto.
Qed.

(** A listing is every page, when each but the last says there is more. *)
Lemma list_pages_all (pages : list MemberListResponse) (last : MemberListResponse) : forall out,
  Forall (fun page => has_more page = true /\ next_page_token page <> 0) pages -> has_more last = false ->
  list_pages (List.map inl (pages ++ [last])) out =
  Some (inl (out ++ addressed (mjoin (M := list) (List.map (fun page => (data page).*1) (pages ++ [last]))))).
Proof.
  assert (forall a b, addressed (a ++ b) = addressed a ++ addressed b) as Happ by (intros; apply List.filter_app).
  induction pages as [|page pages IH]; intros out Hp Hl; csimpl.
  - rewrite Hl. simpl. by rewrite app_nil_r.
  - apply Forall_cons in Hp as [[Hm Ht] Hp]. rewrite Hm. apply Z.eqb_neq in Ht. rewrite Ht. simpl.
    rewrite IH by done. cbn [mjoin list_join]. by rewrite Happ, app_assoc.
Qed.

(** A request is over after three attempts, and only an attempt that succeeded makes it
    succeed. *)
Lemma send_retrying_success attempts body rest :
  send_retrying attempts = (inl body, rest) ->
  exists before status, attempts = before ++ Answered status body :: rest /\ (length before < MAX_ATTEMPTS)%nat /\
    is_success status = true /\
    Forall (fun a => match a with Answered s _ => retryable s = true | Unreachable _ => True end) before.
Proof.
  unfold send_retrying. revert attempts. induction MAX_ATTEMPTS as [|n IH]; intros attempts H; [done|].
  destruct attempts as [|[status b|what] attempts]; simpl in H; [done|..].
  - destruct (is_success status) eqn:Es; [simplify_eq|].
    + exists [], status. repeat split; [simpl; lia | done | constructor].
    + destruct (retryable status) eqn:Er; simpl in H; [|done]. destruct (n =? 0)%nat; [done|].
      destruct (IH _ H) as (before & s & -> & Hn & Hs & Hb).
      exists (Answered status b :: before), s. repeat split; [simpl; lia | done | by constructor].
  - destruct (n =? 0)%nat; [done|]. destruct (IH _ H) as (before & s & -> & Hn & Hs & Hb).
    exists (Unreachable what :: before), s. repeat split; [simpl; lia | done | by constructor].
Qed.

(** ** What a pass leaves of the group *)

Section Pass.
Context {U : Uuid} {CF : CaseFold} {SV : Service}.
Context (cfg : GroupsioConfig) (error_text : DatabaseError -> string) (unsent : GroupsioError).
Implicit Types (g : group) (db : ListDb).

(** The addresses of the members. *)
Definition holds g (e : string) : Prop := e ∈ normalize_email <$> group_members g.

(** A run that leaves the group as it is, and returns. *)
Definition calm {A} g (m : Faults.M ListDb DatabaseError A) : Prop :=
  ends (fun db => the_group db = g) m (fun r db => the_group db = g /\ exists x, r = inl x).

Lemma calm_ret {A} g (x : A) : calm g (mret x).
Proof. apply ends_ret. eauto. Qed.

Lemma calm_bind {A B} g (m : Faults.M ListDb DatabaseError A) (k : A -> Faults.M ListDb DatabaseError B) :
  calm g m -> (forall x, calm g (k x)) -> calm g (m ≫= k).
Proof.
  intros Hm Hk. apply (ends_bind _ m k (fun _ db => the_group db = g)); [|apply Hk].
  eapply ends_post; [apply Hm|]. by intros r db (Hg & x & ->).
Qed.

Lemma calm_attempt {A} g (m : Faults.M ListDb DatabaseError A) :
  keeps (fun db => the_group db = g) m -> calm g (attempt m).
Proof.
  intros Hm. eapply ends_attempt; [by apply ends_keeps|]. intros r db Hg. eauto.
Qed.

Lemma calm_log g row : calm g (log_row row).
Proof.
  unfold log_row. apply calm_bind; [|intros; apply calm_ret]. apply calm_attempt, keeps_call. by intros db.
Qed.

Lemma calm_opt_out_one g now e : calm g (opt_out_one now e).
Proof.
  unfold opt_out_one. apply calm_bind; [by apply calm_attempt, keeps_select|].
  intros [[u|]|?]; [|apply calm_ret..]. apply calm_bind.
  - apply calm_attempt, keeps_call. intros db <-. by destruct (existsb _ _).
  - intros [_|?]; [|apply calm_ret]. apply calm_bind; [apply calm_log | intros; apply calm_ret].
Qed.

Lemma calm_opt_out_each g now es : forall n, calm g (opt_out_each now es n).
Proof.
  induction es as [|e es IH]; intros n; [apply calm_ret|].
  simpl. apply calm_bind; [apply calm_opt_out_one | intros d; apply IH].
Qed.

(** A call that changes the group by [f]. *)
Definition changes (f : group -> group) (m : Faults.M ListDb DatabaseError (unit + GroupsioError)) : Prop :=
  forall g, ends (fun db => the_group db = g) m (fun r db =>
    match r with
    | inl (inl _) => the_group db = f g
    | inl (inr _) => the_group db = g \/ the_group db = f g
    | inr _ => False
    end).

Lemma sent_changes (f : group -> group) :
  changes f (sent cfg unsent (call (fun db => (with_group f db, inl tt)))).
Proof.
  intros g. unfold sent. destruct (settings cfg); [apply ends_ret; by left|].
  apply (ends_bind _ _ _ (fun r db => match r with
    | inl _ => the_group db = f g | inr _ => the_group db = g \/ the_group db = f g end)).
  - intros db fs <-. unfold attempt, call. destruct fs as [|[] fs]; simpl; auto.
  - intros [[]|?]; apply ends_ret; done.
Qed.

(** The group after a batch. *)
Definition done_by (f : list string -> group -> group) (es : list string) g : group :=
  if bool_decide (es = []) then g else f es g.

Lemma batch_changes (f : list string -> group -> group) es send event :
  (forall es, es <> [] -> changes (f es) (send es)) ->
  forall g, ends (fun db => the_group db = g) (batch es send event) (fun r db =>
    match r with
    | inl (inl _) => the_group db = done_by f es g
    | inl (inr _) => the_group db = g \/ the_group db = done_by f es g
    | inr _ => False
    end).
Proof.
  intros Hs g. unfold batch, done_by. case_bool_decide; [by apply ends_ret|].
  apply (ends_bind _ _ _ (fun r db => match r with
    | inl _ => the_group db = f es g | inr _ => the_group db = g \/ the_group db = f es g end)).
  - eapply ends_post; [by apply Hs|]. by intros [[[]|?]|?] db.
  - intros [[]|e]; [|by apply ends_ret].
    apply (ends_bind _ _ _ (fun _ db => the_group db = f es g)); [|intros x; by apply ends_ret].
    eapply ends_post; [apply calm_log|]. by intros r db (Hg & x & ->).
Qed.

Lemma client_add_changes es : es <> [] -> changes (direct_add es) (client_add cfg unsent es).
Proof. intros Hes. unfold client_add. rewrite bool_decide_eq_false_2 by done. apply sent_changes. Qed.

Lemma client_remove_changes es : es <> [] -> changes (remove_members es) (client_remove cfg unsent es).
Proof. intros Hes. unfold client_remove. rewrite bool_decide_eq_false_2 by done. apply sent_changes. Qed.

Lemma batch_added es g e :
  holds (done_by direct_add es g) e <-> holds g e \/ e ∈ normalize_email <$> es.
Proof.
  unfold holds, done_by. case_bool_decide as E; [|apply direct_add_members]. subst. simpl. set_solver.
Qed.

Lemma batch_removed es g e :
  holds (done_by remove_members es g) e <-> holds g e /\ e ∉ normalize_email <$> es.
Proof.
  unfold holds, done_by. case_bool_decide as E; [|apply remove_members_members]. subst. simpl. set_solver.
Qed.

(** The address of an account that is active, verified and has not opted out. *)
Definition meant (db : ListDb) (e : string) : Prop :=
  exists m, m ∈ list_members db /\ normalize_email (gm_email m) = e /\ gm_is_active m = true /\
    (exists t, gm_email_verified_at m = Some t) /\ gm_opt_out_at m = None.

Lemma meant_intended db e : meant db e <-> e ∈ normalize_email <$> intended_emails db.
Proof.
  unfold meant, intended_emails. rewrite list_elem_of_fmap. setoid_rewrite list_elem_of_fmap.
  setoid_rewrite elem_of_lfilter. split.
  - intros (m & Hm & <- & Ha & (t & Ht) & Ho). exists (gm_email m). split; [done|]. exists m.
    by rewrite Ha, Ht, Ho.
  - intros (x & -> & m & -> & Hm & H). exists m. apply andb_true_iff in H as [[Ha Hv]%andb_true_iff Ho].
    destruct (gm_email_verified_at m) as [t|]; [|done]. destruct (gm_opt_out_at m); [done|].
    split_and!; try done. by exists t.
Qed.

(** Who the list owes membership: who is meant to be on it and did not leave it, and a
    protected address that is. *)
Definition owed (db : ListDb) (e : string) : Prop :=
  (meant db e /\
   (holds (the_group db) e \/ e ∉ normalize_email <$> past_members (the_group db))) \/
  (holds (the_group db) e /\ e ∈ normalize_email <$> protected_addresses cfg).

(** Between what there was and what is owed. *)
Definition towards (db0 : ListDb) g (e : string) : Prop :=
  (holds g e -> holds (the_group db0) e \/ owed db0 e) /\ (holds (the_group db0) e -> owed db0 e -> holds g e).

Section Plan_applied.
Context (db0 : ListDb).
Let g0 := the_group db0.
Let plan := reconcile_plan (intended_emails db0) (addressed (group_members g0)) (addressed (past_members g0))
  (protected_addresses cfg).
Context (Hi : Forall str (intended_emails db0)) (Hg : Forall str (group_members g0)).

Lemma added_iff e : e <> EmptyString -> e ∈ normalize_email <$> to_add plan <->
  e ∈ normalize_email <$> intended_emails db0 /\ ~ holds g0 e /\ e ∉ normalize_email <$> past_members g0.
Proof.
  intros He. rewrite (normalize_settled (intended_emails db0)); [|done|by intros x [? _]%elem_of_to_add].
  unfold plan. rewrite elem_of_to_add, !addressed_same by done. done.
Qed.

Lemma removed_iff e : e <> EmptyString -> e ∈ normalize_email <$> to_remove plan <->
  holds g0 e /\ e ∉ normalize_email <$> intended_emails db0 /\ e ∉ normalize_email <$> protected_addresses cfg.
Proof.
  intros He. rewrite (normalize_settled (group_members g0)); [|done|].
  - unfold plan. by rewrite elem_of_to_remove, addressed_same by done.
  - intros x [Hx _]%elem_of_to_remove. apply list_elem_of_fmap in Hx as (y & -> & [Hy _]%elem_of_lfilter).
    by apply list_elem_of_fmap_2.
Qed.

Let g1 := done_by direct_add (to_add plan) g0.
Let g2 := done_by remove_members (to_remove plan) g1.

Lemma plan_owed e : e <> EmptyString -> holds g2 e <-> owed db0 e.
Proof.
  intros He. unfold g2, g1. rewrite batch_removed, batch_added, added_iff, removed_iff by done.
  unfold owed. rewrite meant_intended. fold g0.
  destruct (decide (e ∈ normalize_email <$> intended_emails db0)),
    (decide (e ∈ normalize_email <$> group_members g0)),
    (decide (e ∈ normalize_email <$> past_members g0)),
    (decide (e ∈ normalize_email <$> protected_addresses cfg)); unfold holds; tauto.
Qed.

Lemma half_towards e : e <> EmptyString -> towards db0 g1 e.
Proof.
  intros He. unfold towards, g1. rewrite batch_added, added_iff by done. unfold owed. rewrite meant_intended. fold g0. tauto.
Qed.

Lemma apply_plan_towards now :
  ends (fun db => the_group db = g0) (apply_plan cfg unsent now plan) (fun r db =>
    exists o, r = inl o /\
    (ok o = true -> forall e, e <> EmptyString -> holds (the_group db) e <-> owed db0 e) /\
    forall e, e <> EmptyString -> towards db0 (the_group db) e).
Proof.
  assert (forall e, e <> EmptyString -> towards db0 g0 e) as H0 by (intros e He; unfold towards; fold g0; tauto).
  assert (forall e, e <> EmptyString -> towards db0 g2 e) as H2.
  { intros e He. unfold towards. rewrite plan_owed by done. fold g0. tauto. }
  assert (forall e, e <> EmptyString -> towards db0 g1 e) as H1 by apply half_towards.
  unfold apply_plan.
  apply (ends_bind _ _ _ (fun r db => match r with
    | inl _ => the_group db = g1 | inr _ => the_group db = g0 \/ the_group db = g1 end)).
  { eapply ends_post; [apply batch_changes, client_add_changes|]. by intros [[?|?]|?] db. }
  intros [a|e]; [|apply ends_ret; intros db [-> | ->]; by eexists].
  apply (ends_bind _ _ _ (fun r db => match r with
    | inl _ => the_group db = g2 | inr _ => the_group db = g1 \/ the_group db = g2 end)).
  { eapply ends_post; [apply batch_changes, client_remove_changes|]. by intros [[?|?]|?] db. }
  intros [r|e]; [|apply ends_ret; intros db [-> | ->]; by eexists].
  apply (ends_bind _ _ _ (fun _ db => the_group db = g2)).
  { eapply ends_post; [apply calm_opt_out_each|]. by intros r' db (Hdb & x & ->). }
  intros n. apply ends_ret. intros db ->. eexists. split; [done|]. split; [intros _; apply plan_owed | done].
Qed.
End Plan_applied.

(** A look, at the database or at the group. *)
Lemma look {A B} (f : ListDb -> A) (k : (A + DatabaseError) -> Faults.M ListDb DatabaseError B) db0 Q :
  (forall e, ends (fun db => db = db0) (k (inr e)) Q) -> ends (fun db => db = db0) (k (inl (f db0))) Q ->
  ends (fun db => db = db0) (attempt (select f) ≫= k) Q.
Proof.
  intros He Hk. apply (ends_bind _ _ _ (fun r db => db = db0 /\ match r with inl x => x = f db0 | inr _ => True end)).
  - intros db fs ->. unfold attempt, select, call. destruct fs as [|[] fs]; done.
  - intros [x|e] db fs; [intros [-> ->]; by apply Hk | intros [-> _]; by apply He].
Qed.

Lemma look_sent {A B} (f : ListDb -> A) (k : (A + GroupsioError) -> Faults.M ListDb DatabaseError B) db0 Q :
  (forall e, ends (fun db => db = db0) (k (inr e)) Q) -> ends (fun db => db = db0) (k (inl (f db0))) Q ->
  ends (fun db => db = db0) (sent cfg unsent (select f) ≫= k) Q.
Proof.
  intros He Hk. apply (ends_bind _ _ _ (fun r db => db = db0 /\ match r with inl x => x = f db0 | inr _ => True end)).
  - unfold sent. destruct (settings cfg); [by apply ends_ret|]. apply look; [|by apply ends_ret].
    intros e. by apply ends_ret.
  - intros [x|e] db fs; [intros [-> ->]; by apply Hk | intros [-> _]; by apply He].
Qed.

(** C38. A pass of the mailing list mirrors the membership: one that reports success leaves
    as members exactly those owed — the members meant to be on the list (active, with a
    verified address, not opted out) who are on it or are not among those who left it, and
    the protected addresses that were on it.  One that fails at any point, by any fault of
    the database or of the group, a request carried out whose answer is lost included,
    returns all the same, and has by then added only who is owed and removed only who is
    not.  Addresses are compared trimmed and without case. *)
Theorem reconcile_mirrors (now : instant) (db0 : ListDb) :
  Forall str (gm_email <$> list_members db0) -> Forall str (group_members (the_group db0)) ->
  ends (fun db => db = db0) (reconcile_apply cfg error_text unsent now) (fun r db =>
    exists o, r = inl o /\
    (ok o = true -> forall e, e <> EmptyString -> holds (the_group db) e <-> owed db0 e) /\
    forall e, e <> EmptyString ->
      (holds (the_group db) e -> holds (the_group db0) e \/ owed db0 e) /\
      (holds (the_group db0) e -> owed db0 e -> holds (the_group db) e)).
Proof.
  intros Hm Hg.
  assert (Forall str (intended_emails db0)) as Hi.
  { rewrite Forall_forall in Hm |- *. intros e (m & -> & [Hin _]%elem_of_lfilter)%list_elem_of_fmap.
    by apply Hm, list_elem_of_fmap_2. }
  assert (forall what, ends (E := DatabaseError) (fun db => db = db0) (mret (failed nothing_done what)) (fun r db =>
    exists o, r = inl o /\
    (ok o = true -> forall e, e <> EmptyString -> holds (the_group db) e <-> owed db0 e) /\
    forall e, e <> EmptyString -> towards db0 (the_group db) e)) as Hfail.
  { intros what. apply ends_ret. intros db ->. eexists. split; [done|]. split; [done|].
    intros e He. unfold towards. tauto. }
  unfold reconcile_apply. destruct (enabled cfg); cbn [negb]; [|apply Hfail].
  apply look; [intros; apply Hfail|]. apply look_sent; [intros; apply Hfail|].
  apply look_sent; [intros; apply Hfail|].
  eapply ends_pre; [by apply apply_plan_towards|]. by intros db ->.
Qed.

(** The webhook changes nothing unless the integration is on, a secret is set and the body
    was signed with it. *)
Lemma webhook_signed {LB : Webhooks.Libraries} from_slice now signature body db0 :
  ends (fun db => db = db0) (receive_webhook cfg from_slice now signature body) (fun _ db =>
    db = db0 \/ enabled cfg = true /\ webhook_secret cfg <> EmptyString /\
    default (default EmptyString signature) (strip_prefix "sha256=" (default EmptyString signature)) =
    sign_body (webhook_secret cfg) body).
Proof.
  assert (forall e : ApiError, ends (E := ApiError) (A := bool) (fun db => db = db0) (throw e) (fun _ db =>
    db = db0 \/ enabled cfg = true /\ webhook_secret cfg <> EmptyString /\
    default (default EmptyString signature) (strip_prefix "sha256=" (default EmptyString signature)) =
    sign_body (webhook_secret cfg) body)) as Hrefuse by (intros e; apply ends_throw; by left).
  unfold receive_webhook. destruct (enabled cfg); cbn [negb]; [|apply Hrefuse].
  case_bool_decide; [apply Hrefuse|].
  destruct (verify_signature _ _ _) eqn:E; cbn [negb]; [|apply Hrefuse].
  apply ends_any. intros _ db. right. unfold verify_signature in E. case_bool_decide; [done|].
  rewrite Wire.constant_time_str_eq_spec, bool_decide_eq_true in E. by repeat split.
Qed.
End Pass.
End GroupsIo.
