(* ===== verification/Devices.v ===== *)
(** * Devices and their invites ([server/src/api/devices.rs])

    An administrator invites a device with a code, a device registers with it and gets
    its credentials, and administrators rename, place and remove devices.  Every handler
    is a program of [Interleaving], so that requests can run side by side. *)
From Stdlib Require Import QArith.
From stdpp Require Import relations.
From S2P Require Import Prelude Text Faults Money AuditLog Database Api Power Training GuardStore Accounts.

(** * What a device says it can do ([css_lib/src/capabilities.rs])

    The declaration a device registers with, read the way serde reads it, and what a
    declaration allows: a rule in firmware, a plug that is trusted to fail safe. *)
Module Capabilities.

#[local] Open Scope string_scope.
#[local] Open Scope list_scope.

Record ModuleCapabilities := {
  local_inputs : list string;
  local_inhibit : bool;
  countdown : bool;
  holds_last_on_disconnect : bool;
}.

Record DeviceCapabilities := {
  roles : list string;
  module : ModuleCapabilities;
}.

Definition assume_holds_last : bool := true.

Definition default_module : ModuleCapabilities := {|
  local_inputs := []; local_inhibit := false; countdown := false; holds_last_on_disconnect := true |}.

Definition undeclared : DeviceCapabilities := {| roles := []; module := default_module |}.

(** [Vec<String>] of an array. *)
Definition strings_of (v : json) : option (list string) :=
  match v with JArr l => mapM json_as_str l | _ => None end.

(** [#[serde(default)]]: an absent field has its default, a wrong one is an error. *)
Definition field {A} (d : A) (parse : json -> option A) (v : json) (key : string) : option A :=
  match json_get v key with None => Some d | Some x => parse x end.

Definition module_from_value (v : json) : option ModuleCapabilities :=
  inputs ← field [] strings_of v "local_inputs";
  inhibit ← field false json_as_bool v "local_inhibit";
  count ← field false json_as_bool v "countdown";
  holds ← field assume_holds_last json_as_bool v "holds_last_on_disconnect";
  Some {| local_inputs := inputs; local_inhibit := inhibit; countdown := count;
          holds_last_on_disconnect := holds |}.

(** Anything that is not read whole reads as nothing declared. *)
Definition from_value (v : json) : DeviceCapabilities :=
  match v with
  | JObj _ =>
      default undeclared
        (rs ← field [] strings_of v "roles"; m ← module_from_value v;
         Some {| roles := rs; module := m |})
  | _ => undeclared
  end.

Definition has_role (d : DeviceCapabilities) (role : string) : bool := existsb (fun r => r ≟ role) (roles d).

Definition can_enforce_locally (m : ModuleCapabilities) (condition : string) : bool :=
  local_inhibit m && existsb (fun c => c ≟ condition) (local_inputs m).

Definition can_fail_safe (m : ModuleCapabilities) : bool :=
  local_inhibit m || countdown m || negb (holds_last_on_disconnect m).

(** [Ok(())] or the reason why not. *)
Definition firmware_enforcement_achievable (condition : string) (modules : list ModuleCapabilities) :
    option string :=
  if existsb (fun m => can_enforce_locally m condition) modules then None
  else Some ("no module bound to this tool both senses '" +:+ condition +:+ "' locally and can inhibit its own output, so this interlock cannot be enforced in firmware. Wire the sensor directly to the module that switches the tool, or set enforcement to 'edge'.").

Definition power_can_fail_safe (power_modules : list ModuleCapabilities) : bool :=
  negb (bool_decide (power_modules = [])) && forallb can_fail_safe power_modules.

(** ** What silence means *)

Lemma from_value_undeclared v : (forall fs, v <> JObj fs) -> from_value v = undeclared.
Proof. intros H. destruct v; try done. by destruct (H fields). Qed.

(** A device is trusted to fail safe only on what it said itself: it can cut its output,
    or counts down, or said it lets go. *)
Lemma fails_safe_by_word v :
  can_fail_safe (module (from_value v)) = true ->
  json_get v "local_inhibit" = Some (JBool true) \/ json_get v "countdown" = Some (JBool true) \/
  json_get v "holds_last_on_disconnect" = Some (JBool false).
Proof.
  assert (can_fail_safe default_module = true -> False) as Hd by done.
  destruct v as [| | | | |fs]; try (intros H; exfalso; exact (Hd H)). unfold from_value, module_from_value, field.
  destruct (json_get (JObj fs) "roles") as [r|]; [destruct (strings_of r); [|done]|];
    destruct (json_get (JObj fs) "local_inputs") as [i|]; try (destruct (strings_of i); [|done]);
    destruct (json_get (JObj fs) "local_inhibit") as [[| [] | | | |]|]; try done; try (by left);
    destruct (json_get (JObj fs) "countdown") as [[| [] | | | |]|]; try done; try (by right; left);
    destruct (json_get (JObj fs) "holds_last_on_disconnect") as [[| [] | | | |]|]; try done; by right; right.
Qed.

(** Firmware enforces a condition exactly if one module both senses it and acts. *)
Lemma achievable_iff condition modules :
  firmware_enforcement_achievable condition modules = None <->
  exists m, m ∈ modules /\ local_inhibit m = true /\ condition ∈ local_inputs m.
Proof.
  unfold firmware_enforcement_achievable.
  assert (existsb (fun m => can_enforce_locally m condition) modules = true <->
    exists m, m ∈ modules /\ local_inhibit m = true /\ condition ∈ local_inputs m) as Hiff.
  { rewrite existsb_exists. setoid_rewrite <- list_elem_of_In. unfold can_enforce_locally.
    setoid_rewrite andb_true_iff. setoid_rewrite existsb_exists. setoid_rewrite <- list_elem_of_In.
    setoid_rewrite bool_decide_eq_true. naive_solver. }
  destruct (existsb _ _); [|split; [done | by intros H%Hiff]]. by rewrite <- Hiff.
Qed.
End Capabilities.

Import Text Faults Interleaving Audit Database Api Accounts Capabilities.

Module Devices.

#[local] Open Scope string_scope.
#[local] Open Scope list_scope.
#[local] Open Scope Z_scope.

(** [now + Duration::hours(n)], which panics out of the range of dates: [None]. *)
Class PlusHours := plus_hours : instant -> Z -> option instant.

(** A [DateTime] as serde writes it. *)
Class TimeText := time_text : instant -> string.

Section Devices.
Context {U : Uuid} {IS : IdSource} {TH : TokenHash} {CF : CaseFold} {PH : PlusHours} {TT : TimeText}.

(** ** Tables *)

Definition device_roles : list string := ["reader"; "power"; "sensor"; "edge"; "kiosk"; "strike"].

Inductive SpaceDevicePlatform : Type := Windows | Linux | MacOs | Other.

Definition platform_text (p : SpaceDevicePlatform) : string :=
  match p with Windows => "windows" | Linux => "linux" | MacOs => "macos" | Other => "other" end.

(** [enrolled_by] is the code the device registered with: no column holds it. *)
Record SpaceDevice := {
  sd_id : uuid;
  sd_name : string;
  sd_capabilities : json;
  sd_mac_address : string;
  sd_software_version : string;
  sd_ipv4_address : option string;
  sd_ipv6_address : option string;
  sd_uptime : Z;
  sd_platform : SpaceDevicePlatform;
  sd_place_id : option uuid;
  sd_last_seen_at : option instant;
  sd_deleted_at : option instant;
  sd_created_at : instant;
  sd_updated_at : instant;
  enrolled_by : string;
}.

Record SpaceDeviceAuth := {
  sa_device_id : uuid;
  sa_auth_token : string;
  command_key_sealed : option (string * string);
}.

Record SpaceDeviceAuthRequest := {
  ar_id : uuid;
  ar_device_code : string;
  ar_expires_at : instant;
  ar_used_at : option instant;
  ar_created_by : option uuid;
  ar_created_at : instant;
}.

Record NewAuditLog := {
  al_event : AuditEventType;
  al_actor : option uuid;
  al_data : json;
}.

Record DeviceDb := {
  invites : list SpaceDeviceAuthRequest;
  space_devices : list SpaceDevice;
  device_auth : list SpaceDeviceAuth;
  place_ids : list uuid;
  row_ids : nat;
  audit_rows : list NewAuditLog;
  published_names : list (uuid * string);
}.

Definition with_invites (f : list SpaceDeviceAuthRequest -> list SpaceDeviceAuthRequest) (db : DeviceDb) : DeviceDb := {|
  invites := f (invites db); space_devices := space_devices db; device_auth := device_auth db;
  place_ids := place_ids db; row_ids := row_ids db; audit_rows := audit_rows db; published_names := published_names db |}.

Definition with_space_devices (f : list SpaceDevice -> list SpaceDevice) (db : DeviceDb) : DeviceDb := {|
  invites := invites db; space_devices := f (space_devices db); device_auth := device_auth db;
  place_ids := place_ids db; row_ids := row_ids db; audit_rows := audit_rows db; published_names := published_names db |}.

Definition with_device_auth (f : list SpaceDeviceAuth -> list SpaceDeviceAuth) (db : DeviceDb) : DeviceDb := {|
  invites := invites db; space_devices := space_devices db; device_auth := f (device_auth db);
  place_ids := place_ids db; row_ids := row_ids db; audit_rows := audit_rows db; published_names := published_names db |}.

Definition with_audit_rows (f : list NewAuditLog -> list NewAuditLog) (db : DeviceDb) : DeviceDb := {|
  invites := invites db; space_devices := space_devices db; device_auth := device_auth db;
  place_ids := place_ids db; row_ids := row_ids db; audit_rows := f (audit_rows db);
  published_names := published_names db |}.

Definition next_row (db : DeviceDb) : DeviceDb := {|
  invites := invites db; space_devices := space_devices db; device_auth := device_auth db;
  place_ids := place_ids db; row_ids := S (row_ids db); audit_rows := audit_rows db; published_names := published_names db |}.

Definition with_published (f : list (uuid * string) -> list (uuid * string)) (db : DeviceDb) : DeviceDb := {|
  invites := invites db; space_devices := space_devices db; device_auth := device_auth db;
  place_ids := place_ids db; row_ids := row_ids db; audit_rows := audit_rows db;
  published_names := f (published_names db) |}.

#[export] Instance Devices_fault : FaultError ApiError := api_error Connection.

Abbreviation P := (Prog DeviceDb ApiError).
Abbreviation call A := (DeviceDb -> DeviceDb * (A + ApiError)).

Definition connect : P unit := get (fun _ => tt).

Definition create_audit_log (l : NewAuditLog) : call unit :=
  fun db => (with_audit_rows (fun ls => ls ++ [l]) db, inl tt).

(** ** Codes at rest *)

Definition encode_device_code (display : string) : string := GuardStore.hex_encode display.

Definition hex_digit (c : Ascii.ascii) : option Z :=
  let b := byte c in
  if (48 <=? b) && (b <=? 57) then Some (b - 48)
  else if (97 <=? b) && (b <=? 102) then Some (b - 87)
  else if (65 <=? b) && (b <=? 70) then Some (b - 55)
  else None.

(** [hex::decode]: an odd length or another character is an error. *)
Fixpoint hex_decode (s : string) : option string :=
  match s with
  | String.EmptyString => Some EmptyString
  | String.String h (String.String l s) =>
      a ← hex_digit h; b ← hex_digit l; r ← hex_decode s;
      Some (String.String (Ascii.ascii_of_nat (Z.to_nat (a * 16 + b))) r)
  | String.String _ String.EmptyString => None
  end.

Definition decode_device_code (stored : string) : string :=
  match hex_decode stored with
  | Some b => if valid_utf8 (bytes b) then b else stored
  | None => stored
  end.

(** ** Inviting *)

Record DeviceInviteResponse := { di_code : string; di_expires_at : instant }.

Definition insert_invite (now expires_at : instant) (code : string) (actor : uuid) : call SpaceDeviceAuthRequest :=
  fun db =>
    if existsb (fun i => ar_device_code i ≟ code) (invites db) then (db, inr (api_error UniqueViolation))
    else
      let i := {| ar_id := gen_random_uuid (row_ids db); ar_device_code := code; ar_expires_at := expires_at;
                  ar_used_at := None; ar_created_by := Some actor; ar_created_at := now |} in
      (next_row (with_invites (fun ivs => ivs ++ [i]) db), inl i).

(** The code is the server's own: what the database cannot store of it is no fault of
    the caller. *)
Definition insert_error (e : ApiError) : ApiError :=
  match e with
  | BadRequest _ => InternalServerError "This deployment's database cannot store device invite codes. Device codes are emoji and require a UTF-8 database."
  | other => other
  end.

(** [device_code] is what [new_device_code] drew. *)
Definition create_device_invite (now : instant) (actor : uuid) (expires_in_hours : option Z)
    (device_code : string) : P DeviceInviteResponse :=
  let hours := default 24 expires_in_hours in
  match plus_hours now hours with
  | None => raise (InternalServerError "the handler panicked")
  | Some expires_at =>
      _ ← connect;
      r ← try (insert_invite now expires_at (encode_device_code device_code) actor);
      match r with
      | inr e => raise (insert_error e)
      | inl invite =>
          _ ← do (create_audit_log {| al_event := DeviceInviteCreated; al_actor := Some actor;
                al_data := JObj [("device_code", JStr (encode_device_code device_code));
                                 ("expires_at", JStr (time_text expires_at)); ("expires_in_hours", JInt hours)] |});
          mret {| di_code := device_code; di_expires_at := ar_expires_at invite |}
      end
  end.

(** ** Registering *)

Record RegisterDeviceRequest := {
  rq_device_code : string;
  rq_name : string;
  rq_capabilities : json;
  rq_mac_address : string;
  rq_software_version : string;
  rq_ipv4_address : option string;
  rq_ipv6_address : option string;
  rq_platform : string;
}.

Record EdgeMqttConfig := {
  mqtt_instance_url : string;
  mqtt_username : option string;
  mqtt_password : option string;
  mqtt_namespace : string;
  command_key : option string;
}.

Record RegisterDeviceResponse := {
  rr_device_id : uuid;
  rr_auth_token : string;
  rr_device_name : string;
  rr_mqtt_config : option EdgeMqttConfig;
}.

(** What the server is started with: the cipher, as its [seal], the broker's url and
    namespace that devices are told, and whether it has a broker itself. *)
Record Setup := {
  seal : option (string -> option (string * string));
  edge_mqtt_config : option (string * string);
  has_mqtt : bool;
}.

Fixpoint join_with (sep : string) (l : list string) : string :=
  match l with
  | [] => EmptyString
  | [x] => x
  | x :: l => x +:+ sep +:+ join_with sep l
  end.

Definition unknown_role (role : string) : string :=
  "unknown device role '" +:+ role +:+ "'; must be one of: " +:+ join_with ", " device_roles.

Definition find_invite (code : string) : call SpaceDeviceAuthRequest :=
  fun db => (db, match find_first (fun i => ar_device_code i ≟ code) (invites db) with
                 | Some i => inl i
                 | None => inr (api_error NotFound)
                 end).

Definition parse_platform (s : string) : option SpaceDevicePlatform :=
  let l := to_lowercase s in
  if l ≟ "windows" then Some Windows else if l ≟ "linux" then Some Linux
  else if l ≟ "macos" then Some MacOs else if l ≟ "other" then Some Other else None.

Definition is_unused (i : SpaceDeviceAuthRequest) : bool := negb (is_some (ar_used_at i)).

(** One statement: the row is taken only if nobody has, and the count says whether it was. *)
Definition claim_invite (now : instant) (iid : uuid) : call nat := fun db =>
  let hit := fun i => (ar_id i ≟ iid) && is_unused i in
  (with_invites (fun ivs => (fun i => if hit i then
       {| ar_id := ar_id i; ar_device_code := ar_device_code i; ar_expires_at := ar_expires_at i;
          ar_used_at := Some now; ar_created_by := ar_created_by i; ar_created_at := ar_created_at i |}
     else i) <$> ivs) db,
   inl (length (List.filter hit (invites db)))).

Definition insert_device (now : instant) (req : RegisterDeviceRequest) (platform : SpaceDevicePlatform) :
    call SpaceDevice := fun db =>
  let d := {| sd_id := gen_random_uuid (row_ids db); sd_name := rq_name req;
              sd_capabilities := rq_capabilities req; sd_mac_address := rq_mac_address req;
              sd_software_version := rq_software_version req; sd_ipv4_address := rq_ipv4_address req;
              sd_ipv6_address := rq_ipv6_address req; sd_uptime := 0; sd_platform := platform;
              sd_place_id := None; sd_last_seen_at := None; sd_deleted_at := None; sd_created_at := now;
              sd_updated_at := now; enrolled_by := encode_device_code (rq_device_code req) |} in
  (next_row (with_space_devices (fun ds => ds ++ [d]) db), inl d).

Definition insert_auth (a : SpaceDeviceAuth) : call unit := fun db =>
  if existsb (fun b => sa_auth_token b ≟ sa_auth_token a) (device_auth db)
  then (db, inr (api_error UniqueViolation))
  else if existsb (fun d => sd_id d ≟ sa_device_id a) (space_devices db)
  then (with_device_auth (fun l => l ++ [a]) db, inl tt)
  else (db, inr (api_error ForeignKeyViolation)).

(** The command key with its sealed form, where there is a cipher and it seals. *)
Definition mint_command_key (s : Setup) (key : string) : option string * option (string * string) :=
  match seal s with
  | Some f => match f key with Some sealed => (Some key, Some sealed) | None => (None, None) end
  | None => (None, None)
  end.

(** [token] and [key] are what [generate_token] drew; the digest of [token] is stored. *)
Definition register_device (s : Setup) (now : instant) (req : RegisterDeviceRequest) (token key : string) :
    P RegisterDeviceResponse :=
  let caps := from_value (rq_capabilities req) in
  if bool_decide (roles caps = []) then raise (BadRequest "capabilities.roles must declare at least one role")
  else match find_first (fun r => negb (bool_decide (r ∈ device_roles))) (roles caps) with
  | Some role => raise (BadRequest (unknown_role role))
  | None =>
  _ ← connect;
  found ← try (find_invite (encode_device_code (rq_device_code req)));
  match found with
  | inr _ => raise (BadRequest "Invalid device code")
  | inl invite =>
  if is_some (ar_used_at invite) then raise (BadRequest "Device code has already been used")
  else if ar_expires_at invite <? now then raise (BadRequest "Device code has expired")
  else match parse_platform (rq_platform req) with
  | None => raise (BadRequest "Invalid platform")
  | Some platform =>
  claimed ← do (claim_invite now (ar_id invite));
  if (claimed =? 0)%nat then raise (BadRequest "Device code has already been used")
  else
    device ← do (insert_device now req platform);
    let '(command_key, sealed) := mint_command_key s key in
    _ ← do (insert_auth {| sa_device_id := sd_id device; sa_auth_token := hash_token token;
                           command_key_sealed := sealed |});
    _ ← try (create_audit_log {| al_event := DeviceInviteUsed; al_actor := None;
          al_data := JObj [("device_code", JStr (encode_device_code (rq_device_code req)));
                           ("device_id", JStr (uuid_show (sd_id device))); ("device_name", JStr (sd_name device))] |});
    _ ← try (create_audit_log {| al_event := DeviceRegistered; al_actor := None;
          al_data := JObj [("device_id", JStr (uuid_show (sd_id device))); ("device_name", JStr (sd_name device));
                           ("platform", JStr (rq_platform req)); ("roles", JArr (JStr <$> roles caps))] |});
    mret {| rr_device_id := sd_id device; rr_auth_token := token; rr_device_name := sd_name device;
            rr_mqtt_config :=
              (fun c => {| mqtt_instance_url := c.1; mqtt_username := Some (uuid_show (sd_id device));
                           mqtt_password := Some token; mqtt_namespace := c.2; command_key := command_key |})
              <$> edge_mqtt_config s |}
  end end end.

(** ** Looking *)

Record DeviceListItem := {
  li_id : uuid;
  li_name : string;
  li_roles : list string;
  li_platform : string;
  li_mac_address : string;
  li_software_version : string;
  li_ipv4_address : option string;
  li_ipv6_address : option string;
  li_last_seen_at : option instant;
  li_created_at : instant;
  is_online : bool;
}.

Record DeviceInviteListItem := {
  ii_id : uuid;
  ii_device_code : string;
  ii_expires_at : instant;
  ii_used_at : option instant;
  ii_created_by : option uuid;
  ii_created_at : instant;
  is_expired : bool;
  is_used : bool;
}.

Definition is_live (d : SpaceDevice) : bool := negb (is_some (sd_deleted_at d)).

Definition OFFLINE_AFTER : duration := seconds (5 * 60).

Definition device_item (now : instant) (d : SpaceDevice) : DeviceListItem := {|
  li_id := sd_id d; li_name := sd_name d; li_roles := roles (from_value (sd_capabilities d));
  li_platform := platform_text (sd_platform d); li_mac_address := sd_mac_address d;
  li_software_version := sd_software_version d; li_ipv4_address := sd_ipv4_address d;
  li_ipv6_address := sd_ipv6_address d; li_last_seen_at := sd_last_seen_at d;
  li_created_at := sd_created_at d;
  is_online := is_some_and (sd_last_seen_at d) (fun t => now - OFFLINE_AFTER <? t) |}.

Definition list_devices (now : instant) : P (list DeviceListItem) :=
  _ ← connect;
  ds ← get (fun db => sort_by (fun a b => sd_created_at b <=? sd_created_at a)
                        (List.filter is_live (space_devices db)));
  mret (List.map (device_item now) ds).

Definition invite_item (now : instant) (i : SpaceDeviceAuthRequest) : DeviceInviteListItem := {|
  ii_id := ar_id i; ii_device_code := decode_device_code (ar_device_code i);
  ii_expires_at := ar_expires_at i; ii_used_at := ar_used_at i; ii_created_by := ar_created_by i;
  ii_created_at := ar_created_at i; is_expired := ar_expires_at i <? now;
  is_used := is_some (ar_used_at i) |}.

Definition list_device_invites (now : instant) : P (list DeviceInviteListItem) :=
  _ ← connect;
  ivs ← get (fun db => sort_by (fun a b => ar_created_at b <=? ar_created_at a) (invites db));
  mret (List.map (invite_item now) ivs).

(** ** Changing *)

Definition expire_unused (now : instant) (code : string) : call nat := fun db =>
  let hit := fun i => (ar_device_code i ≟ code) && is_unused i in
  (with_invites (fun ivs => (fun i => if hit i then
       {| ar_id := ar_id i; ar_device_code := ar_device_code i; ar_expires_at := now;
          ar_used_at := ar_used_at i; ar_created_by := ar_created_by i; ar_created_at := ar_created_at i |}
     else i) <$> ivs) db,
   inl (length (List.filter hit (invites db)))).

Definition expire_device_invite (now : instant) (actor : uuid) (code : string) : P string :=
  _ ← connect;
  updated ← do (expire_unused now (encode_device_code code));
  if (updated =? 0)%nat then raise (NotFoundError "Device invite not found or already used")
  else
    _ ← try (create_audit_log {| al_event := DeviceInviteExpired; al_actor := Some actor;
          al_data := JObj [("device_code", JStr (encode_device_code code))] |});
    mret "Device invite expired successfully".

Definition find_live (did : uuid) : call SpaceDevice :=
  fun db => (db, match find_first (fun d => (sd_id d ≟ did) && is_live d) (space_devices db) with
                 | Some d => inl d
                 | None => inr (api_error NotFound)
                 end).

(** [UPDATE space_devices ... WHERE id], with the number of rows. *)
Definition update_device (did : uuid) (f : SpaceDevice -> SpaceDevice) : call nat := fun db =>
  (with_space_devices (fun ds => (fun d => if sd_id d ≟ did then f d else d) <$> ds) db,
   inl (length (List.filter (fun d => sd_id d ≟ did) (space_devices db)))).

Definition edit_device (name : option string) (place : option (option uuid)) (deleted : option instant)
    (now : instant) (d : SpaceDevice) : SpaceDevice := {|
  sd_id := sd_id d; sd_name := default (sd_name d) name; sd_capabilities := sd_capabilities d;
  sd_mac_address := sd_mac_address d; sd_software_version := sd_software_version d;
  sd_ipv4_address := sd_ipv4_address d; sd_ipv6_address := sd_ipv6_address d; sd_uptime := sd_uptime d;
  sd_platform := sd_platform d; sd_place_id := default (sd_place_id d) place;
  sd_last_seen_at := sd_last_seen_at d;
  sd_deleted_at := match deleted with Some t => Some t | None => sd_deleted_at d end;
  sd_created_at := sd_created_at d; sd_updated_at := now; enrolled_by := enrolled_by d |}.

(** The broker may refuse; the rename stands. *)
Definition publish_name_change (did : uuid) (name : string) : call unit :=
  fun db => (with_published (fun l => l ++ [(did, name)]) db, inl tt).

Definition rename_device (s : Setup) (now : instant) (actor did : uuid) (name : string) : P string :=
  _ ← connect;
  found ← try (find_live did);
  match found with
  | inr _ => raise (NotFoundError "Device not found")
  | inl old =>
      _ ← do (update_device did (edit_device (Some name) None None now));
      _ ← try (create_audit_log {| al_event := DeviceNameChanged; al_actor := Some actor;
            al_data := JObj [("device_id", JStr (uuid_show did)); ("new_name", JStr name);
                             ("old_name", JStr (sd_name old))] |});
      _ ← (if has_mqtt s then _ ← try (publish_name_change did name); mret tt else mret tt);
      mret "Device renamed successfully"
  end.

Definition delete_device (now : instant) (actor did : uuid) : P string :=
  _ ← connect;
  found ← try (find_live did);
  match found with
  | inr _ => raise (NotFoundError "Device not found")
  | inl d =>
      _ ← do (update_device did (edit_device None None (Some now) now));
      _ ← try (create_audit_log {| al_event := DeviceDeleted; al_actor := Some actor;
            al_data := JObj [("device_id", JStr (uuid_show did)); ("device_name", JStr (sd_name d))] |});
      mret "Device deleted successfully"
  end.

Definition get_place (pid : uuid) : call unit :=
  fun db => (db, if bool_decide (pid ∈ place_ids db) then inl tt else inr (api_error NotFound)).

Definition set_space_device_place (now : instant) (did : uuid) (place : option uuid) : call nat := fun db =>
  if is_some_and place (fun p => negb (bool_decide (p ∈ place_ids db))) &&
     existsb (fun d => sd_id d ≟ did) (space_devices db)
  then (db, inr (api_error ForeignKeyViolation))
  else update_device did (edit_device None (Some place) None now) db.

Definition place_json (p : option uuid) : json :=
  match p with Some p => JStr (uuid_show p) | None => JNull end.

Definition set_device_place (now : instant) (actor did : uuid) (place : option uuid) : P string :=
  _ ← match place with
      | Some p =>
          r ← try (get_place p);
          match r with inl _ => mret tt | inr _ => raise (NotFoundError "place_id does not exist") end
      | None => mret tt
      end;
  rows ← do (set_space_device_place now did place);
  if (rows =? 0)%nat then raise (NotFoundError "Device not found")
  else
    _ ← try (create_audit_log {| al_event := DeviceNameChanged; al_actor := Some actor;
          al_data := JObj [("device_id", JStr (uuid_show did)); ("place_id", place_json place);
                           ("reason", JStr "place_assignment")] |});
    mret EmptyString.

(** What a running device says of itself ([handle_device_data] of [devices_inbound.rs]). *)
Record DeviceDataPayload := {
  dd_mac_address : string;
  dd_software_version : string;
  dd_ipv4_address : option string;
  dd_ipv6_address : option string;
  dd_uptime : Z;
  dd_platform : string;
}.

(** An absent address leaves the column as it is. *)
Definition told (now : instant) (p : DeviceDataPayload) (d : SpaceDevice) : SpaceDevice := {|
  sd_id := sd_id d; sd_name := sd_name d; sd_capabilities := sd_capabilities d;
  sd_mac_address := dd_mac_address p; sd_software_version := dd_software_version p;
  sd_ipv4_address := match dd_ipv4_address p with Some a => Some a | None => sd_ipv4_address d end;
  sd_ipv6_address := match dd_ipv6_address p with Some a => Some a | None => sd_ipv6_address d end;
  sd_uptime := dd_uptime p; sd_platform := default Other (parse_platform (dd_platform p));
  sd_place_id := sd_place_id d; sd_last_seen_at := sd_last_seen_at d; sd_deleted_at := sd_deleted_at d;
  sd_created_at := sd_created_at d; sd_updated_at := now; enrolled_by := enrolled_by d |}.

Definition update_live (did : uuid) (f : SpaceDevice -> SpaceDevice) : call nat := fun db =>
  let hit := fun d => (sd_id d ≟ did) && is_live d in
  (with_space_devices (fun ds => (fun d => if hit d then f d else d) <$> ds) db,
   inl (length (List.filter hit (space_devices db)))).

Definition version_of (db : DeviceDb) (did : uuid) : option string :=
  sd_software_version <$> find_first (fun d => sd_id d ≟ did) (space_devices db).

(** Nobody waits for an answer: what fails is logged. *)
Definition handle_device_data (now : instant) (did : uuid) (p : DeviceDataPayload) : P unit :=
  _ ← connect;
  old ← try (fun db => (db, match version_of db did with Some v => inl v | None => inr (api_error NotFound) end));
  r ← try (update_live did (told now p));
  match r, old with
  | inl (S _), inl old_ver =>
      if old_ver ≟ dd_software_version p then mret tt
      else
        _ ← try (create_audit_log {| al_event := DeviceVersionChanged; al_actor := None;
              al_data := JObj [("device_id", JStr (uuid_show did)); ("new_version", JStr (dd_software_version p));
                               ("old_version", JStr old_ver)] |});
        mret tt
  | _, _ => mret tt
  end.

(** ** The surface *)

Inductive Request : Type :=
  | CreateInvite (now : instant) (actor : uuid) (hours : option Z) (code : string)
  | Register (now : instant) (req : RegisterDeviceRequest) (token key : string)
  | ListDevices (now : instant)
  | ListInvites (now : instant)
  | ExpireInvite (now : instant) (actor : uuid) (code : string)
  | RenameDevice (now : instant) (actor did : uuid) (name : string)
  | DeleteDevice (now : instant) (actor did : uuid)
  | SetPlace (now : instant) (actor did : uuid) (place : option uuid)
  | DeviceData (now : instant) (did : uuid) (p : DeviceDataPayload).

Inductive Response : Type :=
  | Invited (r : DeviceInviteResponse)
  | Registered (r : RegisterDeviceResponse)
  | TheDevices (l : list DeviceListItem)
  | TheInvites (l : list DeviceInviteListItem)
  | Said (message : string).

Definition answer {A} (f : A -> Response) (m : P A) : P Response := x ← m; mret (f x).

Definition serve (s : Setup) (r : Request) : P Response :=
  match r with
  | CreateInvite now actor hours code => answer Invited (create_device_invite now actor hours code)
  | Register now req token key => answer Registered (register_device s now req token key)
  | ListDevices now => answer TheDevices (list_devices now)
  | ListInvites now => answer TheInvites (list_device_invites now)
  | ExpireInvite now actor code => answer Said (expire_device_invite now actor code)
  | RenameDevice now actor did name => answer Said (rename_device s now actor did name)
  | DeleteDevice now actor did => answer Said (delete_device now actor did)
  | SetPlace now actor did place => answer Said (set_device_place now actor did place)
  | DeviceData now did p => answer (fun _ => Said EmptyString) (handle_device_data now did p)
  end.

(** Whose device a token is: the first row with its digest, of a device not deleted. *)
Definition find_device_by_auth_token (db : DeviceDb) (token : string) : option uuid :=
  sa_device_id <$> find_first (fun a => (sa_auth_token a ≟ hash_token token) &&
    existsb (fun d => (sd_id d ≟ sa_device_id a) && is_live d) (space_devices db)) (device_auth db).
End Devices.
End Devices.

(** * An invite enrols one device

    However many requests run side by side, in whatever order their calls meet and
    whatever faults they meet, no two devices were registered with one invite.  The model
    is [Devices]; the logic is [Interleaving.safe]. *)
Import Text Faults Interleaving Audit Database Api Accounts Capabilities Devices.

Module DeviceSafety.

#[local] Open Scope string_scope.
#[local] Open Scope list_scope.
#[local] Open Scope Z_scope.

Section DeviceSafety.
Context {U : Uuid} {IS : IdSource} {TH : TokenHash} {CF : CaseFold} {PH : PlusHours} {TT : TimeText}.

#[local] Existing Instance Devices_fault.
Abbreviation P := (Prog DeviceDb ApiError).

(** ** The tables *)

(** A code that somebody has claimed. *)
Definition spent (db : DeviceDb) (code : string) : Prop :=
  exists i, i ∈ invites db /\ ar_device_code i = code /\ ar_used_at i <> None.

Record Sound (db : DeviceDb) : Prop := {
  codes_differ : NoDup (ar_device_code <$> invites db);
  invite_ids_differ : NoDup (ar_id <$> invites db);
  device_ids_differ : NoDup (sd_id <$> space_devices db);
  ids_drawn : forall n, (row_ids db <= n)%nat ->
    gen_random_uuid n ∉ ar_id <$> invites db /\ gen_random_uuid n ∉ sd_id <$> space_devices db;
  one_device_each : NoDup (enrolled_by <$> space_devices db);
  enrolled_spent : forall d, d ∈ space_devices db -> spent db (enrolled_by d);
}.

(** ** Where a registration is *)

Inductive Ghost : Type :=
  | Other
  | Found (code : string) (iid : uuid)
  | Claimed (code : string)
  | Made (code : string) (did : uuid).

Definition holds (g : Ghost) : option string :=
  match g with Claimed c | Made c _ => Some c | _ => None end.

Definition agrees (db : DeviceDb) (g : Ghost) : Prop :=
  match g with
  | Other => True
  | Found c iid => exists i, i ∈ invites db /\ ar_id i = iid /\ ar_device_code i = c
  | Claimed c => spent db c /\ forall d, d ∈ space_devices db -> enrolled_by d <> c
  | Made c did => exists d, d ∈ space_devices db /\ sd_id d = did /\ enrolled_by d = c
  end.

Definition I (db : DeviceDb) (gs : list Ghost) : Prop :=
  Sound db /\ (forall j g, gs !! j = Some g -> agrees db g) /\
  forall j k g g' c, gs !! j = Some g -> gs !! k = Some g' -> holds g = Some c -> holds g' = Some c -> j = k.

Lemma holds_spent db g c : Sound db -> agrees db g -> holds g = Some c -> spent db c.
Proof.
  intros Hs Hg Hc. destruct g; simplify_eq/=; [tauto|].
  destruct Hg as (d & Hd & _ & <-). by apply enrolled_spent.
Qed.

Lemma same_invite db i j : Sound db -> i ∈ invites db -> j ∈ invites db ->
  ar_device_code i = ar_device_code j \/ ar_id i = ar_id j -> i = j.
Proof.
  intros Hs Hi Hj Heq. apply list_elem_of_lookup in Hi as [m Hi]. apply list_elem_of_lookup in Hj as [n Hj].
  enough (m = n) by congruence.
  destruct Heq as [Heq|Heq];
    [eapply (NoDup_lookup (ar_device_code <$> invites db)); [by apply codes_differ | |]
    |eapply (NoDup_lookup (ar_id <$> invites db)); [by apply invite_ids_differ | |]];
    rewrite list_lookup_fmap; (rewrite Hi || rewrite Hj); simpl; [done | by rewrite Heq | done | by rewrite Heq].
Qed.

(** ** One call *)

(** What leaves the devices and who they are alone, and spends no code again. *)
Record Evolves (db db' : DeviceDb) : Prop := {
  same_devices : (fun d => (sd_id d, enrolled_by d)) <$> space_devices db' =
    (fun d => (sd_id d, enrolled_by d)) <$> space_devices db;
  invites_stay : forall i, i ∈ invites db -> exists i', i' ∈ invites db' /\ ar_id i' = ar_id i /\
    ar_device_code i' = ar_device_code i /\ (ar_used_at i <> None -> ar_used_at i' <> None);
}.

Lemma evolves_refl db : Evolves db db.
Proof. split; [done|]. intros i Hi. by exists i. Qed.

Lemma spent_stays db db' c : Evolves db db' -> spent db c -> spent db' c.
Proof.
  intros [_ He] (i & Hi & Hc & Hu). destruct (He i Hi) as (i' & Hi' & _ & Hc' & Hu').
  exists i'. rewrite Hc'. auto.
Qed.

Lemma device_stays db db' d : Evolves db db' -> d ∈ space_devices db ->
  exists d', d' ∈ space_devices db' /\ sd_id d' = sd_id d /\ enrolled_by d' = enrolled_by d.
Proof.
  intros [Hd _] Hin. assert ((sd_id d, enrolled_by d) ∈
    (fun d => (sd_id d, enrolled_by d)) <$> space_devices db') as Hin'.
  { rewrite Hd. by apply (list_elem_of_fmap_2 (fun d => (sd_id d, enrolled_by d))). }
  apply list_elem_of_fmap in Hin' as (d' & [= -> ->] & Hd'). by exists d'.
Qed.

Lemma evolves_sym_devices db db' d : Evolves db db' -> d ∈ space_devices db' ->
  exists d', d' ∈ space_devices db /\ sd_id d' = sd_id d /\ enrolled_by d' = enrolled_by d.
Proof.
  intros [Hd _] Hin. assert ((sd_id d, enrolled_by d) ∈
    (fun d => (sd_id d, enrolled_by d)) <$> space_devices db) as Hin'.
  { rewrite <- Hd. by apply (list_elem_of_fmap_2 (fun d => (sd_id d, enrolled_by d))). }
  apply list_elem_of_fmap in Hin' as (d' & [= -> ->] & Hd'). by exists d'.
Qed.

Lemma agrees_stays db db' g : Evolves db db' -> agrees db g -> agrees db' g.
Proof.
  intros He. destruct g as [|c iid|c|c did]; simpl; [done| | |].
  - intros (i & Hi & <- & <-). destruct (invites_stay _ _ He i Hi) as (i' & Hi' & H1 & H2 & _). eauto.
  - intros [Hs Hno]. split; [by eapply spent_stays|]. intros d Hd.
    destruct (evolves_sym_devices db db' d He Hd) as (d' & Hd' & _ & <-). by apply Hno.
  - intros (d & Hd & <- & <-). destruct (device_stays db db' d He Hd) as (d' & Hd' & H1 & H2). eauto.
Qed.

Lemma sound_evolves db db' : Evolves db db' -> Sound db ->
  NoDup (ar_device_code <$> invites db') -> NoDup (ar_id <$> invites db') ->
  (row_ids db <= row_ids db')%nat ->
  (forall n, (row_ids db' <= n)%nat -> gen_random_uuid n ∉ ar_id <$> invites db') -> Sound db'.
Proof.
  intros He Hs Hc Hi Hle Hn.
  assert (sd_id <$> space_devices db' = sd_id <$> space_devices db) as Hids.
  { pose proof (f_equal (fmap fst) (same_devices _ _ He)) as H. by rewrite <- !list_fmap_compose in H. }
  assert (enrolled_by <$> space_devices db' = enrolled_by <$> space_devices db) as Hby.
  { pose proof (f_equal (fmap snd) (same_devices _ _ He)) as H. by rewrite <- !list_fmap_compose in H. }
  split; rewrite ?Hids, ?Hby; try done; try apply Hs.
  - intros n Hn'. split; [by apply Hn|]. apply ids_drawn; [done | lia].
  - intros d Hd. destruct (evolves_sym_devices db db' d He Hd) as (d' & Hd' & _ & <-).
    eapply spent_stays; [done|]. by apply enrolled_spent.
Qed.

Definition tame {A} (f : DeviceDb -> DeviceDb * (A + ApiError)) : Prop :=
  forall db, Sound db -> Sound (f db).1 /\ Evolves db (f db).1.

Lemma outcome_tame {A} (f : DeviceDb -> DeviceDb * (A + ApiError)) x db :
  tame f -> Sound db -> Sound (outcome x f db).1 /\ Evolves db (outcome x f db).1.
Proof.
  intros Hf Hs. destruct x; simpl; [by apply Hf | split; [done | apply evolves_refl] | by apply Hf].
Qed.

Lemma I_evolves db db' gs : I db gs -> Sound db' -> Evolves db db' -> I db' gs.
Proof. intros (_ & Ha & Hu) Hs He. split; [done|]. split; [|done]. intros j g Hg. eapply agrees_stays; eauto. Qed.

(** A tame call changes no ghost. *)
Lemma safe_step {A R} (f : DeviceDb -> DeviceDb * (A + ApiError)) (k : A + ApiError -> P R) Q g :
  tame f -> (forall r, safe I Q g (k r)) -> safe I Q g (Step A f k).
Proof.
  intros Hf Hk db gs i x Hi HI. exists g. split; [|apply Hk].
  rewrite list_insert_id by done. destruct (outcome_tame f x db Hf ltac:(apply HI)) as [Hs He].
  by apply (I_evolves db).
Qed.

Lemma tame_same {A} (f : DeviceDb -> DeviceDb * (A + ApiError)) : (forall db, (f db).1 = db) -> tame f.
Proof. intros H db Hs. rewrite H. split; [done | apply evolves_refl]. Qed.

(** ** The tame calls *)

(** Calls that leave devices and invites as they are. *)
Lemma tame_beside {A} (f : DeviceDb -> DeviceDb * (A + ApiError)) :
  (forall db, invites (f db).1 = invites db /\ space_devices (f db).1 = space_devices db /\
     row_ids (f db).1 = row_ids db) -> tame f.
Proof.
  intros H db Hs. destruct (H db) as (Hi & Hd & Hr).
  assert (Evolves db (f db).1) as He.
  { split; [by rewrite Hd|]. intros i Hin. exists i. by rewrite Hi. }
  split; [|done]. apply (sound_evolves db); rewrite ?Hi, ?Hr; [done | done | apply Hs | apply Hs | done |].
  intros n Hn. by apply (ids_drawn db Hs n).
Qed.

Lemma tame_get {A} (f : DeviceDb -> A) : tame (fun db => (db, inl (f db))).
Proof. by apply tame_same. Qed.

Lemma tame_audit l : tame (create_audit_log l).
Proof. by apply tame_beside. Qed.

Lemma tame_publish did name : tame (publish_name_change did name).
Proof. by apply tame_beside. Qed.

Lemma tame_find_live did : tame (find_live did).
Proof. by apply tame_same. Qed.

Lemma tame_get_place p : tame (get_place p).
Proof. by apply tame_same. Qed.

Lemma tame_insert_auth a : tame (insert_auth a).
Proof. apply tame_beside. intros db. unfold insert_auth. by repeat destruct (existsb _ _). Qed.

Lemma tame_insert_invite now expires code actor : tame (insert_invite now expires code actor).
Proof.
  intros db Hs. unfold insert_invite. destruct (existsb _ (invites db)) eqn:Hc; [split; [done | apply evolves_refl]|].
  set (i := Build_SpaceDeviceAuthRequest _ _ _ _ _ _). cbn [fst].
  assert (Evolves db (next_row (with_invites (fun ivs => ivs ++ [i]) db))) as He.
  { split; [done|]. intros j Hj. exists j. simpl. set_solver. }
  split; [|done]. apply (sound_evolves db); simpl; rewrite ?fmap_app; simpl; [done | done | | | lia |].
  - apply NoDup_app. split; [apply Hs|]. split; [|apply NoDup_singleton].
    intros c (j & -> & Hj)%list_elem_of_fmap. rewrite list_elem_of_singleton. intros Heq.
    apply not_true_iff_false in Hc. apply Hc, existsb_exists. exists j.
    split; [by apply list_elem_of_In | by apply bool_decide_eq_true].
  - apply NoDup_app. split; [apply Hs|]. split; [|apply NoDup_singleton].
    intros c Hj. rewrite list_elem_of_singleton. intros ->.
    by destruct (ids_drawn db Hs (row_ids db) (le_n _)) as [Hn _].
  - intros n Hn. rewrite elem_of_app, list_elem_of_singleton. intros [Hin | Heq%gen_random_uuid_inj]; [|lia].
    destruct (ids_drawn db Hs n ltac:(lia)) as [Hn' _]. done.
Qed.

Lemma update_names (f : SpaceDevice -> SpaceDevice) (p : SpaceDevice -> bool) (ds : list SpaceDevice) :
  (forall d, sd_id (f d) = sd_id d /\ enrolled_by (f d) = enrolled_by d) ->
  (fun d => (sd_id d, enrolled_by d)) <$> ((fun d => if p d then f d else d) <$> ds) =
  (fun d => (sd_id d, enrolled_by d)) <$> ds.
Proof.
  intros H. rewrite <- list_fmap_compose. apply list_fmap_ext. intros n d _. simpl.
  destruct (p d); [|done]. by destruct (H d) as [-> ->].
Qed.

Lemma tame_update did f :
  (forall d, sd_id (f d) = sd_id d /\ enrolled_by (f d) = enrolled_by d) -> tame (update_device did f).
Proof.
  intros Hf db Hs. assert (Evolves db (update_device did f db).1) as He.
  { split; [by apply update_names|]. intros i Hi. by exists i. }
  split; [|done]. apply (sound_evolves db); [done | done | apply Hs | apply Hs | done |]. intros n Hn. by apply (ids_drawn db Hs n).
Qed.

Lemma tame_edit did name place deleted now : tame (update_device did (edit_device name place deleted now)).
Proof. by apply tame_update. Qed.

Lemma tame_set_place now did place : tame (set_space_device_place now did place).
Proof.
  intros db Hs. unfold set_space_device_place. destruct (_ && _); [split; [done | apply evolves_refl]|].
  by apply tame_edit.
Qed.

(** An update of invites that keeps ids, codes and what is spent. *)
Lemma tame_invites {A} (g : SpaceDeviceAuthRequest -> SpaceDeviceAuthRequest) (r : DeviceDb -> A + ApiError) :
  (forall i, ar_id (g i) = ar_id i /\ ar_device_code (g i) = ar_device_code i /\
     (ar_used_at i <> None -> ar_used_at (g i) <> None)) ->
  tame (fun db => (with_invites (fun ivs => g <$> ivs) db, r db)).
Proof.
  intros Hg db Hs. cbn [fst].
  assert (ar_device_code <$> (g <$> invites db) = ar_device_code <$> invites db) as Hc.
  { rewrite <- list_fmap_compose. apply list_fmap_ext. intros n i _. simpl. apply Hg. }
  assert (ar_id <$> (g <$> invites db) = ar_id <$> invites db) as Hi.
  { rewrite <- list_fmap_compose. apply list_fmap_ext. intros n i _. simpl. apply Hg. }
  assert (Evolves db (with_invites (fun ivs => g <$> ivs) db)) as He.
  { split; [done|]. intros i Hin. exists (g i). split; [by apply list_elem_of_fmap_2|]. apply Hg. }
  split; [|done]. apply (sound_evolves db); simpl; rewrite ?Hc, ?Hi; [done | done | apply Hs | apply Hs | done |].
  intros n Hn. by apply (ids_drawn db Hs n).
Qed.

Lemma tame_expire now code : tame (expire_unused now code).
Proof. apply tame_invites. intros i. by destruct (_ && _). Qed.

Lemma tame_claim now iid : tame (claim_invite now iid).
Proof. apply tame_invites. intros i. by destruct (_ && _). Qed.

Lemma tame_live did f :
  (forall d, sd_id (f d) = sd_id d /\ enrolled_by (f d) = enrolled_by d) -> tame (update_live did f).
Proof.
  intros Hf db Hs. assert (Evolves db (update_live did f db).1) as He.
  { split; [by apply update_names|]. intros i Hi. by exists i. }
  split; [|done]. apply (sound_evolves db); [done | done | apply Hs | apply Hs | done |].
  intros n Hn. by apply (ids_drawn db Hs n).
Qed.

Lemma tame_told did now p : tame (update_live did (told now p)).
Proof. by apply tame_live. Qed.

Lemma tame_look {A} (f : DeviceDb -> A + ApiError) : tame (fun db => (db, f db)).
Proof. by apply tame_same. Qed.

#[local] Hint Resolve tame_told tame_look : tame.
#[local] Hint Resolve tame_get tame_audit tame_publish tame_find_live tame_get_place tame_insert_auth
  tame_insert_invite tame_edit tame_set_place tame_expire tame_claim : tame.

(** A request made of tame calls, whatever it answers. *)
Ltac tame_run :=
  repeat
    match goal with
      | |- safe _ _ _ (Done _) => exact Logic.I
      | |- safe _ _ _ (Step _ _ _) => apply safe_step; [solve [auto with tame]|intro]
      | |- safe _ _ _ (match ?x with _ => _ end) => destruct x
      | |- safe _ _ _ (mret _) => exact Logic.I
      | |- safe _ _ _ (raise _) => exact Logic.I
      | |- safe _ _ _ _ => progress cbn -[safe]
      | r : _ + ApiError |- _ => destruct r
      end.

Definition anyhow {A} : Ghost -> A + ApiError -> Prop := fun _ _ => True.

Lemma safe_answer {A} (f : A -> Response) (m : P A) Q1 Q2 g :
  safe I Q1 g m -> (forall g x, Q1 g (inl x) -> Q2 g (inl (f x))) ->
  (forall g e, Q2 g (inr e)) -> safe I Q2 g (answer f m).
Proof.
  intros Hm Hx He. eapply safe_bind; [apply Hm | | intros; apply He]. intros g' x Hq. by apply Hx.
Qed.

Lemma create_safe now actor hours code g : safe I anyhow g (create_device_invite now actor hours code).
Proof. unfold create_device_invite. tame_run. Qed.

Lemma list_devices_safe now g : safe I anyhow g (list_devices now).
Proof. unfold list_devices. tame_run. Qed.

Lemma list_invites_safe now g : safe I anyhow g (list_device_invites now).
Proof. unfold list_device_invites. tame_run. Qed.

Lemma expire_safe now actor code g : safe I anyhow g (expire_device_invite now actor code).
Proof. unfold expire_device_invite. tame_run. Qed.

Lemma rename_safe s now actor did name g : safe I anyhow g (rename_device s now actor did name).
Proof. unfold rename_device. destruct (has_mqtt s); tame_run. Qed.

Lemma delete_safe now actor did g : safe I anyhow g (delete_device now actor did).
Proof. unfold delete_device. tame_run. Qed.

Lemma place_safe now actor did place g : safe I anyhow g (set_device_place now actor did place).
Proof. unfold set_device_place. destruct place; tame_run. Qed.

Lemma data_safe now did p g : safe I anyhow g (handle_device_data now did p).
Proof. unfold handle_device_data. tame_run. Qed.

(** ** The three calls that are not *)

(** One request moves on, over tables that the others still agree with. *)
Lemma I_move db db' gs i g g' :
  I db gs -> gs !! i = Some g -> Sound db' -> agrees db' g' ->
  (forall j h, j <> i -> gs !! j = Some h -> agrees db' h) ->
  (forall j h c, j <> i -> gs !! j = Some h -> holds h = Some c -> holds g' = Some c -> False) ->
  I db' (<[i := g']> gs).
Proof.
  intros (_ & _ & Hu) Hi Hs Hg' Ho Hno. pose proof (lookup_lt_Some _ _ _ Hi) as Hlt. split; [done|]. split.
  - intros j h. destruct (decide (j = i)) as [->|Hne].
    + rewrite list_lookup_insert_eq by done. by intros [= <-].
    + rewrite list_lookup_insert_ne by done. by apply Ho.
  - intros j k h h' c. destruct (decide (j = i)) as [->|Hj], (decide (k = i)) as [->|Hk]; [done | | |].
    + rewrite list_lookup_insert_eq, list_lookup_insert_ne by done. intros [= <-] Hh' H1 H2.
      destruct (Hno k h' c Hk Hh' H2 H1).
    + rewrite list_lookup_insert_ne, list_lookup_insert_eq by done. intros Hh [= <-] H1 H2.
      destruct (Hno j h c Hj Hh H1 H2).
    + rewrite !list_lookup_insert_ne by done. by apply Hu.
Qed.

Lemma find_step {R} code (k : SpaceDeviceAuthRequest + ApiError -> P R) Q :
  (forall e, safe I Q Other (k (inr e))) ->
  (forall i, safe I Q (Found code (ar_id i)) (k (inl i))) ->
  safe I Q Other (Step _ (find_invite code) k).
Proof.
  intros He Hf db gs i x Hi HI.
  assert (exists g', I db (<[i := g']> gs) /\ safe I Q g' (k (inr (refused (E := ApiError))))) as Hrefused.
  { exists Other. split; [by rewrite list_insert_id | apply He]. }
  destruct x; [|exact Hrefused..]. unfold outcome, find_invite. cbn [fst snd].
  destruct (find_first _ (invites db)) as [inv|] eqn:Hfind.
  - exists (Found code (ar_id inv)). split; [|apply Hf].
    apply find_first_Some in Hfind as [Hin Hc]. apply bool_decide_eq_true in Hc.
    apply (I_move db db gs i Other); try done; [by apply HI | by exists inv |].
    intros j h _. by apply HI.
  - exists Other. split; [by rewrite list_insert_id | apply He].
Qed.

Lemma unspent db i c : Sound db -> i ∈ invites db -> ar_device_code i = c -> ar_used_at i = None -> ~ spent db c.
Proof.
  intros Hs Hi Hc Hu (j & Hj & Hc' & Hu'). rewrite (same_invite db i j) in Hu; [done|done|done|done|].
  left. congruence.
Qed.

Lemma claimed_I now db gs i c iid :
  I db gs -> gs !! i = Some (Found c iid) ->
  (0 < length (List.filter (fun i => (ar_id i ≟ iid) && is_unused i) (invites db)))%nat ->
  I (claim_invite now iid db).1 (<[i := Claimed c]> gs).
Proof.
  intros HI Hi Hn. pose proof HI as (Hs & Ha & _). destruct (tame_claim now iid db Hs) as [Hs' He].
  destruct (List.filter _ (invites db)) as [|inv l] eqn:Hf; simpl in Hn; [lia|].
  assert (inv ∈ List.filter (fun i => (ar_id i ≟ iid) && is_unused i) (invites db)) as Hin
    by (rewrite Hf; left). apply elem_of_lfilter in Hin as [Hin Hhit].
  pose proof Hhit as [Hid Hunused]%andb_true_iff. apply bool_decide_eq_true in Hid.
  assert (ar_used_at inv = None) as Hnone by (unfold is_unused in Hunused; by destruct (ar_used_at inv)).
  assert (ar_device_code inv = c) as Hc.
  { destruct (Ha i _ Hi) as (inv' & Hin' & Hid' & <-). f_equal. apply (same_invite db); try done.
    right. congruence. }
  pose proof (unspent db inv c Hs Hin Hc Hnone) as Hfree.
  apply (I_move db _ gs i (Found c iid)); try done.
  - split.
    + eexists. split; [simpl; apply list_elem_of_fmap_2, Hin|]. simpl. by rewrite Hhit.
    + intros d Hd Heq. apply Hfree. rewrite <- Heq.
      destruct (evolves_sym_devices _ _ d He Hd) as (d' & Hd' & _ & <-). by apply enrolled_spent.
  - intros j h _ Hj. eapply agrees_stays; [done|]. by apply (Ha j).
  - intros j h c' _ Hj Hh [= <-]. apply Hfree. by eapply holds_spent; [|apply (Ha j)|].
Qed.

Lemma claim_step {R} now c iid (k : nat + ApiError -> P R) Q :
  (forall g e, safe I Q g (k (inr e))) -> (forall g, safe I Q g (k (inl 0%nat))) ->
  (forall n, safe I Q (Claimed c) (k (inl (S n)))) ->
  safe I Q (Found c iid) (Step _ (claim_invite now iid) k).
Proof.
  intros He H0 HS db gs i x Hi HI.
  set (n := length (List.filter (fun i => (ar_id i ≟ iid) && is_unused i) (invites db))).
  assert (exists g', I (claim_invite now iid db).1 (<[i := g']> gs) /\ (n = 0%nat \/ g' = Claimed c))
    as (g' & HI' & Hg').
  { destruct (decide (n = 0%nat)) as [Hn|Hn].
    - exists (Found c iid). split; [|by left]. rewrite list_insert_id by done.
      destruct (tame_claim now iid db ltac:(apply HI)). by apply (I_evolves db).
    - exists (Claimed c). split; [|by right]. apply claimed_I; [done | done | fold n; lia]. }
  destruct x.
  - exists g'. split; [done|]. change (safe I Q g' (k (inl n))).
    destruct n as [|n']; [apply H0|]. destruct Hg' as [Hg' | ->]; [done | apply HS].
  - exists (Found c iid). split; [by rewrite list_insert_id | apply He].
  - exists g'. split; [done | apply He].
Qed.

Lemma inserted_I now req platform db gs i :
  I db gs -> gs !! i = Some (Claimed (encode_device_code (rq_device_code req))) ->
  I (insert_device now req platform db).1
    (<[i := Made (encode_device_code (rq_device_code req)) (gen_random_uuid (row_ids db))]> gs).
Proof.
  set (c := encode_device_code (rq_device_code req)). intros HI Hi. pose proof HI as (Hs & Ha & Hu).
  destruct (Ha i _ Hi) as [Hspent Hnone]. unfold insert_device. cbn [fst].
  set (d := Build_SpaceDevice _ _ _ _ _ _ _ _ _ _ _ _ _ _ _).
  apply (I_move db _ gs i (Claimed c)); try done.
  - destruct (ids_drawn db Hs (row_ids db) (le_n _)) as [_ Hid]. split; simpl; rewrite ?fmap_app; simpl;
      try apply Hs.
    + apply NoDup_app. split; [apply Hs|]. split; [|apply NoDup_singleton].
      intros x Hx. rewrite list_elem_of_singleton. by intros ->.
    + intros n Hn. destruct (ids_drawn db Hs n ltac:(lia)) as [H1 H2]. split; [done|].
      rewrite elem_of_app, list_elem_of_singleton. intros [|Heq%gen_random_uuid_inj]; [done | lia].
    + apply NoDup_app. split; [apply Hs|]. split; [|apply NoDup_singleton].
      intros x (d' & -> & Hd')%list_elem_of_fmap. rewrite list_elem_of_singleton. by apply Hnone.
    + intros d' [Hd' | ->%list_elem_of_singleton]%elem_of_app; [exact (enrolled_spent db Hs d' Hd') | exact Hspent].
  - exists d. simpl. split; [set_solver | done].
  - intros j h Hj Hh. pose proof (Ha j h Hh) as Hag. destruct h as [|c' iid|c'|c' did]; simpl in *; [done|done| |].
    + destruct Hag as [Hsp Hno]. split; [done|]. intros d' [Hd' | ->%list_elem_of_singleton]%elem_of_app; [by apply Hno|].
      simpl. fold c. intros <-. apply Hj. by apply (Hu j i (Claimed c) (Claimed c) c).
    + destruct Hag as (d' & Hd' & H1 & H2). exists d'. split; [set_solver | done].
  - intros j h c' Hj Hh Hc [= <-]. apply Hj. by apply (Hu j i h (Claimed c) c).
Qed.

Lemma insert_step {R} now req platform (k : SpaceDevice + ApiError -> P R) Q :
  let c := encode_device_code (rq_device_code req) in
  (forall g e, safe I Q g (k (inr e))) ->
  (forall d, safe I Q (Made c (sd_id d)) (k (inl d))) ->
  safe I Q (Claimed c) (Step _ (insert_device now req platform) k).
Proof.
  intros c He Hd db gs i x Hi HI. pose proof (inserted_I now req platform db gs i HI Hi) as HI'. destruct x.
  - eexists. split; [apply HI'|]. unfold outcome, insert_device. cbn [snd].
    match goal with |- safe _ _ _ (k (inl ?d)) => exact (Hd d) end.
  - exists (Claimed c). split; [by rewrite list_insert_id | apply He].
  - eexists. split; [apply HI' | apply He].
Qed.

(** ** A registration *)

Definition enrols (req : RegisterDeviceRequest) (g : Ghost) (r : RegisterDeviceResponse + ApiError) : Prop :=
  match r with
  | inl resp => g = Made (encode_device_code (rq_device_code req)) (rr_device_id resp)
  | inr _ => True
  end.

Lemma register_safe s now req token key : safe I (enrols req) Other (register_device s now req token key).
Proof.
  unfold register_device. destruct (bool_decide _); [exact Logic.I|].
  destruct (find_first _ _); [exact Logic.I|].
  cbn -[safe]. apply safe_step; [apply tame_get|]. intros [[]|e]; [|exact Logic.I].
  cbn -[safe]. apply find_step; [intros e; exact Logic.I|]. intros inv. cbn -[safe].
  destruct (is_some _); [exact Logic.I|]. destruct (_ <? _); [exact Logic.I|].
  destruct (parse_platform _); [|exact Logic.I].
  cbn -[safe]. apply claim_step; [intros g e; exact Logic.I | intros g; exact Logic.I |]. intros n. cbn -[safe].
  apply insert_step; [intros g e; exact Logic.I|]. intros d. cbn -[safe].
  destruct (mint_command_key s key) as [ck sealed]. cbn -[safe].
  apply safe_step; [apply tame_insert_auth|]. intros [[]|e]; [|exact Logic.I]. cbn -[safe].
  apply safe_step; [apply tame_audit|]. intros r1. cbn -[safe].
  apply safe_step; [apply tame_audit|]. intros r2. reflexivity.
Qed.

(** What an answer says of the request's own ghost. *)
Definition outcome_of (l : Request) (g : Ghost) (r : Response + ApiError) : Prop :=
  match l, r with
  | Register _ req _ _, inl (Registered resp) => enrols req g (inl resp)
  | _, _ => True
  end.

Lemma serve_safe s l : safe I (outcome_of l) Other (serve s l).
Proof.
  destruct l; unfold serve.
  - by apply (safe_answer _ _ _ _ _ (create_safe _ _ _ _ _)).
  - by apply (safe_answer _ _ _ _ _ (register_safe _ _ _ _ _)).
  - by apply (safe_answer _ _ _ _ _ (list_devices_safe _ _)).
  - by apply (safe_answer _ _ _ _ _ (list_invites_safe _ _)).
  - by apply (safe_answer _ _ _ _ _ (expire_safe _ _ _ _)).
  - by apply (safe_answer _ _ _ _ _ (rename_safe _ _ _ _ _ _)).
  - by apply (safe_answer _ _ _ _ _ (delete_safe _ _ _ _)).
  - by apply (safe_answer _ _ _ _ _ (place_safe _ _ _ _ _)).
  - by apply (safe_answer _ _ _ _ _ (data_safe _ _ _ _)).
Qed.

(** What is true of every server that can come about. *)
Lemma reachable s db0 db ps :
  Sound db0 -> leads_to (serve s) (idle db0) (db, ps) ->
  exists gs, I db gs /\ Forall2 (fun g lp => safe I (outcome_of lp.1) g lp.2) gs ps.
Proof.
  intros Hs Hsteps.
  apply (interleaved (serve s) I outcome_of (idle db0) (db, ps)); [|done|].
  - intros db' gs l (Hs' & Ha & Hu). exists Other. split; [|apply serve_safe]. split; [done|]. split.
    + intros j g [Hg | [_ Hg]]%lookup_app_Some; [by apply (Ha j)|].
      apply list_lookup_singleton_Some in Hg as [_ <-]. done.
    + intros j k g g' c Hj Hk Hc Hc'. apply (Hu j k g g' c); [| |done|done].
      * apply lookup_app_Some in Hj as [|[_ Hj]]; [done|].
        by apply list_lookup_singleton_Some in Hj as [_ <-].
      * apply lookup_app_Some in Hk as [|[_ Hk]]; [done|].
        by apply list_lookup_singleton_Some in Hk as [_ <-].
  - exists []. split; [|by constructor]. split; [done|]. by split.
Qed.

(** C35. However many requests run side by side, in whatever order their calls come and
    whatever they meet, no two devices are registered with one invite: of registrations
    with the same code at most one is answered, with a device that is there, every device
    has a code of its own, and that code is spent. *)
Theorem one_device_per_invite s db0 db ps :
  Sound db0 -> leads_to (serve s) (idle db0) (db, ps) ->
  (forall d d', d ∈ space_devices db -> d' ∈ space_devices db -> enrolled_by d = enrolled_by d' -> d = d') /\
  (forall d, d ∈ space_devices db -> spent db (enrolled_by d)) /\
  forall j now req token key resp,
    ps !! j = Some (Register now req token key, Done (inl (Registered resp))) ->
    (exists d, d ∈ space_devices db /\ sd_id d = rr_device_id resp /\
       enrolled_by d = encode_device_code (rq_device_code req)) /\
    forall k now' req' token' key' resp',
      ps !! k = Some (Register now' req' token' key', Done (inl (Registered resp'))) ->
      rq_device_code req' = rq_device_code req -> k = j.
Proof.
  intros Hs Hsteps. destruct (reachable s db0 db ps Hs Hsteps) as (gs & (Hs' & Ha & Hu) & Hgs). split; [|split].
  - intros d d' Hd Hd' Heq. apply list_elem_of_lookup in Hd as [m Hd]. apply list_elem_of_lookup in Hd' as [n Hd'].
    enough (m = n) by congruence. eapply (NoDup_lookup (enrolled_by <$> space_devices db));
      [by apply one_device_each | |]; rewrite list_lookup_fmap; [by rewrite Hd | by rewrite Hd', Heq].
  - intros d Hd. by apply enrolled_spent.
  - intros j now req token key resp Hj.
    destruct (Forall2_lookup_r _ _ _ _ _ Hgs Hj) as (g & Hg & Hq). simpl in Hq. subst g. split.
    + destruct (Ha j _ Hg) as (d & Hd & H1 & H2). by exists d.
    + intros k now' req' token' key' resp' Hk Heq.
      destruct (Forall2_lookup_r _ _ _ _ _ Hgs Hk) as (g' & Hg' & Hq'). simpl in Hq'. subst g'.
      eapply Hu; [apply Hg' | apply Hg | |]; simpl; by rewrite ?Heq.
Qed.
End DeviceSafety.
End DeviceSafety.
