(* ===== verification/Inbound.v ===== *)
(** * What a device reports ([server/src/devices_inbound.rs])

    A message of a device, over MQTT or a WebSocket: that it is alive, what it runs, that
    somebody presented a card at one of its doors.  What it runs is [Devices.handle_device_data]. *)
From Stdlib Require Import QArith.
From S2P Require Import Prelude Text Wire Rbac Schedules Access Faults Money Database Power Training GuardStore GuardApi GuardSafety Devices.

(** * Reaching a device ([server/src/devices_transport.rs])

    One slot per device for the WebSocket it is connected by, taken by the last to
    connect and given back only by whoever holds it, with MQTT where there is none; and
    the life of one connection ([handle_device_ws] of [api/devices.rs]). *)
Module Channels.

#[local] Open Scope Z_scope.

Section Channels.
Context {U : Uuid}.

(** ** The registry *)

(** A queue of one connection, by its number.  [open] until its writer is gone. *)
Record Queue := { waiting : list (string * json); open : bool }.

Record Session := { epoch : Z; tx : nat }.

Record DeviceChannelRegistry := {
  inner : gmap uuid Session;
  next_epoch : Z;
  queues : list Queue;
}.

Definition new : DeviceChannelRegistry := {| inner := ∅; next_epoch := 0; queues := [] |}.

Definition DEVICE_CHANNEL_CAPACITY : nat := 256.

(** [mpsc::channel], then [register]: the epochs wrap like any [u64]. *)
Definition register (did : uuid) (r : DeviceChannelRegistry) : DeviceChannelRegistry * Z :=
  let e := next_epoch r in
  ({| inner := <[did := {| epoch := e; tx := length (queues r) |}]> (inner r);
      next_epoch := (e + 1) mod 2 ^ 64;
      queues := queues r ++ [{| waiting := []; open := true |}] |}, e).

Definition unregister (did : uuid) (e : Z) (r : DeviceChannelRegistry) : DeviceChannelRegistry :=
  if is_some_and (inner r !! did) (fun s => epoch s ≟ e)
  then {| inner := delete did (inner r); next_epoch := next_epoch r; queues := queues r |}
  else r.

Definition contains (did : uuid) (r : DeviceChannelRegistry) : bool := is_some (inner r !! did).

Definition connected_count (r : DeviceChannelRegistry) : nat := size (inner r).

Definition with_queues (f : list Queue -> list Queue) (r : DeviceChannelRegistry) : DeviceChannelRegistry := {|
  inner := inner r; next_epoch := next_epoch r; queues := f (queues r) |}.

(** The sender's [try_send]: not when the queue is full, nor when nobody receives. *)
Definition queue_send (m : string * json) (q : Queue) : option Queue :=
  if open q && (length (waiting q) <? DEVICE_CHANNEL_CAPACITY)%nat
  then Some {| waiting := waiting q ++ [m]; open := true |} else None.

Definition try_send (did : uuid) (kind : string) (payload : json) (r : DeviceChannelRegistry) :
    DeviceChannelRegistry * bool :=
  match s ← inner r !! did; q ← queues r !! tx s; q' ← queue_send (kind, payload) q; Some (tx s, q') with
  | Some (k, q') => (with_queues <[k := q']> r, true)
  | None => (r, false)
  end.

(** [mqtt], where there is one: whether it took a message for a device.  What it took is
    the last part of the result. *)
Definition push (mqtt : option (uuid -> string -> json -> bool)) (did : uuid) (kind : string) (payload : json)
    (r : DeviceChannelRegistry) : DeviceChannelRegistry * bool * option json :=
  match try_send did kind payload r with
  | (r, true) => (r, true, None)
  | (r, false) =>
      match mqtt with
      | Some publish => if publish did kind payload then (r, true, Some payload) else (r, false, None)
      | None => (r, false, None)
      end
  end.

(** ** A connection *)

(** Frames as the socket gives them: [Bytes] is a text or binary frame, [Broken] a read
    error. *)
Inductive Frame : Type :=
  | Bytes (b : string)
  | Pong
  | Ping
  | Close
  | Broken.

(** The reader loop: what it dispatches, in order, until the connection ends.  [parse]
    is serde's [WireMessage]. *)
Fixpoint dispatched (parse : string -> option (string * json)) (frames : list Frame) : list (string * json) :=
  match frames with
  | [] => []
  | Bytes b :: fs =>
      match parse b with
      | Some m => m :: dispatched parse fs
      | None => dispatched parse fs
      end
  | (Pong | Ping) :: fs => dispatched parse fs
  | (Close | Broken) :: _ => []
  end.

(** What happens to connections: the devices and the epochs of all there ever were, by
    number. *)
Inductive Event : Type :=
  | Connects (did : uuid)
  | Disconnects (k : nat)
  | Pushed (did : uuid) (kind : string) (payload : json)
  | Written (k : nat).

Record World := {
  registry : DeviceChannelRegistry;
  connections : list (uuid * Z);
}.

Definition start : World := {| registry := new; connections := [] |}.

(** The writer takes the oldest message. *)
Definition write_out (q : Queue) : Queue := {| waiting := tail (waiting q); open := open q |}.
Definition shut (q : Queue) : Queue := {| waiting := []; open := false |}.

Definition happen (w : World) (e : Event) : World :=
  match e with
  | Connects did =>
      let '(r, ep) := register did (registry w) in
      {| registry := r; connections := connections w ++ [(did, ep)] |}
  | Disconnects k =>
      match connections w !! k with
      | Some (did, ep) =>
          {| registry := with_queues (alter shut k) (unregister did ep (registry w));
             connections := connections w |}
      | None => w
      end
  | Pushed did kind payload =>
      {| registry := (try_send did kind payload (registry w)).1; connections := connections w |}
  | Written k =>
      {| registry := with_queues (alter write_out k) (registry w); connections := connections w |}
  end.

Definition run (es : list Event) : World := foldl happen start es.

(** ** What a slot should hold *)

(** The connections as they come, and those that have gone. *)
Record Reference := { devices : list uuid; gone : gset nat }.

Definition note (s : Reference) (e : Event) : Reference :=
  match e with
  | Connects did => {| devices := devices s ++ [did]; gone := gone s |}
  | Disconnects k => if (k <? length (devices s))%nat then {| devices := devices s; gone := {[ k ]} ∪ gone s |} else s
  | _ => s
  end.

Definition history (es : list Event) : Reference := foldl note {| devices := []; gone := ∅ |} es.

(** The last place a device is at. *)
Fixpoint last_place (did : uuid) (n : nat) (l : list uuid) : option nat :=
  match l with
  | [] => None
  | d :: l =>
      match last_place did (S n) l with
      | Some k => Some k
      | None => if d ≟ did then Some n else None
      end
  end.

(** The newest connection of the device, unless it is the one that has gone. *)
Definition should_hold (did : uuid) (s : Reference) : option nat :=
  k ← last_place did 0 (devices s); if bool_decide (k ∈ gone s) then None else Some k.

Lemma last_place_app did n l d :
  last_place did n (l ++ [d]) = if d ≟ did then Some (n + length l)%nat else last_place did n l.
Proof.
  revert n. induction l as [|e l IH]; intros n; simpl.
  - rewrite Nat.add_0_r. done.
  - rewrite IH. destruct (d ≟ did); [f_equal; lia | done].
Qed.

Lemma last_place_lookup did n l k : last_place did n l = Some k -> (n <= k)%nat /\ l !! (k - n)%nat = Some did.
Proof.
  revert n. induction l as [|d l IH]; intros n; simpl; [done|].
  destruct (last_place did (S n) l) as [k'|] eqn:Hk; intros H; simplify_eq.
  - apply IH in Hk as [Hle Hl]. split; [lia|]. by replace (k - n)%nat with (S (k - S n)) by lia.
  - case_bool_decide; simplify_eq. split; [lia|]. by replace (k - k)%nat with 0%nat by lia.
Qed.

(** What registry and reference have in common after the same events. *)
Record Agree (w : World) (s : Reference) : Prop := {
  same_connections : (connections w).*1 = devices s;
  epochs_count : forall k did e, connections w !! k = Some (did, e) -> e = Z.of_nat k mod 2 ^ 64;
  next_counts : next_epoch (registry w) = Z.of_nat (length (connections w)) mod 2 ^ 64;
  gone_before : forall k, k ∈ gone s -> (k < length (devices s))%nat;
  queue_each : length (queues (registry w)) = length (connections w);
  slots_agree : forall did, inner (registry w) !! did =
    (fun k => {| epoch := Z.of_nat k mod 2 ^ 64; tx := k |}) <$> should_hold did s;
}.

Lemma try_send_inner did kind payload r :
  inner (try_send did kind payload r).1 = inner r /\ next_epoch (try_send did kind payload r).1 = next_epoch r /\
  length (queues (try_send did kind payload r).1) = length (queues r).
Proof.
  unfold try_send. destruct (inner r !! did) as [s|]; simpl; [|done].
  destruct (queues r !! tx s) as [q|]; simpl; [|done].
  destruct (queue_send (kind, payload) q); simpl; [|done]. by rewrite length_insert.
Qed.

Lemma connections_length w s : Agree w s -> length (devices s) = length (connections w).
Proof. intros [<- _ _ _ _ _]. by rewrite length_fmap. Qed.

Lemma agree_connects w s did : Agree w s -> Agree (happen w (Connects did)) (note s (Connects did)).
Proof.
  intros Ha. pose proof (connections_length w s Ha) as Hlen. destruct Ha as [Hc He Hn Hg Hq Hs]. split; simpl.
  - by rewrite fmap_app, Hc.
  - intros k d e [Hk | [Hk Hl]]%lookup_app_Some; [by apply (He k d)|].
    apply list_lookup_singleton_Some in Hl as [Hz [= <- <-]]. rewrite Hn. do 2 f_equal. lia.
  - rewrite length_app, Hn, Zplus_mod_idemp_l. simpl. f_equal. lia.
  - intros k Hk%Hg. rewrite length_app. simpl. lia.
  - by rewrite !length_app, Hq.
  - intros d. unfold should_hold. simpl. rewrite last_place_app. case_bool_decide as Hd.
    + subst d. rewrite lookup_insert_eq. simpl. rewrite bool_decide_eq_false_2.
      { simpl. by rewrite Hq, Hn, Hlen. }
      intros Hk%Hg. lia.
    + rewrite lookup_insert_ne by done. apply Hs.
Qed.

Lemma agree_queues w s f :
  (forall l, length (f l) = length l) -> Agree w s ->
  Agree {| registry := with_queues f (registry w); connections := connections w |} s.
Proof. intros Hf [Hc He Hn Hg Hq Hs]. split; simpl; try done. by rewrite Hf. Qed.

(** The holder of a slot is the only one whose epoch is on it. *)
Lemma same_epoch w s k k' did e :
  Agree w s -> Z.of_nat (length (connections w)) <= 2 ^ 64 ->
  connections w !! k = Some (did, e) -> (k' < length (connections w))%nat ->
  Z.of_nat k' mod 2 ^ 64 = e -> k' = k.
Proof.
  intros Ha Hle Hk Hlt. rewrite (epochs_count w s Ha k did e Hk). apply lookup_lt_Some in Hk.
  rewrite !Z.mod_small by lia. lia.
Qed.

Lemma holder_bound did s k : should_hold did s = Some k -> devices s !! k = Some did.
Proof.
  unfold should_hold. destruct (last_place did 0 (devices s)) as [k'|] eqn:Hl; simpl; [|done].
  case_bool_decide; intros [= <-]. apply last_place_lookup in Hl as [_ Hl]. by rewrite Nat.sub_0_r in Hl.
Qed.

Lemma gone_hold did s k :
  should_hold did {| devices := devices s; gone := {[ k ]} ∪ gone s |} =
  h ← should_hold did s; if (h =? k)%nat then None else Some h.
Proof.
  unfold should_hold. simpl. destruct (last_place did 0 (devices s)) as [h|]; simpl; [|done].
  destruct (decide (h ∈ gone s)) as [Hh|Hh].
  - rewrite !bool_decide_eq_true_2 by set_solver. done.
  - rewrite (bool_decide_eq_false_2 (h ∈ gone s)) by done. simpl.
    destruct (Nat.eqb_spec h k) as [->|Hne].
    + rewrite bool_decide_eq_true_2 by set_solver. done.
    + rewrite bool_decide_eq_false_2 by set_solver. done.
Qed.

Lemma agree_disconnects w s k :
  Z.of_nat (length (connections w)) <= 2 ^ 64 -> Agree w s ->
  Agree (happen w (Disconnects k)) (note s (Disconnects k)).
Proof.
  intros Hle Ha. pose proof (connections_length w s Ha) as Hlen. simpl. rewrite Hlen.
  destruct (connections w !! k) as [[did e]|] eqn:Hk.
  2: { apply lookup_ge_None in Hk. by rewrite (proj2 (Nat.ltb_ge _ _) Hk). }
  pose proof (lookup_lt_Some _ _ _ Hk) as Hlt. rewrite (proj2 (Nat.ltb_lt _ _) Hlt).
  assert (Agree {| registry := unregister did e (registry w); connections := connections w |}
    {| devices := devices s; gone := {[ k ]} ∪ gone s |}) as H.
  2: { apply (agree_queues _ _ (alter shut k)) in H; [done|]. intros l. apply length_alter. }
  pose proof Ha as [Hc He Hn Hg Hq Hs]. split; simpl; try done.
  - unfold unregister. by destruct (is_some_and _ _).
  - intros h. rewrite elem_of_union, elem_of_singleton, Hlen. intros [-> | Hh%Hg]; lia.
  - unfold unregister. by destruct (is_some_and _ _).
  - intros d. rewrite gone_hold. unfold unregister. rewrite Hs.
    assert (devices s !! k = Some did) as Hdk by (rewrite <- Hc, list_lookup_fmap, Hk; done).
    destruct (should_hold did s) as [h|] eqn:Hh; simpl.
    + pose proof (holder_bound did s h Hh) as Hbound. apply lookup_lt_Some in Hbound.
      case_bool_decide as Heq; simpl.
      * assert (h = k) as -> by (eapply (same_epoch w s k h did e); [done | done | done | lia | done]).
        destruct (decide (d = did)) as [->|Hne].
        { rewrite lookup_delete_eq, Hh. simpl. by rewrite Nat.eqb_refl. }
        rewrite lookup_delete_ne, Hs by done. destruct (should_hold d s) as [h'|] eqn:Hh'; simpl; [|done].
        destruct (Nat.eqb_spec h' k) as [->|]; [|done]. apply holder_bound in Hh'. congruence.
      * rewrite Hs. destruct (should_hold d s) as [h'|] eqn:Hh'; simpl; [|done].
        destruct (Nat.eqb_spec h' k) as [->|]; [|done].
        assert (d = did) as -> by (apply holder_bound in Hh'; congruence).
        destruct Heq. rewrite (He k did e Hk). congruence.
    + rewrite Hs. destruct (should_hold d s) as [h'|] eqn:Hh'; simpl; [|done].
      destruct (Nat.eqb_spec h' k) as [->|]; [|done].
      assert (d = did) as -> by (apply holder_bound in Hh'; congruence). congruence.
Qed.

Lemma connections_grow es w : (length (connections w) <= length (connections (foldl happen w es)))%nat.
Proof.
  revert w. induction es as [|e es IH]; intros w; simpl; [lia|]. etransitivity; [|apply IH].
  destruct e as [did|k|did kind payload|k]; simpl; [rewrite length_app; lia | | lia | lia].
  by destruct (connections w !! k) as [[? ?]|].
Qed.

Lemma agree_run es w s :
  Z.of_nat (length (connections (foldl happen w es))) <= 2 ^ 64 -> Agree w s ->
  Agree (foldl happen w es) (foldl note s es).
Proof.
  revert w s. induction es as [|e es IH]; intros w s Hle Ha; [done|]. cbn [foldl] in *. apply IH; [done|].
  pose proof (connections_grow es (happen w e)) as Hgrow.
  destruct e as [did|k|did kind payload|k].
  - by apply agree_connects.
  - apply agree_disconnects; [|done]. pose proof (connections_grow [Disconnects k] w) as Hg.
    change (foldl happen w [Disconnects k]) with (happen w (Disconnects k)) in Hg. lia.
  - simpl. destruct (try_send_inner did kind payload (registry w)) as (H1 & H2 & H3).
    destruct Ha as [Hc He Hn Hg Hq Hs]. split; simpl; rewrite ?H1, ?H2, ?H3; done.
  - apply agree_queues; [|done]. intros l. apply length_alter.
Qed.

(** C36. Whatever connections come, go, send and write, in whatever order, the slot of a
    device holds its newest connection until that one goes, and then nothing: no teardown
    of an older connection, however late, takes the slot of a newer. *)
Theorem slot_is_newest es did :
  Z.of_nat (length (connections (run es))) <= 2 ^ 64 ->
  (tx <$> inner (registry (run es)) !! did) = should_hold did (history es).
Proof.
  intros Hle. rewrite (slots_agree (run es) (history es)).
  - rewrite <- option_fmap_compose. by destruct (should_hold did (history es)).
  - apply agree_run; [done|]. by split.
Qed.
End Channels.
End Channels.

Import Text Rbac Faults Money Database Power Training GuardStore.

Module Inbound.

#[local] Open Scope string_scope.
#[local] Open Scope list_scope.
#[local] Open Scope Z_scope.

Section Inbound.
Context {U : Uuid} {IS : IdSource} {TH : TokenHash} {JT : JsonbText}.
Context {tz : Schedules.TimeZone} {IP : Access.IntervalParser}.

(** The credentials of devices, beside the tables of the device surface. *)
Record InboundDb := {
  guard : GuardDb;
  auths : list Devices.SpaceDeviceAuth;
}.

#[export] Instance inbound_guard : Part InboundDb GuardDb :=
  {| part := guard; put := fun g db => {| guard := g; auths := auths db |}; part_put := ltac:(done);
     put_part := ltac:(by intros []); put_put := ltac:(done) |}.

Abbreviation M := (Faults.M InboundDb DatabaseError).

Definition on_guard {A} (m : Faults.M GuardDb DatabaseError A) : M A := within (P := GuardDb) m.

(** The settings: [toolguard.profile_field], the cipher with what opens a sealed key, and
    the MAC of [css_lib::sig]. *)
Context (door_profile_field : string) (card_cipher : option CardCipher)
  (open_sealed : string * string -> option string) (sign : string -> string -> string).

(** ** Events of doors *)

Record DoorEventIn := {
  ev_door_id : uuid;
  ev_card_id : option string;
  ev_granted : bool;
  ev_reason : option string;
  ev_source : option string;
  ev_occurred_at : option instant;
  ev_sig : option string;
}.

Definition key_row (db : InboundDb) (did : uuid) : option Devices.SpaceDeviceAuth :=
  find_first (fun a => Devices.sa_device_id a ≟ did) (auths db).

(** The sealed key of the device, opened; one that does not open is an error. *)
Definition device_command_key (did : uuid) : M (option string) :=
  row ← select (fun db => key_row db did);
  match row ≫= Devices.command_key_sealed with
  | Some sealed =>
      match open_sealed sealed with
      | Some key => mret (Some key)
      | None => throw (OtherError "open device command key")
      end
  | None => mret None
  end.

Definition event_message (e : DoorEventIn) : string :=
  Wire.doors_event_message (uuid_show (ev_door_id e)) (default EmptyString (ev_card_id e)) (ev_granted e)
    (default EmptyString (ev_source e)).

Definition signed_by (key : string) (e : DoorEventIn) : bool :=
  is_some_and (ev_sig e) (fun s => Wire.verify sign key (event_message e) s).

(** Whether the event is looked at any further. *)
Definition accepted (did : uuid) (e : DoorEventIn) : M bool :=
  match card_cipher with
  | None => mret true
  | Some _ =>
      r ← attempt (device_command_key did);
      mret match r with
           | inl (Some key) => signed_by key e
           | inl None => true
           | inr _ => false
           end
  end.

Inductive DoorAccessMethod : Type := Rfid | QrCheckin | AdminRemote.

Definition as_str (m : DoorAccessMethod) : string :=
  match m with Rfid => "rfid" | QrCheckin => "qr_checkin" | AdminRemote => "admin_remote" end.

(** A source nobody knows counts as a card. *)
Definition method_of (source : option string) : DoorAccessMethod :=
  match source with
  | None => Rfid
  | Some s => if s ≟ "admin_remote" then AdminRemote else if s ≟ "qr_checkin" then QrCheckin else Rfid
  end.

(** Who presented the card, which row it is, and whether that row is revoked; a failed
    look reads as an unknown card. *)
Definition presented (e : DoorEventIn) : M (option User * option UserCard * bool) :=
  match ev_card_id e with
  | None => mret (None, None, false)
  | Some card =>
      if card ≟ EmptyString then mret (None, None, false)
      else
        r ← attempt (on_guard (resolve_card door_profile_field card card_cipher));
        mret match r with
             | inl (Active u c) => (Some u, c, false)
             | inl (Revoked u c) => (Some u, Some c, true)
             | _ => (None, None, false)
             end
  end.

Definition event_row (e : DoorEventIn) (who : option User) (card : option UserCard) : DoorAccessEvent := {|
  dae_door_id := ev_door_id e; dae_user_id := user_id <$> who; dae_method := as_str (method_of (ev_source e));
  card_id_attempted := (fun c => uuid_show (card_id c)) <$> card; granted := ev_granted e;
  dae_reason := ev_reason e |}.

(** A yes at a room opens the session the platform keeps. *)
Definition keep_session (now : instant) (did : uuid) (e : DoorEventIn) (who : option User) : M unit :=
  if ev_granted e then
    r ← attempt (on_guard (get_resource (ev_door_id e)));
    match r with
    | inl (Some res) =>
        if session_profile res ≟ UNTIL_STOPPED then
          _ ← attempt (on_guard (open_resource_session now (ev_door_id e) (user_id <$> who) (Some did)));
          mret tt
        else mret tt
    | _ => mret tt
    end
  else mret tt.

Definition log (event : AuditEventType) (who : option User) : M unit :=
  _ ← attempt (on_guard (money_call (create_audit_log event (user_id <$> who)))); mret tt.

(** [handle_doors_event], from the event as parsed; one that does not parse changes
    nothing. *)
Definition handle_doors_event (now : instant) (did : uuid) (e : DoorEventIn) : M unit :=
  ok ← accepted did e;
  if negb ok then mret tt
  else
    '(who, card, revoked) ← presented e;
    r ← attempt (on_guard (insert_door_access_event (event_row e who card)));
    match r with
    | inr _ => mret tt
    | inl _ =>
        _ ← keep_session now did e who;
        _ ← (if revoked : bool then log RevokedCardPresented who else mret tt);
        log (if ev_granted e then DoorUnlockedCard else DoorUnlockDenied) who
    end.

Definition handle_heartbeat (now : instant) (did : uuid) : M unit :=
  _ ← attempt (on_guard (touch_device_last_seen now did)); mret tt.

(** [dispatch]: by kind, with serde's reading of the payload. *)
Inductive Handler : Type :=
  | Heartbeat
  | Data
  | DoorsEvent.

Definition handler_of (kind : string) : option Handler :=
  if kind ≟ "heartbeat" then Some Heartbeat
  else if kind ≟ "data" then Some Data
  else if kind ≟ "doors/event" then Some DoorsEvent
  else None.
End Inbound.
End Inbound.

(** * What an event of a door can change

    Only what its device signed, and only one row that names no code.  The model is
    [Inbound]. *)
Import Text Rbac Faults Money Database Power Training GuardStore GuardSafety Inbound.

Module InboundSafety.

#[local] Open Scope string_scope.
#[local] Open Scope list_scope.
#[local] Open Scope Z_scope.

Section InboundSafety.
Context {U : Uuid} {IS : IdSource} {TH : TokenHash} {JT : JsonbText}.
Context {tz : Schedules.TimeZone} {IP : Access.IntervalParser}.
Context (door_profile_field : string) (card_cipher : option CardCipher)
  (open_sealed : string * string -> option string) (sign : string -> string -> string).

Abbreviation M := (Faults.M InboundDb DatabaseError).
Abbreviation device_command_key := (device_command_key open_sealed).
Abbreviation signed_by := (signed_by sign).
Abbreviation accepted := (accepted card_cipher open_sealed sign).
Abbreviation presented := (presented door_profile_field card_cipher).
Abbreviation handle_doors_event := (handle_doors_event door_profile_field card_cipher open_sealed sign).

(** ** What an event changes *)

(** What the check establishes: the device signed it, or has no key.  A server without
    a cipher for cards checks nothing. *)
Definition genuine (db : InboundDb) (did : uuid) (e : DoorEventIn) : Prop :=
  card_cipher = None \/ key_row db did ≫= Devices.command_key_sealed = None \/
  exists sealed key, key_row db did ≫= Devices.command_key_sealed = Some sealed /\
    open_sealed sealed = Some key /\ signed_by key e = true.

(** The code is of this row of the cards. *)
Definition carded (db : InboundDb) (code : string) (c : UserCard) : Prop :=
  exists cipher k, card_cipher = Some cipher /\ cards (guard db) !! k = Some c /\
    code_bidx c = Some (blind_index cipher code).

(** Who presented the code, and with which card. *)
Definition named (db : InboundDb) (e : DoorEventIn) (who : option User) (card : option UserCard) : Prop :=
  match who with
  | None => card = None
  | Some u => exists code k, ev_card_id e = Some code /\ users (money_of (guard db)) !! k = Some u /\
      match card with
      | Some c => carded db code c /\ card_user_id c = k
      | None => profile_names door_profile_field code u = true
      end
  end.

(** The row an event may leave, column by column: what the device said, and of the code
    it read the identifier of a card of the tables or nothing. *)
Record Entered (db : InboundDb) (e : DoorEventIn) (row : DoorAccessEvent) : Prop := {
  entered_door : dae_door_id row = ev_door_id e;
  entered_answer : granted row = ev_granted e /\ dae_reason row = ev_reason e;
  entered_method : let methods := ["rfid"; "qr_checkin"; "admin_remote"] in
    (ev_source e = Some (dae_method row) /\ dae_method row ∈ methods) \/
    (dae_method row = "rfid" /\ forall m, ev_source e = Some m -> m ∉ methods);
  entered_card : forall shown, card_id_attempted row = Some shown ->
    exists code c, ev_card_id e = Some code /\ carded db code c /\ shown = uuid_show (card_id c);
  entered_user : forall uid, dae_user_id row = Some uid ->
    exists code k u, ev_card_id e = Some code /\ users (money_of (guard db)) !! k = Some u /\
      uid = user_id u /\
      ((exists c, carded db code c /\ card_user_id c = k) \/ profile_names door_profile_field code u = true);
}.

Lemma card_by_index_carded db cipher code c :
  card_cipher = Some cipher -> card_by_index (guard db) (blind_index cipher code) = Some c -> carded db code c.
Proof.
  unfold card_by_index. intros Hc H. exists cipher.
  assert (forall c, c ∈ List.filter (fun c => code_bidx c ≟ Some (blind_index cipher code))
      (map_to_list (cards (guard db))).*2 ->
    exists k, card_cipher = Some cipher /\ cards (guard db) !! k = Some c /\
      code_bidx c = Some (blind_index cipher code)) as Hin.
  { intros x [Hx Hb%bool_decide_eq_true]%elem_of_lfilter.
    apply list_elem_of_fmap in Hx as ([k y] & -> & Hk). apply elem_of_map_to_list in Hk. by exists k. }
  unfold option_or in H. destruct (find_first _ _) as [x|] eqn:Ef.
  - injection H as ->. apply find_first_Some in Ef as [Ef _]. by apply Hin.
  - apply head_Some_elem_of in H. unfold newest_first in H. rewrite elem_of_sort_by in H.
    apply elem_of_lfilter in H as [H _]. by apply Hin.
Qed.

Lemma event_row_entered db e who card :
  named db e who card -> Entered db e (event_row e who card).
Proof.
  intros Hn. split; simpl; try done.
  - unfold method_of. destruct (ev_source e) as [m|]; [|right; split; [done|]; by intros].
    case_bool_decide as H1; [left; subst; split; [done|set_solver]|].
    case_bool_decide as H2; [left; subst; split; [done|set_solver]|].
    destruct (decide (m = "rfid")) as [->|H3]; [left; split; [done|set_solver]|].
    right. split; [done|]. intros m' [= <-]. set_solver.
  - intros shown Hs. destruct card as [c|]; [|done]. injection Hs as <-.
    destruct who as [u|]; [|done]. destruct Hn as (code & k & He & _ & Hc & _). by exists code, c.
  - intros uid Hu. destruct who as [u|]; [|done]. injection Hu as <-.
    destruct Hn as (code & k & He & Hk & Hc). exists code, k, u. split_and!; try done.
    destruct card as [c|]; [left; by exists c | by right].
Qed.

(** What a look-up of the key found. *)
Definition key_known (db : InboundDb) (did : uuid) (o : option string) : Prop :=
  match o with
  | Some key => exists sealed, key_row db did ≫= Devices.command_key_sealed = Some sealed /\ open_sealed sealed = Some key
  | None => key_row db did ≫= Devices.command_key_sealed = None
  end.

Lemma reads_key did : reads (device_command_key did) (fun db o => key_known db did o).
Proof.
  unfold device_command_key. eapply reads_bind; [apply reads_select|]. intros row.
  destruct (row ≫= Devices.command_key_sealed) as [sealed|] eqn:Hrow.
  - destruct (open_sealed sealed) as [key|] eqn:Ho; [|apply reads_throw].
    apply reads_ret. intros db ->. by exists sealed.
  - apply reads_ret. by intros db ->.
Qed.

Lemma reads_accepted did e : reads (accepted did e) (fun db b => b = true -> genuine db did e).
Proof.
  unfold accepted, genuine. destruct card_cipher as [c|]; [|apply reads_ret; intros db _; by left].
  eapply reads_bind; [apply reads_attempt, reads_key|]. intros [[key|]|err]; apply reads_ret; intros db Hr Hb;
    [|by right; left | done].
  right; right. destruct Hr as (sealed & H1 & H2). by exists sealed, key.
Qed.

(** What the look-up of a code found. *)
Definition resolved (e : DoorEventIn) (g : GuardDb) (r : CardResolution) : Prop :=
  forall a, let db := {| guard := g; auths := a |} in
  match r with
  | Active u c => named db e (Some u) c
  | Revoked u c => named db e (Some u) (Some c)
  | Unknown => True
  end.

Lemma reads_profile_field field code : reads (find_user_by_profile_field field code)
  (fun db o => forall u, o = Some u -> exists k, users (money_of db) !! k = Some u /\ profile_names field code u = true).
Proof.
  unfold find_user_by_profile_field. destruct (_ || _); [apply reads_throw|].
  eapply reads_weaken; [apply reads_money, reads_select|]. intros db o -> u H.
  apply find_first_Some in H as [H Hp]. apply list_elem_of_fmap in H as ([k y] & -> & Hk).
  apply elem_of_map_to_list in Hk. by exists k.
Qed.

Lemma reads_presented e : reads (presented e) (fun db '(who, card, _) => named db e who card).
Proof.
  unfold presented. destruct (ev_card_id e) as [code|] eqn:Ecode; [|by apply reads_ret].
  destruct (code ≟ EmptyString); [by apply reads_ret|].
  apply reads_bind with (R := fun db r => match r with
    | inl (Active u c) => named db e (Some u) c | inl (Revoked u c) => named db e (Some u) (Some c)
    | _ => True end).
  - apply reads_attempt.
    apply (reads_weaken _ (fun db r => resolved e (guard db) r)); [|by intros [g a] [u c|u c|] H; [apply (H a)..|]].
    unfold on_guard. refine (reads_within (D := InboundDb) (P := GuardDb) _ (resolved e) _). unfold resolve_card.
    apply (reads_bind _ _ (fun db row => match card_cipher with
      | Some c => row = card_by_index db (blind_index c code) | None => row = None end)).
    { destruct card_cipher as [c|]; [apply reads_select | by apply reads_ret]. }
    intros [row|].
    + eapply reads_bind; [apply reads_money, reads_select|]. intros [u|]; [|apply reads_throw].
      apply reads_ret. intros db Hu Hrow a. destruct card_cipher as [c|] eqn:Ec; [|done].
      assert (named {| guard := db; auths := a |} e (Some u) (Some row)) as Hn.
      { exists code, (card_user_id row). split_and!; [done..| |done].
        apply (card_by_index_carded _ c); [exact Ec | done]. }
      by destruct (grants_access (card_status row)).
    + eapply reads_bind; [apply reads_profile_field|].
      intros [u|]; apply reads_ret; [|done]. intros db Hu _ a. destruct (Hu u eq_refl) as (k & Hk & Hp).
      by exists code, k.
  - intros [[u [c|]|u c|]|err]; by apply reads_ret.
Qed.

(** What the event may do, from the state it met. *)
Record Reported (did : uuid) (e : DoorEventIn) (db0 db : InboundDb) : Prop := {
  is_genuine : genuine db0 did e;
  one_row : door_events (guard db) = door_events (guard db0) \/
    exists row, Entered db0 e row /\ door_events (guard db) = door_events (guard db0) ++ [row];
  one_session : resource_sessions (guard db) = resource_sessions (guard db0) \/
    ev_granted e = true /\ (session_profile <$> resources (guard db0) !! ev_door_id e) = Some UNTIL_STOPPED /\
    exists s, resource_sessions (guard db) = resource_sessions (guard db0) ++ [s] /\
      rs_resource_id s = ev_door_id e /\ rs_device_id s = Some did;
}.

(** One call on the tables of the surface, looked at only in what it leaves. *)
Lemma ends_attempt_call {A} (P Q : InboundDb -> Prop) (f : GuardDb -> GuardDb * (A + DatabaseError)) :
  (forall db, P db -> Q db /\ Q {| guard := (f (guard db)).1; auths := auths db |}) ->
  ends P (attempt (on_guard (call f))) (fun _ => Q).
Proof.
  intros H db fs Hp. destruct (H db Hp) as [H1 H2]. unfold attempt, on_guard, within, call.
  cbn [part inbound_guard]. destruct db as [g a].
  destruct fs as [|[] fs]; simpl in *; try (destruct (f g) as [g' r]); done.
Qed.

Section From.
Context (did : uuid) (e : DoorEventIn) (db0 : InboundDb).

(** The row is in; the session is not looked at yet. *)
Definition entered_only (db : InboundDb) : Prop :=
  Reported did e db0 db /\ resource_sessions (guard db) = resource_sessions (guard db0) /\
  resources (guard db) = resources (guard db0).

Lemma log_reported event who : keeps (Reported did e db0) (log event who).
Proof.
  apply keeps_bind; [|intros; apply keeps_ret]. apply keeps_attempt.
  eapply (keeps_within _ (fun g => door_events g = door_events g /\ forall a,
    Reported did e db0 {| guard := g; auths := a |})).
  - unfold money_call, training_call. apply keeps_within_frame. intros g t [_ Hg]. split; [done|].
    intros a. destruct (Hg a) as [H1 H2 H3]. by split.
  - intros db H. split; [done|]. intros a. destruct H as [H1 H2 H3]. by split.
  - intros db g _ [_ Hg]. apply Hg.
Qed.

Lemma opened (now : instant) who :
  ends entered_only (attempt (on_guard (open_resource_session now (ev_door_id e) (user_id <$> who) (Some did))))
    (fun _ db => ev_granted e = true -> session_profile <$> resources (guard db0) !! ev_door_id e = Some UNTIL_STOPPED ->
       Reported did e db0 db).
Proof.
  apply (ends_attempt_call entered_only (fun db => ev_granted e = true ->
    session_profile <$> resources (guard db0) !! ev_door_id e = Some UNTIL_STOPPED -> Reported did e db0 db)).
  intros db (Hrep & Hses & Hres). split; [by intros|]. intros Hg Hp. destruct Hrep as [H1 H2 _].
  destruct (negb _); [split; [done | exact H2 | by left]|].
  destruct (find_first _ _); [split; [done | exact H2 | by left]|].
  split; [done | exact H2 |]. right. split; [done|]. split; [done|]. eexists. split; [simpl; by rewrite Hses|].
  by split.
Qed.

Lemma session_reported (now : instant) who : ends entered_only (keep_session now did e who) (fun _ => Reported did e db0).
Proof.
  unfold keep_session. destruct (ev_granted e) eqn:Hg; [|by apply ends_ret; intros db [H _]].
  eapply ends_bind.
  - eapply ends_weaken; [apply ends_reads, reads_attempt, reads_within, reads_select | intros db H; exact H |].
    intros [r|err] db [H Hr]; [|by destruct H as [H _]].
    instantiate (1 := fun r db => entered_only db /\ (forall res, r = inl (Some res) ->
      resources (guard db0) !! ev_door_id e = Some res)). split; [done|].
    intros res ->. destruct H as (_ & _ & <-). by symmetry.
  - intros [[res|]|err]; [|by apply ends_ret; intros db [[H _] _]..].
    case_bool_decide as Hp; [|by apply ends_ret; intros db [[H _] _]].
    eapply ends_bind with (R := fun _ => Reported did e db0); [|intros ?; by apply ends_ret].
    intros db fs [H Hres]. pose proof (opened now who db fs H) as Ho. unfold attempt in *.
    destruct (on_guard _ (db, fs)) as [[db' fs'] r]. apply Ho; [done|]. rewrite (Hres res eq_refl). simpl. by f_equal.
Qed.

Lemma rows_reported who card :
  genuine db0 did e -> named db0 e who card ->
  ends (fun db => db = db0) (attempt (on_guard (insert_door_access_event (event_row e who card))))
    (fun _ => entered_only).
Proof.
  intros Hgen Hnamed. apply (ends_attempt_call (fun db => db = db0) entered_only). intros db ->.
  split; [split; [|done]; split; [done | by left | by left]|].
  destruct (_ && _); (split; [|done]); (split; [done| |by left]); [|by left].
  right. exists (event_row e who card). split; [by apply event_row_entered | done].
Qed.
End From.

Lemma event_ends (now : instant) did e db0 :
  ends (fun db => db = db0) (handle_doors_event now did e) (fun _ db => db = db0 \/ Reported did e db0 db).
Proof.
  unfold handle_doors_event.
  apply ends_bind with (R := fun ok db => db = db0 /\ (ok = true -> genuine db0 did e)).
  { eapply ends_weaken; [apply ends_reads, reads_accepted | intros db H; exact H |].
    intros [ok|err] db [-> Hok]; [by split | by left]. }
  intros [|]; cbn [negb]; [|by apply ends_ret; intros db [-> _]; left].
  apply ends_bind with (R := fun x db => db = db0 /\ genuine db0 did e /\ named db0 e x.1.1 x.1.2).
  { eapply ends_weaken; [apply ends_reads, reads_presented | intros db H; exact H |].
    intros [[[who card] revoked]|err] db [[-> Hgen] Hn]; [by auto | by left]. }
  intros [[who card] revoked]. cbn [fst snd].
  apply ends_pre with (P' := fun db => (db = db0) /\ (genuine db0 did e /\ named db0 e who card)); [|done].
  apply ends_pure. intros [Hgen Hn].
  eapply ends_bind.
  { eapply ends_weaken; [by apply rows_reported | done |]. intros [r|err] db H; [|right; by destruct H].
    instantiate (1 := fun _ => entered_only did e db0). done. }
  intros [r|err]; [|by apply ends_ret; intros db [H _]; right].
  apply ends_post with (Q' := fun _ => Reported did e db0); [|by right].
  eapply ends_bind.
  { eapply ends_post; [apply session_reported|]. intros [x|err] db H; [|exact H].
    instantiate (1 := fun _ => Reported did e db0). done. }
  intros ?. apply ends_then; [|done|].
  - destruct revoked; [apply log_reported | apply keeps_ret].
  - intros _. apply ends_keeps, log_reported.
Qed.

(** C37. Whatever an event of a door meets, it changes nothing unless its device signed it
    -- or has no key to sign with, or the server has no cipher for cards, in which case it
    checks no signature -- and then it is entered at most once and opens at most one
    session, of the room it names, and only for a yes.  The row says the door, the answer,
    the reason and the method of the event, or of a card where it names no known one; where it names a card, it is by the identifier
    of a row of the cards whose index is that of the code, and never by the code; and the
    member it names has that card, or the code in the profile's field. *)
Theorem events_are_signed (now : instant) did e db fs :
  let db' := (handle_doors_event now did e (db, fs)).1.1 in
  db' = db \/ Reported did e db db'.
Proof.
  pose proof (event_ends now did e db db fs eq_refl) as H. simpl.
  by destruct (handle_doors_event now did e (db, fs)) as [[db' fs'] r].
Qed.
End InboundSafety.
End InboundSafety.
