(* ===== verification/RbacAdmin.v ===== *)
(** * Administering roles ([server/src/api/rbac_admin.rs])

    The roles, their permissions and their inheritance as tables, with the methods of
    [DatabaseManager] that change them and rebuild the cached graph, and every route of
    the administration.  What a graph means is in [Rbac]. *)
From Stdlib Require Import QArith.
From stdpp Require Import relations.
From S2P Require Import Prelude Text Rbac Faults Money AuditLog Database Api.

Import Text Rbac Faults Database Api.

Module RbacAdmin.

#[local] Open Scope string_scope.
#[local] Open Scope list_scope.
#[local] Open Scope Z_scope.

Section RbacAdmin.
Context {U : Uuid} {IS : IdSource}.

(** ** Tables *)

Record RoleRow := {
  r_id : uuid;
  r_name : string;
  r_description : string;
  is_system : bool;
  r_level : Z;
}.

Inductive RbacEvent : Type :=
  | RoleCreated | RoleUpdated | RoleDeleted | RolePermissionsChanged | RoleInheritanceChanged.

Record RbacDb := {
  role_rows : list RoleRow;
  catalog : list (string * string);
  grants : list (uuid * string);
  edges : list (uuid * uuid);
  assigned : list (uuid * uuid);
  cached : RoleGraph;
  rbac_ids : nat;
  audited : list (RbacEvent * uuid * json);
}.

Definition with_roles (f : list RoleRow -> list RoleRow) (db : RbacDb) : RbacDb := {|
  role_rows := f (role_rows db); catalog := catalog db; grants := grants db; edges := edges db;
  assigned := assigned db; cached := cached db; rbac_ids := rbac_ids db; audited := audited db |}.

Definition with_grants (f : list (uuid * string) -> list (uuid * string)) (db : RbacDb) : RbacDb := {|
  role_rows := role_rows db; catalog := catalog db; grants := f (grants db); edges := edges db;
  assigned := assigned db; cached := cached db; rbac_ids := rbac_ids db; audited := audited db |}.

Definition with_edges (f : list (uuid * uuid) -> list (uuid * uuid)) (db : RbacDb) : RbacDb := {|
  role_rows := role_rows db; catalog := catalog db; grants := grants db; edges := f (edges db);
  assigned := assigned db; cached := cached db; rbac_ids := rbac_ids db; audited := audited db |}.

Definition with_assigned (f : list (uuid * uuid) -> list (uuid * uuid)) (db : RbacDb) : RbacDb := {|
  role_rows := role_rows db; catalog := catalog db; grants := grants db; edges := edges db;
  assigned := f (assigned db); cached := cached db; rbac_ids := rbac_ids db; audited := audited db |}.

Definition with_cached (g : RoleGraph) (db : RbacDb) : RbacDb := {|
  role_rows := role_rows db; catalog := catalog db; grants := grants db; edges := edges db;
  assigned := assigned db; cached := g; rbac_ids := rbac_ids db; audited := audited db |}.

Definition next_id (db : RbacDb) : RbacDb := {|
  role_rows := role_rows db; catalog := catalog db; grants := grants db; edges := edges db;
  assigned := assigned db; cached := cached db; rbac_ids := S (rbac_ids db); audited := audited db |}.

Definition add_audit (x : RbacEvent * uuid * json) (db : RbacDb) : RbacDb := {|
  role_rows := role_rows db; catalog := catalog db; grants := grants db; edges := edges db;
  assigned := assigned db; cached := cached db; rbac_ids := rbac_ids db;
  audited := audited db ++ [x] |}.

Definition is_role (rid : uuid) (r : RoleRow) : bool := r_id r ≟ rid.
Definition role_exists (db : RbacDb) (rid : uuid) : bool := existsb (is_role rid) (role_rows db).

(** ** The methods *)

Abbreviation M := (Faults.M RbacDb DatabaseError).

(** [RoleGraph::load]: the graph of the three tables. *)
Definition graph_of (db : RbacDb) : RoleGraph :=
  from_rows ((fun r => (r_id r, r_name r, r_level r)) <$> role_rows db) (grants db) (edges db).

Definition reload_rbac : M unit := call (fun db => (with_cached (graph_of db) db, inl tt)).

Definition get_role (rid : uuid) : M (option RoleRow) :=
  select (fun db => find_first (is_role rid) (role_rows db)).

Definition permission_keys : M (list string) := select (fun db => (catalog db).*1).

Definition create_role (name description : string) (level : Z) : M RoleRow :=
  role ← call (fun db =>
    if existsb (fun r => r_name r ≟ name) (role_rows db) then (db, inr UniqueViolation)
    else
      let role := {| r_id := gen_random_uuid (rbac_ids db); r_name := name; r_description := description;
                     is_system := false; r_level := level |} in
      (next_id (with_roles (fun rs => rs ++ [role]) db), inl role));
  _ ← reload_rbac;
  mret role.

Definition edited (description : option string) (level : option Z) (r : RoleRow) : RoleRow := {|
  r_id := r_id r; r_name := r_name r; r_description := default (r_description r) description;
  is_system := is_system r; r_level := default (r_level r) level |}.

Definition update_role (rid : uuid) (description : option string) (level : option Z) : M RoleRow :=
  role ← call (fun db =>
    match find_first (is_role rid) (role_rows db) with
    | None => (db, inr NotFound)
    | Some r =>
        (with_roles (fun rs => (fun r => if is_role rid r then edited description level r else r) <$> rs) db,
         inl (edited description level r))
    end);
  _ ← reload_rbac;
  mret role.

(** The foreign keys take its grants, edges and assignments along. *)
Definition delete_role (rid : uuid) : M nat :=
  n ← call (fun db =>
    (with_roles (List.filter (fun r => negb (is_role rid r)))
      (with_grants (List.filter (fun g => negb (g.1 ≟ rid)))
        (with_edges (List.filter (fun e => negb (e.1 ≟ rid) && negb (e.2 ≟ rid)))
          (with_assigned (List.filter (fun a => negb (a.2 ≟ rid))) db))),
     inl (length (List.filter (is_role rid) (role_rows db)))));
  _ ← reload_rbac;
  mret n.

(** [INSERT ... ON CONFLICT DO NOTHING]. *)
Definition insert_new `{EqDecision A} (l : list A) (x : A) : list A :=
  if bool_decide (x ∈ l) then l else l ++ [x].

Definition set_role_permissions (rid : uuid) (keys : list string) : M unit :=
  _ ← call (fun db =>
    if forallb (fun k => role_exists db rid && bool_decide (k ∈ (catalog db).*1)) keys then
      (with_grants (fun gs => foldl insert_new (List.filter (fun g => negb (g.1 ≟ rid)) gs)
         ((fun k => (rid, k)) <$> keys)) db, inl tt)
    else (db, inr ForeignKeyViolation));
  reload_rbac.

Definition set_role_inheritance (rid : uuid) (parents : list uuid) : M unit :=
  _ ← call (fun db =>
    if existsb (fun p => p ≟ rid) parents then (db, inr CheckViolation)
    else if forallb (fun p => role_exists db rid && role_exists db p) parents then
      (with_edges (fun es => foldl insert_new (List.filter (fun e => negb (e.1 ≟ rid)) es)
         ((fun p => (rid, p)) <$> parents)) db, inl tt)
    else (db, inr ForeignKeyViolation));
  reload_rbac.

(** Every role by level, the catalog by key, the grants and the edges. *)
Definition rbac_snapshot : M (list RoleRow * list (string * string) * list (uuid * string) * list (uuid * uuid)) :=
  select (fun db =>
    (sort_by (fun a b => r_level a <=? r_level b) (role_rows db),
     sort_by (fun a b => String.leb a.1 b.1) (catalog db), grants db, edges db)).

(** ** The routes *)

Abbreviation H := (Faults.M RbacDb ApiError).

#[local] Instance RbacApi_fault : FaultError ApiError := api_error Connection.

Definition db_call {A} (m : M A) : H A := map_err api_error m.

(** The log may fail without the request failing: it is an effect here. *)
Definition audit (event : RbacEvent) (actor : uuid) (detail : json) : H unit :=
  effect (add_audit (event, actor, detail)).

Record RoleView := {
  view_role : RoleRow;
  view_inherits : list uuid;
  view_permissions : list string;
}.

Definition role_view (gs : list (uuid * string)) (es : list (uuid * uuid)) (r : RoleRow) : RoleView := {|
  view_role := r;
  view_inherits := (List.filter (fun e => e.1 ≟ r_id r) es).*2;
  view_permissions := sort_by String.leb (List.filter (fun g => g.1 ≟ r_id r) gs).*2 |}.

Definition get_rbac : H (list RoleView * list (string * string)) :=
  '(rs, ps, gs, es) ← db_call rbac_snapshot;
  mret (role_view gs es <$> rs, ps).

Definition role_detail (r : RoleRow) : json :=
  JObj [("level", JInt (r_level r)); ("name", JStr (r_name r)); ("role_id", JStr (uuid_show (r_id r)))].

Definition create_role_route (actor : uuid) (name description : string) (level : Z) : H RoleRow :=
  let name := trim name in
  if name ≟ EmptyString then throw (BadRequest "role name must not be empty")
  else if level <? 0 then throw (BadRequest "role level must not be negative")
  else
    role ← db_call (create_role name (trim description) level);
    _ ← audit RoleCreated actor (role_detail role);
    mret role.

Definition found (o : option RoleRow) : H RoleRow :=
  match o with Some r => mret r | None => throw (NotFoundError "role not found") end.

Definition update_role_route (actor rid : uuid) (description : option string) (level : option Z) : H RoleRow :=
  existing ← db_call (get_role rid) ≫= found;
  if is_system existing && is_some level
  then throw (Forbidden "the level of a system role cannot be changed")
  else if is_some_and level (fun l => l <? 0) then throw (BadRequest "role level must not be negative")
  else
    role ← db_call (update_role rid description level);
    _ ← audit RoleUpdated actor (role_detail role);
    mret role.

Definition delete_role_route (actor rid : uuid) : H unit :=
  existing ← db_call (get_role rid) ≫= found;
  if is_system existing then throw (Forbidden "system roles cannot be deleted")
  else
    _ ← db_call (delete_role rid);
    audit RoleDeleted actor (JObj [("name", JStr (r_name existing)); ("role_id", JStr (uuid_show rid))]).

(** [Vec::dedup]: of equal neighbours the first stays. *)
Fixpoint dedup `{EqDecision A} (l : list A) : list A :=
  match l with
  | [] => []
  | x :: l' =>
      match l' with
      | [] => [x]
      | y :: _ => if bool_decide (x = y) then dedup l' else x :: dedup l'
      end
  end.

Definition set_permissions_route (actor rid : uuid) (permissions : list string) : H unit :=
  _ ← db_call (get_role rid) ≫= found;
  known ← db_call permission_keys;
  let keys := dedup (sort_by String.leb permissions) in
  match find_first (fun k => negb (bool_decide (k ∈ known))) keys with
  | Some unknown => throw (BadRequest ("unknown permission key: " +:+ unknown))
  | None =>
      _ ← db_call (set_role_permissions rid keys);
      audit RolePermissionsChanged actor
        (JObj [("permissions", JArr (JStr <$> keys)); ("role_id", JStr (uuid_show rid))])
  end.

(** The graph as it would be after the edit. *)
Definition candidate (roles : list RoleRow) (es : list (uuid * uuid)) (rid : uuid) (parents : list uuid) :
    RoleGraph :=
  from_rows ((fun r => (r_id r, r_name r, r_level r)) <$> roles) []
    (List.filter (fun e => negb (e.1 ≟ rid)) es ++ ((fun p => (rid, p)) <$> parents)).

Definition set_inheritance_route (actor rid : uuid) (inherits : list uuid) : H unit :=
  '(roles, _, _, es) ← db_call rbac_snapshot;
  let valid := r_id <$> roles in
  if negb (bool_decide (rid ∈ valid)) then throw (NotFoundError "role not found")
  else
    let parents := dedup (sort_by uuid_leb inherits) in
    if bool_decide (rid ∈ parents) then throw (BadRequest "a role cannot inherit from itself")
    else match find_first (fun p => negb (bool_decide (p ∈ valid))) parents with
    | Some unknown => throw (BadRequest ("unknown role id in inheritance: " +:+ uuid_show unknown))
    | None =>
        if has_cycle (candidate roles es rid parents)
        then throw (BadRequest "this inheritance change would create a cycle")
        else
          _ ← db_call (set_role_inheritance rid parents);
          audit RoleInheritanceChanged actor
            (JObj [("inherits", JArr ((fun p => JStr (uuid_show p)) <$> parents)); ("role_id", JStr (uuid_show rid))])
    end.

Inductive Request : Type :=
  | GetRbac
  | CreateRole (name description : string) (level : Z)
  | UpdateRole (rid : uuid) (description : option string) (level : option Z)
  | DeleteRole (rid : uuid)
  | SetRolePermissions (rid : uuid) (permissions : list string)
  | SetRoleInheritance (rid : uuid) (inherits : list uuid).

(** The routes, for a caller let in as an administrator. *)
Definition serve (actor : uuid) (req : Request) : H unit :=
  match req with
  | GetRbac => _ ← get_rbac; mret tt
  | CreateRole n d l => _ ← create_role_route actor n d l; mret tt
  | UpdateRole r d l => _ ← update_role_route actor r d l; mret tt
  | DeleteRole r => delete_role_route actor r
  | SetRolePermissions r ps => set_permissions_route actor r ps
  | SetRoleInheritance r ps => set_inheritance_route actor r ps
  end.
End RbacAdmin.
End RbacAdmin.

(** * What administering roles cannot break

    The roles stay sound under any faults, the system roles stay as they are, and an edit
    that is answered is in force.  The model is [RbacAdmin]. *)
Import Text Rbac Faults Database Api RbacAdmin.

Module RbacSafety.

#[local] Open Scope string_scope.
#[local] Open Scope list_scope.
#[local] Open Scope Z_scope.

Section RbacSafety.
Context {U : Uuid} {IS : IdSource}.

Abbreviation M := (Faults.M RbacDb DatabaseError).
Abbreviation H := (Faults.M RbacDb ApiError).
#[local] Existing Instance RbacAdmin.RbacApi_fault.

(** ** What the graph holds of the tables *)

Lemma add_edge_edge g e r p : edge (add_edge g e) r p <-> edge g r p \/ (r, p) = e.
Proof.
  destruct e as [a b]. rewrite !edge_parents. simpl. unfold or_default.
  destruct (decide (r = a)) as [->|Hne].
  - rewrite lookup_insert_eq. simpl. rewrite elem_of_app, list_elem_of_singleton. naive_solver.
  - rewrite lookup_insert_ne by done. naive_solver.
Qed.

Lemma add_role_edge g row r p : edge (add_role g row) r p <-> edge g r p.
Proof.
  destruct row as [[id name] lvl]. rewrite !edge_parents. simpl. unfold or_default.
  destruct (decide (r = id)) as [->|Hne]; [by rewrite lookup_insert_eq | by rewrite lookup_insert_ne].
Qed.

Lemma edge_from_rows roles perms es r p : edge (from_rows roles perms es) r p <-> (r, p) ∈ es.
Proof.
  unfold from_rows.
  assert (forall g, edge (foldl add_edge g es) r p <-> edge g r p \/ (r, p) ∈ es) as ->.
  { induction es as [|e es IH]; intros g; simpl; [set_solver|].
    rewrite IH, add_edge_edge. set_solver. }
  assert (forall g, edge (foldl add_perm g perms) r p <-> edge g r p) as ->.
  { induction perms as [|x perms IH]; intros g; simpl; [done | by rewrite IH]. }
  assert (forall g, edge (foldl add_role g roles) r p <-> edge g r p) as ->.
  { induction roles as [|x roles IH]; intros g; simpl; [done | by rewrite IH, add_role_edge]. }
  split; [|by right]. intros [(ps & Hps & _)|]; [done|done].
Qed.

(** A permission is one's own. *)
Definition owns (g : RoleGraph) (r : uuid) (k : string) : Prop :=
  exists perms, own_perms g !! r = Some perms /\ k ∈ perms.

Lemma owns_default g r k : owns g r k <-> k ∈ default ∅ (own_perms g !! r).
Proof. unfold owns. destruct (own_perms g !! r); simpl; [naive_solver | set_solver]. Qed.

Lemma owns_from_rows roles perms es r k : owns (from_rows roles perms es) r k <-> (r, k) ∈ perms.
Proof.
  unfold from_rows.
  assert (forall g, own_perms (foldl add_edge g es) = own_perms g) as He.
  { induction es as [|e es IH]; intros g; simpl; [done | by rewrite IH]. }
  rewrite owns_default, He.
  assert (forall g, k ∈ default ∅ (own_perms (foldl add_perm g perms) !! r) <->
    k ∈ default ∅ (own_perms g !! r) \/ (r, k) ∈ perms) as ->.
  { induction perms as [|[a b] perms IH]; intros g; simpl; [set_solver|]. rewrite IH. simpl.
    unfold or_default. destruct (decide (r = a)) as [->|Hne].
    - rewrite lookup_insert_eq. simpl. set_solver.
    - rewrite lookup_insert_ne by done. set_solver. }
  assert (forall g, default ∅ (own_perms (foldl add_role g roles) !! r) = default ∅ (own_perms g !! r)) as ->.
  { induction roles as [|[[a n] l] roles IH]; intros g; simpl; [done|]. rewrite IH. simpl.
    unfold or_default. destruct (decide (r = a)) as [->|Hne];
      [by rewrite lookup_insert_eq | by rewrite lookup_insert_ne]. }
  split; [|by right]. intros [H|]; [by apply elem_of_empty in H | done].
Qed.

Lemma no_cycle g : has_cycle g = false -> forall x, ~ tc (edge g) x x.
Proof.
  intros H x Hx. assert (has_cycle_in g (elements (dom (inherits g))) = true) as Ht.
  { apply has_cycle_iff; [intros n; by rewrite elem_of_elements | by exists x]. }
  unfold has_cycle in H. congruence.
Qed.

(** ** Sound tables *)

Definition leads (es : list (uuid * uuid)) (r p : uuid) : Prop := (r, p) ∈ es.

Record Sound (db : RbacDb) : Prop := {
  ids_differ : NoDup (r_id <$> role_rows db);
  names_differ : NoDup (r_name <$> role_rows db);
  ids_drawn : forall n r, (rbac_ids db <= n)%nat -> r ∈ role_rows db -> r_id r <> gen_random_uuid n;
  grants_known : forall r k, (r, k) ∈ grants db ->
    r ∈ r_id <$> role_rows db /\ k ∈ (catalog db).*1;
  edges_known : forall r p, (r, p) ∈ edges db ->
    r ∈ r_id <$> role_rows db /\ p ∈ r_id <$> role_rows db;
  no_cycles : forall r, ~ tc (leads (edges db)) r r;
}.

Lemma role_exists_iff db rid : role_exists db rid = true <-> rid ∈ r_id <$> role_rows db.
Proof.
  unfold role_exists, is_role. rewrite existsb_exists, list_elem_of_fmap.
  setoid_rewrite <- list_elem_of_In. setoid_rewrite bool_decide_eq_true. naive_solver.
Qed.

Lemma elem_of_insert_new `{EqDecision A} (xs l : list A) x :
  x ∈ foldl insert_new l xs <-> x ∈ l \/ x ∈ xs.
Proof.
  revert l. induction xs as [|y xs IH]; intros l; simpl; [set_solver|].
  rewrite IH. unfold insert_new. case_bool_decide; set_solver.
Qed.

Lemma tc_subset (es es' : list (uuid * uuid)) x y :
  (forall e, e ∈ es -> e ∈ es') -> tc (leads es) x y -> tc (leads es') x y.
Proof.
  intros H Ht. induction Ht as [x y Hxy | x y z Hxy _ IH].
  - apply tc_once. by apply H.
  - eapply tc_l; [by apply H | done].
Qed.

Lemma elem_of_dedup `{EqDecision A} (l : list A) x : x ∈ dedup l <-> x ∈ l.
Proof.
  induction l as [|y [|z l] IH]; [done | done |].
  change (dedup (y :: z :: l)) with
    (if bool_decide (y = z) then dedup (z :: l) else y :: dedup (z :: l)).
  case_bool_decide; [subst|]; set_solver.
Qed.

(** ** Every step keeps the tables sound *)

Lemma Sound_cached g db : Sound db -> Sound (with_cached g db).
Proof. by intros []. Qed.

Lemma Sound_audit x db : Sound db -> Sound (add_audit x db).
Proof. by intros []. Qed.

(** What a method does to the tables, then the graph. *)
Lemma then_reload {A B} (I P : RbacDb -> Prop) (m : M A) (f : A -> B) :
  (forall g db, I db -> I (with_cached g db)) -> triple I P m (fun _ _ => True) ->
  triple I P (x ← m; _ ← reload_rbac; mret (f x)) (fun _ _ => True).
Proof.
  intros Hg Hm. eapply triple_bind; [apply Hm|]. intros x. apply keeps_bind.
  - apply keeps_call. intros db. apply Hg.
  - intros ?. apply keeps_ret.
Qed.

Lemma then_reload_unit {A} (I P : RbacDb -> Prop) (m : M A) :
  (forall g db, I db -> I (with_cached g db)) -> triple I P m (fun _ _ => True) ->
  triple I P (_ ← m; reload_rbac) (fun _ _ => True).
Proof. intros Hg Hm. eapply triple_bind; [apply Hm|]. intros ?. apply keeps_call. intros db. apply Hg. Qed.

Lemma audit_keeps (I : RbacDb -> Prop) event actor detail :
  (forall x db, I db -> I (add_audit x db)) -> keeps I (audit event actor detail).
Proof. intros H. apply triple_effect. intros db Hi _. split; [by apply H | done]. Qed.

Lemma create_role_sound name description level : keeps Sound (create_role name description level).
Proof.
  apply then_reload; [apply Sound_cached|]. apply keeps_call. intros db [Hi Hn Hf Hg He Hc].
  destruct (existsb _ (role_rows db)) eqn:Hname; [done|]. split; simpl; rewrite ?fmap_app; simpl.
  - apply NoDup_app; split; [done|]. split; [|apply NoDup_singleton].
    intros x (r & -> & Hr)%list_elem_of_fmap. rewrite list_elem_of_singleton. by apply (Hf (rbac_ids db)).
  - apply NoDup_app; split; [done|]. split; [|apply NoDup_singleton].
    intros x (r & -> & Hr)%list_elem_of_fmap. rewrite list_elem_of_singleton. intros Heq.
    apply not_true_iff_false in Hname. apply Hname, existsb_exists. exists r.
    split; [by apply list_elem_of_In | by apply bool_decide_eq_true].
  - intros n r Hn' [Hr | ->%list_elem_of_singleton]%elem_of_app; [apply Hf; [lia | done]|].
    simpl. intros Heq%gen_random_uuid_inj. lia.
  - intros r k Hrk. destruct (Hg r k Hrk). set_solver.
  - intros r p Hrp. destruct (He r p Hrp). set_solver.
  - done.
Qed.

Lemma edited_id rid description level (rs : list RoleRow) :
  r_id <$> ((fun r => if is_role rid r then edited description level r else r) <$> rs) = r_id <$> rs.
Proof. rewrite <- list_fmap_compose. apply list_fmap_ext. intros i r _. simpl. by destruct (is_role rid r). Qed.

Lemma edited_name rid description level (rs : list RoleRow) :
  r_name <$> ((fun r => if is_role rid r then edited description level r else r) <$> rs) = r_name <$> rs.
Proof. rewrite <- list_fmap_compose. apply list_fmap_ext. intros i r _. simpl. by destruct (is_role rid r). Qed.

Lemma update_role_sound rid description level : keeps Sound (update_role rid description level).
Proof.
  apply then_reload; [apply Sound_cached|]. apply keeps_call. intros db [Hi Hn Hf Hg He Hc].
  destruct (find_first _ _) as [r0|]; [|done].
  split; simpl; rewrite ?edited_id, ?edited_name; try done.
  intros n r Hn' (r' & -> & Hr')%list_elem_of_fmap. pose proof (Hf n r' Hn' Hr').
  by destruct (is_role rid r').
Qed.

Lemma delete_role_sound rid : keeps Sound (delete_role rid).
Proof.
  apply then_reload; [apply Sound_cached|]. apply keeps_call. intros db [Hi Hn Hf Hg He Hc].
  assert (forall x, x ∈ r_id <$> role_rows db -> x <> rid ->
    x ∈ r_id <$> List.filter (fun r => negb (is_role rid r)) (role_rows db)) as Hstay.
  { intros x (r & -> & Hr)%list_elem_of_fmap Hne. apply list_elem_of_fmap. exists r. split; [done|].
    apply elem_of_lfilter. split; [done|]. unfold is_role. by rewrite bool_decide_eq_false_2. }
  split; simpl.
  - by apply NoDup_fmap_filter.
  - by apply NoDup_fmap_filter.
  - intros n r Hn' [Hr _]%elem_of_lfilter. by apply Hf.
  - intros r k [Hrk Hne]%elem_of_lfilter. destruct (Hg r k Hrk) as [H1 H2]. split; [|done].
    apply Hstay; [done|]. by apply negb_true_iff, bool_decide_eq_false in Hne.
  - intros r p [Hrp Hne]%elem_of_lfilter. destruct (He r p Hrp) as [H1 H2]. simpl in Hne.
    apply andb_true_iff in Hne as [N1 N2].
    apply negb_true_iff, bool_decide_eq_false in N1, N2. split; by apply Hstay.
  - intros r Hr. apply (Hc r). eapply tc_subset, Hr. by intros e [? ?]%elem_of_lfilter.
Qed.

Lemma set_role_permissions_sound rid keys : keeps Sound (set_role_permissions rid keys).
Proof.
  apply then_reload_unit; [apply Sound_cached|]. apply keeps_call. intros db [Hi Hn Hf Hg He Hc].
  destruct (forallb _ keys) eqn:Hkeys; [|done]. rewrite forallb_forall in Hkeys. split; simpl; try done.
  intros r k [[Hrk _]%elem_of_lfilter | (k' & Heq & Hk)%list_elem_of_fmap]%elem_of_insert_new; [by apply Hg|].
  injection Heq as -> ->. apply list_elem_of_In, Hkeys, andb_true_iff in Hk as [H1 H2].
  split; [by apply role_exists_iff | by apply bool_decide_eq_true in H2].
Qed.

(** The edges as they would be. *)
Definition edges_after (rid : uuid) (parents : list uuid) (es : list (uuid * uuid)) : list (uuid * uuid) :=
  List.filter (fun e => negb (e.1 ≟ rid)) es ++ ((fun p => (rid, p)) <$> parents).

Lemma set_role_inheritance_sound rid parents :
  triple Sound (fun db => forall r, ~ tc (leads (edges_after rid parents (edges db))) r r)
    (set_role_inheritance rid parents) (fun _ _ => True).
Proof.
  apply then_reload_unit; [apply Sound_cached|]. apply triple_call. intros db [Hi Hn Hf Hg He Hc] Ha.
  destruct (existsb _ parents); [done|].
  destruct (forallb _ parents) eqn:Hps; [|done]. rewrite forallb_forall in Hps. split; [|done].
  split; simpl; try done.
  - intros r p [[Hrp _]%elem_of_lfilter | (p' & Heq & Hp)%list_elem_of_fmap]%elem_of_insert_new; [by apply He|].
    injection Heq as -> ->. apply list_elem_of_In, Hps, andb_true_iff in Hp as [H1 H2].
    split; by apply role_exists_iff.
  - intros r Hr. apply (Ha r). eapply tc_subset, Hr. intros e He'%elem_of_insert_new. by apply elem_of_app.
Qed.

Lemma reads_get_role rid :
  reads (db_call (get_role rid) ≫= found) (fun db r => find_first (is_role rid) (role_rows db) = Some r).
Proof.
  eapply reads_bind; [apply reads_map_err, reads_select|]. intros [r|]; simpl.
  - apply reads_ret. by intros db <-.
  - apply reads_throw.
Qed.

Lemma reads_snapshot : reads (db_call rbac_snapshot) (fun db '(rs, _, _, es) =>
  es = edges db /\ forall r, r ∈ rs <-> r ∈ role_rows db).
Proof.
  apply reads_map_err. apply (reads_weaken _ _ _ (reads_select _)). intros db [[[rs ps] gs] es] [= -> -> -> ->].
  split; [done|]. intros r. apply elem_of_sort_by.
Qed.

(** The graph the check looks at is the one the edit would leave. *)
Lemma candidate_acyclic roles es rid parents :
  has_cycle (candidate roles es rid parents) = false -> forall r, ~ tc (leads (edges_after rid parents es)) r r.
Proof.
  intros H r Hr. apply (no_cycle _ H r).
  enough (forall x y, tc (leads (edges_after rid parents es)) x y ->
    tc (edge (candidate roles es rid parents)) x y) as Hsub by by apply Hsub.
  intros x y Ht. induction Ht as [x y Hxy | x y z Hxy _ IH].
  - apply tc_once, edge_from_rows. exact Hxy.
  - eapply tc_l; [apply edge_from_rows; exact Hxy | exact IH].
Qed.

Lemma set_inheritance_sound actor rid inherits : keeps Sound (set_inheritance_route actor rid inherits).
Proof.
  unfold set_inheritance_route. eapply triple_bind; [apply triple_reads, reads_snapshot|].
  intros [[[roles ps] gs] es]. simpl.
  destruct (negb _); [apply triple_throw|]. destruct (bool_decide _); [apply triple_throw|].
  destruct (find_first _ _); [apply triple_throw|].
  destruct (has_cycle _) eqn:Hc; [apply triple_throw|]. pose proof (candidate_acyclic _ _ _ _ Hc) as Ha.
  eapply triple_bind; [|intros ?; apply audit_keeps, Sound_audit].
  apply triple_map_err. eapply triple_weaken; [apply set_role_inheritance_sound | | done].
  by intros db _ [_ [-> _]].
Qed.

Lemma serve_sound actor req : keeps Sound (serve actor req).
Proof.
  assert (forall event detail, keeps Sound (audit event actor detail)) as Haudit.
  { intros. apply audit_keeps, Sound_audit. }
  destruct req as [|n d l|rid d l|rid|rid ps|rid ps]; simpl.
  - apply keeps_bind; [|intros ?; apply keeps_ret]. apply keeps_bind.
    + eapply keeps_reads, reads_snapshot.
    + intros [[[rs ps] gs] es]. apply keeps_ret.
  - apply keeps_bind; [|intros ?; apply keeps_ret]. unfold create_role_route.
    destruct (trim n ≟ _); [apply keeps_throw|]. destruct (l <? 0); [apply keeps_throw|].
    apply keeps_bind; [apply keeps_map_err, create_role_sound|]. intros role.
    apply keeps_bind; [apply Haudit | intros ?; apply keeps_ret].
  - apply keeps_bind; [|intros ?; apply keeps_ret]. unfold update_role_route.
    apply keeps_bind; [eapply keeps_reads, reads_get_role|]. intros existing.
    destruct (_ && _); [apply keeps_throw|]. destruct (is_some_and _ _); [apply keeps_throw|].
    apply keeps_bind; [apply keeps_map_err, update_role_sound|]. intros role.
    apply keeps_bind; [apply Haudit | intros ?; apply keeps_ret].
  - unfold delete_role_route. apply keeps_bind; [eapply keeps_reads, reads_get_role|]. intros existing.
    destruct (is_system existing); [apply keeps_throw|].
    apply keeps_bind; [apply keeps_map_err, delete_role_sound | intros ?; apply Haudit].
  - unfold set_permissions_route. apply keeps_bind; [eapply keeps_reads, reads_get_role|]. intros existing.
    apply keeps_bind; [eapply keeps_map_err, keeps_select|]. intros known. simpl.
    destruct (find_first _ _); [apply keeps_throw|].
    apply keeps_bind; [apply keeps_map_err, set_role_permissions_sound | intros ?; apply Haudit].
  - apply set_inheritance_sound.
Qed.

(** ** The cached graph *)

Definition in_force (db : RbacDb) : Prop := cached db = graph_of db.

Definition writes (req : Request) : bool := match req with GetRbac => false | _ => true end.

Abbreviation anything := (fun _ : RbacDb => True).

Lemma reload_in_force P : triple anything P reload_rbac (fun _ => in_force).
Proof. by apply triple_call. Qed.

Lemma written {A B} P (m : M A) (f : A -> B) :
  triple anything P (x ← m; _ ← reload_rbac; mret (f x)) (fun _ => in_force).
Proof.
  eapply triple_bind; [eapply triple_weaken; [apply (triple_keeps anything anything m) | done | done]|].
  - intros db fs _ _. by destruct (m (db, fs)) as [[? ?] []].
  - intros x. eapply triple_bind; [apply reload_in_force|]. intros ?. by apply triple_ret.
Qed.

Lemma written_unit {A} P (m : M A) : triple anything P (_ ← m; reload_rbac) (fun _ => in_force).
Proof.
  eapply triple_bind; [eapply triple_weaken; [apply (triple_keeps anything anything m) | done | done]|].
  - intros db fs _ _. by destruct (m (db, fs)) as [[? ?] []].
  - intros ?. apply reload_in_force.
Qed.

Lemma audit_in_force event actor detail :
  triple anything in_force (audit event actor detail) (fun _ => in_force).
Proof. by apply triple_effect. Qed.

(** A write, then the log. *)
Lemma written_audited {A B} P (m : M A) event actor (detail : A -> json) (k : A -> B) :
  triple anything P m (fun _ => in_force) ->
  triple anything P (x ← db_call m; _ ← audit event actor (detail x); mret (k x)) (fun _ => in_force).
Proof.
  intros Hm. eapply triple_bind; [apply triple_map_err, Hm|]. intros x. simpl.
  eapply triple_bind; [apply audit_in_force|]. intros ?. by apply triple_ret.
Qed.

Lemma written_audited_unit {A} P (m : M A) event actor detail :
  triple anything P m (fun _ => in_force) ->
  triple anything P (_ ← db_call m; audit event actor detail) (fun _ => in_force).
Proof.
  intros Hm. eapply triple_bind; [apply triple_map_err, Hm|]. intros x. apply audit_in_force.
Qed.

Lemma after_read {A B} P (m : H A) R (k : A -> H B) Q :
  reads m R -> (forall x, triple anything anything (k x) Q) -> triple anything P (m ≫= k) Q.
Proof.
  intros Hm Hk. eapply triple_bind; [apply (triple_reads _ P m R Hm)|]. intros x.
  by eapply triple_weaken; [apply Hk | |].
Qed.

Lemma then_ret {A} P (m : H A) :
  triple anything P m (fun _ => in_force) -> triple anything P (_ ← m; mret tt) (fun _ => in_force).
Proof. intros Hm. eapply triple_bind; [apply Hm|]. intros ?. by apply triple_ret. Qed.

Lemma serve_in_force actor req :
  triple anything (fun db => writes req = true \/ in_force db) (serve actor req) (fun _ => in_force).
Proof.
  destruct req as [|n d l|rid d l|rid|rid ps|rid ps]; simpl.
  - apply then_ret. eapply triple_bind; [apply triple_reads, reads_snapshot|].
    intros [[[rs ps] gs] es]. apply triple_ret. by intros db _ [[Hw|Hw] _].
  - apply then_ret. unfold create_role_route.
    destruct (trim n ≟ _); [apply triple_throw|]. destruct (l <? 0); [apply triple_throw|].
    apply written_audited, (written _ _ (fun x => x)).
  - apply then_ret. eapply after_read; [apply reads_get_role|]. intros existing.
    destruct (_ && _); [apply triple_throw|]. destruct (is_some_and _ _); [apply triple_throw|].
    apply written_audited, (written _ _ (fun x => x)).
  - eapply after_read; [apply reads_get_role|]. intros existing.
    destruct (is_system existing); [apply triple_throw|].
    apply written_audited_unit, (written _ _ (fun x => x)).
  - eapply after_read; [apply reads_get_role|]. intros existing.
    eapply after_read; [apply reads_map_err, reads_select|]. intros known. simpl.
    destruct (find_first _ _); [apply triple_throw|].
    apply written_audited_unit, written_unit.
  - eapply after_read; [apply reads_snapshot|]. intros [[[roles ps'] gs] es]. simpl.
    destruct (negb _); [apply triple_throw|]. destruct (bool_decide _); [apply triple_throw|].
    destruct (find_first _ _); [apply triple_throw|]. destruct (has_cycle _); [apply triple_throw|].
    apply written_audited_unit, written_unit.
Qed.

(** What the tables grant to a holder of [roles]. *)
Definition granted (db : RbacDb) (roles : list uuid) (key : string) : Prop :=
  exists s r, s ∈ roles /\ rtc (leads (edges db)) s r /\ (r, key) ∈ grants db.

Lemma graph_of_granted db roles key : has_permission (graph_of db) roles key = true <-> granted db roles key.
Proof.
  rewrite has_permission_spec. unfold granted.
  assert (forall s r, rtc (edge (graph_of db)) s r <-> rtc (leads (edges db)) s r) as Hrtc.
  { intros s r. split; induction 1 as [|x y z Hxy _ IH]; try done; (eapply rtc_l; [|exact IH]).
    - by apply edge_from_rows in Hxy.
    - by apply edge_from_rows. }
  assert (forall r, (exists perms, own_perms (graph_of db) !! r = Some perms /\ key ∈ perms) <->
    (r, key) ∈ grants db) as Howns by (intros r; apply owns_from_rows).
  split.
  - intros (s & r & perms & Hs & Hr & Hp). exists s, r. split; [done|]. split; [by apply Hrtc|].
    apply Howns. by exists perms.
  - intros (s & r & Hs & Hr & Hg). apply Howns in Hg as (perms & Hp). exists s, r, perms.
    by rewrite Hrtc.
Qed.

(** ** The roles the tiers rest on *)

(** A system role, by what may not change of it. *)
Definition anchored (rid : uuid) (name : string) (level : Z) (db : RbacDb) : Prop :=
  exists r, r ∈ role_rows db /\ r_id r = rid /\ r_name r = name /\ is_system r = true /\ r_level r = level.

Section anchored.
Context (sid : uuid) (name : string) (lvl : Z).
Abbreviation I := (anchored sid name lvl).

Lemma same_role db r r' : Sound db -> r ∈ role_rows db -> r' ∈ role_rows db -> r_id r = r_id r' -> r = r'.
Proof.
  intros [Hi _ _ _ _ _] Hr Hr' Heq. apply list_elem_of_lookup in Hr as [i Hr].
  apply list_elem_of_lookup in Hr' as [j Hr'].
  assert (i = j) as -> by (eapply (NoDup_lookup (r_id <$> role_rows db)); [done | |];
    rewrite list_lookup_fmap; [by rewrite Hr | by rewrite Hr', Heq]).
  congruence.
Qed.

(** What was looked up is the role every row with that identifier is. *)
Lemma looked_up db rid existing r :
  Sound db -> find_first (is_role rid) (role_rows db) = Some existing ->
  r ∈ role_rows db -> r_id r = rid -> r = existing.
Proof.
  intros Hs [He Hid]%find_first_Some Hr Hrid. apply bool_decide_eq_true in Hid.
  apply (same_role db); congruence.
Qed.

Lemma anchored_audit event actor detail : keeps I (audit event actor detail).
Proof. by apply audit_keeps. Qed.

Lemma create_role_anchored n d l : keeps I (create_role n d l).
Proof.
  apply then_reload; [done|]. apply keeps_call. intros db (r & Hr & H).
  destruct (existsb _ _); [by exists r|]. exists r. split; [|done]. simpl. set_solver.
Qed.

Lemma update_role_anchored rid d l :
  triple I (fun db => l = None \/ forall r, r ∈ role_rows db -> r_id r = rid -> is_system r = false)
    (update_role rid d l) (fun _ _ => True).
Proof.
  apply then_reload; [done|]. apply triple_call. intros db (r & Hr & <- & <- & Hsys & <-) Hp.
  destruct (find_first _ _) as [r0|]; [|split; [by exists r | done]]. split; [|done].
  exists (if is_role rid r then edited d l r else r). split.
  { simpl. apply list_elem_of_fmap. by exists r. }
  destruct (is_role rid r) eqn:E; [|done]. apply bool_decide_eq_true in E. simpl.
  destruct Hp as [-> | Hp]; [done|]. rewrite (Hp r Hr E) in Hsys. done.
Qed.

Lemma delete_role_anchored rid :
  triple I (fun db => forall r, r ∈ role_rows db -> r_id r = rid -> is_system r = false)
    (delete_role rid) (fun _ _ => True).
Proof.
  apply then_reload; [done|]. apply triple_call. intros db (r & Hr & Hid & Hrest) Hp. split; [|done].
  exists r. split; [|done]. simpl. apply elem_of_lfilter. split; [done|].
  unfold is_role. rewrite bool_decide_eq_false_2; [done|]. intros Heq.
  destruct Hrest as (_ & Hsys & _). rewrite (Hp r Hr Heq) in Hsys. done.
Qed.

Lemma set_role_permissions_anchored rid keys : keeps I (set_role_permissions rid keys).
Proof. apply then_reload_unit; [done|]. apply keeps_call. intros db H. by destruct (forallb _ _). Qed.

Lemma set_role_inheritance_anchored rid ps : keeps I (set_role_inheritance rid ps).
Proof.
  apply then_reload_unit; [done|]. apply keeps_call. intros db H.
  destruct (existsb _ _); [done|]. by destruct (forallb _ _).
Qed.

(** From a method to the route that ends in it. *)
Lemma anchored_write {A B} P (m : M A) event actor (detail : A -> json) (k : A -> B) :
  triple I P m (fun _ _ => True) ->
  triple I P (x ← db_call m; _ ← audit event actor (detail x); mret (k x)) (fun _ _ => True).
Proof.
  intros Hm. eapply triple_bind; [apply triple_map_err, Hm|]. intros x. simpl.
  apply keeps_bind; [apply anchored_audit | intros ?; apply keeps_ret].
Qed.

Lemma anchored_write_unit {A} P (m : M A) event actor detail :
  triple I P m (fun _ _ => True) ->
  triple I P (_ ← db_call m; audit event actor detail) (fun _ _ => True).
Proof. intros Hm. eapply triple_bind; [apply triple_map_err, Hm|]. intros x. apply anchored_audit. Qed.

Lemma answered_unit {A} P (m : H A) :
  triple I P m (fun _ _ => True) -> triple I P (_ ← m; mret tt) (fun _ _ => True).
Proof. intros Hm. eapply triple_bind; [apply Hm|]. intros ?. apply keeps_ret. Qed.

Lemma update_route_anchored actor rid d l :
  triple I Sound (update_role_route actor rid d l) (fun _ _ => True).
Proof.
  eapply triple_bind; [apply triple_reads, reads_get_role|]. intros existing. simpl.
  destruct (is_system existing && is_some l) eqn:E; [apply triple_throw|].
  destruct (is_some_and _ _); [apply triple_throw|]. apply anchored_write.
  eapply triple_weaken; [apply update_role_anchored | | done].
  intros db _ [Hs Hf]. destruct l; [right | by left]. intros r Hr Hid.
  rewrite (looked_up db rid existing r Hs Hf Hr Hid). by rewrite andb_true_r in E.
Qed.

Lemma delete_route_anchored actor rid :
  triple I Sound (delete_role_route actor rid) (fun _ _ => True).
Proof.
  eapply triple_bind; [apply triple_reads, reads_get_role|]. intros existing. simpl.
  destruct (is_system existing) eqn:E; [apply triple_throw|]. apply anchored_write_unit.
  eapply triple_weaken; [apply delete_role_anchored | | done].
  intros db _ [Hs Hf] r Hr Hid. by rewrite (looked_up db rid existing r Hs Hf Hr Hid).
Qed.

Lemma serve_anchored actor req : triple I Sound (serve actor req) (fun _ _ => True).
Proof.
  destruct req as [|n d l|rid d l|rid|rid ps|rid ps]; simpl.
  - apply answered_unit. eapply triple_bind; [apply triple_reads, reads_snapshot|].
    intros [[[rs ps] gs] es]. by apply triple_ret.
  - apply answered_unit. unfold create_role_route.
    destruct (trim n ≟ _); [apply triple_throw|]. destruct (l <? 0); [apply triple_throw|].
    apply anchored_write. eapply triple_weaken; [apply create_role_anchored | done | done].
  - apply answered_unit, update_route_anchored.
  - apply delete_route_anchored.
  - eapply triple_bind; [apply triple_reads, reads_get_role|]. intros existing. simpl.
    eapply triple_bind; [eapply triple_keeps, keeps_map_err, keeps_select|]. intros known. simpl.
    destruct (find_first _ _); [apply triple_throw|].
    apply anchored_write_unit, set_role_permissions_anchored.
  - eapply triple_bind; [eapply triple_keeps, keeps_reads, reads_snapshot|].
    intros [[[roles ps'] gs] es]. simpl.
    destruct (negb _); [apply triple_throw|]. destruct (bool_decide _); [apply triple_throw|].
    destruct (find_first _ _); [apply triple_throw|]. destruct (has_cycle _); [apply triple_throw|].
    apply anchored_write_unit, set_role_inheritance_anchored.
Qed.
End anchored.

(** ** What an administrator may rely on *)

(** C24. Whatever fails on the way, no request of an administrator leaves the roles
    unsound: names and identifiers stay unique, grants and inheritance only mention what
    exists, and no role comes to inherit from itself, through others included.  And no
    system role is deleted, renamed, moved to another level or made an ordinary one. *)
Theorem roles_stay_sound actor req db fs :
  Sound db ->
  let db' := (serve actor req (db, fs)).1.1 in
  Sound db' /\ forall rid name level, anchored rid name level db -> anchored rid name level db'.
Proof.
  intros H. simpl. split.
  - pose proof (serve_sound actor req db fs H Logic.I) as Hs.
    destruct (serve actor req (db, fs)) as [[db' fs'] r]. by destruct Hs.
  - intros rid name level Ha. pose proof (serve_anchored rid name level actor req db fs Ha H) as Hs.
    destruct (serve actor req (db, fs)) as [[db' fs'] r]. by destruct Hs.
Qed.

(** C34. An edit that is answered is in force at once: whatever faults it met, the graph
    every gate asks then grants a set of roles exactly the permissions the tables do,
    through inheritance, even if the graph was stale before. *)
Theorem enforcement_follows actor req db fs db' fs' :
  writes req = true -> serve actor req (db, fs) = ((db', fs'), inl tt) ->
  forall roles key, has_permission (cached db') roles key = true <-> granted db' roles key.
Proof.
  intros Hw Hs roles key. pose proof (serve_in_force actor req db fs Logic.I (or_introl Hw)) as H.
  rewrite Hs in H. destruct H as [_ ->]. apply graph_of_granted.
Qed.
End RbacSafety.
End RbacSafety.
