(* ===== verification/AdminWitnesses.v ===== *)
(** * Administrators and devices at work

    The theorems of [RbacAdmin], [Devices], [Inbound] and [GroupsIo] at concrete inputs. *)
From stdpp Require Import relations.
From Stdlib Require Import QArith.
From S2P Require Import Prelude Text Wire Rbac Schedules Access Faults Money AuditLog Database Api Power Training GuardStore Accounts GuardSafety ServerWitnesses PlantWitnesses GuardWitnesses GroupsIo Devices Inbound RbacAdmin.

(** * A board edits its roles

    The properties of [RbacSafety] at work, and what a fault or an absent check does. *)
Import Rbac Faults Database Api RbacAdmin RbacSafety.

Module RbacExample.

#[local] Open Scope string_scope.
#[local] Open Scope list_scope.
#[local] Open Scope Z_scope.
#[local] Existing Instances string_uuid SpaceExample.ids.

Definition role (id name : string) (sys : bool) (lvl : Z) : RoleRow := {|
  r_id := id : @uuid string_uuid; r_name := name; r_description := EmptyString; is_system := sys; r_level := lvl |}.

(** Staff are also active members, administrators also staff; the board made a role for
    those who keep the keys. *)
Definition board0 : RbacDb := {|
  role_rows := [role "r0" "guest" true 0; role "r2" "active" true 2; role "r3" "staff" true 3;
    role "r4" "admin" true 4; role "rk" "keyholder" false 2];
  catalog := [("admin.access", "Administer"); ("doors.unlock", "Unlock doors"); ("tools.use", "Use tools")];
  grants := [("r2", "tools.use"); ("r3", "doors.unlock"); ("r4", "admin.access")];
  edges := [("r3", "r2"); ("r4", "r3")];
  assigned := [("ann", "r4")];
  cached := empty_graph; rbac_ids := 0; audited := [] |}.

Definition board : RbacDb := with_cached (graph_of board0) board0.

Definition answers {A} (x : State RbacDb * (A + ApiError)) : A + ApiError := x.2.

(** ** Sound, and kept so *)

Lemma board_sound : Sound board.
Proof.
  split.
  - apply (bool_decide_unpack _); by vm_compute.
  - apply (bool_decide_unpack _); by vm_compute.
  - intros n r _ Hr. assert (forallb (fun r => String.prefix "r" (r_id r)) (role_rows board) = true)
      as Hall by done.
    rewrite forallb_forall in Hall. apply list_elem_of_In, Hall in Hr. intros Heq. rewrite Heq in Hr.
    by destruct n.
  - assert (Forall (fun g => g.1 ∈ r_id <$> role_rows board /\ g.2 ∈ (catalog board).*1) (grants board)) as Hall
      by (apply (bool_decide_unpack _); by vm_compute).
    intros r k Hrk. rewrite Forall_forall in Hall. exact (Hall _ Hrk).
  - assert (Forall (fun e => e.1 ∈ r_id <$> role_rows board /\ e.2 ∈ r_id <$> role_rows board) (edges board)) as Hall
      by (apply (bool_decide_unpack _); by vm_compute).
    intros r p Hrp. rewrite Forall_forall in Hall. exact (Hall _ Hrp).
  - intros r Hr. apply (candidate_acyclic (role_rows board) (edges board) "none" [] ltac:(by vm_compute) r).
    eapply tc_subset, Hr. done.
Qed.

(** Active members may not become administrators of themselves: the cycle is refused,
    and a staff role for the keyholders goes in. *)
Definition circular : Request := SetRoleInheritance "r2" ["r4"].
Definition promote : Request := SetRoleInheritance "rk" ["r3"; "r3"].

Lemma circle_refused :
  answers (serve "ann" circular (board, [])) = inr (BadRequest "this inheritance change would create a cycle").
Proof. by vm_compute. Qed.

Lemma staff_anchored : anchored "r3" "staff" 3 board.
Proof. exists (role "r3" "staff" true 3). split; [|done]. simpl. set_solver. Qed.

Lemma roles_stay_sound_witness :
  Sound (serve "ann" promote (board, [])).1.1 /\
  Sound (serve "ann" circular (board, [Fine; Refused])).1.1 /\
  anchored "r3" "staff" 3 (serve "ann" (DeleteRole "r3") (board, [])).1.1.
Proof.
  split; [exact (proj1 (roles_stay_sound "ann" promote board [] board_sound))|].
  split; [exact (proj1 (roles_stay_sound "ann" circular board [Fine; Refused] board_sound))|].
  exact (proj2 (roles_stay_sound "ann" (DeleteRole "r3") board [] board_sound) "r3" "staff" 3 staff_anchored).
Defined.

(** Keyholders unlock doors as soon as the answer is there. *)
Lemma promote_answered :
  serve "ann" promote (board, []) =
    (((serve "ann" promote (board, [])).1.1, (serve "ann" promote (board, [])).1.2), inl tt).
Proof. by vm_compute. Qed.

Lemma enforcement_follows_witness :
  let db' := (serve "ann" promote (board, [])).1.1 in
  (has_permission (cached db') ["rk"] "doors.unlock" = true <-> granted db' ["rk"] "doors.unlock") /\
  has_permission (cached db') ["rk"] "doors.unlock" = true /\
  has_permission (cached board) ["rk"] "doors.unlock" = false.
Proof.
  split; [|split; [by vm_compute | by vm_compute]].
  exact (enforcement_follows "ann" promote board [] _ _ eq_refl promote_answered ["rk"] "doors.unlock").
Defined.

(** ** What may go wrong *)

(** The grants of staff are taken away and the rebuild of the graph fails: the caller is
    told of an error, the tables have changed, staff still unlock, the log is silent. *)
Lemma failed_rebuild_keeps_permissions :
  let st := serve "ann" (SetRolePermissions "r3" []) (board, [Fine; Fine; Fine; Refused]) in
  answers st <> inl tt /\ grants st.1.1 = [("r2", "tools.use"); ("r4", "admin.access")] /\
  has_permission (cached st.1.1) ["r3"] "doors.unlock" = true /\ audited st.1.1 = [].
Proof. vm_compute. by split; [|split; [|split]]. Qed.

(** The matrix takes the last administrators' access without a word. *)
Lemma matrix_locks_everybody_out :
  let st := serve "ann" (SetRolePermissions "r4" []) (board, []) in
  answers st = inl tt /\ has_permission (cached board) ["r4"] "admin.access" = true /\
  forallb (fun r => negb (has_permission (cached st.1.1) [r_id r] "admin.access")) (role_rows st.1.1) = true.
Proof. vm_compute. by split; [|split]. Qed.
End RbacExample.

(** * Two controllers and one code

    Two controllers redeem the same invite at the same moment. *)
Import Faults Interleaving Database Api Accounts Capabilities Devices DeviceSafety.

Module DeviceExample.

#[local] Open Scope string_scope.
#[local] Open Scope list_scope.
#[local] Open Scope Z_scope.
#[local] Existing Instances string_uuid SpaceExample.ids Devices_fault.

#[local] Instance plain_hash : TokenHash := fun t => "#" +:+ t.
#[local] Instance fold_case : CaseFold := {| to_lowercase := fun s => s; lower := fun s => s |}.
#[local] Instance hours : PlusHours := fun t n => if Z.abs n <? 10 ^ 12 then Some (t + seconds (3600 * n)) else None.
#[local] Instance show_time : TimeText := pretty.

Definition setup : Setup := {|
  seal := Some (fun k => Some ("sealed " +:+ k, "nonce")); edge_mqtt_config := Some ("mqtt://hub", "space");
  has_mqtt := true |}.

Definition shed0 : DeviceDb := {|
  invites := [{| ar_id := "i" : @uuid string_uuid; ar_device_code := encode_device_code "abc";
                 ar_expires_at := seconds 100; ar_used_at := None; ar_created_by := None; ar_created_at := 0 |}];
  space_devices := []; device_auth := []; place_ids := []; row_ids := 1; audit_rows := [];
  published_names := [] |}.

Definition request (name : string) : RegisterDeviceRequest := {|
  rq_device_code := "abc"; rq_name := name;
  rq_capabilities := JObj [("roles", JArr [JStr "reader"; JStr "power"])];
  rq_mac_address := "mac"; rq_software_version := "1"; rq_ipv4_address := None; rq_ipv6_address := None;
  rq_platform := "linux" |}.

Definition reg (name : string) : Request := Register (seconds 1) (request name) ("token of " +:+ name) "key".

Definition fine (i n : nat) : list (Event (L := Request)) := replicate n (Goes i Fine).

(** Both find the invite unused; then both claim it. *)
Definition race : list Event := [Comes (reg "lathe"); Comes (reg "saw")] ++ fine 0 2 ++ fine 1 2 ++ fine 1 1 ++ fine 0 1 ++ fine 1 4.

Definition after : DeviceDb * list (Request * Prog DeviceDb ApiError Response) :=
  play (serve setup) (idle shed0) race.

Definition answer_at (i : nat) : option (Response + ApiError) :=
  match after.2 !! i with Some (_, Done r) => Some r | _ => None end.

Lemma race_ends :
  answer_at 0 = Some (inr (BadRequest "Device code has already been used")) /\
  (exists resp, answer_at 1 = Some (inl (Registered resp)) /\ rr_device_name resp = "saw" /\
     find_device_by_auth_token after.1 "token of saw" = Some (rr_device_id resp) /\
     (mqtt_password <$> rr_mqtt_config resp) = Some (Some "token of saw")) /\
  length (space_devices after.1) = 1%nat.
Proof. vm_compute. by split; [|split; [eexists; split; [|split; [|split]]|]]. Qed.

Lemma shed_sound : Sound shed0.
Proof.
  split.
  - apply (bool_decide_unpack _); by vm_compute.
  - apply (bool_decide_unpack _); by vm_compute.
  - constructor.
  - intros n Hn. split; [|apply not_elem_of_nil]. simpl. rewrite list_elem_of_singleton.
    destruct n as [|n]; [simpl in Hn; lia|]. done.
  - constructor.
  - intros d Hd. by apply elem_of_nil in Hd.
Qed.

Lemma one_device_per_invite_witness :
  (forall d d', d ∈ space_devices after.1 -> d' ∈ space_devices after.1 -> enrolled_by d = enrolled_by d' -> d = d') /\
  length (space_devices after.1) = 1%nat.
Proof.
  split; [|exact (proj2 (proj2 race_ends))].
  exact (proj1 (one_device_per_invite setup shed0 after.1 after.2 shed_sound
    (play_leads (serve setup) (idle shed0) race))).
Defined.

(** The edge comes back before its old connection is torn down. *)
Definition reconnect : list Channels.Event := [
  Channels.Connects ("edge" : @uuid string_uuid); Channels.Connects ("edge" : @uuid string_uuid);
  Channels.Disconnects 0; Channels.Pushed ("edge" : @uuid string_uuid) "name" JNull].

Lemma slot_is_newest_witness :
  (Channels.tx <$> Channels.inner (Channels.registry (Channels.run reconnect)) !! ("edge" : @uuid string_uuid)) =
    Channels.should_hold "edge" (Channels.history reconnect) /\
  Channels.should_hold "edge" (Channels.history reconnect) = Some 1%nat /\
  (Channels.waiting <$> Channels.queues (Channels.registry (Channels.run reconnect))) = [[]; [("name", JNull)]].
Proof.
  split; [|by vm_compute]. apply (Channels.slot_is_newest reconnect "edge"). by vm_compute.
Defined.

(** A code goes through its form at rest. *)
Lemma code_at_rest : encode_device_code "Az9" = "417a39" /\ decode_device_code "417a39" = "Az9" /\
  decode_device_code "not hex" = "not hex".
Proof. by vm_compute. Qed.

(** An invite for longer than dates reach ends the handler. *)
Lemma endless_invite :
  alone (create_device_invite 0 "ann" (Some (10 ^ 15)) "xyz") [] shed0 =
    (shed0, inr (InternalServerError "the handler panicked")).
Proof. by vm_compute. Qed.

(** A registration that is told nothing of its claim has burnt the invite. *)
Lemma lost_claim_burns :
  let '(db, r) := alone (register_device setup (seconds 1) (request "saw") "t" "k") [Fine; Fine; LostReply] shed0 in
  r = inr refused /\ space_devices db = [] /\ (is_some <$> (ar_used_at <$> invites db)) = [true].
Proof. by vm_compute. Qed.
End DeviceExample.

(** * A reader reports a yes

    An event of the hall's door, signed, forged, and of a device with no business there. *)
Import Faults Database GuardStore Inbound InboundSafety PlantExample GuardExample.

Module InboundExample.

#[local] Open Scope string_scope.
#[local] Open Scope list_scope.
#[local] Open Scope Z_scope.
#[local] Existing Instances string_uuid ids SpaceExample.utc SpaceExample.no_intervals hash jtext.

Definition mac (key message : string) : string := key +:+ "/" +:+ message.

(** The front door as a room, and a reader that has a key. *)
Definition room : GuardDb :=
  with_resources <["front" := row "front" "until_stopped"]>
    (with_devices <["reader" := live]> hall).

Definition site : InboundDb := {|
  guard := room;
  auths := [{| Devices.sa_device_id := "reader" : @uuid string_uuid; Devices.sa_auth_token := "hother";
               Devices.command_key_sealed := Some ("sealed", "nonce") |}] |}.

Definition unseal (s : string * string) : option string := Some "key".

Definition event (sig : string) : DoorEventIn := {|
  ev_door_id := "front" : @uuid string_uuid; ev_card_id := None; ev_granted := true; ev_reason := None;
  ev_source := None; ev_occurred_at := None; ev_sig := Some sig |}.

Definition good : string := mac "key" (Wire.doors_event_message "front" EmptyString true EmptyString).

Definition handled (sig : string) : InboundDb :=
  (handle_doors_event "card" (Some cipher) unseal mac 0 "reader" (event sig) (site, [])).1.1.

(** A forged event leaves nothing. *)
Lemma forged : door_events (guard (handled "guess")) = [] /\ resource_sessions (guard (handled "guess")) = [].
Proof. by vm_compute. Qed.

(** A signed one is entered and opens the room, although the reader is bound to nothing. *)
Lemma signed_from_anywhere :
  is_bound room "reader" "front" = false /\
  length (door_events (guard (handled good))) = 1%nat /\
  (rs_resource_id <$> resource_sessions (guard (handled good))) = ["front"].
Proof. by vm_compute. Qed.

(** Bo's card: the row names the card's row and not its code. *)
Definition swipe : DoorEventIn := {|
  ev_door_id := "front" : @uuid string_uuid; ev_card_id := Some "7"; ev_granted := true; ev_reason := None;
  ev_source := None; ev_occurred_at := None;
  ev_sig := Some (mac "key" (Wire.doors_event_message "front" "7" true EmptyString)) |}.

Definition swiped : InboundDb := (handle_doors_event "card" (Some cipher) unseal mac 0 "reader" swipe (site, [])).1.1.

Lemma card_is_named : card_id_attempted <$> door_events (guard swiped) = [Some "c7"] /\
  dae_user_id <$> door_events (guard swiped) = [Some ("bo" : @uuid string_uuid)].
Proof. by vm_compute. Qed.

(** What it could do is what the theorem says. *)
Lemma events_are_signed_at : handled good = site \/ Reported "card" (Some cipher) unseal mac "reader" (event good) site (handled good).
Proof. exact (events_are_signed "card" (Some cipher) unseal mac 0 "reader" (event good) site []). Qed.
End InboundExample.

(** * A mailing list *)
Import Text Faults Audit Database Accounts GroupsIo.

Module ListExample.

#[local] Open Scope string_scope.
#[local] Open Scope list_scope.
#[local] Open Scope Z_scope.
#[local] Existing Instances string_uuid.

#[local] Instance fold_case : CaseFold := {| to_lowercase := to_ascii_lowercase; lower := to_ascii_lowercase |}.

(** Who is on it, and who was: an address removed is a past member. *)
Definition roster : Type := list string * list string.

Definition leave (es : list string) (g : roster) : roster :=
  (List.filter (fun m => negb (bool_decide (normalize_email m ∈ normalize_email <$> es))) g.1, g.2 ++ es).

#[local] Program Instance groups_io : Service := {|
  group := roster;
  group_members := fst;
  past_members := snd;
  direct_add := fun es g => (g.1 ++ es, g.2);
  remove_members := leave;
|}.
Next Obligation. intros es g e. simpl. by rewrite fmap_app, elem_of_app. Qed.
Next Obligation.
  intros es [ms past] e. unfold leave. cbn [fst]. rewrite !list_elem_of_fmap.
  setoid_rewrite elem_of_lfilter. setoid_rewrite negb_true_iff. setoid_rewrite bool_decide_eq_false.
  setoid_rewrite list_elem_of_fmap. naive_solver.
Qed.

Definition cfg : GroupsioConfig := {|
  enabled := true; api_key := "key"; group_id := "space"; webhook_secret := "s";
  protected_addresses := ["owner@space.org"] |}.

Definition someone (id email : string) (opt_out : option instant) : Member := {|
  gm_id := id : @uuid string_uuid; gm_email := email; gm_is_active := true; gm_email_verified_at := Some 1;
  gm_opt_out_at := opt_out |}.

(** Ann is on it under another case, Bo is not yet, Cy left by a link, Di opted out, and a
    stranger is on it. *)
Definition space : ListDb := {|
  list_members := [someone "ann" "Ann@x.org" None; someone "bo" "bo@x.org" None; someone "cy" "cy@x.org" None;
    someone "di" "di@x.org" (Some 2)];
  list_addresses := [("ann" : @uuid string_uuid, "Ann@x.org"); ("bo" : @uuid string_uuid, "bo@x.org");
    ("cy" : @uuid string_uuid, "cy@x.org"); ("di" : @uuid string_uuid, "di@x.org")];
  sync_runs := []; sync_audit := [];
  the_group := (["ann@x.org"; "Owner@space.org"; "di@x.org"; "spam@y.org"], ["cy@x.org"]) : @group groups_io |}.

Definition pass (db : ListDb) (fs : list fault) : ListDb * (ReconcileOutcome + DatabaseError) :=
  let '((db, _), r) := reconcile_apply cfg (fun _ => "error") (Network "down") 9 (db, fs) in (db, r).

Lemma mirrored : exists o, (pass space []).2 = inl o /\ ok o = true /\ added o = 1%nat /\ removed o = 2%nat /\
  opted_out o = 1%nat /\ group_members (the_group (pass space []).1) = ["ann@x.org"; "Owner@space.org"; "bo@x.org"].
Proof. by eexists; vm_compute. Qed.

Definition cut : list fault := [Fine; Fine; Fine; LostReply].

(** The add is carried out, its answer lost, and the pass over. *)
Lemma cut_short : exists o, (pass space cut).2 = inl o /\ ok o = false /\
  error o = Some "direct_add: Network error talking to Groups.io: down" /\
  group_members (the_group (pass space cut).1) = ["ann@x.org"; "Owner@space.org"; "di@x.org"; "spam@y.org"; "bo@x.org"].
Proof. by eexists; vm_compute. Qed.

Lemma space_text : Forall str (gm_email <$> list_members space) /\ Forall str (group_members (the_group space)).
Proof. split; repeat constructor. Qed.

Lemma reconcile_mirrors_at :
  Forall str (gm_email <$> list_members space) /\ Forall str (group_members (the_group space)) /\
  ends (fun db => db = space) (reconcile_apply cfg (fun _ => "error") (Network "down") 9) (fun r db =>
    exists o, r = inl o /\
    (ok o = true -> forall e, e <> EmptyString -> holds (the_group db) e <-> owed cfg space e) /\
    forall e, e <> EmptyString ->
      (holds (the_group db) e -> holds (the_group space) e \/ owed cfg space e) /\
      (holds (the_group space) e -> owed cfg space e -> holds (the_group db) e)).
Proof.
  split; [apply space_text|]. split; [apply space_text|].
  exact (reconcile_mirrors cfg (fun _ => "error") (Network "down") 9 space (proj1 space_text) (proj2 space_text)).
Defined.

(** ** What past members are taken for *)

Definition after {A} (m : Faults.M ListDb DatabaseError A) (fs : list fault) (db : ListDb) : ListDb := (m (db, fs)).1.1.

Definition event (type : string) : AuditLog := {|
  ev_type := type; ev_user_id := Some ("bo" : @uuid string_uuid); ev_data := JNull |}.

Definition heard (type : string) : list fault -> ListDb -> ListDb :=
  after (handle_event cfg (Network "down") (event type)).

(** Bo is deactivated and activated again, and the add of that is missed: the pass that
    is to make up for it takes the platform's own removal for a member who left, and opts
    Bo out for good. *)
Definition bo (active : bool) (db : ListDb) : ListDb :=
  with_list_members (fmap (fun m => if gm_id m ≟ "bo" then
    {| gm_id := gm_id m; gm_email := gm_email m; gm_is_active := active;
       gm_email_verified_at := gm_email_verified_at m; gm_opt_out_at := gm_opt_out_at m |} else m)) db.

Definition returned : ListDb :=
  heard "user_activation" [Fine; Refused] (bo true
    (heard "user_deactivation" [] (bo false (heard "user_activation" [] space)))).

Lemma missed_add_opts_out :
  "bo@x.org" ∈ intended_emails returned /\
  (gm_opt_out_at <$> find_first (is_member ("bo" : @uuid string_uuid)) (list_members (pass returned []).1)) = Some (Some 9) /\
  "bo@x.org" ∉ group_members (the_group (pass returned []).1).
Proof. split_and!; [apply (bool_decide_unpack _); by vm_compute | by vm_compute | apply (bool_decide_unpack _); by vm_compute]. Qed.

(** Cy, who left by a link, is back on the list with the next event about the account,
    and no opt-out is recorded. *)
Definition cy_event : AuditLog := {|
  ev_type := "email_verified"; ev_user_id := Some ("cy" : @uuid string_uuid); ev_data := JNull |}.

Definition pushed : ListDb := after (handle_event cfg (Network "down") cy_event) [] space.

Lemma event_readds_who_left :
  "cy@x.org" ∈ group_members (the_group pushed) /\
  (gm_opt_out_at <$> find_first (is_member ("cy" : @uuid string_uuid)) (list_members (pass pushed []).1)) = Some None.
Proof. split; [apply (bool_decide_unpack _); by vm_compute | by vm_compute]. Qed.
End ListExample.
