(* ===== verification/Cmi5Witnesses.v ===== *)
(** * A small course: the cmi5 theorems at concrete inputs

    One course with one unit that asks for a pass at 0.8, bound to the safety step of
    the laser; Ann, who has been launched into it and has initialized; and a token
    bought but not exchanged. *)
From Stdlib Require Import Ascii SpecFloat.
From S2P Require Import Prelude Text Wire Rbac Faults Database Power Training TrainingGate Cmi5Manifest Cmi5RoundTrip Cmi5Session Cmi5Launch Cmi5Store Cmi5Courses Cmi5Lrs Cmi5Api Cmi5Grants Cmi5Surface PlantWitnesses.
Import Text Wire F64Parse F64Display Rbac Faults Manifest RoundTrip Session Launch Database Power Training Store Courses Lrs Cmi5Api Grants Surface PlantExample.

Module CourseExample.

#[local] Open Scope Z_scope.
#[local] Existing Instances string_uuid ids.

(** ** The interfaces, instantiated *)

(** The five entities of XML, and no numeric reference. *)
#[local] Instance xml : QuickXml := {|
  resolve_char_ref := fun _ => inl None;
  resolve_predefined_entity := fun n =>
    if n ≟ "amp"%string then Some "&"%string else if n ≟ "lt"%string then Some "<"%string else None;
|}.

(** Events as they were written, every text in one run. *)
Fixpoint plain (ws : list Manifest.Written) : stream :=
  match ws with
  | [] => []
  | WStart n kvs :: ws => inl (Start n (written_attr <$> kvs)) :: plain ws
  | WEmpty n kvs :: ws => inl (Empty n (written_attr <$> kvs)) :: plain ws
  | WEnd n :: ws => inl (End_ n) :: plain ws
  | WText s :: ws => inl (Manifest.Text s) :: plain ws
  end.

Lemma plain_reads_back ws : reads_back ws (plain ws).
Proof.
  induction ws as [|[n kvs|n kvs|n|s] ws IH]; simpl; try (by constructor).
  apply (rb_text s [inl (Manifest.Text s)]); [|done].
  rewrite <- (string_app_nil s) at 1. apply spells_run, spells_nothing.
Qed.

(** A statement as five fields. *)
Definition read_statement (v : json) : Statement + string :=
  match json_get v "verb" ≫= json_as_str with
  | None => inr "missing field `verb`"%string
  | Some verb =>
      let field k := default EmptyString (json_get v k ≫= json_as_str) in
      inl {| statement_id := None;
        actor := {| agent_object_type := None; agent_name := None; mbox := None;
          account := Some {| home_page := "https://space"; account_name := field "actor"%string |} |};
        verb := {| verb_iri := verb; display := None |};
        object := ActivityObject {| activity_object_type := None;
          activity_iri := field "object"%string; definition := None |};
        result := (fun b => {| score := Some {| scaled := parse_f64 "0.9"; Session.raw := None;
            score_min := None; score_max := None |};
          success := Some b; completion := None; result_duration := None |}) <$>
          (json_get v "success" ≫= json_as_bool);
        context := Some {| context_registration := uuid_parse (field "registration"%string);
          context_activities := Some {| category := Some
            ((fun c => {| activity_object_type := None; activity_iri := c; definition := None |})
              <$> [CMI5; MOVEON]); parent := None; grouping := None; other := None |};
          extensions := None |};
        timestamp := None |}
  end.

Definition write_statement (s : Statement) : json + string :=
  inl (JObj [("verb"%string, JStr (verb_id s))]).

#[local] Instance serde : Cmi5Json := {|
  agent_to_string := fun _ => inl "{}"%string;
  launch_data_to_value := fun _ => inl JNull;
  statement_to_value := write_statement;
  statement_from_value := read_statement;
|}.

#[local] Instance serde_reads : Cmi5JsonReads serde.
Proof. intros s v s' [= <-] [= <-]. done. Qed.

#[local] Instance hash : TokenHash := fun s => "h" +:+ s.
#[local] Instance fmt : Fmt := {| debug_str := fun s => s; debug_f64 := display_f64 |}.

(** ** The course *)

Definition unit_1 : AssignableUnit := {|
  au_id := "https://space/au/1"; au_move_on := Passed; mastery_score := parse_f64 "0.8";
  launch_method := Some OwnWindow; au_title := [{| lang := "en"; value := "Safety" |}];
  au_description := []; au_objective_ids := ["o1"%string]; au_url := "index.html";
  launch_parameters := None; entitlement_key := None |}.

Definition safety : CourseStructure := {|
  course := {| course_id := "https://space/course"; course_title := [{| lang := "en"; value := "Laser" |}];
               course_description := [] |};
  objectives := [{| objective_id := "o1"; objective_title := []; objective_description := [] |}];
  nodes := [NodeBlock {| block_id := "https://space/block"; block_title := [];
    block_description := []; block_objective_ids := []; children := [NodeAu unit_1] |}] |}.

Lemma manifest_roundtrip_witness :
  scores_ok safety /\ reads_back (to_manifest_xml safety) (plain (to_manifest_xml safety)) /\
  parse_manifest (plain (to_manifest_xml safety)) = Ok safety [].
Proof.
  assert (scores_ok safety) as Hs.
  { intros au m Hau. cbn in Hau. apply list_elem_of_singleton in Hau as ->. intros [= <-].
    split; vm_compute; reflexivity. }
  split; [exact Hs|]. split; [apply plain_reads_back|].
  apply (manifest_roundtrip safety (plain (to_manifest_xml safety)) Hs (plain_reads_back _)).
Defined.

(** ** The tables *)

Definition ann : User := {| user_id := "ann"; full_name := "Ann"; is_active := true;
  membership_next_due_at := None; profile := JNull |}.

Definition step : TrainingStep := {| step_id := "safety"; step_tool_id := "laser"; step_number := 1;
  step_name := "Safety"; training_materials_url := None; requires_assessment := false;
  assessment_type := None; duration_minutes := None; expires_after_days := Some 365;
  created_by := "ann"; self_attestable := false |}.

Definition shop_training : TrainingDb := {|
  power := with_base (with_users <["ann" := ann]> shop) plant; steps := {[ "safety" := step ]};
  progress := ∅; instructors := ∅; waivers := ∅; prerequisites := ∅ |}.

(** Ian may certify the safety step, and signs Ann off. *)
Definition with_ian : TrainingDb := {|
  power := power shop_training; steps := steps shop_training;
  progress := {[ ("ann", "safety")%string := {| progress_id := "p1"; progress_status := InProgress;
    instructor_id := None; progress_started_at := Some 10; completed_at := None; expires_at := None;
    assessment_score := None; progress_notes := None; acknowledged_materials_url := None |} ]};
  instructors := {[ ("ian", "safety")%string := {| instructor_row_id := "i1"; certified_by := "ann";
    instructor_expires_at := Some 100 |} ]}; waivers := ∅; prerequisites := ∅ |}.

Definition ian_signs : Training.request := CompleteSession "ian" "ann"
  {| ct_training_step_id := "safety"; ct_assessment_score := None; ct_passed := true; ct_notes := None |}.

Lemma completion_is_signed_witness :
  ~ TrainingGate.completed with_ian "ann" "safety" /\
  TrainingGate.completed (Training.handle 50 ian_signs (with_ian, [])).1.1 "ann" "safety" /\
  exists actor, TrainingGate.signer ian_signs = Some actor /\ TrainingGate.may_sign 50 with_ian actor "ann" "safety".
Proof.
  assert (~ TrainingGate.completed with_ian "ann" "safety") as Hn 
    by (intros (p & Hp & Hs); vm_compute in Hp; by simplify_eq).
  assert (TrainingGate.completed (Training.handle 50 ian_signs (with_ian, [])).1.1 "ann" "safety") as Hc
    by (vm_compute; by eexists).
  split; [exact Hn|]. split; [exact Hc|].
  pose proof (TrainingGate.completion_is_signed 50 ian_signs with_ian [] "ann" "safety" Hn) as H. revert H Hc.
  destruct (Training.handle 50 ian_signs (with_ian, [])) as [[db' fs'] x]. simpl. auto.
Defined.

Definition au_1 : Cmi5AssignableUnit := {| au_row_id := "au1"; au_course_id := "c1";
  au_block_id := None; au_iri := "https://space/au/1"; au_row_title := None; launch_url := "index.html";
  au_launch_parameters := None; au_launch_method := None; au_row_move_on := "Passed";
  au_mastery_score := parse_f64 "0.8"; au_position := 0; training_step_id := Some "safety"%string |}.

Definition ann_launched : Cmi5Registration := {| registration_user_id := "ann";
  registration_au_id := "au1"; actor_account := "ann"; registration_mode := "Normal";
  satisfied_at := None; passed_at := None; reg_completed_at := None |}.

Definition says_ (verb : string) : json := JObj [("verb", JStr verb); ("actor", JStr "ann");
  ("object", JStr "https://space/au/1"); ("registration", JStr "r1"); ("success", JBool true)]%string.

Definition token : Cmi5LaunchToken := {| token_registration_id := "r1";
  fetch_token_hash := "htoken"; session_token_hash := None; fetch_consumed_at := None;
  token_expires_at := 100; session_expires_at := 1000 |}.

Definition school : Cmi5Db := {|
  training := shop_training; courses := ∅; blocks := ∅; aus := {[ "au1" := au_1 ]};
  registrations := {[ "r1" := ann_launched ]}; launch_tokens := [token];
  statements := [{| statement_registration_id := "r1"; row_statement_id := "s1";
    statement_verb_iri := INITIALIZED; statement_json := says_ INITIALIZED |}];
  state_documents := ∅; files := ∅ |}.

Definition session : Cmi5SessionContext := {| session_registration_id := "r1";
  session_user_id := "ann"; session_au_id := "au1"; session_activity_id := "https://space/au/1";
  session_launch_mode := "Normal" |}.

Lemma earned_school : earned school.
Proof.
  split.
  - intros s Hs. cbn in Hs. apply list_elem_of_singleton in Hs as ->. by eexists.
  - intros reg r Hr. simpl in Hr. apply lookup_singleton_Some in Hr as [<- <-].
    exists au_1. split; [done|]. split.
    + intros s Hs. vm_compute in Hs. apply list_elem_of_singleton in Hs as ->.
      exists "https://space"%string. split; [|by apply says_initialized].
      split; try done. eexists. split; [done|]. done.
    + apply (proj1 (accepted_ordered _) {| initialized := true; terminated := false;
        outcome := {| passed := false; completed := false; failed := false |} |}).
      vm_compute. reflexivity.
    + intros [t Ht]. done.
Qed.

Lemma genuine_session : genuine session school.
Proof. by exists ann_launched, au_1. Qed.

(** ** Witnesses *)

(** The pass is taken, the step granted, and the learner completed. *)
Example a_pass_is_granted :
  match (run (record_statement 50 session "https://space" None "s2" (says_ PASSED)) school) with
  | (db', inl (Some g)) => grant_step_id g = "safety"%string /\ grant_score g = Some 90 /\
      (progress_status <$> progress (training db') !! ("ann", "safety")%string) = Some Training.Completed
  | _ => False
  end.
Proof. vm_compute. done. Qed.

Lemma grant_is_deserved_witness :
  let '((db', _), r) := record_statement 50 session "https://space" None "s2" (says_ PASSED)
    (school, []) in
  touched school session "https://space" (says_ PASSED) db' /\
  match r with inl g => granted 50 school session "https://space" (says_ PASSED) g db' | inr _ => True end.
Proof.
  apply (grant_is_deserved 50 session "https://space" (says_ PASSED) None "s2" school []
    earned_school genuine_session).
Defined.

Definition settings : Settings := {| cmi5_enabled := true;
  service := {| max_package_bytes := 1000; fetch_ttl := 60; session_ttl := 600; content_origin := None |};
  site_url := "https://space" |}.

Definition every_manifest (_ : string) : stream := plain (to_manifest_xml safety).

Definition ann_launches (drawn : string) : request :=
  Launch {| drawn_registration := "r2"; drawn_statement := "s9"; drawn_token := drawn;
            drawn_etag := "e" |} "ann"%string "au1"%string.

Lemma satisfied_is_earned_witness :
  keeps earned (handle every_manifest settings 50
    (ann_launches "t2")).
Proof.
  apply (satisfied_is_earned every_manifest settings 50
    (ann_launches "t2")).
Defined.

(** Ann's token, exchanged. *)
Definition fetched : State Cmi5Db := (fetch_credential settings 50 "secret" (Some "token"%string) (school, [])).1.

Lemma the_token_buys :
  fetch_credential settings 50 "secret" (Some "token"%string) (school, []) = (fetched, inl (200, inl "secret"%string)).
Proof.
  rewrite (surjective_pairing (fetch_credential _ _ _ _ _)). by f_equal.
Qed.

Lemma token_buys_one_session_witness :
  match (fetch_credential settings 60 "again" (Some "token"%string)
    (serve every_manifest [(settings, 55, ann_launches "token")] fetched)).2 with
  | inl (200, inl c') => False
  | _ => True
  end.
Proof.
  pose proof (token_buys_one_session every_manifest settings 50 "secret" "token" "secret" school []
    fetched.1 fetched.2 [(settings, 55, ann_launches "token")] settings 60 "again"
    (NoDup_singleton _)) as H.
  rewrite <- surjective_pairing in H. specialize (H the_token_buys).
  destruct (fetch_credential settings 60 _ _ _) as [st r]. simpl in H |- *.
  repeat case_match; subst; try done; by eapply H.
Defined.

(** ** A package *)

Definition page (name : string) (n : nat) : ZipEntry + string :=
  inl {| entry_name := name; is_dir := false; enclosed := Some name;
         inflated := repeat (ascii_of_nat 65) n |}.

Definition package : ZipArchive := {|
  by_index := [page "cmi5.xml" 4; page "index.html" 3; page "index.html" 2];
  by_name := fun _ => Some (repeat (ascii_of_nat 65) 4) |}.

Example a_package_is_unpacked :
  match run (extract_all package "c9" 100) school with
  | (db', inl _) => size "c9" (files db') = 6
  | _ => False
  end.
Proof. vm_compute. reflexivity. Qed.

Lemma extraction_bounded_witness :
  let '((db', _), r) := extract_all package "c9" 100 (school, []) in
  under "c9" school db' /\ size "c9" (files db') <= 100 + 1 /\
  match r with
  | inl _ => size "c9" (files db') <= 100 /\
      forall rel, files db' !! ("c9"%string, rel) = unpack ∅ (by_index package) !! rel
  | inr _ => True
  end.
Proof. apply (extraction_bounded package "c9" 100 school []); [by split | intros rel; reflexivity]. Defined.

Lemma imported_exports_as_it_came_witness :
  match run (import_package every_manifest (service settings) 50 20 (inl package) "c9"%string "ann"%string) school with
  | (db', inl row) => exists l, run (export_package (course_row_id row)) db' = (db', inl l) /\
      l ≡ₚ map_to_list (unpack ∅ (by_index package))
  | (db', inr _) => courses db' = courses school /\ blocks db' = blocks school /\ aus db' = aus school
  end.
Proof.
  apply (imported_exports_as_it_came (U := string_uuid) every_manifest (service settings) 50 20 package "c9"%string
    "ann"%string school); [reflexivity | intros rel; reflexivity].
Defined.

Example the_package_is_imported :
  match run (import_package every_manifest (service settings) 50 20 (inl package) "c9"%string "ann"%string) school with
  | (db', inl row) => row_title row = Some "Laser"%string
  | _ => False
  end.
Proof. vm_compute. reflexivity. Qed.

End CourseExample.
